(* ===== verification/_CoqProject ===== *)
-Q . S2P
Prelude.v
JsLib.v
Json.v
Schemas.v
StateMachines.v
MissionEvents.v
MissionCoordinator.v
MissionExample.v
MissionSteps.v
MissionReach.v
MissionContract.v
MissionSchedule.v
MissionState.v
DeliveryOperations.v
HostEvents.v
JsonValue.v
TurnInput.v
RelayStore.v
Mailbox.v
Handoff.v
HandoffSpec.v
HandoffRefine.v
HandoffSafety.v
HandoffExample.v
HandoffRetry.v
MailboxFeed.v
HandoffLocks.v
HandoffGuarantees.v
IsoDates.v
Keys.v
LedgerStore.v
MissionLedger.v
MissionReconciliation.v
DeliveryLedger.v
DeliveryCompletion.v
DeliveryRevocation.v
NodeStore.v
NodeEnrollment.v
AgentAccounts.v
LedgerExample.v
LedgerRules.v
LedgerSteps.v
LedgerAppend.v
LedgerTerminal.v
LedgerMoves.v
LedgerCompletion.v
LedgerAuthority.v
LedgerCalls.v
LedgerRefine.v
LedgerProjection.v
LedgerMachine.v
MissionWork.v
LedgerWork.v
LedgerRetry.v
LedgerService.v
LedgerFence.v
NodeAccess.v
CapsulePrompt.v
CapsuleState.v
Capsule.v
CapsuleExample.v
CapsuleMoves.v
CapsuleValid.v
CapsuleSafety.v
CapsuleCommit.v
CapsuleReplay.v
CanonicalJson.v
RuntimeAuthority.v
RuntimeAuthoritySafety.v
NodePolicy.v
RuntimeAuthorityFactory.v
Journal.v
JournalSafety.v
NodeProgram.v
NodeAuthority.v
Processor.v
NodeLogic.v
NodeWork.v
NodeSafety.v
NodeForward.v
