(* ===== verification/Prelude.v ===== *)
(** * AgentRelay: a verification development

    AgentRelay lets coding agents of different people work on one Mission.  A
    Relay (src/relay) holds mailboxes, Missions and deliveries in PostgreSQL; a
    Node (src/node) claims deliveries under leases and runs an agent host for
    each turn; the protocol package (src/protocol) holds the data they exchange
    and the pure state machines both of them run.  Two people's agents can also
    hand a thread to each other directly through the Relay's mailbox service.

    ** What is modelled

    The protocol package:
    - [Schemas]: protocol/src/schemas.ts.  A record is the strict object shape;
      what zod still checks is a boolean per field and the list of issues of each
      [superRefine].
    - [StateMachines]: protocol/src/state-machines.ts.  The Mission and delivery
      transition tables and the lease, claim and fencing-token guards.
    - [MissionEvents], [MissionCoordinator]: protocol/src/mission-coordinator.ts.
      The event and state schemas, and the reducer: [createMissionCoordinatorState],
      [reduceMissionCoordinatorEvent] with its handlers, and
      [replayMissionCoordinatorEvents], which the Relay runs on every event and
      to rebuild a snapshot.
    - [DeliveryOperations]: protocol/src/delivery-operations.ts.  The inputs,
      receipts and results of the operations a Node performs on a delivery.
    - [HostEvents], [JsonValue], [TurnInput]: protocol/src/adapter.ts.  The event
      stream of an agent host, its policy limits, and the texts a turn is started
      with; the sanitised JSON values of host artifacts and their byte length;
      the turn inputs and terminal results that carry artifacts.

    The mailbox part of the Relay:
    - [RelayStore]: the tables of relay/src/db/schema.ts that it uses, with their
      constraints, the errors of relay/src/errors.ts, and a transaction monad
      with rollback, sequences, notifications and locks.
    - [Mailbox]: services/audit.ts, services/mailbox-events.ts,
      services/agent-block-lock.ts and the block-list handlers of
      routes/agents.ts.
    - [Handoff]: services/handoff.ts, every operation.

    The Relay's ledger, where Missions become work of Nodes:
    - [LedgerStore]: the Node, key, Mission, delivery and receipt tables of
      relay/src/db/schema.ts with every check, index and foreign key, added to
      the tables of [RelayStore], and the transaction monad over both.
      [NodeStore] adds the inserts and updates of the Node and key tables.
    - [Keys]: auth/keys.ts.  [AgentAccounts]: services/agent-registration.ts, the
      transactions of routes/admin.ts and the two bearer-token checks of
      auth/middleware.ts.
    - [MissionLedger]: services/mission-trust.ts, the credential check and locks of
      services/node-enrollment.ts, and services/mission-ledger.ts: creation,
      acceptance, appending an event with the deliveries it settles and derives, and
      the stored page.  [NodeEnrollment]: the rest of node-enrollment.ts.
    - [MissionReconciliation]: services/mission-reconciliation.ts, the end of
      Missions that are due.
    - [DeliveryLedger], [DeliveryCompletion]: services/delivery-ledger.ts, the
      operations of a Node on its leases, with receipts and their replay.
    - [DeliveryRevocation]: services/delivery-revocation.ts, the cancellation that
      goes with revoking a Node, a workspace or an agent.

    The Node's Codex capsule, the store that makes one execution of a model turn
    happen at most once although the process may die at any point:
    - [CapsulePrompt]: node/src/codex-capsule-prompt.ts and capsule-correlation.ts,
      the text of a turn and the hash that binds it.
    - [CapsuleState]: codex-capsule-state.ts, -types.ts and -records.ts, the file's
      records with every check of its schema.
    - [Capsule]: codex-capsule-transitions.ts and codex-capsule-store.ts, every
      operation, with writes that may fail before or after they reach the disk,
      crashes and reopening.

    The authority a Node gives one execution of a delivery:
    - [NodePolicy]: node/src/policy.ts and the policy and workspace schemas of
      config.ts, the owner's local policy and its digest.
    - [RuntimeAuthority]: runtime-authority-contract.ts and runtime-authority.ts,
      grants, their compilation and the monitor that every effect passes.
    - [RuntimeAuthorityFactory]: runtime-authority-factory.ts, the grant of one
      execution.

    The work of a Node:
    - [Journal]: node/src/journal.ts, the durable record of every delivery with its
      schema, every operation, the update that validates, saves and only then
      changes the state, and the migration of older files.
    - [NodeProgram]: what a Node does to the world.  A program is a tree of effects
      whose thrown errors are values: requests to the Relay (relay-client.ts, with its
      retries), calls of the agent host and of the runtime's authority port, clocks,
      journal updates, captured variables.  The state of a Node is the journal in
      memory and on the disk, the variables of the turn at work, and a log of what was
      sent, answered, started and saved.  A schedule picks at each step which task
      moves (the daemon, the lease keeper, or a cancellation nobody waits for), what
      the environment answers, when the shutdown is asked for, when timers fire, and
      when the process dies and starts again on what the disk holds.
    - [NodeAuthority]: runtime-authority-session.ts, the lease synchronizer, and
      delivery-runtime-authority.ts: installing the grant of an execution in the
      runtime, renewing, revoking and retiring it.
    - [Processor]: delivery-processor.ts, all of it; mission-acceptance.ts; and
      daemon.ts, whose loop [ForegroundNode_run] is the whole Node.

    [JsLib] and [Json] hold what the sources use of the JavaScript standard
    library; this file the notations, the lemmas and the tactics shared by all.

    ** How the parts meet

    [StateMachines.transitionMissionStatus] decides every status change of
    [MissionCoordinator]; [DeliveryOperations] accepts exactly the status pairs of
    [StateMachines.transitionDeliveryState]; [HostEvents.deriveHostMissionInputs]
    reads the coordinator's state; [Handoff] writes through [Mailbox] and
    [RelayStore].  Interfaces: the class [Zod] (with [ZodLaws]) stands for zod's
    uuid, date-time and url formats, the class [RelayEnv] for jsonb values and
    the database's random ids, [NodeJs] (with [NodeLaws]) for Node's sha256 and
    what the sources use of its standard library; all are parameters of every
    theorem, and the witnesses instantiate them.  The class [LedgerEnv] (with
    [LedgerLaws]) stands for the database's clock and the sizes of its jsonb
    columns, [RelayCrypto] for the sha256 digest of node:crypto.  [MissionLedger]
    runs the reducer of [MissionCoordinator] on every event it stores;
    [DeliveryLedger] keeps to the transitions of [StateMachines] without calling
    them, which [LedgerMachine] proves.  [Capsule] validates what it
    records with [HostEvents.acceptHostEvent] and the schemas of [TurnInput].

    ** What the theorems show

    - Coordinator: [MissionSteps] states the reducer as a step relation and
      proves it exact (it returns a state if and only if the relation has the
      step or the event is a replay).  Over reachable states: the log rebuilds
      the state and redelivery is idempotent ([MissionReach]); contract versions
      are consecutive and agreed by both participants ([MissionContract]); some
      participant can always move, completion needs passed verification of every
      required command, and the work is bounded by [max_turns]
      ([MissionSchedule]); every state passes its schema ([MissionState]).
    - Deliveries: fencing tokens are consecutive and an old one is refused for
      ever; a lease ends exactly at its deadline; terminal statuses are final and
      runs are bounded ([StateMachines]); receipts and results agree with the
      machine ([DeliveryOperations]).
    - Host streams: the shape, limits and accounting of any accepted stream
      ([HostEvents]).
    - Threads: [HandoffSpec] is the abstract service, [HandoffRefine] the
      refinement, [HandoffSafety] the invariant and what later stores keep.
      [HandoffGuarantees]: logs are complete and gapless, failures
      roll back, a block is a fence, closed threads are final.  [HandoffRetry]:
      keyed requests take effect once (and the empty key never works twice).
      [MailboxFeed]: a mailbox can be read page by page while it grows.
      [HandoffLocks]: locks are taken in one order and guard the boundary.

    - Ledger: [LedgerSteps] is its abstract specification, a relation between the
      tables before and after; the files from [LedgerAppend] to [LedgerRefine]
      show operation by operation that a call takes such steps, [LedgerService]
      states it for all calls.  On reachable ledgers: the stored events replay to
      the stored projection ([LedgerProjection]); rows follow the delivery state
      machine ([LedgerMachine]); the unsettled deliveries are exactly the work
      the Mission waits for ([MissionWork], [LedgerWork]); a Node may repeat any
      operation ([LedgerRetry]); a revocation fences its Missions for ever
      ([LedgerFence]).  [IsoDates]: the timestamps the rows are published with
      read back.
    - Keys: a token carries its random bytes and is well formed ([Keys]);
      the token of an enrollment or a rotation, and no older one, opens the Node
      ([NodeAccess]).
    - Capsules: [CapsuleMoves] states what one committed write may change and
      shows that every operation is such a move; [CapsuleValid] that the records
      stay valid, with the invariants over operations, failed writes,
      crashes and reopening.  An execution is dispatched at most once and its
      history only grows ([CapsuleSafety]); a well-formed operation commits
      ([CapsuleCommit]); a settled execution answers every replay with the result
      it stored ([CapsuleReplay]).

    - Authority: a policy digest binds the whole policy and a verification command
      runs only as configured ([NodePolicy]); a grant's limits are the
      intersection of its sources, every effect a monitor lets through is within
      the grant and recorded, and a revocation is final
      ([RuntimeAuthoritySafety]); a grant ends with the Mission, the policy's turn
      and holds no dangerous capability ([RuntimeAuthorityFactory]).
      [CanonicalJson] (which also holds the JSON of the Mission's events): two values have one canonical text only if they are the
      same up to the order of keys, which the digests rest on.

    - Journal: whatever fails, it opens again, and it binds the content of a delivery
      ([JournalSafety], with what each operation does to it).

    - Nodes at work: [NodeLogic] gives their programs a weakest precondition under the
      interference of the other tasks (what each may rely on, what it guarantees), and
      shows that a program that meets it keeps the invariant along every schedule;
      [NodeWork] has a triple for every operation of the processor, with what it leaves
      where it throws.  Hence ([NodeSafety]), for every schedule, answer and crash: what
      is sent was journaled and saved before; a published result is what the host's
      accepted stream ended with; the host is set to work only for an authorized,
      leased, unsettled delivery; and a settled delivery is never touched again.
      [NodeForward] follows every update of the journal through the same programs: the
      journal only moves forward, and a grant leaves it for a successor or when the
      runtime has confirmed its revocation.

    [MissionExample], [HandoffExample], [LedgerExample] and [CapsuleExample] hold the concrete runs
    the witnesses evaluate.

    ** Bounds

    The recursions are structural on lists, strings and event logs, with these exceptions:
    [Keys.drain], the inner loop of [base32], takes as fuel the number of bits it
    holds, of which every turn takes five.  The loops of a Node that have no bound in
    the source (the daemon's cycles, the keeper's renewals, the events of a stream) take
    fuel, the same for all; out of fuel a loop waits for ever ([stuck]), so an execution of
    n steps is one of the program with fuel n, and theorems quantify over the fuel.
    The retries, with bounds in the source, count down from those.  JavaScript strings are read as code units below 256.
    Integers are [Z]; where the code or the database bounds them (array limits,
    [integer] and [bigserial] columns, token and turn limits) the bound is a test
    of the model.  Dates are milliseconds; [Date.parse] is modelled on the
    timestamp format the schemas let through.

    ** What is not modelled

    In the Relay: the two reads of Node assignments in mission-ledger.ts, invites,
    the admin token, notifications, the HTTP routes around the services and the
    parsing of request bodies, start-up and configuration.  In the Node: the journal's
    file, the capsule's server process and adapters, the containment manifest, the
    configuration file, host processes, workspaces (their check is an answer of the
    environment).  The MCP server and its connectors.
    In the modelled services transactions run one at a time (their locks are
    modelled, not their interleaving).  Process control, files, network and time
    sources are outside the model. *)

From Stdlib Require Export ZArith Lia Bool.
From stdpp Require Export base option strings pretty gmap list.
From stdpp Require Export list_relations.
#[export] Set Default Goal Selector "!".

Declare Scope relay_scope.
Delimit Scope relay_scope with relay.
#[global] Open Scope Z_scope.
#[global] Open Scope relay_scope.

(** ** JavaScript equality tests

    [===] on primitives and [isDeepStrictEqual] on plain data are both decided
    equality of the model's values. *)
Notation "a === b" := (bool_decide (a = b)) (at level 70, no associativity) : relay_scope.
Notation "a !== b" := (negb (bool_decide (a = b))) (at level 70, no associativity) : relay_scope.

(** ** Results: a function that returns or throws *)
Inductive result (E A : Type) : Type :=
| Ok (a : A)
| Err (e : E).
Arguments Ok {E A} a.
Arguments Err {E A} e.

Definition is_ok {E A} (r : result E A) : bool :=
  match r with Ok _ => true | Err _ => false end.

Definition result_map {E A B} (f : A -> B) (r : result E A) : result E B :=
  match r with Ok a => Ok (f a) | Err e => Err e end.

Notation "'let*' x := e 'in' k" :=
  (match e with Ok x => k | Err err => Err err end)
  (at level 10, x pattern, e at level 100, k at level 200) : relay_scope.

(** [if (c) throw e; k] *)
Notation "'throw' e 'when' c 'in' k" :=
  (if c then Err e else k)
  (at level 10, e at level 9, c at level 100, k at level 200) : relay_scope.

#[export] Instance result_eq_dec {E A} `{EqDecision E, EqDecision A} : EqDecision (result E A).
Proof. solve_decision. Defined.

(** ** Schema issues

    [superRefine] collects issues; parsing succeeds exactly when none is added.
    A refinement is the list of the messages it adds. *)
Definition issues := list string.
Definition issue_if (c : bool) (m : string) : issues := if c then [m] else [].
Definition no_issues (l : issues) : bool :=
  match l with [] => true | _ :: _ => false end.

(** ** Record update: [r <| f := v |>] is the spread [{ ...r, f: v }] *)
Class Settable (R : Type) := eta_record : R -> R.
Class Setter {R T : Type} (proj : R -> T) := set_field : (T -> T) -> R -> R.
Arguments set_field {R T} proj {Setter} f r.

Ltac solve_setter :=
  match goal with
  | |- @Setter ?R ?T ?proj =>
      let i := constr:(@eta_record R _) in
      let e := eval hnf in i in
      let g := constr:(fun r : R => (ltac:(
         let b := eval cbv beta in (e r) in
         let p := eval pattern (proj r) in b in
         match p with ?h _ => exact h end) : T -> R)) in
      let g := eval cbv beta in g in
      exact (fun f r => g r (f (proj r)))
  end.
#[export] Hint Extern 0 (Setter _) => solve_setter : typeclass_instances.

Notation "r <| f := v |>" := (set_field f (fun _ => v) r)
  (at level 1, left associativity) : relay_scope.

(** ** Array helpers shared by the components *)

(** [new Set(values).size === values.length] *)
Definition unique_values {A} `{EqDecision A} (l : list A) : bool := bool_decide (NoDup l).

(** [array.includes(x)] *)
Definition includes {A} `{EqDecision A} (l : list A) (x : A) : bool := bool_decide (x ∈ l).

(** [array.some(p)], [array.every(p)], [array.find(p)] *)
Fixpoint some {A} (p : A -> bool) (l : list A) : bool :=
  match l with [] => false | x :: l => p x || some p l end.
Fixpoint every {A} (p : A -> bool) (l : list A) : bool :=
  match l with [] => true | x :: l => p x && every p l end.
Fixpoint array_find {A} (p : A -> bool) (l : list A) : option A :=
  match l with [] => None | x :: l => if p x then Some x else array_find p l end.
Fixpoint array_filter {A} (p : A -> bool) (l : list A) : list A :=
  match l with [] => [] | x :: l => if p x then x :: array_filter p l else array_filter p l end.

(** [[...new Set(values)]] *)
Fixpoint distinct {A} `{EqDecision A} (l : list A) : list A :=
  match l with [] => [] | x :: l => x :: array_filter (fun y => y !== x) (distinct l) end.

(** [array.length] *)
Definition len {A} (l : list A) : Z := Z.of_nat (length l).

Definition is_null {A} (o : option A) : bool := match o with None => true | Some _ => false end.
Definition non_null {A} (o : option A) : bool := negb (is_null o).

(** ** Lemmas *)
Lemma some_iff {A} (p : A -> bool) l : some p l = true <-> exists x, x ∈ l /\ p x = true.
Proof.
  induction l as [|y l IH]; cbn.
  - split; [done|]. intros (x & Hx & _). by apply not_elem_of_nil in Hx.
  - rewrite orb_true_iff, IH. setoid_rewrite elem_of_cons. naive_solver.
Qed.

Lemma some_false_iff {A} (p : A -> bool) l :
  some p l = false <-> forall x, x ∈ l -> p x = false.
Proof.
  rewrite <-not_true_iff_false, some_iff. split.
  - intros H x Hx. destruct (p x) eqn:E; [|done]. destruct H. by exists x.
  - intros H (x & Hx & Hp). by rewrite (H x Hx) in Hp.
Qed.

Lemma every_iff {A} (p : A -> bool) l : every p l = true <-> forall x, x ∈ l -> p x = true.
Proof.
  induction l as [|y l IH]; cbn.
  - split; [|done]. intros _ x Hx. by apply not_elem_of_nil in Hx.
  - rewrite andb_true_iff, IH. setoid_rewrite elem_of_cons. naive_solver.
Qed.

Lemma every_false {A} (p : A -> bool) l : every p l = false <-> exists x, x ∈ l /\ p x = false.
Proof.
  induction l as [|y l IH]; cbn.
  - split; [done|]. intros (x & Hx & _). by apply not_elem_of_nil in Hx.
  - rewrite andb_false_iff, IH. setoid_rewrite elem_of_cons. naive_solver.
Qed.

Lemma every_Forall {A} (p : A -> bool) l :
  every p l = true <-> Forall (fun x => p x = true) l.
Proof. rewrite every_iff, Forall_forall. reflexivity. Qed.

Lemma array_find_Some {A} (p : A -> bool) l x :
  array_find p l = Some x -> x ∈ l /\ p x = true.
Proof.
  induction l as [|y l IH]; cbn; [done|]. destruct (p y) eqn:E.
  - intros [= ->]. split; [left|done].
  - intros [? ?]%IH. split; [by right|done].
Qed.

Lemma array_find_None {A} (p : A -> bool) l :
  array_find p l = None <-> forall x, x ∈ l -> p x = false.
Proof.
  induction l as [|y l IH]; cbn.
  - split; [|done]. intros _ x Hx. by apply not_elem_of_nil in Hx.
  - setoid_rewrite elem_of_cons. destruct (p y) eqn:E.
    + split; [done|]. intros H. rewrite (H y) in E by auto. done.
    + rewrite IH. naive_solver.
Qed.

Lemma elem_of_array_filter {A} (p : A -> bool) l x :
  x ∈ array_filter p l <-> x ∈ l /\ p x = true.
Proof.
  induction l as [|y l IH]; cbn.
  - split; [intros Hx|intros [Hx _]]; by apply not_elem_of_nil in Hx.
  - destruct (p y) eqn:E; rewrite ?elem_of_cons, IH.
    + split; [intros [->|[? ?]]; auto|intros [[->|?] ?]; auto].
    + split; [intros [? ?]; auto|intros [[->|?] ?]; [congruence|auto]].
Qed.

Lemma elem_of_distinct {A} `{EqDecision A} (l : list A) x : x ∈ distinct l <-> x ∈ l.
Proof.
  induction l as [|y l IH]; cbn; [done|].
  rewrite !elem_of_cons, elem_of_array_filter, IH, negb_true_iff, bool_decide_eq_false.
  destruct (decide (x = y)); naive_solver.
Qed.

Lemma array_filter_length {A} (p : A -> bool) l : (length (array_filter p l) <= length l)%nat.
Proof. induction l as [|y l IH]; cbn; [lia|]. destruct (p y); cbn; lia. Qed.

Lemma distinct_length {A} `{EqDecision A} (l : list A) : (length (distinct l) <= length l)%nat.
Proof.
  induction l as [|x l IH]; [done|]. cbn.
  pose proof (array_filter_length (fun y => y !== x) (distinct l)). lia.
Qed.

Lemma array_filter_nil {A} (p : A -> bool) l :
  array_filter p l = [] <-> some p l = false.
Proof.
  induction l as [|y l IH]; cbn; [done|]. destruct (p y); cbn; [done|]. exact IH.
Qed.

Lemma array_filter_app {A} (p : A -> bool) l k :
  array_filter p (l ++ k) = array_filter p l ++ array_filter p k.
Proof. induction l as [|y l IH]; cbn; [done|]. destruct (p y); cbn; congruence. Qed.

Lemma NoDup_array_filter {A} (p : A -> bool) l : NoDup l -> NoDup (array_filter p l).
Proof.
  induction 1 as [|x l Nx N IH]; cbn; [constructor|]. destruct (p x); [|done].
  constructor; [|done]. by rewrite elem_of_array_filter; intros [].
Qed.

Lemma unique_values_iff {A} `{EqDecision A} (l : list A) : unique_values l = true <-> NoDup l.
Proof. apply bool_decide_eq_true. Qed.

Lemma includes_iff {A} `{EqDecision A} (l : list A) x : includes l x = true <-> x ∈ l.
Proof. apply bool_decide_eq_true. Qed.

Lemma includes_false_iff {A} `{EqDecision A} (l : list A) x :
  includes l x = false <-> x ∉ l.
Proof. apply bool_decide_eq_false. Qed.

Lemma NoDup_map_eq {A B} (f : A -> B) l x y :
  NoDup (map f l) -> x ∈ l -> y ∈ l -> f x = f y -> x = y.
Proof.
  intros N [i Hi]%list_elem_of_lookup [j Hj]%list_elem_of_lookup E.
  assert (i = j) as ->; [|congruence].
  eapply (NoDup_lookup (f <$> l)); [exact N| |]; rewrite list_lookup_fmap.
  - by rewrite Hi.
  - rewrite Hj. cbn. by rewrite E.
Qed.

Lemma NoDup_map_middle {A B} (f : A -> B) l1 x l2 y :
  NoDup (map f (l1 ++ x :: l2)) -> y ∈ l1 ++ l2 -> f y <> f x.
Proof.
  rewrite map_app. cbn. intros (_ & D & [Nx _]%NoDup_cons)%NoDup_app [Hy|Hy]%elem_of_app E.
  - apply (D (f y)); [by apply list_elem_of_fmap_2|]. rewrite E. left.
  - apply Nx. rewrite <-E. by apply list_elem_of_fmap_2.
Qed.

Lemma NoDup_omap_eq {A B} (f : A -> option B) l x y k :
  NoDup (omap f l) -> x ∈ l -> y ∈ l -> f x = Some k -> f y = Some k -> x = y.
Proof.
  induction l as [|z l IH]; intros N Hx Hy Ex Ey; [by apply not_elem_of_nil in Hx|].
  assert (K : forall u, u ∈ l -> f u = Some k -> k ∈ omap f l).
  { intros u Hu Eu. apply list_elem_of_omap. eauto. }
  apply elem_of_cons in Hx, Hy. cbn in N. destruct Hx as [->|Hx], Hy as [->|Hy].
  - done.
  - rewrite Ex in N. apply NoDup_cons in N as [N _]. destruct N. by eapply K.
  - rewrite Ey in N. apply NoDup_cons in N as [N _]. destruct N. by eapply K.
  - apply IH; auto. destruct (f z); [by apply NoDup_cons in N as [_ N]|done].
Qed.

Lemma array_find_key {A B} `{EqDecision B} (f : A -> option B) l x k :
  NoDup (omap f l) -> x ∈ l -> f x = Some k -> array_find (fun y => f y === Some k) l = Some x.
Proof.
  intros N Hx E. destruct (array_find _ l) as [y|] eqn:F.
  - apply array_find_Some in F as [Hy Ey]. apply bool_decide_eq_true in Ey.
    f_equal. by eapply NoDup_omap_eq.
  - rewrite array_find_None in F. specialize (F x Hx). by apply bool_decide_eq_false in F.
Qed.

Lemma array_find_filter {A} (p q : A -> bool) l :
  array_find (fun x => p x && q x) l = array_find q (array_filter p l).
Proof.
  induction l as [|x l IH]; cbn; [done|]. destruct (p x); cbn; [|done]. by destruct (q x).
Qed.

Lemma array_filter_none {A} (p : A -> bool) l :
  (forall y, y ∈ l -> p y = false) -> array_filter p l = [].
Proof. intros N. apply array_filter_nil, some_false_iff, N. Qed.

Lemma array_filter_one {A} (p : A -> bool) l1 x l2 :
  (forall y, y ∈ l1 ++ l2 -> p y = false) -> p x = true ->
  array_filter p (l1 ++ x :: l2) = [x].
Proof.
  intros N Px. rewrite array_filter_app. cbn. rewrite Px.
  rewrite !array_filter_none; [done| |]; intros y Hy; apply N; set_solver.
Qed.

Lemma map_one {A} (p : A -> bool) (g : A -> A) l1 x l2 :
  (forall y, y ∈ l1 ++ l2 -> p y = false) -> p x = true ->
  map (fun y => if p y then g y else y) (l1 ++ x :: l2) = l1 ++ g x :: l2.
Proof.
  intros N Px. assert (K : forall l, (forall y, y ∈ l -> p y = false) ->
    map (fun y => if p y then g y else y) l = l).
  { induction l as [|y l IH]; intros M; cbn; [done|]. rewrite (M y) by left.
    f_equal. apply IH. intros z Hz. apply M. by right. }
  rewrite map_app. cbn. rewrite Px, !K; [done| |]; intros y Hy; apply N; set_solver.
Qed.

Lemma len_app {A} (l k : list A) : len (l ++ k) = len l + len k.
Proof. unfold len. rewrite length_app. lia. Qed.

Lemma len_nil {A} : len (@nil A) = 0.
Proof. done. Qed.

Lemma len_cons {A} (x : A) l : len (x :: l) = 1 + len l.
Proof. unfold len. cbn [length]. lia. Qed.

Lemma len_map {A B} (f : A -> B) l : len (map f l) = len l.
Proof. unfold len. by rewrite length_map. Qed.

Lemma len_nonneg {A} (l : list A) : 0 <= len l.
Proof. unfold len. lia. Qed.

Lemma len_zero {A} (l : list A) : len l = 0 <-> l = [].
Proof. destruct l; [done|]. unfold len. cbn [length]. split; [lia|done]. Qed.

Lemma no_issues_app l k : no_issues (l ++ k) = no_issues l && no_issues k.
Proof. by destruct l. Qed.

Lemma no_issues_if c m : no_issues (issue_if c m) = negb c.
Proof. by destruct c. Qed.

Lemma no_issues_concat ls : no_issues (concat ls) = every no_issues ls.
Proof. induction ls as [|l ls IH]; cbn; [done|]. by rewrite no_issues_app, IH. Qed.

Lemma is_null_iff {A} (o : option A) : is_null o = true <-> o = None.
Proof. by destruct o. Qed.

Lemma is_null_false_iff {A} (o : option A) : is_null o = false <-> exists x, o = Some x.
Proof. destruct o; cbn; naive_solver. Qed.

(** ** Automation

    [relay] is the database of the library's closing lemmas; [bool_hyps] turns
    the boolean guards of the code into propositions; [ok_inv] walks a
    successful run backwards through its guards. *)
Create HintDb relay discriminated.
#[export] Hint Resolve len_nonneg : relay.
#[export] Hint Rewrite @len_app @len_nil @len_cons @len_map no_issues_app no_issues_if no_issues_concat
  @length_app : relay.

Ltac bool_hyp :=
  match goal with
  | H : _ && _ = true |- _ => apply andb_true_iff in H; destruct H
  | H : _ || _ = false |- _ => apply orb_false_iff in H; destruct H
  | H : negb _ = true |- _ => apply negb_true_iff in H
  | H : negb _ = false |- _ => apply negb_false_iff in H
  | H : bool_decide _ = true |- _ => apply bool_decide_eq_true in H
  | H : bool_decide _ = false |- _ => apply bool_decide_eq_false in H
  | H : (_ <? _)%Z = true |- _ => apply Z.ltb_lt in H
  | H : (_ <? _)%Z = false |- _ => apply Z.ltb_ge in H
  | H : (_ <=? _)%Z = true |- _ => apply Z.leb_le in H
  | H : (_ <=? _)%Z = false |- _ => apply Z.leb_gt in H
  | H : (_ =? _)%Z = true |- _ => apply Z.eqb_eq in H
  | H : (_ =? _)%Z = false |- _ => apply Z.eqb_neq in H
  | H : is_null _ = true |- _ => apply is_null_iff in H
  | H : is_null _ = false |- _ => apply is_null_false_iff in H; destruct H as [? H]
  | H : non_null _ = true |- _ => unfold non_null in H
  | H : non_null _ = false |- _ => unfold non_null in H
  | H : true = false |- _ => discriminate H
  | H : false = true |- _ => discriminate H
  end.
Ltac bool_hyps := repeat bool_hyp.

(** One step back through a run that returned: [H : f x = Ok y]. *)
Ltac ok_step H :=
  match type of H with
  | Err _ = Ok _ => discriminate H
  | Ok _ = Err _ => discriminate H
  | (if ?b then _ else _) = _ => let E := fresh "E" in destruct b eqn:E; cbn beta iota in H
  | (match ?x with _ => _ end) = _ => let E := fresh "E" in destruct x eqn:E; cbn beta iota in H
  end.
Ltac ok_inv H := repeat (ok_step H; try discriminate).

(** Both sides of a closed equation evaluate to the same value. *)
Ltac by_vm := match goal with |- ?a = _ => vm_cast_no_check (eq_refl a) end.

(** Decide a closed proposition by evaluation. *)
Ltac decide_now := refine (bool_decide_unpack _ _); vm_compute; exact Logic.I.
