(* ===== verification/JsLib.v ===== *)
(** * The JavaScript standard library the sources use

    Strings, the character classes of the sources' regular expressions,
    [String(n)], [Date.parse] and [Buffer.byteLength], and the interface to
    zod's three built-in string formats, which are not code of the repository.

    A JavaScript string is a Rocq string read as UTF-16 code units below 256:
    [length] counts code units, and a code unit from 128 on takes two UTF-8
    bytes.  Strings with code units from 256 on are not represented. *)

From Stdlib Require Import Ascii.
From S2P Require Import Prelude.
From stdpp Require Import sorting.
Local Open Scope Z_scope.

(** ** zod's built-in formats

    [z.string().uuid()], [z.string().datetime({ offset: true })] and
    [z.string().url()] are decided inside the zod package; the model is
    parametric in them. *)
Class Zod := {
  zod_uuid : string -> bool;
  zod_datetime : string -> bool;
  zod_url : string -> bool
}.

(** ** Strings *)
Definition slen (s : string) : Z := Z.of_nat (String.length s).

(** What the sources rely on: a UUID is written with 36 characters. *)
Class ZodLaws `{Zod} : Prop := { zod_uuid_length : forall s, zod_uuid s = true -> slen s = 36 }.

Definition code (c : Ascii.ascii) : Z := Z.of_N (Ascii.N_of_ascii c).

Fixpoint all_chars (p : Z -> bool) (s : string) : bool :=
  match s with
  | EmptyString => true
  | String c s => p (code c) && all_chars p s
  end.

Fixpoint some_char (p : Z -> bool) (s : string) : bool :=
  match s with
  | EmptyString => false
  | String c s => p (code c) || some_char p s
  end.

(** A regular expression [^[head][tail]*$]. *)
Definition head_tail (head tail : Z -> bool) (s : string) : bool :=
  match s with
  | EmptyString => false
  | String c s => head (code c) && all_chars tail s
  end.

Definition in_range (lo hi c : Z) : bool := (lo <=? c) && (c <=? hi).
Definition is_digit (c : Z) : bool := in_range 48 57 c.
Definition is_lower (c : Z) : bool := in_range 97 122 c.
Definition is_upper (c : Z) : bool := in_range 65 90 c.
Definition is_alnum (c : Z) : bool := is_digit c || is_lower c || is_upper c.
Definition is_hex (c : Z) : bool := is_digit c || in_range 97 102 c.
Definition one_of (cs : string) (c : Z) : bool := some_char (Z.eqb c) cs.

(** The code units below 256 that [String.prototype.trim] strips. *)
Definition is_js_space (c : Z) : bool := in_range 9 13 c || (c =? 32) || (c =? 160).

(** [value.trim().length > 0] *)
Definition not_blank (s : string) : bool := some_char (fun c => negb (is_js_space c)) s.

(** [value.trim()] *)
Fixpoint trim_start (s : string) : string :=
  match s with
  | String c s' => if is_js_space (code c) then trim_start s' else s
  | EmptyString => EmptyString
  end.
Fixpoint trim_end (s : string) : string :=
  match s with
  | String c s' =>
      match trim_end s' with
      | EmptyString => if is_js_space (code c) then EmptyString else String c EmptyString
      | rest => String c rest
      end
  | EmptyString => EmptyString
  end.
Definition trim (s : string) : string := trim_end (trim_start s).

Fixpoint starts_with (p s : string) : bool :=
  match p, s with
  | EmptyString, _ => true
  | String a p, String b s => Ascii.eqb a b && starts_with p s
  | _, _ => false
  end.

(** [haystack.includes(needle)] *)
Fixpoint string_includes (needle haystack : string) : bool :=
  starts_with needle haystack ||
  match haystack with
  | EmptyString => false
  | String _ s => string_includes needle s
  end.

Fixpoint drop_chars (n : nat) (s : string) : string :=
  match n, s with
  | S n, String _ s => drop_chars n s
  | _, _ => s
  end.

(** [s.endsWith(suffix)] *)
Definition ends_with (suffix s : string) : bool :=
  (String.length suffix <=? String.length s)%nat &&
  String.eqb (drop_chars (String.length s - String.length suffix) s) suffix.

(** [s.toLowerCase()] on code units below 256. *)
Definition lower_char (c : Ascii.ascii) : Ascii.ascii :=
  let n := code c in
  if in_range 65 90 n || (in_range 192 222 n && negb (n =? 215))
  then Ascii.ascii_of_N (Z.to_N (n + 32)) else c.
Fixpoint to_lower (s : string) : string :=
  match s with EmptyString => EmptyString | String c s => String (lower_char c) (to_lower s) end.

(** [left > right] on strings: comparison of code units. *)
Fixpoint string_gtb (a b : string) : bool :=
  match a, b with
  | String c a, String d b =>
      (code d <? code c) || ((code c =? code d) && string_gtb a b)
  | String _ _, EmptyString => true
  | EmptyString, _ => false
  end.

(** [array.sort(compare)], and [array.sort()] on strings. *)
Definition ordered {A} (compare : A -> A -> Z) (a b : A) : Prop := compare a b <= 0.
#[export] Instance ordered_dec {A} (compare : A -> A -> Z) a b : Decision (ordered compare a b).
Proof. unfold ordered. apply _. Defined.
Definition sort_by {A} (compare : A -> A -> Z) : list A -> list A := merge_sort (ordered compare).
Definition code_unit_order (a b : string) : Z := if string_gtb a b then 1 else if a === b then 0 else -1.
Definition sort_strings : list string -> list string := sort_by code_unit_order.

Lemma string_gtb_irrefl a : string_gtb a a = false.
Proof. induction a as [|c a IH]; [done|]. cbn. rewrite IH, Z.ltb_irrefl, andb_false_r. done. Qed.
Lemma string_gtb_trans a b c : string_gtb a b = true -> string_gtb b c = true -> string_gtb a c = true.
Proof.
  revert b c. induction a as [|x a IH]; intros [|y b] [|z c]; cbn; try done.
  rewrite !orb_true_iff, !andb_true_iff, !Z.ltb_lt, !Z.eqb_eq.
  intros [L|[E G]] [L'|[E' G']]; [left; lia|left; lia|left; lia|]. right. split; [lia|by eapply IH].
Qed.
Lemma string_gtb_total a b : string_gtb a b = false -> string_gtb b a = false -> a = b.
Proof.
  revert b. induction a as [|x a IH]; intros [|y b]; cbn; try done.
  rewrite !orb_false_iff, !andb_false_iff, !Z.ltb_ge, !Z.eqb_neq. intros [L G] [L' G'].
  assert (E : code x = code y) by lia. destruct G as [|G]; [lia|]. destruct G' as [|G']; [lia|].
  rewrite (IH b G G'). f_equal. unfold code in E.
  rewrite <-(Ascii.ascii_N_embedding x), <-(Ascii.ascii_N_embedding y). f_equal. lia.
Qed.

Lemma code_unit_ordered a b : ordered code_unit_order a b <-> string_gtb a b = false.
Proof.
  unfold ordered, code_unit_order. destruct (string_gtb a b); [split; [lia|done]|].
  case_bool_decide; split; (done || lia).
Qed.
#[export] Instance code_unit_transitive : Transitive (ordered code_unit_order).
Proof.
  intros a b c. rewrite !code_unit_ordered. intros L G. apply not_true_iff_false. intros N.
  destruct (string_gtb b a) eqn:E.
  - by rewrite (string_gtb_trans b a c E N) in G.
  - assert (a = b) as -> by by apply string_gtb_total. congruence.
Qed.
#[export] Instance code_unit_total : Total (ordered code_unit_order).
Proof.
  intros a b. rewrite !code_unit_ordered. destruct (string_gtb a b) eqn:E; [|by left].
  right. apply not_true_iff_false. intros G.
  pose proof (string_gtb_trans a b a E G) as C. by rewrite string_gtb_irrefl in C.
Qed.

(** Sorting forgets the order. *)
Lemma sort_strings_perm l k : l ≡ₚ k -> sort_strings l = sort_strings k.
Proof.
  intros P. unfold sort_strings, sort_by.
  apply (StronglySorted_unique_strong (ordered code_unit_order)).
  - intros x y _ _. rewrite !code_unit_ordered. apply string_gtb_total.
  - apply (StronglySorted_merge_sort _).
  - apply (StronglySorted_merge_sort _).
  - by rewrite !merge_sort_Permutation.
Qed.
Lemma sort_strings_Permutation l : sort_strings l ≡ₚ l.
Proof. apply merge_sort_Permutation. Qed.
Lemma elem_of_sort_strings l x : x ∈ sort_strings l <-> x ∈ l.
Proof. unfold sort_strings, sort_by. by rewrite merge_sort_Permutation. Qed.

Lemma sort_strings_length l : length (sort_strings l) = length l.
Proof. unfold sort_strings, sort_by. by rewrite merge_sort_Permutation. Qed.

(** [Buffer.byteLength(s, "utf8")] *)
Fixpoint utf8_length (s : string) : Z :=
  match s with
  | EmptyString => 0
  | String c s => (if code c <? 128 then 1 else 2) + utf8_length s
  end.

(** [String(n)] on integers. *)
Definition string_of_int (n : Z) : string := pretty n.

(** ** [Date.parse]

    The ECMAScript date-time format with a four-digit year and a time zone,
    which is what the timestamp schema lets through; milliseconds since the
    epoch, or [None] for [NaN].  Digits of a second's fraction past the third
    are dropped. *)
Fixpoint digits (n : nat) (acc : Z) (s : string) : option (Z * string) :=
  match n with
  | O => Some (acc, s)
  | S n =>
      match s with
      | String c s => if is_digit (code c) then digits n (10 * acc + (code c - 48)) s else None
      | EmptyString => None
      end
  end.

Definition eat (c : Ascii.ascii) (s : string) : option string :=
  match s with
  | String d s => if Ascii.eqb c d then Some s else None
  | EmptyString => None
  end.

Definition eat_opt (c : Ascii.ascii) (s : string) : string := default s (eat c s).

(** Fraction digits with their weight: 100, 10, 1, then nothing. *)
Fixpoint fraction (w : Z) (s : string) : Z * string :=
  match s with
  | String c s' =>
      if is_digit (code c)
      then let '(v, r) := fraction (w / 10) s' in ((code c - 48) * w + v, r)
      else (0, s)
  | EmptyString => (0, s)
  end.

Definition leap_year (y : Z) : bool :=
  ((y mod 4 =? 0) && negb (y mod 100 =? 0)) || (y mod 400 =? 0).

Definition days_in_month (y m : Z) : Z :=
  if m =? 2 then (if leap_year y then 29 else 28)
  else if (m =? 4) || (m =? 6) || (m =? 9) || (m =? 11) then 30 else 31.

(** Days since 1970-01-01 of a proleptic Gregorian date. *)
Definition days_from_civil (y m d : Z) : Z :=
  let y' := if m <=? 2 then y - 1 else y in
  let era := y' / 400 in
  let yoe := y' - era * 400 in
  let doy := (153 * (if 2 <? m then m - 3 else m + 9) + 2) / 5 + d - 1 in
  let doe := yoe * 365 + yoe / 4 - yoe / 100 + doy in
  era * 146097 + doe - 719468.

Definition parse_seconds (s : string) : option (Z * string) :=
  match eat ":"%char s with
  | None => Some (0, s)
  | Some s1 =>
      '(sec, s2) ← digits 2 0 s1;
      if 59 <? sec then None else
      match eat "."%char s2 with
      | None => Some (sec * 1000, s2)
      | Some s3 =>
          '(_, _) ← digits 1 0 s3;
          let '(ms, s4) := fraction 100 s3 in Some (sec * 1000 + ms, s4)
      end
  end.

(** The zone as milliseconds to subtract. *)
Definition parse_zone (s : string) : option Z :=
  match s with
  | String "Z"%char EmptyString => Some 0
  | String c s1 =>
      sign ← (if Ascii.eqb c "+"%char then Some 1 else if Ascii.eqb c "-"%char then Some (-1) else None);
      '(h, s2) ← digits 2 0 s1;
      '(m, s3) ← digits 2 0 (eat_opt ":"%char s2);
      if (23 <? h) || (59 <? m) || negb (String.eqb s3 EmptyString) then None
      else Some (sign * (h * 60 + m) * 60000)
  | EmptyString => None
  end.

Definition Date_parse (s : string) : option Z :=
  '(y, s1) ← digits 4 0 s;
  s2 ← eat "-"%char s1;
  '(mo, s3) ← digits 2 0 s2;
  s4 ← eat "-"%char s3;
  '(d, s5) ← digits 2 0 s4;
  s6 ← eat "T"%char s5;
  '(h, s7) ← digits 2 0 s6;
  s8 ← eat ":"%char s7;
  '(mi, s9) ← digits 2 0 s8;
  '(ms, s10) ← parse_seconds s9;
  zone ← parse_zone s10;
  if in_range 1 12 mo && in_range 1 (days_in_month y mo) d && in_range 0 23 h && in_range 0 59 mi
  then Some (days_from_civil y mo d * 86400000 + h * 3600000 + mi * 60000 + ms - zone)
  else None.

(** Comparisons of dates as numbers: a comparison with [NaN] is false. *)
Definition num_cmp (p : Z -> Z -> bool) (a b : option Z) : bool :=
  match a, b with Some x, Some y => p x y | _, _ => false end.
Definition num_lt := num_cmp Z.ltb.
Definition num_le := num_cmp Z.leb.
Definition num_gt (a b : option Z) := num_lt b a.
Definition num_ge (a b : option Z) := num_le b a.

(** ** [new Date(ms).toISOString()], for the years 0 to 9999 *)
Definition civil_from_days (z : Z) : Z * Z * Z :=
  let z := z + 719468 in
  let era := z / 146097 in
  let doe := z - era * 146097 in
  let yoe := (doe - doe / 1460 + doe / 36524 - doe / 146096) / 365 in
  let doy := doe - (365 * yoe + yoe / 4 - yoe / 100) in
  let mp := (5 * doy + 2) / 153 in
  let d := doy - (153 * mp + 2) / 5 + 1 in
  let m := if mp <? 10 then mp + 3 else mp - 9 in
  (yoe + era * 400 + (if m <=? 2 then 1 else 0), m, d).

Definition digit (n : Z) : string := String (Ascii.ascii_of_N (Z.to_N (48 + n mod 10))) EmptyString.
Definition two_digits (n : Z) : string := digit (n / 10) +:+ digit n.
Definition three_digits (n : Z) : string := digit (n / 100) +:+ two_digits n.
Definition four_digits (n : Z) : string := digit (n / 1000) +:+ three_digits n.

Definition toISOString (ms : Z) : string :=
  let '(y, mo, d) := civil_from_days (ms / 86400000) in
  let t := ms mod 86400000 in
  four_digits y +:+ "-" +:+ two_digits mo +:+ "-" +:+ two_digits d +:+ "T" +:+
  two_digits (t / 3600000) +:+ ":" +:+ two_digits (t / 60000 mod 60) +:+ ":" +:+
  two_digits (t / 1000 mod 60) +:+ "." +:+ three_digits (t mod 1000) +:+ "Z".

(** A concrete instance of the interface, for examples: dashed lowercase or
    uppercase hexadecimal ids, and the timestamps [Date_parse] reads. *)
Definition uuid_shape (s : string) : bool :=
  (slen s =? 36) && all_chars (fun c => is_hex c || in_range 65 70 c || (c =? 45)) s.
Definition example_zod : Zod := {|
  zod_uuid := uuid_shape;
  zod_datetime := fun s => non_null (Date_parse s);
  zod_url := fun s => starts_with "https://" s || starts_with "ssh://" s
|}.

(** ** Lemmas *)
#[export] Instance example_zod_laws : @ZodLaws example_zod.
Proof. constructor. intros s V. cbn in V. unfold uuid_shape in V. bool_hyps. done. Qed.

Lemma slen_app a b : slen (a +:+ b) = slen a + slen b.
Proof.
  unfold slen. induction a as [|c a IH]; [done|]. change (String c a +:+ b) with (String c (a +:+ b)).
  cbn [String.length]. lia.
Qed.

Lemma zod_uuid_empty `{ZodLaws} : zod_uuid "" = false.
Proof. apply not_true_iff_false. by intros E%zod_uuid_length. Qed.

(** A non-negative integer below [10 ^ k] has at most [k] digits. *)
Lemma pretty_N_go_length k n s :
  (n < 10 ^ N.of_nat k)%N -> slen (pretty_N_go n s) <= Z.of_nat k + slen s.
Proof.
  revert n s. induction k as [|k IH]; intros n s L.
  - replace n with 0%N by (cbn in L; lia). rewrite pretty_N_go_0. lia.
  - destruct (decide (n = 0)%N) as [->|N]; [rewrite pretty_N_go_0; lia|].
    rewrite pretty_N_go_step by lia. etrans; [apply IH|unfold slen; cbn [String.length]; lia].
    apply N.Div0.div_lt_upper_bound. rewrite <-N.pow_succ_r'. by rewrite <-Nat2N.inj_succ.
Qed.

Lemma string_of_int_length n : 0 <= n < 10 ^ 16 -> slen (string_of_int n) <= 16.
Proof.
  intros L. destruct n as [|p|p]; [done| |lia].
  change (string_of_int (Z.pos p)) with (pretty (N.pos p)). unfold pretty, pretty_N.
  case_decide; [done|]. etrans; [apply (pretty_N_go_length 16); cbn in *; lia|done].
Qed.

Lemma string_of_int_inj a b : string_of_int a = string_of_int b -> a = b.
Proof. apply (inj pretty). Qed.

Lemma num_lt_ge a b : num_lt a b = true -> num_ge a b = false.
Proof. destruct a, b; cbn; try done. rewrite Z.ltb_lt, Z.leb_gt. lia. Qed.

Lemma num_lt_trans a b c : num_lt a b = true -> num_lt b c = true -> num_lt a c = true.
Proof. destruct a, b, c; cbn; try done. rewrite !Z.ltb_lt. lia. Qed.

Lemma num_lt_irrefl a : num_lt a a = false.
Proof. destruct a; cbn; [|done]. apply Z.ltb_irrefl. Qed.

Lemma num_lt_Some a b :
  num_lt a b = true <-> exists x y, a = Some x /\ b = Some y /\ x < y.
Proof.
  destruct a, b; cbn; rewrite ?Z.ltb_lt; naive_solver.
Qed.

Example Date_parse_epoch : Date_parse "1970-01-01T00:00:00Z" = Some 0.
Proof. reflexivity. Qed.
Example Date_parse_offset :
  Date_parse "2026-08-03T05:06:07.1239+05:30" = Date_parse "2026-08-02T23:36:07.123Z".
Proof. vm_compute. reflexivity. Qed.
Example Date_parse_known : Date_parse "2000-03-01T00:00:00.000Z" = Some 951868800000.
Proof. vm_compute. reflexivity. Qed.
Example Date_parse_nan : Date_parse "2026-02-30T00:00:00Z" = None.
Proof. vm_compute. reflexivity. Qed.

Example toISOString_known : toISOString 951868800000 = "2000-03-01T00:00:00.000Z".
Proof. vm_compute. reflexivity. Qed.
Example toISOString_parse :
  Date_parse (toISOString 1785711367123) = Some 1785711367123.
Proof. vm_compute. reflexivity. Qed.

(** ** Lists sorted by a number

    Queries order their rows by a sequence number that increases along the table:
    [ORDER BY] is a stable merge sort, and on such rows it changes nothing. *)
Lemma StronglySorted_snoc {A} (R : A -> A -> Prop) l x :
  StronglySorted R l -> Forall (fun y => R y x) l -> StronglySorted R (l ++ [x]).
Proof.
  intros S F. apply StronglySorted_app_2; [|done|by repeat constructor].
  intros y z Hy ->%list_elem_of_singleton. rewrite Forall_forall in F. by apply F.
Qed.

Lemma NoDup_snoc {A} (l : list A) x : NoDup l -> x ∉ l -> NoDup (l ++ [x]).
Proof.
  intros N X. apply NoDup_app. split; [done|]. split; [|apply NoDup_singleton].
  by intros y Hy ->%list_elem_of_singleton.
Qed.

Lemma seqZ_sorted a n : StronglySorted Z.lt (seqZ a n).
Proof.
  destruct (decide (0 <= n)) as [L|L]; [|by rewrite seqZ_nil by lia; constructor].
  revert a. pattern n. apply natlike_ind; [intros a; constructor| |done]. intros m Hm IH a.
  rewrite seqZ_cons by lia. constructor; [by rewrite Z.pred_succ|]. apply Forall_seqZ. lia.
Qed.

Section Sorted.
Context {A : Type} (f : A -> Z).

Lemma sorted_filter p l :
  StronglySorted Z.lt (map f l) -> StronglySorted Z.lt (map f (array_filter p l)).
Proof.
  induction l as [|x l IH]; cbn; [done|]. intros [S F]%StronglySorted_inv.
  destruct (p x); cbn; [|auto]. constructor; [auto|].
  rewrite Forall_forall in F. apply Forall_forall.
  intros y (z & -> & [Hz _]%elem_of_array_filter)%list_elem_of_fmap. apply F. by apply list_elem_of_fmap_2.
Qed.

Lemma merge_sort_sorted (R : A -> A -> Prop) `{!forall x y, Decision (R x y)} l :
  (forall x y, R x y <-> f x <= f y) -> StronglySorted Z.lt (map f l) -> merge_sort R l = l.
Proof.
  intros HR S. apply (StronglySorted_unique_strong R).
  - intros x y Hx Hy Xy Yx. rewrite merge_sort_Permutation in Hx. apply HR in Xy, Yx.
    eapply (NoDup_map_eq f l); [|done..|lia]. clear -S. induction S; constructor; [|done].
    rewrite Forall_forall in *. intros K%H. lia.
  - apply StronglySorted_merge_sort.
    + intros x y z. rewrite !HR. lia.
    + intros x y. rewrite !HR. lia.
  - clear -HR S. induction l as [|x l IH]; cbn in *; constructor.
    + apply IH. by apply StronglySorted_inv in S as [S _].
    + apply StronglySorted_inv in S as [_ F]. rewrite Forall_map in F.
      eapply Forall_impl; [exact F|]. cbn. intros y. rewrite HR. lia.
  - apply merge_sort_Permutation.
Qed.

(** The rows above the last row of a prefix are the rest. *)
Lemma filter_after l1 x l2 :
  StronglySorted Z.lt (map f (l1 ++ x :: l2)) ->
  array_filter (fun y => f x <? f y) (l1 ++ x :: l2) = l2.
Proof.
  rewrite map_app. intros (C & _ & S)%StronglySorted_app. rewrite array_filter_app. cbn in *.
  rewrite (array_filter_none _ l1).
  - rewrite Z.ltb_irrefl. apply StronglySorted_inv in S as [_ F]. rewrite Forall_map in F. cbn.
    induction F as [|y l2 Hy F IH]; cbn; [done|]. apply Z.ltb_lt in Hy. rewrite Hy. f_equal. apply IH.
    intros a b Ha Hb. apply C; [done|]. set_solver.
  - intros y Hy. apply Z.ltb_ge. specialize (C (f y) (f x)). rewrite list_elem_of_fmap in C.
    assert (f y < f x); [|lia]. apply C; [by exists y|left].
Qed.

Lemma array_filter_filter (p q : A -> bool) l :
  array_filter p (array_filter q l) = array_filter (fun x => q x && p x) l.
Proof.
  induction l as [|x l IH]; cbn; [done|]. destruct (q x); cbn; [|done]. destruct (p x); cbn; congruence.
Qed.

Lemma array_filter_ext (p q : A -> bool) l :
  (forall x, x ∈ l -> p x = q x) -> array_filter p l = array_filter q l.
Proof.
  induction l as [|x l IH]; intros E; cbn; [done|]. rewrite (E x) by left. rewrite IH; [done|].
  intros y Hy. apply E. by right.
Qed.
End Sorted.

(** ** Objects used as maps

    An object whose keys are data: its own properties in the order they were added
    (the keys of the sources are UUIDs, never array indices).  Assigning to a key
    that is there keeps its place. *)
Definition Dict (A : Type) : Type := list (string * A).

Section Dict.
Context {A : Type}.

Fixpoint dict_get (k : string) (o : Dict A) : option A :=
  match o with
  | [] => None
  | (j, v) :: o => if j === k then Some v else dict_get k o
  end.
Fixpoint dict_set (k : string) (v : A) (o : Dict A) : Dict A :=
  match o with
  | [] => [(k, v)]
  | (j, w) :: o => if j === k then (j, v) :: o else (j, w) :: dict_set k v o
  end.

Lemma dict_get_set_eq k v o : dict_get k (dict_set k v o) = Some v.
Proof.
  induction o as [|[j w] o IH]; cbn; [by rewrite bool_decide_true|].
  destruct (bool_decide_reflect (j = k)); cbn; [by rewrite bool_decide_true|].
  by rewrite bool_decide_false.
Qed.
Lemma dict_get_set_ne k j v o : j <> k -> dict_get j (dict_set k v o) = dict_get j o.
Proof.
  intros N. induction o as [|[i w] o IH]; cbn; [by rewrite bool_decide_false|].
  destruct (bool_decide_reflect (i = k)) as [->|D]; cbn; [by rewrite bool_decide_false|].
  by rewrite IH.
Qed.
Lemma dict_get_elem k v o : dict_get k o = Some v -> (k, v) ∈ o.
Proof.
  induction o as [|[j w] o IH]; cbn; [done|].
  destruct (bool_decide_reflect (j = k)) as [->|D]; [intros [= ->]; left|]. right. auto.
Qed.
Lemma elem_of_dict_set k v o x : x ∈ dict_set k v o -> x = (k, v) \/ x ∈ o.
Proof.
  induction o as [|[j w] o IH]; cbn; [set_solver|].
  destruct (bool_decide_reflect (j = k)) as [->|D]; set_solver.
Qed.
Lemma dict_get_none_keys k o : dict_get k o = None <-> k ∉ o.*1.
Proof.
  induction o as [|[j w] o IH]; cbn; [set_solver|].
  destruct (bool_decide_reflect (j = k)) as [->|D]; set_solver.
Qed.
Lemma dict_set_keys k v o :
  (dict_set k v o).*1 = if dict_get k o then o.*1 else o.*1 ++ [k].
Proof.
  induction o as [|[j w] o IH]; cbn; [done|].
  destruct (bool_decide_reflect (j = k)) as [->|D]; cbn; [done|]. rewrite IH. by destruct (dict_get k o).
Qed.
Lemma dict_set_nodup k v o : NoDup o.*1 -> NoDup (dict_set k v o).*1.
Proof.
  intros N. rewrite dict_set_keys. destruct (dict_get k o) eqn:E; [done|].
  apply NoDup_app. split_and!; [done| |apply NoDup_singleton].
  apply dict_get_none_keys in E. by intros x Hx ->%list_elem_of_singleton.
Qed.
Lemma dict_elem_get k v o : NoDup o.*1 -> (k, v) ∈ o -> dict_get k o = Some v.
Proof.
  induction o as [|[j w] o IH]; cbn; [by intros _ ?%not_elem_of_nil|].
  intros [N D]%NoDup_cons [[= -> ->]|Hx]%elem_of_cons; [by rewrite bool_decide_true|].
  rewrite bool_decide_false; [auto|]. intros ->. apply N, list_elem_of_fmap. by exists (k, v).
Qed.
End Dict.
