(* ===== verification/Json.v ===== *)
(** * [JSON.stringify] on strings and integers

    The quoting of a string, and the text of an array whose elements are strings
    and integers, with its injectivity: equal texts come from equal arrays. *)

From Stdlib Require Import Ascii.
From S2P Require Import Prelude JsLib.

(** ** Quoting *)
Definition hex_digit (n : Z) : Ascii.ascii :=
  Ascii.ascii_of_N (Z.to_N (if n <? 10 then 48 + n else 87 + n)).

(** One code unit inside a JSON string. *)
Definition json_escape (c : Ascii.ascii) : string :=
  let n := code c in
  if n =? 34 then String "\"%char (String c EmptyString)
  else if n =? 92 then String "\"%char (String c EmptyString)
  else if n =? 8 then "\b" else if n =? 9 then "\t" else if n =? 10 then "\n"
  else if n =? 12 then "\f" else if n =? 13 then "\r"
  else if n <? 32
  then "\u00" +:+ String (hex_digit (n / 16)) (String (hex_digit (n mod 16)) EmptyString)
  else String c EmptyString.

Definition quote_char : Ascii.ascii := Ascii.ascii_of_N 34.

Fixpoint json_chars (s : string) : string :=
  match s with
  | EmptyString => String quote_char EmptyString
  | String c s => json_escape c +:+ json_chars s
  end.
Definition json_string (s : string) : string := String quote_char (json_chars s).

(** ** Arrays *)
Inductive json_item := JStr (s : string) | JInt (n : Z).
Definition json_item_text (i : json_item) : string :=
  match i with JStr s => json_string s | JInt n => string_of_int n end.

Fixpoint json_items (l : list json_item) : string :=
  match l with
  | [] => "]"
  | [i] => json_item_text i +:+ "]"
  | i :: l => json_item_text i +:+ "," +:+ json_items l
  end.
Definition json_array (l : list json_item) : string := "[" +:+ json_items l.

(** ** Injectivity *)

(** Reads one escaped code unit back; [None] at the closing quote. *)
Definition unhex (c : Ascii.ascii) : Z := let n := code c in if n <? 58 then n - 48 else n - 87.
Definition json_unescape (s : string) : option (Ascii.ascii * string) :=
  match s with
  | EmptyString => None
  | String c s1 =>
      if code c =? 34 then None
      else if code c =? 92 then
        match s1 with
        | EmptyString => None
        | String d s2 =>
            let n := code d in
            if n =? 117 then
              match s2 with
              | String _ (String _ (String a (String b s3))) =>
                  Some (Ascii.ascii_of_N (Z.to_N (16 * unhex a + unhex b)), s3)
              | _ => None
              end
            else Some (Ascii.ascii_of_N (Z.to_N
                   (if n =? 98 then 8 else if n =? 116 then 9 else if n =? 110 then 10
                    else if n =? 102 then 12 else if n =? 114 then 13 else n)), s2)
        end
      else Some (c, s1)
  end.

Lemma json_unescape_escape c s : json_unescape (json_escape c +:+ s) = Some (c, s).
Proof. destruct c as [[] [] [] [] [] [] [] []]; reflexivity. Qed.

Lemma json_unescape_quote s : json_unescape (String quote_char s) = None.
Proof. reflexivity. Qed.

Lemma string_app_assoc (a b c : string) : (a +:+ b) +:+ c = a +:+ (b +:+ c).
Proof. induction a as [|x a IH]; [done|]. exact (f_equal (String x) IH). Qed.

Lemma json_chars_inj s t r q : json_chars s +:+ r = json_chars t +:+ q -> s = t /\ r = q.
Proof.
  assert (Nil : forall x, json_chars EmptyString +:+ x = String quote_char x) by done.
  assert (Cons : forall c s x, json_chars (String c s) +:+ x = json_escape c +:+ (json_chars s +:+ x))
    by (intros; apply string_app_assoc).
  revert t. induction s as [|c s IH]; intros [|d t]; rewrite ?Nil, ?Cons; intros E.
  - injection E as ->. done.
  - exfalso. apply (f_equal json_unescape) in E. by rewrite json_unescape_escape in E.
  - exfalso. apply (f_equal json_unescape) in E. by rewrite json_unescape_escape in E.
  - apply (f_equal json_unescape) in E. rewrite !json_unescape_escape in E.
    injection E as -> E. apply IH in E as [-> ->]. done.
Qed.

(** The decimal text of an integer has digits and a sign only. *)
Definition int_char (c : Z) : bool := is_digit c || (c =? 45).

Lemma all_chars_app p a b : all_chars p (a +:+ b) = all_chars p a && all_chars p b.
Proof.
  induction a as [|c a IH]; [done|]. change (String c a +:+ b) with (String c (a +:+ b)).
  cbn [all_chars]. by rewrite IH, andb_assoc.
Qed.

Lemma pretty_N_go_chars n s :
  all_chars int_char s = true -> all_chars int_char (pretty_N_go n s) = true.
Proof.
  revert s. induction n as [n IH] using (well_founded_induction N.lt_wf_0). intros s Hs.
  destruct (decide (n = 0)%N) as [->|Hn]; [by rewrite pretty_N_go_0|].
  rewrite pretty_N_go_step by lia. apply IH.
  - apply N.div_lt; lia.
  - cbn. rewrite Hs, andb_true_r. unfold pretty_N_char.
    repeat case_match; reflexivity.
Qed.

Lemma pretty_N_chars (n : N) : all_chars int_char (pretty n) = true.
Proof. unfold pretty, pretty_N. case_decide; [done|]. by apply pretty_N_go_chars. Qed.

Lemma pretty_N_go_nonempty n s : s <> EmptyString -> pretty_N_go n s <> EmptyString.
Proof.
  revert s. induction n as [n IH] using (well_founded_induction N.lt_wf_0). intros s Hs.
  destruct (decide (n = 0)%N) as [->|Hn]; [by rewrite pretty_N_go_0|].
  rewrite pretty_N_go_step by lia. apply IH; [apply N.div_lt; lia|done].
Qed.
Lemma string_of_int_nonempty n : string_of_int n <> EmptyString.
Proof.
  assert (P : forall p, pretty (Npos p) <> EmptyString).
  { intros p. unfold pretty, pretty_N. case_decide; [done|]. rewrite pretty_N_go_step by lia.
    by apply pretty_N_go_nonempty. }
  destruct n as [|p|p]; [done|exact (P p)|done].
Qed.

Lemma string_of_int_chars n : all_chars int_char (string_of_int n) = true.
Proof.
  destruct n as [|p|p]; [done|exact (pretty_N_chars (Npos p))|].
  change (string_of_int (Zneg p)) with ("-" +:+ pretty (Npos p)).
  by rewrite all_chars_app, pretty_N_chars.
Qed.

(** Texts of integer characters are delimited by any other character. *)
Lemma int_text_inj a b c d r q :
  all_chars int_char a = true -> all_chars int_char b = true ->
  int_char (code c) = false -> int_char (code d) = false ->
  a +:+ String c r = b +:+ String d q -> a = b /\ String c r = String d q.
Proof.
  revert b. induction a as [|x a IH]; intros [|y b]; simpl; intros Ha Hb Hc Hd E; [done| | |].
  - injection E as E _. apply andb_true_iff in Hb as [Hb _]. congruence.
  - injection E as E _. apply andb_true_iff in Ha as [Ha _]. congruence.
  - injection E as -> E. apply andb_true_iff in Ha as [_ Ha], Hb as [_ Hb].
    destruct (IH b Ha Hb Hc Hd E) as [-> ->]. done.
Qed.

(** Two item texts followed by a delimiter are equal only if the items are, for
    items of the same type. *)
Definition same_type (i j : json_item) : bool :=
  match i, j with JStr _, JStr _ | JInt _, JInt _ => true | _, _ => false end.

Lemma json_item_inj i j c d r q :
  same_type i j = true -> int_char (code c) = false -> int_char (code d) = false ->
  json_item_text i +:+ String c r = json_item_text j +:+ String d q ->
  i = j /\ String c r = String d q.
Proof.
  destruct i as [s|n], j as [t|m]; cbn [same_type json_item_text]; intros T Hc Hd E; try done.
  - injection E as E. apply json_chars_inj in E as [-> E]. done.
  - apply int_text_inj in E as [E1 E2]; auto using string_of_int_chars.
    apply string_of_int_inj in E1 as ->. done.
Qed.

(** Arrays of the same length and element types have equal texts only if equal. *)
Lemma json_items_inj l k :
  Forall2 (fun i j => same_type i j = true) l k -> json_items l = json_items k -> l = k.
Proof.
  induction 1 as [|i j l k T F IH]; [done|]. intros E.
  destruct F as [|i' j' l k T' F].
  - apply (json_item_inj i j "]"%char "]"%char EmptyString EmptyString) in E as [-> _]; done.
  - apply (json_item_inj i j ","%char ","%char _ _) in E as [-> E]; [|done..].
    injection E as E. apply IH in E. by rewrite E.
Qed.

Lemma json_array_inj l k :
  Forall2 (fun i j => same_type i j = true) l k -> json_array l = json_array k -> l = k.
Proof. intros F E. apply json_items_inj; [done|]. exact (f_equal (drop_chars 1) E). Qed.
