(* ===== verification/Schemas.v ===== *)
(** * Protocol schemas: [protocol/src/schemas.ts]

    The wire data as records and inductive types, and each zod schema as the
    decision it makes.  A record's type stands for the strict object shape (the
    exact keys and their primitive types); what the schema still checks, field
    by field, is a boolean, and every [superRefine] is the list of the issues
    it adds, so that parsing succeeds when the fields pass and no issue is
    added.  Timestamps stay strings, as on the wire. *)

From Stdlib Require Import Ascii.
From S2P Require Import Prelude JsLib.

(** ** Limits *)
Definition MAX_TEXT_LENGTH : Z := 16000.
Definition MAX_ACCEPTANCE_CRITERIA : Z := 32.
Definition MAX_ARTIFACTS : Z := 16.
Definition MAX_ARTIFACT_TYPES : Z := 16.
Definition MAX_VERIFICATION_EVIDENCE : Z := 16.
Definition MAX_ARTIFACT_BYTES : Z := 1048576.
Definition MAX_TURNS : Z := 200.
Definition MAX_WALL_TIME_SECONDS : Z := 7 * 24 * 60 * 60.
Definition MAX_TOKEN_BUDGET : Z := 100000000.
Definition MAX_INT32 : Z := 2147483647.
Definition MAX_SAFE_INTEGER : Z := 9007199254740991.

(** ** String schemas *)
Definition bounded (lo hi : Z) (s : string) : bool := (lo <=? slen s) && (slen s <=? hi).

Definition boundedTextSchema (value : string) : bool :=
  bounded 1 MAX_TEXT_LENGTH value && not_blank value.

Definition acceptanceCriterionSchema (value : string) : bool :=
  bounded 1 2000 value && not_blank value.

Definition identifierSchema (value : string) : bool :=
  bounded 1 128 value && head_tail is_alnum (fun c => is_alnum c || one_of "._:-" c) value.

Definition aliasSchema (value : string) : bool :=
  bounded 1 64 value && head_tail is_alnum (fun c => is_alnum c || one_of "._-" c) value &&
  (value !== ".") && (value !== "..").

Definition sha256Schema (value : string) : bool := (slen value =? 64) && all_chars is_hex value.

Definition baseCommitSchema (value : string) : bool :=
  ((slen value =? 40) || (slen value =? 64)) && all_chars is_hex value.

Definition repositoryRefSchema (value : string) : bool :=
  bounded 1 256 value && head_tail is_alnum (fun c => is_alnum c || one_of "._/-" c) value &&
  negb (string_includes ".." value) && negb (string_includes "//" value) &&
  negb (ends_with "/" value) && negb (ends_with "." value) && negb (ends_with ".lock" value).

Definition boundedOpaqueReferenceSchema (maxLength : Z) (value : string) : bool :=
  bounded 1 maxLength value && all_chars (fun code => (31 <? code) && negb (code =? 127)) value.

Definition opaqueReferenceSchema : string -> bool := boundedOpaqueReferenceSchema 256.

Definition fencingTokenSchema (value : string) : bool :=
  ((value === "0") || head_tail (in_range 49 57) is_digit value) && (slen value <=? 64).

Definition uuidSchema `{Zod} (value : string) : bool :=
  zod_uuid value && (value === to_lower value).

Definition contractVersionSchema (n : Z) : bool := (0 <? n) && (n <=? 1000000).

Definition hasUniqueValues (values : list string) : bool := unique_values values.

Definition isoTimestampSchema `{Zod} (value : string) : bool :=
  (slen value <=? 64) && zod_datetime value.

(** Returns -1, 0 or 1. *)
Definition compareDecimalStrings (left right : string) : Z :=
  if slen left =? slen right
  then (if left === right then 0 else if string_gtb left right then 1 else -1)
  else (if slen right <? slen left then 1 else -1).

Definition deliveryCursorSchema (cursor : string) : bool :=
  head_tail (in_range 49 57) is_digit cursor && (slen cursor <=? 19) &&
  (compareDecimalStrings cursor "9223372036854775807" <=? 0).

Definition artifactTypeSchema (value : string) : bool :=
  bounded 1 64 value &&
  head_tail is_lower (fun c => is_lower c || is_digit c || one_of "._-" c) value.

Definition policyProfileNameSchema : string -> bool := aliasSchema.

(** [.nullable()] *)
Definition nullable {A} (schema : A -> bool) (o : option A) : bool :=
  match o with None => true | Some x => schema x end.

(** ** Enumerations *)
Inductive MissionStatus :=
| M_awaiting_acceptance | M_active | M_verifying | M_blocked
| M_completed | M_cancelled | M_expired | M_failed.

Inductive DeliveryStatus :=
| D_stored | D_leased | D_executing | D_acknowledged | D_cancelled | D_dead_lettered.

Inductive DeliveryKind := K_turn | K_verification | K_contract_acknowledgement.

Inductive DeliveryCancellationReason :=
| C_mission_cancelled | C_mission_expired | C_mission_failed | C_work_superseded
| C_node_revoked | C_workspace_revoked.

Inductive DeliveryReleaseClassification := R_transient | R_permanent | R_policy_denied.

Inductive RunStatus := Run_running | Run_completed | Run_failed | Run_cancelled.

Inductive MessageType :=
| T_question | T_answer | T_proposal | T_decision | T_progress | T_blocker.

Inductive ActorKind := A_owner | A_agent.

Inductive BindingStatus := S_active | S_revoked.

Inductive Outcome := O_passed | O_failed.

#[export] Instance MissionStatus_eq_dec : EqDecision MissionStatus.
Proof. solve_decision. Defined.
#[export] Instance DeliveryStatus_eq_dec : EqDecision DeliveryStatus.
Proof. solve_decision. Defined.
#[export] Instance DeliveryKind_eq_dec : EqDecision DeliveryKind.
Proof. solve_decision. Defined.
#[export] Instance DeliveryCancellationReason_eq_dec : EqDecision DeliveryCancellationReason.
Proof. solve_decision. Defined.
#[export] Instance DeliveryReleaseClassification_eq_dec : EqDecision DeliveryReleaseClassification.
Proof. solve_decision. Defined.
#[export] Instance RunStatus_eq_dec : EqDecision RunStatus.
Proof. solve_decision. Defined.
#[export] Instance MessageType_eq_dec : EqDecision MessageType.
Proof. solve_decision. Defined.
#[export] Instance ActorKind_eq_dec : EqDecision ActorKind.
Proof. solve_decision. Defined.
#[export] Instance BindingStatus_eq_dec : EqDecision BindingStatus.
Proof. solve_decision. Defined.
#[export] Instance Outcome_eq_dec : EqDecision Outcome.
Proof. solve_decision. Defined.

(** [deliveryCancellationReasonSchema.safeParse(reason)] on a wire string. *)
Definition deliveryCancellationReasonSchema (reason : string) : option DeliveryCancellationReason :=
  if reason === "mission_cancelled" then Some C_mission_cancelled
  else if reason === "mission_expired" then Some C_mission_expired
  else if reason === "mission_failed" then Some C_mission_failed
  else if reason === "work_superseded" then Some C_work_superseded
  else if reason === "node_revoked" then Some C_node_revoked
  else if reason === "workspace_revoked" then Some C_workspace_revoked
  else None.

Definition deliveryReleaseClassificationSchema (c : string)
    : option DeliveryReleaseClassification :=
  if c === "transient" then Some R_transient
  else if c === "permanent" then Some R_permanent
  else if c === "policy_denied" then Some R_policy_denied
  else None.

(** ** Actors, Nodes and workspaces *)
Record ActorRef := { actor_principal_id : string; actor_kind : ActorKind }.
#[export] Instance ActorRef_eq_dec : EqDecision ActorRef.
Proof. solve_decision. Defined.
Definition actorRefSchema `{Zod} (a : ActorRef) : bool := uuidSchema a.(actor_principal_id).

Record NodeEnrollmentInput := { enroll_name : string; enroll_capabilities : list string }.
Definition nodeEnrollmentInputSchema (input : NodeEnrollmentInput) : bool :=
  aliasSchema input.(enroll_name) && every identifierSchema input.(enroll_capabilities) &&
  (len input.(enroll_capabilities) <=? 32) && hasUniqueValues input.(enroll_capabilities).

Record NodeDescriptor := {
  node_node_id : string;
  node_agent_id : string;
  node_name : string;
  node_status : BindingStatus;
  node_capabilities : list string;
  node_last_seen_at : option string;
  node_created_at : string;
  node_updated_at : string;
  node_revoked_at : option string
}.

(** [Date.parse] of a nullable timestamp, read only where it is not null. *)
Definition Date_parse_opt (o : option string) : option Z := s ← o; Date_parse s.

Definition nodeDescriptorIssues (node : NodeDescriptor) : issues :=
  issue_if (negb (Bool.eqb (node.(node_status) === S_revoked) (non_null node.(node_revoked_at))))
    "Node revocation timestamp must match revoked status" ++
  issue_if (non_null node.(node_revoked_at) &&
      (num_lt (Date_parse_opt node.(node_revoked_at)) (Date_parse node.(node_created_at)) ||
       num_gt (Date_parse_opt node.(node_revoked_at)) (Date_parse node.(node_updated_at))))
    "Node revocation timestamp must fall within its persisted lifetime" ++
  issue_if (num_lt (Date_parse node.(node_updated_at)) (Date_parse node.(node_created_at)))
    "Node update cannot precede enrollment" ++
  issue_if (non_null node.(node_last_seen_at) &&
      (num_lt (Date_parse_opt node.(node_last_seen_at)) (Date_parse node.(node_created_at)) ||
       num_gt (Date_parse_opt node.(node_last_seen_at)) (Date_parse node.(node_updated_at))))
    "Node last-seen timestamp must fall within its persisted lifetime" ++
  issue_if (negb (unique_values node.(node_capabilities))) "Node capabilities must be unique".

Definition nodeDescriptorSchema `{Zod} (node : NodeDescriptor) : bool :=
  uuidSchema node.(node_node_id) && uuidSchema node.(node_agent_id) &&
  aliasSchema node.(node_name) &&
  every identifierSchema node.(node_capabilities) && (len node.(node_capabilities) <=? 32) &&
  nullable isoTimestampSchema node.(node_last_seen_at) &&
  isoTimestampSchema node.(node_created_at) && isoTimestampSchema node.(node_updated_at) &&
  nullable isoTimestampSchema node.(node_revoked_at) &&
  no_issues (nodeDescriptorIssues node).

(** [value.split("/", 1)[0]] *)
Fixpoint before_slash (s : string) : string :=
  match s with
  | EmptyString => EmptyString
  | String c s => if Ascii.eqb c "/"%char then EmptyString else String c (before_slash s)
  end.

(** [authority.slice(0, lastIndexOf("@"))], empty when there is no [@]. *)
Fixpoint before_last_at (s : string) : string :=
  match s with
  | EmptyString => EmptyString
  | String c s =>
      if some_char (Z.eqb 64) s then String c (before_last_at s) else EmptyString
  end.

Definition repositoryUrlIssues (value : string) : issues :=
  if some_char (fun code => (code <=? 32) || (code =? 127) || (code =? 92)) value
  then ["Repository URL must not contain whitespace, controls, or backslashes"]
  else
    let https := starts_with "https://" value in
    let ssh := starts_with "ssh://" value in
    if negb (https || ssh) then ["Repository URL must use https or ssh"]
    else
      let rest := drop_chars (if https then 8 else 6)%nat value in
      let userInfo := before_last_at (before_slash rest) in
      issue_if ((https && (userInfo !== "")) || (ssh && (userInfo !== "git")))
        "Repository URL must not contain credentials" ++
      issue_if (string_includes "?" value || string_includes "#" value)
        "Repository URL must not contain query parameters or fragments".

Definition repositoryUrlSchema `{Zod} (value : string) : bool :=
  (slen value <=? 2048) && zod_url value && no_issues (repositoryUrlIssues value).

Record WorkspaceRegistrationInput := {
  wsr_alias : string; wsr_repository_url : string; wsr_allowed_base_refs : list string }.
Definition workspaceRegistrationInputSchema `{Zod} (input : WorkspaceRegistrationInput) : bool :=
  aliasSchema input.(wsr_alias) && repositoryUrlSchema input.(wsr_repository_url) &&
  every repositoryRefSchema input.(wsr_allowed_base_refs) &&
  (len input.(wsr_allowed_base_refs) <=? 32) && hasUniqueValues input.(wsr_allowed_base_refs).

Record WorkspaceBindingDescriptor := {
  wsb_workspace_binding_id : string;
  wsb_node_id : string;
  wsb_agent_id : string;
  wsb_alias : string;
  wsb_repository_url : string;
  wsb_allowed_base_refs : list string;
  wsb_status : BindingStatus;
  wsb_created_at : string;
  wsb_updated_at : string;
  wsb_revoked_at : option string
}.

Definition workspaceBindingDescriptorIssues (binding : WorkspaceBindingDescriptor) : issues :=
  issue_if (negb (Bool.eqb (binding.(wsb_status) === S_revoked) (non_null binding.(wsb_revoked_at))))
    "Workspace-binding revocation timestamp must match revoked status" ++
  issue_if (non_null binding.(wsb_revoked_at) &&
      (num_lt (Date_parse_opt binding.(wsb_revoked_at)) (Date_parse binding.(wsb_created_at)) ||
       num_gt (Date_parse_opt binding.(wsb_revoked_at)) (Date_parse binding.(wsb_updated_at))))
    "Workspace-binding revocation must fall within its persisted lifetime" ++
  issue_if (num_lt (Date_parse binding.(wsb_updated_at)) (Date_parse binding.(wsb_created_at)))
    "Workspace-binding update cannot precede creation" ++
  issue_if (negb (unique_values binding.(wsb_allowed_base_refs)))
    "Allowed base refs must be unique".

Definition workspaceBindingDescriptorSchema `{Zod} (binding : WorkspaceBindingDescriptor) : bool :=
  uuidSchema binding.(wsb_workspace_binding_id) && uuidSchema binding.(wsb_node_id) &&
  uuidSchema binding.(wsb_agent_id) && aliasSchema binding.(wsb_alias) &&
  repositoryUrlSchema binding.(wsb_repository_url) &&
  every repositoryRefSchema binding.(wsb_allowed_base_refs) &&
  (len binding.(wsb_allowed_base_refs) <=? 32) &&
  isoTimestampSchema binding.(wsb_created_at) && isoTimestampSchema binding.(wsb_updated_at) &&
  nullable isoTimestampSchema binding.(wsb_revoked_at) &&
  no_issues (workspaceBindingDescriptorIssues binding).

(** ** Missions: participants, contracts, messages, evidence *)
Record Participant := {
  part_agent_id : string;
  part_role : string;
  part_workspace_alias : string;
  part_repository_url : string;
  part_expected_base_commit : string;
  part_initial_assignment : string;
  part_requested_local_policy_profile : string
}.
#[export] Instance Participant_eq_dec : EqDecision Participant.
Proof. solve_decision. Defined.
Definition participantSchema `{Zod} (p : Participant) : bool :=
  uuidSchema p.(part_agent_id) && aliasSchema p.(part_role) &&
  aliasSchema p.(part_workspace_alias) && repositoryUrlSchema p.(part_repository_url) &&
  baseCommitSchema p.(part_expected_base_commit) &&
  boundedTextSchema p.(part_initial_assignment) &&
  policyProfileNameSchema p.(part_requested_local_policy_profile).

Record ArtifactRef := {
  art_artifact_id : string;
  art_type : string;
  art_version : Z;
  art_sha256 : string;
  art_media_type : string;
  art_byte_size : Z
}.
#[export] Instance ArtifactRef_eq_dec : EqDecision ArtifactRef.
Proof. solve_decision. Defined.
Definition artifactRefSchema `{Zod} (a : ArtifactRef) : bool :=
  uuidSchema a.(art_artifact_id) && artifactTypeSchema a.(art_type) &&
  contractVersionSchema a.(art_version) && sha256Schema a.(art_sha256) &&
  bounded 1 128 a.(art_media_type) &&
  (0 <=? a.(art_byte_size)) && (a.(art_byte_size) <=? MAX_ARTIFACT_BYTES).

Definition sharedContractArtifactSchema `{Zod} (a : ArtifactRef) : bool :=
  artifactRefSchema a && (a.(art_version) =? 1).

Record ContractRevision := {
  rev_revision_id : string;
  rev_mission_id : string;
  rev_previous_version : Z;
  rev_version : Z;
  rev_artifact : ArtifactRef;
  rev_proposed_by_agent_id : string;
  rev_acknowledged_by_agent_ids : list string;
  rev_idempotency_key : string;
  rev_created_at : string
}.
#[export] Instance ContractRevision_eq_dec : EqDecision ContractRevision.
Proof. solve_decision. Defined.
#[export] Instance ContractRevision_eta : Settable ContractRevision := fun r =>
  Build_ContractRevision r.(rev_revision_id) r.(rev_mission_id) r.(rev_previous_version)
    r.(rev_version) r.(rev_artifact) r.(rev_proposed_by_agent_id)
    r.(rev_acknowledged_by_agent_ids) r.(rev_idempotency_key) r.(rev_created_at).

Definition contractRevisionIssues (revision : ContractRevision) : issues :=
  issue_if (revision.(rev_version) !== revision.(rev_previous_version) + 1)
    "Contract revision versions must be consecutive" ++
  issue_if (revision.(rev_artifact).(art_version) !== revision.(rev_version))
    "Contract artifact version must match revision version" ++
  issue_if (negb (hasUniqueValues revision.(rev_acknowledged_by_agent_ids)))
    "Contract acknowledgements must be unique".

Definition contractRevisionSchema `{Zod} (r : ContractRevision) : bool :=
  uuidSchema r.(rev_revision_id) && uuidSchema r.(rev_mission_id) &&
  (0 <? r.(rev_previous_version)) && (r.(rev_previous_version) <=? 999999) &&
  contractVersionSchema r.(rev_version) && (2 <=? r.(rev_version)) &&
  artifactRefSchema r.(rev_artifact) && uuidSchema r.(rev_proposed_by_agent_id) &&
  every uuidSchema r.(rev_acknowledged_by_agent_ids) &&
  (len r.(rev_acknowledged_by_agent_ids) <=? 2) &&
  identifierSchema r.(rev_idempotency_key) && isoTimestampSchema r.(rev_created_at) &&
  no_issues (contractRevisionIssues r).

Record Message := {
  msg_message_id : string;
  msg_mission_id : string;
  msg_sequence_no : Z;
  msg_author_agent_id : string;
  msg_type : MessageType;
  msg_body : string;
  msg_artifacts : list ArtifactRef;
  msg_contract_version : Z;
  msg_idempotency_key : string;
  msg_causal_parent_message_id : option string;
  msg_created_at : string
}.
#[export] Instance Message_eq_dec : EqDecision Message.
Proof. solve_decision. Defined.
Definition messageSchema `{Zod} (m : Message) : bool :=
  uuidSchema m.(msg_message_id) && uuidSchema m.(msg_mission_id) &&
  (0 <? m.(msg_sequence_no)) && (m.(msg_sequence_no) <=? MAX_SAFE_INTEGER) &&
  uuidSchema m.(msg_author_agent_id) && boundedTextSchema m.(msg_body) &&
  every artifactRefSchema m.(msg_artifacts) && (len m.(msg_artifacts) <=? MAX_ARTIFACTS) &&
  contractVersionSchema m.(msg_contract_version) && identifierSchema m.(msg_idempotency_key) &&
  nullable uuidSchema m.(msg_causal_parent_message_id) && isoTimestampSchema m.(msg_created_at) &&
  hasUniqueValues (map art_artifact_id m.(msg_artifacts)).

Record VerificationEvidence := {
  vev_verification_id : string;
  vev_command_id : string;
  vev_outcome : Outcome;
  vev_exit_code : Z;
  vev_duration_ms : Z;
  vev_summary : string;
  vev_output_sha256 : string;
  vev_artifacts : list ArtifactRef;
  vev_recorded_at : string
}.
#[export] Instance VerificationEvidence_eq_dec : EqDecision VerificationEvidence.
Proof. solve_decision. Defined.

Definition verificationEvidenceIssues (evidence : VerificationEvidence) : issues :=
  issue_if ((evidence.(vev_outcome) === O_passed) && (evidence.(vev_exit_code) !== 0))
    "Passed verification must have exit code 0" ++
  issue_if ((evidence.(vev_outcome) === O_failed) && (evidence.(vev_exit_code) === 0))
    "Failed verification must have a non-zero exit code".

Definition verificationEvidenceSchema `{Zod} (v : VerificationEvidence) : bool :=
  uuidSchema v.(vev_verification_id) && aliasSchema v.(vev_command_id) &&
  (0 <=? v.(vev_exit_code)) && (v.(vev_exit_code) <=? 255) &&
  (0 <=? v.(vev_duration_ms)) && (v.(vev_duration_ms) <=? MAX_WALL_TIME_SECONDS * 1000) &&
  boundedTextSchema v.(vev_summary) && sha256Schema v.(vev_output_sha256) &&
  every artifactRefSchema v.(vev_artifacts) && (len v.(vev_artifacts) <=? MAX_ARTIFACTS) &&
  isoTimestampSchema v.(vev_recorded_at) && no_issues (verificationEvidenceIssues v).

(** ** Turn dispositions *)
Inductive TurnDisposition :=
| Reply (message_type : MessageType) (message : string) (artifacts : option (list ArtifactRef))
| ProposeContract (artifact : ArtifactRef)
| Ready (evidence : list VerificationEvidence)
| Blocked (reason : string) (requested_input : option string)
| Failed (failure_class : DeliveryReleaseClassification).
#[export] Instance TurnDisposition_eq_dec : EqDecision TurnDisposition.
Proof. solve_decision. Defined.

Definition turnDispositionSchema `{Zod} (d : TurnDisposition) : bool :=
  match d with
  | Reply _ message artifacts =>
      boundedTextSchema message &&
      nullable (fun l => every artifactRefSchema l && (len l <=? MAX_ARTIFACTS)) artifacts
  | ProposeContract artifact => artifactRefSchema artifact
  | Ready evidence =>
      every verificationEvidenceSchema evidence && (len evidence <=? MAX_VERIFICATION_EVIDENCE)
  | Blocked reason requested_input =>
      boundedTextSchema reason && nullable boundedTextSchema requested_input
  | Failed _ => true
  end.

(** ** The Mission manifest *)
Record MissionManifest := {
  man_schema_version : Z;
  man_mission_id : string;
  man_objective : string;
  man_public_acceptance_criteria : list string;
  man_participants : list Participant;
  man_shared_contract : ArtifactRef;
  man_max_turns : Z;
  man_max_wall_time_seconds : Z;
  man_token_budget : Z;
  man_expires_at : string;
  man_allowed_artifact_types : list string;
  man_created_at : string
}.
#[export] Instance MissionManifest_eq_dec : EqDecision MissionManifest.
Proof. solve_decision. Defined.

Definition missionManifestIssues (manifest : MissionManifest) : issues :=
  issue_if (negb (hasUniqueValues (map part_agent_id manifest.(man_participants))))
    "Mission participants must be unique" ++
  issue_if (negb (hasUniqueValues manifest.(man_public_acceptance_criteria)))
    "Public acceptance criteria must be unique" ++
  issue_if (negb (hasUniqueValues manifest.(man_allowed_artifact_types)))
    "Allowed artifact types must be unique" ++
  issue_if (negb (includes manifest.(man_allowed_artifact_types)
                           manifest.(man_shared_contract).(art_type)))
    "Shared contract type must be allowed by the Mission" ++
  issue_if (num_le (Date_parse manifest.(man_expires_at)) (Date_parse manifest.(man_created_at)))
    "Mission expiry must be after creation".

Definition missionManifestSchema `{Zod} (m : MissionManifest) : bool :=
  (m.(man_schema_version) =? 1) && uuidSchema m.(man_mission_id) &&
  boundedTextSchema m.(man_objective) &&
  every acceptanceCriterionSchema m.(man_public_acceptance_criteria) &&
  (1 <=? len m.(man_public_acceptance_criteria)) &&
  (len m.(man_public_acceptance_criteria) <=? MAX_ACCEPTANCE_CRITERIA) &&
  every participantSchema m.(man_participants) && (len m.(man_participants) =? 2) &&
  sharedContractArtifactSchema m.(man_shared_contract) &&
  (0 <? m.(man_max_turns)) && (m.(man_max_turns) <=? MAX_TURNS) &&
  (0 <? m.(man_max_wall_time_seconds)) &&
  (m.(man_max_wall_time_seconds) <=? MAX_WALL_TIME_SECONDS) &&
  (0 <? m.(man_token_budget)) && (m.(man_token_budget) <=? MAX_TOKEN_BUDGET) &&
  isoTimestampSchema m.(man_expires_at) &&
  every artifactTypeSchema m.(man_allowed_artifact_types) &&
  (1 <=? len m.(man_allowed_artifact_types)) &&
  (len m.(man_allowed_artifact_types) <=? MAX_ARTIFACT_TYPES) &&
  isoTimestampSchema m.(man_created_at) && no_issues (missionManifestIssues m).

Record MissionContext := { ctx_manifest : MissionManifest; ctx_created_by : ActorRef }.
#[export] Instance MissionContext_eq_dec : EqDecision MissionContext.
Proof. solve_decision. Defined.
Definition missionContextSchema `{Zod} (c : MissionContext) : bool :=
  missionManifestSchema c.(ctx_manifest) && actorRefSchema c.(ctx_created_by).

Record MissionEventEnvelope := {
  env_event_id : string;
  env_idempotency_key : string;
  env_mission_id : string;
  env_sequence_no : Z;
  env_created_at : string
}.
#[export] Instance MissionEventEnvelope_eq_dec : EqDecision MissionEventEnvelope.
Proof. solve_decision. Defined.
Definition missionEventEnvelopeSchema `{Zod} (e : MissionEventEnvelope) : bool :=
  uuidSchema e.(env_event_id) && identifierSchema e.(env_idempotency_key) &&
  uuidSchema e.(env_mission_id) && (0 <? e.(env_sequence_no)) &&
  (e.(env_sequence_no) <=? MAX_INT32) && isoTimestampSchema e.(env_created_at).

(** ** Deliveries *)
Record DeliveryLease := {
  lease_lease_id : string; lease_fencing_token : string; lease_expires_at : string }.
#[export] Instance DeliveryLease_eq_dec : EqDecision DeliveryLease.
Proof. solve_decision. Defined.
Definition activeFencingTokenSchema (token : string) : bool :=
  fencingTokenSchema token && (token !== "0").
Definition deliveryLeaseSchema `{Zod} (l : DeliveryLease) : bool :=
  uuidSchema l.(lease_lease_id) && activeFencingTokenSchema l.(lease_fencing_token) &&
  isoTimestampSchema l.(lease_expires_at).

Record DeliveryLeaseAuthority := { auth_lease_id : string; auth_fencing_token : string }.
#[export] Instance DeliveryLeaseAuthority_eq_dec : EqDecision DeliveryLeaseAuthority.
Proof. solve_decision. Defined.
Definition deliveryLeaseAuthoritySchema `{Zod} (l : DeliveryLeaseAuthority) : bool :=
  uuidSchema l.(auth_lease_id) && activeFencingTokenSchema l.(auth_fencing_token).

Record DeliveryLogicalSettlement := { set_settled_by_event_id : string; set_settled_at : string }.
#[export] Instance DeliveryLogicalSettlement_eq_dec : EqDecision DeliveryLogicalSettlement.
Proof. solve_decision. Defined.
Definition deliveryLogicalSettlementSchema `{Zod} (s : DeliveryLogicalSettlement) : bool :=
  uuidSchema s.(set_settled_by_event_id) && isoTimestampSchema s.(set_settled_at).

Record Delivery := {
  d_delivery_id : string;
  d_node_id : string;
  d_mission_id : string;
  d_mission_event_id : string;
  d_kind : DeliveryKind;
  d_cursor : string;
  d_status : DeliveryStatus;
  d_attempt_count : Z;
  d_max_attempts : Z;
  d_last_fencing_token : string;
  d_contract_version : Z;
  d_verification_round : option Z;
  d_lease : option DeliveryLease;
  d_logical_settlement : option DeliveryLogicalSettlement;
  d_idempotency_key : string;
  d_causal_parent_delivery_id : option string;
  d_available_at : string;
  d_created_at : string;
  d_updated_at : string;
  d_acknowledged_at : option string;
  d_cancelled_at : option string;
  d_cancellation_reason : option DeliveryCancellationReason;
  d_dead_lettered_at : option string
}.
#[export] Instance Delivery_eq_dec : EqDecision Delivery.
Proof. solve_decision. Defined.
#[export] Instance Delivery_eta : Settable Delivery := fun d =>
  Build_Delivery d.(d_delivery_id) d.(d_node_id) d.(d_mission_id) d.(d_mission_event_id) d.(d_kind)
    d.(d_cursor) d.(d_status) d.(d_attempt_count) d.(d_max_attempts) d.(d_last_fencing_token)
    d.(d_contract_version) d.(d_verification_round) d.(d_lease) d.(d_logical_settlement)
    d.(d_idempotency_key) d.(d_causal_parent_delivery_id) d.(d_available_at) d.(d_created_at)
    d.(d_updated_at) d.(d_acknowledged_at) d.(d_cancelled_at) d.(d_cancellation_reason)
    d.(d_dead_lettered_at).

Definition needsLease (status : DeliveryStatus) : bool :=
  (status === D_leased) || (status === D_executing).

Definition DeliveryStatus_name (s : DeliveryStatus) : string :=
  match s with
  | D_stored => "stored" | D_leased => "leased" | D_executing => "executing"
  | D_acknowledged => "acknowledged" | D_cancelled => "cancelled"
  | D_dead_lettered => "dead_lettered"
  end.

(** Each nullable timestamp of the list that precedes creation, or follows the
    update, adds one issue named after its field. *)
Definition timestampIssues (bad : option Z -> bool) (what : string)
    (fields : list (string * option string)) : issues :=
  concat (map (fun '(field, value) =>
    issue_if (non_null value && bad (Date_parse_opt value)) (field +:+ what)) fields).

Definition deliveryIssues (delivery : Delivery) : issues :=
  let status := delivery.(d_status) in
  let needsLease := needsLease status in
  let createdAt := Date_parse delivery.(d_created_at) in
  let updatedAt := Date_parse delivery.(d_updated_at) in
  let settled_at := set_settled_at <$> delivery.(d_logical_settlement) in
  let lease_expires := lease_expires_at <$> delivery.(d_lease) in
  issue_if (negb (Bool.eqb (delivery.(d_kind) === K_verification)
                           (non_null delivery.(d_verification_round))))
    "Only verification deliveries carry a verification round" ++
  issue_if (needsLease && is_null delivery.(d_lease))
    (DeliveryStatus_name status +:+ " delivery requires a lease") ++
  issue_if (negb needsLease && non_null delivery.(d_lease))
    (DeliveryStatus_name status +:+ " delivery cannot retain an active lease") ++
  issue_if (delivery.(d_max_attempts) <? delivery.(d_attempt_count))
    "Delivery attempt count cannot exceed its limit" ++
  issue_if (needsLease && (delivery.(d_attempt_count) === 0))
    "Active delivery lease requires at least one attempt" ++
  issue_if ((status === D_acknowledged) && (delivery.(d_attempt_count) === 0))
    "Acknowledged delivery requires at least one execution attempt" ++
  issue_if ((status === D_stored) && (delivery.(d_max_attempts) <=? delivery.(d_attempt_count)))
    "Stored delivery must retain capacity for another lease" ++
  issue_if (delivery.(d_last_fencing_token) !== string_of_int delivery.(d_attempt_count))
    "Latest fencing token must equal the delivery attempt count" ++
  issue_if (non_null delivery.(d_lease) &&
      ((lease_fencing_token <$> delivery.(d_lease)) !== Some delivery.(d_last_fencing_token)))
    "Active lease must use the delivery's latest fencing token" ++
  issue_if (negb (Bool.eqb (status === D_acknowledged) (non_null delivery.(d_acknowledged_at))))
    "Acknowledged timestamp must match acknowledged status" ++
  issue_if (negb (Bool.eqb (status === D_cancelled) (non_null delivery.(d_cancelled_at))))
    "Cancellation timestamp must match cancelled status" ++
  issue_if (negb (Bool.eqb (status === D_cancelled) (non_null delivery.(d_cancellation_reason))))
    "Cancellation reason must match cancelled status" ++
  issue_if (negb (Bool.eqb (status === D_dead_lettered) (non_null delivery.(d_dead_lettered_at))))
    "Dead-letter timestamp must match dead-lettered status" ++
  issue_if ((status === D_acknowledged) && is_null delivery.(d_logical_settlement))
    "Acknowledged delivery requires logical settlement" ++
  issue_if (non_null delivery.(d_logical_settlement) && (status !== D_acknowledged) &&
            (status !== D_cancelled))
    "Logical settlement belongs only to acknowledged or cancelled work" ++
  timestampIssues (fun t => num_lt t createdAt) " cannot precede delivery creation"
    [("available_at", Some delivery.(d_available_at)); ("updated_at", Some delivery.(d_updated_at));
     ("settled_at", settled_at); ("acknowledged_at", delivery.(d_acknowledged_at));
     ("cancelled_at", delivery.(d_cancelled_at));
     ("dead_lettered_at", delivery.(d_dead_lettered_at))] ++
  issue_if (non_null lease_expires && num_lt (Date_parse_opt lease_expires) createdAt)
    "Lease expiry cannot precede delivery creation" ++
  issue_if ((needsLease || (status === D_acknowledged)) &&
            num_gt (Date_parse delivery.(d_available_at)) updatedAt)
    "Delivery cannot be leased before it becomes available" ++
  issue_if (non_null lease_expires && num_le (Date_parse_opt lease_expires) updatedAt)
    "Active lease must expire after the delivery update" ++
  timestampIssues (fun t => num_gt t updatedAt) " cannot follow the delivery update timestamp"
    [("settled_at", settled_at); ("acknowledged_at", delivery.(d_acknowledged_at));
     ("cancelled_at", delivery.(d_cancelled_at));
     ("dead_lettered_at", delivery.(d_dead_lettered_at))] ++
  issue_if (non_null delivery.(d_acknowledged_at) &&
      num_lt (Date_parse_opt delivery.(d_acknowledged_at)) (Date_parse delivery.(d_available_at)))
    "Delivery acknowledgement cannot precede availability".

Definition deliverySchema `{Zod} (d : Delivery) : bool :=
  uuidSchema d.(d_delivery_id) && uuidSchema d.(d_node_id) && uuidSchema d.(d_mission_id) &&
  uuidSchema d.(d_mission_event_id) && deliveryCursorSchema d.(d_cursor) &&
  (0 <=? d.(d_attempt_count)) && (d.(d_attempt_count) <=? 100) &&
  (0 <? d.(d_max_attempts)) && (d.(d_max_attempts) <=? 100) &&
  fencingTokenSchema d.(d_last_fencing_token) && contractVersionSchema d.(d_contract_version) &&
  nullable (fun n => (0 <? n) && (n <=? MAX_INT32)) d.(d_verification_round) &&
  nullable deliveryLeaseSchema d.(d_lease) &&
  nullable deliveryLogicalSettlementSchema d.(d_logical_settlement) &&
  identifierSchema d.(d_idempotency_key) && nullable uuidSchema d.(d_causal_parent_delivery_id) &&
  isoTimestampSchema d.(d_available_at) && isoTimestampSchema d.(d_created_at) &&
  isoTimestampSchema d.(d_updated_at) && nullable isoTimestampSchema d.(d_acknowledged_at) &&
  nullable isoTimestampSchema d.(d_cancelled_at) &&
  nullable isoTimestampSchema d.(d_dead_lettered_at) && no_issues (deliveryIssues d).

Definition storedDeliverySchema `{Zod} (d : Delivery) : bool :=
  deliverySchema d && (d.(d_status) === D_stored).

Record StoredDeliveryCursorPage := {
  page_items : list Delivery; page_next_cursor : option string }.

(** Adjacent cursors, for the [for] loop over [index - 1] and [index]. *)
Fixpoint adjacent {A} (bad : A -> A -> bool) (m : string) (l : list A) : issues :=
  match l with
  | x :: (y :: _) as l' => issue_if (bad x y) m ++ adjacent bad m l'
  | _ => []
  end.

(** [array.at(-1)] *)
Fixpoint at_last {A} (l : list A) : option A :=
  match l with [] => None | [x] => Some x | _ :: l => at_last l end.

(** [new Set(values).size > 1] *)
Definition several_values (values : list string) : bool :=
  match values with [] => false | v :: vs => some (fun w => w !== v) vs end.

Definition storedDeliveryCursorPageIssues (page : StoredDeliveryCursorPage) : issues :=
  let finalCursor := d_cursor <$> at_last page.(page_items) in
  adjacent (fun a b => 0 <=? compareDecimalStrings a.(d_cursor) b.(d_cursor))
    "Delivery cursors must be strictly increasing" page.(page_items) ++
  issue_if (several_values (map d_node_id page.(page_items)))
    "A delivery cursor page belongs to one Node" ++
  issue_if (non_null finalCursor && (page.(page_next_cursor) !== finalCursor))
    "Next cursor must match the final returned delivery".

Definition storedDeliveryCursorPageSchema `{Zod} (page : StoredDeliveryCursorPage) : bool :=
  every storedDeliverySchema page.(page_items) && (len page.(page_items) <=? 200) &&
  nullable deliveryCursorSchema page.(page_next_cursor) &&
  no_issues (storedDeliveryCursorPageIssues page).

(** ** Runs *)
Definition runtimeNameSchema : string -> bool := boundedOpaqueReferenceSchema 128.
Definition runtimeVersionSchema : string -> bool := boundedOpaqueReferenceSchema 128.

Record Runtime := { rt_name : string; rt_version : string }.
Definition runtimeSchema (r : Runtime) : bool :=
  runtimeNameSchema r.(rt_name) && runtimeVersionSchema r.(rt_version).

Inductive UsageReason := U_unsupported | U_not_reported.
Inductive TokenUsage :=
| TokensAvailable (input_tokens output_tokens : Z)
| TokensUnavailable (reason : UsageReason).
Definition tokenUsageSchema (u : TokenUsage) : bool :=
  match u with
  | TokensAvailable i o =>
      (0 <=? i) && (i <=? MAX_TOKEN_BUDGET) && (0 <=? o) && (o <=? MAX_TOKEN_BUDGET)
  | TokensUnavailable _ => true
  end.

Record Run := {
  run_run_id : string;
  run_mission_id : string;
  run_participant_agent_id : string;
  run_node_id : string;
  run_delivery_id : string;
  run_lease_id : string;
  run_fencing_token : string;
  run_contract_version : Z;
  run_runtime : Runtime;
  run_turn_ref : string;
  run_status : RunStatus;
  run_usage : TokenUsage;
  run_disposition : option TurnDisposition;
  run_artifact_hashes : list string;
  run_verification_evidence : list VerificationEvidence;
  run_started_at : string;
  run_completed_at : option string
}.

Definition is_failed (d : option TurnDisposition) : bool :=
  match d with Some (Failed _) => true | _ => false end.

Definition runIssues (run : Run) : issues :=
  issue_if (negb (Bool.eqb (run.(run_status) === Run_running) (is_null run.(run_completed_at))))
    "Only running runs may omit a completion timestamp" ++
  issue_if ((run.(run_status) === Run_completed) && is_null run.(run_disposition))
    "Completed run requires a disposition" ++
  issue_if ((run.(run_status) === Run_running) && non_null run.(run_disposition))
    "Running run cannot have a terminal disposition" ++
  issue_if ((run.(run_status) === Run_failed) && negb (is_failed run.(run_disposition)))
    "Failed run requires a failed disposition" ++
  issue_if ((run.(run_status) === Run_completed) && is_failed run.(run_disposition))
    "Completed run cannot have a failed disposition" ++
  issue_if ((run.(run_status) === Run_cancelled) && non_null run.(run_disposition))
    "Cancelled run cannot have a turn disposition" ++
  issue_if (non_null run.(run_completed_at) &&
      num_lt (Date_parse_opt run.(run_completed_at)) (Date_parse run.(run_started_at)))
    "Run completion cannot precede its start".

Definition runSchema `{Zod} (r : Run) : bool :=
  uuidSchema r.(run_run_id) && uuidSchema r.(run_mission_id) &&
  uuidSchema r.(run_participant_agent_id) && uuidSchema r.(run_node_id) &&
  uuidSchema r.(run_delivery_id) && uuidSchema r.(run_lease_id) &&
  activeFencingTokenSchema r.(run_fencing_token) && contractVersionSchema r.(run_contract_version) &&
  runtimeSchema r.(run_runtime) && opaqueReferenceSchema r.(run_turn_ref) &&
  tokenUsageSchema r.(run_usage) && nullable turnDispositionSchema r.(run_disposition) &&
  every sha256Schema r.(run_artifact_hashes) && (len r.(run_artifact_hashes) <=? MAX_ARTIFACTS) &&
  every verificationEvidenceSchema r.(run_verification_evidence) &&
  (len r.(run_verification_evidence) <=? MAX_VERIFICATION_EVIDENCE) &&
  isoTimestampSchema r.(run_started_at) && nullable isoTimestampSchema r.(run_completed_at) &&
  no_issues (runIssues r).

(** ** Lemmas on the array helpers *)
Lemma at_last_snoc {A} (l : list A) x : at_last (l ++ [x]) = Some x.
Proof. induction l as [|y l IH]; [done|]. cbn. by destruct (l ++ [x]) eqn:E; [destruct l|]. Qed.

Lemma at_last_lookup {A} (l : list A) : at_last l = l !! pred (length l).
Proof.
  induction l as [|x l _] using rev_ind; [done|].
  rewrite at_last_snoc, length_app, Nat.add_comm. cbn. by rewrite list_lookup_middle.
Qed.
