(* ===== verification/StateMachines.v ===== *)
(** * Mission and delivery state machines: [protocol/src/state-machines.ts]

    The two transition tables, [transitionMissionStatus] and
    [transitionDeliveryState] with the claim assertions they call, as total
    functions into [result]: every [throw] is an [Err].  The second half states
    what the tables promise: terminal statuses are final, fencing tokens grow
    with the attempts and an older token is refused for good, a lease is live
    exactly until its deadline, and the number of leases is bounded. *)

From S2P Require Import Prelude JsLib Schemas.

(** ** Events *)
Inductive MissionTransitionEvent :=
| participants_accepted | participants_ready | blocking_required | block_resolved
| verification_passed | verification_failed | cancel | expire | fail.

(** The [type] tag of a delivery event. *)
Inductive DeliveryEventType :=
| DE_lease | DE_renew_lease | DE_start_execution | DE_acknowledge | DE_release
| DE_lease_expired | DE_cancel.

#[export] Instance MissionTransitionEvent_eq_dec : EqDecision MissionTransitionEvent.
Proof. solve_decision. Defined.
#[export] Instance DeliveryEventType_eq_dec : EqDecision DeliveryEventType.
Proof. solve_decision. Defined.

Record DeliveryClaim := { leaseId : string; fencingToken : string; now : string }.

(** [Partial<DeliveryClaim>]: any of the three may be missing. *)
Record PartialClaim := {
  p_leaseId : option string; p_fencingToken : option string; p_now : option string }.
Definition partial_claim (c : DeliveryClaim) : PartialClaim :=
  {| p_leaseId := Some c.(leaseId); p_fencingToken := Some c.(fencingToken);
     p_now := Some c.(now) |}.

(** [classification] and [reason] are the strings that arrive: the code checks
    them against their schemas at run time. *)
Inductive DeliveryTransitionEvent :=
| Lease (claim : DeliveryClaim) (expiresAt : string)
| RenewLease (claim : DeliveryClaim) (expiresAt : string)
| StartExecution (claim : DeliveryClaim)
| Acknowledge (claim : DeliveryClaim)
| Release (claim : DeliveryClaim) (classification : string)
| LeaseExpired (claim : DeliveryClaim)
| Cancel (reason : string) (now : string).

Definition event_type (e : DeliveryTransitionEvent) : DeliveryEventType :=
  match e with
  | Lease _ _ => DE_lease | RenewLease _ _ => DE_renew_lease
  | StartExecution _ => DE_start_execution | Acknowledge _ => DE_acknowledge
  | Release _ _ => DE_release | LeaseExpired _ => DE_lease_expired | Cancel _ _ => DE_cancel
  end.

Record DeliveryTransitionState := {
  status : DeliveryStatus;
  attemptCount : Z;
  maxAttempts : Z;
  lastFencingToken : string;
  activeLeaseId : option string;
  activeFencingToken : option string;
  leaseExpiresAt : option string;
  logicallySettled : bool
}.
#[export] Instance DeliveryTransitionState_eq_dec : EqDecision DeliveryTransitionState.
Proof. solve_decision. Defined.
#[export] Instance DeliveryTransitionState_eta : Settable DeliveryTransitionState := fun s =>
  Build_DeliveryTransitionState s.(status) s.(attemptCount) s.(maxAttempts) s.(lastFencingToken)
    s.(activeLeaseId) s.(activeFencingToken) s.(leaseExpiresAt) s.(logicallySettled).

(** ** Errors *)
Inductive LeaseClaimReason := Inactive | LeaseMismatch | Expired | InvalidTime.

Inductive TransitionError :=
| InvalidMissionTransition (current : MissionStatus) (event : MissionTransitionEvent)
| InvalidDeliveryTransition (current : DeliveryStatus) (event : DeliveryEventType)
| InvalidFencingTokenError (current : DeliveryStatus) (event : DeliveryEventType)
    (expected received : option string)
| InvalidLeaseClaimError (current : DeliveryStatus) (event : DeliveryEventType)
    (reason : LeaseClaimReason).

(** ** Transition tables *)
Definition missionTransitions (current : MissionStatus) (event : MissionTransitionEvent)
    : option MissionStatus :=
  match current, event with
  | M_awaiting_acceptance, participants_accepted => Some M_active
  | M_awaiting_acceptance, cancel => Some M_cancelled
  | M_awaiting_acceptance, expire => Some M_expired
  | M_awaiting_acceptance, fail => Some M_failed
  | M_active, participants_ready => Some M_verifying
  | M_active, blocking_required => Some M_blocked
  | M_active, cancel => Some M_cancelled
  | M_active, expire => Some M_expired
  | M_active, fail => Some M_failed
  | M_verifying, blocking_required => Some M_blocked
  | M_verifying, verification_passed => Some M_completed
  | M_verifying, verification_failed => Some M_active
  | M_verifying, cancel => Some M_cancelled
  | M_verifying, expire => Some M_expired
  | M_verifying, fail => Some M_failed
  | M_blocked, block_resolved => Some M_active
  | M_blocked, cancel => Some M_cancelled
  | M_blocked, expire => Some M_expired
  | M_blocked, fail => Some M_failed
  | _, _ => None
  end.

Definition deliveryTransitions (current : DeliveryStatus) (event : DeliveryEventType)
    : option DeliveryStatus :=
  match current, event with
  | D_stored, DE_lease => Some D_leased
  | D_stored, DE_cancel => Some D_cancelled
  | D_leased, DE_renew_lease => Some D_leased
  | D_leased, DE_start_execution => Some D_executing
  | D_leased, DE_release => Some D_stored
  | D_leased, DE_lease_expired => Some D_stored
  | D_leased, DE_cancel => Some D_cancelled
  | D_executing, DE_renew_lease => Some D_executing
  | D_executing, DE_acknowledge => Some D_acknowledged
  | D_executing, DE_release => Some D_stored
  | D_executing, DE_lease_expired => Some D_stored
  | D_executing, DE_cancel => Some D_cancelled
  | _, _ => None
  end.

Definition transitionMissionStatus (current : MissionStatus) (event : MissionTransitionEvent)
    : result TransitionError MissionStatus :=
  match missionTransitions current event with
  | None => Err (InvalidMissionTransition current event)
  | Some next => Ok next
  end.

Definition isTimestamp `{Zod} (value : option string) : bool :=
  match value with None => false | Some v => isoTimestampSchema v end.

Definition isTimestampBefore `{Zod} (left right : option string) : bool :=
  non_null left && isTimestamp left && isTimestamp right &&
  num_lt (Date_parse_opt left) (Date_parse_opt right).

Definition assertMatchingDeliveryClaim `{Zod} (current : DeliveryTransitionState)
    (received : PartialClaim) (eventType : DeliveryEventType) : result TransitionError unit :=
  throw (InvalidLeaseClaimError current.(status) eventType Inactive)
    when (current.(status) !== D_leased) && (current.(status) !== D_executing) in
  throw (InvalidLeaseClaimError current.(status) eventType LeaseMismatch)
    when is_null received.(p_leaseId) || (received.(p_leaseId) !== current.(activeLeaseId)) in
  throw (InvalidFencingTokenError current.(status) eventType
           current.(activeFencingToken) received.(p_fencingToken))
    when is_null received.(p_fencingToken) ||
         (received.(p_fencingToken) !== current.(activeFencingToken)) in
  throw (InvalidLeaseClaimError current.(status) eventType InvalidTime)
    when is_null received.(p_now) || negb (isTimestamp received.(p_now)) ||
         negb (isTimestamp current.(leaseExpiresAt)) in
  Ok tt.

Definition assertActiveDeliveryClaim `{Zod} (current : DeliveryTransitionState)
    (received : PartialClaim) (eventType : DeliveryEventType) : result TransitionError unit :=
  let* _ := assertMatchingDeliveryClaim current received eventType in
  throw (InvalidLeaseClaimError current.(status) eventType Expired)
    when negb (isTimestampBefore received.(p_now) current.(leaseExpiresAt)) in
  Ok tt.

(** The claim an event other than [lease] and [cancel] carries. *)
Definition event_claim (e : DeliveryTransitionEvent) : option DeliveryClaim :=
  match e with
  | Lease c _ | RenewLease c _ | StartExecution c | Acknowledge c | Release c _
  | LeaseExpired c => Some c
  | Cancel _ _ => None
  end.

(** The block of [transitionDeliveryState] that checks the claim of a
    lease-owned event against a leased or executing delivery. *)
Definition assertLeaseOwned `{Zod} (current : DeliveryTransitionState) (c : DeliveryClaim)
    (type : DeliveryEventType) : result TransitionError unit :=
  if needsLease current.(status) then
    if type === DE_lease_expired then
      let* _ := assertMatchingDeliveryClaim current (partial_claim c) type in
      throw (InvalidLeaseClaimError current.(status) type InvalidTime)
        when isTimestampBefore (Some c.(now)) current.(leaseExpiresAt) in
      Ok tt
    else assertActiveDeliveryClaim current (partial_claim c) type
  else Ok tt.

Definition transitionDeliveryState `{Zod} (current : DeliveryTransitionState)
    (event : DeliveryTransitionEvent) : result TransitionError DeliveryTransitionState :=
  let type := event_type event in
  let invalid := InvalidDeliveryTransition current.(status) type in
  let invalid_time := InvalidLeaseClaimError current.(status) type InvalidTime in
  match deliveryTransitions current.(status) type with
  | None => Err invalid
  | Some next =>
      match event with
      | Lease c expiresAt =>
          throw invalid when current.(logicallySettled) ||
            (current.(maxAttempts) <=? current.(attemptCount)) ||
            (c.(fencingToken) !== string_of_int (current.(attemptCount) + 1)) in
          throw invalid_time when negb (isTimestampBefore (Some c.(now)) (Some expiresAt)) in
          throw (InvalidLeaseClaimError current.(status) type LeaseMismatch)
            when negb (uuidSchema c.(leaseId)) in
          Ok (current <| status := next |>
                      <| attemptCount := current.(attemptCount) + 1 |>
                      <| lastFencingToken := c.(fencingToken) |>
                      <| activeLeaseId := Some c.(leaseId) |>
                      <| activeFencingToken := Some c.(fencingToken) |>
                      <| leaseExpiresAt := Some expiresAt |>)
      | Cancel reason now =>
          throw invalid when negb (isoTimestampSchema now) ||
            is_null (deliveryCancellationReasonSchema reason) in
          Ok (current <| status := next |>
                      <| activeLeaseId := None |>
                      <| activeFencingToken := None |>
                      <| leaseExpiresAt := None |>)
      | RenewLease c _ | StartExecution c | Acknowledge c | Release c _ | LeaseExpired c =>
          throw invalid when current.(logicallySettled) && (type !== DE_acknowledge) in
          let* _ := assertLeaseOwned current c type in
          match event with
          | RenewLease _ expiresAt =>
              throw invalid_time
                when negb (isTimestampBefore (Some c.(now)) (Some expiresAt)) ||
                     negb (isTimestamp current.(leaseExpiresAt)) ||
                     negb (isTimestampBefore current.(leaseExpiresAt) (Some expiresAt)) in
              Ok (current <| leaseExpiresAt := Some expiresAt |>)
          | _ =>
              throw invalid when (type === DE_acknowledge) && negb current.(logicallySettled) in
              let attemptsExhausted :=
                ((type === DE_release) || (type === DE_lease_expired)) &&
                (current.(maxAttempts) <=? current.(attemptCount)) in
              let classification := match event with Release _ s => s | _ => "" end in
              let terminalRelease :=
                (type === DE_release) &&
                ((classification === "permanent") || (classification === "policy_denied")) in
              throw invalid when (type === DE_release) &&
                is_null (deliveryReleaseClassificationSchema classification) in
              let keep := next === D_executing in
              Ok (current
                <| status := if attemptsExhausted || terminalRelease then D_dead_lettered
                             else next |>
                <| activeLeaseId := if keep then current.(activeLeaseId) else None |>
                <| activeFencingToken := if keep then current.(activeFencingToken) else None |>
                <| leaseExpiresAt := if keep then current.(leaseExpiresAt) else None |>)
          end
      end
  end.

(** ** Runs *)

(** The Relay may mark the work logically settled at any moment: the flag is an
    input of the machine, set outside it. *)
Definition settle (s : DeliveryTransitionState) : DeliveryTransitionState :=
  s <| logicallySettled := true |>.

Inductive delivery_run `{Zod} : DeliveryTransitionState -> list DeliveryTransitionEvent ->
    DeliveryTransitionState -> Prop :=
| run_nil s : delivery_run s [] s
| run_event s e s1 es s2 :
    transitionDeliveryState s e = Ok s1 -> delivery_run s1 es s2 -> delivery_run s (e :: es) s2
| run_settle s es s2 : delivery_run (settle s) es s2 -> delivery_run s es s2.

Inductive mission_run : MissionStatus -> list MissionTransitionEvent -> MissionStatus -> Prop :=
| mrun_nil s : mission_run s [] s
| mrun_event s e s1 es s2 :
    transitionMissionStatus s e = Ok s1 -> mission_run s1 es s2 -> mission_run s (e :: es) s2.

Definition delivery_terminal (s : DeliveryStatus) : bool :=
  match s with D_acknowledged | D_cancelled | D_dead_lettered => true | _ => false end.
Definition mission_terminal_status (s : MissionStatus) : bool :=
  match s with M_completed | M_cancelled | M_expired | M_failed => true | _ => false end.

(** A delivery as it is stored, before its first lease. *)
Definition initial_delivery (max : Z) : DeliveryTransitionState :=
  {| status := D_stored; attemptCount := 0; maxAttempts := max; lastFencingToken := "0";
     activeLeaseId := None; activeFencingToken := None; leaseExpiresAt := None;
     logicallySettled := false |}.

(** The lease fields of a state: all present and current, or all absent. *)
Definition lease_fields `{Zod} (s : DeliveryTransitionState) : Prop :=
  if needsLease s.(status)
  then is_Some s.(activeLeaseId) /\ s.(activeFencingToken) = Some s.(lastFencingToken) /\
       isTimestamp s.(leaseExpiresAt) = true /\ 1 <= s.(attemptCount)
  else s.(activeLeaseId) = None /\ s.(activeFencingToken) = None /\ s.(leaseExpiresAt) = None.

Record delivery_wf `{Zod} (s : DeliveryTransitionState) : Prop := {
  wf_attempts : 0 <= s.(attemptCount) <= s.(maxAttempts);
  wf_token : s.(lastFencingToken) = string_of_int s.(attemptCount);
  wf_lease : lease_fields s;
  wf_stored : s.(status) = D_stored -> s.(attemptCount) < s.(maxAttempts);
  wf_acknowledged : s.(status) = D_acknowledged -> s.(logicallySettled) = true
}.

(** The fencing tokens a run hands out, in order. *)
Fixpoint lease_tokens (es : list DeliveryTransitionEvent) : list string :=
  match es with
  | [] => []
  | Lease c _ :: es => c.(fencingToken) :: lease_tokens es
  | _ :: es => lease_tokens es
  end.

(** The events of a run that are not renewals. *)
Fixpoint progress_events (es : list DeliveryTransitionEvent) : Z :=
  match es with
  | [] => 0
  | RenewLease _ _ :: es => progress_events es
  | _ :: es => 1 + progress_events es
  end.

(** What is left to do from a state: three events an attempt, one cancellation. *)
Definition delivery_measure (s : DeliveryTransitionState) : Z :=
  3 * (s.(maxAttempts) - s.(attemptCount)) +
  match s.(status) with
  | D_stored => 1 | D_leased => 3 | D_executing => 2
  | _ => - 3 * (s.(maxAttempts) - s.(attemptCount))
  end.

(** The state with its lease given up. *)
Definition without_lease (s : DeliveryTransitionState) (st : DeliveryStatus)
    : DeliveryTransitionState :=
  s <| status := st |> <| activeLeaseId := None |> <| activeFencingToken := None |>
    <| leaseExpiresAt := None |>.

Definition released_status (s : DeliveryTransitionState) (terminal : bool) : DeliveryStatus :=
  if (s.(maxAttempts) <=? s.(attemptCount)) || terminal then D_dead_lettered else D_stored.

Definition delivery_effect `{Zod} (s : DeliveryTransitionState) (e : DeliveryTransitionEvent)
    (s' : DeliveryTransitionState) : Prop :=
  match e with
  | Lease c x =>
      s.(status) = D_stored /\ s.(logicallySettled) = false /\
      s.(attemptCount) < s.(maxAttempts) /\
      c.(fencingToken) = string_of_int (s.(attemptCount) + 1) /\
      isTimestampBefore (Some c.(now)) (Some x) = true /\
      s' = s <| status := D_leased |> <| attemptCount := s.(attemptCount) + 1 |>
             <| lastFencingToken := c.(fencingToken) |> <| activeLeaseId := Some c.(leaseId) |>
             <| activeFencingToken := Some c.(fencingToken) |> <| leaseExpiresAt := Some x |>
  | RenewLease c x =>
      needsLease s.(status) = true /\ isTimestampBefore s.(leaseExpiresAt) (Some x) = true /\
      s' = s <| leaseExpiresAt := Some x |>
  | StartExecution c => s.(status) = D_leased /\ s' = s <| status := D_executing |>
  | Acknowledge c =>
      s.(status) = D_executing /\ s.(logicallySettled) = true /\ s' = without_lease s D_acknowledged
  | Release c k =>
      needsLease s.(status) = true /\
      s' = without_lease s (released_status s ((k === "permanent") || (k === "policy_denied")))
  | LeaseExpired c => needsLease s.(status) = true /\ s' = without_lease s (released_status s false)
  | Cancel r n => delivery_terminal s.(status) = false /\ s' = without_lease s D_cancelled
  end.

(** ** Sample data for the witnesses *)
Definition sample_lease_id : string := "0f0f0f0f-0000-4000-8000-00000000000a".
Definition sample_claim (token at_time : string) : DeliveryClaim :=
  {| leaseId := sample_lease_id; fencingToken := token; now := at_time |}.

(** Two attempts: the first lease expires, the second is released for good. *)
Definition sample_events : list DeliveryTransitionEvent :=
  [ Lease (sample_claim "1" "2026-01-01T00:00:00.000Z") "2026-01-01T00:01:00.000Z";
    StartExecution (sample_claim "1" "2026-01-01T00:00:10.000Z");
    LeaseExpired (sample_claim "1" "2026-01-01T00:01:00.000Z");
    Lease (sample_claim "2" "2026-01-01T00:02:00.000Z") "2026-01-01T00:03:00.000Z" ].

Definition sample_leased : DeliveryTransitionState :=
  {| status := D_leased; attemptCount := 1; maxAttempts := 3; lastFencingToken := "1";
     activeLeaseId := Some sample_lease_id; activeFencingToken := Some "1";
     leaseExpiresAt := Some "2026-01-01T00:01:00.000Z"; logicallySettled := false |}.
Definition sample_releases : DeliveryTransitionState :=
  {| status := D_leased; attemptCount := 2; maxAttempts := 3; lastFencingToken := "2";
     activeLeaseId := Some sample_lease_id; activeFencingToken := Some "2";
     leaseExpiresAt := Some "2026-01-01T00:03:00.000Z"; logicallySettled := false |}.

(** ** What a successful transition tells *)
Section transitions.
Context `{Zod}.

Lemma is_null_Some {A} (x : A) : is_null (Some x) = false.
Proof. done. Qed.

Lemma isTimestampBefore_lt a b :
  isTimestampBefore a b = true ->
  isTimestamp a = true /\ isTimestamp b = true /\
  num_lt (Date_parse_opt a) (Date_parse_opt b) = true.
Proof. unfold isTimestampBefore. intros E. bool_hyps. auto. Qed.

Lemma matching_claim_inv s c t :
  assertMatchingDeliveryClaim s (partial_claim c) t = Ok tt ->
  needsLease s.(status) = true /\ s.(activeLeaseId) = Some c.(leaseId) /\
  s.(activeFencingToken) = Some c.(fencingToken) /\ isTimestamp (Some c.(now)) = true /\
  isTimestamp s.(leaseExpiresAt) = true.
Proof.
  unfold assertMatchingDeliveryClaim, partial_claim; cbn [p_leaseId p_fencingToken p_now].
  intros R. ok_inv R. rewrite ?is_null_Some in *. bool_hyps. split_and!; try congruence.
  unfold needsLease. destruct s.(status); try done; cbn in E; discriminate.
Qed.

Lemma lease_owned_guard s c t :
  assertLeaseOwned s c t = Ok tt -> needsLease s.(status) = true ->
  s.(activeLeaseId) = Some c.(leaseId) /\ s.(activeFencingToken) = Some c.(fencingToken) /\
  isTimestamp s.(leaseExpiresAt) = true /\
  isTimestampBefore (Some c.(now)) s.(leaseExpiresAt) = negb (t === DE_lease_expired).
Proof.
  unfold assertLeaseOwned, assertActiveDeliveryClaim. intros R Hn. rewrite Hn in R.
  destruct (t === DE_lease_expired); ok_inv R; destruct a;
    match goal with
    | E : assertMatchingDeliveryClaim _ _ _ = _ |- _ =>
        apply matching_claim_inv in E as (? & ? & ? & ? & ?)
    end; cbn [p_now partial_claim negb] in *; bool_hyps; auto.
Qed.

(** Every event but [lease] and [cancel] presents the active lease. *)
Lemma lease_owned_inv s e c s' :
  transitionDeliveryState s e = Ok s' -> event_claim e = Some c -> event_type e <> DE_lease ->
  needsLease s.(status) = true /\ s.(activeLeaseId) = Some c.(leaseId) /\
  s.(activeFencingToken) = Some c.(fencingToken) /\
  isTimestampBefore (Some c.(now)) s.(leaseExpiresAt) =
    negb (event_type e === DE_lease_expired).
Proof.
  unfold transitionDeliveryState. intros R Hc Hl.
  assert (Hn : needsLease s.(status) = true).
  { destruct (deliveryTransitions s.(status) (event_type e)) eqn:E; [|discriminate].
    destruct s.(status), e; cbn in E; try discriminate; done. }
  destruct (deliveryTransitions s.(status) (event_type e)) as [next|]; [|discriminate].
  split; [done|].
  destruct e; cbn [event_type event_claim] in *; simplify_eq; try done.
  all: ok_inv R; destruct a;
    match goal with
    | E : assertLeaseOwned _ _ _ = _ |- _ =>
        apply lease_owned_guard in E as (? & ? & ? & ?); auto
    end.
Qed.
End transitions.
Section effects.
Context `{Zod}.

Lemma transition_effect s e s' : transitionDeliveryState s e = Ok s' -> delivery_effect s e s'.
Proof.
  unfold transitionDeliveryState. intros R.
  destruct (deliveryTransitions s.(status) (event_type e)) as [next|] eqn:T; [|discriminate].
  destruct e; cbn [event_type delivery_effect] in *; ok_inv R; bool_hyps;
    injection R as <-.
  all: destruct s as [st0 ac0 mx0 lt0 al0 af0 le0 ls0]; destruct st0, ls0; cbn in T |- *;
    try discriminate; injection T as <-; cbn in *; split_and!; try reflexivity; auto.
  all: unfold released_status; by rewrite orb_false_r.
Qed.

Lemma without_lease_fields s st :
  needsLease st = false -> lease_fields (without_lease s st).
Proof. intros E. unfold lease_fields. cbn. rewrite E. auto. Qed.

Lemma released_status_needsLease s b : needsLease (released_status s b) = false.
Proof. unfold released_status. by destruct (_ || _). Qed.

Lemma released_status_cases s b st :
  released_status s b = st ->
  st = D_dead_lettered \/ (st = D_stored /\ s.(attemptCount) < s.(maxAttempts)).
Proof.
  unfold released_status. destruct (_ || _) eqn:E; intros <-; [auto|right].
  bool_hyps. auto.
Qed.

Lemma initial_delivery_wf max : 0 < max -> delivery_wf (initial_delivery max).
Proof. intros Hm. split; cbn; try done; lia. Qed.

Lemma settle_wf s : delivery_wf s -> delivery_wf (settle s).
Proof. intros []. split; try done. Qed.

Lemma needsLease_attempts s :
  delivery_wf s -> needsLease s.(status) = true -> 1 <= s.(attemptCount).
Proof. intros [_ _ L _ _] E. unfold lease_fields in L. rewrite E in L. tauto. Qed.

Lemma transition_wf s e s' :
  transitionDeliveryState s e = Ok s' -> delivery_wf s -> delivery_wf s'.
Proof.
  intros R W. pose proof (transition_effect _ _ _ R) as F.
  destruct W as [Wa Wt Wl Ws Wk].
  destruct e; cbn [delivery_effect] in F; decompose [and] F; clear F; subst s'.
  - split; cbn; try done; try lia.
    split_and!; [eauto|done| |cbn; lia]. by apply isTimestampBefore_lt in H4 as (_ & ? & _).
  - split; cbn; try done. unfold lease_fields in *; cbn. rewrite H0 in *.
    split_and!; try tauto. by apply isTimestampBefore_lt in H2 as (_ & ? & _).
  - split; cbn; try done. unfold lease_fields in *; cbn. rewrite H0 in Wl. done.
  - split; done.
  - split; cbn; try done.
    + apply without_lease_fields, released_status_needsLease.
    + intros [|[_ ?]]%released_status_cases; done.
    + intros [|[? _]]%released_status_cases; done.
  - split; cbn; try done.
    + apply without_lease_fields, released_status_needsLease.
    + intros [|[_ ?]]%released_status_cases; done.
    + intros [|[? _]]%released_status_cases; done.
  - split; cbn; try done; by apply without_lease_fields.
Qed.

Lemma transition_counts s e s' :
  transitionDeliveryState s e = Ok s' ->
  s'.(maxAttempts) = s.(maxAttempts) /\
  s'.(attemptCount) = s.(attemptCount) + len (lease_tokens [e]) /\
  lease_tokens [e] = map string_of_int (seqZ (s.(attemptCount) + 1) (len (lease_tokens [e]))).
Proof.
  intros R%transition_effect.
  destruct e; cbn [delivery_effect] in R; decompose [and] R; subst s'; cbn; split_and!;
    unfold len; cbn [length]; try done; try lia.
  rewrite H3. change (Z.of_nat 1) with 1. by rewrite seqZ_cons by lia.
Qed.

Lemma transition_measure s e s' :
  delivery_wf s -> transitionDeliveryState s e = Ok s' ->
  delivery_measure s' + progress_events [e] <= delivery_measure s.
Proof.
  intros [Wa _ _ _ _] R%transition_effect. unfold delivery_measure.
  destruct e; cbn [delivery_effect progress_events] in *; decompose [and] R; subst s'; cbn.
  - rewrite H0. lia.
  - lia.
  - rewrite H0. lia.
  - rewrite H0. lia.
  - match goal with |- context [released_status s ?b] =>
      destruct (released_status_cases s b _ eq_refl) as [->|[-> ?]] end;
      destruct s.(status); try done; lia.
  - match goal with |- context [released_status s ?b] =>
      destruct (released_status_cases s b _ eq_refl) as [->|[-> ?]] end;
      destruct s.(status); try done; lia.
  - destruct s.(status); try done; lia.
Qed.

Lemma delivery_measure_nonneg s : delivery_wf s -> 0 <= delivery_measure s.
Proof. intros [? _ _ _ _]. unfold delivery_measure. destruct s.(status); lia. Qed.

Lemma progress_events_cons e es :
  progress_events (e :: es) = progress_events [e] + progress_events es.
Proof. destruct e; cbn; lia. Qed.

Lemma lease_tokens_cons e es : lease_tokens (e :: es) = lease_tokens [e] ++ lease_tokens es.
Proof. by destruct e. Qed.

Lemma run_wf s es s' : delivery_run s es s' -> delivery_wf s -> delivery_wf s'.
Proof. induction 1; eauto using transition_wf, settle_wf. Qed.

Lemma run_counts s es s' :
  delivery_run s es s' ->
  s'.(maxAttempts) = s.(maxAttempts) /\
  s'.(attemptCount) = s.(attemptCount) + len (lease_tokens es) /\
  lease_tokens es = map string_of_int (seqZ (s.(attemptCount) + 1) (len (lease_tokens es))).
Proof.
  induction 1 as [s|s e s1 es s2 R _ (IHm & IHa & IHt)|s es s2 _ IH].
  - cbn. rewrite len_nil. split_and!; [done|lia|done].
  - apply transition_counts in R as (Em & Ea & Et).
    rewrite lease_tokens_cons, len_app.
    split_and!; [congruence|lia|].
    rewrite seqZ_app by auto using len_nonneg. rewrite map_app, <-Et.
    f_equal. rewrite Ea in IHt. rewrite IHt at 1. do 2 f_equal. lia.
  - exact IH.
Qed.

Lemma run_measure s es s' :
  delivery_run s es s' -> delivery_wf s ->
  delivery_measure s' + progress_events es <= delivery_measure s.
Proof.
  induction 1 as [s|s e s1 es s2 R _ IH|s es s2 _ IH]; intros W.
  - cbn. lia.
  - rewrite progress_events_cons.
    pose proof (transition_measure _ _ _ W R).
    pose proof (IH (transition_wf _ _ _ R W)). lia.
  - apply (IH (settle_wf _ W)).
Qed.

Lemma terminal_no_transition s e :
  delivery_terminal s.(status) = true ->
  transitionDeliveryState s e = Err (InvalidDeliveryTransition s.(status) (event_type e)).
Proof. unfold transitionDeliveryState. by destruct s.(status), e. Qed.
End effects.

Lemma mission_run_completed s es :
  mission_run s es M_completed -> s <> M_completed ->
  exists es', es = es' ++ [verification_passed] /\ mission_run s es' M_verifying.
Proof.
  remember M_completed as t eqn:Et. induction 1 as [s|s e s1 es s2 R Hr IH]; [done|].
  intros Hs. destruct (decide (s1 = M_completed)) as [E|E].
  - subst s1. inversion Hr as [|? e1 ? ? ? R1]; subst; [|by destruct e1].
    destruct s, e; try done. exists []. split; [done|constructor].
  - subst. destruct (IH eq_refl E) as (es' & -> & Hr'). exists (e :: es').
    split; [done|by econstructor].
Qed.

Lemma mission_run_verifying s es :
  mission_run s es M_verifying -> s <> M_verifying -> participants_ready ∈ es.
Proof.
  remember M_verifying as t eqn:Et. induction 1 as [s|s e s1 es s2 R Hr IH]; [done|].
  intros Hs. subst. destruct (decide (s1 = M_verifying)) as [->|E].
  - destruct s, e; try done; constructor.
  - constructor. by apply IH.
Qed.

Lemma mission_terminal_no_transition s e :
  mission_terminal_status s = true -> is_ok (transitionMissionStatus s e) = false.
Proof. by destruct s, e. Qed.

(** ** Properties *)

(** In every state a delivery reaches from storage, the attempt count is
    within its limit, the last fencing token is the attempt count in decimal,
    the lease id, token and deadline are all present exactly while the delivery
    is leased or executing (and the token is the latest one), a stored delivery
    still has an attempt left, and an acknowledged one is logically settled. *)
Theorem delivery_reachable_wf `{Zod} max es s :
  0 < max -> delivery_run (initial_delivery max) es s -> delivery_wf s.
Proof. intros Hm R. eapply run_wf; [exact R|]. by apply initial_delivery_wf. Qed.

(** C31: once a delivery has been leased again, no event that presents an older
    attempt's fencing token succeeds, whatever lease id and time it carries and
    whatever happened in between. *)
Theorem stale_fencing_token_refused `{Zod} s es s' e c :
  delivery_wf s -> delivery_run s es s' -> s.(attemptCount) < s'.(attemptCount) ->
  event_claim e = Some c -> c.(fencingToken) = s.(lastFencingToken) ->
  is_ok (transitionDeliveryState s' e) = false.
Proof.
  intros W R Hlt Hc Ht. destruct (transitionDeliveryState s' e) as [s2|] eqn:E; [|done].
  pose proof (run_wf _ _ _ R W) as [_ Wt Wl _ _]. destruct W as [_ Wt0 _ _ _].
  rewrite Wt0 in Ht. exfalso.
  destruct (decide (event_type e = DE_lease)) as [El|El].
  - destruct e; try done. apply transition_effect in E as (_ & _ & _ & Et & _).
    cbn in Hc. simplify_eq. rewrite Et in Ht. apply string_of_int_inj in Ht. lia.
  - apply (lease_owned_inv _ _ _ _ E Hc) in El as (En & _ & Ea & _).
    unfold lease_fields in Wl. rewrite En in Wl. destruct Wl as (_ & Wl & _).
    rewrite Wl in Ea. simplify_eq. rewrite Ht, Wt in Ea.
    apply string_of_int_inj in Ea. lia.
Qed.

(** Over the whole life of a delivery the fencing tokens handed out are
    exactly 1, 2, 3, ... in that order, one for each lease, and at most
    [maxAttempts] of them. *)
Theorem fencing_tokens_consecutive `{Zod} max es s :
  0 < max -> delivery_run (initial_delivery max) es s ->
  lease_tokens es = map string_of_int (seqZ 1 s.(attemptCount)) /\
  len (lease_tokens es) <= max.
Proof.
  intros Hm R. pose proof (run_wf _ _ _ R (initial_delivery_wf _ Hm)) as [Wa _ _ _ _].
  apply run_counts in R as (Em & Ea & Et). cbn in Em, Ea, Et.
  rewrite Em in Wa. rewrite Ea in *. split; [|lia].
  rewrite Et at 1. do 2 f_equal.
Qed.

(** The deadline splits time: an event of the lease's holder (renew, start,
    acknowledge, release) succeeds only strictly before the deadline, and at
    such an instant nobody can expire that lease. *)
Theorem lease_deadline_exclusive `{Zod} s e c s' c' :
  transitionDeliveryState s e = Ok s' -> event_claim e = Some c ->
  event_type e <> DE_lease -> event_type e <> DE_lease_expired -> c'.(now) = c.(now) ->
  num_lt (Date_parse c.(now)) (Date_parse_opt s.(leaseExpiresAt)) = true /\
  is_ok (transitionDeliveryState s (LeaseExpired c')) = false.
Proof.
  intros R Hc Hl Hx Hn. apply (lease_owned_inv _ _ _ _ R Hc) in Hl as (_ & _ & _ & Hb).
  rewrite bool_decide_eq_false_2 in Hb by done. split.
  - by apply isTimestampBefore_lt in Hb as (_ & _ & ?).
  - destruct (transitionDeliveryState s (LeaseExpired c')) eqn:E; [|done].
    assert (Hl' : event_type (LeaseExpired c') <> DE_lease) by done.
    apply (lease_owned_inv _ _ c' _ E eq_refl) in Hl' as (_ & _ & _ & Hb').
    rewrite Hn, Hb in Hb'. discriminate.
Qed.

(** C32: a delivery's life is bounded: whatever the order of events, at most
    [3 * maxAttempts + 1] of them other than lease renewals ever succeed, and
    once the status is acknowledged, cancelled or dead-lettered none does. *)
Theorem delivery_runs_bounded `{Zod} max es s e :
  0 < max -> delivery_run (initial_delivery max) es s ->
  progress_events es <= 3 * max + 1 /\
  (delivery_terminal s.(status) = true -> is_ok (transitionDeliveryState s e) = false).
Proof.
  intros Hm R. pose proof (initial_delivery_wf _ Hm) as W.
  pose proof (run_measure _ _ _ R W) as Hd.
  pose proof (delivery_measure_nonneg _ (run_wf _ _ _ R W)).
  unfold delivery_measure at 2 in Hd. cbn in Hd. split; [lia|].
  intros T. by rewrite (terminal_no_transition _ _ T).
Qed.

(** A Mission completes only by acceptance, readiness and verification: a
    run of the status machine from [awaiting_acceptance] to [completed] starts
    with [participants_accepted], contains [participants_ready] and ends with
    [verification_passed] in [verifying]; and no event leaves a terminal
    status. *)
Theorem mission_completion_path es e :
  mission_run M_awaiting_acceptance es M_completed ->
  (exists es', es = participants_accepted :: es' ++ [verification_passed] /\
     participants_ready ∈ es' /\
     mission_run M_active es' M_verifying) /\
  is_ok (transitionMissionStatus M_completed e) = false.
Proof.
  intros R. split; [|by apply mission_terminal_no_transition].
  destruct (mission_run_completed _ _ R) as (es1 & -> & R1); [done|].
  inversion R1 as [|? e1 s1 es2 ? T R2]; subst.
  destruct e1; try discriminate; injection T as <-.
  - exists es2. split_and!; [done| |done]. by apply mission_run_verifying in R2.
  - by inversion R2 as [|? e2 ? ? ? T2]; subst; destruct e2.
  - by inversion R2 as [|? e2 ? ? ? T2]; subst; destruct e2.
  - by inversion R2 as [|? e2 ? ? ? T2]; subst; destruct e2.
Qed.

(** ** Witnesses *)
Ltac run_by_compute :=
  repeat first [ apply run_nil | eapply run_event; [vm_compute; reflexivity|] ].

Lemma sample_run : @delivery_run example_zod (initial_delivery 3) sample_events sample_releases.
Proof. unfold sample_events, sample_releases. run_by_compute. Qed.

Lemma delivery_reachable_wf_witness : @delivery_wf example_zod sample_releases.
Proof.
  apply (@delivery_reachable_wf example_zod 3 sample_events); [lia|exact sample_run].
Defined.

Lemma stale_fencing_token_refused_witness :
  is_ok (@transitionDeliveryState example_zod sample_releases
    (Release (sample_claim "1" "2026-01-01T00:02:10.000Z") "transient")) = false.
Proof.
  apply (@stale_fencing_token_refused example_zod sample_leased (drop 1 sample_events) _ _
           (sample_claim "1" "2026-01-01T00:02:10.000Z")); try reflexivity.
  - apply (@run_wf example_zod (initial_delivery 3) (take 1 sample_events));
      [|by apply initial_delivery_wf].
    unfold sample_events, sample_leased, take. run_by_compute.
  - unfold sample_events, sample_releases, drop. run_by_compute.
Defined.

Lemma fencing_tokens_consecutive_witness :
  lease_tokens sample_events = ["1"; "2"] /\ len (lease_tokens sample_events) <= 3.
Proof.
  apply (@fencing_tokens_consecutive example_zod 3 sample_events sample_releases);
    [lia|exact sample_run].
Defined.

Lemma lease_deadline_exclusive_witness :
  num_lt (Date_parse "2026-01-01T00:00:59.999Z") (Date_parse "2026-01-01T00:01:00.000Z") = true /\
  is_ok (@transitionDeliveryState example_zod sample_leased
    (LeaseExpired (sample_claim "1" "2026-01-01T00:00:59.999Z"))) = false.
Proof.
  apply (@lease_deadline_exclusive example_zod sample_leased
    (StartExecution (sample_claim "1" "2026-01-01T00:00:59.999Z"))
    (sample_claim "1" "2026-01-01T00:00:59.999Z") (sample_leased <| status := D_executing |>));
    [vm_compute; reflexivity|reflexivity|discriminate|discriminate|reflexivity].
Defined.

Lemma delivery_runs_bounded_witness : progress_events sample_events <= 10.
Proof.
  apply (@delivery_runs_bounded example_zod 3 sample_events sample_releases (Cancel "" ""));
    [lia|exact sample_run].
Defined.

Lemma mission_completion_path_witness :
  exists es', [participants_accepted; participants_ready; verification_passed] =
    participants_accepted :: es' ++ [verification_passed] /\
    participants_ready ∈ es' /\ mission_run M_active es' M_verifying.
Proof.
  apply (mission_completion_path
    [participants_accepted; participants_ready; verification_passed] cancel).
  repeat first [ apply mrun_nil | eapply mrun_event; [reflexivity|] ].
Defined.
