(* ===== verification/MissionEvents.v ===== *)
(** * Mission coordinator data: the schemas of [protocol/src/mission-coordinator.ts]

    The coordinator's events, its state, the participants' acceptance receipts,
    the results and pages that carry them, and the refinements
    ([validateMissionCoordinatorState] and the others) as lists of issues.  The
    reducer itself is in [MissionCoordinator]. *)

From S2P Require Import Prelude JsLib Schemas.

(** [sameStringSet]: same length, no duplicate on the left, left within right. *)
Definition sameStringSet (left right : list string) : bool :=
  (len left =? len right) && unique_values left && every (includes right) left.

(** ** Configuration *)
Definition commandIdSchema (s : string) : bool :=
  bounded 1 64 s && head_tail is_alnum (fun c => is_alnum c || one_of "._-" c) s.

(** A [Record<string, string[]>]: an object used as a map. *)
Abbreviation Commands := (gmap string (list string)).

Definition object_keys {A} (m : gmap string A) : list string := (map_to_list m).*1.

Definition requiredCommandsSchema (m : Commands) : bool :=
  every (fun '(_, commands) => every commandIdSchema commands && (1 <=? len commands) &&
                               (len commands <=? 16)) (map_to_list m).

Record MissionCoordinatorConfig := {
  cfg_mission_context : MissionContext;
  cfg_required_verification_commands : Commands
}.
#[export] Instance MissionCoordinatorConfig_eq_dec : EqDecision MissionCoordinatorConfig.
Proof. solve_decision. Defined.

Definition participant_ids (manifest : MissionManifest) : list string :=
  map part_agent_id manifest.(man_participants).

Definition missionCoordinatorConfigIssues (config : MissionCoordinatorConfig) : issues :=
  let participantIds := participant_ids config.(cfg_mission_context).(ctx_manifest) in
  let configuredIds := object_keys config.(cfg_required_verification_commands) in
  issue_if (negb (sameStringSet participantIds configuredIds))
    "Verification plan must contain exactly the two Mission participants" ++
  concat (map (fun participantId =>
    let commands := default [] (config.(cfg_required_verification_commands) !! participantId) in
    issue_if (negb (unique_values commands))
      "Required verification command IDs must be unique per participant") configuredIds).

Definition missionCoordinatorConfigSchema `{Zod} (config : MissionCoordinatorConfig) : bool :=
  missionContextSchema config.(cfg_mission_context) &&
  requiredCommandsSchema config.(cfg_required_verification_commands) &&
  no_issues (missionCoordinatorConfigIssues config).

(** ** Events *)
Record ParticipantsAcceptedEvent := {
  pa_participant_agent_ids : list string;
  pa_contract : ArtifactRef
}.
Record TurnCompletedEvent := {
  tc_participant_agent_id : string;
  tc_delivery_id : string;
  tc_contract_version : Z;
  tc_disposition : TurnDisposition;
  tc_message : option Message;
  tc_revision : option ContractRevision
}.
Record ContractAcknowledgedEvent := {
  ca_participant_agent_id : string;
  ca_delivery_id : string;
  ca_revision_id : string;
  ca_contract_version : Z;
  ca_artifact : ArtifactRef
}.
Record VerificationRecordedEvent := {
  vr_participant_agent_id : string;
  vr_delivery_id : string;
  vr_contract_version : Z;
  vr_verification_round : Z;
  vr_evidence : VerificationEvidence
}.
Inductive TerminalStatus := TS_expired | TS_failed.
Inductive TerminalReason := TR_deadline_exceeded | TR_delivery_dead_lettered.
Record MissionTerminalEvent := {
  mt_terminal_status : TerminalStatus;
  mt_reason : TerminalReason;
  mt_triggering_delivery_id : option string
}.

(** The part of an event its [type] tag selects. *)
Inductive EventBody :=
| ParticipantsAccepted (e : ParticipantsAcceptedEvent)
| TurnCompleted (e : TurnCompletedEvent)
| ContractAcknowledged (e : ContractAcknowledgedEvent)
| VerificationRecorded (e : VerificationRecordedEvent)
| MissionTerminal (e : MissionTerminalEvent).

Record MissionCoordinatorEvent := { envelope : MissionEventEnvelope; body : EventBody }.

(** An event before the Relay adds the fields it owns. *)
Record MissionCoordinatorAppendInput := { ai_idempotency_key : string; ai_body : EventBody }.

#[export] Instance ParticipantsAcceptedEvent_eq_dec : EqDecision ParticipantsAcceptedEvent.
Proof. solve_decision. Defined.
#[export] Instance TurnCompletedEvent_eq_dec : EqDecision TurnCompletedEvent.
Proof. solve_decision. Defined.
#[export] Instance ContractAcknowledgedEvent_eq_dec : EqDecision ContractAcknowledgedEvent.
Proof. solve_decision. Defined.
#[export] Instance VerificationRecordedEvent_eq_dec : EqDecision VerificationRecordedEvent.
Proof. solve_decision. Defined.
#[export] Instance TerminalStatus_eq_dec : EqDecision TerminalStatus.
Proof. solve_decision. Defined.
#[export] Instance TerminalReason_eq_dec : EqDecision TerminalReason.
Proof. solve_decision. Defined.
#[export] Instance MissionTerminalEvent_eq_dec : EqDecision MissionTerminalEvent.
Proof. solve_decision. Defined.
#[export] Instance EventBody_eq_dec : EqDecision EventBody.
Proof. solve_decision. Defined.
#[export] Instance MissionCoordinatorEvent_eq_dec : EqDecision MissionCoordinatorEvent.
Proof. solve_decision. Defined.

Definition event_id (e : MissionCoordinatorEvent) : string := e.(envelope).(env_event_id).
Definition event_key (e : MissionCoordinatorEvent) : string := e.(envelope).(env_idempotency_key).
Definition event_mission (e : MissionCoordinatorEvent) : string := e.(envelope).(env_mission_id).
Definition event_sequence (e : MissionCoordinatorEvent) : Z := e.(envelope).(env_sequence_no).

(** The field checks of the discriminated union. *)
Definition rawEventBodySchema `{Zod} (b : EventBody) : bool :=
  match b with
  | ParticipantsAccepted e =>
      every uuidSchema e.(pa_participant_agent_ids) && (len e.(pa_participant_agent_ids) =? 2) &&
      artifactRefSchema e.(pa_contract)
  | TurnCompleted e =>
      uuidSchema e.(tc_participant_agent_id) && uuidSchema e.(tc_delivery_id) &&
      contractVersionSchema e.(tc_contract_version) && turnDispositionSchema e.(tc_disposition) &&
      nullable messageSchema e.(tc_message) && nullable contractRevisionSchema e.(tc_revision)
  | ContractAcknowledged e =>
      uuidSchema e.(ca_participant_agent_id) && uuidSchema e.(ca_delivery_id) &&
      uuidSchema e.(ca_revision_id) && contractVersionSchema e.(ca_contract_version) &&
      artifactRefSchema e.(ca_artifact)
  | VerificationRecorded e =>
      uuidSchema e.(vr_participant_agent_id) && uuidSchema e.(vr_delivery_id) &&
      contractVersionSchema e.(vr_contract_version) && (0 <? e.(vr_verification_round)) &&
      (e.(vr_verification_round) <=? MAX_SAFE_INTEGER) && verificationEvidenceSchema e.(vr_evidence)
  | MissionTerminal e => nullable uuidSchema e.(mt_triggering_delivery_id)
  end.

Definition is_reply (d : TurnDisposition) : bool := match d with Reply _ _ _ => true | _ => false end.
Definition is_propose (d : TurnDisposition) : bool :=
  match d with ProposeContract _ => true | _ => false end.
Definition is_ready (d : TurnDisposition) : bool := match d with Ready _ => true | _ => false end.

Definition validateTurnResultCompanions (event : TurnCompletedEvent) : issues :=
  let kind := event.(tc_disposition) in
  issue_if (negb (Bool.eqb (is_reply kind) (non_null event.(tc_message))))
    "Reply dispositions require exactly one Message companion" ++
  issue_if (negb (Bool.eqb (is_propose kind) (non_null event.(tc_revision))))
    "Contract proposals require exactly one revision companion" ++
  issue_if (negb (is_reply kind) && negb (is_propose kind) && negb (is_ready kind))
    "This coordinator slice supports reply, propose_contract, and ready turns".

Definition validateCoordinatorEventPayload (b : EventBody) : issues :=
  match b with
  | ParticipantsAccepted e =>
      issue_if (negb (unique_values e.(pa_participant_agent_ids)))
        "Accepted Mission participants must be unique"
  | MissionTerminal e =>
      let expiresMission :=
        (e.(mt_terminal_status) === TS_expired) && (e.(mt_reason) === TR_deadline_exceeded) &&
        is_null e.(mt_triggering_delivery_id) in
      let failsMission :=
        (e.(mt_terminal_status) === TS_failed) && (e.(mt_reason) === TR_delivery_dead_lettered) &&
        non_null e.(mt_triggering_delivery_id) in
      issue_if (negb expiresMission && negb failsMission)
        "Mission terminal status must match its authoritative cause"
  | TurnCompleted e => validateTurnResultCompanions e
  | _ => []
  end.

Definition missionCoordinatorEventSchema `{Zod} (e : MissionCoordinatorEvent) : bool :=
  missionEventEnvelopeSchema e.(envelope) && rawEventBodySchema e.(body) &&
  no_issues (validateCoordinatorEventPayload e.(body)).

Definition is_terminal_body (b : EventBody) : bool :=
  match b with MissionTerminal _ => true | _ => false end.

Definition missionCoordinatorAppendInputSchema `{Zod} (i : MissionCoordinatorAppendInput) : bool :=
  identifierSchema i.(ai_idempotency_key) && rawEventBodySchema i.(ai_body) &&
  negb (is_terminal_body i.(ai_body)) && no_issues (validateCoordinatorEventPayload i.(ai_body)).

(** ** The result a Node publishes *)
Inductive NodeDeliveryResultPayload :=
| NR_turn_completed (disposition : TurnDisposition)
| NR_contract_acknowledged
| NR_verification_recorded (evidence : list VerificationEvidence).
#[export] Instance NodeDeliveryResultPayload_eq_dec : EqDecision NodeDeliveryResultPayload.
Proof. solve_decision. Defined.

Definition nodeCoordinatorTurnDispositionSchema `{Zod} (d : TurnDisposition) : bool :=
  turnDispositionSchema d && (is_reply d || is_propose d || is_ready d).

Definition nodeDeliveryResultIssues (r : NodeDeliveryResultPayload) : issues :=
  match r with
  | NR_verification_recorded evidence =>
      issue_if (negb (unique_values (map vev_command_id evidence)))
        "Verification completion must contain one result per command" ++
      issue_if (negb (unique_values (map vev_verification_id evidence)))
        "Verification evidence IDs must be unique"
  | _ => []
  end.

Definition nodeDeliveryResultPayloadSchema `{Zod} (r : NodeDeliveryResultPayload) : bool :=
  match r with
  | NR_turn_completed disposition => nodeCoordinatorTurnDispositionSchema disposition
  | NR_contract_acknowledged => true
  | NR_verification_recorded evidence =>
      every verificationEvidenceSchema evidence && (1 <=? len evidence) && (len evidence <=? 16)
  end && no_issues (nodeDeliveryResultIssues r).

(** ** The coordinator state *)
Record MissionVerificationRecord := {
  vrec_event_id : string;
  vrec_participant_agent_id : string;
  vrec_contract_version : Z;
  vrec_verification_round : Z;
  vrec_evidence : VerificationEvidence
}.
#[export] Instance MissionVerificationRecord_eq_dec : EqDecision MissionVerificationRecord.
Proof. solve_decision. Defined.

Definition missionVerificationRecordSchema `{Zod} (r : MissionVerificationRecord) : bool :=
  uuidSchema r.(vrec_event_id) && uuidSchema r.(vrec_participant_agent_id) &&
  contractVersionSchema r.(vrec_contract_version) && (0 <? r.(vrec_verification_round)) &&
  (r.(vrec_verification_round) <=? MAX_INT32) && verificationEvidenceSchema r.(vrec_evidence).

Record MissionCoordinatorState := {
  mission_context : MissionContext;
  required_verification_commands : Commands;
  status : MissionStatus;
  sequence_no : Z;
  turn_count : Z;
  contract_version : Z;
  verification_round : Z;
  active_contract : ArtifactRef;
  pending_revision : option ContractRevision;
  accepted_revisions : list ContractRevision;
  current_participant_agent_id : option string;
  ready_agent_ids : list string;
  verification_records : list MissionVerificationRecord;
  messages : list Message;
  applied_events : list MissionCoordinatorEvent
}.
#[export] Instance MissionCoordinatorState_eq_dec : EqDecision MissionCoordinatorState.
Proof. solve_decision. Defined.
#[export] Instance MissionCoordinatorState_eta : Settable MissionCoordinatorState := fun s =>
  Build_MissionCoordinatorState s.(mission_context) s.(required_verification_commands) s.(status)
    s.(sequence_no) s.(turn_count) s.(contract_version) s.(verification_round) s.(active_contract)
    s.(pending_revision) s.(accepted_revisions) s.(current_participant_agent_id)
    s.(ready_agent_ids) s.(verification_records) s.(messages) s.(applied_events).

Definition state_manifest (s : MissionCoordinatorState) : MissionManifest :=
  s.(mission_context).(ctx_manifest).

(** [for (const [index, x] of array.entries()) if (bad(index, x)) addIssue] *)
Fixpoint entries_issues {A} (bad : Z -> A -> bool) (m : string) (index : Z) (l : list A) : issues :=
  match l with
  | [] => []
  | x :: l => issue_if (bad index x) m ++ entries_issues bad m (index + 1) l
  end.

Definition validateMissionCoordinatorState (state : MissionCoordinatorState) : issues :=
  let manifest := state_manifest state in
  let participantIds := participant_ids manifest in
  issue_if (negb (sameStringSet participantIds (object_keys state.(required_verification_commands))))
    "Coordinator state must retain verification commands for both participants" ++
  issue_if ((state.(active_contract).(art_version) !== state.(contract_version)) ||
            negb (includes manifest.(man_allowed_artifact_types) state.(active_contract).(art_type)))
    "Active contract must match the coordinator contract version and artifact policy" ++
  issue_if (match state.(current_participant_agent_id) with
            | None => false
            | Some p => negb (includes participantIds p)
            end)
    "Current participant must belong to the Mission" ++
  issue_if (negb (unique_values state.(ready_agent_ids)) ||
            some (fun p => negb (includes participantIds p)) state.(ready_agent_ids))
    "Ready participants must be unique Mission participants" ++
  issue_if (len state.(applied_events) !== state.(sequence_no))
    "Coordinator sequence must equal its applied event count" ++
  entries_issues (fun index event => (event_mission event !== manifest.(man_mission_id)) ||
                                     (event_sequence event !== index + 1))
    "Applied events must be contiguous and belong to the Mission" 0 state.(applied_events) ++
  entries_issues (fun _ message => message.(msg_mission_id) !== manifest.(man_mission_id))
    "Coordinator messages must belong to the Mission" 0 state.(messages) ++
  entries_issues (fun _ revision => revision.(rev_mission_id) !== manifest.(man_mission_id))
    "Contract revisions must belong to the Mission" 0
    (state.(accepted_revisions) ++
     match state.(pending_revision) with None => [] | Some r => [r] end).

Definition rawMissionCoordinatorStateSchema `{Zod} (s : MissionCoordinatorState) : bool :=
  missionContextSchema s.(mission_context) &&
  requiredCommandsSchema s.(required_verification_commands) &&
  (0 <=? s.(sequence_no)) && (s.(sequence_no) <=? MAX_INT32) &&
  (0 <=? s.(turn_count)) && (s.(turn_count) <=? 200) &&
  contractVersionSchema s.(contract_version) &&
  (0 <=? s.(verification_round)) && (s.(verification_round) <=? MAX_INT32) &&
  artifactRefSchema s.(active_contract) && nullable contractRevisionSchema s.(pending_revision) &&
  every contractRevisionSchema s.(accepted_revisions) && (len s.(accepted_revisions) <=? 200) &&
  nullable uuidSchema s.(current_participant_agent_id) &&
  every uuidSchema s.(ready_agent_ids) && (len s.(ready_agent_ids) <=? 2) &&
  every missionVerificationRecordSchema s.(verification_records) &&
  (len s.(verification_records) <=? 3200) &&
  every messageSchema s.(messages) && (len s.(messages) <=? 200) &&
  every missionCoordinatorEventSchema s.(applied_events) && (len s.(applied_events) <=? 4096).

Definition missionCoordinatorStateSchema `{Zod} (s : MissionCoordinatorState) : bool :=
  rawMissionCoordinatorStateSchema s && no_issues (validateMissionCoordinatorState s).

(** ** Acceptance and assignment *)
Record LocalPolicyGrant := { grant_profile_name : string; grant_sha256 : string }.
#[export] Instance LocalPolicyGrant_eq_dec : EqDecision LocalPolicyGrant.
Proof. solve_decision. Defined.
Record MissionParticipantAcceptanceInput := {
  acc_idempotency_key : string; acc_contract : ArtifactRef; acc_local_policy_grant : LocalPolicyGrant }.
#[export] Instance MissionParticipantAcceptanceInput_eq_dec :
  EqDecision MissionParticipantAcceptanceInput.
Proof. solve_decision. Defined.
Record MissionParticipantAcceptanceReceipt := {
  rcp_mission_id : string;
  rcp_participant_agent_id : string;
  rcp_idempotency_key : string;
  rcp_contract : ArtifactRef;
  rcp_local_policy_grant : LocalPolicyGrant;
  rcp_accepted_at : string
}.
Record MissionParticipantAcceptanceResult := {
  res_receipt : MissionParticipantAcceptanceReceipt; res_replayed : bool }.

Definition localPolicyGrantSchema (g : LocalPolicyGrant) : bool :=
  policyProfileNameSchema g.(grant_profile_name) && sha256Schema g.(grant_sha256).
Definition missionParticipantAcceptanceInputSchema `{Zod}
    (i : MissionParticipantAcceptanceInput) : bool :=
  identifierSchema i.(acc_idempotency_key) && artifactRefSchema i.(acc_contract) &&
  localPolicyGrantSchema i.(acc_local_policy_grant).
Definition missionParticipantAcceptanceReceiptSchema `{Zod}
    (r : MissionParticipantAcceptanceReceipt) : bool :=
  uuidSchema r.(rcp_mission_id) && uuidSchema r.(rcp_participant_agent_id) &&
  identifierSchema r.(rcp_idempotency_key) && artifactRefSchema r.(rcp_contract) &&
  localPolicyGrantSchema r.(rcp_local_policy_grant) && isoTimestampSchema r.(rcp_accepted_at).
Definition missionParticipantAcceptanceResultSchema `{Zod}
    (r : MissionParticipantAcceptanceResult) : bool :=
  missionParticipantAcceptanceReceiptSchema r.(res_receipt).

Record MissionParticipantBinding := {
  bind_agent_id : string; bind_node_id : string; bind_workspace_binding_id : string }.
Definition missionParticipantBindingSchema `{Zod} (b : MissionParticipantBinding) : bool :=
  uuidSchema b.(bind_agent_id) && uuidSchema b.(bind_node_id) &&
  uuidSchema b.(bind_workspace_binding_id).

#[export] Instance MissionParticipantBinding_eq_dec : EqDecision MissionParticipantBinding.
Proof. solve_decision. Defined.

Record MissionCreationResult := {
  mcr_mission_id : string;
  mcr_state : MissionCoordinatorState;
  mcr_participant_bindings : list MissionParticipantBinding;
  mcr_replayed : bool
}.

Definition validateMissionCreationResult (result : MissionCreationResult) : issues :=
  let manifest := state_manifest result.(mcr_state) in
  let bindings := result.(mcr_participant_bindings) in
  issue_if (result.(mcr_mission_id) !== manifest.(man_mission_id))
    "Creation result Mission ID must match coordinator state" ++
  issue_if (negb (sameStringSet (participant_ids manifest) (map bind_agent_id bindings)))
    "Creation result must bind exactly the Mission participants" ++
  issue_if (negb (unique_values (map bind_node_id bindings)) ||
            negb (unique_values (map bind_workspace_binding_id bindings)))
    "Mission participant Node and workspace bindings must be unique".

Definition missionCreationResultSchema `{Zod} (r : MissionCreationResult) : bool :=
  uuidSchema r.(mcr_mission_id) && missionCoordinatorStateSchema r.(mcr_state) &&
  every missionParticipantBindingSchema r.(mcr_participant_bindings) &&
  (len r.(mcr_participant_bindings) =? 2) && no_issues (validateMissionCreationResult r).

Inductive MissionParticipantAcceptanceStatus := AS_pending | AS_accepted.
#[export] Instance MissionParticipantAcceptanceStatus_eq_dec :
  EqDecision MissionParticipantAcceptanceStatus.
Proof. solve_decision. Defined.

Record NodeMissionAssignment := {
  nma_mission_id : string;
  nma_coordinator_config : MissionCoordinatorConfig;
  nma_coordinator_state : MissionCoordinatorState;
  nma_participant_agent_id : string;
  nma_workspace_binding_id : string;
  nma_acceptance_status : MissionParticipantAcceptanceStatus;
  nma_acceptance_receipt : option MissionParticipantAcceptanceReceipt
}.

Definition validateNodeMissionAssignment (assignment : NodeMissionAssignment) : issues :=
  let config := assignment.(nma_coordinator_config) in
  let manifest := config.(cfg_mission_context).(ctx_manifest) in
  let state := assignment.(nma_coordinator_state) in
  issue_if ((assignment.(nma_mission_id) !== manifest.(man_mission_id)) ||
            (assignment.(nma_mission_id) !== (state_manifest state).(man_mission_id)))
    "Assignment Mission ID must match its config and current state" ++
  issue_if ((config.(cfg_mission_context) !== state.(mission_context)) ||
            (config.(cfg_required_verification_commands) !==
             state.(required_verification_commands)))
    "Coordinator state must retain the immutable Mission config" ++
  match array_find (fun p => p.(part_agent_id) === assignment.(nma_participant_agent_id))
          manifest.(man_participants) with
  | None => ["Assignment participant must belong to the Mission"]
  | Some participant =>
      let accepted := assignment.(nma_acceptance_status) === AS_accepted in
      issue_if (negb (Bool.eqb accepted (non_null assignment.(nma_acceptance_receipt))))
        "Participant acceptance status and receipt must agree" ++
      issue_if ((assignment.(nma_acceptance_status) === AS_pending) &&
                (state.(status) !== M_awaiting_acceptance))
        "Pending participant acceptance requires an awaiting Mission" ++
      issue_if (match assignment.(nma_acceptance_receipt) with
                | None => false
                | Some receipt =>
                    (receipt.(rcp_mission_id) !== assignment.(nma_mission_id)) ||
                    (receipt.(rcp_participant_agent_id) !==
                     assignment.(nma_participant_agent_id)) ||
                    (receipt.(rcp_contract) !== manifest.(man_shared_contract)) ||
                    (receipt.(rcp_local_policy_grant).(grant_profile_name) !==
                     participant.(part_requested_local_policy_profile))
                end)
        "Acceptance receipt must bind the exact Mission participant contract and policy"
  end.

Definition nodeMissionAssignmentSchema `{Zod} (a : NodeMissionAssignment) : bool :=
  uuidSchema a.(nma_mission_id) && missionCoordinatorConfigSchema a.(nma_coordinator_config) &&
  missionCoordinatorStateSchema a.(nma_coordinator_state) &&
  uuidSchema a.(nma_participant_agent_id) && uuidSchema a.(nma_workspace_binding_id) &&
  nullable missionParticipantAcceptanceReceiptSchema a.(nma_acceptance_receipt) &&
  no_issues (validateNodeMissionAssignment a).

Record NodeMissionAssignmentList := {
  nml_missions : list NodeMissionAssignment; nml_next_cursor : option string }.

Definition nodeMissionAssignmentListIssues (page : NodeMissionAssignmentList) : issues :=
  let finalMissionId := nma_mission_id <$> at_last page.(nml_missions) in
  if non_null page.(nml_next_cursor) && is_null finalMissionId
  then ["An empty Mission page cannot have a next cursor"]
  else issue_if (non_null page.(nml_next_cursor) && (page.(nml_next_cursor) !== finalMissionId))
         "Next cursor must match the final returned Mission".

Definition nodeMissionAssignmentListSchema `{Zod} (page : NodeMissionAssignmentList) : bool :=
  every nodeMissionAssignmentSchema page.(nml_missions) && (len page.(nml_missions) <=? 200) &&
  nullable uuidSchema page.(nml_next_cursor) && no_issues (nodeMissionAssignmentListIssues page).

(** ** Delivery items and pages *)
Record MissionDeliveryItem := {
  item_delivery : Delivery;
  item_event : MissionCoordinatorEvent;
  item_actor_agent_id : string;
  item_source_delivery_id : option string;
  item_causal_parent_event_id : option string
}.

(** The participant and source delivery of the three participant events. *)
Definition body_participant (b : EventBody) : option (string * string) :=
  match b with
  | TurnCompleted e => Some (e.(tc_participant_agent_id), e.(tc_delivery_id))
  | ContractAcknowledged e => Some (e.(ca_participant_agent_id), e.(ca_delivery_id))
  | VerificationRecorded e => Some (e.(vr_participant_agent_id), e.(vr_delivery_id))
  | _ => None
  end.

Definition validateMissionDeliveryItem (item : MissionDeliveryItem) : issues :=
  issue_if (item.(item_delivery).(d_mission_event_id) !== event_id item.(item_event))
    "Delivery must reference the returned Mission event" ++
  issue_if (item.(item_delivery).(d_mission_id) !== event_mission item.(item_event))
    "Delivery and event must belong to the same Mission" ++
  match item.(item_event).(body) with
  | ParticipantsAccepted _ =>
      issue_if (non_null item.(item_source_delivery_id))
        "Derived participant acceptance has no source delivery"
  | MissionTerminal _ => ["Terminal Mission events do not derive Node deliveries"]
  | b =>
      issue_if (Some item.(item_actor_agent_id) !== (fst <$> body_participant b))
        "Stored event actor must match the participant result" ++
      issue_if (item.(item_source_delivery_id) !== (snd <$> body_participant b))
        "Stored event must retain its source delivery"
  end.

Definition deliveryItemFields `{Zod} (item : MissionDeliveryItem) : bool :=
  missionCoordinatorEventSchema item.(item_event) && uuidSchema item.(item_actor_agent_id) &&
  nullable uuidSchema item.(item_source_delivery_id) &&
  nullable uuidSchema item.(item_causal_parent_event_id).

Definition missionDeliveryItemSchema `{Zod} (item : MissionDeliveryItem) : bool :=
  deliverySchema item.(item_delivery) && deliveryItemFields item &&
  no_issues (validateMissionDeliveryItem item).

Definition storedMissionDeliveryItemSchema `{Zod} (item : MissionDeliveryItem) : bool :=
  storedDeliverySchema item.(item_delivery) && deliveryItemFields item &&
  no_issues (validateMissionDeliveryItem item).

Definition compareDeliveryCursors (left right : string) : Z :=
  if slen left =? slen right
  then (if left === right then 0 else if string_gtb left right then 1 else -1)
  else (if slen right <? slen left then 1 else -1).

Record StoredMissionDeliveryCursorPage := {
  smp_items : list MissionDeliveryItem; smp_next_cursor : option string }.

Definition item_cursor (item : MissionDeliveryItem) : string := item.(item_delivery).(d_cursor).
Definition item_node (item : MissionDeliveryItem) : string := item.(item_delivery).(d_node_id).
Definition cursors_out_of_order (a b : MissionDeliveryItem) : bool :=
  0 <=? compareDeliveryCursors (item_cursor a) (item_cursor b).

Definition storedMissionDeliveryCursorPageIssues (page : StoredMissionDeliveryCursorPage) : issues :=
  let finalCursor := item_cursor <$> at_last page.(smp_items) in
  adjacent cursors_out_of_order "Delivery cursors must be strictly increasing" page.(smp_items) ++
  issue_if (several_values (map item_node page.(smp_items)))
    "A Mission delivery cursor page belongs to one Node" ++
  issue_if (non_null finalCursor && (page.(smp_next_cursor) !== finalCursor))
    "Next cursor must match the final returned delivery".

Definition storedMissionDeliveryCursorPageSchema `{Zod} (page : StoredMissionDeliveryCursorPage)
    : bool :=
  every storedMissionDeliveryItemSchema page.(smp_items) && (len page.(smp_items) <=? 200) &&
  nullable deliveryCursorSchema page.(smp_next_cursor) &&
  no_issues (storedMissionDeliveryCursorPageIssues page).

Record RecoverableMissionDeliveryPage := {
  rmp_items : list MissionDeliveryItem; rmp_as_of : string }.

Definition resumableLease (delivery : Delivery) : bool :=
  ((delivery.(d_status) === D_leased) || (delivery.(d_status) === D_executing)) &&
  non_null delivery.(d_lease) && is_null delivery.(d_logical_settlement).
Definition dueRetry (asOf : option Z) (delivery : Delivery) : bool :=
  (delivery.(d_status) === D_stored) && (0 <? delivery.(d_attempt_count)) &&
  is_null delivery.(d_logical_settlement) && num_le (Date_parse delivery.(d_available_at)) asOf.

Definition recoverableMissionDeliveryPageIssues (page : RecoverableMissionDeliveryPage) : issues :=
  let asOf := Date_parse page.(rmp_as_of) in
  adjacent cursors_out_of_order "Recoverable delivery cursors must be strictly increasing"
    page.(rmp_items) ++
  issue_if (several_values (map item_node page.(rmp_items)))
    "A recoverable delivery page belongs to one Node" ++
  entries_issues (fun _ item => negb (resumableLease item.(item_delivery)) &&
                                negb (dueRetry asOf item.(item_delivery)))
    "Recovery pages contain only resumable leases or due stored retries" 0 page.(rmp_items).

Definition recoverableMissionDeliveryPageSchema `{Zod} (page : RecoverableMissionDeliveryPage)
    : bool :=
  every missionDeliveryItemSchema page.(rmp_items) && (len page.(rmp_items) <=? 200) &&
  isoTimestampSchema page.(rmp_as_of) && no_issues (recoverableMissionDeliveryPageIssues page).
