(* ===== verification/MissionCoordinator.v ===== *)
(** * The Mission coordinator reducer: [protocol/src/mission-coordinator.ts]

    [createMissionCoordinatorState], [reduceMissionCoordinatorEvent] with every
    handler it dispatches to, and [replayMissionCoordinatorEvents], as
    executable functions into [result].  The state is a value: the source clones
    it before it changes it.  The theorems are in [MissionSteps] (the abstract
    relation the reducer implements), [MissionReach] (log and Messages),
    [MissionContract], [MissionSchedule] (phases, progress, bounds) and
    [MissionState] (the state schema). *)

From S2P Require Import Prelude JsLib Schemas.
From S2P Require StateMachines.
From S2P Require Import MissionEvents.

(** What the reducer throws: a schema rejection, its own error with its reason,
    an invalid status transition, or a JavaScript [TypeError]. *)
Inductive CoordinatorError :=
| ZodError
| InvalidMissionCoordinatorEvent (reason : string)
| InvalidTransition (e : StateMachines.TransitionError)
| TypeError.

Notation throws r := (InvalidMissionCoordinatorEvent r).

(** The errors of the status machine pass through unchanged. *)
Definition transitionMissionStatus (current : MissionStatus)
    (event : StateMachines.MissionTransitionEvent) : result CoordinatorError MissionStatus :=
  match StateMachines.transitionMissionStatus current event with
  | Ok next => Ok next
  | Err e => Err (InvalidTransition e)
  end.

(** ** Helpers *)
Definition isTerminal (status : MissionStatus) : bool :=
  (status === M_completed) || (status === M_cancelled) || (status === M_expired) ||
  (status === M_failed).

Definition missionParticipantIds (state : MissionCoordinatorState) : list string :=
  participant_ids (state_manifest state).

Definition otherParticipant (state : MissionCoordinatorState) (participantId : string)
    : result CoordinatorError string :=
  match array_find (fun candidate => candidate !== participantId) (missionParticipantIds state) with
  | None => Err (throws "participant")
  | Some other => throw (throws "participant") when other === "" in Ok other
  end.

Definition assertAllowedArtifacts (state : MissionCoordinatorState) (artifacts : list ArtifactRef)
    : result CoordinatorError unit :=
  let allowed := (state_manifest state).(man_allowed_artifact_types) in
  throw (throws "artifact_type")
    when some (fun artifact => negb (includes allowed artifact.(art_type))) artifacts in
  Ok tt.

Definition findReplay (state : MissionCoordinatorState) (event : MissionCoordinatorEvent)
    : result CoordinatorError (option MissionCoordinatorEvent) :=
  match array_filter (fun applied => (event_id applied === event_id event) ||
                                     (event_key applied === event_key event))
          state.(applied_events) with
  | [] => Ok None
  | [m] => Ok (Some m)
  | _ => Err (throws "event_identity_conflict")
  end.

Definition allParticipantCommandsRecorded (requiredCommands : list string)
    (records : list MissionVerificationRecord) : bool :=
  every (fun commandId =>
    some (fun record => record.(vrec_evidence).(vev_command_id) === commandId) records)
    requiredCommands.

(** [required_verification_commands[participantId]!] is present for both
    participants in every state the schema accepts; an absent entry, on which
    the source would throw, counts as not passed. *)
Definition allRequiredCommandsPassed (state : MissionCoordinatorState)
    (records : list MissionVerificationRecord) : bool :=
  every (fun participantId =>
    match state.(required_verification_commands) !! participantId with
    | None => false
    | Some commands =>
        every (fun commandId =>
          some (fun record =>
            (record.(vrec_participant_agent_id) === participantId) &&
            (record.(vrec_contract_version) === state.(contract_version)) &&
            (record.(vrec_verification_round) === state.(verification_round)) &&
            (record.(vrec_evidence).(vev_command_id) === commandId) &&
            (record.(vrec_evidence).(vev_outcome) === O_passed)) records) commands
    end) (missionParticipantIds state).

(** ** Creation *)

(** [Object.fromEntries]: a later entry replaces an earlier one. *)
Definition object_from_entries {A} (l : list (string * A)) : gmap string A :=
  foldl (fun m '(k, v) => <[k := v]> m) ∅ l.

Definition createMissionCoordinatorState `{Zod} (config : MissionCoordinatorConfig)
    : result CoordinatorError MissionCoordinatorState :=
  throw ZodError when negb (missionCoordinatorConfigSchema config) in
  let manifest := config.(cfg_mission_context).(ctx_manifest) in
  match mapM (fun id => (fun commands => (id, commands)) <$>
                config.(cfg_required_verification_commands) !! id)
          (participant_ids manifest) with
  | None => Err TypeError
  | Some entries =>
      Ok {| mission_context := config.(cfg_mission_context);
            required_verification_commands := object_from_entries entries;
            status := M_awaiting_acceptance;
            sequence_no := 0;
            turn_count := 0;
            contract_version := manifest.(man_shared_contract).(art_version);
            verification_round := 0;
            active_contract := manifest.(man_shared_contract);
            pending_revision := None;
            accepted_revisions := [];
            current_participant_agent_id := None;
            ready_agent_ids := [];
            verification_records := [];
            messages := [];
            applied_events := [] |}
  end.

(** ** Handlers *)
Definition applyMissionTerminal (state : MissionCoordinatorState) (event : MissionTerminalEvent)
    : result CoordinatorError MissionCoordinatorState :=
  throw (throws "terminal_state")
    when (state.(status) !== M_active) && (state.(status) !== M_verifying) in
  let* next := transitionMissionStatus state.(status)
                 (if event.(mt_terminal_status) === TS_expired
                  then StateMachines.expire else StateMachines.fail) in
  Ok (state <| status := next |> <| pending_revision := None |>
            <| current_participant_agent_id := None |> <| ready_agent_ids := [] |>
            <| verification_records := [] |>).

Definition applyParticipantsAccepted (state : MissionCoordinatorState)
    (event : ParticipantsAcceptedEvent) : result CoordinatorError MissionCoordinatorState :=
  throw (throws "acceptance_state")
    when (state.(status) !== M_awaiting_acceptance) || (len state.(applied_events) !== 0) in
  let manifest := state_manifest state in
  let participantIds := participant_ids manifest in
  throw (throws "acceptance_participants")
    when negb (sameStringSet event.(pa_participant_agent_ids) participantIds) in
  throw (throws "acceptance_contract")
    when event.(pa_contract) !== manifest.(man_shared_contract) in
  let* next := transitionMissionStatus state.(status) StateMachines.participants_accepted in
  Ok (state <| status := next |> <| current_participant_agent_id := head participantIds |>).

Definition applyReply (state : MissionCoordinatorState) (mission_id : string)
    (event : TurnCompletedEvent) : result CoordinatorError MissionCoordinatorState :=
  match event.(tc_disposition), event.(tc_message) with
  | Reply message_type text artifacts, Some message =>
      let expectedArtifacts := default [] artifacts in
      let expectedParent := msg_message_id <$> at_last state.(messages) in
      throw (throws "reply_message_mismatch")
        when (message.(msg_mission_id) !== mission_id) ||
             (message.(msg_author_agent_id) !== event.(tc_participant_agent_id)) ||
             (message.(msg_contract_version) !== state.(contract_version)) ||
             (message.(msg_type) !== message_type) ||
             (message.(msg_body) !== text) ||
             (message.(msg_artifacts) !== expectedArtifacts) ||
             (message.(msg_sequence_no) !== len state.(messages) + 1) ||
             (message.(msg_causal_parent_message_id) !== expectedParent) in
      throw (throws "message_identity_conflict")
        when some (fun existing =>
               (existing.(msg_message_id) === message.(msg_message_id)) ||
               (existing.(msg_idempotency_key) === message.(msg_idempotency_key)))
               state.(messages) in
      let* _ := assertAllowedArtifacts state message.(msg_artifacts) in
      let* other := otherParticipant state event.(tc_participant_agent_id) in
      Ok (state <| current_participant_agent_id := Some other |> <| ready_agent_ids := [] |>
                <| verification_records := [] |> <| messages := state.(messages) ++ [message] |>)
  | _, _ => Err (throws "reply_message_missing")
  end.

Definition applyContractProposal (state : MissionCoordinatorState) (mission_id : string)
    (event : TurnCompletedEvent) : result CoordinatorError MissionCoordinatorState :=
  match event.(tc_disposition), event.(tc_revision) with
  | ProposeContract artifact, Some revision =>
      throw (throws "revision_mismatch")
        when (revision.(rev_mission_id) !== mission_id) ||
             (revision.(rev_proposed_by_agent_id) !== event.(tc_participant_agent_id)) ||
             (revision.(rev_previous_version) !== state.(contract_version)) ||
             (revision.(rev_version) !== state.(contract_version) + 1) ||
             (len revision.(rev_acknowledged_by_agent_ids) !== 0) ||
             (revision.(rev_artifact) !== artifact) in
      throw (throws "revision_contract_identity")
        when (revision.(rev_artifact).(art_artifact_id) !==
              state.(active_contract).(art_artifact_id)) ||
             (revision.(rev_artifact).(art_type) !== state.(active_contract).(art_type)) in
      throw (throws "revision_identity_conflict")
        when some (fun existing =>
               (existing.(rev_revision_id) === revision.(rev_revision_id)) ||
               (existing.(rev_idempotency_key) === revision.(rev_idempotency_key)))
               state.(accepted_revisions) in
      let* _ := assertAllowedArtifacts state [revision.(rev_artifact)] in
      Ok (state <| pending_revision := Some revision |> <| current_participant_agent_id := None |>
                <| ready_agent_ids := [] |> <| verification_records := [] |>)
  | _, _ => Err (throws "revision_missing")
  end.

Definition applyReady (state : MissionCoordinatorState) (event : TurnCompletedEvent)
    : result CoordinatorError MissionCoordinatorState :=
  match event.(tc_disposition) with
  | Ready evidence =>
      let* _ := assertAllowedArtifacts state (concat (map vev_artifacts evidence)) in
      let ready := state.(ready_agent_ids) ++ [event.(tc_participant_agent_id)] in
      if sameStringSet ready (missionParticipantIds state) then
        let* next := transitionMissionStatus state.(status) StateMachines.participants_ready in
        Ok (state <| status := next |> <| verification_round := state.(verification_round) + 1 |>
                  <| current_participant_agent_id := None |> <| ready_agent_ids := ready |>
                  <| verification_records := [] |>)
      else
        let* other := otherParticipant state event.(tc_participant_agent_id) in
        Ok (state <| current_participant_agent_id := Some other |> <| ready_agent_ids := ready |>)
  | _ => Err (throws "ready_disposition")
  end.

Definition applyTurnCompleted (state : MissionCoordinatorState) (mission_id : string)
    (event : TurnCompletedEvent) : result CoordinatorError MissionCoordinatorState :=
  throw (throws "turn_not_scheduled")
    when (state.(status) !== M_active) || non_null state.(pending_revision) ||
         is_null state.(current_participant_agent_id) in
  throw (throws "turn_participant")
    when Some event.(tc_participant_agent_id) !== state.(current_participant_agent_id) in
  throw (throws "contract_version")
    when event.(tc_contract_version) !== state.(contract_version) in
  throw (throws "turn_limit")
    when (state_manifest state).(man_max_turns) <=? state.(turn_count) in
  let withTurn := state <| turn_count := state.(turn_count) + 1 |> in
  let* reduced :=
    (match event.(tc_disposition) with
     | Reply _ _ _ => applyReply withTurn mission_id event
     | ProposeContract _ => applyContractProposal withTurn mission_id event
     | Ready _ => applyReady withTurn event
     | _ => Err (throws "unsupported_disposition")
     end) in
  if (reduced.(status) === M_active) &&
     ((state_manifest reduced).(man_max_turns) <=? reduced.(turn_count))
  then
    let* next := transitionMissionStatus reduced.(status) StateMachines.fail in
    Ok (reduced <| status := next |> <| pending_revision := None |>
                <| current_participant_agent_id := None |> <| ready_agent_ids := [] |>
                <| verification_records := [] |>)
  else Ok reduced.

Definition applyContractAcknowledged `{Zod} (state : MissionCoordinatorState)
    (event : ContractAcknowledgedEvent) : result CoordinatorError MissionCoordinatorState :=
  match state.(pending_revision) with
  | None => Err (throws "no_pending_revision")
  | Some pending =>
      throw (throws "no_pending_revision")
        when (state.(status) !== M_active) || non_null state.(current_participant_agent_id) in
      throw (throws "acknowledgement_participant")
        when negb (includes (missionParticipantIds state) event.(ca_participant_agent_id)) in
      throw (throws "acknowledgement_revision")
        when (event.(ca_revision_id) !== pending.(rev_revision_id)) ||
             (event.(ca_contract_version) !== pending.(rev_version)) ||
             (event.(ca_artifact) !== pending.(rev_artifact)) in
      throw (throws "duplicate_acknowledgement")
        when includes pending.(rev_acknowledged_by_agent_ids) event.(ca_participant_agent_id) in
      let acknowledged := pending <| rev_acknowledged_by_agent_ids :=
        pending.(rev_acknowledged_by_agent_ids) ++ [event.(ca_participant_agent_id)] |> in
      throw ZodError when negb (contractRevisionSchema acknowledged) in
      if negb (sameStringSet acknowledged.(rev_acknowledged_by_agent_ids)
                 (missionParticipantIds state))
      then Ok (state <| pending_revision := Some acknowledged |>)
      else
        let* other := otherParticipant state acknowledged.(rev_proposed_by_agent_id) in
        Ok (state <| contract_version := acknowledged.(rev_version) |>
                  <| active_contract := acknowledged.(rev_artifact) |>
                  <| pending_revision := None |>
                  <| accepted_revisions := state.(accepted_revisions) ++ [acknowledged] |>
                  <| current_participant_agent_id := Some other |>
                  <| ready_agent_ids := [] |> <| verification_records := [] |>)
  end.

Definition applyVerificationRecorded (state : MissionCoordinatorState) (event_id : string)
    (event : VerificationRecordedEvent) : result CoordinatorError MissionCoordinatorState :=
  let evidence := event.(vr_evidence) in
  throw (throws "not_verifying")
    when (state.(status) !== M_verifying) || non_null state.(pending_revision) ||
         non_null state.(current_participant_agent_id) in
  throw (throws "contract_version")
    when event.(vr_contract_version) !== state.(contract_version) in
  throw (throws "verification_round")
    when event.(vr_verification_round) !== state.(verification_round) in
  match state.(required_verification_commands) !! event.(vr_participant_agent_id) with
  | None => Err (throws "verification_command")
  | Some required =>
      throw (throws "verification_command")
        when negb (includes required evidence.(vev_command_id)) in
      throw (throws "verification_conflict")
        when some (fun applied =>
               match applied.(body) with
               | VerificationRecorded e =>
                   e.(vr_evidence).(vev_verification_id) === evidence.(vev_verification_id)
               | _ => false
               end) state.(applied_events) ||
             some (fun record =>
               (record.(vrec_participant_agent_id) === event.(vr_participant_agent_id)) &&
               (record.(vrec_evidence).(vev_command_id) === evidence.(vev_command_id)))
               state.(verification_records) in
      let* _ := assertAllowedArtifacts state evidence.(vev_artifacts) in
      let record := {| vrec_event_id := event_id;
                       vrec_participant_agent_id := event.(vr_participant_agent_id);
                       vrec_contract_version := event.(vr_contract_version);
                       vrec_verification_round := event.(vr_verification_round);
                       vrec_evidence := evidence |} in
      let records := state.(verification_records) ++ [record] in
      let participantRecords := array_filter (fun candidate =>
        candidate.(vrec_participant_agent_id) === event.(vr_participant_agent_id)) records in
      if negb (allParticipantCommandsRecorded required participantRecords)
      then Ok (state <| verification_records := records |>)
      else if some (fun candidate => candidate.(vrec_evidence).(vev_outcome) === O_failed)
                participantRecords
      then
        let remainingTurns := (state_manifest state).(man_max_turns) - state.(turn_count) in
        let canRetry := len (missionParticipantIds state) <=? remainingTurns in
        let* next := transitionMissionStatus state.(status)
          (if canRetry then StateMachines.verification_failed else StateMachines.fail) in
        Ok (state <| status := next |>
                  <| current_participant_agent_id :=
                       if canRetry then Some event.(vr_participant_agent_id) else None |>
                  <| ready_agent_ids := [] |> <| verification_records := [] |>)
      else if negb (allRequiredCommandsPassed state records)
      then Ok (state <| verification_records := records |>)
      else
        let* next := transitionMissionStatus state.(status) StateMachines.verification_passed in
        Ok (state <| status := next |> <| verification_records := records |>)
  end.

(** ** The reducer *)
Definition is_turn_of (delivery_id : string) (applied : MissionCoordinatorEvent) : bool :=
  match applied.(body) with
  | TurnCompleted e => e.(tc_delivery_id) === delivery_id
  | _ => false
  end.

Definition applyEventBody `{Zod} (current : MissionCoordinatorState)
    (event : MissionCoordinatorEvent) : result CoordinatorError MissionCoordinatorState :=
  match event.(body) with
  | ParticipantsAccepted e => applyParticipantsAccepted current e
  | TurnCompleted e => applyTurnCompleted current (event_mission event) e
  | ContractAcknowledged e => applyContractAcknowledged current e
  | VerificationRecorded e => applyVerificationRecorded current (event_id event) e
  | MissionTerminal e => applyMissionTerminal current e
  end.

Definition reduceMissionCoordinatorEvent `{Zod} (state : MissionCoordinatorState)
    (event : MissionCoordinatorEvent) : result CoordinatorError MissionCoordinatorState :=
  throw ZodError when negb (missionCoordinatorEventSchema event) in
  let* replay := findReplay state event in
  match replay with
  | Some applied =>
      if applied === event then Ok state else Err (throws "event_identity_conflict")
  | None =>
      throw (throws "mission_mismatch")
        when event_mission event !== (state_manifest state).(man_mission_id) in
      throw (throws "sequence") when event_sequence event !== state.(sequence_no) + 1 in
      throw (throws "terminal") when isTerminal state.(status) in
      throw (throws "delivery_conflict")
        when match event.(body) with
             | TurnCompleted e => some (is_turn_of e.(tc_delivery_id)) state.(applied_events)
             | _ => false
             end in
      let* reduced := applyEventBody state event in
      Ok (reduced <| sequence_no := event_sequence event |>
                  <| applied_events := reduced.(applied_events) ++ [event] |>)
  end.

Fixpoint reduce_all `{Zod} (state : MissionCoordinatorState) (events : list MissionCoordinatorEvent)
    : result CoordinatorError MissionCoordinatorState :=
  match events with
  | [] => Ok state
  | event :: events =>
      let* state := reduceMissionCoordinatorEvent state event in
      reduce_all state events
  end.

Definition replayMissionCoordinatorEvents `{Zod} (config : MissionCoordinatorConfig)
    (events : list MissionCoordinatorEvent) : result CoordinatorError MissionCoordinatorState :=
  let* state := createMissionCoordinatorState config in
  reduce_all state events.
