(* ===== verification/MissionExample.v ===== *)
(** * A Mission, from acceptance to completion

    Concrete inputs for the witnesses of the coordinator's theorems: a Mission of
    two participants with one verification command each, and the log of a run in
    which a contract revision is proposed and acknowledged, a Message is sent,
    both participants are ready, and both verifications pass. *)

From S2P Require Import Prelude JsLib Schemas.
From S2P Require Import MissionEvents MissionCoordinator.

#[local] Existing Instance example_zod.

(** The id whose last digit is [d]. *)
Definition ex_id (d : string) : string := "00000000-0000-4000-8000-00000000000" +:+ d.
Definition ex_hash : string := "0123456789abcdef0123456789abcdef0123456789abcdef0123456789abcdef".
Definition ex_time : string := "2026-08-03T12:00:00Z".

Definition ex_agent_a : string := ex_id "a".
Definition ex_agent_b : string := ex_id "b".
Definition ex_mission : string := ex_id "0".

Definition ex_artifact (v : Z) : ArtifactRef :=
  {| art_artifact_id := ex_id "c"; art_type := "openapi"; art_version := v;
     art_sha256 := ex_hash; art_media_type := "application/json"; art_byte_size := 512 |}.

Definition ex_participant (id role : string) : Participant :=
  {| part_agent_id := id; part_role := role; part_workspace_alias := role;
     part_repository_url := "https://github.com/acme/service";
     part_expected_base_commit := "0123456789abcdef0123456789abcdef01234567";
     part_initial_assignment := "Implement the shared contract";
     part_requested_local_policy_profile := "default" |}.

Definition ex_manifest : MissionManifest :=
  {| man_schema_version := 1; man_mission_id := ex_mission;
     man_objective := "Agree on one API and verify it";
     man_public_acceptance_criteria := ["Both test suites pass"];
     man_participants := [ex_participant ex_agent_a "client"; ex_participant ex_agent_b "server"];
     man_shared_contract := ex_artifact 1; man_max_turns := 8; man_max_wall_time_seconds := 3600;
     man_token_budget := 100000; man_expires_at := "2026-08-03T13:00:00Z";
     man_allowed_artifact_types := ["openapi"]; man_created_at := ex_time |}.

Definition ex_cfg : MissionCoordinatorConfig :=
  {| cfg_mission_context :=
       {| ctx_manifest := ex_manifest;
          ctx_created_by := {| actor_principal_id := ex_id "f"; actor_kind := A_owner |} |};
     cfg_required_verification_commands :=
       <[ex_agent_a := ["unit"]]> (<[ex_agent_b := ["contract"]]> ∅) |}.

Definition ex_event (n : Z) (digit : string) (b : EventBody) : MissionCoordinatorEvent :=
  {| envelope := {| env_event_id := "10000000-0000-4000-8000-00000000000" +:+ digit;
                    env_idempotency_key := "event-" +:+ digit; env_mission_id := ex_mission;
                    env_sequence_no := n; env_created_at := ex_time |};
     body := b |}.

Definition ex_delivery (digit : string) : string := "20000000-0000-4000-8000-00000000000" +:+ digit.

Definition ex_turn (p delivery : string) (v : Z) (d : TurnDisposition) (m : option Message)
    (r : option ContractRevision) : EventBody :=
  TurnCompleted {| tc_participant_agent_id := p; tc_delivery_id := delivery;
                   tc_contract_version := v; tc_disposition := d; tc_message := m;
                   tc_revision := r |}.

Definition ex_revision : ContractRevision :=
  {| rev_revision_id := ex_id "d"; rev_mission_id := ex_mission; rev_previous_version := 1;
     rev_version := 2; rev_artifact := ex_artifact 2; rev_proposed_by_agent_id := ex_agent_a;
     rev_acknowledged_by_agent_ids := []; rev_idempotency_key := "revision-1";
     rev_created_at := ex_time |}.

Definition ex_ack (p delivery : string) : EventBody :=
  ContractAcknowledged {| ca_participant_agent_id := p; ca_delivery_id := delivery;
                          ca_revision_id := ex_id "d"; ca_contract_version := 2;
                          ca_artifact := ex_artifact 2 |}.

Definition ex_message : Message :=
  {| msg_message_id := ex_id "e"; msg_mission_id := ex_mission; msg_sequence_no := 1;
     msg_author_agent_id := ex_agent_b; msg_type := T_decision; msg_body := "Version 2 it is";
     msg_artifacts := []; msg_contract_version := 2; msg_idempotency_key := "message-1";
     msg_causal_parent_message_id := None; msg_created_at := ex_time |}.

Definition ex_evidence (digit command : string) (o : Outcome) : VerificationEvidence :=
  {| vev_verification_id := "30000000-0000-4000-8000-00000000000" +:+ digit;
     vev_command_id := command; vev_outcome := o;
     vev_exit_code := match o with O_passed => 0 | O_failed => 1 end;
     vev_duration_ms := 1200; vev_summary := "42 tests"; vev_output_sha256 := ex_hash;
     vev_artifacts := []; vev_recorded_at := ex_time |}.

Definition ex_verification (p delivery digit command : string) (o : Outcome) : EventBody :=
  VerificationRecorded {| vr_participant_agent_id := p; vr_delivery_id := delivery;
                          vr_contract_version := 2; vr_verification_round := 1;
                          vr_evidence := ex_evidence digit command o |}.

(** Up to the point where both participants are ready. *)
Definition ex_prefix : list MissionCoordinatorEvent :=
  [ex_event 1 "1" (ParticipantsAccepted {| pa_participant_agent_ids := [ex_agent_a; ex_agent_b];
                                           pa_contract := ex_artifact 1 |});
   ex_event 2 "2" (ex_turn ex_agent_a (ex_delivery "1") 1 (ProposeContract (ex_artifact 2)) None
                     (Some ex_revision));
   ex_event 3 "3" (ex_ack ex_agent_b (ex_delivery "2"));
   ex_event 4 "4" (ex_ack ex_agent_a (ex_delivery "3"));
   ex_event 5 "5" (ex_turn ex_agent_b (ex_delivery "4") 2
                     (Reply T_decision "Version 2 it is" None) (Some ex_message) None);
   ex_event 6 "6" (ex_turn ex_agent_a (ex_delivery "5") 2 (Ready []) None None);
   ex_event 7 "7" (ex_turn ex_agent_b (ex_delivery "6") 2 (Ready []) None None);
   ex_event 8 "8" (ex_verification ex_agent_a (ex_delivery "7") "1" "unit" O_passed)].

Definition ex_events : list MissionCoordinatorEvent :=
  ex_prefix ++ [ex_event 9 "9" (ex_verification ex_agent_b (ex_delivery "8") "2" "contract" O_passed)].

(** The states these logs lead to. *)
Definition ex_run (events : list MissionCoordinatorEvent) : MissionCoordinatorState :=
  match replayMissionCoordinatorEvents ex_cfg events with
  | Ok s => s
  | Err _ => {| mission_context := ex_cfg.(cfg_mission_context);
                required_verification_commands := ∅; status := M_blocked; sequence_no := 0;
                turn_count := 0; contract_version := 0; verification_round := 0;
                active_contract := ex_artifact 0; pending_revision := None;
                accepted_revisions := []; current_participant_agent_id := None;
                ready_agent_ids := []; verification_records := []; messages := [];
                applied_events := [] |}
  end.

(** ** The runs return *)
Example ex_prefix_verifying :
  replayMissionCoordinatorEvents ex_cfg ex_prefix = Ok (ex_run ex_prefix) /\
  (ex_run ex_prefix).(status) = M_verifying.
Proof. split; vm_compute; reflexivity. Qed.

Example ex_events_completed :
  replayMissionCoordinatorEvents ex_cfg ex_events = Ok (ex_run ex_events) /\
  (ex_run ex_events).(status) = M_completed.
Proof. split; vm_compute; reflexivity. Qed.
