(* ===== verification/MissionSteps.v ===== *)
(** * The coordinator as a step relation

    The abstract specification of [reduceMissionCoordinatorEvent]: one rule per
    kind of event, saying when the event is enabled and what it changes, with no
    errors and no order of checks.  [reduce_iff_step] shows that the reducer
    implements it exactly: it returns a state if and only if the event replays an
    applied one, and the state is unchanged, or the relation has that step. *)

From S2P Require Import Prelude JsLib Schemas.
From S2P Require StateMachines.
From S2P Require Import MissionEvents MissionCoordinator.

(** ** Shared pieces of the rules *)

(** A state with no work scheduled. *)
Definition closed (s : MissionCoordinatorState) (st : MissionStatus) : MissionCoordinatorState :=
  s <| status := st |> <| pending_revision := None |> <| current_participant_agent_id := None |>
    <| ready_agent_ids := [] |> <| verification_records := [] |>.

Definition artifacts_allowed (s : MissionCoordinatorState) (artifacts : list ArtifactRef) : Prop :=
  forall a, a ∈ artifacts -> a.(art_type) ∈ (state_manifest s).(man_allowed_artifact_types).

(** [o] is the first Mission participant other than [p]. *)
Definition other_of (s : MissionCoordinatorState) (p o : string) : Prop :=
  array_find (fun candidate => candidate !== p) (missionParticipantIds s) = Some o /\ o <> "".

(** No Message of the log and no accepted revision shares an identity. *)
Definition fresh_message (s : MissionCoordinatorState) (m : Message) : Prop :=
  forall m', m' ∈ s.(messages) -> m'.(msg_message_id) <> m.(msg_message_id) /\
                                  m'.(msg_idempotency_key) <> m.(msg_idempotency_key).
Definition fresh_revision (s : MissionCoordinatorState) (r : ContractRevision) : Prop :=
  forall r', r' ∈ s.(accepted_revisions) -> r'.(rev_revision_id) <> r.(rev_revision_id) /\
                                            r'.(rev_idempotency_key) <> r.(rev_idempotency_key).

(** No verification of the log carries this evidence's id, and the participant
    has no record for its command in the current round. *)
Definition is_verification_of (id : string) (applied : MissionCoordinatorEvent) : bool :=
  match applied.(body) with
  | VerificationRecorded e => e.(vr_evidence).(vev_verification_id) === id
  | _ => false
  end.
Definition fresh_evidence (s : MissionCoordinatorState) (p : string) (v : VerificationEvidence)
    : Prop :=
  (forall a, a ∈ s.(applied_events) -> is_verification_of v.(vev_verification_id) a = false) /\
  (forall r, r ∈ s.(verification_records) -> r.(vrec_participant_agent_id) = p ->
     r.(vrec_evidence).(vev_command_id) <> v.(vev_command_id)).

(** What one turn does once it is known to be scheduled; [s] already counts it. *)
Inductive turn_effect (s : MissionCoordinatorState) (mission_id : string) (e : TurnCompletedEvent)
    : MissionCoordinatorState -> Prop :=
| te_reply ty text arts m o :
    e.(tc_disposition) = Reply ty text arts -> e.(tc_message) = Some m ->
    m.(msg_mission_id) = mission_id ->
    m.(msg_author_agent_id) = e.(tc_participant_agent_id) ->
    m.(msg_contract_version) = s.(contract_version) ->
    m.(msg_body) = text ->
    m.(msg_sequence_no) = len s.(messages) + 1 ->
    m.(msg_causal_parent_message_id) = msg_message_id <$> at_last s.(messages) ->
    m.(msg_type) = ty -> m.(msg_artifacts) = default [] arts -> fresh_message s m ->
    artifacts_allowed s m.(msg_artifacts) -> other_of s e.(tc_participant_agent_id) o ->
    turn_effect s mission_id e
      (s <| current_participant_agent_id := Some o |> <| ready_agent_ids := [] |>
         <| verification_records := [] |> <| messages := s.(messages) ++ [m] |>)
| te_propose r :
    e.(tc_disposition) = ProposeContract r.(rev_artifact) -> e.(tc_revision) = Some r ->
    r.(rev_mission_id) = mission_id ->
    r.(rev_proposed_by_agent_id) = e.(tc_participant_agent_id) ->
    r.(rev_previous_version) = s.(contract_version) ->
    r.(rev_version) = s.(contract_version) + 1 ->
    r.(rev_acknowledged_by_agent_ids) = [] ->
    r.(rev_artifact).(art_artifact_id) = s.(active_contract).(art_artifact_id) ->
    r.(rev_artifact).(art_type) = s.(active_contract).(art_type) ->
    fresh_revision s r -> artifacts_allowed s [r.(rev_artifact)] ->
    turn_effect s mission_id e
      (s <| pending_revision := Some r |> <| current_participant_agent_id := None |>
         <| ready_agent_ids := [] |> <| verification_records := [] |>)
| te_ready_both evidence :
    e.(tc_disposition) = Ready evidence ->
    artifacts_allowed s (concat (map vev_artifacts evidence)) -> s.(status) = M_active ->
    sameStringSet (s.(ready_agent_ids) ++ [e.(tc_participant_agent_id)])
      (missionParticipantIds s) = true ->
    turn_effect s mission_id e
      (s <| status := M_verifying |> <| verification_round := s.(verification_round) + 1 |>
         <| current_participant_agent_id := None |>
         <| ready_agent_ids := s.(ready_agent_ids) ++ [e.(tc_participant_agent_id)] |>
         <| verification_records := [] |>)
| te_ready_first evidence o :
    e.(tc_disposition) = Ready evidence ->
    artifacts_allowed s (concat (map vev_artifacts evidence)) ->
    sameStringSet (s.(ready_agent_ids) ++ [e.(tc_participant_agent_id)])
      (missionParticipantIds s) = false ->
    other_of s e.(tc_participant_agent_id) o ->
    turn_effect s mission_id e
      (s <| current_participant_agent_id := Some o |>
         <| ready_agent_ids := s.(ready_agent_ids) ++ [e.(tc_participant_agent_id)] |>).

(** A turn that leaves the Mission active with no turn left fails it. *)
Definition turn_limited (r : MissionCoordinatorState) : MissionCoordinatorState :=
  if (r.(status) === M_active) && ((state_manifest r).(man_max_turns) <=? r.(turn_count))
  then closed r M_failed else r.

Definition acknowledge (r : ContractRevision) (p : string) : ContractRevision :=
  r <| rev_acknowledged_by_agent_ids := r.(rev_acknowledged_by_agent_ids) ++ [p] |>.

Definition contract_accepted (s : MissionCoordinatorState) (r : ContractRevision) (next : string)
    : MissionCoordinatorState :=
  s <| contract_version := r.(rev_version) |> <| active_contract := r.(rev_artifact) |>
    <| pending_revision := None |> <| accepted_revisions := s.(accepted_revisions) ++ [r] |>
    <| current_participant_agent_id := Some next |> <| ready_agent_ids := [] |>
    <| verification_records := [] |>.

Definition record_of (id : string) (e : VerificationRecordedEvent) : MissionVerificationRecord :=
  {| vrec_event_id := id; vrec_participant_agent_id := e.(vr_participant_agent_id);
     vrec_contract_version := e.(vr_contract_version);
     vrec_verification_round := e.(vr_verification_round); vrec_evidence := e.(vr_evidence) |}.

Definition records_of (p : string) (records : list MissionVerificationRecord)
    : list MissionVerificationRecord :=
  array_filter (fun candidate => candidate.(vrec_participant_agent_id) === p) records.

Definition some_failed (records : list MissionVerificationRecord) : bool :=
  some (fun candidate => candidate.(vrec_evidence).(vev_outcome) === O_failed) records.

(** What the new record set decides. *)
Definition verification_outcome (s : MissionCoordinatorState) (p : string) (required : list string)
    (records : list MissionVerificationRecord) : MissionCoordinatorState :=
  if negb (allParticipantCommandsRecorded required (records_of p records))
  then s <| verification_records := records |>
  else if some_failed (records_of p records)
  then
    if len (missionParticipantIds s) <=? (state_manifest s).(man_max_turns) - s.(turn_count)
    then s <| status := M_active |> <| current_participant_agent_id := Some p |>
           <| ready_agent_ids := [] |> <| verification_records := [] |>
    else s <| status := M_failed |> <| current_participant_agent_id := None |>
           <| ready_agent_ids := [] |> <| verification_records := [] |>
  else if negb (allRequiredCommandsPassed s records)
  then s <| verification_records := records |>
  else s <| status := M_completed |> <| verification_records := records |>.

(** ** The relation *)
Inductive core_step `{Zod} (s : MissionCoordinatorState) (id mission_id : string)
    : EventBody -> MissionCoordinatorState -> Prop :=
| cs_accepted e :
    s.(status) = M_awaiting_acceptance -> s.(applied_events) = [] ->
    sameStringSet e.(pa_participant_agent_ids) (missionParticipantIds s) = true ->
    e.(pa_contract) = (state_manifest s).(man_shared_contract) ->
    core_step s id mission_id (ParticipantsAccepted e)
      (s <| status := M_active |>
         <| current_participant_agent_id := head (missionParticipantIds s) |>)
| cs_terminal e :
    s.(status) = M_active \/ s.(status) = M_verifying ->
    core_step s id mission_id (MissionTerminal e)
      (closed s (if e.(mt_terminal_status) === TS_expired then M_expired else M_failed))
| cs_turn e r :
    s.(status) = M_active -> s.(pending_revision) = None ->
    s.(current_participant_agent_id) = Some e.(tc_participant_agent_id) ->
    e.(tc_contract_version) = s.(contract_version) ->
    s.(turn_count) < (state_manifest s).(man_max_turns) ->
    turn_effect (s <| turn_count := s.(turn_count) + 1 |>) mission_id e r ->
    core_step s id mission_id (TurnCompleted e) (turn_limited r)
| cs_ack_partial e r :
    s.(status) = M_active -> s.(pending_revision) = Some r ->
    s.(current_participant_agent_id) = None ->
    e.(ca_participant_agent_id) ∈ missionParticipantIds s ->
    e.(ca_revision_id) = r.(rev_revision_id) -> e.(ca_contract_version) = r.(rev_version) ->
    e.(ca_artifact) = r.(rev_artifact) ->
    e.(ca_participant_agent_id) ∉ r.(rev_acknowledged_by_agent_ids) ->
    contractRevisionSchema (acknowledge r e.(ca_participant_agent_id)) = true ->
    sameStringSet (acknowledge r e.(ca_participant_agent_id)).(rev_acknowledged_by_agent_ids)
      (missionParticipantIds s) = false ->
    core_step s id mission_id (ContractAcknowledged e)
      (s <| pending_revision := Some (acknowledge r e.(ca_participant_agent_id)) |>)
| cs_ack_final e r o :
    s.(status) = M_active -> s.(pending_revision) = Some r ->
    s.(current_participant_agent_id) = None ->
    e.(ca_participant_agent_id) ∈ missionParticipantIds s ->
    e.(ca_revision_id) = r.(rev_revision_id) -> e.(ca_contract_version) = r.(rev_version) ->
    e.(ca_artifact) = r.(rev_artifact) ->
    e.(ca_participant_agent_id) ∉ r.(rev_acknowledged_by_agent_ids) ->
    contractRevisionSchema (acknowledge r e.(ca_participant_agent_id)) = true ->
    sameStringSet (acknowledge r e.(ca_participant_agent_id)).(rev_acknowledged_by_agent_ids)
      (missionParticipantIds s) = true ->
    other_of s r.(rev_proposed_by_agent_id) o ->
    core_step s id mission_id (ContractAcknowledged e)
      (contract_accepted s (acknowledge r e.(ca_participant_agent_id)) o)
| cs_verification e required :
    s.(status) = M_verifying -> s.(pending_revision) = None ->
    s.(current_participant_agent_id) = None ->
    e.(vr_contract_version) = s.(contract_version) ->
    e.(vr_verification_round) = s.(verification_round) ->
    s.(required_verification_commands) !! e.(vr_participant_agent_id) = Some required ->
    e.(vr_evidence).(vev_command_id) ∈ required ->
    fresh_evidence s e.(vr_participant_agent_id) e.(vr_evidence) ->
    artifacts_allowed s e.(vr_evidence).(vev_artifacts) ->
    core_step s id mission_id (VerificationRecorded e)
      (verification_outcome s e.(vr_participant_agent_id) required
         (s.(verification_records) ++ [record_of id e])).

(** The event is not yet known to the log. *)
Definition fresh_event (s : MissionCoordinatorState) (e : MissionCoordinatorEvent) : Prop :=
  forall a, a ∈ s.(applied_events) -> event_id a <> event_id e /\ event_key a <> event_key e.

Inductive coordinator_step `{Zod} (s : MissionCoordinatorState) (e : MissionCoordinatorEvent)
    : MissionCoordinatorState -> Prop :=
| coordinator_step_intro r :
    missionCoordinatorEventSchema e = true -> fresh_event s e ->
    event_mission e = (state_manifest s).(man_mission_id) ->
    event_sequence e = s.(sequence_no) + 1 -> isTerminal s.(status) = false ->
    (forall t a, e.(body) = TurnCompleted t -> a ∈ s.(applied_events) ->
       is_turn_of t.(tc_delivery_id) a = false) ->
    core_step s (event_id e) (event_mission e) e.(body) r ->
    coordinator_step s e
      (r <| sequence_no := s.(sequence_no) + 1 |> <| applied_events := s.(applied_events) ++ [e] |>).

(** ** The reducer implements the relation *)
Section refinement.
Context `{Zod}.

Lemma transition_table st ev next :
  transitionMissionStatus st ev = Ok next <-> StateMachines.missionTransitions st ev = Some next.
Proof.
  unfold transitionMissionStatus, StateMachines.transitionMissionStatus.
  destruct (StateMachines.missionTransitions st ev); split; congruence.
Qed.

Lemma assertAllowed_inv s l u : assertAllowedArtifacts s l = Ok u -> artifacts_allowed s l.
Proof.
  unfold assertAllowedArtifacts. intros R. ok_inv R.
  rewrite some_false_iff in E. intros a Ha. apply E in Ha. bool_hyps. by apply includes_iff.
Qed.

Lemma otherParticipant_inv s p o : otherParticipant s p = Ok o -> other_of s p o.
Proof. unfold otherParticipant, other_of. intros R. ok_inv R. bool_hyps. split; congruence. Qed.

Lemma applyReply_inv s mid e r : applyReply s mid e = Ok r -> turn_effect s mid e r.
Proof.
  unfold applyReply. intros R. ok_inv R. bool_hyps. injection R as <-.
  apply assertAllowed_inv in E3. apply otherParticipant_inv in E4.
  eapply te_reply; eauto.
  intros m' Hm. rewrite some_false_iff in E2. apply E2 in Hm. bool_hyps. auto.
Qed.

Lemma applyProposal_inv s mid e r : applyContractProposal s mid e = Ok r -> turn_effect s mid e r.
Proof.
  unfold applyContractProposal. intros R. ok_inv R. bool_hyps. injection R as <-.
  apply assertAllowed_inv in E4.
  eapply te_propose; eauto; try congruence.
  - by apply len_zero.
  - intros r' Hr. rewrite some_false_iff in E3. apply E3 in Hr. bool_hyps. auto.
Qed.

Lemma applyReady_inv s mid e r :
  s.(status) = M_active -> applyReady s e = Ok r -> turn_effect s mid e r.
Proof.
  unfold applyReady. intros A R. ok_inv R; injection R as <-; apply assertAllowed_inv in E0.
  - apply transition_table in E2. rewrite A in E2. injection E2 as <-.
    eapply te_ready_both; eauto.
  - apply otherParticipant_inv in E2. eapply te_ready_first; eauto.
Qed.

Lemma applyTurn_inv s id mid e r :
  applyTurnCompleted s mid e = Ok r -> core_step s id mid (TurnCompleted e) r.
Proof.
  unfold applyTurnCompleted. intros R. ok_inv R.
  all: assert (T : s.(status) = M_active ->
    turn_effect (s <| turn_count := s.(turn_count) + 1 |>) mid e a) by
    (intros A; destruct e.(tc_disposition); try discriminate;
     [by apply applyReply_inv|by apply applyProposal_inv|by apply applyReady_inv]).
  - assert (Et : turn_limited a = closed a M_failed) by (unfold turn_limited; by rewrite E4).
    bool_hyps. injection R as <-. apply transition_table in E5.
    match goal with A : a.(status) = M_active |- _ => rewrite A in E5 end.
    injection E5 as <-. change (core_step s id mid (TurnCompleted e) (closed a M_failed)).
    rewrite <-Et. eapply cs_turn; eauto; congruence.
  - assert (Et : turn_limited a = a) by (unfold turn_limited; by rewrite E4).
    bool_hyps. injection R as <-. rewrite <-Et. eapply cs_turn; eauto; congruence.
Qed.

Lemma applyAck_inv s id mid e r :
  applyContractAcknowledged s e = Ok r -> core_step s id mid (ContractAcknowledged e) r.
Proof.
  unfold applyContractAcknowledged. intros R. ok_inv R; bool_hyps; injection R as <-.
  - apply includes_false_iff in E3. eapply cs_ack_partial; eauto.
    by apply includes_iff.
  - apply includes_false_iff in E3. apply otherParticipant_inv in E6.
    eapply cs_ack_final; eauto. by apply includes_iff.
Qed.

Lemma applyVerification_inv s id mid e r :
  applyVerificationRecorded s id e = Ok r -> core_step s id mid (VerificationRecorded e) r.
Proof.
  unfold applyVerificationRecorded. intros R.
  match type of R with (if ?b then _ else _) = _ => destruct b eqn:E0 end; [discriminate|].
  match type of R with (if ?b then _ else _) = _ => destruct b eqn:E1 end; [discriminate|].
  match type of R with (if ?b then _ else _) = _ => destruct b eqn:E2 end; [discriminate|].
  destruct (_ !! _) as [required|] eqn:E3; [|discriminate].
  match type of R with (if ?b then _ else _) = _ => destruct b eqn:E4 end; [discriminate|].
  match type of R with (if ?b then _ else _) = _ => destruct b eqn:E5 end; [discriminate|].
  destruct (assertAllowedArtifacts _ _) eqn:E6; [|discriminate].
  apply assertAllowed_inv in E6. bool_hyps.
  match goal with X : s.(status) = M_verifying |- _ => rename X into A end.
  assert (Ev : r = verification_outcome s e.(vr_participant_agent_id) required
                    (s.(verification_records) ++ [record_of id e])).
  { unfold verification_outcome, records_of, some_failed, record_of. cbn zeta in R.
    destruct (negb (allParticipantCommandsRecorded _ _)); [congruence|].
    destruct (some _ (array_filter _ _)).
    - destruct (_ <=? _); cbn in R; rewrite A in R; cbn in R; congruence.
    - destruct (negb (allRequiredCommandsPassed _ _)); [congruence|].
      rewrite A in R. cbn in R. congruence. }
  rewrite Ev. eapply cs_verification; eauto.
  - by apply includes_iff.
  - split; [intros a' Ha; match goal with G : some _ (applied_events s) = false |- _ =>
      rewrite some_false_iff in G; by apply G in Ha end|].
    intros r' Hr Hp Hc. match goal with G : some _ (verification_records s) = false |- _ =>
      rewrite some_false_iff in G; apply G in Hr end.
    rewrite !bool_decide_eq_true_2 in Hr by done. discriminate.
Qed.

Lemma applyTerminal_inv s id mid e r :
  applyMissionTerminal s e = Ok r -> core_step s id mid (MissionTerminal e) r.
Proof.
  unfold applyMissionTerminal. intros R. ok_inv R; injection R as <-.
  assert (Hs : s.(status) = M_active \/ s.(status) = M_verifying).
  { destruct s.(status); try (vm_compute in E; discriminate); auto. }
  apply transition_table in E0.
  replace a with (if mt_terminal_status e === TS_expired then M_expired else M_failed).
  - by apply (cs_terminal s id mid e).
  - destruct (mt_terminal_status e === TS_expired), Hs as [Hs|Hs]; rewrite Hs in E0;
      injection E0 as <-; done.
Qed.

Lemma applyAccepted_inv s id mid e r :
  applyParticipantsAccepted s e = Ok r -> core_step s id mid (ParticipantsAccepted e) r.
Proof.
  unfold applyParticipantsAccepted. intros R. ok_inv R; bool_hyps; injection R as <-.
  match goal with X : s.(status) = _ |- _ => rename X into A end.
  apply transition_table in E2. rewrite A in E2. injection E2 as <-.
  apply cs_accepted; auto.
  by apply len_zero.
Qed.

Lemma applyEventBody_inv s e r :
  applyEventBody s e = Ok r -> core_step s (event_id e) (event_mission e) e.(body) r.
Proof.
  unfold applyEventBody.
  destruct e.(body); eauto using applyAccepted_inv, applyTurn_inv, applyAck_inv,
    applyVerification_inv, applyTerminal_inv.
Qed.

(** No handler touches the log or the sequence number. *)
Lemma core_step_log s id mid b r :
  core_step s id mid b r -> r.(applied_events) = s.(applied_events).
Proof.
  intros R. destruct R; try done.
  - unfold turn_limited. destruct H5; cbn; by destruct (_ && _).
  - unfold verification_outcome. by repeat destruct (_ : bool).
Qed.

Lemma findReplay_None s e : findReplay s e = Ok None -> fresh_event s e.
Proof.
  unfold findReplay. intros R a Ha.
  destruct (array_filter _ _) as [|x [|]] eqn:E; try discriminate.
  apply array_filter_nil in E. rewrite some_false_iff in E. apply E in Ha. by bool_hyps.
Qed.

Lemma findReplay_Some s e a :
  findReplay s e = Ok (Some a) -> a ∈ s.(applied_events).
Proof.
  unfold findReplay. intros R.
  destruct (array_filter _ _) as [|x [|]] eqn:E; try discriminate. injection R as ->.
  assert (Ha : a ∈ [a]) by constructor. rewrite <-E in Ha.
  by apply elem_of_array_filter in Ha as [? _].
Qed.
(** *** Every step of the relation is accepted *)

(** Prove that the next guard of the goal's run does not throw. *)
Ltac guard_holds :=
  cbn;
  repeat match goal with
  | |- _ || _ = false => apply orb_false_iff; split
  | |- negb _ = false => apply negb_false_iff
  | |- bool_decide _ = true => apply bool_decide_eq_true
  | |- bool_decide _ = false => apply bool_decide_eq_false
  | |- (_ <=? _) = false => apply Z.leb_gt
  | |- len _ = 0 => apply len_zero
  | |- is_null _ = true => apply is_null_iff
  | |- includes _ _ = true => apply includes_iff
  | |- includes _ _ = false => apply includes_false_iff
  end; eauto.
Ltac guard_close :=
  split_and?; try done; try congruence; eauto;
  match goal with
  | |- non_null _ = false => unfold non_null; apply negb_false_iff, is_null_iff; congruence
  | |- is_null ?x = false => destruct x; [done|congruence]
  end.
Tactic Notation "pass_guard" "by" tactic3(t) :=
  match goal with
  | |- (if ?b then Err _ else _) = Ok _ =>
      let E := fresh in
      assert (E : b = false) by (guard_holds; t); rewrite E; clear E; cbn beta iota
  end.
Ltac pass_guard := pass_guard by guard_close.

Lemma assertAllowed_ok s l : artifacts_allowed s l -> assertAllowedArtifacts s l = Ok tt.
Proof.
  unfold assertAllowedArtifacts. intros A. cbn zeta. pass_guard by
    (apply some_false_iff; intros a Ha; apply negb_false_iff, includes_iff, A, Ha).
  done.
Qed.

Lemma otherParticipant_ok s p o : other_of s p o -> otherParticipant s p = Ok o.
Proof.
  unfold otherParticipant. intros [-> No]. by rewrite bool_decide_eq_false_2.
Qed.

Lemma transition_ok st ev next :
  StateMachines.missionTransitions st ev = Some next -> transitionMissionStatus st ev = Ok next.
Proof. apply transition_table. Qed.

Lemma some_identity {A B} `{EqDecision B} (f g : A -> B) (l : list A) (x y : B) :
  some (fun a => (f a === x) || (g a === y)) l = false <->
  forall a, a ∈ l -> f a <> x /\ g a <> y.
Proof.
  rewrite some_false_iff. split; intros G a Ha; apply G in Ha.
  - by bool_hyps.
  - apply orb_false_iff. by rewrite !bool_decide_eq_false.
Qed.

Lemma fresh_evidence_iff s p v :
  fresh_evidence s p v <->
  some (is_verification_of v.(vev_verification_id)) s.(applied_events) = false /\
  some (fun record => (record.(vrec_participant_agent_id) === p) &&
                      (record.(vrec_evidence).(vev_command_id) === v.(vev_command_id)))
    s.(verification_records) = false.
Proof.
  unfold fresh_evidence. rewrite !some_false_iff. apply and_iff_compat_l. split; intros G r Hr.
  - apply andb_false_iff. rewrite !bool_decide_eq_false. specialize (G r Hr).
    destruct (decide (vrec_participant_agent_id r = p)); tauto.
  - intros Hp Hc. apply G in Hr. by rewrite !bool_decide_eq_true_2 in Hr.
Qed.

Lemma applyTurn_effect_ok s mid e r :
  turn_effect s mid e r -> s.(status) = M_active ->
  match e.(tc_disposition) with
  | Reply _ _ _ => applyReply s mid e
  | ProposeContract _ => applyContractProposal s mid e
  | Ready _ => applyReady s e
  | _ => Err (throws "unsupported_disposition")
  end = Ok r.
Proof.
  intros [ty text arts m o D M|r' D R|ev D A V S|ev o D A S O] Act; rewrite D.
  - unfold applyReply. rewrite D, M. cbn zeta. pass_guard.
    pass_guard by (by apply some_identity).
    by rewrite assertAllowed_ok, (otherParticipant_ok _ _ o) by done.
  - unfold applyContractProposal. rewrite D, R. cbn zeta.
    pass_guard.
    pass_guard. pass_guard by (by apply some_identity).
    by rewrite assertAllowed_ok by done.
  - unfold applyReady. rewrite D, assertAllowed_ok by done. cbn beta iota zeta.
    by rewrite S, V.
  - unfold applyReady. rewrite D, assertAllowed_ok by done. cbn beta iota zeta.
    by rewrite S, (otherParticipant_ok _ _ o).
Qed.

Lemma core_turn_ok s id mid e r :
  core_step s id mid (TurnCompleted e) r -> applyTurnCompleted s mid e = Ok r.
Proof.
  intros R. inversion R; subst. unfold applyTurnCompleted.
  pass_guard. pass_guard. pass_guard. pass_guard.
  cbn zeta. rewrite (applyTurn_effect_ok _ _ _ r0) by done. cbn beta iota.
  unfold turn_limited. destruct (_ && _) eqn:L; [|done]. bool_hyps.
  rewrite (transition_ok _ _ M_failed); [done|].
  match goal with A : r0.(status) = M_active |- _ => by rewrite A end.
Qed.

Lemma core_ack_ok s id mid e r :
  core_step s id mid (ContractAcknowledged e) r -> applyContractAcknowledged s e = Ok r.
Proof.
  intros R. inversion R; subst; unfold applyContractAcknowledged;
    match goal with P : pending_revision s = Some _ |- _ => rewrite P end; fold (acknowledge r0).
  all: pass_guard; pass_guard; pass_guard.
  all: pass_guard; cbn zeta.
  all: match goal with |- context [contractRevisionSchema ?x] =>
    change x with (acknowledge r0 (ca_participant_agent_id e)) end.
  all: match goal with A : contractRevisionSchema _ = true |- _ => rewrite A end; cbn [negb].
  all: match goal with A : sameStringSet _ _ = _ |- _ => rewrite A end; cbn [negb]; try done.
  by rewrite (otherParticipant_ok _ _ o).
Qed.

Lemma core_verification_ok s id mid e r :
  core_step s id mid (VerificationRecorded e) r -> applyVerificationRecorded s id e = Ok r.
Proof.
  intros R. inversion R; subst. unfold applyVerificationRecorded. cbn zeta.
  pass_guard. pass_guard. pass_guard.
  match goal with C : _ !! _ = Some _ |- _ => rewrite C end. cbn beta iota.
  pass_guard. pass_guard by (by eapply fresh_evidence_iff in H8 as [??]).
  rewrite assertAllowed_ok by done.
  match goal with A : s.(status) = M_verifying |- _ => rename A into Act end.
  unfold verification_outcome, records_of, some_failed, record_of. cbn beta iota.
  destruct (negb (allParticipantCommandsRecorded _ _)); [done|].
  destruct (some _ (array_filter _ _)).
  - destruct (_ <=? _); by rewrite Act.
  - destruct (negb (allRequiredCommandsPassed _ _)); [done|]. by rewrite Act.
Qed.

Lemma core_step_ok s e r :
  core_step s (event_id e) (event_mission e) e.(body) r -> applyEventBody s e = Ok r.
Proof.
  unfold applyEventBody. intros R. destruct e.(body) as [e'|e'|e'|e'|e'].
  - inversion R; subst. unfold applyParticipantsAccepted. cbn zeta.
    pass_guard. pass_guard. pass_guard.
    rewrite (transition_ok _ _ M_active); [done|].
    match goal with A : s.(status) = _ |- _ => by rewrite A end.
  - by eapply core_turn_ok.
  - by eapply core_ack_ok.
  - by eapply core_verification_ok.
  - inversion R; subst. unfold applyMissionTerminal.
    pass_guard by (by destruct H1 as [-> | ->]).
    destruct (mt_terminal_status e' === TS_expired), H1 as [-> | ->]; done.
Qed.

Lemma findReplay_fresh s e : fresh_event s e -> findReplay s e = Ok None.
Proof.
  intros F. unfold findReplay.
  replace (array_filter _ s.(applied_events)) with (@nil MissionCoordinatorEvent); [done|].
  symmetry. apply array_filter_nil, some_identity, F.
Qed.

Lemma reduce_step_sound s e s' :
  reduceMissionCoordinatorEvent s e = Ok s' ->
  (missionCoordinatorEventSchema e = true /\ findReplay s e = Ok (Some e) /\ s' = s) \/
  coordinator_step s e s'.
Proof.
  unfold reduceMissionCoordinatorEvent. intros R. ok_inv R; bool_hyps.
  - left. split_and!; congruence.
  - right. injection R as <-. apply findReplay_None in E0. apply applyEventBody_inv in E6.
    match goal with A : event_sequence e = _ |- _ => rename A into Seq end.
    rewrite (core_step_log _ _ _ _ _ E6), Seq. apply coordinator_step_intro; auto.
    intros t x B Hx. rewrite B in E5. rewrite some_false_iff in E5. by apply E5.
Qed.

Lemma reduce_replay_complete s e :
  missionCoordinatorEventSchema e = true -> findReplay s e = Ok (Some e) ->
  reduceMissionCoordinatorEvent s e = Ok s.
Proof.
  unfold reduceMissionCoordinatorEvent. intros -> ->. cbn. by rewrite bool_decide_eq_true_2.
Qed.

Lemma reduce_step_complete s e s' :
  coordinator_step s e s' -> reduceMissionCoordinatorEvent s e = Ok s'.
Proof.
  intros [r V F M S T D C]. unfold reduceMissionCoordinatorEvent. rewrite V. cbn [negb].
  rewrite findReplay_fresh by done. cbn beta iota. rewrite T, S.
  rewrite !bool_decide_eq_true_2 by done. cbn [negb].
  pass_guard by (destruct e.(body) eqn:B; try done; apply some_false_iff; intros x Hx;
                 by eapply D).
  rewrite (core_step_ok _ _ _ C). cbn beta iota. by rewrite (core_step_log _ _ _ _ _ C).
Qed.

(** C14: the reducer is exactly the step relation: it returns a state if and
    only if the event is valid and either it replays the one applied event with
    its identity, which leaves the state unchanged, or it is a step of
    [coordinator_step].  Every guard of every handler is accounted for: no event
    the relation enables is refused, and none it does not enable is accepted. *)
Theorem reduce_iff_step s e s' :
  reduceMissionCoordinatorEvent s e = Ok s' <->
  (missionCoordinatorEventSchema e = true /\ findReplay s e = Ok (Some e) /\ s' = s) \/
  coordinator_step s e s'.
Proof.
  split; [apply reduce_step_sound|].
  intros [(V & F & ->)|S]; [by apply reduce_replay_complete|by apply reduce_step_complete].
Qed.
End refinement.
