(* ===== verification/MissionReach.v ===== *)
(** * Reachable coordinator states: configuration, log and Messages

    The states [replayMissionCoordinatorEvents] can return, as an inductive
    predicate over the step relation of [MissionSteps]; the invariants that hold
    of the retained configuration, of the event log and of the Messages; and the
    event-sourcing properties: a state is the replay of its own log, a replayed
    event changes nothing, a reused identity is refused. *)

From S2P Require Import Prelude JsLib Schemas.
From S2P Require Import MissionEvents MissionCoordinator MissionExample MissionSteps.

(** ** Definitions *)

(** The state a valid configuration starts from. *)
Definition initial_state (cfg : MissionCoordinatorConfig) : MissionCoordinatorState :=
  let contract := cfg.(cfg_mission_context).(ctx_manifest).(man_shared_contract) in
  {| mission_context := cfg.(cfg_mission_context);
     required_verification_commands := cfg.(cfg_required_verification_commands);
     status := M_awaiting_acceptance; sequence_no := 0; turn_count := 0;
     contract_version := contract.(art_version); verification_round := 0;
     active_contract := contract; pending_revision := None; accepted_revisions := [];
     current_participant_agent_id := None; ready_agent_ids := []; verification_records := [];
     messages := []; applied_events := [] |}.

Inductive reachable `{Zod} (cfg : MissionCoordinatorConfig) : MissionCoordinatorState -> Prop :=
| reach_initial : missionCoordinatorConfigSchema cfg = true -> reachable cfg (initial_state cfg)
| reach_step s e s' : reachable cfg s -> coordinator_step s e s' -> reachable cfg s'.

Definition cfg_manifest (cfg : MissionCoordinatorConfig) : MissionManifest :=
  cfg.(cfg_mission_context).(ctx_manifest).

(** The turn a [turn_completed] event reports. *)
Definition turn_delivery (e : MissionCoordinatorEvent) : option string :=
  match e.(body) with TurnCompleted t => Some t.(tc_delivery_id) | _ => None end.
Definition turns (log : list MissionCoordinatorEvent) : list string := omap turn_delivery log.

(** Two events share an identity: the same event id or the same idempotency key. *)
Definition same_identity (a e : MissionCoordinatorEvent) : bool :=
  (event_id a === event_id e) || (event_key a === event_key e).

Record log_ok `{Zod} (cfg : MissionCoordinatorConfig) (s : MissionCoordinatorState) : Prop := {
  log_length : s.(sequence_no) = len s.(applied_events);
  log_entries : forall i e, s.(applied_events) !! i = Some e ->
    missionCoordinatorEventSchema e = true /\ event_sequence e = Z.of_nat i + 1 /\
    event_mission e = (cfg_manifest cfg).(man_mission_id);
  log_ids : NoDup (map event_id s.(applied_events));
  log_keys : NoDup (map event_key s.(applied_events));
  log_turns : NoDup (turns s.(applied_events)) /\ s.(turn_count) = len (turns s.(applied_events))
}.

Record messages_ok `{Zod} (cfg : MissionCoordinatorConfig) (s : MissionCoordinatorState) : Prop := {
  messages_entries : forall i m, s.(messages) !! i = Some m ->
    messageSchema m = true /\ m.(msg_mission_id) = (cfg_manifest cfg).(man_mission_id) /\
    m.(msg_sequence_no) = Z.of_nat i + 1 /\
    m.(msg_causal_parent_message_id) =
      match i with O => None | S j => msg_message_id <$> s.(messages) !! j end;
  messages_ids : NoDup (map msg_message_id s.(messages))
}.

(** ** Helper lemmas *)
Lemma sameStringSet_iff l k : sameStringSet l k = true <-> NoDup l /\ l ≡ₚ k.
Proof.
  unfold sameStringSet. rewrite !andb_true_iff, Z.eqb_eq, unique_values_iff, every_iff.
  setoid_rewrite includes_iff. split.
  - intros [[L N] I]. split; [done|].
    apply submseteq_length_Permutation; [by apply NoDup_submseteq|].
    unfold len in L. lia.
  - intros [N P]. split_and!; [unfold len; by rewrite P|done|].
    intros x. by rewrite P.
Qed.

Lemma omap_snoc {A B} (f : A -> option B) l x :
  omap f (l ++ [x]) = omap f l ++ match f x with Some y => [y] | None => [] end.
Proof. rewrite omap_app. cbn. by destruct (f x). Qed.

(** Reading a list one element longer. *)
Lemma lookup_snoc_inv {A} (l : list A) x i y :
  (l ++ [x]) !! i = Some y -> l !! i = Some y \/ (i = length l /\ y = x).
Proof.
  rewrite lookup_app_Some. intros [|[L E]]; [by left|right].
  apply list_lookup_singleton_Some in E as [E ->]. split; [lia|done].
Qed.

Lemma NoDup_map_snoc {A B} (f : A -> B) l x :
  NoDup (map f l) -> (forall y, y ∈ l -> f y <> f x) -> NoDup (map f (l ++ [x])).
Proof.
  intros N F. rewrite map_app. apply NoDup_app. split_and!; [done| |apply NoDup_singleton].
  intros y Hy Hx. apply list_elem_of_singleton in Hx as ->.
  change (map f l) with (f <$> l) in Hy. apply list_elem_of_fmap in Hy as (z & E & Hz).
  by apply (F z).
Qed.

Section reach.
Context `{Zod}.

Lemma cfg_participants cfg :
  missionCoordinatorConfigSchema cfg = true ->
  exists p q, participant_ids (cfg_manifest cfg) = [p; q] /\ p <> q /\
    uuidSchema p = true /\ uuidSchema q = true.
Proof.
  unfold missionCoordinatorConfigSchema, missionContextSchema, missionManifestSchema,
    missionManifestIssues, cfg_manifest, participant_ids.
  intros V. autorewrite with relay in V. bool_hyps.
  destruct (man_participants _) as [|p [|q [|]]];
    try (exfalso; match goal with L : len _ = 2 |- _ => unfold len in L; cbn in L; lia end).
  exists p.(part_agent_id), q.(part_agent_id).
  match goal with U' : hasUniqueValues (map part_agent_id _) = true, E' : every participantSchema _ = true |- _ =>
    rename U' into U, E' into E end.
  apply unique_values_iff in U. cbn in U. apply NoDup_cons in U as [U _]. cbn in E.
  unfold participantSchema in E.
  bool_hyps. split_and!; try done. intros Epq. apply U. rewrite Epq. left.
Qed.

Lemma cfg_manifest_facts cfg :
  missionCoordinatorConfigSchema cfg = true ->
  0 < (cfg_manifest cfg).(man_max_turns) <= 200 /\
  artifactRefSchema (cfg_manifest cfg).(man_shared_contract) = true /\
  (cfg_manifest cfg).(man_shared_contract).(art_version) = 1 /\
  (cfg_manifest cfg).(man_shared_contract).(art_type) ∈
    (cfg_manifest cfg).(man_allowed_artifact_types).
Proof.
  unfold missionCoordinatorConfigSchema, missionContextSchema, missionManifestSchema,
    sharedContractArtifactSchema, MAX_TURNS.
  intros V. autorewrite with relay in V. bool_hyps.
  unfold missionManifestIssues in *. autorewrite with relay in *. bool_hyps.
  split_and!; try done. by apply includes_iff.
Qed.

(** The verification plan names exactly the two participants, each with between
    one and sixteen distinct commands. *)
Lemma cfg_commands cfg p :
  missionCoordinatorConfigSchema cfg = true -> p ∈ participant_ids (cfg_manifest cfg) ->
  exists cs, cfg.(cfg_required_verification_commands) !! p = Some cs /\ NoDup cs /\
    1 <= len cs <= 16.
Proof.
  unfold missionCoordinatorConfigSchema, missionCoordinatorConfigIssues, cfg_manifest,
    requiredCommandsSchema.
  intros V Hp. autorewrite with relay in V. bool_hyps.
  match goal with S' : sameStringSet _ _ = true |- _ => rename S' into S end.
  apply sameStringSet_iff in S as [_ S]. rewrite S in Hp.
  unfold object_keys in Hp. pose proof Hp as Hk. apply list_elem_of_fmap in Hp as ([k cs] & -> & Hm).
  pose proof Hm as Hl. apply elem_of_map_to_list in Hl. exists cs. split; [done|].
  match goal with E' : every _ (map_to_list _) = true, U' : every no_issues _ = true |- _ =>
    rename E' into E, U' into U end.
  rewrite every_iff in E. rewrite every_iff in U. specialize (E _ Hm). cbn in E.
  specialize (U (issue_if (negb (unique_values cs))
    "Required verification command IDs must be unique per participant")).
  bool_hyps. rewrite no_issues_if, negb_true_iff, negb_false_iff, unique_values_iff in U.
  split; [|done]. apply U.
  apply list_elem_of_fmap. exists k. by rewrite Hl.
Qed.

Lemma cfg_commands_absent cfg p :
  missionCoordinatorConfigSchema cfg = true -> p ∉ participant_ids (cfg_manifest cfg) ->
  cfg.(cfg_required_verification_commands) !! p = None.
Proof.
  unfold missionCoordinatorConfigSchema, missionCoordinatorConfigIssues, cfg_manifest.
  intros V Hp. autorewrite with relay in V. bool_hyps.
  match goal with S' : sameStringSet _ _ = true |- _ => rename S' into S end.
  apply sameStringSet_iff in S as [_ S]. rewrite S in Hp.
  destruct (_ !! p) as [cs|] eqn:E; [|done]. destruct Hp.
  apply elem_of_map_to_list in E. by apply (list_elem_of_fmap_2 fst) in E.
Qed.

Lemma create_iff cfg s :
  createMissionCoordinatorState cfg = Ok s <->
  missionCoordinatorConfigSchema cfg = true /\ s = initial_state cfg.
Proof.
  unfold createMissionCoordinatorState.
  destruct (missionCoordinatorConfigSchema cfg) eqn:V; cbn [negb]; [|naive_solver].
  destruct (cfg_participants cfg V) as (p & q & E & Npq & _). fold (cfg_manifest cfg). rewrite E.
  destruct (cfg_commands cfg p V) as (cp & Ep & _); [rewrite E; left|].
  destruct (cfg_commands cfg q V) as (cq & Eq & _); [rewrite E; right; left|].
  cbn. rewrite Ep, Eq. cbn.
  replace (<[q:=cq]> (<[p:=cp]> ∅)) with (cfg_required_verification_commands cfg).
  - unfold initial_state, cfg_manifest. naive_solver congruence.
  - apply map_eq. intros x. destruct (decide (x = q)) as [->|Nq].
    { by rewrite lookup_insert_eq. }
    rewrite lookup_insert_ne by done. destruct (decide (x = p)) as [->|Np].
    { by rewrite lookup_insert_eq. }
    rewrite lookup_insert_ne, lookup_empty by done. apply cfg_commands_absent; [done|].
    rewrite E, !elem_of_cons, elem_of_nil. tauto.
Qed.

Lemma reachable_valid cfg s : reachable cfg s -> missionCoordinatorConfigSchema cfg = true.
Proof. by induction 1. Qed.

Lemma reduce_all_reachable cfg es s s' :
  reachable cfg s -> reduce_all s es = Ok s' -> reachable cfg s'.
Proof.
  revert s. induction es as [|e es IH]; cbn; intros s R.
  - by intros [= ->].
  - intros E. ok_step E; [|done]. apply reduce_step_sound in E0 as [(_ & _ & ->)|S]; eauto.
    eapply IH; [|done]. by eapply reach_step.
Qed.

Lemma replay_reachable cfg es s :
  replayMissionCoordinatorEvents cfg es = Ok s -> reachable cfg s.
Proof.
  unfold replayMissionCoordinatorEvents. intros E. ok_step E; [|done].
  apply create_iff in E0 as [V ->]. eapply reduce_all_reachable; [|done]. by apply reach_initial.
Qed.

(** ** What a step keeps *)
Lemma turn_limited_frame r :
  (turn_limited r).(mission_context) = r.(mission_context) /\
  (turn_limited r).(required_verification_commands) = r.(required_verification_commands) /\
  (turn_limited r).(turn_count) = r.(turn_count) /\
  (turn_limited r).(messages) = r.(messages) /\
  (turn_limited r).(contract_version) = r.(contract_version) /\
  (turn_limited r).(active_contract) = r.(active_contract) /\
  (turn_limited r).(accepted_revisions) = r.(accepted_revisions) /\
  (turn_limited r).(verification_round) = r.(verification_round).
Proof. unfold turn_limited. by destruct (_ && _). Qed.

Lemma turn_effect_frame s mid e r :
  turn_effect s mid e r ->
  r.(mission_context) = s.(mission_context) /\
  r.(required_verification_commands) = s.(required_verification_commands) /\
  r.(turn_count) = s.(turn_count) /\ r.(contract_version) = s.(contract_version) /\
  r.(active_contract) = s.(active_contract) /\ r.(accepted_revisions) = s.(accepted_revisions).
Proof. by intros []. Qed.

Lemma outcome_frame s p required records :
  let r := verification_outcome s p required records in
  r.(mission_context) = s.(mission_context) /\
  r.(required_verification_commands) = s.(required_verification_commands) /\
  r.(turn_count) = s.(turn_count) /\ r.(messages) = s.(messages) /\
  r.(contract_version) = s.(contract_version) /\ r.(active_contract) = s.(active_contract) /\
  r.(accepted_revisions) = s.(accepted_revisions) /\
  r.(pending_revision) = s.(pending_revision) /\
  r.(verification_round) = s.(verification_round).
Proof. unfold verification_outcome. by repeat destruct (_ : bool). Qed.

Lemma core_step_frame s id mid b r :
  core_step s id mid b r ->
  r.(mission_context) = s.(mission_context) /\
  r.(required_verification_commands) = s.(required_verification_commands) /\
  r.(turn_count) = s.(turn_count) + (match b with TurnCompleted _ => 1 | _ => 0 end).
Proof.
  intros []; cbn; rewrite ?Z.add_0_r; try done.
  - edestruct turn_limited_frame as (-> & -> & -> & _).
    by match goal with T : turn_effect _ _ _ _ |- _ =>
      apply turn_effect_frame in T as (-> & -> & -> & _) end.
  - by edestruct outcome_frame as (-> & -> & -> & _).
Qed.

Lemma reachable_static cfg s :
  reachable cfg s ->
  s.(mission_context) = cfg.(cfg_mission_context) /\
  s.(required_verification_commands) = cfg.(cfg_required_verification_commands).
Proof.
  induction 1 as [|s e s' _ [IH1 IH2] [r V F M Q T D C]]; [done|].
  apply core_step_frame in C as (C1 & C2 & _). cbn. by rewrite C1, C2.
Qed.

Lemma reachable_manifest cfg s : reachable cfg s -> state_manifest s = cfg_manifest cfg.
Proof. intros [E _]%reachable_static. unfold state_manifest, cfg_manifest. by rewrite E. Qed.

(** ** The log *)
Lemma turns_elem log d : d ∈ turns log <-> exists a, a ∈ log /\ is_turn_of d a = true.
Proof.
  unfold turns, is_turn_of, turn_delivery. rewrite list_elem_of_omap.
  split; intros (a & Ha & E); exists a; (split; [done|]); destruct (body a);
    try discriminate; [injection E as ->; by apply bool_decide_eq_true|].
  by bool_hyps; rewrite E.
Qed.

Lemma reachable_log cfg s : reachable cfg s -> log_ok cfg s.
Proof.
  induction 1 as [V|s e s' R [L E I K [U N]] [r V F M Q T D C]].
  { constructor; cbn; try done; try apply NoDup_nil_2. split; [apply NoDup_nil_2|done]. }
  apply reachable_manifest in R. apply core_step_frame in C as (_ & _ & C).
  constructor; cbn -[turns].
  - rewrite len_app, L. done.
  - intros i x [Hx|[-> ->]]%lookup_snoc_inv; [by apply E|].
    split_and!; [done| |by rewrite M, R]. rewrite Q, L. done.
  - apply NoDup_map_snoc; [done|]. intros a Ha. by apply F.
  - apply NoDup_map_snoc; [done|]. intros a Ha. by apply F.
  - rewrite C, N. unfold turns. rewrite omap_snoc.
    change (turn_delivery e) with
      (match body e with TurnCompleted t => Some t.(tc_delivery_id) | _ => None end).
    destruct (body e) as [|t| | |] eqn:B; rewrite ?app_nil_r, ?Z.add_0_r; try done.
    rewrite len_app. split; [|done]. apply NoDup_app. split_and!; [done| |apply NoDup_singleton].
    intros d Hd Hx. apply list_elem_of_singleton in Hx as ->.
    apply turns_elem in Hd as (a & Ha & Ea). by rewrite (D t a) in Ea.
Qed.

Lemma reduce_all_snoc s l e :
  reduce_all s (l ++ [e]) = let* s' := reduce_all s l in reduceMissionCoordinatorEvent s' e.
Proof.
  revert s. induction l as [|x l IH]; cbn; intros s.
  - by destruct (reduceMissionCoordinatorEvent s e).
  - destruct (reduceMissionCoordinatorEvent s x); [apply IH|done].
Qed.

(** The applied event with an identity is the only one. *)
Lemma identity_unique l a :
  NoDup (map event_id l) -> NoDup (map event_key l) -> a ∈ l ->
  array_filter (fun applied => same_identity applied a) l = [a].
Proof.
  induction l as [|x l IH]; cbn; intros I K Ha; [by apply not_elem_of_nil in Ha|].
  apply NoDup_cons in I as [Ix I]. apply NoDup_cons in K as [Kx K].
  change (map event_id l) with (event_id <$> l) in Ix.
  change (map event_key l) with (event_key <$> l) in Kx.
  apply elem_of_cons in Ha as [->|Ha].
  - unfold same_identity at 1. rewrite bool_decide_eq_true_2 by done. cbn. f_equal.
    apply array_filter_nil, some_identity. intros y Hy.
    split; intros E; [apply Ix|apply Kx]; rewrite <-E; by apply list_elem_of_fmap_2.
  - assert (same_identity x a = false) as ->; [|by apply IH].
    apply orb_false_iff. rewrite !bool_decide_eq_false.
    split; intros E; [apply Ix|apply Kx]; rewrite E; by apply list_elem_of_fmap_2.
Qed.

Lemma reachable_replay cfg s a :
  reachable cfg s -> a ∈ s.(applied_events) -> reduceMissionCoordinatorEvent s a = Ok s.
Proof.
  intros R%reachable_log Ha.
  destruct R as [_ E I K _]. apply list_elem_of_lookup in Ha as Hi. destruct Hi as [i Hi].
  apply reduce_replay_complete; [by eapply E|]. unfold findReplay.
  change (fun applied => _ || _) with (fun applied => same_identity applied a).
  by rewrite identity_unique.
Qed.

(** ** Messages *)
Lemma message_snoc cfg s m :
  messages_ok cfg s -> messageSchema m = true ->
  m.(msg_mission_id) = (cfg_manifest cfg).(man_mission_id) ->
  m.(msg_sequence_no) = len s.(messages) + 1 ->
  m.(msg_causal_parent_message_id) = msg_message_id <$> at_last s.(messages) ->
  fresh_message s m ->
  messages_ok cfg (s <| messages := s.(messages) ++ [m] |>).
Proof.
  intros [E N] V M Q P F. constructor; cbn.
  - intros i x Hx. apply lookup_snoc_inv in Hx as [Hx|[-> ->]].
    + pose proof (lookup_lt_Some _ _ _ Hx). apply E in Hx as (? & ? & ? & Hp).
      split_and!; try done. destruct i as [|j]; [done|]. by rewrite lookup_app_l by lia.
    + split_and!; try done. rewrite P, at_last_lookup.
      destruct s.(messages) as [|y l]; [done|]. cbn [length pred]. by rewrite lookup_app_l by (cbn; lia).
  - apply NoDup_map_snoc; [done|]. intros y Hy. by apply F.
Qed.

Lemma messages_ok_same cfg s r :
  r.(messages) = s.(messages) -> messages_ok cfg s -> messages_ok cfg r.
Proof. intros E [A B]. constructor; by rewrite E. Qed.

Lemma turn_body_valid e t :
  missionCoordinatorEventSchema e = true -> e.(body) = TurnCompleted t ->
  turnDispositionSchema t.(tc_disposition) = true /\
  (forall m, t.(tc_message) = Some m -> messageSchema m = true) /\
  (forall r, t.(tc_revision) = Some r -> contractRevisionSchema r = true).
Proof.
  unfold missionCoordinatorEventSchema, rawEventBodySchema. intros V B. rewrite B in V.
  bool_hyps. split_and!; [done| |]; intros x Ex; rewrite Ex in *; done.
Qed.

Lemma reachable_messages cfg s : reachable cfg s -> messages_ok cfg s.
Proof.
  induction 1 as [V|s e s' R IH [r V F M Q T D C]].
  { constructor; cbn; [done|apply NoDup_nil_2]. }
  apply reachable_manifest in R. rewrite R in M. apply (messages_ok_same _ r); [done|].
  destruct (body e) as [|t| | |] eqn:B; inversion C; subst; try by apply (messages_ok_same _ s).
  - eapply messages_ok_same; [apply turn_limited_frame|].
    destruct (turn_body_valid e t V B) as (_ & Vm & _).
    match goal with X : turn_effect _ _ _ _ |- _ => destruct X end;
      try by apply (messages_ok_same _ s).
    apply (messages_ok_same _ (s <| messages := s.(messages) ++ [m] |>)); [done|].
    apply message_snoc; auto. congruence.
  - eapply messages_ok_same; [apply outcome_frame|done].
Qed.

(** ** Properties *)

(** C18: event sourcing is faithful: whatever sequence of events produced a state,
    repetitions included, replaying the log the state carries rebuilds exactly
    that state. *)
Theorem replay_own_log cfg es s :
  replayMissionCoordinatorEvents cfg es = Ok s ->
  replayMissionCoordinatorEvents cfg s.(applied_events) = Ok s.
Proof.
  intros R%replay_reachable. unfold replayMissionCoordinatorEvents.
  pose proof (reachable_valid _ _ R) as V.
  rewrite (proj2 (create_iff cfg _) (conj V eq_refl)). cbn beta iota.
  induction R as [_|s e s' R IH S]; [done|].
  pose proof S as S'. destruct S' as [r _ F M Q T D C]. 
  change (applied_events (r <| sequence_no := s.(sequence_no) + 1 |>
                            <| applied_events := s.(applied_events) ++ [e] |>)) with (applied_events s ++ [e]).
  rewrite reduce_all_snoc, IH. by apply reduce_step_complete.
Qed.

(** Redelivery is harmless and identities are never reused.  In every state
    the reducer can produce: any sequence of already applied events leaves the
    state as it is; and an event that shares its id or its idempotency key with
    an applied event but differs from it is refused as an identity conflict. *)
Theorem redelivery_idempotent cfg es s :
  replayMissionCoordinatorEvents cfg es = Ok s ->
  (forall again, (forall a, a ∈ again -> a ∈ s.(applied_events)) -> reduce_all s again = Ok s) /\
  (forall a e, a ∈ s.(applied_events) -> missionCoordinatorEventSchema e = true ->
     same_identity a e = true -> a <> e ->
     reduceMissionCoordinatorEvent s e = Err (throws "event_identity_conflict")).
Proof.
  intros R%replay_reachable. split.
  - induction again as [|a again IH]; cbn; intros A; [done|].
    rewrite (reachable_replay cfg) by (done || apply A; left). apply IH. intros x Hx. apply A.
    by right.
  - intros a e Ha V I N. unfold reduceMissionCoordinatorEvent, findReplay. rewrite V. cbn [negb].
    change (fun applied => _ || _) with (fun applied => same_identity applied e).
    assert (Hf : a ∈ array_filter (fun x => same_identity x e) s.(applied_events))
      by (by apply elem_of_array_filter).
    destruct (array_filter _ _) as [|x [|]]; [by apply not_elem_of_nil in Hf| |done].
    apply list_elem_of_singleton in Hf as <-. by rewrite bool_decide_eq_false_2.
Qed.
End reach.

(** ** Witnesses *)
#[local] Existing Instance example_zod.

Lemma replay_own_log_witness :
  replayMissionCoordinatorEvents ex_cfg (ex_events ++ ex_prefix) = Ok (ex_run ex_events) /\
  replayMissionCoordinatorEvents ex_cfg (ex_run ex_events).(applied_events) =
    Ok (ex_run ex_events).
Proof.
  assert (E : replayMissionCoordinatorEvents ex_cfg (ex_events ++ ex_prefix) =
              Ok (ex_run ex_events)) by (vm_compute; reflexivity).
  split; [exact E|]. apply (replay_own_log ex_cfg (ex_events ++ ex_prefix)). exact E.
Defined.

Lemma redelivery_idempotent_witness :
  reduce_all (ex_run ex_events) (ex_prefix ++ ex_prefix) = Ok (ex_run ex_events) /\
  reduceMissionCoordinatorEvent (ex_run ex_events) (ex_event 10 "1" (ex_ack ex_agent_a "")) =
    Err ZodError /\
  reduceMissionCoordinatorEvent (ex_run ex_events)
    (ex_event 10 "1" (ex_ack ex_agent_a (ex_delivery "9"))) =
    Err (throws "event_identity_conflict").
Proof.
  assert (E : replayMissionCoordinatorEvents ex_cfg ex_events = Ok (ex_run ex_events))
    by (vm_compute; reflexivity).
  destruct (redelivery_idempotent ex_cfg ex_events (ex_run ex_events) E) as [I C].
  split; [|split; [vm_compute; reflexivity|]].
  - apply I. apply Forall_forall. decide_now.
  - apply (C (ex_event 1 "1" (ParticipantsAccepted {|
               pa_participant_agent_ids := [ex_agent_a; ex_agent_b];
               pa_contract := ex_artifact 1 |}))).
    + decide_now.
    + vm_compute. reflexivity.
    + vm_compute. reflexivity.
    + decide_now.
Defined.
