(* ===== verification/MissionContract.v ===== *)
(** * Shared-contract invariants of the coordinator

    The versions of the shared contract are consecutive from 1, every accepted
    revision was acknowledged by both participants in events of the log, and the
    active contract is the artifact of the last accepted revision. *)

From S2P Require Import Prelude JsLib Schemas.
From S2P Require Import MissionEvents MissionCoordinator MissionExample MissionSteps MissionReach.

(** ** Definitions *)

(** The log holds the acknowledgement of [r] by [p]. *)
Definition acknowledged_in (log : list MissionCoordinatorEvent) (r : ContractRevision) (p : string)
    : Prop :=
  exists a c, a ∈ log /\ a.(body) = ContractAcknowledged c /\
    c.(ca_participant_agent_id) = p /\ c.(ca_revision_id) = r.(rev_revision_id) /\
    c.(ca_contract_version) = r.(rev_version) /\ c.(ca_artifact) = r.(rev_artifact).

(** [r] is a valid revision of this Mission's contract to version [v]. *)
Record revision_ok `{Zod} (cfg : MissionCoordinatorConfig) (log : list MissionCoordinatorEvent)
    (v : Z) (r : ContractRevision) : Prop := {
  revision_schema : contractRevisionSchema r = true;
  revision_mission : r.(rev_mission_id) = (cfg_manifest cfg).(man_mission_id);
  revision_version : r.(rev_version) = v;
  revision_artifact :
    r.(rev_artifact).(art_artifact_id) = (cfg_manifest cfg).(man_shared_contract).(art_artifact_id) /\
    r.(rev_artifact).(art_type) = (cfg_manifest cfg).(man_shared_contract).(art_type) /\
    r.(rev_artifact).(art_version) = v;
  revision_acks : forall p, p ∈ r.(rev_acknowledged_by_agent_ids) ->
    p ∈ participant_ids (cfg_manifest cfg) /\ acknowledged_in log r p
}.

(** The contract in force after a list of accepted revisions. *)
Definition contract_after (cfg : MissionCoordinatorConfig) (accepted : list ContractRevision)
    : ArtifactRef :=
  match at_last accepted with
  | None => (cfg_manifest cfg).(man_shared_contract)
  | Some r => r.(rev_artifact)
  end.

Record contract_ok `{Zod} (cfg : MissionCoordinatorConfig) (s : MissionCoordinatorState) : Prop := {
  contract_count : s.(contract_version) = 1 + len s.(accepted_revisions);
  contract_revisions : forall i r, s.(accepted_revisions) !! i = Some r ->
    revision_ok cfg s.(applied_events) (Z.of_nat i + 2) r /\
    r.(rev_acknowledged_by_agent_ids) ≡ₚ participant_ids (cfg_manifest cfg);
  contract_active : s.(active_contract) = contract_after cfg s.(accepted_revisions);
  contract_pending : forall r, s.(pending_revision) = Some r ->
    revision_ok cfg s.(applied_events) (s.(contract_version) + 1) r /\ fresh_revision s r /\
    len r.(rev_acknowledged_by_agent_ids) <= 1;
  contract_ids : NoDup (map rev_revision_id s.(accepted_revisions))
}.

(** ** Lemmas *)
Section contract.
Context `{Zod}.

Lemma revision_ok_log cfg log log' v r :
  (forall a, a ∈ log -> a ∈ log') -> revision_ok cfg log v r -> revision_ok cfg log' v r.
Proof.
  intros L [S M V A P]. constructor; try done. intros p Hp. destruct (P p Hp) as (? & a & c & ?).
  split; [done|]. exists a, c. naive_solver.
Qed.

Lemma revision_facts r :
  contractRevisionSchema r = true ->
  artifactRefSchema r.(rev_artifact) = true /\ r.(rev_artifact).(art_version) = r.(rev_version) /\
  NoDup r.(rev_acknowledged_by_agent_ids) /\ len r.(rev_acknowledged_by_agent_ids) <= 2 /\
  r.(rev_version) <= 1000000.
Proof.
  unfold contractRevisionSchema, contractRevisionIssues, contractVersionSchema.
  intros V. autorewrite with relay in V. bool_hyps. split_and!; try done. by apply unique_values_iff.
Qed.

(** Steps that touch neither the revisions nor the contract. *)
Lemma contract_ok_same cfg s r :
  (forall a, a ∈ s.(applied_events) -> a ∈ r.(applied_events)) ->
  r.(contract_version) = s.(contract_version) -> r.(active_contract) = s.(active_contract) ->
  r.(accepted_revisions) = s.(accepted_revisions) ->
  r.(pending_revision) = s.(pending_revision) \/ r.(pending_revision) = None ->
  contract_ok cfg s -> contract_ok cfg r.
Proof.
  intros L V A C P [K R T Pe N]. constructor; unfold fresh_revision; rewrite ?V, ?A, ?C; try done.
  - intros i x Hx. destruct (R i x Hx). split; [by eapply revision_ok_log|done].
  - intros x Hx. destruct P as [P|P]; rewrite P in Hx; [|done].
    destruct (Pe x Hx) as (? & ? & ?). split_and!; try done. by eapply revision_ok_log.
Qed.

(** The pending revision gets one more acknowledgement, which the log records. *)
Lemma acknowledge_ok cfg log v e c r :
  e.(body) = ContractAcknowledged c ->
  c.(ca_participant_agent_id) ∈ participant_ids (cfg_manifest cfg) ->
  c.(ca_revision_id) = r.(rev_revision_id) -> c.(ca_contract_version) = r.(rev_version) ->
  c.(ca_artifact) = r.(rev_artifact) ->
  contractRevisionSchema (acknowledge r c.(ca_participant_agent_id)) = true ->
  revision_ok cfg log v r ->
  revision_ok cfg (log ++ [e]) v (acknowledge r c.(ca_participant_agent_id)).
Proof.
  intros B P I V A S [S' M V' A' P']. constructor; try done. cbn.
  intros p [Hp|Hp%list_elem_of_singleton]%elem_of_app.
  - destruct (P' p Hp) as (? & a & x & Hx & ?). split; [done|]. exists a, x.
    rewrite elem_of_app. tauto.
  - subst p. split; [done|]. exists e, c. split_and!; try done.
    apply elem_of_app. right. by apply list_elem_of_singleton.
Qed.

(** Acknowledgements of part of the two participants are at most one. *)
Lemma partial_acks cfg l :
  missionCoordinatorConfigSchema cfg = true -> NoDup l ->
  (forall p, p ∈ l -> p ∈ participant_ids (cfg_manifest cfg)) ->
  sameStringSet l (participant_ids (cfg_manifest cfg)) = false -> len l <= 1.
Proof.
  intros (p & q & E & _)%cfg_participants N I S. rewrite E in *.
  destruct (decide (len l <= 1)) as [|G]; [done|].
  enough (sameStringSet l [p; q] = true) by congruence.
  apply sameStringSet_iff. split; [done|].
  apply submseteq_length_Permutation; [by apply NoDup_submseteq|].
  unfold len in G. cbn. lia.
Qed.

Lemma contract_ok_propose cfg s mid e t r :
  missionCoordinatorConfigSchema cfg = true -> mid = (cfg_manifest cfg).(man_mission_id) ->
  missionCoordinatorEventSchema e = true -> e.(body) = TurnCompleted t ->
  contract_ok cfg s -> turn_effect s mid t r ->
  contract_ok cfg (r <| applied_events := s.(applied_events) ++ [e] |>).
Proof.
  intros Cfg M V B Ok C. destruct (turn_body_valid e t V B) as (_ & _ & Vr).
  assert (L : forall a, a ∈ s.(applied_events) -> a ∈ s.(applied_events) ++ [e])
    by (intros a Ha; apply elem_of_app; by left).
  destruct C; try (apply (contract_ok_same cfg s); auto; done).
  match goal with F : fresh_revision _ _ |- _ => rename F into Fr end.
  destruct Ok as [K R T Pe N]. constructor; cbn; try done.
  - intros i x Hx. destruct (R i x Hx). split; [by eapply revision_ok_log|done].
  - intros x [= <-]. split_and!; [|exact Fr|].
    + assert (A : art_artifact_id s.(active_contract) =
                    art_artifact_id (man_shared_contract (cfg_manifest cfg)) /\
                  art_type s.(active_contract) = art_type (man_shared_contract (cfg_manifest cfg))).
      { rewrite T. unfold contract_after. rewrite at_last_lookup.
        destruct (_ !! _) as [y|] eqn:Hy; [|done]. by apply R in Hy as [[_ _ _ (? & ? & _) _] _]. }
      destruct A as [A1 A2]. pose proof (revision_facts r (Vr r ltac:(assumption))) as (_ & Va & _).
      constructor; [auto|congruence|done|split_and!; congruence|].
      intros p Hp. replace (rev_acknowledged_by_agent_ids r) with (@nil string) in Hp by done.
      by apply not_elem_of_nil in Hp.
    + replace (rev_acknowledged_by_agent_ids r) with (@nil string) by done. done.
Qed.

Lemma contract_ok_ack cfg s id mid e c r :
  missionCoordinatorConfigSchema cfg = true -> reachable cfg s ->
  e.(body) = ContractAcknowledged c ->
  contract_ok cfg s -> core_step s id mid (ContractAcknowledged c) r ->
  contract_ok cfg (r <| applied_events := s.(applied_events) ++ [e] |>).
Proof.
  intros Cfg Re B Ok C.
  assert (L : forall a, a ∈ s.(applied_events) -> a ∈ s.(applied_events) ++ [e])
    by (intros a Ha; apply elem_of_app; by left).
  inversion C as [| | |c' r' A Pe Cu In I V Ar Na S P|c' r' o A Pe Cu In I V Ar Na S P O|]; subst;
    unfold missionParticipantIds in *; rewrite (reachable_manifest cfg s Re) in In, P;
    destruct Ok as [K R T Q N]; destruct (Q r' Pe) as (Qr & Qf & Ql);
    pose proof (acknowledge_ok _ _ _ e c r' B In I V Ar S Qr) as Qa; constructor; cbn; try done.
  - intros i x Hx. destruct (R i x Hx). split; [by eapply revision_ok_log|done].
  - intros x [= <-]. split_and!; [done|done|].
    eapply partial_acks; [done| |apply Qa|done]. by apply revision_facts.
  - rewrite len_app, len_cons, len_nil. destruct Qr as [_ _ Qv _ _]. cbn. lia.
  - intros i x Hx. apply lookup_snoc_inv in Hx as [Hx|[-> ->]].
    + destruct (R i x Hx). split; [by eapply revision_ok_log|done].
    + apply sameStringSet_iff in P as [_ P]. split; [|exact P].
      replace (Z.of_nat (length (accepted_revisions s)) + 2) with (contract_version s + 1); [done|].
      rewrite K. unfold len. lia.
  - unfold contract_after. by rewrite at_last_snoc.
  - apply NoDup_map_snoc; [done|]. intros y Hy. by apply Qf.
Qed.

Lemma reachable_contract cfg s : reachable cfg s -> contract_ok cfg s.
Proof.
  induction 1 as [V|s e s' R IH [r V F M Q T D C]].
  { destruct (cfg_manifest_facts cfg V) as (_ & _ & Ve & _).
    constructor; cbn; try done. apply NoDup_nil_2. }
  pose proof (reachable_valid _ _ R) as Cfg. rewrite (reachable_manifest _ _ R) in M.
  set (s1 := r <| applied_events := s.(applied_events) ++ [e] |>).
  enough (K : contract_ok cfg s1) by (apply (contract_ok_same cfg s1); cbn; auto).
  destruct (body e) as [|t|c|v|] eqn:B; [| |by eapply contract_ok_ack| |].
  - inversion C; subst. apply (contract_ok_same cfg s); cbn; auto. intros a Ha. apply elem_of_app. auto.
  - inversion C; subst.
    match goal with X : turn_effect _ _ _ ?x |- _ => rename X into Te, x into r' end.
    destruct (turn_limited_frame r') as (_ & _ & _ & _ & F1 & F2 & F3 & _).
    apply (contract_ok_same cfg (r' <| applied_events := s.(applied_events) ++ [e] |>)); cbn; auto.
    + unfold turn_limited. destruct (_ && _); cbn; auto.
    + change s.(applied_events) with (s <| turn_count := s.(turn_count) + 1 |>).(applied_events).
      apply (contract_ok_propose _ _ _ e t r' Cfg M V B); [|exact Te].
      apply (contract_ok_same cfg s); cbn; auto.
  - inversion C; subst.
    destruct (outcome_frame s (vr_participant_agent_id v) required
      (s.(verification_records) ++ [record_of (event_id e) v]))
      as (_ & _ & _ & _ & F1 & F2 & F3 & F4 & _).
    apply (contract_ok_same cfg s); cbn; auto. intros a Ha. apply elem_of_app. auto.
  - inversion C; subst. apply (contract_ok_same cfg s); cbn; auto. intros a Ha. apply elem_of_app. auto.
Qed.

(** The active contract is a valid artifact, of an allowed type, at the current version. *)
Lemma active_contract_facts cfg s :
  missionCoordinatorConfigSchema cfg = true -> contract_ok cfg s ->
  artifactRefSchema s.(active_contract) = true /\
  s.(active_contract).(art_version) = s.(contract_version) /\
  s.(active_contract).(art_type) ∈ (cfg_manifest cfg).(man_allowed_artifact_types).
Proof.
  intros (_ & Sa & Sv & St)%cfg_manifest_facts [K R T _ _]. rewrite T, K. unfold contract_after.
  rewrite at_last_lookup. destruct (_ !! _) as [r|] eqn:E.
  - pose proof (lookup_lt_Some _ _ _ E). apply R in E as [[V _ _ (_ & Et & Ev) _] _].
    split_and!; [by apply revision_facts| |by rewrite Et]. rewrite Ev. unfold len. lia.
  - split_and!; [done| |done]. rewrite Sv. destruct s.(accepted_revisions); [done|].
    apply lookup_ge_None in E. cbn in E. lia.
Qed.

(** The shared contract only moves by agreement.  In every state the reducer
    can produce, the accepted revisions carry the consecutive versions 2, 3, ...,
    each was acknowledged by both participants in events of the log that name the
    same revision, version and artifact, and the active contract is the artifact
    of the last of them (the Mission's original contract when there is none), at
    the state's contract version. *)
Theorem contract_by_agreement cfg es s :
  replayMissionCoordinatorEvents cfg es = Ok s ->
  s.(contract_version) = 1 + len s.(accepted_revisions) /\
  s.(active_contract) = contract_after cfg s.(accepted_revisions) /\
  s.(active_contract).(art_version) = s.(contract_version) /\
  forall i r, s.(accepted_revisions) !! i = Some r ->
    r.(rev_version) = Z.of_nat i + 2 /\ r.(rev_artifact).(art_version) = Z.of_nat i + 2 /\
    r.(rev_artifact).(art_artifact_id) = (cfg_manifest cfg).(man_shared_contract).(art_artifact_id) /\
    forall p, p ∈ participant_ids (cfg_manifest cfg) -> acknowledged_in s.(applied_events) r p.
Proof.
  intros R%replay_reachable. pose proof (reachable_valid _ _ R) as V.
  apply reachable_contract in R as K. destruct (active_contract_facts cfg s V K) as (_ & Av & _).
  destruct K as [C A T _ _]. split_and!; try done.
  intros i r Hr. destruct (A i r Hr) as [[_ _ Ve (Ai & _ & Ar) P] Pe]. split_and!; try done.
  intros p Hp. apply P. by rewrite Pe.
Qed.
End contract.

#[local] Existing Instance example_zod.

Lemma contract_by_agreement_witness :
  (ex_run ex_events).(contract_version) = 2 /\
  len (ex_run ex_events).(accepted_revisions) = 1 /\
  (ex_run ex_events).(active_contract).(art_version) = 2.
Proof.
  assert (E : replayMissionCoordinatorEvents ex_cfg ex_events = Ok (ex_run ex_events))
    by (vm_compute; reflexivity).
  destruct (contract_by_agreement ex_cfg ex_events (ex_run ex_events) E) as (V & _ & A & _).
  assert (L : len (ex_run ex_events).(accepted_revisions) = 1) by (vm_compute; reflexivity).
  split; [|split]; [rewrite V, L; reflexivity|exact L|rewrite A, V, L; reflexivity].
Defined.
