(* ===== verification/MissionSchedule.v ===== *)
(** * Whose turn it is: the coordinator's phases and its work budget

    In every reachable state exactly one kind of work is scheduled: the
    acceptance, a turn of one participant, the acknowledgement of a pending
    revision, the verification of a ready contract, or nothing.  The phases are
    an inductive predicate; the budget bounds Messages, revisions, rounds and
    the length of the log by the Mission's [max_turns]. *)

From S2P Require Import Prelude JsLib Schemas.
From S2P Require Import MissionEvents MissionCoordinator MissionExample MissionSteps MissionReach.
From S2P Require Import MissionContract.

(** ** Definitions *)

(** The log holds the verification event this record was made from. *)
Definition recorded_in (log : list MissionCoordinatorEvent) (r : MissionVerificationRecord) : Prop :=
  exists a v, a ∈ log /\ a.(body) = VerificationRecorded v /\ r = record_of (event_id a) v.

Definition record_key (r : MissionVerificationRecord) : string * string :=
  (r.(vrec_participant_agent_id), r.(vrec_evidence).(vev_command_id)).

(** The participant and command of every verification the Mission requires. *)
Definition required_keys (cfg : MissionCoordinatorConfig) : list (string * string) :=
  concat (map (fun p => map (pair p) (default [] (cfg.(cfg_required_verification_commands) !! p)))
            (participant_ids (cfg_manifest cfg))).

Record records_ok `{Zod} (cfg : MissionCoordinatorConfig) (log : list MissionCoordinatorEvent)
    (s : MissionCoordinatorState) : Prop := {
  records_current : forall r, r ∈ s.(verification_records) ->
    r.(vrec_contract_version) = s.(contract_version) /\
    r.(vrec_verification_round) = s.(verification_round);
  records_required : forall r, r ∈ s.(verification_records) -> record_key r ∈ required_keys cfg;
  records_logged : forall r, r ∈ s.(verification_records) -> recorded_in log r;
  records_distinct : NoDup (map record_key s.(verification_records))
}.

(** No participant has all its commands recorded with a failure among them, and
    some command has not passed yet. *)
Record undecided (cfg : MissionCoordinatorConfig) (s : MissionCoordinatorState) : Prop := {
  undecided_clean : forall p cs, cfg.(cfg_required_verification_commands) !! p = Some cs ->
    allParticipantCommandsRecorded cs (records_of p s.(verification_records)) = true ->
    some_failed (records_of p s.(verification_records)) = false;
  undecided_open : allRequiredCommandsPassed s s.(verification_records) = false
}.

(** While [p] has the turn, nobody or only the other participant is ready. *)
Definition ready_before (cfg : MissionCoordinatorConfig) (p : string) (ready : list string) : Prop :=
  ready = [] \/ exists q, ready = [q] /\ q ∈ participant_ids (cfg_manifest cfg) /\ q <> p.

Inductive phase `{Zod} (cfg : MissionCoordinatorConfig) (log : list MissionCoordinatorEvent)
    (s : MissionCoordinatorState) : Prop :=
| ph_awaiting :
    s.(status) = M_awaiting_acceptance -> log = [] -> s.(pending_revision) = None ->
    s.(current_participant_agent_id) = None -> s.(ready_agent_ids) = [] ->
    s.(verification_records) = [] -> phase cfg log s
| ph_turn p :
    s.(status) = M_active -> s.(turn_count) < (cfg_manifest cfg).(man_max_turns) ->
    s.(pending_revision) = None -> s.(current_participant_agent_id) = Some p ->
    p ∈ participant_ids (cfg_manifest cfg) -> ready_before cfg p s.(ready_agent_ids) ->
    s.(verification_records) = [] -> phase cfg log s
| ph_acknowledgement r :
    s.(status) = M_active -> s.(turn_count) < (cfg_manifest cfg).(man_max_turns) ->
    s.(pending_revision) = Some r ->
    r.(rev_proposed_by_agent_id) ∈ participant_ids (cfg_manifest cfg) ->
    s.(current_participant_agent_id) = None -> s.(ready_agent_ids) = [] -> s.(verification_records) = [] -> phase cfg log s
| ph_verifying :
    s.(status) = M_verifying -> s.(pending_revision) = None ->
    s.(current_participant_agent_id) = None ->
    sameStringSet s.(ready_agent_ids) (participant_ids (cfg_manifest cfg)) = true ->
    records_ok cfg log s -> undecided cfg s -> phase cfg log s
| ph_completed :
    s.(status) = M_completed -> s.(pending_revision) = None ->
    s.(current_participant_agent_id) = None ->
    sameStringSet s.(ready_agent_ids) (participant_ids (cfg_manifest cfg)) = true ->
    records_ok cfg log s -> allRequiredCommandsPassed s s.(verification_records) = true ->
    phase cfg log s
| ph_stopped :
    s.(status) = M_expired \/ s.(status) = M_failed -> s.(pending_revision) = None ->
    s.(current_participant_agent_id) = None -> s.(ready_agent_ids) = [] ->
    s.(verification_records) = [] -> phase cfg log s.

(** Acknowledgements received by the pending revision. *)
Definition pending_acks (s : MissionCoordinatorState) : Z :=
  match s.(pending_revision) with
  | None => 0
  | Some r => len r.(rev_acknowledged_by_agent_ids)
  end.

Record budget (s : MissionCoordinatorState) : Prop := {
  budget_turns :
    len s.(messages) + len s.(accepted_revisions) +
    (if is_null s.(pending_revision) then 0 else 1) + 2 * s.(verification_round) +
    (if s.(status) === M_active then len s.(ready_agent_ids) else 0) <= s.(turn_count);
  budget_log :
    len s.(applied_events) <=
    (if isTerminal s.(status) then 3 else if s.(status) === M_awaiting_acceptance then 0 else 1) +
    s.(turn_count) + 2 * len s.(accepted_revisions) + pending_acks s +
    32 * s.(verification_round) -
    (if s.(status) === M_verifying then 32 - len s.(verification_records) else 0);
  budget_round : 0 <= s.(verification_round) /\ (s.(status) = M_verifying -> 1 <= s.(verification_round))
}.

(** [e] is the event the log expects next, apart from its body. *)
Definition next_event `{Zod} (s : MissionCoordinatorState) (e : MissionCoordinatorEvent) : Prop :=
  missionCoordinatorEventSchema e = true /\ fresh_event s e /\
  event_mission e = (state_manifest s).(man_mission_id) /\ event_sequence e = s.(sequence_no) + 1.

(** The reducer takes [e]. *)
Definition accepts `{Zod} (s : MissionCoordinatorState) (e : MissionCoordinatorEvent) : Prop :=
  exists s', reduceMissionCoordinatorEvent s e = Ok s'.

(** The state waits for participant [p] to do something. *)
Definition waits_for (cfg : MissionCoordinatorConfig) (s : MissionCoordinatorState) (p : string)
    : Prop :=
  s.(status) = M_awaiting_acceptance \/ s.(current_participant_agent_id) = Some p \/
  (exists r, s.(pending_revision) = Some r /\ p ∉ r.(rev_acknowledged_by_agent_ids)) \/
  (s.(status) = M_verifying /\
   exists cs c, cfg.(cfg_required_verification_commands) !! p = Some cs /\ c ∈ cs /\
     forall r, r ∈ s.(verification_records) -> record_key r <> (p, c)).

(** What [p] can always answer with: accept the Mission, declare itself ready,
    acknowledge the pending revision, report the outcome of a missing command. *)
Inductive answer (cfg : MissionCoordinatorConfig) (s : MissionCoordinatorState) (p : string)
    : EventBody -> Prop :=
| answer_accept :
    s.(status) = M_awaiting_acceptance ->
    answer cfg s p (ParticipantsAccepted
      {| pa_participant_agent_ids := participant_ids (cfg_manifest cfg);
         pa_contract := (cfg_manifest cfg).(man_shared_contract) |})
| answer_turn d :
    s.(current_participant_agent_id) = Some p -> d ∉ turns s.(applied_events) ->
    answer cfg s p (TurnCompleted
      {| tc_participant_agent_id := p; tc_delivery_id := d;
         tc_contract_version := s.(contract_version); tc_disposition := Ready [];
         tc_message := None; tc_revision := None |})
| answer_acknowledge r d :
    s.(pending_revision) = Some r -> p ∉ r.(rev_acknowledged_by_agent_ids) ->
    answer cfg s p (ContractAcknowledged
      {| ca_participant_agent_id := p; ca_delivery_id := d;
         ca_revision_id := r.(rev_revision_id); ca_contract_version := r.(rev_version);
         ca_artifact := r.(rev_artifact) |})
| answer_verify d v cs :
    s.(status) = M_verifying -> cfg.(cfg_required_verification_commands) !! p = Some cs ->
    v.(vev_command_id) ∈ cs -> v.(vev_artifacts) = [] -> fresh_evidence s p v ->
    answer cfg s p (VerificationRecorded
      {| vr_participant_agent_id := p; vr_delivery_id := d;
         vr_contract_version := s.(contract_version);
         vr_verification_round := s.(verification_round); vr_evidence := v |}).

(** The retained configuration of a state. *)
Definition retains (cfg : MissionCoordinatorConfig) (s : MissionCoordinatorState) : Prop :=
  state_manifest s = cfg_manifest cfg /\
  s.(required_verification_commands) = cfg.(cfg_required_verification_commands).

(** ** Lemmas *)
#[local] Arguments records_of : simpl never.
#[local] Arguments some_failed : simpl never.

Section schedule.
Context `{Zod}.

(** *** Participants and commands *)
Lemma other_of_cfg cfg s p o :
  state_manifest s = cfg_manifest cfg -> other_of s p o ->
  o ∈ participant_ids (cfg_manifest cfg) /\ o <> p.
Proof.
  unfold other_of, missionParticipantIds. intros -> [F _]. apply array_find_Some in F as [? F].
  bool_hyps. done.
Qed.

Lemma required_keys_elem cfg p c :
  missionCoordinatorConfigSchema cfg = true ->
  (p, c) ∈ required_keys cfg <->
  exists cs, cfg.(cfg_required_verification_commands) !! p = Some cs /\ c ∈ cs.
Proof.
  intros V. unfold required_keys. split.
  - intros Hc. apply list_elem_of_In, in_concat in Hc as (l & Hl & Hc).
    apply in_map_iff in Hl as (x & <- & Hx). apply in_map_iff in Hc as (y & [= -> ->] & Hy).
    apply list_elem_of_In in Hx, Hy. destruct (cfg_commands cfg p V Hx) as (cs & E & _).
    rewrite E in Hy. by exists cs.
  - intros (cs & E & Hc). apply list_elem_of_In, in_concat. exists (map (pair p) cs).
    split; [|by apply in_map, list_elem_of_In].
    apply in_map_iff. exists p. rewrite E. split; [done|]. apply list_elem_of_In.
    destruct (decide (p ∈ participant_ids (cfg_manifest cfg))) as [|N]; [done|].
    by rewrite (cfg_commands_absent cfg p V N) in E.
Qed.

Lemma required_keys_length cfg :
  missionCoordinatorConfigSchema cfg = true -> len (required_keys cfg) <= 32.
Proof.
  intros V. destruct (cfg_participants cfg V) as (p & q & E & _). unfold required_keys.
  destruct (cfg_commands cfg p V) as (cp & Ep & _ & Lp); [rewrite E; left|].
  destruct (cfg_commands cfg q V) as (cq & Eq & _ & Lq); [rewrite E; right; left|].
  rewrite E. cbn. rewrite Ep, Eq. cbn. autorewrite with relay. lia.
Qed.

Lemma records_bound cfg log s :
  missionCoordinatorConfigSchema cfg = true -> records_ok cfg log s ->
  len s.(verification_records) <= 32.
Proof.
  intros V [_ R _ D]. pose proof (required_keys_length cfg V) as L.
  rewrite <-(len_map record_key). unfold len in *.
  enough (map record_key s.(verification_records) ⊆+ required_keys cfg) as S
    by (apply submseteq_length in S; lia).
  apply NoDup_submseteq; [done|]. intros k Hk.
  change (map record_key ?l) with (record_key <$> l) in Hk.
  apply list_elem_of_fmap in Hk as (r & -> & Hr). by apply R.
Qed.

(** A command without a record has not passed. *)
Lemma passed_recorded s records p cs c :
  allRequiredCommandsPassed s records = true -> p ∈ missionParticipantIds s ->
  s.(required_verification_commands) !! p = Some cs -> c ∈ cs ->
  exists r, r ∈ records /\ record_key r = (p, c) /\
    r.(vrec_contract_version) = s.(contract_version) /\
    r.(vrec_verification_round) = s.(verification_round) /\
    r.(vrec_evidence).(vev_outcome) = O_passed.
Proof.
  unfold allRequiredCommandsPassed. intros A Hp E Hc. rewrite every_iff in A.
  apply A in Hp. rewrite E, every_iff in Hp. apply Hp, some_iff in Hc as (r & Hr & B).
  bool_hyps. exists r. unfold record_key. split_and!; congruence.
Qed.

Lemma records_of_elem p records r :
  r ∈ records_of p records <-> r ∈ records /\ r.(vrec_participant_agent_id) = p.
Proof. unfold records_of. by rewrite elem_of_array_filter, bool_decide_eq_true. Qed.

Lemma passed_all_recorded s records p cs :
  allRequiredCommandsPassed s records = true -> p ∈ missionParticipantIds s ->
  s.(required_verification_commands) !! p = Some cs ->
  allParticipantCommandsRecorded cs (records_of p records) = true.
Proof.
  intros A Hp E. apply every_iff. intros c Hc.
  destruct (passed_recorded s records p cs c A Hp E Hc) as (r & Hr & K & _).
  injection K as Kp Kc. apply some_iff. exists r. rewrite records_of_elem, Kc.
  split; [done|]. by apply bool_decide_eq_true.
Qed.

Lemma undecided_start cfg s :
  missionCoordinatorConfigSchema cfg = true -> retains cfg s -> s.(verification_records) = [] ->
  undecided cfg s.
Proof.
  intros V [M Q] N. constructor; rewrite N; [done|].
  destruct (allRequiredCommandsPassed s []) eqn:A; [|done].
  destruct (cfg_participants cfg V) as (p & q & E & _).
  destruct (cfg_commands cfg p V) as (cs & Ep & _ & L); [rewrite E; left|].
  destruct cs as [|c cs]; [unfold len in L; cbn in L; lia|].
  destruct (passed_recorded s [] p (c :: cs) c A) as (r & Hr & _).
  - unfold missionParticipantIds. rewrite M, E. left.
  - by rewrite Q.
  - left.
  - by apply not_elem_of_nil in Hr.
Qed.

Lemma records_ok_same cfg log s r :
  r.(verification_records) = s.(verification_records) ->
  r.(contract_version) = s.(contract_version) -> r.(verification_round) = s.(verification_round) ->
  records_ok cfg log s -> records_ok cfg log r.
Proof. intros A B C [W X Y Z]. constructor; by rewrite ?A, ?B, ?C. Qed.

Lemma records_ok_nil cfg log s : s.(verification_records) = [] -> records_ok cfg log s.
Proof.
  intros N. constructor; rewrite N; try (intros r Hr; by apply not_elem_of_nil in Hr).
  apply NoDup_nil_2.
Qed.

(** *** Turns *)
Lemma phase_closed cfg log s st :
  st = M_expired \/ st = M_failed -> phase cfg log (closed s st).
Proof. intros E. by apply ph_stopped. Qed.

Lemma ready_first_nil cfg p ready :
  missionCoordinatorConfigSchema cfg = true -> p ∈ participant_ids (cfg_manifest cfg) ->
  ready_before cfg p ready ->
  sameStringSet (ready ++ [p]) (participant_ids (cfg_manifest cfg)) = false -> ready = [].
Proof.
  intros (x & y & E & N & _)%cfg_participants Hp [->|(q & -> & Hq & D)] S; [done|].
  exfalso. apply not_true_iff_false in S. apply S, sameStringSet_iff. rewrite E in *.
  rewrite !elem_of_cons, elem_of_nil in Hp, Hq. split.
  - cbn. rewrite !NoDup_cons, list_elem_of_singleton, elem_of_nil.
    split_and!; [done|tauto|apply NoDup_nil_2].
  - destruct Hp as [->|[->|[]]], Hq as [->|[->|[]]]; try done. apply Permutation_swap.
Qed.

Lemma phase_turn cfg log log' s id mid e r :
  missionCoordinatorConfigSchema cfg = true -> retains cfg s -> phase cfg log s ->
  core_step s id mid (TurnCompleted e) r -> phase cfg log' r.
Proof.
  intros V [M Q] Ph C. inversion C as [?|?|e' r' A Pe Cu Ve Li Te| | |]; subst.
  destruct Ph as [?|p _ Tl _ Cu' Hp Rb Rc|? ? ? ?|?|?|[?|?]]; try congruence.
  rewrite Cu in Cu'. injection Cu' as <-.
  unfold turn_limited. replace (state_manifest r') with (cfg_manifest cfg)
    by (apply turn_effect_frame in Te as (F & _); unfold state_manifest; rewrite F, <-M; done).
  destruct (_ && _) eqn:L; [apply phase_closed; by right|].
  destruct Te; cbn in L; rewrite ?A in L;
    try (rewrite (bool_decide_eq_true_2 (M_active = M_active)) in L by done); cbn in L; bool_hyps.
  - match goal with O : other_of _ _ _ |- _ => apply (other_of_cfg cfg) in O as [? ?]; [|done] end.
    eapply ph_turn; cbn; eauto. by left.
  - eapply ph_acknowledgement; cbn; eauto. congruence.
  - apply ph_verifying; cbn; try done.
    + by rewrite <-M.
    + by apply records_ok_nil.
    + by apply undecided_start.
  - match goal with O : other_of _ _ _ |- _ => apply (other_of_cfg cfg) in O as [? ?]; [|done] end.
    match goal with S : sameStringSet _ _ = false |- _ => rename S into S' end.
    unfold missionParticipantIds in S'. cbn in S'. change (state_manifest _) with (state_manifest s) in S'.
    rewrite M in S'. eapply ph_turn; cbn; eauto. right. exists e.(tc_participant_agent_id).
    by rewrite (ready_first_nil cfg _ _ V Hp Rb S').
Qed.

Lemma phase_ack cfg log log' s id mid e r :
  retains cfg s -> phase cfg log s -> core_step s id mid (ContractAcknowledged e) r ->
  phase cfg log' r.
Proof.
  intros [M Q] Ph C.
  inversion C as [?|?|?|e' r' A Pe Cu|e' r' o A Pe Cu In I V Ar Na S P O|]; subst;
    destruct Ph as [?|?|r0 _ Tl Pe' Pr _ Rb Rc|?|?|[?|?]]; try congruence.
  - rewrite Pe in Pe'. injection Pe' as <-. by eapply ph_acknowledgement.
  - apply (other_of_cfg cfg) in O as [? ?]; [|done]. eapply ph_turn; cbn; eauto. by left.
Qed.

(** *** Verification *)
Lemma records_ok_snoc cfg log s e v cs :
  missionCoordinatorConfigSchema cfg = true -> retains cfg s -> records_ok cfg log s ->
  e.(body) = VerificationRecorded v ->
  v.(vr_contract_version) = s.(contract_version) ->
  v.(vr_verification_round) = s.(verification_round) ->
  s.(required_verification_commands) !! v.(vr_participant_agent_id) = Some cs ->
  v.(vr_evidence).(vev_command_id) ∈ cs ->
  fresh_evidence s v.(vr_participant_agent_id) v.(vr_evidence) ->
  records_ok cfg (log ++ [e])
    (s <| verification_records := s.(verification_records) ++ [record_of (event_id e) v] |>).
Proof.
  intros V [M Q] [Cr Rq Lg D] B Ve Ro E Hc [_ Fr]. constructor; cbn.
  - intros r [Hr| ->%list_elem_of_singleton]%elem_of_app; [by apply Cr|done].
  - intros r [Hr| ->%list_elem_of_singleton]%elem_of_app; [by apply Rq|].
    apply required_keys_elem; [done|]. exists cs. by rewrite <-Q.
  - intros r [Hr| ->%list_elem_of_singleton]%elem_of_app.
    + destruct (Lg r Hr) as (a & x & Ha & ?). exists a, x. rewrite elem_of_app. tauto.
    + exists e, v. split_and!; try done. apply elem_of_app. right. by apply list_elem_of_singleton.
  - apply NoDup_map_snoc; [done|]. intros r Hr [= Kp Kc]. by apply (Fr r).
Qed.

Lemma records_of_snoc p records r :
  records_of p (records ++ [r]) =
  records_of p records ++ (if r.(vrec_participant_agent_id) === p then [r] else []).
Proof. unfold records_of. rewrite array_filter_app. cbn. by destruct (_ === _). Qed.

Lemma phase_verification cfg log s e v mid r :
  missionCoordinatorConfigSchema cfg = true -> retains cfg s -> phase cfg log s ->
  e.(body) = VerificationRecorded v ->
  core_step s (event_id e) mid (VerificationRecorded v) r -> phase cfg (log ++ [e]) r.
Proof.
  intros V [M Q] Ph B C. inversion C as [?|?|?|?|?|v' cs A Pe Cu Ve Ro Ec Hc Fr Al]; subst.
  destruct Ph as [?|?|?|_ _ _ Rd Ok [Un Uo]|?|[?|?]]; try congruence.
  pose proof (records_ok_snoc cfg log s e v cs V (conj M Q) Ok B Ve Ro Ec Hc Fr) as Ok'.
  pose proof (cfg_participants cfg V) as (x & y & Exy & _).
  assert (Hp : v.(vr_participant_agent_id) ∈ participant_ids (cfg_manifest cfg)).
  { destruct (decide (vr_participant_agent_id v ∈ participant_ids (cfg_manifest cfg)))
      as [|N]; [done|]. rewrite Q, (cfg_commands_absent cfg _ V N) in Ec. done. }
  set (records := s.(verification_records) ++ [record_of (event_id e) v]) in *.
  assert (Other : forall p cs', p <> v.(vr_participant_agent_id) ->
    cfg.(cfg_required_verification_commands) !! p = Some cs' ->
    allParticipantCommandsRecorded cs' (records_of p records) = true ->
    some_failed (records_of p records) = false).
  { intros p cs' Np Ep. unfold records. rewrite records_of_snoc, bool_decide_eq_false_2 by (cbn; congruence).
    rewrite app_nil_r. by apply Un. }
  unfold verification_outcome. fold records.
  destruct (allParticipantCommandsRecorded cs _) eqn:All; cbn [negb].
  - destruct (some_failed _) eqn:Bad.
    + destruct (_ <=? _) eqn:Re; bool_hyps.
      * eapply ph_turn; cbn; eauto; [|by left]. unfold missionParticipantIds in Re.
        rewrite M, Exy in Re. unfold len in Re. cbn in Re. lia.
      * eapply ph_stopped; cbn; auto.
    + destruct (allRequiredCommandsPassed s records) eqn:Pa; cbn [negb].
      * apply ph_completed; try done. by eapply records_ok_same; [..|exact Ok'].
      * apply ph_verifying; try done. constructor; cbn; [|done]. intros p cs' Ep Ap.
        destruct (decide (p = v.(vr_participant_agent_id))) as [->|Np]; [done|by eapply Other].
  - apply ph_verifying; try done. constructor; cbn.
    + intros p cs' Ep Ap.
      destruct (decide (p = v.(vr_participant_agent_id))) as [->|Np]; [|by eapply Other].
      rewrite Q in Ec. replace cs' with cs in Ap by congruence. by rewrite All in Ap.
    + destruct (allRequiredCommandsPassed s records) eqn:Pa; [|done].
      rewrite (passed_all_recorded s records _ cs Pa) in All; try done.
      unfold missionParticipantIds. by rewrite M.
Qed.

Lemma phase_log_fields cfg log s n l :
  phase cfg log s -> phase cfg log (s <| sequence_no := n |> <| applied_events := l |>).
Proof.
  intros [].
  - by eapply ph_awaiting.
  - by eapply ph_turn.
  - by eapply ph_acknowledgement.
  - match goal with R : records_ok _ _ _, U : undecided _ _ |- _ => destruct R, U end.
    by apply ph_verifying.
  - match goal with R : records_ok _ _ _ |- _ => destruct R end. by apply ph_completed.
  - by apply ph_stopped.
Qed.

Lemma reachable_retains cfg s : reachable cfg s -> retains cfg s.
Proof.
  intros R. split; [by apply reachable_manifest|by apply reachable_static].
Qed.

Lemma reachable_phase cfg s : reachable cfg s -> phase cfg s.(applied_events) s.
Proof.
  induction 1 as [V|s e s' R IH [r V F M Q T D C]]; [by apply ph_awaiting|].
  pose proof (reachable_valid _ _ R) as Cfg. pose proof (reachable_retains _ _ R) as Rt.
  apply (phase_log_fields cfg (s.(applied_events) ++ [e]) r).
  destruct (body e) as [a|t|c|v|x] eqn:B.
  - inversion C; subst. destruct (cfg_participants cfg Cfg) as (p & q & E & _).
    destruct IH as [? ? ? ? ? ?|?|?|?|?|[?|?]]; try congruence.
    destruct Rt as [Mn _]. unfold missionParticipantIds. rewrite Mn, E.
    eapply ph_turn; cbn; eauto; [|rewrite E; left|by left].
    pose proof (reachable_log _ _ R) as [_ _ _ _ [_ Tc]].
    match goal with N : applied_events s = [] |- _ => rewrite N in Tc end.
    pose proof (cfg_manifest_facts cfg Cfg) as [L _]. cbn in Tc. unfold len in Tc. cbn in Tc. lia.
  - by eapply phase_turn.
  - by eapply phase_ack.
  - by eapply phase_verification.
  - inversion C; subst. apply phase_closed. destruct (_ === _); auto.
Qed.

(** *** The budget *)

(** Evaluate the tests on known statuses in the goal and the hypotheses. *)
Ltac decide_statuses :=
  unfold isTerminal in *;
  repeat match goal with
  | H : context [bool_decide (?a = ?b :> MissionStatus)] |- _ =>
      let v := eval vm_compute in (bool_decide (a = b)) in
      match v with true => idtac | false => idtac end; change (bool_decide (a = b)) with v in H
  | |- context [bool_decide (?a = ?b :> MissionStatus)] =>
      let v := eval vm_compute in (bool_decide (a = b)) in
      match v with true => idtac | false => idtac end; change (bool_decide (a = b)) with v
  end; cbn [orb] in *.

Ltac budget_close :=
  cbn in *; unfold pending_acks in *; cbn in *;
  repeat match goal with
  | E : status _ = _ |- _ => rewrite E in *
  | E : pending_revision _ = _ |- _ => rewrite E in *
  | E : ready_agent_ids _ = _ |- _ => rewrite E in *
  | E : verification_records _ = _ |- _ => rewrite E in *
  end;
  decide_statuses; autorewrite with relay in *; cbn in *;
  repeat match goal with
  | |- context [len ?l] => lazymatch goal with L : 0 <= len l |- _ => fail | _ => pose proof (len_nonneg l) end
  | H : context [len ?l] |- _ => lazymatch goal with L : 0 <= len l |- _ => fail | _ => pose proof (len_nonneg l) end
  end; try lia; try congruence.

Lemma budget_terminal cfg s e id mid x r :
  missionCoordinatorConfigSchema cfg = true -> phase cfg s.(applied_events) s ->
  contract_ok cfg s -> budget s -> core_step s id mid (MissionTerminal x) r ->
  budget (r <| sequence_no := s.(sequence_no) + 1 |> <| applied_events := s.(applied_events) ++ [e] |>).
Proof.
  intros V Ph K [Bt Bl [B1 B2]] C. inversion C; subst.
  assert (E : exists st, (if mt_terminal_status x === TS_expired then M_expired else M_failed) = st /\
                isTerminal st = true /\ (st === M_active) = false /\ (st === M_verifying) = false)
    by (destruct (mt_terminal_status x === TS_expired); eexists; split_and!; reflexivity).
  destruct E as (st & -> & T1 & T2 & T3).
  destruct Ph as [?|p ? ? ? ? ? ?|r' ? ? Pe|? ? ? ? Ok ?|?|[?|?]]; try (exfalso; naive_solver congruence).
  - constructor; cbn -[len isTerminal]; rewrite ?T1, ?T2, ?T3; [| |split; [done|intros ->; done]]; budget_close.
  - pose proof (contract_pending _ _ K _ Pe) as (_ & _ & L).
    constructor; cbn -[len isTerminal]; rewrite ?T1, ?T2, ?T3; [| |split; [done|intros ->; done]]; budget_close.
  - pose proof (records_bound cfg _ s V Ok) as L.
    constructor; cbn -[len isTerminal]; rewrite ?T1, ?T2, ?T3; [| |split; [done|intros ->; done]]; budget_close.
Qed.

Lemma budget_turn cfg s e id mid x r :
  missionCoordinatorConfigSchema cfg = true -> retains cfg s -> phase cfg s.(applied_events) s ->
  budget s -> core_step s id mid (TurnCompleted x) r ->
  budget (r <| sequence_no := s.(sequence_no) + 1 |> <| applied_events := s.(applied_events) ++ [e] |>).
Proof.
  intros V [M Q] Ph [Bt Bl [B1 B2]] C.
  inversion C as [|?|e' r' A Pe Cu Ve Li Te|?|?|?]; subst.
  destruct Ph as [?|p _ Tl _ Cu' Hp Rb Rc|?|?|?|[?|?]]; try congruence.
  rewrite Cu in Cu'. injection Cu' as <-.
  assert (Rd : len s.(ready_agent_ids) <= 1).
  { by destruct Rb as [->|(q & -> & _)]. }
  assert (Rl : sameStringSet (s.(ready_agent_ids) ++ [x.(tc_participant_agent_id)])
                 (missionParticipantIds s) = true -> len s.(ready_agent_ids) = 1).
  { intros [_ S]%sameStringSet_iff. apply Permutation_length in S.
    destruct (cfg_participants cfg V) as (y & z & E & _). unfold missionParticipantIds in S.
    rewrite M, E, length_app in S. unfold len. cbn in S. lia. }
  destruct Te; try match goal with S : sameStringSet _ _ = true |- _ => specialize (Rl S) end;
    unfold turn_limited; destruct (_ && _); constructor; try (split; [|intros ?]); budget_close.
Qed.

Lemma budget_ack cfg s e id mid x r :
  phase cfg s.(applied_events) s -> contract_ok cfg s -> budget s ->
  core_step s id mid (ContractAcknowledged x) r ->
  budget (r <| sequence_no := s.(sequence_no) + 1 |> <| applied_events := s.(applied_events) ++ [e] |>).
Proof.
  intros Ph K [Bt Bl [B1 B2]] C.
  inversion C as [?|?|?|e' r' A Pe Cu|e' r' o A Pe Cu In I V Ar Na S P O|?]; subst;
    destruct Ph as [?|?|r0 _ Tl Pe' _ _ Rb Rc|?|?|[?|?]]; try congruence;
    destruct (contract_pending _ _ K _ Pe) as (_ & _ & L);
    constructor; try (split; [|intros ?]); budget_close.
Qed.

Lemma budget_verification s e v mid r :
  len s.(verification_records) + 1 <= 32 -> budget s ->
  core_step s (event_id e) mid (VerificationRecorded v) r ->
  budget (r <| sequence_no := s.(sequence_no) + 1 |> <| applied_events := s.(applied_events) ++ [e] |>).
Proof.
  intros Lr [Bt Bl [B1 B2]] C.
  inversion C as [?|?|?|?|?|v' cs A Pe Cu Ve Ro Ec Hc Fr Al]; subst.
  specialize (B2 A). unfold verification_outcome.
  destruct (negb (allParticipantCommandsRecorded _ _)); [|destruct (some_failed _);
    [destruct (_ <=? _)|destruct (negb (allRequiredCommandsPassed _ _))]];
    constructor; try (split; [|intros ?]); budget_close.
Qed.

Lemma reachable_budget cfg s : reachable cfg s -> budget s.
Proof.
  induction 1 as [V|s e s' R IH [r V F M Q T D C]].
  { constructor; [vm_compute; discriminate|vm_compute; discriminate|by split]. }
  pose proof (reachable_valid _ _ R) as Cfg. pose proof (reachable_retains _ _ R) as Rt.
  pose proof (reachable_phase _ _ R) as Ph. pose proof (reachable_contract _ _ R) as K.
  destruct (body e) as [a|t|c|v|x] eqn:B.
  - destruct IH as [Bt Bl [B1 B2]]. inversion C; subst.
    destruct Ph as [?|?|?|?|?|[?|?]]; try congruence.
    constructor; try (split; [|intros ?]); budget_close.
  - by eapply budget_turn.
  - by eapply budget_ack.
  - eapply budget_verification; [|done|done].
    inversion C as [?|?|?|?|?|v' cs A Pe Cu Ve Ro Ec Hc Fr Al]; subst.
    destruct Ph as [?|?|?|_ _ _ Rd Ok Un|?|[?|?]]; try congruence.
    pose proof (records_ok_snoc cfg _ s e v cs Cfg Rt Ok B Ve Ro Ec Hc Fr) as Ok'.
    apply (records_bound cfg _ _ Cfg) in Ok'. cbn in Ok'. by rewrite len_app in Ok'.
  - by eapply budget_terminal.
Qed.

Lemma turn_count_max cfg s : reachable cfg s -> s.(turn_count) <= (cfg_manifest cfg).(man_max_turns).
Proof.
  induction 1 as [V|s e s' R IH [r V F M Q T D C]].
  { pose proof (cfg_manifest_facts cfg V) as [L _]. cbn. lia. }
  pose proof (reachable_manifest _ _ R) as Mn. cbn.
  destruct (core_step_frame _ _ _ _ _ C) as (_ & _ & ->).
  destruct (body e) as [a|t|c|v|x]; rewrite ?Z.add_0_r; try done.
  inversion C; subst. rewrite Mn in *. lia.
Qed.

(** *** Every scheduled piece of work can be done *)

Lemma accepts_step s e r :
  next_event s e -> isTerminal s.(status) = false ->
  (forall t, e.(body) = TurnCompleted t -> t.(tc_delivery_id) ∉ turns s.(applied_events)) ->
  core_step s (event_id e) (event_mission e) e.(body) r -> accepts s e.
Proof.
  intros (V & F & M & Q) T D C. eexists. apply reduce_step_complete.
  apply coordinator_step_intro; eauto. intros t a B Ha.
  destruct (is_turn_of _ a) eqn:I; [|done]. destruct (D t B). apply turns_elem. by exists a.
Qed.

Lemma other_of_exists `{!ZodLaws} cfg s p :
  missionCoordinatorConfigSchema cfg = true -> retains cfg s ->
  p ∈ participant_ids (cfg_manifest cfg) -> exists o, other_of s p o.
Proof.
  intros (x & y & E & N & Ux & Uy)%cfg_participants [M _] Hp.
  unfold other_of, missionParticipantIds. rewrite M, E in *.
  assert (Ne : forall u, uuidSchema u = true -> u <> "").
  { intros u Hu ->. unfold uuidSchema in Hu. by rewrite zod_uuid_empty in Hu. }
  rewrite !elem_of_cons, elem_of_nil in Hp. destruct Hp as [->|[->|[]]].
  - exists y. cbn. rewrite bool_decide_eq_true_2 by done. cbn.
    rewrite bool_decide_eq_false_2 by done. auto.
  - exists x. cbn. rewrite bool_decide_eq_false_2 by done. auto.
Qed.

Lemma undecided_missing cfg s :
  missionCoordinatorConfigSchema cfg = true -> retains cfg s ->
  records_ok cfg s.(applied_events) s -> undecided cfg s ->
  exists p cs c, p ∈ participant_ids (cfg_manifest cfg) /\
    s.(required_verification_commands) !! p = Some cs /\ c ∈ cs /\
    forall r, r ∈ s.(verification_records) -> record_key r <> (p, c).
Proof.
  intros V [M Q] [Cr _ _ _] [Un Uo].
  apply every_false in Uo as (p & Hp & Uo). unfold missionParticipantIds in Hp. rewrite M in Hp.
  destruct (cfg_commands cfg p V Hp) as (cs & Ep & _). rewrite Q, Ep in Uo.
  apply every_false in Uo as (c & Hc & Uo). rewrite some_false_iff in Uo.
  destruct (allParticipantCommandsRecorded cs (records_of p s.(verification_records))) eqn:All.
  - exfalso. pose proof (Un p cs Ep All) as Cl. unfold some_failed in Cl.
    rewrite some_false_iff in Cl. unfold allParticipantCommandsRecorded in All.
    rewrite every_iff in All. apply All, some_iff in Hc as (r & Hr & Kc).
    pose proof (Cl r Hr) as No. apply records_of_elem in Hr as [Hr Kp].
    destruct (Cr r Hr) as [K1 K2]. specialize (Uo r Hr).
    rewrite Kp, K1, K2, !bool_decide_eq_true_2, Kc in Uo by done. bool_hyps.
    cbn in Uo. bool_hyps. by destruct (vev_outcome _).
  - apply every_false in All as (c' & Hc' & Mi). exists p, cs, c'. rewrite Q.
    split_and!; try done. intros r Hr [= Kp Kc]. rewrite some_false_iff in Mi.
    assert (Hp' : r ∈ records_of p s.(verification_records)) by (by apply records_of_elem).
    apply Mi in Hp'. by bool_hyps.
Qed.

Lemma acknowledge_schema r p :
  contractRevisionSchema r = true -> uuidSchema p = true ->
  p ∉ r.(rev_acknowledged_by_agent_ids) -> len r.(rev_acknowledged_by_agent_ids) <= 1 ->
  contractRevisionSchema (acknowledge r p) = true.
Proof.
  unfold contractRevisionSchema, contractRevisionIssues, hasUniqueValues. cbn.
  intros V U N L. autorewrite with relay in *. bool_hyps.
  rewrite !andb_true_iff. split_and!; try done; try (by apply Z.ltb_lt);
    try (apply Z.leb_le; rewrite ?len_app, ?len_cons, ?len_nil; lia).
  - apply every_iff. intros x [Hx| ->%list_elem_of_singleton]%elem_of_app; [|done].
    match goal with E : every uuidSchema _ = true |- _ => rewrite every_iff in E; by apply E end.
  - by apply negb_true_iff, negb_false_iff, bool_decide_eq_true.
  - by apply negb_true_iff, negb_false_iff, bool_decide_eq_true.
  - apply negb_true_iff, negb_false_iff, unique_values_iff, NoDup_app.
    split_and!; [by apply unique_values_iff| |apply NoDup_singleton].
    intros x Hx Hp%list_elem_of_singleton. by subst.
Qed.

Lemma answer_accepted `{!ZodLaws} cfg s p e :
  reachable cfg s -> p ∈ participant_ids (cfg_manifest cfg) -> next_event s e ->
  answer cfg s p e.(body) -> accepts s e.
Proof.
  intros R Hp N A. pose proof (reachable_valid _ _ R) as V.
  pose proof (reachable_retains _ _ R) as Rt. pose proof (reachable_phase _ _ R) as Ph.
  pose proof (reachable_contract _ _ R) as K. pose proof Rt as [Mn Rq].
  destruct (other_of_exists cfg s p V Rt Hp) as [o Ho].
  inversion A as [St B|d Cu D B|r d Pe Na B|d v cs St Ec Hc Va Fr B]; symmetry in B.
  - destruct Ph as [? Le ? ? ? ?|?|?|?|?|[?|?]]; try congruence.
    eapply accepts_step; try done; [by rewrite St|by rewrite B|]. rewrite B.
    apply cs_accepted; cbn; try done; [|by rewrite Mn]. apply sameStringSet_iff.
    unfold missionParticipantIds. rewrite Mn. split; [|done].
    destruct (cfg_participants cfg V) as (x & y & -> & Nxy & _).
    rewrite !NoDup_cons, list_elem_of_singleton, elem_of_nil. split_and!; [done|tauto|apply NoDup_nil_2].
  - destruct Ph as [?|q St Tl ? Cu' ? ? ?|?|?|?|[?|?]]; try congruence.
    assert (Te : exists r, turn_effect (s <| turn_count := s.(turn_count) + 1 |>) (event_mission e)
      {| tc_participant_agent_id := p; tc_delivery_id := d;
         tc_contract_version := s.(contract_version); tc_disposition := Ready [];
         tc_message := None; tc_revision := None |} r).
    { destruct (sameStringSet (s.(ready_agent_ids) ++ [p]) (missionParticipantIds s)) eqn:S.
      - eexists. eapply te_ready_both; try done. intros a Ha. by apply not_elem_of_nil in Ha.
      - eexists. eapply (te_ready_first _ _ _ [] o); try done. intros a Ha. by apply not_elem_of_nil in Ha. }
    destruct Te as [r Te]. eapply (accepts_step s e (turn_limited r)); try done; [by rewrite St| |].
    + rewrite B. intros t [= <-]. done.
    + rewrite B. apply cs_turn; try done. by rewrite Mn.
  - destruct Ph as [?|?|? St Tl Pe' Pr ? ? ?|?|?|[?|?]]; try congruence.
    destruct (contract_pending _ _ K _ Pe) as ([Sc _ _ _ _] & _ & Ln).
    assert (Up : uuidSchema p = true).
    { destruct (cfg_participants cfg V) as (x & y & E & _ & Ux & Uy). rewrite E in Hp.
      rewrite !elem_of_cons, elem_of_nil in Hp. by destruct Hp as [->|[->|[]]]. }
    pose proof (acknowledge_schema r p Sc Up Na Ln) as Sa.
    assert (Ip : p ∈ missionParticipantIds s) by (unfold missionParticipantIds; by rewrite Mn).
    destruct (sameStringSet (acknowledge r p).(rev_acknowledged_by_agent_ids)
                (missionParticipantIds s)) eqn:Al.
    + assert (Op : exists o', other_of s r.(rev_proposed_by_agent_id) o').
      { rewrite Pe in Pe'. injection Pe' as <-. by eapply other_of_exists. }
      destruct Op as [o' Ho']. eapply accepts_step; try done; [by rewrite St|by rewrite B|].
      rewrite B. by eapply cs_ack_final.
    + eapply accepts_step; try done; [by rewrite St|by rewrite B|].
      rewrite B. by eapply cs_ack_partial.
  - destruct Ph as [?|?|?|_ Pe Cu Rd Ok Un|?|[?|?]]; try congruence.
    eapply accepts_step; try done; [by rewrite St|by rewrite B|]. rewrite B.
    apply (cs_verification _ _ _ _ cs); cbn; try done; [by rewrite Rq|].
    rewrite Va. intros a Ha. by apply not_elem_of_nil in Ha.
Qed.

Lemma waits_for_someone cfg s :
  reachable cfg s -> isTerminal s.(status) = false ->
  exists p, p ∈ participant_ids (cfg_manifest cfg) /\ waits_for cfg s p.
Proof.
  intros R T. pose proof (reachable_valid _ _ R) as V. pose proof (reachable_retains _ _ R) as Rt.
  destruct (cfg_participants cfg V) as (x & y & E & Nxy & _).
  destruct (reachable_phase _ _ R) as [St ? ? ? ? ?|p ? ? ? Cu Hp ? ?|r St ? Pe ? ? ? ?|
    St ? ? ? Ok Un|St ? ? ? ? ?|[St|St] ? ? ? ?]; try (rewrite St in T; by vm_compute in T).
  - exists x. split; [rewrite E; left|by left].
  - exists p. split; [done|]. right. by left.
  - destruct (contract_pending _ _ (reachable_contract _ _ R) _ Pe) as (_ & _ & Ln).
    destruct (decide (x ∈ r.(rev_acknowledged_by_agent_ids))) as [Hx|Hx];
      [exists y|exists x]; (split; [rewrite E; repeat constructor|right; right; left; exists r]);
      (split; [done|]); [|done].
    destruct r.(rev_acknowledged_by_agent_ids) as [|u [|w l]].
    + by apply not_elem_of_nil.
    + apply list_elem_of_singleton in Hx as ->. intros Hy%list_elem_of_singleton. by subst.
    + unfold len in Ln. cbn in Ln. lia.
  - destruct (undecided_missing cfg s V Rt Ok Un) as (p & cs & c & Hp & Ep & Hc & No).
    exists p. split; [done|]. right. right. right. split; [done|]. exists cs, c.
    destruct Rt as [_ <-]. done.
Qed.

Lemma phase_records_bound cfg log s :
  missionCoordinatorConfigSchema cfg = true -> phase cfg log s ->
  len s.(verification_records) <= 32.
Proof.
  intros V Ph. apply (records_bound cfg log); [done|].
  destruct Ph; try done; by apply records_ok_nil.
Qed.

Lemma pending_acks_bound cfg s :
  reachable cfg s -> pending_acks s <= if is_null s.(pending_revision) then 0 else 1.
Proof.
  intros R. unfold pending_acks. destruct s.(pending_revision) as [r|] eqn:Pe; [|done].
  by destruct (contract_pending _ _ (reachable_contract _ _ R) _ Pe) as (_ & _ & ?).
Qed.

(** The length of the log and the amount of work, in terms of the turn limit. *)
Lemma reachable_bounds cfg s :
  reachable cfg s ->
  len s.(messages) + len s.(accepted_revisions) + 2 * s.(verification_round) <= s.(turn_count) /\
  0 <= s.(verification_round) /\ s.(turn_count) <= (cfg_manifest cfg).(man_max_turns) <= 200 /\
  len s.(applied_events) <= 3 + 17 * (cfg_manifest cfg).(man_max_turns).
Proof.
  intros R. destruct (reachable_budget _ _ R) as [Bt Bl [Br _]].
  pose proof (turn_count_max _ _ R) as Tm. pose proof (pending_acks_bound _ _ R) as Pa.
  pose proof (reachable_valid _ _ R) as V. destruct (cfg_manifest_facts cfg V) as [Lm _].
  pose proof (phase_records_bound _ _ _ V (reachable_phase _ _ R)) as Lr.
  pose proof (len_nonneg s.(ready_agent_ids)). pose proof (len_nonneg s.(messages)).
  pose proof (len_nonneg s.(accepted_revisions)).
  destruct (isTerminal _), (is_null _), (s.(status) === M_active),
    (s.(status) === M_awaiting_acceptance), (s.(status) === M_verifying); lia.
Qed.

(** ** Properties *)

(** C15: a Mission never gets stuck.  In every state the reducer can produce that
    is not terminal, there is a participant the state waits for: to accept, to
    take the turn, to acknowledge the pending revision or to report a missing
    verification; and whatever valid next event carries that participant's
    answer is accepted, verification outcomes of either kind included. *)
Theorem no_deadlock `{!ZodLaws} cfg es s :
  replayMissionCoordinatorEvents cfg es = Ok s -> isTerminal s.(status) = false ->
  (exists p, p ∈ participant_ids (cfg_manifest cfg) /\ waits_for cfg s p) /\
  (forall p e, p ∈ participant_ids (cfg_manifest cfg) -> next_event s e ->
     answer cfg s p e.(body) -> accepts s e).
Proof.
  intros R%replay_reachable T. split; [by apply waits_for_someone|].
  intros p e Hp N A. by eapply answer_accepted.
Qed.

(** C16: a Mission completes only on evidence.  When the reducer's state is
    completed, every command the configuration requires of either participant has
    a passed result in a [verification_recorded] event of the log, reported by
    that participant in the current round against the current contract version. *)
Theorem completion_verified cfg es s :
  replayMissionCoordinatorEvents cfg es = Ok s -> s.(status) = M_completed ->
  forall p cs c, cfg.(cfg_required_verification_commands) !! p = Some cs -> c ∈ cs ->
  exists a v, a ∈ s.(applied_events) /\ a.(body) = VerificationRecorded v /\
    v.(vr_participant_agent_id) = p /\ v.(vr_contract_version) = s.(contract_version) /\
    v.(vr_verification_round) = s.(verification_round) /\
    v.(vr_evidence).(vev_command_id) = c /\ v.(vr_evidence).(vev_outcome) = O_passed.
Proof.
  intros R%replay_reachable St p cs c Ep Hc. pose proof (reachable_valid _ _ R) as V.
  destruct (reachable_retains _ _ R) as [Mn Rq].
  destruct (reachable_phase _ _ R) as [?|?|?|?|_ _ _ _ Ok Pa|[?|?]]; try congruence.
  destruct (decide (p ∈ participant_ids (cfg_manifest cfg))) as [Hp|N];
    [|by rewrite (cfg_commands_absent cfg p V N) in Ep].
  destruct (passed_recorded s _ p cs c Pa) as (r & Hr & K & K1 & K2 & K3); try done.
  - unfold missionParticipantIds. by rewrite Mn.
  - by rewrite Rq.
  - destruct (records_logged _ _ _ Ok r Hr) as (a & v & Ha & B & ->).
    injection K as Kp Kc. exists a, v. done.
Qed.

(** C19: the work of a Mission is bounded by its turn limit.  In every state the
    reducer can produce, [turn_count] is the number of [turn_completed] events of
    the log, each for a different delivery, and at most [max_turns]; Messages,
    contract revisions and twice the verification rounds fit in it together; and
    the log holds at most [3 + 17 * max_turns] events. *)
Theorem work_bounded cfg es s :
  replayMissionCoordinatorEvents cfg es = Ok s ->
  s.(turn_count) = len (turns s.(applied_events)) /\ NoDup (turns s.(applied_events)) /\
  s.(turn_count) <= (cfg_manifest cfg).(man_max_turns) <= 200 /\
  len s.(messages) + len s.(accepted_revisions) + 2 * s.(verification_round) <= s.(turn_count) /\
  len s.(applied_events) <= 3 + 17 * (cfg_manifest cfg).(man_max_turns).
Proof.
  intros R%replay_reachable. destruct (reachable_log _ _ R) as [_ _ _ _ [Tn Tc]].
  destruct (reachable_bounds _ _ R) as (? & ? & ? & ?). done.
Qed.
End schedule.

(** ** Witnesses *)
#[local] Existing Instance example_zod.

Lemma no_deadlock_witness :
  isTerminal (ex_run ex_prefix).(status) = false /\
  accepts (ex_run ex_prefix)
    (ex_event 9 "9" (ex_verification ex_agent_b (ex_delivery "8") "2" "contract" O_failed)).
Proof.
  assert (E : replayMissionCoordinatorEvents ex_cfg ex_prefix = Ok (ex_run ex_prefix))
    by (vm_compute; reflexivity).
  assert (T : isTerminal (ex_run ex_prefix).(status) = false) by (vm_compute; reflexivity).
  split; [exact T|]. destruct (no_deadlock ex_cfg ex_prefix (ex_run ex_prefix) E T) as [_ A].
  apply (A ex_agent_b).
  - decide_now.
  - split; [vm_compute; reflexivity|]. split; [|split; vm_compute; reflexivity].
    unfold fresh_event. refine (proj1 (Forall_forall _ _) _). decide_now.
  - apply (answer_verify ex_cfg (ex_run ex_prefix) ex_agent_b (ex_delivery "8")
             (ex_evidence "2" "contract" O_failed) ["contract"]).
    + vm_compute. reflexivity.
    + vm_compute. reflexivity.
    + decide_now.
    + reflexivity.
    + split; refine (proj1 (Forall_forall _ _) _); decide_now.
Defined.

Lemma completion_verified_witness :
  exists a v, a ∈ (ex_run ex_events).(applied_events) /\ a.(body) = VerificationRecorded v /\
    v.(vr_participant_agent_id) = ex_agent_b /\ v.(vr_evidence).(vev_outcome) = O_passed.
Proof.
  assert (E : replayMissionCoordinatorEvents ex_cfg ex_events = Ok (ex_run ex_events))
    by (vm_compute; reflexivity).
  assert (S : (ex_run ex_events).(status) = M_completed) by (vm_compute; reflexivity).
  assert (C : ex_cfg.(cfg_required_verification_commands) !! ex_agent_b = Some ["contract"])
    by (vm_compute; reflexivity).
  assert (I : "contract" ∈ ["contract"]) by decide_now.
  destruct (completion_verified ex_cfg ex_events (ex_run ex_events) E S ex_agent_b _ _ C I)
    as (a & v & Ha & B & P & _ & _ & _ & O).
  exists a, v. split; [exact Ha|]. split; [exact B|]. split; [exact P|exact O].
Defined.

Lemma work_bounded_witness :
  len (ex_run ex_events).(applied_events) = 9 /\ len (ex_run ex_events).(applied_events) <= 139.
Proof.
  assert (E : replayMissionCoordinatorEvents ex_cfg ex_events = Ok (ex_run ex_events))
    by (vm_compute; reflexivity).
  destruct (work_bounded ex_cfg ex_events (ex_run ex_events) E) as (_ & _ & _ & _ & B).
  split; [vm_compute; reflexivity|]. exact B.
Defined.
