(* ===== verification/MissionState.v ===== *)
(** * The reducer's states pass their own schema

    [missionCoordinatorStateSchema] is what the Relay parses a stored snapshot
    with and what every receiver of a Mission checks.  Every state the reducer
    can produce passes it: the field ranges, the list limits and the
    cross-field refinement of [validateMissionCoordinatorState]. *)

From S2P Require Import Prelude JsLib Schemas.
From S2P Require Import MissionEvents MissionCoordinator MissionExample MissionSteps MissionReach.
From S2P Require Import MissionContract MissionSchedule.

Section state_schema.
Context `{Zod}.

Lemma config_parts cfg :
  missionCoordinatorConfigSchema cfg = true ->
  missionContextSchema cfg.(cfg_mission_context) = true /\
  requiredCommandsSchema cfg.(cfg_required_verification_commands) = true /\
  sameStringSet (participant_ids (cfg_manifest cfg))
    (object_keys cfg.(cfg_required_verification_commands)) = true.
Proof.
  unfold missionCoordinatorConfigSchema, missionCoordinatorConfigIssues. intros V.
  autorewrite with relay in V. bool_hyps. done.
Qed.

Lemma participant_uuid cfg p :
  missionCoordinatorConfigSchema cfg = true -> p ∈ participant_ids (cfg_manifest cfg) ->
  uuidSchema p = true.
Proof.
  intros (x & y & E & _ & Ux & Uy)%cfg_participants Hp. rewrite E in Hp.
  rewrite !elem_of_cons, elem_of_nil in Hp. by destruct Hp as [->|[->|[]]].
Qed.

Lemma every_lookup {A} (p : A -> bool) l :
  (forall i x, l !! i = Some x -> p x = true) -> every p l = true.
Proof. intros F. apply every_iff. intros x [i Hi]%list_elem_of_lookup. by eapply F. Qed.

(** A record of the log passes the record schema. *)
Lemma logged_record_schema cfg s r :
  log_ok cfg s -> recorded_in s.(applied_events) r -> r.(vrec_verification_round) <= MAX_INT32 ->
  missionVerificationRecordSchema r = true.
Proof.
  intros L (a & v & Ha & B & ->) Le. apply list_elem_of_lookup in Ha as [i Ha].
  apply (log_entries _ _ L) in Ha as (V & _ & _).
  unfold missionCoordinatorEventSchema, missionEventEnvelopeSchema, rawEventBodySchema in V.
  rewrite B in V. bool_hyps. unfold missionVerificationRecordSchema. cbn in *.
  rewrite !andb_true_iff. split_and!; try done; [by apply Z.ltb_lt|by apply Z.leb_le].
Qed.

(** The participants with something scheduled or ready are the Mission's. *)
Lemma phase_participants cfg log s :
  missionCoordinatorConfigSchema cfg = true -> phase cfg log s ->
  (forall p, s.(current_participant_agent_id) = Some p -> p ∈ participant_ids (cfg_manifest cfg)) /\
  NoDup s.(ready_agent_ids) /\
  (forall p, p ∈ s.(ready_agent_ids) -> p ∈ participant_ids (cfg_manifest cfg)) /\
  len s.(ready_agent_ids) <= 2.
Proof.
  intros V Ph.
  assert (None_ : forall o, o = None -> forall p, o = Some p -> p ∈ participant_ids (cfg_manifest cfg))
    by (intros o -> p; done).
  assert (Nil : forall l : list string, l = [] -> NoDup l /\
    (forall p, p ∈ l -> p ∈ participant_ids (cfg_manifest cfg)) /\ len l <= 2).
  { intros l ->. split_and!; [apply NoDup_nil_2| |done]. intros p Hp. by apply not_elem_of_nil in Hp. }
  assert (Full : forall l, sameStringSet l (participant_ids (cfg_manifest cfg)) = true -> NoDup l /\
    (forall p, p ∈ l -> p ∈ participant_ids (cfg_manifest cfg)) /\ len l <= 2).
  { intros l [N P]%sameStringSet_iff. split_and!; [done|intros p; by rewrite P|].
    destruct (cfg_participants cfg V) as (x & y & E & _). rewrite E in P.
    apply Permutation_length in P. unfold len. cbn in P. lia. }
  destruct Ph as [? ? ? ? ? ?|p ? ? ? Cu Hp [Rb|(q & Rb & Hq & _)] ?|? ? ? ? ? ? ? ?|? ? ? ? ? ?|
    ? ? ? ? ? ?|? ? ? ? ?]; split; eauto.
  - intros x. rewrite Cu. by intros [= <-].
  - intros x. rewrite Cu. by intros [= <-].
  - rewrite Rb. split_and!; [apply NoDup_singleton| |done].
    by intros x ->%list_elem_of_singleton.
Qed.

Lemma phase_records cfg log s r :
  phase cfg log s -> r ∈ s.(verification_records) ->
  recorded_in log r /\ r.(vrec_verification_round) = s.(verification_round).
Proof.
  intros Ph Hr.
  assert (F : records_ok cfg log s).
  { destruct Ph; try done; by apply records_ok_nil. }
  split; [by eapply records_logged|by eapply records_current].
Qed.

(** ** The theorem *)
Lemma entries_no_issues {A} (bad : Z -> A -> bool) m l n :
  (forall i x, l !! i = Some x -> bad (n + Z.of_nat i) x = false) ->
  no_issues (entries_issues bad m n l) = true.
Proof.
  revert n. induction l as [|x l IH]; intros n F; cbn; [done|].
  pose proof (F O x eq_refl) as F0. rewrite Z.add_0_r in F0.
  rewrite no_issues_app, no_issues_if, F0. cbn. apply IH. intros i y Hy.
  specialize (F (S i) y Hy). by replace (n + 1 + Z.of_nat i) with (n + Z.of_nat (S i)) by lia.
Qed.

Lemma reachable_issues cfg s :
  reachable cfg s -> no_issues (validateMissionCoordinatorState s) = true.
Proof.
  intros R. pose proof (reachable_valid _ _ R) as V. destruct (reachable_retains _ _ R) as [Mn Rq].
  pose proof (reachable_contract _ _ R) as K. destruct (active_contract_facts _ _ V K) as (_ & Av & At).
  destruct (phase_participants _ _ _ V (reachable_phase _ _ R)) as (Cu & Rn & Rm & _).
  destruct (reachable_log _ _ R) as [Ln Le _ _ _]. destruct (reachable_messages _ _ R) as [Me _].
  destruct K as [_ Ka _ Kp _]. destruct (config_parts _ V) as (_ & _ & Ks).
  unfold validateMissionCoordinatorState. rewrite Mn, Rq, Ks, Av, Ln. autorewrite with relay.
  rewrite !andb_true_iff. split_and!; [done|..].
  - apply negb_true_iff, orb_false_iff.
    split; apply negb_false_iff; [by apply bool_decide_eq_true|by apply includes_iff].
  - destruct s.(current_participant_agent_id) as [p|]; [|done].
    by apply negb_true_iff, negb_false_iff, includes_iff, Cu.
  - apply negb_true_iff, orb_false_iff. split; [by apply negb_false_iff, unique_values_iff|].
    apply some_false_iff. intros p Hp. by apply negb_false_iff, includes_iff, Rm.
  - by apply negb_true_iff, negb_false_iff, bool_decide_eq_true.
  - apply entries_no_issues. intros i x (_ & Q & M)%Le.
    apply orb_false_iff. split; apply negb_false_iff, bool_decide_eq_true; [done|lia].
  - apply entries_no_issues. intros i x (_ & M & _)%Me. by apply negb_false_iff, bool_decide_eq_true.
  - apply entries_no_issues. intros i x Hx. apply negb_false_iff, bool_decide_eq_true.
    apply list_elem_of_lookup_2, elem_of_app in Hx as [[j Hj]%list_elem_of_lookup|Hx].
    + by apply Ka in Hj as [[] _].
    + destruct s.(pending_revision) as [r|]; [|by apply not_elem_of_nil in Hx].
      apply list_elem_of_singleton in Hx as ->. by destruct (Kp r eq_refl) as [[] _].
Qed.

(** The numeric ranges every state stays in. *)
Lemma reachable_ranges cfg s :
  reachable cfg s ->
  0 <= s.(turn_count) <= 200 /\ 0 <= s.(verification_round) <= 100 /\
  len s.(messages) <= 200 /\ len s.(accepted_revisions) <= 200 /\
  len s.(applied_events) <= 3403.
Proof.
  intros R. destruct (reachable_bounds _ _ R) as (? & ? & ? & ?).
  pose proof (len_nonneg s.(messages)). pose proof (len_nonneg s.(accepted_revisions)).
  destruct (reachable_log _ _ R) as [_ _ _ _ [_ Tc]].
  pose proof (len_nonneg (turns s.(applied_events))). lia.
Qed.

Lemma reachable_fields cfg s : reachable cfg s -> rawMissionCoordinatorStateSchema s = true.
Proof.
  intros R. pose proof (reachable_valid _ _ R) as V. destruct (reachable_static _ _ R) as [Cx Rq].
  pose proof (reachable_contract _ _ R) as K. destruct (active_contract_facts _ _ V K) as (Ar & _).
  pose proof (reachable_phase _ _ R) as Ph.
  destruct (phase_participants _ _ _ V Ph) as (Cu & _ & Rm & Rl).
  pose proof (phase_records_bound _ _ _ V Ph) as Vl.
  pose proof (reachable_log _ _ R) as Lg. destruct (reachable_messages _ _ R) as [Me _].
  destruct (reachable_ranges _ _ R) as (? & ? & ? & ? & ?).
  destruct K as [Kc Ka _ Kp _]. destruct (config_parts _ V) as (Vc & Vr & _).
  pose proof (len_nonneg s.(accepted_revisions)). pose proof (len_nonneg s.(applied_events)).
  pose proof (log_length _ _ Lg) as Ln.
  unfold rawMissionCoordinatorStateSchema, contractVersionSchema, MAX_INT32. rewrite Cx, Rq, Vc, Vr, Ar.
  rewrite !andb_true_iff. split_and!; try done; try (apply Z.leb_le; lia); try (apply Z.ltb_lt; lia).
  - destruct s.(pending_revision) as [r|]; [|done]. by destruct (Kp r eq_refl) as [[] _].
  - apply every_lookup. intros i x Hx. by apply Ka in Hx as [[] _].
  - destruct s.(current_participant_agent_id) as [p|]; [|done]. cbn.
    by apply (participant_uuid cfg), Cu.
  - apply every_iff. intros p Hp. by apply (participant_uuid cfg), Rm.
  - apply every_iff. intros r Hr. destruct (phase_records _ _ _ r Ph Hr) as [Lr Er].
    eapply logged_record_schema; [done|done|]. unfold MAX_INT32. lia.
  - apply every_lookup. intros i x Hx. by apply Me in Hx as [? _].
  - apply every_lookup. intros i x Hx. by apply (log_entries _ _ Lg) in Hx as [? _].
Qed.

(** C17: the reducer never produces a state that its own schema would refuse:
    creation and every accepted event give a value that
    [missionCoordinatorStateSchema] parses, so a stored snapshot can always be
    read back.  All field ranges and list limits (200 turns and Messages, 3200
    records, 4096 events) are respected, and so is every cross-field rule. *)
Theorem reduced_state_valid cfg es s :
  replayMissionCoordinatorEvents cfg es = Ok s -> missionCoordinatorStateSchema s = true.
Proof.
  intros R%replay_reachable. unfold missionCoordinatorStateSchema.
  by rewrite (reachable_fields _ _ R), (reachable_issues _ _ R).
Qed.
End state_schema.

#[local] Existing Instance example_zod.

Lemma reduced_state_valid_witness :
  missionCoordinatorStateSchema (ex_run ex_events) = true.
Proof.
  apply (reduced_state_valid ex_cfg ex_events (ex_run ex_events)). vm_compute. reflexivity.
Defined.

