(* ===== verification/DeliveryOperations.v ===== *)
(** * Delivery operations: [protocol/src/delivery-operations.ts]

    The inputs a Node sends to claim, start, renew, complete or release a
    delivery, the receipts the Relay stores for them, and the results it
    returns, with [validateOperationReceipt], [hasValidStatusPair],
    [validateReceiptAgainstDelivery] and the refinements of the claim and the
    completion result.  The theorems relate the receipts to the delivery state
    machine of [StateMachines] and say what an accepted result guarantees. *)

From S2P Require Import Prelude JsLib Schemas.
From S2P Require StateMachines.
From S2P Require Import MissionEvents MissionExample.

(** ** Inputs *)
Inductive DeliveryOperation := Op_claim | Op_start | Op_renew | Op_complete | Op_release | Op_cancel.
Inductive DeliveryClaimOutcome := CO_claimed | CO_dead_lettered.
#[export] Instance DeliveryOperation_eq_dec : EqDecision DeliveryOperation.
Proof. solve_decision. Defined.
#[export] Instance DeliveryClaimOutcome_eq_dec : EqDecision DeliveryClaimOutcome.
Proof. solve_decision. Defined.

Definition releaseSummarySchema (value : string) : bool := bounded 1 2000 value && not_blank value.

Record DeliveryClaimInput := { ci_idempotency_key : string }.
Definition deliveryClaimInputSchema (i : DeliveryClaimInput) : bool :=
  identifierSchema i.(ci_idempotency_key).

(** The fields every lease-owned operation presents. *)
Record LeaseOperationInput := { li_idempotency_key : string; li_authority : DeliveryLeaseAuthority }.
Definition leaseOperationInputSchema `{Zod} (i : LeaseOperationInput) : bool :=
  identifierSchema i.(li_idempotency_key) && deliveryLeaseAuthoritySchema i.(li_authority).

Record DeliveryCompleteInput := {
  cmi_lease : LeaseOperationInput; cmi_result : NodeDeliveryResultPayload }.
Definition deliveryCompleteInputSchema `{Zod} (i : DeliveryCompleteInput) : bool :=
  leaseOperationInputSchema i.(cmi_lease) && nodeDeliveryResultPayloadSchema i.(cmi_result).

Record DeliveryReleaseDetails := {
  rel_classification : DeliveryReleaseClassification; rel_summary : string }.
#[export] Instance DeliveryReleaseDetails_eq_dec : EqDecision DeliveryReleaseDetails.
Proof. solve_decision. Defined.
Definition deliveryReleaseDetailsSchema (r : DeliveryReleaseDetails) : bool :=
  releaseSummarySchema r.(rel_summary).

Record DeliveryReleaseInput := {
  ri_lease : LeaseOperationInput; ri_release : DeliveryReleaseDetails }.
Definition deliveryReleaseInputSchema `{Zod} (i : DeliveryReleaseInput) : bool :=
  leaseOperationInputSchema i.(ri_lease) && deliveryReleaseDetailsSchema i.(ri_release).

(** ** Receipts *)
Record DeliveryOperationReceipt := {
  or_receipt_id : string;
  or_operation : DeliveryOperation;
  or_idempotency_key : string;
  or_node_id : string;
  or_delivery_id : string;
  or_attempt_count : Z;
  or_lease : option DeliveryLeaseAuthority;
  or_lease_expires_at : option string;
  or_status_before : DeliveryStatus;
  or_status_after : DeliveryStatus;
  or_logical_settlement : option DeliveryLogicalSettlement;
  or_claim_outcome : option DeliveryClaimOutcome;
  or_release : option DeliveryReleaseDetails;
  or_cancellation_reason : option DeliveryCancellationReason;
  or_recorded_at : string
}.
#[export] Instance DeliveryOperationReceipt_eq_dec : EqDecision DeliveryOperationReceipt.
Proof. solve_decision. Defined.

Definition rawDeliveryOperationReceiptSchema `{Zod} (r : DeliveryOperationReceipt) : bool :=
  uuidSchema r.(or_receipt_id) && identifierSchema r.(or_idempotency_key) &&
  uuidSchema r.(or_node_id) && uuidSchema r.(or_delivery_id) &&
  (0 <=? r.(or_attempt_count)) && (r.(or_attempt_count) <=? 100) &&
  nullable deliveryLeaseAuthoritySchema r.(or_lease) &&
  nullable isoTimestampSchema r.(or_lease_expires_at) &&
  nullable deliveryLogicalSettlementSchema r.(or_logical_settlement) &&
  nullable deliveryReleaseDetailsSchema r.(or_release) && isoTimestampSchema r.(or_recorded_at).

Definition hasValidStatusPair (receipt : DeliveryOperationReceipt) : bool :=
  let before := receipt.(or_status_before) in
  let after := receipt.(or_status_after) in
  match receipt.(or_operation) with
  | Op_claim =>
      if receipt.(or_claim_outcome) === Some CO_claimed
      then (before === D_stored) && (after === D_leased)
      else (receipt.(or_claim_outcome) === Some CO_dead_lettered) &&
           ((before === D_leased) || (before === D_executing)) && (after === D_dead_lettered)
  | Op_start => (before === D_leased) && (after === D_executing)
  | Op_renew => ((before === D_leased) || (before === D_executing)) && (after === before)
  | Op_complete => (before === D_executing) && (after === D_acknowledged)
  | Op_release =>
      if negb (((before === D_leased) || (before === D_executing)) &&
               ((after === D_stored) || (after === D_dead_lettered)))
      then false
      else ((rel_classification <$> receipt.(or_release)) === Some R_transient) ||
           (after === D_dead_lettered)
  | Op_cancel =>
      ((before === D_stored) || (before === D_leased) || (before === D_executing)) &&
      (after === D_cancelled)
  end.

Definition validateOperationReceipt (receipt : DeliveryOperationReceipt) : issues :=
  let operation := receipt.(or_operation) in
  let requiresPresentedLease :=
    (operation === Op_start) || (operation === Op_renew) || (operation === Op_complete) ||
    (operation === Op_release) in
  let claimed := (operation === Op_claim) && (receipt.(or_claim_outcome) === Some CO_claimed) in
  let no_lease := is_null receipt.(or_lease) in
  let no_deadline := is_null receipt.(or_lease_expires_at) in
  issue_if (negb (hasValidStatusPair receipt))
    "Delivery operation has an invalid status transition" ++
  issue_if ((requiresPresentedLease || claimed) && (no_lease || no_deadline))
    "Lease-owned operation requires its authority and deadline" ++
  issue_if ((operation === Op_claim) && (receipt.(or_claim_outcome) === Some CO_dead_lettered) &&
            (negb no_lease || negb no_deadline))
    "Dead-lettered claim outcome has no active lease" ++
  issue_if ((operation === Op_cancel) &&
            negb (Bool.eqb ((receipt.(or_status_before) === D_leased) ||
                            (receipt.(or_status_before) === D_executing))
                           (negb no_lease && negb no_deadline)))
    "Cancellation receipt retains authority only for an active prior lease" ++
  issue_if (negb (Bool.eqb no_lease no_deadline))
    "Lease authority and deadline must be present together" ++
  issue_if ((operation !== Op_cancel) && (receipt.(or_attempt_count) === 0))
    "Node delivery operations require an execution attempt" ++
  issue_if (negb (Bool.eqb (operation === Op_claim) (non_null receipt.(or_claim_outcome))))
    "Only claim receipts carry a claim outcome" ++
  issue_if (negb (Bool.eqb (operation === Op_release) (non_null receipt.(or_release))))
    "Only release receipts carry release details" ++
  issue_if (negb (Bool.eqb (operation === Op_cancel) (non_null receipt.(or_cancellation_reason))))
    "Only cancellation receipts carry a cancellation reason" ++
  (if operation === Op_complete
   then issue_if (is_null receipt.(or_logical_settlement))
          "Completion receipt requires logical settlement"
   else issue_if ((operation !== Op_cancel) && non_null receipt.(or_logical_settlement))
          "Only completion or cancellation may carry logical settlement") ++
  issue_if ((requiresPresentedLease || claimed) && non_null receipt.(or_lease_expires_at) &&
            num_ge (Date_parse receipt.(or_recorded_at)) (Date_parse_opt receipt.(or_lease_expires_at)))
    "Lease-owned operation must be recorded before its deadline" ++
  issue_if (non_null receipt.(or_logical_settlement) &&
            num_gt (Date_parse_opt (set_settled_at <$> receipt.(or_logical_settlement)))
                   (Date_parse receipt.(or_recorded_at)))
    "Logical settlement cannot follow its operation receipt".

Definition deliveryOperationReceiptSchema `{Zod} (r : DeliveryOperationReceipt) : bool :=
  rawDeliveryOperationReceiptSchema r && no_issues (validateOperationReceipt r).

(** [.refine((receipt) => receipt.operation === operation)] *)
Definition receiptOf `{Zod} (operation : DeliveryOperation) (r : DeliveryOperationReceipt) : bool :=
  deliveryOperationReceiptSchema r && (r.(or_operation) === operation).

(** ** Results *)
Definition validateReceiptAgainstDelivery (delivery : Delivery) (receipt : DeliveryOperationReceipt)
    : issues :=
  issue_if ((delivery.(d_delivery_id) !== receipt.(or_delivery_id)) ||
            (delivery.(d_node_id) !== receipt.(or_node_id)) ||
            (delivery.(d_attempt_count) !== receipt.(or_attempt_count)) ||
            (delivery.(d_status) !== receipt.(or_status_after)))
    "Operation receipt must describe the returned delivery snapshot" ++
  issue_if (delivery.(d_logical_settlement) !== receipt.(or_logical_settlement))
    "Operation receipt must retain the delivery's logical settlement" ++
  issue_if (delivery.(d_cancellation_reason) !== receipt.(or_cancellation_reason))
    "Operation receipt must retain the delivery's cancellation reason" ++
  (if (receipt.(or_status_after) === D_leased) || (receipt.(or_status_after) === D_executing)
   then issue_if
     (match delivery.(d_lease), receipt.(or_lease) with
      | Some lease, Some authority =>
          (lease.(lease_lease_id) !== authority.(auth_lease_id)) ||
          (lease.(lease_fencing_token) !== authority.(auth_fencing_token)) ||
          (Some lease.(lease_expires_at) !== receipt.(or_lease_expires_at))
      | _, _ => true
      end)
     "Operation receipt must retain the returned active lease"
   else issue_if (non_null delivery.(d_lease))
          "Settled operation result cannot retain an active lease").

Record DeliveryOperationResult := {
  op_delivery : Delivery; op_receipt : DeliveryOperationReceipt; op_replayed : bool }.

Definition validateOperationResult (result : DeliveryOperationResult) : issues :=
  validateReceiptAgainstDelivery result.(op_delivery) result.(op_receipt).

Definition deliveryOperationResultSchema `{Zod} (r : DeliveryOperationResult) : bool :=
  deliverySchema r.(op_delivery) && deliveryOperationReceiptSchema r.(op_receipt) &&
  no_issues (validateOperationResult r).

Definition resultOf `{Zod} (operation : DeliveryOperation) (r : DeliveryOperationResult) : bool :=
  deliveryOperationResultSchema r && (r.(op_receipt).(or_operation) === operation).

Inductive DeliveryClaimResult :=
| Claimed (item : MissionDeliveryItem) (receipt : DeliveryOperationReceipt) (replayed : bool)
| DeadLettered (delivery : Delivery) (receipt : DeliveryOperationReceipt) (replayed : bool).

Definition claim_delivery (r : DeliveryClaimResult) : Delivery :=
  match r with Claimed item _ _ => item.(item_delivery) | DeadLettered d _ _ => d end.
Definition claim_receipt (r : DeliveryClaimResult) : DeliveryOperationReceipt :=
  match r with Claimed _ receipt _ | DeadLettered _ receipt _ => receipt end.
Definition claim_outcome (r : DeliveryClaimResult) : DeliveryClaimOutcome :=
  match r with Claimed _ _ _ => CO_claimed | DeadLettered _ _ _ => CO_dead_lettered end.

Definition DeliveryClaimOutcome_name (o : DeliveryClaimOutcome) : string :=
  match o with CO_claimed => "claimed" | CO_dead_lettered => "dead_lettered" end.

Definition deliveryClaimResultIssues (result : DeliveryClaimResult) : issues :=
  let delivery := claim_delivery result in
  let expectedStatus :=
    match claim_outcome result with CO_claimed => D_leased | CO_dead_lettered => D_dead_lettered end in
  validateReceiptAgainstDelivery delivery (claim_receipt result) ++
  issue_if ((claim_receipt result).(or_claim_outcome) !== Some (claim_outcome result))
    "Claim receipt outcome must match the result outcome" ++
  issue_if (delivery.(d_status) !== expectedStatus)
    ("Claim " +:+ DeliveryClaimOutcome_name (claim_outcome result) +:+ " outcome requires " +:+
     DeliveryStatus_name expectedStatus +:+ " delivery state").

Definition deliveryClaimResultSchema `{Zod} (r : DeliveryClaimResult) : bool :=
  match r with
  | Claimed item receipt _ => missionDeliveryItemSchema item && receiptOf Op_claim receipt
  | DeadLettered delivery receipt _ => deliverySchema delivery && receiptOf Op_claim receipt
  end && no_issues (deliveryClaimResultIssues r).

(** *** Completion *)
Record DeliveryCompleteResult := {
  cr_delivery : Delivery;
  cr_receipt : DeliveryOperationReceipt;
  cr_events : list MissionCoordinatorEvent;
  cr_derived_delivery_ids : list string;
  cr_replayed : bool
}.

(** The [type] tag of an event. *)
Inductive EventType :=
| ET_participants_accepted | ET_turn_completed | ET_contract_acknowledged
| ET_verification_recorded | ET_mission_terminal.
#[export] Instance EventType_eq_dec : EqDecision EventType.
Proof. solve_decision. Defined.
Definition event_tag (e : MissionCoordinatorEvent) : EventType :=
  match e.(body) with
  | ParticipantsAccepted _ => ET_participants_accepted
  | TurnCompleted _ => ET_turn_completed
  | ContractAcknowledged _ => ET_contract_acknowledged
  | VerificationRecorded _ => ET_verification_recorded
  | MissionTerminal _ => ET_mission_terminal
  end.
Definition relay_owned (e : MissionCoordinatorEvent) : bool :=
  (event_tag e === ET_participants_accepted) || (event_tag e === ET_mission_terminal).

(** [event.contract_version] of the three participant events. *)
Definition event_contract_version (e : MissionCoordinatorEvent) : option Z :=
  match e.(body) with
  | TurnCompleted t => Some t.(tc_contract_version)
  | ContractAcknowledged a => Some a.(ca_contract_version)
  | VerificationRecorded v => Some v.(vr_contract_version)
  | _ => None
  end.

Definition expectedEventType (kind : DeliveryKind) : EventType :=
  match kind with
  | K_turn => ET_turn_completed
  | K_contract_acknowledgement => ET_contract_acknowledged
  | K_verification => ET_verification_recorded
  end.

Definition event_matches_delivery (delivery : Delivery) (event : MissionCoordinatorEvent) : bool :=
  negb ((event_mission event !== delivery.(d_mission_id)) ||
        ((snd <$> body_participant event.(body)) !== Some delivery.(d_delivery_id)) ||
        (event_tag event !== expectedEventType delivery.(d_kind)) ||
        (event_contract_version event !== Some delivery.(d_contract_version)) ||
        match event.(body) with
        | VerificationRecorded v =>
            Some v.(vr_verification_round) !== delivery.(d_verification_round)
        | _ => false
        end).

(** The loop over [result.events.entries()]; [previous] is the event before. *)
Fixpoint completion_event_issues (delivery : Delivery) (previous : option MissionCoordinatorEvent)
    (events : list MissionCoordinatorEvent) : issues :=
  match events with
  | [] => []
  | event :: events =>
      (if relay_owned event
       then ["Completion events must exactly match the returned delivery work"]
       else issue_if (negb (event_matches_delivery delivery event))
              "Completion events must exactly match the returned delivery work" ++
            issue_if (match previous with
                      | None => false
                      | Some p => event_sequence event !== event_sequence p + 1
                      end)
              "Completion events must have contiguous coordinator sequence numbers") ++
      completion_event_issues delivery (Some event) events
  end.

Definition verification_bodies (events : list MissionCoordinatorEvent)
    : list VerificationRecordedEvent :=
  omap (fun e => match e.(body) with VerificationRecorded v => Some v | _ => None end) events.

Definition verificationSetIssues (events : list MissionCoordinatorEvent) : issues :=
  let bodies := verification_bodies events in
  match bodies with
  | [] => []
  | first :: _ =>
      issue_if (negb (unique_values (map (fun v => v.(vr_evidence).(vev_command_id)) bodies)) ||
                negb (unique_values (map (fun v => v.(vr_evidence).(vev_verification_id)) bodies)) ||
                some (fun v =>
                  (v.(vr_participant_agent_id) !== first.(vr_participant_agent_id)) ||
                  (v.(vr_contract_version) !== first.(vr_contract_version)) ||
                  (v.(vr_verification_round) !== first.(vr_verification_round))) bodies)
        "Verification completion events must be one coherent unique command set"
  end.

Definition deliveryCompleteResultIssues (result : DeliveryCompleteResult) : issues :=
  let delivery := result.(cr_delivery) in
  let events := result.(cr_events) in
  validateReceiptAgainstDelivery delivery result.(cr_receipt) ++
  if some relay_owned events
  then ["A Node completion cannot publish Relay-owned Mission events"]
  else
    completion_event_issues delivery None events ++
    issue_if ((set_settled_by_event_id <$> delivery.(d_logical_settlement)) !==
              (event_id <$> at_last events))
      "Final completion event must match the delivery's logical settlement" ++
    match events with
    | [] => []
    | first :: _ =>
        let eventType := event_tag first in
        issue_if (((eventType !== ET_verification_recorded) && (len events !== 1)) ||
                  some (fun e => event_tag e !== eventType) events)
          "Turn and acknowledgement completion return one event; verification returns only evidence events" ++
        (if eventType === ET_verification_recorded then verificationSetIssues events else [])
    end ++
    issue_if (negb (unique_values result.(cr_derived_delivery_ids)))
      "Derived delivery IDs must be unique".

(** With no events the refinement throws on [finalEvent.event_id]; the length
    bound refuses that result in any case. *)
Definition deliveryCompleteResultSchema `{Zod} (r : DeliveryCompleteResult) : bool :=
  deliverySchema r.(cr_delivery) && receiptOf Op_complete r.(cr_receipt) &&
  every missionCoordinatorEventSchema r.(cr_events) && (1 <=? len r.(cr_events)) &&
  (len r.(cr_events) <=? 16) && every uuidSchema r.(cr_derived_delivery_ids) &&
  (len r.(cr_derived_delivery_ids) <=? 2) && no_issues (deliveryCompleteResultIssues r).

(** ** Receipts and the delivery state machine *)

(** The event of the state machine a receipt stands for. *)
Definition receipt_event (r : DeliveryOperationReceipt) : option StateMachines.DeliveryEventType :=
  match r.(or_operation), r.(or_claim_outcome) with
  | Op_claim, Some CO_claimed => Some StateMachines.DE_lease
  | Op_claim, Some CO_dead_lettered => Some StateMachines.DE_lease_expired
  | Op_claim, None => None
  | Op_start, _ => Some StateMachines.DE_start_execution
  | Op_renew, _ => Some StateMachines.DE_renew_lease
  | Op_complete, _ => Some StateMachines.DE_acknowledge
  | Op_release, _ => Some StateMachines.DE_release
  | Op_cancel, _ => Some StateMachines.DE_cancel
  end.

(** What the table's next status may become: a release or an expired lease can
    end in the dead-letter state instead, and only a transient release goes back
    to the store; a claim receipt for an expired lease records only the former. *)
Definition settles_as (r : DeliveryOperationReceipt) (ev : StateMachines.DeliveryEventType)
    (next : DeliveryStatus) : Prop :=
  match ev with
  | StateMachines.DE_release =>
      r.(or_status_after) = D_dead_lettered \/
      (r.(or_status_after) = next /\ (rel_classification <$> r.(or_release)) = Some R_transient)
  | StateMachines.DE_lease_expired => r.(or_status_after) = D_dead_lettered
  | _ => r.(or_status_after) = next
  end.

(** The receipt [r] is filled in for the step from [s] by [e] to [s']. *)
Record receipt_for (s : StateMachines.DeliveryTransitionState)
    (e : StateMachines.DeliveryTransitionEvent) (s' : StateMachines.DeliveryTransitionState)
    (r : DeliveryOperationReceipt) : Prop := {
  rf_event : receipt_event r = Some (StateMachines.event_type e);
  rf_before : r.(or_status_before) = s.(StateMachines.status);
  rf_after : r.(or_status_after) = s'.(StateMachines.status);
  rf_release : forall c classification, e = StateMachines.Release c classification ->
    (rel_classification <$> r.(or_release)) =
      deliveryReleaseClassificationSchema classification;
  rf_expired : StateMachines.event_type e = StateMachines.DE_lease_expired ->
    s'.(StateMachines.status) = D_dead_lettered
}.

(** The operation is done under a lease the Node presents or is given. *)
Definition lease_owned (r : DeliveryOperationReceipt) : bool :=
  (r.(or_operation) === Op_start) || (r.(or_operation) === Op_renew) ||
  (r.(or_operation) === Op_complete) || (r.(or_operation) === Op_release) ||
  ((r.(or_operation) === Op_claim) && (r.(or_claim_outcome) === Some CO_claimed)).

(** ** Sample results for the witnesses *)
Definition ex_lease : DeliveryLease :=
  {| lease_lease_id := ex_id "9"; lease_fencing_token := "1";
     lease_expires_at := "2026-08-03T12:05:00Z" |}.
Definition ex_authority : DeliveryLeaseAuthority :=
  {| auth_lease_id := ex_id "9"; auth_fencing_token := "1" |}.

Definition ex_executing : Delivery :=
  {| d_delivery_id := ex_delivery "4"; d_node_id := ex_id "7"; d_mission_id := ex_mission;
     d_mission_event_id := "10000000-0000-4000-8000-000000000004"; d_kind := K_turn;
     d_cursor := "17"; d_status := D_executing; d_attempt_count := 1; d_max_attempts := 3;
     d_last_fencing_token := "1"; d_contract_version := 2; d_verification_round := None;
     d_lease := Some ex_lease; d_logical_settlement := None; d_idempotency_key := "delivery-4";
     d_causal_parent_delivery_id := None; d_available_at := ex_time; d_created_at := ex_time;
     d_updated_at := "2026-08-03T12:00:30Z"; d_acknowledged_at := None; d_cancelled_at := None;
     d_cancellation_reason := None; d_dead_lettered_at := None |}.

Definition ex_start_receipt : DeliveryOperationReceipt :=
  {| or_receipt_id := ex_id "8"; or_operation := Op_start; or_idempotency_key := "start-4";
     or_node_id := ex_id "7"; or_delivery_id := ex_delivery "4"; or_attempt_count := 1;
     or_lease := Some ex_authority; or_lease_expires_at := Some "2026-08-03T12:05:00Z";
     or_status_before := D_leased; or_status_after := D_executing; or_logical_settlement := None;
     or_claim_outcome := None; or_release := None; or_cancellation_reason := None;
     or_recorded_at := "2026-08-03T12:00:30Z" |}.

Definition ex_start_result : DeliveryOperationResult :=
  {| op_delivery := ex_executing; op_receipt := ex_start_receipt; op_replayed := false |}.

(** The reply of the example Mission, as the completion of delivery 4. *)
Definition ex_reply_event : MissionCoordinatorEvent :=
  ex_event 5 "5" (ex_turn ex_agent_b (ex_delivery "4") 2
                    (Reply T_decision "Version 2 it is" None) (Some ex_message) None).
Definition ex_settlement : DeliveryLogicalSettlement :=
  {| set_settled_by_event_id := event_id ex_reply_event; set_settled_at := "2026-08-03T12:01:00Z" |}.

Definition ex_completion : DeliveryCompleteResult :=
  {| cr_delivery := ex_executing <| d_status := D_acknowledged |> <| d_lease := None |>
       <| d_logical_settlement := Some ex_settlement |>
       <| d_acknowledged_at := Some "2026-08-03T12:01:00Z" |>
       <| d_updated_at := "2026-08-03T12:01:00Z" |>;
     cr_receipt :=
       {| or_receipt_id := ex_id "8"; or_operation := Op_complete; or_idempotency_key := "done-4";
          or_node_id := ex_id "7"; or_delivery_id := ex_delivery "4"; or_attempt_count := 1;
          or_lease := Some ex_authority; or_lease_expires_at := Some "2026-08-03T12:05:00Z";
          or_status_before := D_executing; or_status_after := D_acknowledged;
          or_logical_settlement := Some ex_settlement; or_claim_outcome := None;
          or_release := None; or_cancellation_reason := None;
          or_recorded_at := "2026-08-03T12:01:00Z" |};
     cr_events := [ex_reply_event];
     cr_derived_delivery_ids := [ex_delivery "5"]; cr_replayed := false |}.

(** ** Lemmas *)
Lemma status_pair_iff r :
  hasValidStatusPair r = true <->
  exists ev next, receipt_event r = Some ev /\
    StateMachines.deliveryTransitions r.(or_status_before) ev = Some next /\ settles_as r ev next.
Proof.
  destruct r as [? op ? ? ? ? ? ? before after ? oc rel ? ?].
  assert (R : op = Op_release \/ op <> Op_release) by (destruct op; auto).
  destruct R as [->|R].
  - destruct rel as [[cl sm]|]; [destruct cl|]; destruct before, after;
      (split; [intros B; vm_compute in B; first [discriminate B|do 2 eexists;
               split_and!; [reflexivity|reflexivity|cbn; auto]]
              |intros (ev & next & [= <-] & T & S); cbn in T, S; destruct S as [S|[S1 S2]];
               first [reflexivity|congruence]]).
  - destruct op; try done; [destruct oc as [[]|]| | | |]; destruct before, after;
      (split; [intros B; vm_compute in B; first [discriminate B|do 2 eexists;
               split_and!; [reflexivity|reflexivity|reflexivity]]
              |intros (ev & next & E & T & S); cbn in E;
               first [discriminate E|injection E as <-; cbn in T, S; first [reflexivity|congruence]]]).
Qed.

Section operations.
Context `{Zod}.

Lemma transition_next s e s' :
  StateMachines.transitionDeliveryState s e = Ok s' ->
  exists next,
    StateMachines.deliveryTransitions s.(StateMachines.status) (StateMachines.event_type e) = Some next.
Proof.
  unfold StateMachines.transitionDeliveryState. intros R.
  destruct (StateMachines.deliveryTransitions _ _) as [next|]; [by exists next|discriminate].
Qed.

(** A release that succeeds names a known class. *)
Lemma release_classified s c k s' :
  StateMachines.transitionDeliveryState s (StateMachines.Release c k) = Ok s' ->
  is_null (deliveryReleaseClassificationSchema k) = false.
Proof.
  unfold StateMachines.transitionDeliveryState. intros R. cbn [StateMachines.event_type] in R.
  destruct (StateMachines.deliveryTransitions _ _) as [next|]; [|discriminate].
  ok_inv R. rewrite bool_decide_eq_true_2 in * by done. by cbn in *.
Qed.

Lemma transition_settles s e s' r next :
  StateMachines.transitionDeliveryState s e = Ok s' -> receipt_for s e s' r ->
  StateMachines.deliveryTransitions s.(StateMachines.status) (StateMachines.event_type e) =
    Some next ->
  settles_as r (StateMachines.event_type e) next.
Proof.
  intros T [Ev Be Af Re Ex] N. pose proof (StateMachines.transition_effect _ _ _ T) as Ef.
  destruct s as [st ac mx lt al af le ls].
  destruct e as [c x|c x|c|c|c k|c|k n]; cbn in *.
  - destruct Ef as (-> & _ & _ & _ & _ & ->). cbn in *. congruence.
  - destruct Ef as (Nl & _ & ->). cbn in *. destruct st; cbn in *; try discriminate; congruence.
  - destruct Ef as (-> & ->). cbn in *. congruence.
  - destruct Ef as (-> & _ & ->). cbn in *. congruence.
  - apply release_classified in T. destruct Ef as (Nl & ->). cbn in *.
    unfold StateMachines.released_status in Af. cbn in Af. rewrite Af.
    assert (Nx : next = D_stored) by (destruct st; cbn in *; try discriminate; congruence). subst next.
    destruct (_ <=? _); [by left|]. cbn. unfold deliveryReleaseClassificationSchema in *.
    rewrite (Re c k eq_refl).
    destruct (k === "transient") eqn:K; [right|]; bool_hyps.
    + subst k. done.
    + left. by destruct (k === "permanent"), (k === "policy_denied").
  - rewrite Af. by apply Ex.
  - destruct Ef as (Nl & ->). cbn in *. destruct st; cbn in *; try discriminate; congruence.
Qed.

(** *** Accepted receipts and results *)
Lemma receipt_facts r :
  deliveryOperationReceiptSchema r = true ->
  hasValidStatusPair r = true /\
  (lease_owned r = true -> exists a x, r.(or_lease) = Some a /\ r.(or_lease_expires_at) = Some x /\
     num_ge (Date_parse r.(or_recorded_at)) (Date_parse x) = false).
Proof.
  unfold deliveryOperationReceiptSchema, validateOperationReceipt. intros V.
  apply andb_true_iff in V as [_ V]. cbv zeta in V. fold (lease_owned r) in V.
  rewrite !no_issues_app, !no_issues_if in V. bool_hyps. split; [done|]. intros O.
  rewrite O in *. cbn [andb] in *.
  destruct r.(or_lease) as [a|]; [|discriminate].
  destruct r.(or_lease_expires_at) as [x|]; [|discriminate].
  exists a, x. split_and!; [done|done|].
  match goal with L : non_null (Some x) && _ = false |- _ => exact L end.
Qed.

Lemma delivery_lease_token d l :
  deliverySchema d = true -> d.(d_lease) = Some l ->
  needsLease d.(d_status) = true /\ l.(lease_fencing_token) = string_of_int d.(d_attempt_count) /\
  1 <= d.(d_attempt_count) <= d.(d_max_attempts).
Proof.
  unfold deliverySchema, deliveryIssues. intros V L. cbv zeta in V. rewrite L in V.
  rewrite !no_issues_app, !no_issues_if in V. bool_hyps.
  destruct (needsLease (d_status d)) eqn:N; [|discriminate].
  cbn [andb non_null is_null negb fmap option_fmap option_map] in *. bool_hyps.
  split_and!; [done| |lia|done].
  match goal with T : Some _ = Some (d_last_fencing_token d) |- _ => injection T as -> end. done.
Qed.

Lemma receipt_against_delivery d r :
  no_issues (validateReceiptAgainstDelivery d r) = true ->
  d.(d_status) = r.(or_status_after) /\ d.(d_attempt_count) = r.(or_attempt_count) /\
  d.(d_logical_settlement) = r.(or_logical_settlement) /\
  if needsLease r.(or_status_after)
  then exists l, d.(d_lease) = Some l /\ r.(or_lease_expires_at) = Some l.(lease_expires_at) /\
    r.(or_lease) = Some {| auth_lease_id := l.(lease_lease_id);
                           auth_fencing_token := l.(lease_fencing_token) |}
  else d.(d_lease) = None.
Proof.
  unfold validateReceiptAgainstDelivery. fold (needsLease (or_status_after r)). intros V.
  rewrite !no_issues_app, !no_issues_if in V. bool_hyps. split_and!; try done.
  destruct (needsLease _).
  - match goal with I : no_issues (issue_if _ _) = true |- _ => rewrite no_issues_if in I end.
    destruct d.(d_lease) as [l|]; [|discriminate]. destruct r.(or_lease) as [[i t]|]; [|discriminate].
    bool_hyps. cbn in *. exists l. split_and!; congruence.
  - match goal with I : no_issues (issue_if _ _) = true |- _ => rewrite no_issues_if in I end.
    by bool_hyps.
Qed.

(** *** Completion *)
Lemma completion_loop d p events :
  no_issues (completion_event_issues d p events) = true -> some relay_owned events = false ->
  forall i e, events !! i = Some e ->
    event_matches_delivery d e = true /\
    match p with
    | Some p => event_sequence e = event_sequence p + 1 + Z.of_nat i
    | None => forall first, head events = Some first ->
                event_sequence e = event_sequence first + Z.of_nat i
    end.
Proof.
  revert p. induction events as [|x events IH]; intros p V R i e E; [done|].
  cbn in V, R. apply orb_false_iff in R as [Rx R]. rewrite Rx in V.
  rewrite !no_issues_app, !no_issues_if in V. bool_hyps.
  destruct i as [|i]; cbn in E.
  - injection E as <-. split; [done|]. destruct p as [p|]; bool_hyps; [lia|].
    intros y [= <-]. lia.
  - destruct (IH (Some x) ltac:(done) R i e E) as [Ma Sq]. split; [done|].
    destruct p as [p|]; bool_hyps; [lia|]. intros y [= <-]. lia.
Qed.

Lemma event_matches_iff d e :
  event_matches_delivery d e = true ->
  event_mission e = d.(d_mission_id) /\
  (snd <$> body_participant e.(body)) = Some d.(d_delivery_id) /\
  event_tag e = expectedEventType d.(d_kind) /\
  event_contract_version e = Some d.(d_contract_version).
Proof. unfold event_matches_delivery. intros M. by bool_hyps. Qed.

(** ** Properties *)

(** C34: receipts cover the delivery state machine.  Every step that
    [transitionDeliveryState] takes, recorded in a receipt with the operation the
    step belongs to (an expired lease only when it dead-letters the delivery),
    passes [hasValidStatusPair]; and a receipt that passes it names a transition
    of the table, with the outcome the machine gives it. *)
Theorem receipts_match_machine :
  (forall s e s' r, StateMachines.transitionDeliveryState s e = Ok s' -> receipt_for s e s' r ->
     hasValidStatusPair r = true) /\
  (forall r, hasValidStatusPair r = true ->
     exists ev next, receipt_event r = Some ev /\
       StateMachines.deliveryTransitions r.(or_status_before) ev = Some next /\
       settles_as r ev next).
Proof.
  split.
  - intros s e s' r T F. apply status_pair_iff. destruct (transition_next s e s' T) as [next N].
    exists (StateMachines.event_type e), next. pose proof F as [Ev Be _ _ _].
    rewrite Be. split_and!; [done|done|]. by eapply transition_settles.
  - intros r. apply status_pair_iff.
Qed.

(** An accepted operation result is coherent.  The delivery it returns is in
    the status the receipt ends in, with the same attempt count; while that status
    is leased or executing, the receipt carries exactly the delivery's lease, whose
    fencing token is the decimal attempt count, between 1 and the attempt limit;
    otherwise the delivery has no lease; and a lease-owned operation was not
    recorded at or after the deadline of its lease. *)
Theorem accepted_result_coherent res :
  deliveryOperationResultSchema res = true ->
  let d := res.(op_delivery) in
  let r := res.(op_receipt) in
  d.(d_status) = r.(or_status_after) /\ d.(d_attempt_count) = r.(or_attempt_count) /\
  (needsLease d.(d_status) = true ->
   exists l, d.(d_lease) = Some l /\ l.(lease_fencing_token) = string_of_int r.(or_attempt_count) /\
     1 <= r.(or_attempt_count) <= d.(d_max_attempts) /\
     r.(or_lease_expires_at) = Some l.(lease_expires_at) /\
     r.(or_lease) = Some {| auth_lease_id := l.(lease_lease_id);
                            auth_fencing_token := l.(lease_fencing_token) |}) /\
  (needsLease d.(d_status) = false -> d.(d_lease) = None) /\
  (lease_owned r = true -> exists x, r.(or_lease_expires_at) = Some x /\
     num_ge (Date_parse r.(or_recorded_at)) (Date_parse x) = false).
Proof.
  unfold deliveryOperationResultSchema, validateOperationResult. intros V. bool_hyps. cbv zeta.
  match goal with N : no_issues _ = true |- _ => apply receipt_against_delivery in N as (E1 & E2 & _ & L) end.
  match goal with R : deliveryOperationReceiptSchema _ = true |- _ => apply receipt_facts in R as [_ O] end.
  rewrite E1. split_and!; try done.
  - intros N. rewrite N in L. destruct L as (l & Dl & Ex & Au).
    destruct (delivery_lease_token (op_delivery res) l) as (_ & Tk & At); try done.
    exists l. rewrite <-E2. done.
  - intros N. by rewrite N in L.
  - intros Ow. destruct (O Ow) as (_ & x & _ & ? & ?). by exists x.
Qed.

(** A completion result settles its delivery with its own events.  The
    delivery of an accepted result is acknowledged and settled by the last event;
    all events belong to the delivery's Mission, name the delivery, have the type
    its kind asks for and its contract version; their sequence numbers are
    consecutive; a turn or an acknowledgement has exactly one event. *)
Theorem completion_settles res :
  deliveryCompleteResultSchema res = true ->
  let d := res.(cr_delivery) in
  exists first last_event,
    head res.(cr_events) = Some first /\ at_last res.(cr_events) = Some last_event /\
    d.(d_status) = D_acknowledged /\
    (set_settled_by_event_id <$> d.(d_logical_settlement)) = Some (event_id last_event) /\
    (d.(d_kind) <> K_verification -> res.(cr_events) = [first]) /\
    forall i e, res.(cr_events) !! i = Some e ->
      event_mission e = d.(d_mission_id) /\
      (snd <$> body_participant e.(body)) = Some d.(d_delivery_id) /\
      event_tag e = expectedEventType d.(d_kind) /\
      event_contract_version e = Some d.(d_contract_version) /\
      event_sequence e = event_sequence first + Z.of_nat i.
Proof.
  unfold deliveryCompleteResultSchema, deliveryCompleteResultIssues, receiptOf. intros V. cbv zeta in *.
  rewrite no_issues_app in V. bool_hyps.
  destruct (some relay_owned _) eqn:Ro; [discriminate|].
  match goal with N : no_issues (validateReceiptAgainstDelivery _ _) = true |- _ =>
    apply receipt_against_delivery in N as (E1 & _ & _ & _) end.
  match goal with R : deliveryOperationReceiptSchema _ = true |- _ => apply receipt_facts in R as [P _] end.
  match goal with N : no_issues (completion_event_issues _ _ _ ++ _) = true |- _ =>
    rewrite !no_issues_app, !no_issues_if in N end. bool_hyps.
  destruct res as [d r events ids rep]; cbn in *.
  destruct events as [|first events]; [unfold len in *; cbn in *; lia|].
  assert (Al : exists z, at_last (first :: events) = Some z).
  { rewrite at_last_lookup. apply lookup_lt_is_Some_2. cbn. lia. }
  destruct Al as [z Al].
  match goal with L : no_issues (completion_event_issues _ _ _) = true |- _ =>
    pose proof (completion_loop _ _ _ L Ro) as Lp end.
  destruct (Lp O first eq_refl) as [M0 _]. apply event_matches_iff in M0 as (_ & _ & Tg & _).
  exists first, z. split_and!; try done.
  - rewrite E1. unfold hasValidStatusPair in P.
    match goal with O : or_operation r = _ |- _ => rewrite O in P end. by bool_hyps.
  - match goal with S : (_ <$> _) = (_ <$> at_last _) |- _ => rewrite Al in S; exact S end.
  - intros Nk. match goal with N : no_issues (issue_if _ _ ++ _) = true |- _ =>
      rewrite no_issues_app, no_issues_if, Tg in N; bool_hyps end.
    rewrite bool_decide_eq_false_2 in * by (by destruct d.(d_kind)). cbn [negb andb] in *. bool_hyps.
    destruct events; [done|]. unfold len in *. cbn in *. lia.
  - intros i e E. destruct (Lp i e E) as [M S]. apply event_matches_iff in M as (? & ? & ? & ?).
    split_and!; try done. by apply S.
Qed.
End operations.

(** ** Witnesses *)
#[local] Existing Instance example_zod.
#[local] Existing Instance StateMachines.DeliveryTransitionState_eta.

Lemma receipts_match_machine_witness :
  hasValidStatusPair ex_start_receipt = true /\
  exists next, StateMachines.deliveryTransitions D_leased StateMachines.DE_start_execution = Some next.
Proof.
  destruct receipts_match_machine as [S C].
  assert (T : StateMachines.transitionDeliveryState StateMachines.sample_leased
    (StateMachines.StartExecution (StateMachines.sample_claim "1" "2026-01-01T00:00:10.000Z")) =
    Ok (StateMachines.sample_leased <| StateMachines.status := D_executing |>))
    by (vm_compute; reflexivity).
  assert (H : hasValidStatusPair ex_start_receipt = true).
  { apply (S _ _ _ _ T). constructor; try reflexivity; try discriminate. }
  split; [exact H|]. destruct (C _ H) as (ev & next & E & N & _).
  injection E as <-. exists next. exact N.
Defined.

Lemma accepted_result_coherent_witness :
  deliveryOperationResultSchema ex_start_result = true /\
  exists l, ex_executing.(d_lease) = Some l /\ l.(lease_fencing_token) = string_of_int 1.
Proof.
  assert (V : deliveryOperationResultSchema ex_start_result = true) by (vm_compute; reflexivity).
  destruct (accepted_result_coherent ex_start_result V) as (_ & _ & L & _).
  destruct (L eq_refl) as (l & Dl & Tk & _).
  split; [exact V|]. exists l. split; [exact Dl|exact Tk].
Defined.

Lemma completion_settles_witness :
  deliveryCompleteResultSchema ex_completion = true /\
  ex_completion.(cr_delivery).(d_status) = D_acknowledged.
Proof.
  assert (V : deliveryCompleteResultSchema ex_completion = true) by (vm_compute; reflexivity).
  destruct (completion_settles ex_completion V) as (first & last_event & _ & _ & S & _).
  split; [exact V|exact S].
Defined.

