(* ===== verification/HostEvents.v ===== *)
(** * The host event stream: [protocol/src/adapter.ts]

    The events an agent host reports for one turn, the policy that limits a
    stream, [acceptHostEvent] with its helpers, and [deriveHostMissionInputs].
    The artifact payloads are in [JsonValue] and the turn inputs that carry them
    in [TurnInput].  The theorems say what any accepted stream looks
    like: its shape, its limits, its accounting and its length. *)

From Stdlib Require Import Ascii.
From S2P Require Import Prelude JsLib Json Schemas.
From S2P Require Import MissionExample MissionReach.

(** ** Schemas *)
Definition MAX_HOST_TEXT_LENGTH : Z := 16000.
Definition MAX_PROVIDER_TOKENS : Z := 100000000.

Definition workspaceAliasSchema (s : string) : bool :=
  bounded 1 64 s && head_tail is_alnum (fun c => is_alnum c || one_of "._-" c) s.
Definition hostTextSchema (s : string) : bool := bounded 1 MAX_HOST_TEXT_LENGTH s && not_blank s.
Definition hostOutputChunkSchema (s : string) : bool := bounded 1 MAX_HOST_TEXT_LENGTH s.
Definition safe_positive (n : Z) : bool := (0 <? n) && (n <=? MAX_SAFE_INTEGER).
Definition hostExecutionAttemptSchema : Z -> bool := safe_positive.

Inductive UsageCapability := turn_cumulative | unavailable.
#[export] Instance UsageCapability_eq_dec : EqDecision UsageCapability.
Proof. solve_decision. Defined.

Record AdapterInfo := {
  info_name : string; info_version : string; info_cancellation : bool; info_recovery : bool;
  info_usage : UsageCapability }.
Definition adapterInfoSchema (a : AdapterInfo) : bool :=
  runtimeNameSchema a.(info_name) && runtimeVersionSchema a.(info_version).

Record SessionInput := {
  ses_missionId : string; ses_participantId : string; ses_workspaceAlias : string }.
Definition sessionInputSchema `{Zod} (s : SessionInput) : bool :=
  uuidSchema s.(ses_missionId) && uuidSchema s.(ses_participantId) &&
  workspaceAliasSchema s.(ses_workspaceAlias).

Record HostSessionRef := { hs_input : SessionInput; hs_sessionId : string }.
Definition hostSessionRefSchema `{Zod} (s : HostSessionRef) : bool :=
  sessionInputSchema s.(hs_input) && opaqueReferenceSchema s.(hs_sessionId).

(** [provenance] is the literal [mission_manifest]. *)
Record HostMissionTextInput := { hm_text : string; hm_authorPrincipalId : string }.
Definition hostMissionTextInputSchema `{Zod} (t : HostMissionTextInput) : bool :=
  hostTextSchema t.(hm_text) && uuidSchema t.(hm_authorPrincipalId).

Record HostPeerMessageInput := {
  hp_messageId : string; hp_authorAgentId : string; hp_kind : MessageType; hp_body : string }.
Definition hostPeerMessageInputSchema `{Zod} (m : HostPeerMessageInput) : bool :=
  uuidSchema m.(hp_messageId) && uuidSchema m.(hp_authorAgentId) && hostTextSchema m.(hp_body).

Record HostTurnRef := {
  turnId : string;
  sessionId : string;
  missionId : string;
  deliveryId : string;
  executionAttempt : Z;
  contractVersion : Z
}.
#[export] Instance HostTurnRef_eq_dec : EqDecision HostTurnRef.
Proof. solve_decision. Defined.
Definition hostTurnRefSchema `{Zod} (t : HostTurnRef) : bool :=
  opaqueReferenceSchema t.(turnId) && opaqueReferenceSchema t.(sessionId) &&
  uuidSchema t.(missionId) && uuidSchema t.(deliveryId) &&
  hostExecutionAttemptSchema t.(executionAttempt) && contractVersionSchema t.(contractVersion).

(** [Omit<HostTurnRef, "turnId"> & { turnId?: string }] *)
Record HostTurnCorrelation := { cor_turnId : option string; cor_rest : HostTurnRef }.

Record HostFailure := { hf_class : DeliveryReleaseClassification; hf_message : string }.
#[export] Instance HostFailure_eq_dec : EqDecision HostFailure.
Proof. solve_decision. Defined.
Definition hostFailureSchema (f : HostFailure) : bool := bounded 1 4000 f.(hf_message).

Inductive HostUsage :=
| UsageAvailable (inputTokens outputTokens : Z)
| UsageUnavailable (reason : UsageReason).
#[export] Instance HostUsage_eq_dec : EqDecision HostUsage.
Proof.
  assert (EqDecision UsageReason) by (intros [] []; (by left) || by right). solve_decision.
Defined.
Definition hostUsageSchema (u : HostUsage) : bool :=
  match u with
  | UsageAvailable i o =>
      (0 <=? i) && (i <=? MAX_PROVIDER_TOKENS) && (0 <=? o) && (o <=? MAX_PROVIDER_TOKENS)
  | UsageUnavailable _ => true
  end.

Inductive ToolPhase := Tool_started | Tool_completed | Tool_failed.
#[export] Instance ToolPhase_eq_dec : EqDecision ToolPhase.
Proof. solve_decision. Defined.
Record HostToolActivity := { ht_toolCallId : string; ht_name : string; ht_phase : ToolPhase }.
#[export] Instance HostToolActivity_eq_dec : EqDecision HostToolActivity.
Proof. solve_decision. Defined.
Definition hostToolActivitySchema (a : HostToolActivity) : bool :=
  opaqueReferenceSchema a.(ht_toolCallId) && runtimeNameSchema a.(ht_name).
Inductive PermissionPhase := Perm_requested | Perm_granted | Perm_denied.
#[export] Instance PermissionPhase_eq_dec : EqDecision PermissionPhase.
Proof. solve_decision. Defined.
Record HostPermissionActivity := {
  hq_requestId : string; hq_capability : string; hq_phase : PermissionPhase }.
#[export] Instance HostPermissionActivity_eq_dec : EqDecision HostPermissionActivity.
Proof. solve_decision. Defined.
Definition hostPermissionActivitySchema (a : HostPermissionActivity) : bool :=
  opaqueReferenceSchema a.(hq_requestId) && runtimeNameSchema a.(hq_capability).

(** The part of an event its [kind] tag selects. *)
Inductive HostEventKind :=
| HE_accepted
| HE_output (text : string)
| HE_tool (activity : HostToolActivity)
| HE_permission (activity : HostPermissionActivity)
| HE_artifact (artifact : ArtifactRef)
| HE_usage (usage : HostUsage)
| HE_completed (disposition : TurnDisposition)
| HE_failed (failure : HostFailure)
| HE_cancelled.
#[export] Instance HostEventKind_eq_dec : EqDecision HostEventKind.
Proof. solve_decision. Defined.

Record HostEvent := { he_kind : HostEventKind; he_turn : HostTurnRef; he_sequence : Z }.
#[export] Instance HostEvent_eq_dec : EqDecision HostEvent.
Proof. solve_decision. Defined.

Definition hostEventKindSchema `{Zod} (k : HostEventKind) : bool :=
  match k with
  | HE_accepted | HE_cancelled => true
  | HE_output text => hostOutputChunkSchema text
  | HE_tool activity => hostToolActivitySchema activity
  | HE_permission activity => hostPermissionActivitySchema activity
  | HE_artifact artifact => artifactRefSchema artifact
  | HE_usage usage => hostUsageSchema usage
  | HE_completed disposition => turnDispositionSchema disposition
  | HE_failed failure => hostFailureSchema failure
  end.
Definition hostEventSchema `{Zod} (e : HostEvent) : bool :=
  hostTurnRefSchema e.(he_turn) && safe_positive e.(he_sequence) && hostEventKindSchema e.(he_kind).

(** ** Mission inputs *)
Record HostMissionInputs := {
  hi_objective : HostMissionTextInput;
  hi_assignment : HostMissionTextInput;
  hi_acceptanceCriteria : list HostMissionTextInput
}.

Inductive HostError :=
| HostZodError
| ParticipantNotFound (participantAgentId : string)
| InvalidPolicy
| InvalidHostEventStream (reason : string).

(** [array.map(f)] where [f] may throw. *)
Fixpoint map_result {E A B} (f : A -> result E B) (l : list A) : result E (list B) :=
  match l with
  | [] => Ok []
  | x :: l => let* y := f x in let* ys := map_result f l in Ok (y :: ys)
  end.

Definition deriveHostMissionInputs `{Zod} (context : MissionContext) (participantAgentId : string)
    : result HostError HostMissionInputs :=
  throw HostZodError when negb (missionContextSchema context) in
  throw HostZodError when negb (uuidSchema participantAgentId) in
  let manifest := context.(ctx_manifest) in
  match array_find (fun candidate => candidate.(part_agent_id) === participantAgentId)
          manifest.(man_participants) with
  | None => Err (ParticipantNotFound participantAgentId)
  | Some participant =>
      let fromManifest (text : string) :=
        let input := {| hm_text := text;
                        hm_authorPrincipalId := context.(ctx_created_by).(actor_principal_id) |} in
        throw HostZodError when negb (hostMissionTextInputSchema input) in Ok input in
      let* objective := fromManifest manifest.(man_objective) in
      let* assignment := fromManifest participant.(part_initial_assignment) in
      let* criteria := map_result fromManifest manifest.(man_public_acceptance_criteria) in
      Ok {| hi_objective := objective; hi_assignment := assignment;
            hi_acceptanceCriteria := criteria |}
  end.

(** ** The stream *)
Record HostEventStreamPolicy := {
  maxEvents : Z;
  maxOutputBytes : Z;
  maxArtifacts : Z;
  maxArtifactBytes : Z;
  maxTokens : Z;
  policy_usage : UsageCapability
}.
Definition DEFAULT_HOST_EVENT_STREAM_POLICY : HostEventStreamPolicy :=
  {| maxEvents := 256; maxOutputBytes := 256 * 1024; maxArtifacts := 16;
     maxArtifactBytes := 16 * MAX_ARTIFACT_BYTES; maxTokens := MAX_PROVIDER_TOKENS;
     policy_usage := turn_cumulative |}.

Inductive StreamPhase := PH_awaiting_acceptance | PH_active | PH_terminal.
#[export] Instance StreamPhase_eq_dec : EqDecision StreamPhase.
Proof. solve_decision. Defined.

Record HostEventStreamState := {
  st_phase : StreamPhase;
  lastSequence : Z;
  outputBytes : Z;
  artifactCount : Z;
  artifactBytes : Z;
  artifactKeys : list string;
  st_usage : option HostUsage;
  st_turn : option HostTurnRef;
  expectedTurn : HostTurnCorrelation
}.

Definition createHostEventStreamState (expectedTurn : HostTurnCorrelation) : HostEventStreamState :=
  {| st_phase := PH_awaiting_acceptance; lastSequence := 0; outputBytes := 0; artifactCount := 0;
     artifactBytes := 0; artifactKeys := []; st_usage := None; st_turn := None;
     expectedTurn := expectedTurn |}.

Definition is_accepted (k : HostEventKind) : bool := match k with HE_accepted => true | _ => false end.
Definition is_terminal_kind (k : HostEventKind) : bool :=
  match k with HE_completed _ | HE_failed _ | HE_cancelled => true | _ => false end.

Definition artifactsInHostEvent (event : HostEvent) : list ArtifactRef :=
  match event.(he_kind) with
  | HE_artifact artifact => [artifact]
  | HE_completed (Reply _ _ artifacts) => default [] artifacts
  | HE_completed (ProposeContract artifact) => [artifact]
  | HE_completed (Ready evidence) => concat (map vev_artifacts evidence)
  | _ => []
  end.

Definition textBytesInHostEvent (event : HostEvent) : Z :=
  match event.(he_kind) with
  | HE_output text => utf8_length text
  | HE_failed failure => utf8_length failure.(hf_message)
  | HE_completed (Reply _ message _) => utf8_length message
  | HE_completed (Blocked reason requested_input) =>
      utf8_length (match requested_input with None => reason | Some r => reason +:+ r end)
  | HE_completed (Ready evidence) =>
      foldl (fun total v => total + utf8_length v.(vev_summary)) 0 evidence
  | _ => 0
  end.

Definition assertHostEventStreamPolicy (policy : HostEventStreamPolicy) : result HostError unit :=
  throw InvalidPolicy
    when some (fun value => negb (value <=? MAX_SAFE_INTEGER) || (value <=? 0))
           [policy.(maxEvents); policy.(maxOutputBytes); policy.(maxArtifacts);
            policy.(maxArtifactBytes); policy.(maxTokens)] in
  Ok tt.

Definition sameHostTurnRef (left right : HostTurnRef) : bool :=
  (left.(turnId) === right.(turnId)) && (left.(sessionId) === right.(sessionId)) &&
  (left.(missionId) === right.(missionId)) && (left.(deliveryId) === right.(deliveryId)) &&
  (left.(executionAttempt) === right.(executionAttempt)) &&
  (left.(contractVersion) === right.(contractVersion)).

Definition matchesExpectedHostTurn (expected : HostTurnCorrelation) (received : HostTurnRef) : bool :=
  (is_null expected.(cor_turnId) || (expected.(cor_turnId) === Some received.(turnId))) &&
  (expected.(cor_rest).(sessionId) === received.(sessionId)) &&
  (expected.(cor_rest).(missionId) === received.(missionId)) &&
  (expected.(cor_rest).(deliveryId) === received.(deliveryId)) &&
  (expected.(cor_rest).(executionAttempt) === received.(executionAttempt)) &&
  (expected.(cor_rest).(contractVersion) === received.(contractVersion)).

Definition artifact_key (artifact : ArtifactRef) : string :=
  json_array [JStr artifact.(art_artifact_id); JStr artifact.(art_type); JInt artifact.(art_version);
              JStr artifact.(art_sha256); JStr artifact.(art_media_type);
              JInt artifact.(art_byte_size)].

(** The loop over the artifacts of an event. *)
Definition add_artifact '((keys, bytes) : list string * Z) (artifact : ArtifactRef)
    : list string * Z :=
  let key := artifact_key artifact in
  if includes keys key then (keys, bytes) else (keys ++ [key], bytes + artifact.(art_byte_size)).

Definition usage_regresses (before after : HostUsage) : bool :=
  match before with
  | UsageAvailable i o =>
      match after with
      | UsageUnavailable _ => true
      | UsageAvailable i' o' => (i' <? i) || (o' <? o)
      end
  | UsageUnavailable _ => false
  end.

(** The block for [usage] events. *)
Definition next_usage (policy : HostEventStreamPolicy) (usage : option HostUsage)
    (kind : HostEventKind) : result HostError (option HostUsage) :=
  match kind with
  | HE_usage u =>
      throw (InvalidHostEventStream "usage_unavailable")
        when match u with UsageAvailable _ _ => policy.(policy_usage) === unavailable
                        | _ => false end in
      throw (InvalidHostEventStream "usage_limit")
        when match u with UsageAvailable i o => policy.(maxTokens) <? i + o | _ => false end in
      throw (InvalidHostEventStream "usage_regression")
        when match usage with Some before => usage_regresses before u | None => false end in
      Ok (Some u)
  | _ => Ok usage
  end.

Definition acceptHostEvent `{Zod} (current : HostEventStreamState) (event : HostEvent)
    (policy : HostEventStreamPolicy) : result HostError HostEventStreamState :=
  let kind := event.(he_kind) in
  let awaiting := current.(st_phase) === PH_awaiting_acceptance in
  let* _ := assertHostEventStreamPolicy policy in
  throw HostZodError when negb (hostEventSchema event) in
  throw (InvalidHostEventStream "sequence")
    when event.(he_sequence) !== current.(lastSequence) + 1 in
  throw (InvalidHostEventStream "acceptance")
    when (awaiting && negb (is_accepted kind)) || (negb awaiting && is_accepted kind) in
  throw (InvalidHostEventStream "turn_mismatch")
    when awaiting && is_accepted kind &&
         negb (matchesExpectedHostTurn current.(expectedTurn) event.(he_turn)) in
  throw (InvalidHostEventStream "terminal") when current.(st_phase) === PH_terminal in
  throw (InvalidHostEventStream "turn_mismatch")
    when negb awaiting && match current.(st_turn) with
                          | None => true
                          | Some turn => negb (sameHostTurnRef turn event.(he_turn))
                          end in
  throw (InvalidHostEventStream "event_limit") when policy.(maxEvents) <? event.(he_sequence) in
  let bytes := current.(outputBytes) + textBytesInHostEvent event in
  throw (InvalidHostEventStream "output_limit") when policy.(maxOutputBytes) <? bytes in
  let '(keys, size) :=
    foldl add_artifact (current.(artifactKeys), current.(artifactBytes)) (artifactsInHostEvent event) in
  throw (InvalidHostEventStream "artifact_limit")
    when (policy.(maxArtifacts) <? len keys) || (policy.(maxArtifactBytes) <? size) in
  let* usage := next_usage policy current.(st_usage) kind in
  let terminal := is_terminal_kind kind in
  throw (InvalidHostEventStream "usage_missing") when terminal && is_null usage in
  Ok {| st_phase := if terminal then PH_terminal else PH_active;
        lastSequence := event.(he_sequence);
        outputBytes := bytes;
        artifactCount := len keys;
        artifactBytes := size;
        artifactKeys := keys;
        st_usage := usage;
        st_turn := match current.(st_turn) with None => Some event.(he_turn) | t => t end;
        expectedTurn := current.(expectedTurn) |}.

(** A stream: its events accepted one after the other under one policy. *)
Fixpoint accept_stream `{Zod} (policy : HostEventStreamPolicy) (current : HostEventStreamState)
    (events : list HostEvent) : result HostError HostEventStreamState :=
  match events with
  | [] => Ok current
  | event :: events =>
      let* next := acceptHostEvent current event policy in
      accept_stream policy next events
  end.

(** ** Specification of a stream *)

Definition sum (l : list Z) : Z := foldr Z.add 0 l.

(** All artifacts the events of a stream name, with repetitions. *)
Definition stream_artifacts (events : list HostEvent) : list ArtifactRef :=
  concat (map artifactsInHostEvent events).

(** The usage a stream has reported last. *)
Definition event_usage (e : HostEvent) : option HostUsage :=
  match e.(he_kind) with HE_usage u => Some u | _ => None end.
Definition usages (events : list HostEvent) : list HostUsage := omap event_usage events.

Record stream_ok (policy : HostEventStreamPolicy) (expected : HostTurnCorrelation)
    (events : list HostEvent) (s : HostEventStreamState) : Prop := {
  so_sequence : s.(lastSequence) = len events;
  so_events : forall i e, events !! i = Some e ->
    e.(he_sequence) = Z.of_nat i + 1 /\ e.(he_sequence) <= policy.(maxEvents) /\
    is_accepted e.(he_kind) = (Z.of_nat i =? 0) /\
    (is_terminal_kind e.(he_kind) = true -> Z.of_nat i + 1 = len events) /\
    Some e.(he_turn) = s.(st_turn);
  so_phase : s.(st_phase) = match at_last events with
                            | None => PH_awaiting_acceptance
                            | Some e => if is_terminal_kind e.(he_kind) then PH_terminal else PH_active
                            end;
  so_turn : s.(st_turn) = he_turn <$> head events;
  so_expected : s.(expectedTurn) = expected /\
    forall t, s.(st_turn) = Some t -> matchesExpectedHostTurn expected t = true;
  so_output : s.(outputBytes) = sum (map textBytesInHostEvent events) /\
    (events <> [] -> s.(outputBytes) <= policy.(maxOutputBytes));
  so_artifacts : exists distinct, NoDup distinct /\
    (forall a, a ∈ distinct <-> a ∈ stream_artifacts events) /\
    s.(artifactKeys) = map artifact_key distinct /\ s.(artifactCount) = len distinct /\
    s.(artifactBytes) = sum (map art_byte_size distinct) /\
    (events <> [] -> len distinct <= policy.(maxArtifacts) /\
                     s.(artifactBytes) <= policy.(maxArtifactBytes));
  so_usage : s.(st_usage) = at_last (usages events) /\
    (forall e, e ∈ events -> is_terminal_kind e.(he_kind) = true -> usages events <> [])
}.

(** ** A sample stream for the witnesses *)
Definition ex_turn_ref : HostTurnRef :=
  {| turnId := "turn-1"; sessionId := "session-1"; missionId := ex_mission;
     deliveryId := ex_delivery "4"; executionAttempt := 1; contractVersion := 2 |}.
Definition ex_expected : HostTurnCorrelation := {| cor_turnId := None; cor_rest := ex_turn_ref |}.
Definition ex_host_event (n : Z) (k : HostEventKind) : HostEvent :=
  {| he_kind := k; he_turn := ex_turn_ref; he_sequence := n |}.
Definition ex_stream : list HostEvent :=
  [ex_host_event 1 HE_accepted; ex_host_event 2 (HE_output "Reading the contract");
   ex_host_event 3 (HE_usage (UsageAvailable 10 2)); ex_host_event 4 (HE_artifact (ex_artifact 1));
   ex_host_event 5 (HE_artifact (ex_artifact 1)); ex_host_event 6 (HE_usage (UsageAvailable 12 7));
   ex_host_event 7 (HE_completed (Reply T_answer "Agreed" (Some [ex_artifact 2])))].
Definition ex_stream_end : HostEventStreamState :=
  {| st_phase := PH_terminal; lastSequence := 7; outputBytes := 26; artifactCount := 2;
     artifactBytes := 1024; artifactKeys := [artifact_key (ex_artifact 1); artifact_key (ex_artifact 2)];
     st_usage := Some (UsageAvailable 12 7); st_turn := Some ex_turn_ref; expectedTurn := ex_expected |}.

(** ** Lemmas *)
Lemma artifact_key_inj a b : artifact_key a = artifact_key b -> a = b.
Proof.
  unfold artifact_key. intros E. apply json_array_inj in E; [|repeat constructor].
  destruct a, b; cbn in E. by injection E as -> -> -> -> -> ->.
Qed.

Lemma sum_app l k : sum (l ++ k) = sum l + sum k.
Proof. unfold sum. induction l as [|x l IH]; cbn; [done|]. rewrite IH. lia. Qed.

(** The loop extends the list of distinct artifacts. *)
Lemma add_artifacts l distinct :
  NoDup distinct ->
  exists distinct',
    foldl add_artifact (map artifact_key distinct, sum (map art_byte_size distinct)) l =
      (map artifact_key distinct', sum (map art_byte_size distinct')) /\
    NoDup distinct' /\ forall a, a ∈ distinct' <-> a ∈ distinct \/ a ∈ l.
Proof.
  revert distinct. induction l as [|x l IH]; intros distinct N; cbn [foldl].
  - exists distinct. split_and!; [done|done|]. intros a. rewrite elem_of_nil. tauto.
  - unfold add_artifact at 2. destruct (includes _ _) eqn:I.
    + apply includes_iff in I. change (map artifact_key distinct) with (artifact_key <$> distinct) in I.
      apply list_elem_of_fmap in I as (y & E & Hy). apply artifact_key_inj in E as <-.
      destruct (IH distinct N) as (d & -> & N' & Hd). exists d. split_and!; [done|done|].
      intros a. rewrite Hd, elem_of_cons. naive_solver.
    + apply includes_false_iff in I.
      assert (Nx : x ∉ distinct).
      { intros Hx. apply I. by apply (list_elem_of_fmap_2 artifact_key). }
      replace (map artifact_key distinct ++ [artifact_key x])
        with (map artifact_key (distinct ++ [x])) by (by rewrite map_app).
      replace (sum (map art_byte_size distinct) + art_byte_size x)
        with (sum (map art_byte_size (distinct ++ [x])))
        by (rewrite map_app, sum_app; cbn; lia).
      destruct (IH (distinct ++ [x])) as (d & -> & N' & Hd).
      { apply NoDup_app. split_and!; [done| |apply NoDup_singleton].
        intros y Hy ->%list_elem_of_singleton. done. }
      exists d. split_and!; [done|done|].
      intros a. rewrite Hd, elem_of_app, list_elem_of_singleton, elem_of_cons. tauto.
Qed.

Lemma sameHostTurnRef_eq a b : sameHostTurnRef a b = true -> a = b.
Proof. unfold sameHostTurnRef. intros E. destruct a, b; cbn in E. by bool_hyps; subst. Qed.

Section streams.
Context `{Zod}.

(** What an accepted event went through. *)
Record accept_facts (policy : HostEventStreamPolicy) (s : HostEventStreamState) (e : HostEvent)
    (s' : HostEventStreamState) : Prop := {
  af_sequence : e.(he_sequence) = s.(lastSequence) + 1 /\ e.(he_sequence) <= policy.(maxEvents);
  af_accepted : is_accepted e.(he_kind) = (s.(st_phase) === PH_awaiting_acceptance);
  af_open : s.(st_phase) <> PH_terminal;
  af_expected : s.(st_phase) = PH_awaiting_acceptance ->
    matchesExpectedHostTurn s.(expectedTurn) e.(he_turn) = true;
  af_turn : s.(st_phase) <> PH_awaiting_acceptance -> s.(st_turn) = Some e.(he_turn);
  af_state : exists keys size usage,
    foldl add_artifact (s.(artifactKeys), s.(artifactBytes)) (artifactsInHostEvent e) = (keys, size) /\
    len keys <= policy.(maxArtifacts) /\ size <= policy.(maxArtifactBytes) /\
    s.(outputBytes) + textBytesInHostEvent e <= policy.(maxOutputBytes) /\
    next_usage policy s.(st_usage) e.(he_kind) = Ok usage /\
    (is_terminal_kind e.(he_kind) = true -> is_null usage = false) /\
    s' = {| st_phase := if is_terminal_kind e.(he_kind) then PH_terminal else PH_active;
            lastSequence := e.(he_sequence);
            outputBytes := s.(outputBytes) + textBytesInHostEvent e;
            artifactCount := len keys; artifactBytes := size; artifactKeys := keys;
            st_usage := usage;
            st_turn := match s.(st_turn) with None => Some e.(he_turn) | t => t end;
            expectedTurn := s.(expectedTurn) |}
}.

Ltac next_guard R E :=
  match type of R with (if ?b then Err _ else _) = _ => destruct b eqn:E; [discriminate|] end.

Lemma accept_inv policy s e s' :
  acceptHostEvent s e policy = Ok s' -> accept_facts policy s e s'.
Proof.
  unfold acceptHostEvent. intros R. cbv zeta in R.
  destruct (assertHostEventStreamPolicy policy); [|discriminate].
  destruct (negb (hostEventSchema e)); [discriminate|].
  next_guard R Sq. set (aw := s.(st_phase) === PH_awaiting_acceptance) in *.
  next_guard R Ac. next_guard R Mt. next_guard R Te. next_guard R Tu. next_guard R Me.
  next_guard R Mo.
  destruct (foldl _ _ _) as [keys size] eqn:F.
  next_guard R Ar.
  destruct (next_usage _ _ _) as [usage|] eqn:U; [|discriminate].
  next_guard R Mi. injection R as <-. bool_hyps.
  assert (Aw : is_accepted e.(he_kind) = aw)
    by (destruct aw, (is_accepted (he_kind e)); done).
  constructor; try done.
  - intros P. replace aw with true in * by (symmetry; by apply bool_decide_eq_true).
    rewrite Aw in Mt. cbn in Mt. by bool_hyps.
  - intros P. replace aw with false in * by (symmetry; by apply bool_decide_eq_false).
    cbn in Tu. destruct s.(st_turn) as [t|]; [|discriminate]. bool_hyps.
    match goal with Q : sameHostTurnRef _ _ = true |- _ => by apply sameHostTurnRef_eq in Q as -> end.
  - exists keys, size, usage. split_and!; try done.
    intros T. rewrite T in Mi. done.
Qed.

Lemma accept_stream_snoc policy s l e :
  accept_stream policy s (l ++ [e]) =
  let* s' := accept_stream policy s l in acceptHostEvent s' e policy.
Proof.
  revert s. induction l as [|x l IH]; cbn; intros s.
  - by destruct (acceptHostEvent s e policy).
  - destruct (acceptHostEvent s x policy); [apply IH|done].
Qed.

Lemma next_usage_last policy events usage e :
  next_usage policy (at_last (usages events)) e.(he_kind) = Ok usage ->
  usage = at_last (usages (events ++ [e])).
Proof.
  unfold usages. rewrite omap_app. cbn. unfold event_usage, next_usage.
  destruct e.(he_kind) as [| | | | |u| | |]; intros R; ok_inv R; injection R as <-;
    rewrite ?app_nil_r, ?at_last_snoc; done.
Qed.

Lemma omap_nil_snoc {A} (l : list A) x : l ++ [x] <> [].
Proof. by destruct l. Qed.

Lemma sum_map_snoc {A} (f : A -> Z) l x : sum (map f (l ++ [x])) = sum (map f l) + f x.
Proof. rewrite map_app, sum_app. cbn. lia. Qed.

Lemma stream_artifacts_snoc events e :
  stream_artifacts (events ++ [e]) = stream_artifacts events ++ artifactsInHostEvent e.
Proof. unfold stream_artifacts. rewrite map_app, concat_app. cbn. by rewrite app_nil_r. Qed.

(** In an open stream no event is terminal. *)
Lemma stream_open policy expected events s :
  stream_ok policy expected events s -> s.(st_phase) <> PH_terminal ->
  forall i e, events !! i = Some e -> is_terminal_kind e.(he_kind) = false.
Proof.
  intros [_ Ev Ph _ _ _ _ _] N i e E. destruct (is_terminal_kind e.(he_kind)) eqn:T; [|done].
  destruct (Ev i e E) as (_ & _ & _ & L & _). specialize (L T).
  exfalso. apply N. rewrite Ph, at_last_lookup.
  replace (pred (length events)) with i by (unfold len in L; lia). by rewrite E, T.
Qed.

Lemma stream_ok_step policy expected events s e s' :
  stream_ok policy expected events s -> acceptHostEvent s e policy = Ok s' ->
  stream_ok policy expected (events ++ [e]) s'.
Proof.
  intros Ok A. pose proof (stream_open _ _ _ _ Ok) as Op.
  apply accept_inv in A as [[Sq Me] Ac Te Ex Tu (keys & size & usage & F & La & Lb & Lo & U & Tm & ->)].
  destruct Ok as [Os Oe Oph Ot [Oex Om] [Oo _] (ds & Nd & Hd & Kd & _ & Bd & _) [Ou _]].
  specialize (Op Te).
  assert (Em : s.(st_phase) = PH_awaiting_acceptance <-> events = []).
  { rewrite Oph. split; [|by intros ->]. destruct events as [|x l]; [done|].
    rewrite at_last_lookup. destruct (_ !! _) as [z|] eqn:Z.
    - by destruct (is_terminal_kind (he_kind z)).
    - apply lookup_ge_None in Z. cbn in Z. lia. }
  assert (Tn : match s.(st_turn) with None => Some e.(he_turn) | t => t end = Some e.(he_turn)).
  { destruct (decide (st_phase s = PH_awaiting_acceptance)) as [P|P].
    - apply Em in P. by rewrite Ot, P.
    - by rewrite (Tu P). }
  rewrite Kd, Bd in F. destruct (add_artifacts (artifactsInHostEvent e) ds Nd) as (ds' & F' & Nd' & Hd').
  rewrite F in F'. injection F' as -> ->. rewrite Ou in U. apply next_usage_last in U.
  constructor; cbn.
  - rewrite Sq, Os, len_app. done.
  - intros i x Hx. apply lookup_snoc_inv in Hx as [Hx|[-> ->]].
    + destruct (Oe i x Hx) as (? & ? & ? & L & T). rewrite (Op i x Hx), Tn. split_and!; try done.
      pose proof (lookup_lt_Some _ _ _ Hx). rewrite T.
      destruct s.(st_turn) as [t|]; [done|discriminate].
    + rewrite Sq, Os, len_app. unfold len at 1 3. split_and!; [done|congruence| |done|by rewrite Tn].
      rewrite Ac. destruct events as [|y l]; cbn.
      * apply bool_decide_eq_true. by apply Em.
      * apply bool_decide_eq_false. by intros N%Em.
  - by rewrite at_last_snoc.
  - rewrite Tn. destruct events as [|y l]; [done|]. cbn in *. rewrite <-Tn, Ot. done.
  - split; [done|]. intros t. rewrite Tn. intros [= <-].
    destruct (decide (st_phase s = PH_awaiting_acceptance)) as [P|P].
    + rewrite <-Oex. by apply Ex.
    + apply Om. by apply Tu.
  - by rewrite sum_map_snoc, <-Oo.
  - exists ds'. rewrite !len_map in *. split_and!; try done. intros a.
    rewrite Hd', Hd, stream_artifacts_snoc, elem_of_app. done.
  - split; [done|]. intros x Hx T. apply elem_of_app in Hx as [Hx|Hx].
    + apply list_elem_of_lookup in Hx as [i Hx]. by rewrite (Op i x Hx) in T.
    + apply list_elem_of_singleton in Hx as ->. specialize (Tm T). rewrite U in Tm.
      intros N. by rewrite N in Tm.
Qed.

Lemma stream_accounts policy expected events s :
  accept_stream policy (createHostEventStreamState expected) events = Ok s ->
  stream_ok policy expected events s.
Proof.
  revert s. induction events as [|e events IH] using rev_ind; intros s R.
  - injection R as <-. constructor; try done; cbn.
    + exists []. split_and!; try done. apply NoDup_nil_2.
    + split; [done|]. intros e He. by apply not_elem_of_nil in He.
  - rewrite accept_stream_snoc in R. destruct (accept_stream _ _ _) as [s0|]; [|discriminate].
    eapply stream_ok_step; [by apply IH|done].
Qed.

(** *** Usage reports *)
Lemma usages_snoc events e :
  usages (events ++ [e]) = usages events ++ match event_usage e with Some u => [u] | None => [] end.
Proof. unfold usages. rewrite omap_snoc. done. Qed.

Lemma next_usage_inv policy usage u r :
  next_usage policy usage (HE_usage u) = Ok r ->
  (forall i o, u = UsageAvailable i o -> i + o <= policy.(maxTokens) /\
     policy.(policy_usage) <> unavailable) /\
  (forall i o, usage = Some (UsageAvailable i o) ->
     exists i' o', u = UsageAvailable i' o' /\ i <= i' /\ o <= o').
Proof.
  unfold next_usage. intros R. ok_inv R. split.
  - intros i o ->. bool_hyps. done.
  - intros i o ->. cbn in *. destruct u as [i' o'|]; [|discriminate]. bool_hyps. by exists i', o'.
Qed.

Lemma stream_usages policy expected events s :
  accept_stream policy (createHostEventStreamState expected) events = Ok s ->
  (forall u i o, u ∈ usages events -> u = UsageAvailable i o ->
     i + o <= policy.(maxTokens) /\ policy.(policy_usage) <> unavailable) /\
  (forall j k u v i o, (j <= k)%nat -> usages events !! j = Some u -> usages events !! k = Some v ->
     u = UsageAvailable i o -> exists i' o', v = UsageAvailable i' o' /\ i <= i' /\ o <= o').
Proof.
  revert s. induction events as [|e events IH] using rev_ind; intros s R.
  { split; [intros ? ? ? He; by apply not_elem_of_nil in He|done]. }
  rewrite accept_stream_snoc in R. destruct (accept_stream _ _ _) as [s0|] eqn:R0; [|discriminate].
  destruct (IH s0 eq_refl) as [Lim Mon]. apply stream_accounts in R0 as [_ _ _ _ _ _ _ [Us _]].
  apply accept_inv in R as [_ _ _ _ _ (keys & size & usage & _ & _ & _ & _ & U & _)].
  rewrite usages_snoc. destruct (event_usage e) as [w|] eqn:Ew;
    [|rewrite app_nil_r; split; [exact Lim|exact Mon]].
  assert (Ek : e.(he_kind) = HE_usage w).
  { unfold event_usage in Ew. destruct e.(he_kind); congruence. }
  rewrite Ek, Us in U. apply next_usage_inv in U as [Lw Mw]. split.
  - intros u i o [Hu|Hu]%elem_of_app; [by apply Lim|]. apply list_elem_of_singleton in Hu as ->. apply Lw.
  - intros j k u v i o Jk Hj Hk ->.
    apply lookup_snoc_inv in Hk as [Hk|[-> ->]].
    + pose proof (lookup_lt_Some _ _ _ Hk). rewrite lookup_app_l in Hj by lia. exact (Mon j k _ v i o Jk Hj Hk eq_refl).
    + apply lookup_snoc_inv in Hj as [Hj|[-> Eu]]; [|subst w; by exists i, o].
      pose proof (lookup_lt_Some _ _ _ Hj). rewrite at_last_lookup in Mw.
      destruct (usages events !! pred (length (usages events))) as [z|] eqn:Z.
      * destruct (Mon j (pred (length (usages events))) _ z i o ltac:(lia) Hj Z eq_refl) as (i1 & o1 & -> & ? & ?).
        destruct (Mw i1 o1 eq_refl) as (i2 & o2 & -> & ? & ?). exists i2, o2.
        split_and!; [done|lia|lia].
      * apply lookup_ge_None in Z. lia.
Qed.

(** ** Properties *)

(** C33: the shape of an accepted stream.  Whatever events a host sends and
    [acceptHostEvent] lets through: they are numbered 1, 2, 3, ...; the first and
    only the first is the acceptance, for the expected turn; all name that one
    turn; a terminal event can only be the last, comes after a usage report, and
    makes the stream refuse every further event. *)
Theorem stream_shape policy expected events s :
  accept_stream policy (createHostEventStreamState expected) events = Ok s ->
  (forall i e, events !! i = Some e ->
     e.(he_sequence) = Z.of_nat i + 1 /\ is_accepted e.(he_kind) = (Z.of_nat i =? 0) /\
     matchesExpectedHostTurn expected e.(he_turn) = true /\
     (forall first, head events = Some first -> e.(he_turn) = first.(he_turn)) /\
     (is_terminal_kind e.(he_kind) = true -> Z.of_nat i + 1 = len events /\ usages events <> [] /\
        forall policy' next, is_ok (acceptHostEvent s next policy') = false)).
Proof.
  intros R%stream_accounts i e E. destruct R as [Sq Ev Ph Tu [_ Ma] _ _ [_ Us]].
  destruct (Ev i e E) as (? & ? & ? & L & T). split_and!; try done.
  - by apply Ma.
  - intros f Hf. rewrite Tu, Hf in T. by injection T.
  - intros Te. split_and!; [by apply L|by eapply Us, Te; apply list_elem_of_lookup_2 in E|].
    intros policy' next. destruct (acceptHostEvent s next policy') as [s'|] eqn:A; [|done].
    apply accept_inv in A as [_ _ Op _ _ _]. destruct Op. rewrite Ph, at_last_lookup.
    specialize (L Te). unfold len in L. replace (pred (length events)) with i by lia. by rewrite E, Te.
Qed.

(** The limits of an accepted stream, and its accounting.  The stream has at
    most [maxEvents] events; the recorded output is the sum of the text bytes of
    all its events and at most [maxOutputBytes]; the recorded artifacts are
    exactly the distinct artifacts its events name, each counted once, at most
    [maxArtifacts] of them with at most [maxArtifactBytes] bytes in total. *)
Theorem stream_limits policy expected events s :
  accept_stream policy (createHostEventStreamState expected) events = Ok s -> events <> [] ->
  len events <= policy.(maxEvents) /\
  s.(outputBytes) = sum (map textBytesInHostEvent events) /\
  s.(outputBytes) <= policy.(maxOutputBytes) /\
  exists distinct, NoDup distinct /\
    (forall a, a ∈ distinct <-> a ∈ stream_artifacts events) /\
    s.(artifactCount) = len distinct /\ s.(artifactCount) <= policy.(maxArtifacts) /\
    s.(artifactBytes) = sum (map art_byte_size distinct) /\
    s.(artifactBytes) <= policy.(maxArtifactBytes).
Proof.
  intros R%stream_accounts N.
  destruct R as [Sq Ev _ _ _ [Oo Ob] (ds & Nd & Hd & _ & Cd & Bd & Li) _].
  destruct (Li N) as [L1 L2]. split_and!; [|done|by apply Ob|].
  - destruct (lookup_lt_is_Some_2 events (pred (length events))) as [e E].
    { destruct events; [done|]. cbn. lia. }
    destruct (Ev _ _ E) as (E1 & E2 & _). unfold len. destruct events; [done|]. cbn in *. lia.
  - exists ds. rewrite Cd. done.
Qed.

(** Usage only grows.  In an accepted stream, once a usage report gives token
    counts, every later report gives token counts too, and none of the two counts
    decreases; every reported total is within [maxTokens]; and a host whose policy
    says usage is unavailable reports no counts. *)
Theorem usage_monotone policy expected events s :
  accept_stream policy (createHostEventStreamState expected) events = Ok s ->
  (forall j k i o v, (j <= k)%nat -> usages events !! j = Some (UsageAvailable i o) ->
     usages events !! k = Some v ->
     exists i' o', v = UsageAvailable i' o' /\ i <= i' /\ o <= o') /\
  (forall i o, UsageAvailable i o ∈ usages events ->
     i + o <= policy.(maxTokens) /\ policy.(policy_usage) <> unavailable).
Proof.
  intros R. destruct (stream_usages _ _ _ _ R) as [Lim Mon]. split; eauto.
Qed.

Lemma map_result_ok {E A B} (f : A -> result E B) (g : A -> B) l :
  (forall x, x ∈ l -> f x = Ok (g x)) -> map_result f l = Ok (map g l).
Proof.
  induction l as [|x l IH]; cbn; intros F; [done|].
  rewrite F, IH; [done| |by left]. intros y Hy. apply F. by right.
Qed.

(** The prompt texts a host gets come from the Mission context alone.  For a
    valid context and one of its participants, [deriveHostMissionInputs] returns,
    and its objective, assignment and criteria are the manifest's own texts, all
    attributed to the principal who created the Mission. *)
Theorem derive_inputs_total context p :
  missionContextSchema context = true -> p ∈ context.(ctx_manifest).(man_participants) ->
  let author t := {| hm_text := t;
                     hm_authorPrincipalId := context.(ctx_created_by).(actor_principal_id) |} in
  deriveHostMissionInputs context p.(part_agent_id) =
    Ok {| hi_objective := author context.(ctx_manifest).(man_objective);
          hi_assignment := author p.(part_initial_assignment);
          hi_acceptanceCriteria :=
            map author context.(ctx_manifest).(man_public_acceptance_criteria) |}.
Proof.
  intros V Hp. unfold deriveHostMissionInputs. rewrite V. cbn [negb].
  unfold missionContextSchema, missionManifestSchema, actorRefSchema in V. bool_hyps.
  match goal with E : every participantSchema _ = true |- _ => rename E into Ps end.
  match goal with E : every acceptanceCriterionSchema _ = true |- _ => rename E into Cs end.
  rewrite every_iff in Ps. rewrite every_iff in Cs.
  assert (Up : uuidSchema p.(part_agent_id) = true).
  { apply Ps in Hp. unfold participantSchema in Hp. by bool_hyps. }
  rewrite Up. cbn [negb]. destruct (array_find _ _) as [q|] eqn:F.
  2: { rewrite array_find_None in F. apply F in Hp. by bool_hyps. }
  apply array_find_Some in F as [Hq Eq]. bool_hyps. cbv zeta.
  match goal with I : no_issues (missionManifestIssues _) = true |- _ =>
    unfold missionManifestIssues in I; rewrite !no_issues_app, !no_issues_if in I; bool_hyps end.
  match goal with U : hasUniqueValues (map part_agent_id _) = true |- _ =>
    apply unique_values_iff in U; apply (NoDup_map_eq _ _ _ _ U Hq Hp) in Eq as -> end.
  assert (Ok_ : forall t, hostTextSchema t = true ->
    hostMissionTextInputSchema {| hm_text := t;
      hm_authorPrincipalId := context.(ctx_created_by).(actor_principal_id) |} = true).
  { intros t Ht. unfold hostMissionTextInputSchema. cbn. by rewrite Ht. }
  apply Ps in Hq. unfold participantSchema in Hq. bool_hyps.
  rewrite !Ok_ by done. cbn [negb].
  rewrite (map_result_ok _ (fun t => {| hm_text := t;
      hm_authorPrincipalId := context.(ctx_created_by).(actor_principal_id) |})); [done|].
  intros t Ht. apply Cs in Ht. rewrite Ok_; [done|].
  unfold acceptanceCriterionSchema, bounded, hostTextSchema, MAX_HOST_TEXT_LENGTH in *. bool_hyps.
  apply andb_true_iff. split; [apply andb_true_iff; split; apply Z.leb_le; lia|done].
Qed.
End streams.

(** ** Witnesses *)
#[local] Existing Instance example_zod.

Lemma stream_shape_witness :
  ex_stream !! 6%nat = Some (ex_host_event 7 (HE_completed (Reply T_answer "Agreed" (Some [ex_artifact 2])))) /\
  is_ok (acceptHostEvent ex_stream_end (ex_host_event 8 HE_cancelled)
           DEFAULT_HOST_EVENT_STREAM_POLICY) = false.
Proof.
  assert (R : accept_stream DEFAULT_HOST_EVENT_STREAM_POLICY
    (createHostEventStreamState ex_expected) ex_stream = Ok ex_stream_end) by (vm_compute; reflexivity).
  split; [reflexivity|].
  destruct (stream_shape _ _ _ _ R 6%nat _ eq_refl) as (_ & _ & _ & _ & T).
  destruct (T eq_refl) as (_ & _ & N). apply N.
Defined.

Lemma stream_limits_witness :
  exists distinct, NoDup distinct /\ len distinct = 2 /\
    1024 = sum (map art_byte_size distinct).
Proof.
  assert (R : accept_stream DEFAULT_HOST_EVENT_STREAM_POLICY
    (createHostEventStreamState ex_expected) ex_stream = Ok ex_stream_end) by (vm_compute; reflexivity).
  destruct (stream_limits _ _ _ _ R ltac:(discriminate))
    as (_ & _ & _ & ds & N & _ & C & _ & B & _).
  exists ds. split; [exact N|]. split; [symmetry; exact C|exact B].
Defined.

Lemma usage_monotone_witness : 12 + 7 <= 100000000.
Proof.
  assert (R : accept_stream DEFAULT_HOST_EVENT_STREAM_POLICY
    (createHostEventStreamState ex_expected) ex_stream = Ok ex_stream_end) by (vm_compute; reflexivity).
  destruct (usage_monotone _ _ _ _ R) as [_ L].
  apply (L 12 7). right. left.
Defined.

Lemma derive_inputs_total_witness :
  is_ok (deriveHostMissionInputs ex_cfg.(MissionEvents.cfg_mission_context) ex_agent_b) = true.
Proof.
  pose proof (derive_inputs_total ex_cfg.(MissionEvents.cfg_mission_context)
                (ex_participant ex_agent_b "server") eq_refl ltac:(right; left)) as E.
  cbv zeta in E. change (part_agent_id _) with ex_agent_b in E. rewrite E. reflexivity.
Defined.
