(* ===== verification/JsonValue.v ===== *)
(** * JSON values

    The JSON data the hosts exchange, [canonicalJson] and the bounds that
    [sanitizeJsonValue] (protocol/src/adapter.ts) enforces.  A number is the
    text [JSON.stringify] gives it; [JNotFinite] stands for the infinities
    [JSON.parse] can produce.  The value types of the model cannot be cyclic,
    aliased, sparse or accessors, so those branches of the sanitizer do not
    arise.  [JSON.parse] and node's sha256 are parameters. *)

From Stdlib Require Import Ascii.
From S2P Require Import Prelude JsLib Json.
From stdpp Require Import sorting.
Local Open Scope Z_scope.

Inductive JsonValue :=
| JNull
| JBool (b : bool)
| JNumber (text : string)
| JNotFinite
| JString (s : string)
| JArray (items : list JsonValue)
| JObject (fields : list (string * JsonValue)).

(** [JSON.parse(text)], [None] when it throws, and [createHash("sha256")] of a
    UTF-8 text as lowercase hexadecimal digits. *)
Class NodeJs := {
  JSON_parse : string -> option JsonValue;
  sha256 : string -> string
}.

(** ** Decided equality *)
#[export] Instance JsonValue_eq_dec : EqDecision JsonValue.
Proof.
  refine (fix go (a b : JsonValue) : {a = b} + {a <> b} := _).
  refine (match a, b with
  | JNull, JNull => left eq_refl
  | JBool x, JBool y => cast_if (decide (x = y))
  | JNumber x, JNumber y => cast_if (decide (x = y))
  | JNotFinite, JNotFinite => left eq_refl
  | JString x, JString y => cast_if (decide (x = y))
  | JArray x, JArray y => cast_if (list_eq_dec (dec := go) x y)
  | JObject x, JObject y => cast_if (list_eq_dec (dec := @prod_eq_dec string _ JsonValue go) x y)
  | _, _ => right _
  end); abstract congruence.
Defined.

(** ** [canonicalJson]: no white space, keys in code unit order *)
Definition key_le (a b : string * string) : Prop := string_gtb a.1 b.1 = false.
#[export] Instance key_le_dec a b : Decision (key_le a b).
Proof. unfold key_le. apply _. Defined.

(** [texts.join(separator)] *)
Fixpoint join (separator : string) (texts : list string) : string :=
  match texts with
  | [] => ""
  | [t] => t
  | t :: texts => t +:+ separator +:+ join separator texts
  end.

Fixpoint canonicalJson (v : JsonValue) : string :=
  match v with
  | JNull | JNotFinite => "null"
  | JBool b => if b then "true" else "false"
  | JNumber n => n
  | JString s => json_string s
  | JArray l => "[" +:+ join "," (map canonicalJson l) +:+ "]"
  | JObject l =>
      let texts := map (fun kv => (kv.1, canonicalJson kv.2)) l in
      "{" +:+ join "," (map (fun kt => json_string kt.1 +:+ ":" +:+ kt.2) (merge_sort key_le texts))
      +:+ "}"
  end.

(** [isDeepStrictEqual] on JSON values: object keys in any order. *)
Fixpoint isDeepStrictEqual (a b : JsonValue) : bool :=
  match a, b with
  | JArray x, JArray y =>
      (fix items (x y : list JsonValue) : bool :=
         match x, y with
         | [], [] => true
         | u :: x, v :: y => isDeepStrictEqual u v && items x y
         | _, _ => false
         end) x y
  | JObject x, JObject y =>
      (len x =? len y) &&
      forallb (fun kv => match array_find (fun kw => kw.1 === kv.1) y with
                         | Some kw => isDeepStrictEqual kv.2 kw.2
                         | None => false
                         end) x
  | JArray _, _ | JObject _, _ => false
  | _, _ => a === b
  end.

(** ** The sanitizer *)
Definition MAX_JSON_STRING : Z := 16000.
Definition MAX_HOST_ITEMS : Z := 64.
Definition MAX_JSON_DEPTH : Z := 32.
Definition MAX_JSON_NODES : Z := 4096.

(** The values [visit] is called on. *)
Fixpoint json_nodes (v : JsonValue) : Z :=
  match v with
  | JArray l => 1 + foldr Z.add 0 (map json_nodes l)
  | JObject l => 1 + foldr Z.add 0 (map (fun kv => json_nodes kv.2) l)
  | _ => 1
  end.

(** The tests of [visit] at a depth, the count of nodes apart. *)
Fixpoint visit (depth : Z) (v : JsonValue) : bool :=
  (depth <=? MAX_JSON_DEPTH) &&
  match v with
  | JNull | JBool _ | JNumber _ => true
  | JNotFinite => false
  | JString s => slen s <=? MAX_JSON_STRING
  | JArray l => (len l <=? MAX_HOST_ITEMS) && forallb (visit (depth + 1)) l
  | JObject l =>
      (len l <=? MAX_HOST_ITEMS) &&
      forallb (fun kv => (slen kv.1 <=? 256) && visit (depth + 1) kv.2) l
  end.

(** [jsonValueSchema.safeParse(value)]: the value itself when it is bounded. *)
Definition jsonValueSchema (v : JsonValue) : option JsonValue :=
  if (json_nodes v <=? MAX_JSON_NODES) && visit 0 v then Some v else None.

Definition json_int (n : Z) : JsonValue := JNumber (string_of_int n).

(** ** Examples *)
Example canonical_sorts :
  canonicalJson (JObject [("b", json_int 2); ("a", JArray [JNull; JString "x"])]) =
  "{" +:+ json_string "a" +:+ ":[null," +:+ json_string "x" +:+ "]," +:+ json_string "b" +:+ ":2}".
Proof. vm_compute. reflexivity. Qed.

Lemma jsonValueSchema_same v w : jsonValueSchema v = Some w -> w = v.
Proof. unfold jsonValueSchema. destruct (_ && _); [|done]. by intros [= ->]. Qed.
