(* ===== verification/TurnInput.v ===== *)
(** * The input of a host turn: the rest of [protocol/src/adapter.ts]

    Artifact payloads, checked against the hash, length and media type of the
    artifact they claim to be, and the inputs a turn is started with.  Parsing a
    JSON payload recomputes its value from the raw text, so a parsed input is
    determined by what was sent and equal inputs are structurally equal. *)

From Stdlib Require Import Ascii.
From S2P Require Import Prelude JsLib Json Schemas.
From S2P Require Import HostEvents JsonValue.
Local Open Scope Z_scope.

#[export] Instance SessionInput_eq_dec : EqDecision SessionInput.
Proof. solve_decision. Defined.
#[export] Instance HostSessionRef_eq_dec : EqDecision HostSessionRef.
Proof. solve_decision. Defined.
#[export] Instance HostMissionTextInput_eq_dec : EqDecision HostMissionTextInput.
Proof. solve_decision. Defined.
#[export] Instance HostPeerMessageInput_eq_dec : EqDecision HostPeerMessageInput.
Proof. solve_decision. Defined.

(** node's sha256 digests are 64 lowercase hexadecimal digits. *)
Class NodeLaws `{NodeJs} : Prop := { sha256_hex : forall s, sha256Schema (sha256 s) = true }.

(** ** Media types *)
(** [s.split(c, 1)[0]] *)
Fixpoint split_first (c : Ascii.ascii) (s : string) : string :=
  match s with
  | EmptyString => EmptyString
  | String d s => if Ascii.eqb c d then EmptyString else String d (split_first c s)
  end.

Definition hasJsonMediaType (mediaType : string) : bool :=
  let essence := to_lower (trim (split_first ";"%char mediaType)) in
  (essence === "application/json") ||
  (starts_with "application/" essence &&
   (let subtype := drop_chars 12 essence in
    all_chars (fun c => negb ((c =? 47) || (c =? 59))) subtype &&
    ends_with "+json" subtype && (6 <=? slen subtype))).

(** ** Artifact payloads *)
Inductive HostArtifactPayloadInput :=
| TextInput (text : string)
| JsonInput (rawText : string) (value : option JsonValue).
Inductive HostArtifactPayload :=
| PText (text : string)
| PJson (rawText : string) (value : JsonValue).
#[export] Instance HostArtifactPayload_eq_dec : EqDecision HostArtifactPayload.
Proof. solve_decision. Defined.

Definition hostArtifactTextSchema (s : string) : bool := slen s <=? MAX_ARTIFACT_BYTES.

Definition hostArtifactPayloadSchema `{NodeJs} (payload : HostArtifactPayloadInput)
    : option HostArtifactPayload :=
  match payload with
  | TextInput text => if hostArtifactTextSchema text then Some (PText text) else None
  | JsonInput rawText value =>
      if negb (hostArtifactTextSchema rawText) then None else
      rawValue ← JSON_parse rawText;
      parsed ← jsonValueSchema rawValue;
      match value with
      | None => Some (PJson rawText parsed)
      | Some v =>
          asserted ← jsonValueSchema v;
          if canonicalJson asserted === canonicalJson parsed then Some (PJson rawText parsed) else None
      end
  end.

Definition serializeHostArtifactPayload (payload : HostArtifactPayload) : string :=
  match payload with PText text => text | PJson rawText _ => rawText end.
Definition is_json (payload : HostArtifactPayload) : bool :=
  match payload with PText _ => false | PJson _ _ => true end.

Record HostInputArtifactOf (P : Type) := {
  hia_artifact : ArtifactRef; hia_source : ActorRef; hia_payload : P
}.
Arguments hia_artifact {P}.
Arguments hia_source {P}.
Arguments hia_payload {P}.
Notation HostInputArtifactInput := (HostInputArtifactOf HostArtifactPayloadInput).
Notation HostInputArtifact := (HostInputArtifactOf HostArtifactPayload).
#[export] Instance HostInputArtifactOf_eq_dec {P} `{EqDecision P} : EqDecision (HostInputArtifactOf P).
Proof. solve_decision. Defined.

Definition hostInputArtifactIssues `{NodeJs} (artifact : HostInputArtifact) : issues :=
  let serialized := serializeHostArtifactPayload artifact.(hia_payload) in
  let ref := artifact.(hia_artifact) in
  issue_if (negb (Bool.eqb (hasJsonMediaType ref.(art_media_type)) (is_json artifact.(hia_payload))))
    "JSON media types require a JSON payload, and vice versa" ++
  issue_if (utf8_length serialized !== ref.(art_byte_size))
    "Artifact byte length does not match its UTF-8 payload" ++
  issue_if (sha256 serialized !== ref.(art_sha256)) "Artifact hash does not match its UTF-8 payload".

Definition hostInputArtifactSchema `{Zod} `{NodeJs} (artifact : HostInputArtifactInput)
    : option HostInputArtifact :=
  if negb (artifactRefSchema artifact.(hia_artifact) && actorRefSchema artifact.(hia_source))
  then None else
  payload ← hostArtifactPayloadSchema artifact.(hia_payload);
  let parsed := {| hia_artifact := artifact.(hia_artifact); hia_source := artifact.(hia_source);
                   hia_payload := payload |} in
  if no_issues (hostInputArtifactIssues parsed) then Some parsed else None.

(** ** Turn inputs *)
Record TurnInputOf (P : Type) := {
  ti_session : HostSessionRef;
  ti_missionId : string;
  ti_contractVersion : Z;
  ti_missionSequence : Z;
  ti_objective : HostMissionTextInput;
  ti_assignment : HostMissionTextInput;
  ti_acceptanceCriteria : list HostMissionTextInput;
  ti_peerMessages : list HostPeerMessageInput;
  ti_artifacts : list (HostInputArtifactOf P)
}.
Arguments ti_session {P}.
Arguments ti_missionId {P}.
Arguments ti_contractVersion {P}.
Arguments ti_missionSequence {P}.
Arguments ti_objective {P}.
Arguments ti_assignment {P}.
Arguments ti_acceptanceCriteria {P}.
Arguments ti_peerMessages {P}.
Arguments ti_artifacts {P}.
Notation TurnInput := (TurnInputOf HostArtifactPayload).
#[export] Instance TurnInputOf_eq_dec {P} `{EqDecision P} : EqDecision (TurnInputOf P).
Proof. solve_decision. Defined.

(** [StartTurnInput]: a turn input with its delivery and attempt. *)
Record StartTurnInputOf (P : Type) := {
  sti_turn : TurnInputOf P; sti_deliveryId : string; sti_executionAttempt : Z
}.
Arguments sti_turn {P}.
Arguments sti_deliveryId {P}.
Arguments sti_executionAttempt {P}.
Notation StartTurnInput := (StartTurnInputOf HostArtifactPayload).
#[export] Instance StartTurnInputOf_eq_dec {P} `{EqDecision P} : EqDecision (StartTurnInputOf P).
Proof. solve_decision. Defined.

Definition MAX_HOST_PEER_MESSAGES : Z := 64.

(** The fields of [turnInputObjectSchema] other than the artifacts. *)
Definition turnInputFields `{Zod} {P} (t : TurnInputOf P) : bool :=
  hostSessionRefSchema t.(ti_session) && uuidSchema t.(ti_missionId) &&
  contractVersionSchema t.(ti_contractVersion) && safe_positive t.(ti_missionSequence) &&
  hostMissionTextInputSchema t.(ti_objective) && hostMissionTextInputSchema t.(ti_assignment) &&
  every hostMissionTextInputSchema t.(ti_acceptanceCriteria) &&
  (1 <=? len t.(ti_acceptanceCriteria)) && (len t.(ti_acceptanceCriteria) <=? 32) &&
  every hostPeerMessageInputSchema t.(ti_peerMessages) &&
  (len t.(ti_peerMessages) <=? MAX_HOST_PEER_MESSAGES) && (len t.(ti_artifacts) <=? 16).

Definition turnInputSchema `{Zod} `{NodeJs} (t : TurnInputOf HostArtifactPayloadInput)
    : option TurnInput :=
  if negb (turnInputFields t) then None else
  artifacts ← mapM hostInputArtifactSchema t.(ti_artifacts);
  if t.(ti_missionId) === t.(ti_session).(hs_input).(ses_missionId)
  then Some {| ti_session := t.(ti_session); ti_missionId := t.(ti_missionId);
               ti_contractVersion := t.(ti_contractVersion);
               ti_missionSequence := t.(ti_missionSequence); ti_objective := t.(ti_objective);
               ti_assignment := t.(ti_assignment);
               ti_acceptanceCriteria := t.(ti_acceptanceCriteria);
               ti_peerMessages := t.(ti_peerMessages); ti_artifacts := artifacts |}
  else None.

Definition startTurnInputSchema `{Zod} `{NodeJs} (i : StartTurnInputOf HostArtifactPayloadInput)
    : option StartTurnInput :=
  if negb (uuidSchema i.(sti_deliveryId) && hostExecutionAttemptSchema i.(sti_executionAttempt))
  then None else
  turn ← turnInputSchema i.(sti_turn);
  Some {| sti_turn := turn; sti_deliveryId := i.(sti_deliveryId);
          sti_executionAttempt := i.(sti_executionAttempt) |}.

(** A parsed input as an input again, as [startTurnInputSchema.parse] gets it from storage. *)
Definition payload_input (p : HostArtifactPayload) : HostArtifactPayloadInput :=
  match p with PText text => TextInput text | PJson rawText value => JsonInput rawText (Some value) end.
Definition artifact_input (a : HostInputArtifact) : HostInputArtifactInput :=
  {| hia_artifact := a.(hia_artifact); hia_source := a.(hia_source);
     hia_payload := payload_input a.(hia_payload) |}.
Definition turn_input (t : TurnInput) : TurnInputOf HostArtifactPayloadInput := {|
  ti_session := t.(ti_session); ti_missionId := t.(ti_missionId);
  ti_contractVersion := t.(ti_contractVersion); ti_missionSequence := t.(ti_missionSequence);
  ti_objective := t.(ti_objective); ti_assignment := t.(ti_assignment);
  ti_acceptanceCriteria := t.(ti_acceptanceCriteria); ti_peerMessages := t.(ti_peerMessages);
  ti_artifacts := map artifact_input t.(ti_artifacts)
|}.
Definition start_input (i : StartTurnInput) : StartTurnInputOf HostArtifactPayloadInput :=
  {| sti_turn := turn_input i.(sti_turn); sti_deliveryId := i.(sti_deliveryId);
     sti_executionAttempt := i.(sti_executionAttempt) |}.

(** ** As JSON objects *)
Definition message_type_text (t : MessageType) : string :=
  match t with
  | T_question => "question" | T_answer => "answer" | T_proposal => "proposal"
  | T_decision => "decision" | T_progress => "progress" | T_blocker => "blocker"
  end.
Definition actor_json (a : ActorRef) : JsonValue :=
  JObject [("principal_id", JString a.(actor_principal_id));
           ("kind", JString (match a.(actor_kind) with A_owner => "owner" | A_agent => "agent" end))].
Definition artifact_ref_json (a : ArtifactRef) : JsonValue :=
  JObject [("artifact_id", JString a.(art_artifact_id)); ("type", JString a.(art_type));
           ("version", json_int a.(art_version)); ("sha256", JString a.(art_sha256));
           ("media_type", JString a.(art_media_type)); ("byte_size", json_int a.(art_byte_size))].
Definition session_fields (s : SessionInput) : list (string * JsonValue) :=
  [("missionId", JString s.(ses_missionId)); ("participantId", JString s.(ses_participantId));
   ("workspaceAlias", JString s.(ses_workspaceAlias))].
Definition session_json (s : SessionInput) : JsonValue := JObject (session_fields s).
Definition session_ref_json (s : HostSessionRef) : JsonValue :=
  JObject (session_fields s.(hs_input) ++ [("sessionId", JString s.(hs_sessionId))]).
Definition mission_text_json (t : HostMissionTextInput) : JsonValue :=
  JObject [("text", JString t.(hm_text)); ("authorPrincipalId", JString t.(hm_authorPrincipalId));
           ("provenance", JString "mission_manifest")].
Definition peer_message_json (m : HostPeerMessageInput) : JsonValue :=
  JObject [("messageId", JString m.(hp_messageId)); ("authorAgentId", JString m.(hp_authorAgentId));
           ("kind", JString (message_type_text m.(hp_kind))); ("body", JString m.(hp_body))].
Definition payload_json (p : HostArtifactPayload) : JsonValue :=
  match p with
  | PText text => JObject [("kind", JString "text"); ("text", JString text)]
  | PJson rawText value =>
      JObject [("kind", JString "json"); ("rawText", JString rawText); ("value", value)]
  end.
Definition input_artifact_json (a : HostInputArtifact) : JsonValue :=
  JObject [("artifact", artifact_ref_json a.(hia_artifact)); ("source", actor_json a.(hia_source));
           ("payload", payload_json a.(hia_payload))].
Definition start_turn_input_json (i : StartTurnInput) : JsonValue :=
  let t := i.(sti_turn) in
  JObject [("session", session_ref_json t.(ti_session)); ("missionId", JString t.(ti_missionId));
    ("contractVersion", json_int t.(ti_contractVersion));
    ("missionSequence", json_int t.(ti_missionSequence));
    ("objective", mission_text_json t.(ti_objective));
    ("assignment", mission_text_json t.(ti_assignment));
    ("acceptanceCriteria", JArray (map mission_text_json t.(ti_acceptanceCriteria)));
    ("peerMessages", JArray (map peer_message_json t.(ti_peerMessages)));
    ("artifacts", JArray (map input_artifact_json t.(ti_artifacts)));
    ("deliveryId", JString i.(sti_deliveryId));
    ("executionAttempt", json_int i.(sti_executionAttempt))].

(** ** Lemmas *)
Section Parsing.
Context `{Zod} `{NodeJs}.

(** Parsing a parsed input again returns it. *)
Lemma payload_reparse p q :
  hostArtifactPayloadSchema p = Some q -> hostArtifactPayloadSchema (payload_input q) = Some q.
Proof.
  destruct p as [t|r v]; cbn.
  - destruct (hostArtifactTextSchema t) eqn:E; [|done]. intros [= <-]. cbn. by rewrite E.
  - destruct (hostArtifactTextSchema r) eqn:E; cbn; [|done].
    destruct (JSON_parse r) as [j|] eqn:J; cbn; [|done].
    destruct (jsonValueSchema j) as [w|] eqn:S; cbn; [|done]. intros Q.
    assert (q = PJson r w) as ->.
    { destruct v as [v|]; cbn in Q; [|congruence]. destruct (jsonValueSchema v); cbn in Q; [|done].
      case_bool_decide; congruence. }
    apply jsonValueSchema_same in S as W. subst w. cbn. rewrite E. cbn. rewrite J. cbn. rewrite S. cbn.
    by rewrite bool_decide_eq_true_2.
Qed.

Lemma artifact_reparse a b :
  hostInputArtifactSchema a = Some b -> hostInputArtifactSchema (artifact_input b) = Some b.
Proof.
  unfold hostInputArtifactSchema. destruct (artifactRefSchema _ && _) eqn:E; cbn; [|done].
  destruct (hostArtifactPayloadSchema _) as [p|] eqn:P; cbn; [|done].
  destruct (no_issues _) eqn:I; [|done]. intros [= <-]. cbn. rewrite E. cbn.
  rewrite (payload_reparse _ _ P). cbn. by rewrite I.
Qed.

Lemma artifacts_reparse l k :
  mapM hostInputArtifactSchema l = Some k ->
  mapM hostInputArtifactSchema (map artifact_input k) = Some k /\ len k = len l.
Proof.
  rewrite mapM_Some. intros F. split; [apply mapM_Some|].
  - induction F; constructor; [by eapply artifact_reparse|done].
  - unfold len. by rewrite (Forall2_length _ _ _ F).
Qed.

Lemma turn_reparse t u : turnInputSchema t = Some u -> turnInputSchema (turn_input u) = Some u.
Proof.
  unfold turnInputSchema. destruct (turnInputFields t) eqn:E; cbn; [|done].
  destruct (mapM _ _) as [k|] eqn:M; cbn; [|done]. case_bool_decide as S; [|done]. intros [= <-].
  apply artifacts_reparse in M as [M L]. unfold turn_input, turnInputFields in *. cbn.
  rewrite len_map, L, E. cbn. rewrite M. cbn. by rewrite bool_decide_eq_true_2.
Qed.

Lemma start_reparse i j :
  startTurnInputSchema i = Some j -> startTurnInputSchema (start_input j) = Some j.
Proof.
  unfold startTurnInputSchema. destruct (uuidSchema _ && _) eqn:E; cbn; [|done].
  destruct (turnInputSchema _) as [t|] eqn:T; cbn; [|done]. intros [= <-]. cbn. rewrite E. cbn.
  by rewrite (turn_reparse _ _ T).
Qed.
End Parsing.

(** ** Examples *)
Example json_media_types :
  map hasJsonMediaType ["application/json"; " Application/VND.api+JSON ; charset=utf-8";
                        "application/+json"; "text/json"; "application/a/b+json"] =
  [true; true; false; false; false].
Proof. vm_compute. reflexivity. Qed.
