(* ===== verification/RelayStore.v ===== *)
(** * The relay's store

    The part of [relay/src/db/schema.ts] the mailbox services work on (the
    tables [agents], [agent_blocks], [handoffs], [messages], [mailbox_events]
    and [audit_log], with their primary keys, unique indexes, checks and
    foreign keys), the errors of [relay/src/errors.ts], and a transaction monad.

    A table is the list of its rows in insertion order.  PostgreSQL is read as
    its documentation describes it: a statement that violates a constraint
    throws; a transaction that throws leaves the tables as they were, while the
    values its sequences handed out stay used; a notification is sent only by a
    commit.  Transactions run one at a time: [held] records the locks the
    current one has taken, in order.  Random ids come from [gen_random_uuid],
    [now] is the transaction's timestamp in milliseconds. *)

From S2P Require Import Prelude JsLib.
Local Open Scope Z_scope.

(** ** What the relay takes from outside: [jsonb] values up to
    [isDeepStrictEqual], and the database's random ids. *)
Class RelayEnv := {
  json : Type;
  json_eq_dec :: EqDecision json;
  json_is_string : json -> bool;
  json_is_array : json -> bool;
  gen_random_uuid : nat -> string
}.

(** ** Errors *)
Inductive ErrorSymbol :=
| parse_error | invalid_request | method_not_found | invalid_params | unauthenticated
| forbidden | rate_limited | recipient_not_found | not_a_participant | thread_not_found
| thread_terminal | invalid_transition | not_authorized_transition | state_changed
| duplicate_idempotency_key | invalid_intent_payload | teammate_blocked | node_not_found
| workspace_not_found | mission_not_found | delivery_not_found | internal.

#[export] Instance ErrorSymbol_eq_dec : EqDecision ErrorSymbol.
Proof. solve_decision. Defined.

Record ErrorMapping := { rpc : Z; http : Z }.

Definition ERROR_MAP (c : ErrorSymbol) : ErrorMapping :=
  match c with
  | parse_error => {| rpc := -32700; http := 400 |}
  | invalid_request => {| rpc := -32600; http := 400 |}
  | method_not_found => {| rpc := -32601; http := 404 |}
  | invalid_params => {| rpc := -32602; http := 400 |}
  | unauthenticated => {| rpc := -32001; http := 401 |}
  | forbidden => {| rpc := -32002; http := 403 |}
  | rate_limited => {| rpc := -32003; http := 429 |}
  | recipient_not_found => {| rpc := -32004; http := 404 |}
  | not_a_participant => {| rpc := -32005; http := 403 |}
  | thread_not_found => {| rpc := -32006; http := 404 |}
  | thread_terminal => {| rpc := -32007; http := 409 |}
  | invalid_transition => {| rpc := -32008; http := 409 |}
  | not_authorized_transition => {| rpc := -32009; http := 403 |}
  | state_changed => {| rpc := -32010; http := 409 |}
  | duplicate_idempotency_key => {| rpc := -32011; http := 409 |}
  | invalid_intent_payload => {| rpc := -32012; http := 400 |}
  | teammate_blocked => {| rpc := -32013; http := 403 |}
  | node_not_found => {| rpc := -32014; http := 404 |}
  | workspace_not_found => {| rpc := -32015; http := 404 |}
  | mission_not_found => {| rpc := -32016; http := 404 |}
  | delivery_not_found => {| rpc := -32017; http := 404 |}
  | internal => {| rpc := -32099; http := 500 |}
  end.

Record RelayError := { code : ErrorSymbol; message : string }.
Definition httpStatus (e : RelayError) : Z := http (ERROR_MAP (code e)).
Definition rpcCode (e : RelayError) : Z := rpc (ERROR_MAP (code e)).

(** What a service throws: one of the relay's errors, or the database's own. *)
Inductive Thrown :=
| Relay (e : RelayError)
| Constraint (name : string).

#[export] Instance RelayError_eq_dec : EqDecision RelayError.
Proof. solve_decision. Defined.
#[export] Instance Thrown_eq_dec : EqDecision Thrown.
Proof. solve_decision. Defined.

(** ** Rows *)
Inductive Intent := inform | ask_question | propose_action.
Inductive HandoffStatus := pending | accepted | completed | cancelled.
Inductive MailboxEventKind :=
| thread_created | message_appended | thread_accepted | thread_completed | thread_cancelled.

#[export] Instance Intent_eq_dec : EqDecision Intent.
Proof. solve_decision. Defined.
#[export] Instance HandoffStatus_eq_dec : EqDecision HandoffStatus.
Proof. solve_decision. Defined.
#[export] Instance MailboxEventKind_eq_dec : EqDecision MailboxEventKind.
Proof. solve_decision. Defined.

Definition intent_text (i : Intent) : string :=
  match i with
  | inform => "inform" | ask_question => "ask_question" | propose_action => "propose_action"
  end.
Definition status_text (s : HandoffStatus) : string :=
  match s with
  | pending => "pending" | accepted => "accepted" | completed => "completed" | cancelled => "cancelled"
  end.

Module Agents.
Inductive AgentStatus := active | disabled.
#[global] Instance AgentStatus_eq_dec : EqDecision AgentStatus.
Proof. solve_decision. Defined.
Record Agent := {
  id : string; handle : string; email : string; displayName : string; role : string;
  status : AgentStatus; createdAt : Z; updatedAt : Z
}.
End Agents.

Module AgentBlocks.
Record AgentBlock := { blockerId : string; blockedId : string; createdAt : Z }.
End AgentBlocks.

(** [ProposedActionInput]: its fields are the client's values, whose types the
    service tests at run time. *)
Record ProposedActionInput `{RelayEnv} := {
  description : json; target_files : json; rationale : json; suggested_diff : option json
}.
#[export] Instance ProposedActionInput_eq_dec `{RelayEnv} : EqDecision ProposedActionInput.
Proof. solve_decision. Defined.

Module Handoffs.
Record Handoff `{RelayEnv} := {
  id : string; senderId : string; recipientId : string; summary : string; intent : Intent;
  status : HandoffStatus; artifacts : list json; proposedAction : option ProposedActionInput;
  metadata : json; acceptedBySession : option string; acceptedAt : option Z;
  completedAt : option Z; completedSummary : option string; completionArtifacts : list json;
  cancelledAt : option Z; idempotencyKey : option string; createdAt : Z; updatedAt : Z
}.
#[global] Instance Handoff_eq_dec `{RelayEnv} : EqDecision Handoff.
Proof. solve_decision. Defined.
#[global] Instance Handoff_eta `{RelayEnv} : Settable Handoff := fun h =>
  Build_Handoff _ (id h) (senderId h) (recipientId h) (summary h) (intent h) (status h)
    (artifacts h) (proposedAction h) (metadata h) (acceptedBySession h) (acceptedAt h)
    (completedAt h) (completedSummary h) (completionArtifacts h) (cancelledAt h)
    (idempotencyKey h) (createdAt h) (updatedAt h).
End Handoffs.

Module Messages.
Record Message `{RelayEnv} := {
  id : string; handoffId : string; authorId : string; body : string; payload : json;
  artifacts : list json; sequenceNo : Z; idempotencyKey : option string; createdAt : Z
}.
End Messages.

Module MailboxEvents.
Record MailboxEvent := {
  id : string; cursor : Z; recipientAgentId : string; actorAgentId : string;
  threadId : string; kind : MailboxEventKind; sourceId : string; createdAt : Z
}.
End MailboxEvents.

Module AuditLog.
(** The audit metadata the services write: objects of strings, numbers, booleans,
    nulls and arrays of strings. *)
Inductive AuditValue :=
| AString (s : string) | ANumber (n : Z) | ABool (b : bool) | ANull | AStrings (l : list string).
Record AuditRow := {
  id : Z; actorKind : string; actorId : option string; action : string; resourceType : string;
  resourceId : string; metadata : list (string * AuditValue); requestId : option string;
  createdAt : Z
}.
End AuditLog.

(** ** The store *)
Record Tables `{RelayEnv} := {
  agents : list Agents.Agent;
  agentBlocks : list AgentBlocks.AgentBlock;
  handoffs : list Handoffs.Handoff;
  messages : list Messages.Message;
  mailboxEvents : list MailboxEvents.MailboxEvent;
  auditLog : list AuditLog.AuditRow;
  notified : list string
}.
#[export] Instance Tables_eta `{RelayEnv} : Settable Tables := fun t =>
  Build_Tables _ (agents t) (agentBlocks t) (handoffs t) (messages t) (mailboxEvents t)
    (auditLog t) (notified t).

(** The locks of a transaction: advisory locks by the key they hash, and the
    row lock of [SELECT ... FOR UPDATE]. *)
Inductive Lock :=
| IdempotencyLock (key : string)
| ThreadRow (handoffId : string)
| BlockPair (blockerId blockedId : string)
| SequenceLock (handoffId : string)
| MailboxLock (recipientId : string)
| AdvisoryLock (key : string)
| DeliveryRow (deliveryId : string).

Record Store `{RelayEnv} := {
  tables : Tables; cursorSeq : Z; auditSeq : Z; draws : nat; held : list Lock
}.
#[export] Instance Store_eta `{RelayEnv} : Settable Store := fun s =>
  Build_Store _ (tables s) (cursorSeq s) (auditSeq s) (draws s) (held s).

(** ** Transactions *)
Section Transactions.
Context `{RelayEnv}.

Definition Tx (A : Type) : Type := Store -> result Thrown A * Store.
#[export] Instance Tx_ret : MRet Tx := fun A a s => (Ok a, s).
#[export] Instance Tx_bind : MBind Tx := fun A B k m s =>
  match m s with (Ok a, s') => k a s' | (Err e, s') => (Err e, s') end.

Definition raise {A} (c : ErrorSymbol) (m : string) : Tx A :=
  fun s => (Err (Relay {| code := c; message := m |}), s).
Definition throw_if (b : bool) (c : ErrorSymbol) (m : string) : Tx unit :=
  if b then raise c m else mret tt.
Definition check (b : bool) (name : string) : Tx unit :=
  if b then mret tt else fun s => (Err (Constraint name), s).
Definition lock (l : Lock) : Tx unit := fun s => (Ok tt, s <| held := held s ++ [l] |>).
Definition select {A} (q : Tables -> A) : Tx A := fun s => (Ok (q (tables s)), s).
Definition write (f : Tables -> Tables) : Tx unit :=
  fun s => (Ok tt, s <| tables := f (tables s) |>).

(** [db.transaction(body)] *)
Definition transaction {A} (body : Tx A) : Tx A := fun s =>
  match body (s <| held := [] |>) with
  | (Ok a, s') => (Ok a, s' <| held := [] |>)
  | (Err e, s') => (Err e, s' <| tables := tables s |> <| held := [] |>)
  end.

Definition draw_uuid : Tx string :=
  fun s => (Ok (gen_random_uuid (draws s)), s <| draws := S (draws s) |>).

(** [nextval] of a [bigserial] column's sequence. *)
Definition max_bigint : Z := 9223372036854775807.
Definition next_cursor_value : Tx Z := fun s =>
  if cursorSeq s <? max_bigint then (Ok (cursorSeq s + 1), s <| cursorSeq := cursorSeq s + 1 |>)
  else (Err (Constraint "mailbox_events_cursor_seq"), s).
Definition next_audit_id : Tx Z := fun s =>
  if auditSeq s <? max_bigint then (Ok (auditSeq s + 1), s <| auditSeq := auditSeq s + 1 |>)
  else (Err (Constraint "audit_log_id_seq"), s).

(** A unique index ignores nulls. *)
Definition no_conflict (key : option string) (keys : list (option string)) : bool :=
  is_null key || negb (includes keys key).

Definition agent_exists (t : Tables) (id : string) : bool :=
  some (fun a => Agents.id a === id) (agents t).
Definition handoff_exists (t : Tables) (id : string) : bool :=
  some (fun h => Handoffs.id h === id) (handoffs t).

(** ** Inserts, with the constraints of the table *)
Definition insert_handoff (now : Z) (senderId recipientId summary : string) (intent : Intent)
    (artifacts : list json) (proposedAction : option ProposedActionInput) (metadata : json)
    (idempotencyKey : option string) : Tx Handoffs.Handoff :=
  id ← draw_uuid;
  t ← select (fun t => t);
  _ ← check (senderId !== recipientId) "handoffs_sender_not_recipient";
  _ ← check (Bool.eqb (intent === propose_action) (non_null proposedAction))
        "handoffs_proposed_action_invariant";
  _ ← check (negb (handoff_exists t id)) "handoffs_pkey";
  _ ← check (no_conflict idempotencyKey (map Handoffs.idempotencyKey (handoffs t)))
        "handoffs_idempotency_key_unique";
  _ ← check (agent_exists t senderId) "handoffs_sender_id_agents_id_fk";
  _ ← check (agent_exists t recipientId) "handoffs_recipient_id_agents_id_fk";
  let row := {|
    Handoffs.id := id; Handoffs.senderId := senderId; Handoffs.recipientId := recipientId;
    Handoffs.summary := summary; Handoffs.intent := intent; Handoffs.status := pending;
    Handoffs.artifacts := artifacts; Handoffs.proposedAction := proposedAction;
    Handoffs.metadata := metadata; Handoffs.acceptedBySession := None;
    Handoffs.acceptedAt := None; Handoffs.completedAt := None; Handoffs.completedSummary := None;
    Handoffs.completionArtifacts := []; Handoffs.cancelledAt := None;
    Handoffs.idempotencyKey := idempotencyKey; Handoffs.createdAt := now; Handoffs.updatedAt := now
  |} in
  _ ← write (fun t => t <| handoffs := handoffs t ++ [row] |>);
  mret row.

Definition max_integer : Z := 2147483647.

Definition insert_message (now : Z) (handoffId authorId body : string) (payload : json)
    (artifacts : list json) (sequenceNo : Z) (idempotencyKey : option string)
    : Tx Messages.Message :=
  id ← draw_uuid;
  t ← select (fun t => t);
  _ ← check (sequenceNo <=? max_integer) "integer out of range";
  _ ← check (negb (some (fun m => Messages.id m === id) (messages t))) "messages_pkey";
  _ ← check (no_conflict idempotencyKey (map Messages.idempotencyKey (messages t)))
        "messages_idempotency_key_unique";
  _ ← check (negb (some (fun m => (Messages.handoffId m === handoffId) &&
                                  (Messages.sequenceNo m =? sequenceNo)) (messages t)))
        "idx_messages_seq";
  _ ← check (handoff_exists t handoffId) "messages_handoff_id_handoffs_id_fk";
  _ ← check (agent_exists t authorId) "messages_author_id_agents_id_fk";
  let row := {|
    Messages.id := id; Messages.handoffId := handoffId; Messages.authorId := authorId;
    Messages.body := body; Messages.payload := payload; Messages.artifacts := artifacts;
    Messages.sequenceNo := sequenceNo; Messages.idempotencyKey := idempotencyKey;
    Messages.createdAt := now
  |} in
  _ ← write (fun t => t <| messages := messages t ++ [row] |>);
  mret row.

Definition insert_mailbox_event (now : Z) (recipientAgentId actorAgentId threadId : string)
    (kind : MailboxEventKind) (sourceId : string) : Tx MailboxEvents.MailboxEvent :=
  id ← draw_uuid;
  cursor ← next_cursor_value;
  t ← select (fun t => t);
  _ ← check (recipientAgentId !== actorAgentId) "mailbox_events_recipient_not_actor_chk";
  _ ← check (negb (some (fun e => MailboxEvents.id e === id) (mailboxEvents t)))
        "mailbox_events_pkey";
  _ ← check (negb (some (fun e => MailboxEvents.cursor e =? cursor) (mailboxEvents t)))
        "idx_mailbox_events_cursor";
  _ ← check (negb (some (fun e => (MailboxEvents.recipientAgentId e === recipientAgentId) &&
                                  (MailboxEvents.kind e === kind) &&
                                  (MailboxEvents.sourceId e === sourceId)) (mailboxEvents t)))
        "idx_mailbox_events_recipient_kind_source";
  _ ← check (agent_exists t recipientAgentId) "mailbox_events_recipient_agent_id_agents_id_fk";
  _ ← check (agent_exists t actorAgentId) "mailbox_events_actor_agent_id_agents_id_fk";
  _ ← check (handoff_exists t threadId) "mailbox_events_thread_id_handoffs_id_fk";
  let row := {|
    MailboxEvents.id := id; MailboxEvents.cursor := cursor;
    MailboxEvents.recipientAgentId := recipientAgentId; MailboxEvents.actorAgentId := actorAgentId;
    MailboxEvents.threadId := threadId; MailboxEvents.kind := kind;
    MailboxEvents.sourceId := sourceId; MailboxEvents.createdAt := now
  |} in
  _ ← write (fun t => t <| mailboxEvents := mailboxEvents t ++ [row] |>);
  mret row.

Definition insert_audit (now : Z) (actorKind : string) (actorId : option string)
    (action resourceType resourceId : string)
    (metadata : list (string * AuditLog.AuditValue)) (requestId : option string) : Tx unit :=
  id ← next_audit_id;
  t ← select (fun t => t);
  _ ← check (includes ["agent"; "admin"; "system"] actorKind) "audit_log_actor_kind_chk";
  _ ← check (((actorKind === "agent") && non_null actorId) ||
             (includes ["admin"; "system"] actorKind && is_null actorId))
        "audit_log_actor_identity_chk";
  _ ← check (negb (some (fun a => AuditLog.id a =? id) (auditLog t))) "audit_log_pkey";
  _ ← check (match actorId with None => true | Some a => agent_exists t a end)
        "audit_log_actor_id_agents_id_fk";
  write (fun t => t <| auditLog := auditLog t ++ [{|
    AuditLog.id := id; AuditLog.actorKind := actorKind; AuditLog.actorId := actorId;
    AuditLog.action := action; AuditLog.resourceType := resourceType;
    AuditLog.resourceId := resourceId; AuditLog.metadata := metadata;
    AuditLog.requestId := requestId; AuditLog.createdAt := now |}] |>).

(** [UPDATE handoffs SET ... WHERE ... RETURNING]: the trigger
    [set_updated_at] (0001_updated_at_triggers.sql, redefined in
    0006_node_credentials.sql) sets [updated_at] to the wall clock, read here as
    the transaction's time. *)
Definition update_rows (now : Z) (p : Handoffs.Handoff -> bool)
    (set : Handoffs.Handoff -> Handoffs.Handoff) (h : Handoffs.Handoff) : Handoffs.Handoff :=
  if p h then (set h) <| Handoffs.updatedAt := now |> else h.
Definition update_handoffs (now : Z) (p : Handoffs.Handoff -> bool)
    (set : Handoffs.Handoff -> Handoffs.Handoff) : Tx (list Handoffs.Handoff) :=
  rows ← select (fun t => array_filter p (handoffs t));
  _ ← write (fun t => t <| handoffs := map (update_rows now p set) (handoffs t) |>);
  mret (map (update_rows now p set) rows).

(** [INSERT INTO agent_blocks ... ON CONFLICT DO NOTHING RETURNING]: the number
    of inserted rows. *)
Definition insert_block (now : Z) (blockerId blockedId : string) : Tx Z :=
  t ← select (fun t => t);
  _ ← check (blockerId !== blockedId) "agent_blocks_self";
  if some (fun b => (AgentBlocks.blockerId b === blockerId) &&
                    (AgentBlocks.blockedId b === blockedId)) (agentBlocks t)
  then mret 0
  else
    _ ← check (agent_exists t blockerId) "agent_blocks_blocker_id_agents_id_fk";
    _ ← check (agent_exists t blockedId) "agent_blocks_blocked_id_agents_id_fk";
    _ ← write (fun t => t <| agentBlocks := agentBlocks t ++ [{|
          AgentBlocks.blockerId := blockerId; AgentBlocks.blockedId := blockedId;
          AgentBlocks.createdAt := now |}] |>);
    mret 1.

Definition delete_block (blockerId blockedId : string) : Tx Z :=
  let p b := (AgentBlocks.blockerId b === blockerId) && (AgentBlocks.blockedId b === blockedId) in
  rows ← select (fun t => array_filter p (agentBlocks t));
  _ ← write (fun t => t <| agentBlocks := array_filter (fun b => negb (p b)) (agentBlocks t) |>);
  mret (len rows).
End Transactions.
