(* ===== verification/Mailbox.v ===== *)
(** * Audit log, mailbox feed and block list

    [writeAudit] (relay/src/services/audit.ts), [appendMailboxEvent] and
    [listMailboxEvents] (relay/src/services/mailbox-events.ts), the lock of a
    block boundary (relay/src/services/agent-block-lock.ts), and the two
    handlers of relay/src/routes/agents.ts that change the block list. *)

From S2P Require Import Prelude JsLib RelayStore.
From stdpp Require Import sorting.
Local Open Scope Z_scope.

Section Mailbox.
Context `{RelayEnv}.

(** ** Audit *)
Record AuditEntry := {
  actorKind : option string;
  actorId : option string;
  action : string;
  resourceType : string;
  resourceId : string;
  metadata : option (list (string * AuditLog.AuditValue));
  requestId : option string
}.

Definition writeAudit (now : Z) (entry : AuditEntry) : Tx unit :=
  insert_audit now (default "agent" (actorKind entry)) (actorId entry) (action entry)
    (resourceType entry) (resourceId entry) (default [] (metadata entry)) (requestId entry).

(** ** Mailbox events *)
Record AppendMailboxEventInput := {
  recipientAgentId : string;
  actorAgentId : string;
  threadId : string;
  kind : MailboxEventKind;
  sourceId : string
}.

Definition pg_notify (recipient : string) : Tx unit :=
  write (fun t => t <| notified := notified t ++ [recipient] |>).

Definition appendMailboxEvent (now : Z) (input : AppendMailboxEventInput)
    : Tx MailboxEvents.MailboxEvent :=
  _ ← lock (MailboxLock (recipientAgentId input));
  event ← insert_mailbox_event now (recipientAgentId input) (actorAgentId input)
            (threadId input) (kind input) (sourceId input);
  _ ← pg_notify (recipientAgentId input);
  mret event.

Record ListMailboxEventsInput := {
  list_recipientAgentId : string;
  afterCursor : option Z;
  limit : Z
}.

Record MailboxEventView := {
  event_id : string; cursor : string; view_kind : MailboxEventKind; thread_id : string;
  actor_handle : string; created_at : string
}.
Record MailboxEventPage := { events : list MailboxEventView; next_cursor : option string }.

Definition cursor_le (a b : MailboxEvents.MailboxEvent) : Prop :=
  MailboxEvents.cursor a <= MailboxEvents.cursor b.
#[export] Instance cursor_le_dec a b : Decision (cursor_le a b).
Proof. unfold cursor_le. apply _. Defined.

(** [innerJoin(agents, eq(agents.id, mailboxEvents.actorAgentId))] *)
Definition join_actor (t : Tables) (e : MailboxEvents.MailboxEvent)
    : option (MailboxEvents.MailboxEvent * Agents.Agent) :=
  a ← array_find (fun a => Agents.id a === MailboxEvents.actorAgentId e) (RelayStore.agents t);
  Some (e, a).

Definition after (c : option Z) (e : MailboxEvents.MailboxEvent) : bool :=
  match c with None => true | Some c => c <? MailboxEvents.cursor e end.

(** The rows of the query before [LIMIT]. *)
Definition feed (t : Tables) (recipient : string) (c : option Z)
    : list (MailboxEvents.MailboxEvent * Agents.Agent) :=
  omap (join_actor t)
    (merge_sort cursor_le
       (array_filter (fun e => (MailboxEvents.recipientAgentId e === recipient) && after c e)
          (mailboxEvents t))).

Definition view (row : MailboxEvents.MailboxEvent * Agents.Agent) : MailboxEventView := {|
  event_id := MailboxEvents.id row.1;
  cursor := string_of_int (MailboxEvents.cursor row.1);
  view_kind := MailboxEvents.kind row.1;
  thread_id := MailboxEvents.threadId row.1;
  actor_handle := Agents.handle row.2;
  created_at := toISOString (MailboxEvents.createdAt row.1)
|}.

Definition listMailboxEvents (input : ListMailboxEventsInput) : Tx MailboxEventPage :=
  _ ← check (0 <=? limit input) "LIMIT must not be negative";
  rows ← select (fun t => take (Z.to_nat (limit input))
                            (feed t (list_recipientAgentId input) (afterCursor input)));
  let events := map view rows in
  mret {|
    events := events;
    next_cursor :=
      match last events with
      | Some e => Some (cursor e)
      | None => string_of_int <$> afterCursor input
      end
  |}.

(** ** The block list *)
Definition lockAgentBlockPair (blockerId blockedId : string) : Tx unit :=
  lock (BlockPair blockerId blockedId).

(** The authenticated caller. *)
Record Caller := { me_id : string; me_handle : string }.

(** [POST /agents/me/block], after its body has been parsed. *)
Definition post_block (now : Z) (me : Caller) (target : string) (reason : option string)
    (reqId : string) : Tx unit :=
  _ ← throw_if (target === me_handle me) invalid_params "Cannot block yourself";
  found ← select (fun t => array_find (fun a => Agents.handle a === target) (RelayStore.agents t));
  match found with
  | None => raise recipient_not_found ("No agent with handle '" +:+ target +:+ "'")
  | Some other =>
      transaction (
        _ ← lockAgentBlockPair (me_id me) (Agents.id other);
        inserted ← insert_block now (me_id me) (Agents.id other);
        if 0 <? inserted then
          writeAudit now {|
            actorKind := None; actorId := Some (me_id me); action := "agent.block";
            resourceType := "agent"; resourceId := Agents.id other;
            metadata := Some [("handle", AuditLog.AString target);
              ("reason", match reason with
                         | Some r => AuditLog.AString r | None => AuditLog.ANull end)];
            requestId := Some reqId |}
        else mret tt)
  end.

(** [DELETE /agents/me/block/:handle] *)
Definition delete_me_block (now : Z) (me : Caller) (target : string) (reqId : string) : Tx unit :=
  _ ← throw_if (target === "") invalid_params "handle required";
  found ← select (fun t => array_find (fun a => Agents.handle a === target) (RelayStore.agents t));
  match found with
  | None => mret tt
  | Some other =>
      transaction (
        _ ← lockAgentBlockPair (me_id me) (Agents.id other);
        deleted ← delete_block (me_id me) (Agents.id other);
        if 0 <? deleted then
          writeAudit now {|
            actorKind := None; actorId := Some (me_id me); action := "agent.unblock";
            resourceType := "agent"; resourceId := Agents.id other;
            metadata := Some [("handle", AuditLog.AString target)];
            requestId := Some reqId |}
        else mret tt)
  end.
End Mailbox.
