(* ===== verification/Handoff.v ===== *)
(** * The handoff service

    relay/src/services/handoff.ts: a thread between two agents is created,
    written to, accepted, completed or cancelled, each in one transaction that
    also writes the audit log and the other participant's mailbox. *)

From S2P Require Import Prelude JsLib RelayStore Mailbox.
From stdpp Require Import sorting.
Local Open Scope Z_scope.

Section Handoff.
Context `{RelayEnv}.

Record CreateHandoffInput := {
  senderId : string;
  recipientHandle : string;
  summary : string;
  intent : Intent;
  artifacts : list json;
  initialPayload : json;
  proposedAction : option ProposedActionInput;
  metadata : json;
  idempotencyKey : option string;
  requestId : string
}.

Record AppendMessageInput := {
  append_senderId : string;
  taskId : string;
  body : string;
  payload : json;
  append_artifacts : list json;
  append_idempotencyKey : option string;
  append_requestId : string
}.

Definition validateIntentInvariant (intent : Intent) (proposedAction : option ProposedActionInput)
    : Tx unit :=
  _ ← throw_if ((intent === propose_action) && is_null proposedAction)
        invalid_intent_payload "intent='propose_action' requires proposed_action";
  _ ← throw_if ((intent !== propose_action) && non_null proposedAction)
        invalid_intent_payload
        ("proposed_action only allowed when intent='propose_action' (got " +:+ intent_text intent +:+ ")");
  match proposedAction with
  | None => mret tt
  | Some a =>
      throw_if (negb (json_is_string (description a)) || negb (json_is_string (rationale a)) ||
                negb (json_is_array (target_files a)))
        invalid_intent_payload "proposed_action must have {description, rationale, target_files}"
  end.

(** [COALESCE(MAX(sequence_no), 0)] *)
Definition max_sequence (t : Tables) (handoffId : string) : Z :=
  foldr Z.max 0
    (map Messages.sequenceNo (array_filter (fun m => Messages.handoffId m === handoffId) (messages t))).

Definition nextSequenceNo (handoffId : string) : Tx Z :=
  _ ← lock (SequenceLock handoffId);
  max ← select (fun t => max_sequence t handoffId);
  mret (max + 1).

Definition lockIdempotencyKey (key : string) : Tx unit := lock (IdempotencyLock key).

Definition blocks (t : Tables) (blockerId blockedId : string) : bool :=
  some (fun b => (AgentBlocks.blockerId b === blockerId) && (AgentBlocks.blockedId b === blockedId))
    (agentBlocks t).

Definition isSenderBlocked (senderId recipientId : string) : Tx bool :=
  select (fun t => blocks t recipientId senderId).

(** The truthiness test [if (input.idempotencyKey)]: absent and empty keys are skipped. *)
Definition usable_key (key : option string) : option string :=
  match key with Some k => if k === "" then None else Some k | None => None end.

Definition lock_key (key : option string) : Tx unit :=
  match usable_key key with Some k => lockIdempotencyKey k | None => mret tt end.

Definition samePayload (existing : Handoffs.Handoff) (recipient : option Agents.Agent)
    (initialMessage : option Messages.Message) (input : CreateHandoffInput) : bool :=
  (Handoffs.senderId existing === senderId input) &&
  (Some (Handoffs.recipientId existing) === option_map Agents.id recipient) &&
  (Handoffs.summary existing === summary input) &&
  (Handoffs.intent existing === intent input) &&
  (Handoffs.artifacts existing === artifacts input) &&
  (option_map Messages.payload initialMessage === Some (initialPayload input)) &&
  (Handoffs.proposedAction existing === proposedAction input) &&
  (Handoffs.metadata existing === metadata input).

Definition find_agent (t : Tables) (handle : string) : option Agents.Agent :=
  array_find (fun a => Agents.handle a === handle) (agents t).
Definition find_by_key (t : Tables) (k : string) : option Handoffs.Handoff :=
  array_find (fun h => Handoffs.idempotencyKey h === Some k) (handoffs t).
Definition first_message (t : Tables) (id : string) : option Messages.Message :=
  array_find (fun m => (Messages.handoffId m === id) && (Messages.sequenceNo m =? 1)) (messages t).

(** The recipient check and everything after it. *)
Definition create_new (now : Z) (input : CreateHandoffInput) (recipient : option Agents.Agent)
    : Tx (Handoffs.Handoff * bool) :=
  match recipient with
  | None =>
      raise recipient_not_found
        ("No active agent with handle '" +:+ recipientHandle input +:+ "'")
  | Some recipient =>
      _ ← throw_if (Agents.status recipient !== Agents.active) recipient_not_found
            ("No active agent with handle '" +:+ recipientHandle input +:+ "'");
      _ ← throw_if (Agents.id recipient === senderId input) invalid_params
            "Cannot send a handoff to yourself";
      _ ← lockAgentBlockPair (Agents.id recipient) (senderId input);
      blocked ← isSenderBlocked (senderId input) (Agents.id recipient);
      _ ← throw_if blocked teammate_blocked "Sender is blocked by recipient";
      handoff ← insert_handoff now (senderId input) (Agents.id recipient) (summary input)
                  (intent input) (artifacts input) (proposedAction input) (metadata input)
                  (idempotencyKey input);
      _ ← insert_message now (Handoffs.id handoff) (senderId input) (summary input)
            (initialPayload input) (artifacts input) 1 None;
      _ ← writeAudit now {|
            actorKind := None; actorId := Some (senderId input); action := "handoff.create";
            resourceType := "handoff"; resourceId := Handoffs.id handoff;
            Mailbox.metadata := Some [("intent", AuditLog.AString (intent_text (intent input)));
                                      ("recipient", AuditLog.AString (recipientHandle input))];
            Mailbox.requestId := Some (requestId input) |};
      _ ← appendMailboxEvent now {|
            recipientAgentId := Agents.id recipient; actorAgentId := senderId input;
            threadId := Handoffs.id handoff; kind := thread_created;
            sourceId := Handoffs.id handoff |};
      mret (handoff, false)
  end.

Definition create_tx (now : Z) (input : CreateHandoffInput) : Tx (Handoffs.Handoff * bool) :=
  _ ← lock_key (idempotencyKey input);
  recipient ← select (fun t => find_agent t (recipientHandle input));
  existing ← select (fun t => k ← usable_key (idempotencyKey input); find_by_key t k);
  match existing with
  | Some existing =>
      initialMessage ← select (fun t => first_message t (Handoffs.id existing));
      _ ← throw_if (negb (samePayload existing recipient initialMessage input))
            duplicate_idempotency_key "idempotency_key reused with a different payload";
      mret (existing, true)
  | None => create_new now input recipient
  end.

Definition createHandoff (now : Z) (input : CreateHandoffInput) : Tx (Handoffs.Handoff * bool) :=
  _ ← validateIntentInvariant (intent input) (proposedAction input);
  transaction (create_tx now input).

(** [SELECT ... FROM handoffs WHERE id = ...], and the same [FOR UPDATE]. *)
Definition find_handoff (t : Tables) (id : string) : option Handoffs.Handoff :=
  array_find (fun h => Handoffs.id h === id) (handoffs t).
Definition select_for_update (id : string) : Tx (option Handoffs.Handoff) :=
  _ ← lock (ThreadRow id);
  select (fun t => find_handoff t id).

Definition participant (h : Handoffs.Handoff) (agent : string) : bool :=
  (Handoffs.senderId h === agent) || (Handoffs.recipientId h === agent).
Definition other_participant (h : Handoffs.Handoff) (agent : string) : string :=
  if Handoffs.senderId h === agent then Handoffs.recipientId h else Handoffs.senderId h.
Definition terminal (s : HandoffStatus) : bool := (s === completed) || (s === cancelled).

Record AppendResult := {
  messageId : string; sequenceNo : Z; createdAt : Z; replayed : bool
}.

Definition find_message_by_key (t : Tables) (k : string) : option Messages.Message :=
  array_find (fun m => Messages.idempotencyKey m === Some k) (messages t).

Definition message_differs (existing : Messages.Message) (handoff : Handoffs.Handoff)
    (input : AppendMessageInput) : bool :=
  (Messages.handoffId existing !== Handoffs.id handoff) ||
  (Messages.authorId existing !== append_senderId input) ||
  (Messages.body existing !== body input) ||
  (Messages.payload existing !== payload input) ||
  (Messages.artifacts existing !== append_artifacts input).

Definition append_new (now : Z) (input : AppendMessageInput) (handoff : Handoffs.Handoff)
    : Tx AppendResult :=
  let sender := append_senderId input in
  _ ← throw_if (terminal (Handoffs.status handoff)) thread_terminal
        ("Thread is " +:+ status_text (Handoffs.status handoff));
  let recipientId := other_participant handoff sender in
  _ ← lockAgentBlockPair recipientId sender;
  blocked ← isSenderBlocked sender recipientId;
  _ ← throw_if blocked teammate_blocked "Sender is blocked by the other participant";
  seq ← nextSequenceNo (Handoffs.id handoff);
  created ← insert_message now (Handoffs.id handoff) sender (body input) (payload input)
              (append_artifacts input) seq (append_idempotencyKey input);
  _ ← writeAudit now {|
        actorKind := None; actorId := Some sender; action := "message.append";
        resourceType := "message"; resourceId := Messages.id created;
        Mailbox.metadata := Some [("handoff_id", AuditLog.AString (Handoffs.id handoff));
                                  ("sequence_no", AuditLog.ANumber seq)];
        Mailbox.requestId := Some (append_requestId input) |};
  _ ← appendMailboxEvent now {|
        recipientAgentId := recipientId; actorAgentId := sender; threadId := Handoffs.id handoff;
        kind := message_appended; sourceId := Messages.id created |};
  mret {| messageId := Messages.id created; sequenceNo := Messages.sequenceNo created;
          createdAt := Messages.createdAt created; replayed := false |}.

Definition append_tx (now : Z) (input : AppendMessageInput) : Tx AppendResult :=
  _ ← lock_key (append_idempotencyKey input);
  found ← select_for_update (taskId input);
  match found with
  | None => raise thread_not_found "Thread not found"
  | Some handoff =>
      _ ← throw_if (negb (participant handoff (append_senderId input))) not_a_participant
            "Caller is not a participant of this thread";
      existing ← select (fun t =>
        k ← usable_key (append_idempotencyKey input); find_message_by_key t k);
      match existing with
      | Some existing =>
          _ ← throw_if (message_differs existing handoff input) duplicate_idempotency_key
                "idempotency_key reused with a different payload";
          mret {| messageId := Messages.id existing; sequenceNo := Messages.sequenceNo existing;
                  createdAt := Messages.createdAt existing; replayed := true |}
      | None => append_new now input handoff
      end
  end.

Definition appendMessage (now : Z) (input : AppendMessageInput) : Tx AppendResult :=
  transaction (append_tx now input).

(** ** Transitions *)
Inductive Transition := accept | complete | cancel.

Record TransitionInput := {
  transition_taskId : string;
  callerId : string;
  transition : Transition;
  sessionId : option string;
  resultSummary : option string;
  resultArtifacts : option (list json);
  transition_requestId : string
}.

(** [UPDATE handoffs SET ... WHERE id = ... AND status = ... RETURNING] *)
Definition update_in_status (now : Z) (id : string) (s : HandoffStatus)
    (set : Handoffs.Handoff -> Handoffs.Handoff) : Tx Handoffs.Handoff :=
  rows ← update_handoffs now (fun h => (Handoffs.id h === id) && (Handoffs.status h === s)) set;
  match rows with
  | updated :: _ => mret updated
  | [] => raise state_changed "Handoff state changed concurrently"
  end.

Definition set_accepted (date : Z) (input : TransitionInput) (h : Handoffs.Handoff)
    : Handoffs.Handoff :=
  h <| Handoffs.status := accepted |> <| Handoffs.acceptedAt := Some date |>
    <| Handoffs.acceptedBySession := sessionId input |>.
Definition set_completed (date : Z) (input : TransitionInput) (h : Handoffs.Handoff)
    : Handoffs.Handoff :=
  h <| Handoffs.status := completed |> <| Handoffs.completedAt := Some date |>
    <| Handoffs.completedSummary := resultSummary input |>
    <| Handoffs.completionArtifacts := default [] (resultArtifacts input) |>.
Definition set_cancelled (date : Z) (h : Handoffs.Handoff) : Handoffs.Handoff :=
  h <| Handoffs.status := cancelled |> <| Handoffs.cancelledAt := Some date |>.

(** The audit entry and the mailbox event of a transition. *)
Definition record_transition (now : Z) (input : TransitionInput) (handoff : Handoffs.Handoff)
    (action : string) (metadata : option (list (string * AuditLog.AuditValue)))
    (recipient : string) (kind : MailboxEventKind) : Tx unit :=
  _ ← writeAudit now {|
        actorKind := None; actorId := Some (callerId input); Mailbox.action := action;
        resourceType := "handoff"; resourceId := Handoffs.id handoff;
        Mailbox.metadata := metadata; Mailbox.requestId := Some (transition_requestId input) |};
  _ ← appendMailboxEvent now {|
        recipientAgentId := recipient; actorAgentId := callerId input;
        threadId := Handoffs.id handoff; Mailbox.kind := kind; sourceId := Handoffs.id handoff |};
  mret tt.

Definition accept_handoff (now date : Z) (input : TransitionInput) (handoff : Handoffs.Handoff)
    : Tx Handoffs.Handoff :=
  _ ← throw_if (Handoffs.recipientId handoff !== callerId input) not_authorized_transition
        "Only the recipient can accept a handoff";
  if Handoffs.status handoff === accepted then mret handoff
  else
    _ ← throw_if (Handoffs.status handoff !== pending) invalid_transition
          ("Cannot accept handoff in status '" +:+ status_text (Handoffs.status handoff) +:+ "'");
    _ ← lockAgentBlockPair (Handoffs.recipientId handoff) (Handoffs.senderId handoff);
    blocked ← isSenderBlocked (Handoffs.senderId handoff) (Handoffs.recipientId handoff);
    _ ← throw_if blocked teammate_blocked "Sender is blocked by recipient";
    updated ← update_in_status now (Handoffs.id handoff) pending (set_accepted date input);
    _ ← record_transition now input handoff "handoff.accept"
          (Some [("session_id", match sessionId input with
                                | Some s => AuditLog.AString s | None => AuditLog.ANull end)])
          (Handoffs.senderId handoff) thread_accepted;
    mret updated.

Definition complete_handoff (now date : Z) (input : TransitionInput) (handoff : Handoffs.Handoff)
    : Tx Handoffs.Handoff :=
  _ ← throw_if (Handoffs.recipientId handoff !== callerId input) not_authorized_transition
        "Only the recipient can complete a handoff";
  _ ← throw_if (Handoffs.status handoff !== accepted) invalid_transition
        ("Cannot complete handoff in status '" +:+ status_text (Handoffs.status handoff) +:+ "'");
  _ ← lockAgentBlockPair (Handoffs.senderId handoff) (callerId input);
  blocked ← isSenderBlocked (callerId input) (Handoffs.senderId handoff);
  _ ← throw_if blocked teammate_blocked "Recipient is blocked by sender";
  updated ← update_in_status now (Handoffs.id handoff) accepted (set_completed date input);
  _ ← record_transition now input handoff "handoff.complete" None
        (Handoffs.senderId handoff) thread_completed;
  mret updated.

Definition cancel_handoff (now date : Z) (input : TransitionInput) (handoff : Handoffs.Handoff)
    : Tx Handoffs.Handoff :=
  _ ← throw_if (Handoffs.senderId handoff !== callerId input) not_authorized_transition
        "Only the sender can cancel a handoff";
  _ ← throw_if (Handoffs.status handoff !== pending) invalid_transition
        ("Cannot cancel handoff in status '" +:+ status_text (Handoffs.status handoff) +:+ "'");
  updated ← update_in_status now (Handoffs.id handoff) pending (set_cancelled date);
  _ ← record_transition now input handoff "handoff.cancel" None
        (Handoffs.recipientId handoff) thread_cancelled;
  mret updated.

(** [now] is the transaction's timestamp, [date] is [new Date()]. *)
Definition transition_tx (now date : Z) (input : TransitionInput) : Tx Handoffs.Handoff :=
  found ← select_for_update (transition_taskId input);
  match found with
  | None => raise thread_not_found "Thread not found"
  | Some handoff =>
      _ ← throw_if (negb (participant handoff (callerId input))) not_a_participant
            "Caller is not a participant";
      match transition input with
      | accept => accept_handoff now date input handoff
      | complete => complete_handoff now date input handoff
      | cancel => cancel_handoff now date input handoff
      end
  end.

Definition transitionHandoff (now date : Z) (input : TransitionInput) : Tx Handoffs.Handoff :=
  transaction (transition_tx now date input).

(** ** Reads *)
Record MessageView := {
  id : string; author_id : string; view_body : string; view_payload : json;
  view_artifacts : list json; sequence_no : Z; created_at : Z
}.
Definition message_view (m : Messages.Message) : MessageView := {|
  id := Messages.id m; author_id := Messages.authorId m; view_body := Messages.body m;
  view_payload := Messages.payload m; view_artifacts := Messages.artifacts m;
  sequence_no := Messages.sequenceNo m; created_at := Messages.createdAt m
|}.

Definition sequence_le (a b : Messages.Message) : Prop :=
  Messages.sequenceNo a <= Messages.sequenceNo b.
#[export] Instance sequence_le_dec a b : Decision (sequence_le a b).
Proof. unfold sequence_le. apply _. Defined.

Definition getHandoff (task caller : string) : Tx (Handoffs.Handoff * list MessageView) :=
  found ← select (fun t => find_handoff t task);
  match found with
  | None => raise thread_not_found "Thread not found"
  | Some handoff =>
      _ ← throw_if (negb (participant handoff caller)) not_a_participant "Caller is not a participant";
      msgs ← select (fun t => merge_sort sequence_le
               (array_filter (fun m => Messages.handoffId m === Handoffs.id handoff) (messages t)));
      mret (handoff, map message_view msgs)
  end.

Inductive Role := recipient | sender.
Record ListHandoffsFilter := {
  list_callerId : string; role : Role; statuses : list HandoffStatus; since : option Z; limit : Z
}.

Definition list_match (f : ListHandoffsFilter) (h : Handoffs.Handoff) : bool :=
  match role f with
  | recipient => Handoffs.recipientId h === list_callerId f
  | sender => Handoffs.senderId h === list_callerId f
  end &&
  ((len (statuses f) =? 0) || includes (statuses f) (Handoffs.status h)) &&
  match since f with None => true | Some s => s <=? Handoffs.createdAt h end.

(** [ORDER BY created_at DESC]; SQL leaves the order of ties open. *)
Definition newer (a b : Handoffs.Handoff) : Prop := Handoffs.createdAt b <= Handoffs.createdAt a.
#[export] Instance newer_dec a b : Decision (newer a b).
Proof. unfold newer. apply _. Defined.

Definition listHandoffs (f : ListHandoffsFilter) : Tx (list Handoffs.Handoff) :=
  _ ← check (0 <=? limit f) "LIMIT must not be negative";
  select (fun t => take (Z.to_nat (limit f)) (merge_sort newer (array_filter (list_match f) (handoffs t)))).
End Handoff.
