(* ===== verification/HandoffSpec.v ===== *)
(** * What the handoff service promises

    [thread_step] is the abstract specification: how the store may change in
    one call, whatever the call and its outcome.  [serve] gathers the calls of
    [Handoff], of the block list and of the mailbox feed; [HandoffRefine] proves
    that each of them implements the specification.  [store_ok] is the
    well-formedness of the store, proved invariant in [HandoffSafety]; a
    [history] is a sequence of calls, with the agents' table changing in between
    as registrations and deactivations change it. *)

From Stdlib Require Export Sorting.Sorted.
From S2P Require Import Prelude JsLib RelayStore Mailbox Handoff.
Local Open Scope Z_scope.

(** ** Calls *)
Section Spec.
Context `{RelayEnv}.

Inductive call :=
| Create (now : Z) (input : CreateHandoffInput)
| Append (now : Z) (input : AppendMessageInput)
| Move (now date : Z) (input : TransitionInput)
| PostBlock (now : Z) (me : Caller) (target : string) (reason : option string) (reqId : string)
| DeleteBlock (now : Z) (me : Caller) (target : string) (reqId : string)
| Get (task caller : string)
| ListThreads (f : ListHandoffsFilter)
| ListEvents (input : ListMailboxEventsInput).

(** A call by its outcome alone: whether it returned or threw, and the store it leaves. *)
Definition run_call (c : call) : Tx unit :=
  match c with
  | Create now input => _ ← createHandoff now input; mret tt
  | Append now input => _ ← appendMessage now input; mret tt
  | Move now date input => _ ← transitionHandoff now date input; mret tt
  | PostBlock now me target reason reqId => post_block now me target reason reqId
  | DeleteBlock now me target reqId => delete_me_block now me target reqId
  | Get task caller => _ ← getHandoff task caller; mret tt
  | ListThreads f => _ ← listHandoffs f; mret tt
  | ListEvents input => _ ← listMailboxEvents input; mret tt
  end.
Definition serve (c : call) (s : Store) : Store := (run_call c s).2.

(** ** The specification *)

(** The call committed: one audit row by the actor, one mailbox event for the
    other participant with a cursor no event had before, one notification. *)
Record posted (s s' : Store) (actor rcpt thread source : string) (k : MailboxEventKind) : Prop := {
  posted_agents : agents (tables s') = agents (tables s);
  posted_blocks : agentBlocks (tables s') = agentBlocks (tables s);
  posted_audit : exists a, auditLog (tables s') = auditLog (tables s) ++ [a] /\
    AuditLog.actorKind a = "agent" /\ AuditLog.actorId a = Some actor /\
    AuditLog.resourceId a = source;
  posted_event : exists e, mailboxEvents (tables s') = mailboxEvents (tables s) ++ [e] /\
    MailboxEvents.recipientAgentId e = rcpt /\ MailboxEvents.actorAgentId e = actor /\
    MailboxEvents.threadId e = thread /\ MailboxEvents.kind e = k /\
    MailboxEvents.sourceId e = source /\ MailboxEvents.cursor e = cursorSeq s';
  posted_notified : notified (tables s') = notified (tables s) ++ [rcpt];
  posted_cursor : cursorSeq s < cursorSeq s';
  posted_distinct : rcpt <> actor;
  posted_known : agent_exists (tables s) rcpt = true /\ agent_exists (tables s) actor = true
}.

(** What no transition changes. *)
Record same_content (h h' : Handoffs.Handoff) : Prop := {
  same_id : Handoffs.id h' = Handoffs.id h;
  same_sender : Handoffs.senderId h' = Handoffs.senderId h;
  same_recipient : Handoffs.recipientId h' = Handoffs.recipientId h;
  same_summary : Handoffs.summary h' = Handoffs.summary h;
  same_intent : Handoffs.intent h' = Handoffs.intent h;
  same_artifacts : Handoffs.artifacts h' = Handoffs.artifacts h;
  same_action : Handoffs.proposedAction h' = Handoffs.proposedAction h;
  same_metadata : Handoffs.metadata h' = Handoffs.metadata h;
  same_key : Handoffs.idempotencyKey h' = Handoffs.idempotencyKey h;
  same_created : Handoffs.createdAt h' = Handoffs.createdAt h
}.

(** The life of a thread: who may move it, from where, with which trace. *)
Inductive moves (t : Tables) (h h' : Handoffs.Handoff) : string -> string -> MailboxEventKind -> Prop :=
| moves_accept date :
    Handoffs.status h = pending -> Handoffs.status h' = accepted ->
    blocks t (Handoffs.recipientId h) (Handoffs.senderId h) = false ->
    Handoffs.acceptedAt h' = Some date -> Handoffs.completedAt h' = Handoffs.completedAt h ->
    Handoffs.cancelledAt h' = Handoffs.cancelledAt h ->
    moves t h h' (Handoffs.recipientId h) (Handoffs.senderId h) thread_accepted
| moves_complete date :
    Handoffs.status h = accepted -> Handoffs.status h' = completed ->
    blocks t (Handoffs.senderId h) (Handoffs.recipientId h) = false ->
    Handoffs.completedAt h' = Some date -> Handoffs.acceptedAt h' = Handoffs.acceptedAt h ->
    Handoffs.cancelledAt h' = Handoffs.cancelledAt h ->
    moves t h h' (Handoffs.recipientId h) (Handoffs.senderId h) thread_completed
| moves_cancel date :
    Handoffs.status h = pending -> Handoffs.status h' = cancelled ->
    Handoffs.cancelledAt h' = Some date -> Handoffs.acceptedAt h' = Handoffs.acceptedAt h ->
    Handoffs.completedAt h' = Handoffs.completedAt h ->
    moves t h h' (Handoffs.senderId h) (Handoffs.recipientId h) thread_cancelled.

(** A row as [createHandoff] inserts it. *)
Record fresh_handoff (t : Tables) (h : Handoffs.Handoff) : Prop := {
  fresh_status : Handoffs.status h = pending;
  fresh_times : Handoffs.acceptedAt h = None /\ Handoffs.completedAt h = None /\
    Handoffs.cancelledAt h = None;
  fresh_id : handoff_exists t (Handoffs.id h) = false;
  fresh_key : no_conflict (Handoffs.idempotencyKey h) (map Handoffs.idempotencyKey (handoffs t)) = true;
  fresh_parties : Handoffs.senderId h <> Handoffs.recipientId h;
  fresh_action : (Handoffs.intent h === propose_action) = non_null (Handoffs.proposedAction h);
  fresh_open : blocks t (Handoffs.recipientId h) (Handoffs.senderId h) = false
}.

(** A message the service adds to a thread. *)
Record new_message (t : Tables) (m : Messages.Message) (n : Z) : Prop := {
  new_number : Messages.sequenceNo m = n;
  new_message_id : some (fun x => Messages.id x === Messages.id m) (messages t) = false;
  new_message_key : no_conflict (Messages.idempotencyKey m)
    (map Messages.idempotencyKey (messages t)) = true
}.

Inductive thread_step (s s' : Store) : Prop :=
| step_quiet : (** a read, a replay or a failure: nothing is written *)
    tables s' = tables s -> cursorSeq s <= cursorSeq s' -> thread_step s s'
| step_create h m :
    fresh_handoff (tables s) h -> new_message (tables s) m 1 ->
    Messages.handoffId m = Handoffs.id h -> Messages.authorId m = Handoffs.senderId h ->
    Messages.body m = Handoffs.summary h -> Messages.idempotencyKey m = None ->
    handoffs (tables s') = handoffs (tables s) ++ [h] ->
    messages (tables s') = messages (tables s) ++ [m] ->
    posted s s' (Handoffs.senderId h) (Handoffs.recipientId h) (Handoffs.id h) (Handoffs.id h)
      thread_created ->
    thread_step s s'
| step_append h m :
    find_handoff (tables s) (Handoffs.id h) = Some h ->
    terminal (Handoffs.status h) = false ->
    participant h (Messages.authorId m) = true ->
    blocks (tables s) (other_participant h (Messages.authorId m)) (Messages.authorId m) = false ->
    Messages.handoffId m = Handoffs.id h ->
    new_message (tables s) m (max_sequence (tables s) (Handoffs.id h) + 1) ->
    handoffs (tables s') = handoffs (tables s) ->
    messages (tables s') = messages (tables s) ++ [m] ->
    posted s s' (Messages.authorId m) (other_participant h (Messages.authorId m))
      (Handoffs.id h) (Messages.id m) message_appended ->
    thread_step s s'
| step_move h h' l1 l2 actor rcpt k :
    handoffs (tables s) = l1 ++ h :: l2 -> handoffs (tables s') = l1 ++ h' :: l2 ->
    messages (tables s') = messages (tables s) ->
    same_content h h' -> moves (tables s) h h' actor rcpt k ->
    posted s s' actor rcpt (Handoffs.id h) (Handoffs.id h) k ->
    thread_step s s'
| step_block_list :
    handoffs (tables s') = handoffs (tables s) -> messages (tables s') = messages (tables s) ->
    agents (tables s') = agents (tables s) ->
    mailboxEvents (tables s') = mailboxEvents (tables s) ->
    cursorSeq s' = cursorSeq s -> thread_step s s'.

(** ** Well-formed stores *)

(** The messages of a thread, in insertion order. *)
Definition thread (t : Tables) (id : string) : list Messages.Message :=
  array_filter (fun m => Messages.handoffId m === id) (messages t).
Definition thread_events (t : Tables) (id : string) : list MailboxEvents.MailboxEvent :=
  array_filter (fun e => MailboxEvents.threadId e === id) (mailboxEvents t).

(** How many transitions a status stands for. *)
Definition moves_made (s : HandoffStatus) : Z :=
  match s with pending => 0 | accepted => 1 | completed => 2 | cancelled => 1 end.

(** The columns that record a transition are those of the status. *)
Definition coherent (h : Handoffs.Handoff) : Prop :=
  match Handoffs.status h with
  | pending => Handoffs.acceptedAt h = None /\ Handoffs.completedAt h = None /\ Handoffs.cancelledAt h = None
  | accepted => Handoffs.acceptedAt h <> None /\ Handoffs.completedAt h = None /\ Handoffs.cancelledAt h = None
  | completed => Handoffs.acceptedAt h <> None /\ Handoffs.completedAt h <> None /\ Handoffs.cancelledAt h = None
  | cancelled => Handoffs.acceptedAt h = None /\ Handoffs.completedAt h = None /\ Handoffs.cancelledAt h <> None
  end.

Record handoff_ok (t : Tables) (h : Handoffs.Handoff) : Prop := {
  handoff_parties : Handoffs.senderId h <> Handoffs.recipientId h;
  handoff_action : (Handoffs.intent h === propose_action) = non_null (Handoffs.proposedAction h);
  handoff_coherent : coherent h;
  handoff_numbers : map Messages.sequenceNo (thread t (Handoffs.id h)) =
    seqZ 1 (len (thread t (Handoffs.id h)));
  handoff_first : exists m, head (thread t (Handoffs.id h)) = Some m /\
    Messages.authorId m = Handoffs.senderId h /\ Messages.body m = Handoffs.summary h;
  handoff_events : len (thread_events t (Handoffs.id h)) =
    len (thread t (Handoffs.id h)) + moves_made (Handoffs.status h)
}.

(** A message or an event belongs to a thread and to its two parties. *)
Definition message_ok (t : Tables) (m : Messages.Message) : Prop :=
  exists h, h ∈ handoffs t /\ Handoffs.id h = Messages.handoffId m /\
    participant h (Messages.authorId m) = true.
Definition event_ok (t : Tables) (e : MailboxEvents.MailboxEvent) : Prop :=
  exists h, h ∈ handoffs t /\ Handoffs.id h = MailboxEvents.threadId e /\
    participant h (MailboxEvents.actorAgentId e) = true /\
    MailboxEvents.recipientAgentId e = other_participant h (MailboxEvents.actorAgentId e) /\
    agent_exists t (MailboxEvents.actorAgentId e) = true.

Definition keys_of (t : Tables) : list string := omap Handoffs.idempotencyKey (handoffs t).
Definition message_keys (t : Tables) : list string := omap Messages.idempotencyKey (messages t).

Record store_ok (s : Store) : Prop := {
  ok_ids : NoDup (map Handoffs.id (handoffs (tables s)));
  ok_keys : NoDup (keys_of (tables s));
  ok_message_ids : NoDup (map Messages.id (messages (tables s)));
  ok_message_keys : NoDup (message_keys (tables s));
  ok_handoffs : Forall (handoff_ok (tables s)) (handoffs (tables s));
  ok_messages : Forall (message_ok (tables s)) (messages (tables s));
  ok_events : Forall (event_ok (tables s)) (mailboxEvents (tables s));
  ok_cursors : StronglySorted Z.lt (map MailboxEvents.cursor (mailboxEvents (tables s)));
  ok_cursor_seq : Forall (fun e => MailboxEvents.cursor e <= cursorSeq s) (mailboxEvents (tables s))
}.

(** A store with agents and no thread, as the migrations and the registrations leave it. *)
Definition initial (s : Store) : Prop :=
  handoffs (tables s) = [] /\ messages (tables s) = [] /\ mailboxEvents (tables s) = [].

(** ** Histories: calls, interleaved with what other parts of the relay do to the
    agents (registration, activation), who are never deleted or renamed. *)
Definition agents_kept (old new : list Agents.Agent) : Prop :=
  (forall a, a ∈ old -> exists b, b ∈ new /\ Agents.id b = Agents.id a /\
                              Agents.handle b = Agents.handle a) /\
  NoDup (map Agents.handle new) /\ NoDup (map Agents.id new).

Inductive history : Store -> Store -> Prop :=
| history_nil s : history s s
| history_call s c s' : history (serve c s) s' -> history s s'
| history_agents s l s' :
    agents_kept (agents (tables s)) l ->
    history (s <| tables := (tables s) <| agents := l |> |>) s' -> history s s'.

Definition reachable (s : Store) : Prop := exists s0, initial s0 /\ history s0 s.
End Spec.
