(* ===== verification/HandoffRefine.v ===== *)
(** * The handoff service implements its specification

    Inversion lemmas for the transaction monad and the inserts, then, for each
    operation, what a run that returned has written, and the refinement of
    [thread_step]. *)

From S2P Require Import Prelude JsLib RelayStore Mailbox Handoff HandoffSpec.
Local Open Scope Z_scope.

(** Rewrite every store by the one it was computed from. *)
Ltac tabs :=
  repeat match goal with
  | E : tables ?s = _ |- context [tables ?s] => rewrite E
  | E : cursorSeq ?s = _ |- context [cursorSeq ?s] => rewrite E
  end; cbn.

Ltac tabs_hyps :=
  repeat match goal with
  | E : tables ?s = _, G : context [tables ?s] |- _ =>
      lazymatch G with E => fail | _ => rewrite E in G end
  | E : cursorSeq ?s = _, G : context [cursorSeq ?s] |- _ =>
      lazymatch G with E => fail | _ => rewrite E in G end
  end.

Section Refine.
Context `{RelayEnv}.
Implicit Types s : Store.

(** ** The monad *)
Lemma bind_ok {A B} (m : Tx A) (k : A -> Tx B) s b s' :
  (m ≫= k) s = (Ok b, s') -> exists a s1, m s = (Ok a, s1) /\ k a s1 = (Ok b, s').
Proof. unfold mbind, Tx_bind. destruct (m s) as [[a|e] s1]; [eauto|done]. Qed.

(** The tables and the cursor sequence are as before. *)
Definition quiet s s' : Prop := tables s' = tables s /\ cursorSeq s' = cursorSeq s.

Lemma mret_ok {A} (a b : A) s s' : mret (M := Tx) a s = (Ok b, s') -> b = a /\ s' = s.
Proof. by intros [= -> ->]. Qed.
Lemma throw_if_ok b c m s u s' : throw_if b c m s = (Ok u, s') -> b = false /\ quiet s s'.
Proof. unfold throw_if. destruct b; [done|]. by intros [= <- ->]. Qed.
Lemma check_ok b n s u s' : check b n s = (Ok u, s') -> b = true /\ quiet s s'.
Proof. unfold check. destruct b; [|done]. by intros [= <- ->]. Qed.
Lemma lock_ok l s u s' : lock l s = (Ok u, s') -> quiet s s'.
Proof. by intros [= <- <-]. Qed.
Lemma select_ok {A} (q : Tables -> A) s a s' :
  select q s = (Ok a, s') -> a = q (tables s) /\ quiet s s'.
Proof. by intros [= <- <-]. Qed.
Lemma write_ok f s u s' :
  write f s = (Ok u, s') -> tables s' = f (tables s) /\ cursorSeq s' = cursorSeq s.
Proof. by intros [= <- <-]. Qed.
Lemma draw_uuid_ok s i s' : draw_uuid s = (Ok i, s') -> quiet s s'.
Proof. by intros [= <- <-]. Qed.
Lemma raise_ok {A} c m s (a : A) s' : raise c m s = (Ok a, s') -> False.
Proof. done. Qed.
Lemma next_audit_id_ok s i s' : next_audit_id s = (Ok i, s') -> quiet s s'.
Proof. unfold next_audit_id. destruct (_ <? _); [|done]. by intros [= <- <-]. Qed.
Lemma next_cursor_ok s c s' :
  next_cursor_value s = (Ok c, s') ->
  c = cursorSeq s' /\ tables s' = tables s /\ cursorSeq s' = cursorSeq s + 1.
Proof. unfold next_cursor_value. destruct (_ <? _); [|done]. by intros [= <- <-]. Qed.

(** A transaction commits what its body wrote, or nothing. *)
Lemma transaction_ok {A} (m : Tx A) s a s' :
  transaction m s = (Ok a, s') -> exists s0 s1, quiet s s0 /\ m s0 = (Ok a, s1) /\ quiet s1 s'.
Proof.
  unfold transaction. intros E.
  destruct (m (s <| held := [] |>)) as [[b|e] s1] eqn:M; [|done]. injection E as -> <-.
  by exists (s <| held := [] |>), s1.
Qed.
End Refine.

(** Split [E : m s = (Ok _, _)] along the binds of [m]. *)
Ltac tx_step E :=
  lazymatch type of E with
  | (_ ≫= _) _ = (Ok _, _) =>
      let a := fresh "a" in let s1 := fresh "s" in let E1 := fresh "R" in
      apply bind_ok in E as (a & s1 & E1 & E); tx_step E1; tx_step E
  | mret _ _ = (Ok _, _) => apply mret_ok in E as (-> & ->)
  | throw_if _ _ _ _ = (Ok _, _) => let Q := fresh "G" in apply throw_if_ok in E as (Q & E); destruct E
  | check _ _ _ = (Ok _, _) => let Q := fresh "G" in apply check_ok in E as (Q & E); destruct E
  | lock _ _ = (Ok _, _) => apply lock_ok in E; destruct E
  | select _ _ = (Ok _, _) => apply select_ok in E as (-> & E); destruct E
  | write _ _ = (Ok _, _) => apply write_ok in E; destruct E
  | draw_uuid _ = (Ok _, _) => apply draw_uuid_ok in E; destruct E
  | next_audit_id _ = (Ok _, _) => apply next_audit_id_ok in E; destruct E
  | next_cursor_value _ = (Ok _, _) => apply next_cursor_ok in E as (-> & E); destruct E
  | raise _ _ _ = (Ok _, _) => destruct (raise_ok _ _ _ _ _ E)
  | _ => idtac
  end.

(** Split off the first bind only. *)
Ltac tx_one E :=
  let a := fresh "a" in let s1 := fresh "s" in let E1 := fresh "R" in
  apply bind_ok in E as (a & s1 & E1 & E); tx_step E1.

Section Inserts.
Context `{RelayEnv}.
Implicit Types s : Store.

Lemma insert_handoff_ok now snd rcp sm it ar pa md key s h s' :
  insert_handoff now snd rcp sm it ar pa md key s = (Ok h, s') ->
  tables s' = (tables s) <| handoffs := handoffs (tables s) ++ [h] |> /\
  cursorSeq s' = cursorSeq s /\
  Handoffs.senderId h = snd /\ Handoffs.recipientId h = rcp /\ Handoffs.summary h = sm /\
  Handoffs.idempotencyKey h = key /\ Handoffs.intent h = it /\ Handoffs.artifacts h = ar /\
  Handoffs.proposedAction h = pa /\ Handoffs.metadata h = md /\ Handoffs.createdAt h = now /\
  (blocks (tables s) rcp snd = false -> fresh_handoff (tables s) h).
Proof.
  unfold insert_handoff. intros E. tx_step E. bool_hyps. tabs_hyps. tabs.
  repeat split; auto. by apply Bool.eqb_prop.
Qed.

Lemma insert_message_ok now hid author b pl ar n key s m s' :
  insert_message now hid author b pl ar n key s = (Ok m, s') ->
  tables s' = (tables s) <| messages := messages (tables s) ++ [m] |> /\
  cursorSeq s' = cursorSeq s /\
  Messages.handoffId m = hid /\ Messages.authorId m = author /\ Messages.body m = b /\
  Messages.payload m = pl /\ Messages.artifacts m = ar /\
  Messages.idempotencyKey m = key /\ Messages.createdAt m = now /\ n <= max_integer /\
  new_message (tables s) m n.
Proof.
  unfold insert_message. intros E. tx_step E. bool_hyps. tabs_hyps. tabs.
  repeat split; auto.
Qed.

Lemma writeAudit_ok now e s u s' :
  writeAudit now e s = (Ok u, s') ->
  cursorSeq s' = cursorSeq s /\
  exists a, tables s' = (tables s) <| auditLog := auditLog (tables s) ++ [a] |> /\
    AuditLog.actorKind a = default "agent" (actorKind e) /\ AuditLog.actorId a = actorId e /\
    AuditLog.resourceId a = resourceId e.
Proof.
  unfold writeAudit, insert_audit. intros E. tx_step E. tabs.
  split; [done|]. eexists. split; [reflexivity|]. done.
Qed.

Lemma appendMailboxEvent_ok now i s e s' :
  appendMailboxEvent now i s = (Ok e, s') ->
  tables s' = (tables s) <| mailboxEvents := mailboxEvents (tables s) ++ [e] |>
                         <| notified := notified (tables s) ++ [recipientAgentId i] |> /\
  cursorSeq s' = cursorSeq s + 1 /\ recipientAgentId i <> actorAgentId i /\
  agent_exists (tables s) (recipientAgentId i) = true /\
  agent_exists (tables s) (actorAgentId i) = true /\
  MailboxEvents.recipientAgentId e = recipientAgentId i /\
  MailboxEvents.actorAgentId e = actorAgentId i /\ MailboxEvents.threadId e = threadId i /\
  MailboxEvents.kind e = kind i /\ MailboxEvents.sourceId e = sourceId i /\
  MailboxEvents.cursor e = cursorSeq s'.
Proof.
  unfold appendMailboxEvent, insert_mailbox_event, pg_notify. intros E. tx_step E. bool_hyps. tabs_hyps. tabs.
  repeat split; auto.
Qed.
End Inserts.

(** ** What a committed call leaves in the audit log and the mailbox *)
Section Posting.
Context `{RelayEnv}.
Implicit Types s : Store.

(** Only threads and messages may differ. *)
Definition content_only s s1 : Prop :=
  agents (tables s1) = agents (tables s) /\ agentBlocks (tables s1) = agentBlocks (tables s) /\
  auditLog (tables s1) = auditLog (tables s) /\ mailboxEvents (tables s1) = mailboxEvents (tables s) /\
  notified (tables s1) = notified (tables s) /\ cursorSeq s1 = cursorSeq s.

Lemma posted_intro s s1 s2 s3 now ae me u e :
  content_only s s1 ->
  writeAudit now ae s1 = (Ok u, s2) -> appendMailboxEvent now me s2 = (Ok e, s3) ->
  actorKind ae = None -> actorId ae = Some (actorAgentId me) -> resourceId ae = sourceId me ->
  posted s s3 (actorAgentId me) (recipientAgentId me) (threadId me) (sourceId me) (kind me) /\
  handoffs (tables s3) = handoffs (tables s1) /\ messages (tables s3) = messages (tables s1).
Proof.
  intros (Ea & Eb & El & Ee & En & Ec) (Ec2 & a & Ea2 & K & I & R)%writeAudit_ok E Kn Ia Rs.
  apply appendMailboxEvent_ok in E as (T & C & N & X1 & X2 & F1 & F2 & F3 & F4 & F5 & F6).
  rewrite Ea2 in *. cbn in *. unfold agent_exists in X1, X2. cbn in X1, X2.
  split; [|by rewrite T]. split; rewrite ?T; cbn; rewrite ?Ea, ?Eb, ?El, ?Ee, ?En; auto.
  - exists a. rewrite K, I, R, Kn, Ia, Rs. done.
  - exists e. done.
  - lia.
  - unfold agent_exists. by rewrite <-Ea.
Qed.

(** ** [createHandoff] *)
Lemma usable_key_Some key k : usable_key key = Some k -> key = Some k /\ k <> "".
Proof. destruct key as [x|]; cbn; [|done]. case_bool_decide; [done|]. by intros [= <-]. Qed.

Lemma lock_key_ok key s u s' : lock_key key s = (Ok u, s') -> quiet s s'.
Proof. unfold lock_key. destruct (usable_key key); [by intros [= <- <-]|by intros [= <- <-]]. Qed.

Lemma new_message_ext t t' m n :
  messages t' = messages t -> new_message t m n -> new_message t' m n.
Proof. intros E []. split; rewrite ?E; done. Qed.

(** A new thread [h] with its first message [m]. *)
Definition created (input : CreateHandoffInput) s s' (h : Handoffs.Handoff) (m : Messages.Message) : Prop :=
  fresh_handoff (tables s) h /\ new_message (tables s) m 1 /\
  Messages.handoffId m = Handoffs.id h /\ Messages.authorId m = Handoffs.senderId h /\
  Messages.body m = Handoffs.summary h /\ Messages.idempotencyKey m = None /\
  handoffs (tables s') = handoffs (tables s) ++ [h] /\
  messages (tables s') = messages (tables s) ++ [m] /\
  posted s s' (Handoffs.senderId h) (Handoffs.recipientId h) (Handoffs.id h) (Handoffs.id h)
    thread_created /\
  Handoffs.idempotencyKey h = idempotencyKey input /\
  samePayload h (find_agent (tables s) (recipientHandle input)) (Some m) input = true.

Lemma create_new_ok now input s r s' :
  create_new now input (find_agent (tables s) (recipientHandle input)) s = (Ok r, s') ->
  r.2 = false /\ exists m, created input s s' r.1 m.
Proof.
  unfold create_new, isSenderBlocked, lockAgentBlockPair.
  destruct (find_agent _ _) as [a|] eqn:F; [|done]. intros E. tx_step E. cbn.
  split; [done|]. exists a5. bool_hyps.
  apply insert_handoff_ok in R as (T5 & C5 & F1 & F2 & F3 & F4 & F5 & F6 & F7 & F8 & _ & FH).
  apply insert_message_ok in R0 as (T6 & C6 & M1 & M2 & M3 & M4 & _ & M5 & _ & _ & FM).
  edestruct (posted_intro s s6) as (P & Ph & Pm); [|exact R1|exact R2|done|done|done|].
  { repeat split; tabs; done. }
  cbn in P. unfold created. rewrite F1, F2. split_and!; try congruence.
  - rewrite <-H0, <-H2, <-H4, <-H6, <-H8 in *. by apply FH.
  - eapply new_message_ext; [|exact FM]. by tabs.
  - rewrite Ph. by tabs.
  - rewrite Pm. by tabs.
  - unfold samePayload. rewrite F, F1, F2, F3, F5, F6, F7, F8. cbn. rewrite M4.
    by rewrite !bool_decide_eq_true_2.
Qed.

Lemma posted_quiet s0 s s1 s2 actor rcpt th src k :
  quiet s0 s -> quiet s1 s2 -> posted s s1 actor rcpt th src k -> posted s0 s2 actor rcpt th src k.
Proof. intros [T C] [T' C'] []. rewrite T, C in *. split; rewrite ?T', ?C'; done. Qed.

Lemma created_quiet input s0 s s1 s2 h m :
  quiet s0 s -> quiet s1 s2 -> created input s s1 h m -> created input s0 s2 h m.
Proof.
  intros Q Q' (F & M & ? & ? & ? & ? & Eh & Em & P & ? & S).
  pose proof (posted_quiet _ _ _ _ _ _ _ _ _ Q Q' P) as P'.
  destruct Q as [T _], Q' as [T' _]. rewrite T in *. unfold created. rewrite T'. split_and!; auto.
Qed.

(** What [createHandoff] returns, and what it has written. *)
Definition create_result (input : CreateHandoffInput) s (r : Handoffs.Handoff * bool) s' : Prop :=
  match usable_key (idempotencyKey input) ≫= find_by_key (tables s) with
  | Some h =>
      r = (h, true) /\ quiet s s' /\
      samePayload h (find_agent (tables s) (recipientHandle input))
        (first_message (tables s) (Handoffs.id h)) input = true
  | None => r.2 = false /\ exists m, created input s s' r.1 m
  end.

Lemma quiet_trans s1 s2 s3 : quiet s1 s2 -> quiet s2 s3 -> quiet s1 s3.
Proof. unfold quiet. intuition congruence. Qed.

Lemma create_result_quiet input s0 s r s1 s2 :
  quiet s0 s -> quiet s1 s2 -> create_result input s r s1 -> create_result input s0 r s2.
Proof.
  intros Q Q'. unfold create_result. destruct (Q) as [T _]. rewrite T. destruct (_ ≫= _).
  - intros (-> & Q1 & S). split_and!; auto. by eapply quiet_trans, quiet_trans.
  - intros (E & m & M). split; [done|]. exists m. by eapply created_quiet.
Qed.

Lemma create_tx_ok now input s r s' :
  create_tx now input s = (Ok r, s') -> create_result input s r s'.
Proof.
  unfold create_tx, create_result. intros (u & s1 & [T C]%lock_key_ok & E)%bind_ok.
  tx_step E. tabs_hyps.
  change (λ k, find_by_key (tables s) k) with (find_by_key (tables s)) in E.
  destruct (_ ≫= _) as [h|].
  - tx_step E. tabs_hyps. bool_hyps. repeat split; tabs; done.
  - replace (tables s) with (tables s2) in E by done. apply create_new_ok in E as (E & m & M).
    split; [done|]. exists m. by apply (created_quiet _ s s2 s' s').
Qed.

Lemma validate_ok i a s u s' :
  validateIntentInvariant i a s = (Ok u, s') ->
  quiet s s' /\ (i === propose_action) = non_null a.
Proof.
  unfold validateIntentInvariant. intros E. tx_step E.
  split; [destruct a; tx_step E; split; tabs; congruence|].
  by destruct (i === propose_action), a.
Qed.

Lemma createHandoff_ok now input s r s' :
  createHandoff now input s = (Ok r, s') -> create_result input s r s'.
Proof.
  unfold createHandoff. intros (u & s1 & [Q _]%validate_ok & E)%bind_ok.
  apply transaction_ok in E as (s2 & s3 & Q2 & E & Q3). apply create_tx_ok in E.
  eapply create_result_quiet; [|exact Q3|exact E]. by eapply quiet_trans.
Qed.

(** ** [appendMessage] *)
Definition appended (input : AppendMessageInput) s s' (h : Handoffs.Handoff) (m : Messages.Message) : Prop :=
  terminal (Handoffs.status h) = false /\
  blocks (tables s) (other_participant h (append_senderId input)) (append_senderId input) = false /\
  new_message (tables s) m (max_sequence (tables s) (Handoffs.id h) + 1) /\
  max_sequence (tables s) (Handoffs.id h) < max_integer /\
  Messages.idempotencyKey m = append_idempotencyKey input /\ message_differs m h input = false /\
  handoffs (tables s') = handoffs (tables s) /\
  messages (tables s') = messages (tables s) ++ [m] /\
  posted s s' (append_senderId input) (other_participant h (append_senderId input))
    (Handoffs.id h) (Messages.id m) message_appended.

Definition append_result (input : AppendMessageInput) s (r : AppendResult) s' : Prop :=
  exists h, find_handoff (tables s) (taskId input) = Some h /\
  participant h (append_senderId input) = true /\
  exists m, messageId r = Messages.id m /\ sequenceNo r = Messages.sequenceNo m /\
    createdAt r = Messages.createdAt m /\
    match usable_key (append_idempotencyKey input) ≫= find_message_by_key (tables s) with
    | Some m' => m = m' /\ replayed r = true /\ quiet s s' /\ message_differs m h input = false
    | None => replayed r = false /\ appended input s s' h m
    end.

Lemma append_new_ok now input h s r s' :
  append_new now input h s = (Ok r, s') ->
  exists m, messageId r = Messages.id m /\ sequenceNo r = Messages.sequenceNo m /\
    createdAt r = Messages.createdAt m /\ replayed r = false /\ appended input s s' h m.
Proof.
  unfold append_new, isSenderBlocked, lockAgentBlockPair, nextSequenceNo. intros E. tx_step E.
  tabs_hyps. exists a2. split_and!; try done.
  apply insert_message_ok in R as (T4 & C4 & M1 & M2 & M3 & M4 & M5 & M6 & _ & B & FM).
  edestruct (posted_intro s s4) as (P & Ph & Pm); [|exact R0|exact R1|done|done|done|].
  { repeat split; tabs; done. }
  tabs_hyps. split_and!; auto.
  - lia.
  - unfold message_differs. rewrite M1, M2, M3, M4, M5, !bool_decide_eq_true_2; done.
Qed.

Lemma appended_quiet input s0 s s1 s2 h m :
  quiet s0 s -> quiet s1 s2 -> appended input s s1 h m -> appended input s0 s2 h m.
Proof.
  intros Q Q' (? & ? & ? & ? & ? & ? & ? & ? & P). pose proof (posted_quiet _ _ _ _ _ _ _ _ _ Q Q' P).
  destruct Q as [T _], Q' as [T' _]. rewrite T in *. unfold appended. rewrite T'. split_and!; auto.
Qed.

Lemma append_result_quiet input s0 s r s1 s2 :
  quiet s0 s -> quiet s1 s2 -> append_result input s r s1 -> append_result input s0 r s2.
Proof.
  intros Q Q' (h & F & Pa & m & ? & ? & ? & C). destruct (Q) as [T _]. rewrite T in F, C.
  exists h. split_and!; auto. exists m. split_and!; auto. destruct (_ ≫= _).
  - destruct C as (? & ? & Q1 & ?). split_and!; auto. by eapply quiet_trans, quiet_trans.
  - destruct C as (? & A). split; [done|]. by eapply appended_quiet.
Qed.

Lemma append_tx_ok now input s r s' :
  append_tx now input s = (Ok r, s') -> append_result input s r s'.
Proof.
  unfold append_tx, select_for_update, append_result.
  intros (u & s1 & [T C]%lock_key_ok & E)%bind_ok. tx_step E. tabs_hyps.
  destruct (find_handoff _ _) as [h|]; [|done]. exists h. split; [done|]. tx_step E. bool_hyps.
  split; [done|]. tabs_hyps.
  change (λ k, find_message_by_key (tables s) k) with (find_message_by_key (tables s)) in E.
  destruct (_ ≫= _) as [m|].
  - tx_step E. bool_hyps. exists m. cbn. repeat split; tabs; done.
  - apply append_new_ok in E as (m & ? & ? & ? & ? & A). exists m. split_and!; auto.
    eapply appended_quiet; [|split; reflexivity|exact A]. split; tabs; done.
Qed.

Lemma appendMessage_ok now input s r s' :
  appendMessage now input s = (Ok r, s') -> append_result input s r s'.
Proof.
  intros (s2 & s3 & Q2 & E & Q3)%transaction_ok. apply append_tx_ok in E.
  by eapply append_result_quiet.
Qed.
End Posting.

(** ** [transitionHandoff] *)
Section Transitions.
Context `{RelayEnv}.
Implicit Types s : Store.

(** The row of the thread after the update, in place. *)
Definition replaced (t t' : Tables) (h h' : Handoffs.Handoff) : Prop :=
  exists l1 l2, handoffs t = l1 ++ h :: l2 /\ handoffs t' = l1 ++ h' :: l2.

Lemma find_handoff_split t i h :
  find_handoff t i = Some h ->
  Handoffs.id h = i /\ exists l1 l2, handoffs t = l1 ++ h :: l2 /\
    forall x, x ∈ l1 -> Handoffs.id x <> i.
Proof.
  unfold find_handoff. induction (handoffs t) as [|x l IH]; cbn; [done|].
  case_bool_decide as D.
  - intros [= ->]. split; [done|]. exists [], l. split; [done|]. intros y Hy. by apply not_elem_of_nil in Hy.
  - intros (E & l1 & l2 & -> & N)%IH. split; [done|]. exists (x :: l1), l2. split; [done|].
    intros y [->|Hy]%elem_of_cons; auto.
Qed.

Lemma update_in_status_ok now st (set : Handoffs.Handoff -> Handoffs.Handoff) h s u s' :
  NoDup (map Handoffs.id (handoffs (tables s))) ->
  find_handoff (tables s) (Handoffs.id h) = Some h -> Handoffs.status h = st ->
  update_in_status now (Handoffs.id h) st set s = (Ok u, s') ->
  u = (set h) <| Handoffs.updatedAt := now |> /\ replaced (tables s) (tables s') h u /\
  messages (tables s') = messages (tables s) /\ content_only s s'.
Proof.
  intros N F St E. destruct (find_handoff_split _ _ _ F) as (_ & l1 & l2 & El & _).
  unfold update_in_status, update_handoffs in E. tx_step E. tabs_hyps.
  set (p := fun x : Handoffs.Handoff => _) in *.
  assert (Hp : forall x, x ∈ l1 ++ l2 -> p x = false).
  { intros x Hx. unfold p. apply andb_false_intro1, bool_decide_eq_false.
    eapply NoDup_map_middle; [|exact Hx]. by rewrite <-El. }
  assert (ph : p h = true) by (unfold p; by rewrite !bool_decide_eq_true_2).
  rewrite El, (array_filter_one p l1 h l2 Hp ph) in E. cbn in E. unfold update_rows in E. rewrite ph in E.
  tx_step E. split_and!; [done| |by rewrite H2|].
  - exists l1, l2. rewrite H2, El. cbn. split; [done|]. exact (map_one p (fun h => (set h) <| Handoffs.updatedAt := now |>) _ _ _ Hp ph).
  - unfold content_only. by rewrite H2, H3.
Qed.

(** A move of [h] by [actor], and its trace. *)
Definition moved s s' (h h' : Handoffs.Handoff) actor rcpt k : Prop :=
  replaced (tables s) (tables s') h h' /\ messages (tables s') = messages (tables s) /\
  same_content h h' /\ moves (tables s) h h' actor rcpt k /\
  posted s s' actor rcpt (Handoffs.id h) (Handoffs.id h) k.

Lemma record_transition_ok now input h act md rcpt k s s1 u s' :
  content_only s s1 ->
  record_transition now input h act md rcpt k s1 = (Ok u, s') ->
  posted s s' (callerId input) rcpt (Handoffs.id h) (Handoffs.id h) k /\
  handoffs (tables s') = handoffs (tables s1) /\ messages (tables s') = messages (tables s1).
Proof.
  intros C E. unfold record_transition in E. tx_step E.
  by edestruct (posted_intro s s1) as (P & Ph & Pm); [exact C|exact R|exact R0|done..|].
Qed.

Lemma content_only_quiet s0 s s1 : quiet s0 s -> content_only s s1 -> content_only s0 s1.
Proof. intros [T C]. unfold content_only. by rewrite T, C. Qed.

(** The common part of the three transitions. *)
Lemma transition_tail now input st set h act md rcpt k s s0 u s' :
  NoDup (map Handoffs.id (handoffs (tables s))) ->
  find_handoff (tables s) (Handoffs.id h) = Some h -> Handoffs.status h = st -> quiet s s0 ->
  (u ← update_in_status now (Handoffs.id h) st set;
   _ ← record_transition now input h act md rcpt k; mret u) s0 = (Ok u, s') ->
  u = (set h) <| Handoffs.updatedAt := now |> /\
  replaced (tables s) (tables s') h u /\ messages (tables s') = messages (tables s) /\
  posted s s' (callerId input) rcpt (Handoffs.id h) (Handoffs.id h) k.
Proof.
  intros N F St Q E. destruct (Q) as [T _]. rewrite <-T in N, F. tx_step E.
  apply update_in_status_ok in R as (-> & (l1 & l2 & E1 & E2) & Em & C); auto.
  apply (record_transition_ok _ _ _ _ _ _ _ s) in R0 as (P & Eh & Em'); [|by eapply content_only_quiet].
  rewrite <-T. split_and!; auto; [|congruence]. exists l1, l2. by rewrite Eh.
Qed.

Section Moves.
Context (now date : Z) (input : TransitionInput) (h r : Handoffs.Handoff) (s s0 s' : Store).
Context (N : NoDup (map Handoffs.id (handoffs (tables s)))).
Context (F : find_handoff (tables s) (Handoffs.id h) = Some h) (Q : quiet s s0).

Lemma accept_ok :
  accept_handoff now date input h s0 = (Ok r, s') ->
  callerId input = Handoffs.recipientId h /\
  ((Handoffs.status h = accepted /\ r = h /\ quiet s s') \/
   moved s s' h r (Handoffs.recipientId h) (Handoffs.senderId h) thread_accepted).
Proof.
  unfold accept_handoff, isSenderBlocked, lockAgentBlockPair. intros E. destruct Q. tx_one E. bool_hyps.
  split; [done|]. case_bool_decide; [tx_step E; left; repeat split; tabs; congruence|]. right.
  do 4 tx_one E. bool_hyps. tabs_hyps.
  eapply transition_tail in E as (-> & Rp & Em & P); [|done..|by split].
  rewrite <-G in P. split_and!; auto; [by split|]. by apply (moves_accept _ _ _ date).
Qed.

Lemma complete_ok :
  complete_handoff now date input h s0 = (Ok r, s') ->
  callerId input = Handoffs.recipientId h /\
  moved s s' h r (Handoffs.recipientId h) (Handoffs.senderId h) thread_completed.
Proof.
  unfold complete_handoff, isSenderBlocked, lockAgentBlockPair. intros E. destruct Q.
  do 5 tx_one E. bool_hyps. tabs_hyps. split; [done|].
  eapply transition_tail in E as (-> & Rp & Em & P); [|done..|by split].
  rewrite <-G in P, G1. split_and!; auto; [by split|]. by apply (moves_complete _ _ _ date).
Qed.

Lemma cancel_ok :
  cancel_handoff now date input h s0 = (Ok r, s') ->
  callerId input = Handoffs.senderId h /\
  moved s s' h r (Handoffs.senderId h) (Handoffs.recipientId h) thread_cancelled.
Proof.
  unfold cancel_handoff. intros E. destruct Q. do 2 tx_one E. bool_hyps. tabs_hyps. split; [done|].
  eapply transition_tail in E as (-> & Rp & Em & P); [|done..|by split].
  rewrite <-G in P. split_and!; auto; [by split|]. by apply (moves_cancel _ _ _ date).
Qed.
End Moves.

(** What [transitionHandoff] returns, and what it has written. *)
Definition transition_result (input : TransitionInput) s (r : Handoffs.Handoff) s' : Prop :=
  exists h, find_handoff (tables s) (transition_taskId input) = Some h /\
  match transition input with
  | accept => callerId input = Handoffs.recipientId h /\
      ((Handoffs.status h = accepted /\ r = h /\ quiet s s') \/
       moved s s' h r (Handoffs.recipientId h) (Handoffs.senderId h) thread_accepted)
  | complete => callerId input = Handoffs.recipientId h /\
      moved s s' h r (Handoffs.recipientId h) (Handoffs.senderId h) thread_completed
  | cancel => callerId input = Handoffs.senderId h /\
      moved s s' h r (Handoffs.senderId h) (Handoffs.recipientId h) thread_cancelled
  end.

Lemma moved_quiet s0 s s1 s2 h h' actor rcpt k :
  quiet s0 s -> quiet s1 s2 -> moved s s1 h h' actor rcpt k -> moved s0 s2 h h' actor rcpt k.
Proof.
  intros Q Q' (R & M & C & V & P). pose proof (posted_quiet _ _ _ _ _ _ _ _ _ Q Q' P).
  destruct Q as [T _], Q' as [T' _]. rewrite T in *. unfold moved. rewrite T'. split_and!; auto.
Qed.

Lemma transition_tx_ok now date input s r s' :
  NoDup (map Handoffs.id (handoffs (tables s))) ->
  transition_tx now date input s = (Ok r, s') -> transition_result input s r s'.
Proof.
  intros N. unfold transition_tx, select_for_update. intros E. tx_one E. tabs_hyps.
  destruct (find_handoff _ _) as [h|] eqn:F; [|by tx_step E]. exists h. split; [done|].
  assert (F' := F). destruct (find_handoff_split _ _ _ F) as (Ei & _). rewrite <-Ei in F'.
  tx_one E. tabs_hyps. destruct (transition input).
  - by eapply accept_ok; [| | |exact E].
  - by eapply complete_ok; [| | |exact E].
  - by eapply cancel_ok; [| | |exact E].
Qed.

Lemma transitionHandoff_ok now date input s r s' :
  NoDup (map Handoffs.id (handoffs (tables s))) ->
  transitionHandoff now date input s = (Ok r, s') -> transition_result input s r s'.
Proof.
  intros N (s2 & s3 & Q2 & E & Q3)%transaction_ok. destruct (Q2) as [T _]. rewrite <-T in N.
  apply transition_tx_ok in E as (h & F & C); [|done]. exists h. rewrite <-T. split; [done|].
  destruct (transition input).
  - destruct C as [? [(? & ? & ?)|M]]; (split; [done|]); [left|right].
    + split_and!; auto. by eapply quiet_trans, quiet_trans.
    + by eapply moved_quiet.
  - destruct C. split; [done|]. by eapply moved_quiet.
  - destruct C. split; [done|]. by eapply moved_quiet.
Qed.
End Transitions.

(** ** Failures: the tables are rolled back, the sequences only grow *)
Section Failures.
Context `{RelayEnv}.
Implicit Types s : Store.

Definition mono {A} (m : Tx A) : Prop := forall s, cursorSeq s <= cursorSeq (m s).2.

Lemma mono_bind {A B} (m : Tx A) (k : A -> Tx B) :
  mono m -> (forall a, mono (k a)) -> mono (m ≫= k).
Proof.
  intros M K s. unfold mbind, Tx_bind. specialize (M s). destruct (m s) as [[a|e] s1]; cbn in *; [|done].
  specialize (K a s1). lia.
Qed.
Lemma mono_ret {A} (a : A) : mono (mret a).
Proof. intros s. cbn. lia. Qed.
Lemma mono_raise {A} c m : mono (@raise _ A c m).
Proof. intros s. cbn. lia. Qed.
Lemma mono_throw_if b c m : mono (throw_if b c m).
Proof. intros s. unfold throw_if. destruct b; cbn; lia. Qed.
Lemma mono_check b n : mono (check b n).
Proof. intros s. unfold check. destruct b; cbn; lia. Qed.
Lemma mono_lock l : mono (lock l).
Proof. intros s. cbn. lia. Qed.
Lemma mono_select {A} (q : Tables -> A) : mono (select q).
Proof. intros s. cbn. lia. Qed.
Lemma mono_write f : mono (write f).
Proof. intros s. cbn. lia. Qed.
Lemma mono_uuid : mono draw_uuid.
Proof. intros s. cbn. lia. Qed.
Lemma mono_audit_id : mono next_audit_id.
Proof. intros s. unfold next_audit_id. destruct (_ <? _); cbn; lia. Qed.
Lemma mono_cursor : mono next_cursor_value.
Proof. intros s. unfold next_cursor_value. destruct (_ <? _); cbn; lia. Qed.
Lemma mono_transaction {A} (m : Tx A) : mono m -> mono (transaction m).
Proof.
  intros M s. unfold transaction. specialize (M (s <| held := [] |>)).
  destruct (m _) as [[a|e] s1]; cbn in *; lia.
Qed.
End Failures.

#[export] Hint Resolve mono_ret mono_raise mono_throw_if mono_check mono_lock
  mono_select mono_write mono_uuid mono_audit_id mono_cursor : relay.

(** Monotone by construction: walk the binds and the case distinctions. *)
Ltac mono := repeat (
  match goal with
  | |- mono (_ ≫= _) => apply mono_bind; [|intros ?]
  | |- mono (match ?x with _ => _ end) => destruct x
  | |- mono (transaction _) => apply mono_transaction
  | |- mono _ => solve [eauto with relay nocore]
  end).

(** *** Computations that preserve a relation between the stores

    [reads] write nothing; [list_only] touch at most the block list and the
    audit log; [atomic] ones write nothing when they throw. *)
Section Preserve.
Context `{RelayEnv}.
Implicit Types s : Store.

Definition same_tables s s' : Prop := tables s' = tables s.
Definition same_threads s s' : Prop :=
  handoffs (tables s') = handoffs (tables s) /\ messages (tables s') = messages (tables s) /\
  agents (tables s') = agents (tables s) /\ mailboxEvents (tables s') = mailboxEvents (tables s) /\
  cursorSeq s' = cursorSeq s.
Definition preserves (R : Store -> Store -> Prop) {A} (m : Tx A) : Prop := forall s, R s (m s).2.
Definition reads {A} (m : Tx A) : Prop := preserves same_tables m.
Definition list_only {A} (m : Tx A) : Prop := preserves same_threads m.
Definition atomic {A} (m : Tx A) : Prop :=
  forall s e s', m s = (Err e, s') -> tables s' = tables s.

#[export] Instance same_tables_trans : Transitive same_tables.
Proof. unfold same_tables. intros ???. congruence. Qed.
#[export] Instance same_threads_trans : Transitive same_threads.
Proof. intros x y z. unfold same_threads. intuition congruence. Qed.

Lemma preserves_bind R `{!Transitive R} {A B} (m : Tx A) (k : A -> Tx B) :
  preserves R m -> (forall a, preserves R (k a)) -> preserves R (m ≫= k).
Proof.
  intros M K s. unfold mbind, Tx_bind. specialize (M s). destruct (m s) as [[a|e] s1]; cbn in *; [|done].
  by etrans; [exact M|apply K].
Qed.
Lemma atomic_bind {A B} (m : Tx A) (k : A -> Tx B) :
  reads m -> (forall a, atomic (k a)) -> atomic (m ≫= k).
Proof.
  intros M K s e s'. unfold mbind, Tx_bind. specialize (M s). unfold same_tables in M.
  destruct (m s) as [[a|e'] s1]; cbn in *; [|by intros [= _ <-]].
  intros E%K. congruence.
Qed.
Lemma atomic_map {A B} (m : Tx A) (f : A -> B) : atomic m -> atomic (a ← m; mret (f a)).
Proof.
  intros M s e s'. unfold mbind, Tx_bind. destruct (m s) as [[a|e'] s1] eqn:E; [done|].
  intros [= _ <-]. by eapply M.
Qed.
Lemma atomic_transaction {A} (m : Tx A) : atomic (transaction m).
Proof.
  intros s e s'. unfold transaction. destruct (m _) as [[a|e'] s1]; [done|]. by intros [= _ <-].
Qed.
Lemma list_only_transaction {A} (m : Tx A) :
  preserves same_threads m -> preserves same_threads (transaction m).
Proof.
  intros M s. unfold transaction. specialize (M (s <| held := [] |>)). destruct (m _) as [[a|e] s1].
  - exact M.
  - destruct M as (_ & _ & _ & _ & C). repeat split. exact C.
Qed.
Lemma atomic_reads {A} (m : Tx A) : reads m -> atomic m.
Proof. intros M s e s' E. specialize (M s). by rewrite E in M. Qed.
End Preserve.

(** Walk the binds and the case distinctions; the primitives compute. *)
Ltac preserve := repeat (
  match goal with
  | |- reads _ => unfold reads
  | |- list_only _ => unfold list_only
  | |- preserves ?R (_ ≫= _) => apply (preserves_bind R); [|intros ?]
  | |- preserves _ (match ?x with _ => _ end) => destruct x
  | |- preserves _ (throw_if ?b _ _) => unfold throw_if; destruct b
  | |- preserves _ (check ?b _) => unfold check; destruct b
  | |- preserves _ (lock_key ?k) => unfold lock_key; destruct (usable_key k)
  | |- preserves _ next_audit_id =>
      let s := fresh "s" in intros s; unfold next_audit_id; destruct (_ <? _); repeat split
  | |- preserves _ (transaction _) => apply list_only_transaction
  | |- preserves _ (_ _) => intros ?; repeat split
  | |- preserves _ (fun _ => _) => intros ?; repeat split
  end).

Section Refinement.
Context `{RelayEnv}.
Implicit Types s : Store.

Lemma mono_writeAudit now e : mono (writeAudit now e).
Proof. unfold writeAudit, insert_audit. mono. Qed.
Lemma mono_event now i : mono (appendMailboxEvent now i).
Proof. unfold appendMailboxEvent, insert_mailbox_event, pg_notify. mono. Qed.
#[local] Hint Resolve mono_writeAudit mono_event : relay.

Lemma mono_run_call c : mono (run_call c).
Proof.
  destruct c; unfold run_call, createHandoff, create_tx, create_new, validateIntentInvariant,
    appendMessage, append_tx, append_new, transitionHandoff,
    transition_tx, accept_handoff, complete_handoff, cancel_handoff, record_transition,
    update_in_status, update_handoffs, post_block, delete_me_block, insert_block, delete_block,
    getHandoff, listHandoffs, listMailboxEvents, select_for_update, lock_key, lockIdempotencyKey,
    lockAgentBlockPair, isSenderBlocked, nextSequenceNo,
    insert_handoff, insert_message; mono.
Qed.

Lemma list_only_block now me tgt reason rq : list_only (post_block now me tgt reason rq).
Proof.
  unfold post_block, insert_block, lockAgentBlockPair, writeAudit, insert_audit.
  preserve.
Qed.

Lemma list_only_unblock now me tgt rq : list_only (delete_me_block now me tgt rq).
Proof.
  unfold delete_me_block, delete_block, lockAgentBlockPair, writeAudit, insert_audit. preserve.
Qed.

Lemma reads_lock_key key : reads (lock_key key).
Proof. preserve. Qed.
Lemma reads_validate i a : reads (validateIntentInvariant i a).
Proof. unfold validateIntentInvariant. preserve. Qed.
Lemma reads_get task caller : reads (getHandoff task caller).
Proof. unfold getHandoff. preserve. Qed.
Lemma reads_list f : reads (listHandoffs f).
Proof. unfold listHandoffs. preserve. Qed.
Lemma reads_events i : reads (listMailboxEvents i).
Proof. unfold listMailboxEvents. preserve. Qed.

Lemma atomic_run_call c : atomic (run_call c).
Proof.
  destruct c; cbn.
  - apply (atomic_map _ (fun _ => tt)), atomic_bind; [apply reads_validate|]. intros _.
    apply atomic_transaction.
  - apply (atomic_map _ (fun _ => tt)), atomic_transaction.
  - apply (atomic_map _ (fun _ => tt)), atomic_transaction.
  - unfold post_block. apply atomic_bind; [preserve|]. intros _.
    apply atomic_bind; [preserve|]. intros [a|]; [apply atomic_transaction|by intros ??? [= _ <-]].
  - unfold delete_me_block. apply atomic_bind; [preserve|]. intros _.
    apply atomic_bind; [preserve|]. intros [a|]; [apply atomic_transaction|done].
  - apply (atomic_map _ (fun _ => tt)), atomic_reads, reads_get.
  - apply (atomic_map _ (fun _ => tt)), atomic_reads, reads_list.
  - apply (atomic_map _ (fun _ => tt)), atomic_reads, reads_events.
Qed.

Lemma run_reads {A} (m : Tx A) s : reads m -> mono m -> thread_step s (m s).2.
Proof. intros R M. apply step_quiet; [apply R|apply M]. Qed.
Lemma run_list_only {A} (m : Tx A) s : list_only m -> thread_step s (m s).2.
Proof. intros R. destruct (R s) as (? & ? & ? & ? & ?). by apply step_block_list. Qed.

Lemma quiet_step s s' : quiet s s' -> thread_step s s'.
Proof. intros [T C]. apply step_quiet; [done|lia]. Qed.

Lemma created_step input s s' h m : created input s s' h m -> thread_step s s'.
Proof. intros (? & ? & ? & ? & ? & ? & ? & ? & ? & _). by apply (step_create _ _ h m). Qed.

Lemma message_differs_false m h input :
  message_differs m h input = false ->
  Messages.handoffId m = Handoffs.id h /\ Messages.authorId m = append_senderId input /\
  Messages.body m = body input /\ Messages.payload m = payload input /\
  Messages.artifacts m = append_artifacts input.
Proof. unfold message_differs. intros ?. bool_hyps. done. Qed.

Lemma moved_step s s' h h' actor rcpt k :
  moved s s' h h' actor rcpt k -> thread_step s s'.
Proof. intros ((l1 & l2 & E & E') & M & C & V & P). by apply (step_move _ _ h h' l1 l2 actor rcpt k). Qed.

Lemma append_step input s r s' : append_result input s r s' -> thread_step s s'.
Proof.
  intros (h & F & Pa & m & _ & _ & _ & C). destruct (_ ≫= _).
  - destruct C as (_ & _ & Q & _). by apply quiet_step.
  - destruct C as (_ & T & B & FM & _ & _ & D & Eh & Em & P).
    apply message_differs_false in D as (M1 & M2 & _). rewrite <-M2 in *.
    destruct (find_handoff_split _ _ _ F) as (Ei & _). rewrite <-Ei in F.
    by apply (step_append _ _ h m).
Qed.

Lemma transition_step input s r s' : transition_result input s r s' -> thread_step s s'.
Proof.
  intros (h & F & C). destruct (transition input).
  - destruct C as [_ [(_ & _ & Q)|M]]; [by apply quiet_step|by eapply moved_step].
  - destruct C as [_ M]. by eapply moved_step.
  - destruct C as [_ M]. by eapply moved_step.
Qed.

Lemma create_step input s r s' : create_result input s r s' -> thread_step s s'.
Proof.
  unfold create_result. destruct (_ ≫= _).
  - intros (_ & Q & _). by apply quiet_step.
  - intros (_ & m & M). by eapply created_step.
Qed.

Lemma drop_ok {A} (m : Tx A) s u s' :
  (_ ← m; mret tt) s = (Ok u, s') -> exists a, m s = (Ok a, s').
Proof. intros E. apply bind_ok in E as (a & s1 & E & [_ ->]%mret_ok). by exists a. Qed.

(** Every call takes a step of the specification. *)
Lemma serve_step c s :
  NoDup (map Handoffs.id (handoffs (tables s))) -> thread_step s (serve c s).
Proof.
  intros N. unfold serve. destruct (run_call c s) as [[u|e] s'] eqn:E; cbn.
  - destruct c; cbn in E.
    + apply drop_ok in E as (r & E). eapply create_step, createHandoff_ok, E.
    + apply drop_ok in E as (r & E). eapply append_step, appendMessage_ok, E.
    + apply drop_ok in E as (r & E). eapply transition_step, transitionHandoff_ok; [done|exact E].
    + replace s' with (post_block now me target reason reqId s).2 by (by rewrite E).
      apply run_list_only, list_only_block.
    + replace s' with (delete_me_block now me target reqId s).2 by (by rewrite E).
      apply run_list_only, list_only_unblock.
    + apply drop_ok in E as (r & E). replace s' with (getHandoff task caller s).2 by (by rewrite E).
      apply run_reads; [apply reads_get|]. unfold getHandoff. mono.
    + apply drop_ok in E as (r & E). replace s' with (listHandoffs f s).2 by (by rewrite E).
      apply run_reads; [apply reads_list|]. unfold listHandoffs. mono.
    + apply drop_ok in E as (r & E). replace s' with (listMailboxEvents input s).2 by (by rewrite E).
      apply run_reads; [apply reads_events|]. unfold listMailboxEvents. mono.
  - apply step_quiet; [by eapply atomic_run_call|].
    generalize (mono_run_call c s). by rewrite E.
Qed.
End Refinement.
