(* ===== verification/HandoffSafety.v ===== *)
(** * The stores the handoff service reaches

    [store_ok] is preserved by every step of the specification, by every call
    and along every history; it holds of a store without threads.  Then what every later
    store keeps of an earlier one. *)

From S2P Require Import Prelude JsLib RelayStore Mailbox Handoff HandoffSpec HandoffRefine.
From stdpp Require Import sorting.
Local Open Scope Z_scope.

Section Invariant.
Context `{RelayEnv}.
Implicit Types s : Store.

(** ** Lists *)
Lemma max_seqZ n : 0 <= n -> foldr Z.max 0 (seqZ 1 n) = n.
Proof.
  intros Hn. assert (M : forall a k, 0 <= a -> (forall y, y ∈ seqZ a (Z.of_nat k) -> 0 <= y) /\
    foldr Z.max 0 (seqZ a (Z.of_nat k)) = if (k =? 0)%nat then 0 else a + Z.of_nat k - 1).
  { intros a k Ha. split; [intros y; rewrite elem_of_seqZ; lia|]. revert a Ha.
    induction k as [|k IH]; intros a Ha; [done|]. rewrite seqZ_cons by lia. cbn [foldr].
    replace (Z.pred (Z.of_nat (S k))) with (Z.of_nat k) by lia. rewrite IH by lia.
    destruct k; cbn [Nat.eqb]; lia. }
  specialize (M 1 (Z.to_nat n) ltac:(lia)) as [_ M]. rewrite Z2Nat.id in M by done. rewrite M.
  destruct (Z.to_nat n) eqn:E; cbn [Nat.eqb]; lia.
Qed.

(** ** Reading the tables *)
Lemma find_handoff_elem t i h : find_handoff t i = Some h -> h ∈ handoffs t /\ Handoffs.id h = i.
Proof. intros [? ?]%array_find_Some. by bool_hyps. Qed.

Lemma find_handoff_unique t h :
  NoDup (map Handoffs.id (handoffs t)) -> h ∈ handoffs t -> find_handoff t (Handoffs.id h) = Some h.
Proof.
  intros N Hh. destruct (find_handoff t (Handoffs.id h)) as [x|] eqn:F.
  - apply find_handoff_elem in F as [Hx E]. f_equal. by eapply NoDup_map_eq.
  - unfold find_handoff in F. rewrite array_find_None in F. specialize (F h Hh). by bool_hyps.
Qed.

Lemma handoff_exists_false t i : handoff_exists t i = false <-> forall h, h ∈ handoffs t -> Handoffs.id h <> i.
Proof.
  unfold handoff_exists. rewrite some_false_iff. split; intros N h Hh; specialize (N h Hh).
  - by bool_hyps.
  - by apply bool_decide_eq_false.
Qed.

Lemma participant_iff h a :
  participant h a = true <-> Handoffs.senderId h = a \/ Handoffs.recipientId h = a.
Proof. unfold participant. by rewrite orb_true_iff, !bool_decide_eq_true. Qed.

Lemma other_sender h : other_participant h (Handoffs.senderId h) = Handoffs.recipientId h.
Proof. unfold other_participant. by rewrite bool_decide_eq_true_2. Qed.
Lemma other_recipient h :
  Handoffs.senderId h <> Handoffs.recipientId h ->
  other_participant h (Handoffs.recipientId h) = Handoffs.senderId h.
Proof. intros N. unfold other_participant. by rewrite bool_decide_eq_false_2. Qed.

Lemma participant_same h h' a : same_content h h' -> participant h' a = participant h a.
Proof. intros [_ E1 E2 _ _ _ _ _ _ _]. unfold participant. by rewrite E1, E2. Qed.
Lemma other_same h h' a : same_content h h' -> other_participant h' a = other_participant h a.
Proof. intros [_ E1 E2 _ _ _ _ _ _ _]. unfold other_participant. by rewrite E1, E2. Qed.
#[export] Instance same_content_refl : Reflexive same_content.
Proof. by intros h. Qed.

Lemma agent_exists_ext t t' i : agents t' = agents t -> agent_exists t' i = agent_exists t i.
Proof. unfold agent_exists. congruence. Qed.

(** ** What one more message or event does to a thread *)
Lemma thread_snoc t t' m i :
  messages t' = messages t ++ [m] ->
  thread t' i = thread t i ++ (if Messages.handoffId m === i then [m] else []).
Proof. unfold thread. intros ->. by rewrite array_filter_app. Qed.

Lemma thread_same t t' i : messages t' = messages t -> thread t' i = thread t i.
Proof. unfold thread. by intros ->. Qed.

Lemma events_snoc s s' actor rcpt th src k i :
  posted s s' actor rcpt th src k ->
  len (thread_events (tables s') i) =
  len (thread_events (tables s) i) + (if th === i then 1 else 0).
Proof.
  intros [_ _ _ (e & E & _ & _ & T & _)]. unfold thread_events. rewrite E, array_filter_app, len_app.
  cbn. rewrite T. by case_bool_decide.
Qed.

Lemma thread_max t h :
  map Messages.sequenceNo (thread t (Handoffs.id h)) = seqZ 1 (len (thread t (Handoffs.id h))) ->
  max_sequence t (Handoffs.id h) = len (thread t (Handoffs.id h)).
Proof. unfold max_sequence, thread. intros ->. apply max_seqZ, len_nonneg. Qed.

Lemma handoff_ok_other t t' h :
  thread t' (Handoffs.id h) = thread t (Handoffs.id h) ->
  len (thread_events t' (Handoffs.id h)) = len (thread_events t (Handoffs.id h)) ->
  handoff_ok t h -> handoff_ok t' h.
Proof. intros T E []. split; rewrite ?T, ?E; done. Qed.

(** ** Rows survive *)
Definition carries (t t' : Tables) : Prop :=
  (forall h, h ∈ handoffs t -> exists h', h' ∈ handoffs t' /\ same_content h h') /\
  (forall i, agent_exists t i = true -> agent_exists t' i = true).

Lemma message_ok_carries t t' m : carries t t' -> message_ok t m -> message_ok t' m.
Proof.
  intros [C _] (h & Hh & E & P). destruct (C h Hh) as (h' & Hh' & S). exists h'. split; [done|].
  rewrite (participant_same _ _ _ S). destruct S. split; [congruence|done].
Qed.
Lemma event_ok_carries t t' e : carries t t' -> event_ok t e -> event_ok t' e.
Proof.
  intros [C A] (h & Hh & E & P & O & X). destruct (C h Hh) as (h' & Hh' & S). exists h'.
  rewrite (participant_same _ _ _ S), (other_same _ _ _ S). destruct S. split_and!; auto; congruence.
Qed.

Lemma carries_app t t' l :
  handoffs t' = handoffs t ++ l -> agents t' = agents t -> carries t t'.
Proof.
  intros E A. split.
  - intros h Hh. exists h. rewrite E. split; [set_solver|reflexivity].
  - intros i. by rewrite (agent_exists_ext _ _ _ A).
Qed.
Lemma carries_replaced t t' h h' :
  replaced t t' h h' -> same_content h h' -> agents t' = agents t -> carries t t'.
Proof.
  intros (l1 & l2 & E & E') S A. split.
  - rewrite E, E'. intros x Hx. destruct (decide (x = h)) as [->|N]; [exists h'; set_solver|].
    exists x. split; [set_solver|reflexivity].
  - intros i. by rewrite (agent_exists_ext _ _ _ A).
Qed.

(** The mailbox table after a committed call. *)
Lemma posted_mailbox s s' actor rcpt th src k h :
  store_ok s -> carries (tables s) (tables s') -> posted s s' actor rcpt th src k ->
  h ∈ handoffs (tables s') -> Handoffs.id h = th -> participant h actor = true ->
  rcpt = other_participant h actor ->
  Forall (event_ok (tables s')) (mailboxEvents (tables s')) /\
  StronglySorted Z.lt (map MailboxEvents.cursor (mailboxEvents (tables s'))) /\
  Forall (fun e => MailboxEvents.cursor e <= cursorSeq s') (mailboxEvents (tables s')).
Proof.
  intros O C [Ea _ _ (e & E & E1 & E2 & E3 & E4 & E5 & E6) _ Lt _ [_ X]] Hh Hi Hp Ho. rewrite E.
  pose proof (ok_cursor_seq _ O) as B. split_and!.
  - apply Forall_app. split.
    + eapply Forall_impl; [apply O|]. intros x. by apply event_ok_carries.
    + constructor; [|done]. exists h. rewrite E1, E2, E3, (agent_exists_ext _ _ _ Ea). done.
  - rewrite map_app. apply StronglySorted_snoc; [apply O|]. apply Forall_map. rewrite E6.
    eapply Forall_impl; [exact B|]. cbn. lia.
  - apply Forall_app. split; [|repeat constructor; lia]. eapply Forall_impl; [exact B|]. cbn. lia.
Qed.

(** ** Unique keys *)
Lemma no_conflict_snoc {A} (f : A -> option string) l x :
  no_conflict (f x) (map f l) = true -> NoDup (omap f l) -> NoDup (omap f (l ++ [x])).
Proof.
  unfold no_conflict. intros C N. rewrite omap_app. cbn. destruct (f x) as [k|] eqn:E; cbn in C.
  - apply NoDup_snoc; [done|]. apply negb_true_iff, includes_false_iff in C. intros K. apply C.
    rewrite list_elem_of_omap in K. destruct K as (y & Hy & Ey). rewrite <-Ey.
    by apply list_elem_of_fmap_2.
  - by rewrite app_nil_r.
Qed.
End Invariant.

(** ** Each step keeps the store well formed *)
Section Steps.
Context `{RelayEnv}.
Implicit Types s : Store.

Lemma ok_no_stray s i :
  store_ok s -> handoff_exists (tables s) i = false ->
  thread (tables s) i = [] /\ thread_events (tables s) i = [].
Proof.
  intros O X. rewrite handoff_exists_false in X. split; apply array_filter_none; intros y Hy;
    apply bool_decide_eq_false; intros <-.
  - pose proof (ok_messages _ O) as M. rewrite Forall_forall in M.
    destruct (M y Hy) as (h & Hh & E & _). by apply (X h Hh).
  - pose proof (ok_events _ O) as M. rewrite Forall_forall in M.
    destruct (M y Hy) as (h & Hh & E & _). by apply (X h Hh).
Qed.

Lemma step_ok_quiet s s' :
  tables s' = tables s -> cursorSeq s <= cursorSeq s' -> store_ok s -> store_ok s'.
Proof.
  intros T C []. split; rewrite ?T; auto. eapply Forall_impl; [eassumption|]. cbn. lia.
Qed.

Lemma step_ok_create s s' h m :
  fresh_handoff (tables s) h -> new_message (tables s) m 1 ->
  Messages.handoffId m = Handoffs.id h -> Messages.authorId m = Handoffs.senderId h ->
  Messages.body m = Handoffs.summary h ->
  handoffs (tables s') = handoffs (tables s) ++ [h] ->
  messages (tables s') = messages (tables s) ++ [m] ->
  posted s s' (Handoffs.senderId h) (Handoffs.recipientId h) (Handoffs.id h) (Handoffs.id h)
    thread_created ->
  store_ok s -> store_ok s'.
Proof.
  intros F M M1 M2 M3 Eh Em P O. pose proof (posted_agents _ _ _ _ _ _ _ P) as Ea.
  assert (C : carries (tables s) (tables s')) by by eapply carries_app.
  assert (Hh : h ∈ handoffs (tables s')) by (rewrite Eh; set_solver).
  assert (Ph : participant h (Handoffs.senderId h) = true) by (apply participant_iff; auto).
  destruct (posted_mailbox _ _ _ _ _ _ _ h O C P Hh) as (V1 & V2 & V3); auto.
  { by rewrite other_sender. }
  destruct (ok_no_stray _ _ O (fresh_id _ _ F)) as [T0 X0].
  assert (New : forall x, x ∈ handoffs (tables s) -> Handoffs.id h <> Handoffs.id x).
  { pose proof (fresh_id _ _ F) as N. rewrite handoff_exists_false in N. intros x Hx E. by apply (N x Hx). }
  split; auto.
  - rewrite Eh, map_app. apply NoDup_snoc; [apply O|]. intros (x & E & Hx)%list_elem_of_fmap. by apply (New x).
  - unfold keys_of. rewrite Eh. apply no_conflict_snoc; [apply F|apply O].
  - rewrite Em, map_app. apply NoDup_snoc; [apply O|]. intros (x & E & Hx)%list_elem_of_fmap.
    pose proof (new_message_id _ _ _ M) as N. rewrite some_false_iff in N. specialize (N x Hx). by bool_hyps.
  - unfold message_keys. rewrite Em. apply no_conflict_snoc; [apply M|apply O].
  - rewrite Eh. apply Forall_app. split; [|constructor; [|done]].
    + apply Forall_forall. intros x Hx. pose proof (ok_handoffs _ O) as K. rewrite Forall_forall in K.
      apply (handoff_ok_other (tables s)); [| |by apply K].
      * rewrite (thread_snoc _ _ m) by done. rewrite M1, bool_decide_eq_false_2 by (by apply New).
        by rewrite app_nil_r.
      * rewrite (events_snoc _ _ _ _ _ _ _ _ P), bool_decide_eq_false_2 by (by apply New). lia.
    + assert (T : thread (tables s') (Handoffs.id h) = [m]).
      { rewrite (thread_snoc _ _ m) by done. by rewrite T0, M1, bool_decide_eq_true_2. }
      destruct F as [Fs Ft _ _ Fp Fa _]. split; rewrite ?T; auto.
      * unfold coherent. by rewrite Fs.
      * cbn. by rewrite (new_number _ _ _ M).
      * by exists m.
      * rewrite (events_snoc _ _ _ _ _ _ _ _ P), X0, bool_decide_eq_true_2, Fs; done.
  - rewrite Em. apply Forall_app. split; [|constructor; [|done]].
    + eapply Forall_impl; [apply O|]. intros x. by apply message_ok_carries.
    + exists h. rewrite M2. done.
Qed.

Lemma step_ok_append s s' h m :
  find_handoff (tables s) (Handoffs.id h) = Some h ->
  participant h (Messages.authorId m) = true -> Messages.handoffId m = Handoffs.id h ->
  new_message (tables s) m (max_sequence (tables s) (Handoffs.id h) + 1) ->
  handoffs (tables s') = handoffs (tables s) ->
  messages (tables s') = messages (tables s) ++ [m] ->
  posted s s' (Messages.authorId m) (other_participant h (Messages.authorId m))
    (Handoffs.id h) (Messages.id m) message_appended ->
  store_ok s -> store_ok s'.
Proof.
  intros F Pa M1 M Eh Em P O. pose proof (posted_agents _ _ _ _ _ _ _ P) as Ea.
  apply find_handoff_elem in F as [Hh _].
  assert (C : carries (tables s) (tables s')) by (eapply (carries_app _ _ []); rewrite ?app_nil_r; done).
  destruct (posted_mailbox _ _ _ _ _ _ _ h O C P) as (V1 & V2 & V3); auto; [by rewrite Eh|].
  split; auto; rewrite ?Eh; try apply O.
  - unfold keys_of. rewrite Eh. apply O.
  - rewrite Em, map_app. apply NoDup_snoc; [apply O|]. intros (x & E & Hx)%list_elem_of_fmap.
    pose proof (new_message_id _ _ _ M) as N. rewrite some_false_iff in N. specialize (N x Hx). by bool_hyps.
  - unfold message_keys. rewrite Em. apply no_conflict_snoc; [apply M|apply O].
  - pose proof (ok_handoffs _ O) as K. rewrite Forall_forall in K. apply Forall_forall. intros x Hx.
    destruct (decide (Handoffs.id h = Handoffs.id x)) as [E|N].
    + assert (h = x) as <- by (eapply NoDup_map_eq; [apply O|done..]).
      assert (T : thread (tables s') (Handoffs.id h) = thread (tables s) (Handoffs.id h) ++ [m]).
      { rewrite (thread_snoc _ _ m) by done. by rewrite M1, bool_decide_eq_true_2. }
      destruct (K h Hh) as [K1 K2 K3 K4 K5 K6]. split; rewrite ?T, ?len_app; auto.
      * change (len [m]) with 1. rewrite map_app, K4, seqZ_app by (lia || apply len_nonneg).
        rewrite (seqZ_cons _ 1), (seqZ_nil _ (Z.pred 1)) by lia. cbn.
        rewrite (new_number _ _ _ M), (thread_max _ _ K4), Z.add_comm. done.
      * destruct K5 as (m0 & K5 & ?). exists m0. by destruct (thread (tables s) (Handoffs.id h)).
      * rewrite (events_snoc _ _ _ _ _ _ _ _ P), bool_decide_eq_true_2, K6 by done.
        rewrite len_cons, len_nil. lia.
    + apply (handoff_ok_other (tables s)); [| |by apply K].
      * rewrite (thread_snoc _ _ m) by done. rewrite M1, bool_decide_eq_false_2 by done. by rewrite app_nil_r.
      * rewrite (events_snoc _ _ _ _ _ _ _ _ P), bool_decide_eq_false_2 by done. lia.
  - rewrite Em. apply Forall_app. split; [|constructor; [|done]].
    + eapply Forall_impl; [apply O|]. intros x. by apply message_ok_carries.
    + exists h. rewrite Eh. done.
Qed.
(** A transition keeps the thread, takes one event and one step of the life. *)
Lemma moves_ok t h h' actor rcpt k :
  same_content h h' -> moves t h h' actor rcpt k -> coherent h ->
  coherent h' /\ moves_made (Handoffs.status h') = moves_made (Handoffs.status h) + 1 /\
  participant h' actor = true /\
  (Handoffs.senderId h <> Handoffs.recipientId h -> rcpt = other_participant h' actor).
Proof.
  intros S M. rewrite (participant_same _ _ _ S), (other_same _ _ _ S), participant_iff.
  unfold coherent. destruct M as [d E1 E2 _ A1 A2 A3|d E1 E2 _ A1 A2 A3|d E1 E2 A1 A2 A3];
    rewrite E1, E2, A1, A2, A3; intros (? & ? & ?); cbn; split_and!; auto.
  - intros N. by rewrite other_recipient.
  - intros N. by rewrite other_recipient.
  - intros N. by rewrite other_sender.
Qed.

Lemma step_ok_move s s' h h' actor rcpt k :
  replaced (tables s) (tables s') h h' -> messages (tables s') = messages (tables s) ->
  same_content h h' -> moves (tables s) h h' actor rcpt k ->
  posted s s' actor rcpt (Handoffs.id h) (Handoffs.id h) k -> store_ok s -> store_ok s'.
Proof.
  intros R Em S V P O. pose proof (posted_agents _ _ _ _ _ _ _ P) as Ea.
  assert (C : carries (tables s) (tables s')) by by eapply carries_replaced.
  pose proof (ok_handoffs _ O) as K. rewrite Forall_forall in K. pose proof (ok_ids _ O) as N.
  destruct R as (l1 & l2 & E & E').
  assert (Hh : h ∈ handoffs (tables s)) by (rewrite E; set_solver).
  assert (Hh' : h' ∈ handoffs (tables s')) by (rewrite E'; set_solver).
  destruct (K h Hh) as [K1 K2 K3 K4 K5 K6]. destruct (moves_ok _ _ _ _ _ _ S V K3) as (V1 & V2 & V3 & V4).
  destruct (posted_mailbox _ _ _ _ _ _ _ h' O C P) as (X1 & X2 & X3); auto; [by apply S|].
  split; auto; rewrite ?Em; try apply O.
  - rewrite E, map_app in N. cbn in N. rewrite E', map_app. cbn. by rewrite (same_id _ _ S).
  - pose proof (ok_keys _ O) as U. unfold keys_of in *. rewrite E, omap_app in U. cbn in U.
    rewrite E', omap_app. cbn. by rewrite (same_key _ _ S).
  - unfold message_keys. rewrite Em. apply O.
  - rewrite E'. apply Forall_forall. intros x Hx. destruct (decide (x = h')) as [->|D].
    + assert (T : thread (tables s') (Handoffs.id h') = thread (tables s) (Handoffs.id h)).
      { rewrite (thread_same _ _ _ Em). by rewrite (same_id _ _ S). }
      destruct (S) as [S1 S2 S3 S4 S5 S6 S7 S8 S9 S10].
      split; rewrite ?T, ?S2, ?S3, ?S4, ?S5, ?S7; auto.
      rewrite (events_snoc _ _ _ _ _ _ _ _ P), bool_decide_eq_true_2, S1, K6, V2 by done. lia.
    + assert (Hx' : x ∈ l1 ++ l2) by set_solver.
      assert (Ne : Handoffs.id h <> Handoffs.id x).
      { intros Q. symmetry in Q. revert Q. eapply NoDup_map_middle; [|exact Hx']. by rewrite <-E. }
      apply (handoff_ok_other (tables s)); [by apply thread_same| |apply K; rewrite E; set_solver].
      rewrite (events_snoc _ _ _ _ _ _ _ _ P), bool_decide_eq_false_2 by done. lia.
  - eapply Forall_impl; [apply O|]. intros x. by apply message_ok_carries.
Qed.

(** What does not touch threads, messages, events or the agents' ids. *)
Lemma step_ok_same s s' :
  handoffs (tables s') = handoffs (tables s) -> messages (tables s') = messages (tables s) ->
  mailboxEvents (tables s') = mailboxEvents (tables s) -> cursorSeq s' = cursorSeq s ->
  (forall i, agent_exists (tables s) i = true -> agent_exists (tables s') i = true) ->
  store_ok s -> store_ok s'.
Proof.
  intros Eh Em Ee Ec A O. assert (C : carries (tables s) (tables s')).
  { split; [|done]. intros h Hh. exists h. by rewrite Eh. }
  split; rewrite ?Eh, ?Em, ?Ee, ?Ec; try apply O.
  - unfold keys_of. rewrite Eh. apply O.
  - unfold message_keys. rewrite Em. apply O.
  - eapply Forall_impl; [apply O|]. intros x. apply handoff_ok_other; [by apply thread_same|].
    unfold thread_events. by rewrite Ee.
  - eapply Forall_impl; [apply O|]. intros x. by apply message_ok_carries.
  - eapply Forall_impl; [apply O|]. intros x. by apply event_ok_carries.
Qed.

Lemma thread_step_ok s s' : thread_step s s' -> store_ok s -> store_ok s'.
Proof.
  intros [T C|h m F M M1 M2 M3 M4 Eh Em P|h m F T Pa B M1 M Eh Em P|h h' l1 l2 a r k E E' Em S V P
    |Eh Em Ea Ee Ec].
  - by apply step_ok_quiet.
  - by apply (step_ok_create _ _ h m).
  - by apply (step_ok_append _ _ h m).
  - apply (step_ok_move _ _ h h' a r k); auto. by exists l1, l2.
  - apply step_ok_same; auto. intros i. by rewrite (agent_exists_ext _ _ _ Ea).
Qed.

Lemma agents_kept_exists s l i :
  agents_kept (agents (tables s)) l -> agent_exists (tables s) i = true ->
  agent_exists ((tables s) <| agents := l |>) i = true.
Proof.
  intros [K _]. unfold agent_exists. cbn. rewrite !some_iff. intros (a & Ha & E).
  destruct (K a Ha) as (b & Hb & Ei & _). exists b. split; [done|]. by rewrite Ei.
Qed.

Lemma history_ok s s' : history s s' -> store_ok s -> store_ok s'.
Proof.
  induction 1 as [|s c s' _ IH|s l s' K _ IH]; intros O; [done| |].
  - apply IH. eapply thread_step_ok; [|exact O]. apply serve_step, O.
  - apply IH. eapply step_ok_same; [..|exact O]; try done. intros i. by apply agents_kept_exists.
Qed.

Lemma initial_ok s : initial s -> store_ok s.
Proof.
  intros (Eh & Em & Ee). split; unfold keys_of, message_keys; rewrite ?Eh, ?Em, ?Ee; by constructor.
Qed.

Lemma reachable_ok s : reachable s -> store_ok s.
Proof. intros (s0 & I & R). by eapply history_ok, initial_ok. Qed.
End Steps.

(** ** What a history preserves *)

Section Growth.
Context `{RelayEnv}.
Implicit Types s : Store.

(** The paths of a status. *)
Inductive status_to : HandoffStatus -> HandoffStatus -> Prop :=
| status_same st : status_to st st
| status_open st : status_to pending st
| status_done : status_to accepted completed.

Definition find_agent_by_id (t : Tables) (i : string) : option Agents.Agent :=
  array_find (fun a => Agents.id a === i) (agents t).

Record grows s s' : Prop := {
  grows_handoffs : forall h, h ∈ handoffs (tables s) -> exists h', h' ∈ handoffs (tables s') /\
    same_content h h' /\ status_to (Handoffs.status h) (Handoffs.status h') /\
    (terminal (Handoffs.status h) = true ->
      h' = h /\ thread (tables s') (Handoffs.id h) = thread (tables s) (Handoffs.id h));
  grows_messages : exists ms, messages (tables s') = messages (tables s) ++ ms;
  grows_events : exists es, mailboxEvents (tables s') = mailboxEvents (tables s) ++ es /\
    Forall (fun e => cursorSeq s < MailboxEvents.cursor e) es;
  grows_cursor : cursorSeq s <= cursorSeq s';
  grows_handle : forall x a, find_agent (tables s) x = Some a ->
    exists b, find_agent (tables s') x = Some b /\ Agents.id b = Agents.id a;
  grows_id : forall i a, find_agent_by_id (tables s) i = Some a ->
    exists b, find_agent_by_id (tables s') i = Some b /\ Agents.handle b = Agents.handle a
}.

Lemma status_to_trans a b c : status_to a b -> status_to b c -> status_to a c.
Proof. destruct 1; [done|constructor|]. inversion 1; subst; constructor. Qed.

Lemma same_content_trans h1 h2 h3 : same_content h1 h2 -> same_content h2 h3 -> same_content h1 h3.
Proof. intros [] []. split; congruence. Qed.

#[export] Instance grows_refl : Reflexive grows.
Proof.
  intros s. split; [|by exists []; rewrite app_nil_r|by exists []; rewrite app_nil_r|done|by eexists|by eexists].
  intros h Hh. exists h. split_and!; [done|done|constructor|done].
Qed.

#[export] Instance grows_trans : Transitive grows.
Proof.
  intros s1 s2 s3 [A1 [m1 B1] [e1 [C1 F1]] D1 X1 Y1] [A2 [m2 B2] [e2 [C2 F2]] D2 X2 Y2]. split; [| | |lia| |].
  - intros h Hh. destruct (A1 h Hh) as (h1 & Hh1 & S1 & T1 & U1).
    destruct (A2 h1 Hh1) as (h2 & Hh2 & S2 & T2 & U2). exists h2.
    split_and!; [done|by eapply same_content_trans|by eapply status_to_trans|].
    intros T. destruct (U1 T) as [-> E]. destruct (U2 T) as [-> E']. split; congruence.
  - exists (m1 ++ m2). by rewrite B2, B1, app_assoc.
  - exists (e1 ++ e2). rewrite C2, C1, app_assoc. split; [done|]. apply Forall_app. split; [done|].
    eapply Forall_impl; [exact F2|]. cbn. lia.
  - intros x a (b & Hb & E)%X1. destruct (X2 _ _ Hb) as (c & Hc & E'). exists c. split; congruence.
  - intros x a (b & Hb & E)%Y1. destruct (Y2 _ _ Hb) as (c & Hc & E'). exists c. split; congruence.
Qed.

Lemma posted_growth s s' actor rcpt th src k :
  posted s s' actor rcpt th src k ->
  (exists es, mailboxEvents (tables s') = mailboxEvents (tables s) ++ es /\
    Forall (fun e => cursorSeq s < MailboxEvents.cursor e) es) /\ cursorSeq s <= cursorSeq s' /\
  agents (tables s') = agents (tables s).
Proof.
  intros [Ea _ _ (e & E & _ & _ & _ & _ & _ & C) _ L _ _]. split_and!; [|lia|done].
  exists [e]. split; [done|]. repeat constructor. lia.
Qed.

Lemma same_agents_find s s' :
  agents (tables s') = agents (tables s) ->
  (forall x a, find_agent (tables s) x = Some a ->
    exists b, find_agent (tables s') x = Some b /\ Agents.id b = Agents.id a) /\
  (forall i a, find_agent_by_id (tables s) i = Some a ->
    exists b, find_agent_by_id (tables s') i = Some b /\ Agents.handle b = Agents.handle a).
Proof. intros E. unfold find_agent, find_agent_by_id. rewrite E. split; intros x a F; by exists a. Qed.

(** Threads that a step leaves alone. *)
Lemma untouched s s' h :
  h ∈ handoffs (tables s') -> thread (tables s') (Handoffs.id h) = thread (tables s) (Handoffs.id h) ->
  exists h', h' ∈ handoffs (tables s') /\ same_content h h' /\
    status_to (Handoffs.status h) (Handoffs.status h') /\
    (terminal (Handoffs.status h) = true ->
      h' = h /\ thread (tables s') (Handoffs.id h) = thread (tables s) (Handoffs.id h)).
Proof. intros Hh T. exists h. split_and!; [done|done|constructor|done]. Qed.

Lemma moves_status t h h' a r k :
  moves t h h' a r k ->
  status_to (Handoffs.status h) (Handoffs.status h') /\ terminal (Handoffs.status h) = false.
Proof. destruct 1 as [d E E'|d E E'|d E E']; rewrite E, E'; split; try done; constructor. Qed.

Lemma thread_step_grows s s' : store_ok s -> thread_step s s' -> grows s s'.
Proof.
  intros O [T C|h m F M M1 M2 M3 M4 Eh Em P|h m F T Pa B M1 M Eh Em P|h h' l1 l2 a r k E E' Em S V P
    |Eh Em Ea Ee Ec].
  - destruct (same_agents_find s s') as [? ?]; [by rewrite T|].
    split; auto; rewrite ?T; [|by exists []; rewrite app_nil_r|by exists []; rewrite app_nil_r].
    intros h Hh. rewrite <-T in Hh. generalize (untouched s s' h Hh). rewrite T. intros U. by apply U.
  - destruct (posted_growth _ _ _ _ _ _ _ P) as (? & ? & Ea). destruct (same_agents_find _ _ Ea).
    split; auto; [|by exists [m]]. intros x Hx. apply untouched; [rewrite Eh; set_solver|].
    rewrite (thread_snoc _ _ _ _ Em), M1, bool_decide_eq_false_2, app_nil_r; [done|].
    intros Ei. pose proof (fresh_id _ _ F) as N. rewrite handoff_exists_false in N. by apply (N x Hx).
  - destruct (posted_growth _ _ _ _ _ _ _ P) as (? & ? & Ea). destruct (same_agents_find _ _ Ea).
    split; auto; [|by exists [m]]. intros x Hx.
    destruct (decide (Handoffs.id h = Handoffs.id x)) as [D|D].
    + apply find_handoff_elem in F as [Hh _].
      assert (h = x) as <- by (eapply NoDup_map_eq; [apply O|done..]).
      exists h. rewrite Eh, T. split_and!; [done|done|constructor|done].
    + apply untouched; [by rewrite Eh|].
      by rewrite (thread_snoc _ _ _ _ Em), M1, bool_decide_eq_false_2, app_nil_r.
  - destruct (posted_growth _ _ _ _ _ _ _ P) as (? & ? & Ea). destruct (same_agents_find _ _ Ea).
    split; auto; [|exists []; by rewrite app_nil_r]. intros x Hx. rewrite E in Hx.
    destruct (decide (x = h)) as [->|D].
    + exists h'. destruct (moves_status _ _ _ _ _ _ V) as [V1 V2]. rewrite V2.
      split_and!; [rewrite E'; set_solver|done|done|done].
    + apply untouched; [rewrite E'; set_solver|by apply thread_same].
  - destruct (same_agents_find _ _ Ea). split; auto; [| | |lia].
    + intros x Hx. apply untouched; [by rewrite Eh|by apply thread_same].
    + exists []. by rewrite app_nil_r.
    + exists []. by rewrite app_nil_r.
Qed.

Lemma find_unique {A} (f : A -> string) l a x :
  NoDup (map f l) -> a ∈ l -> f a = x -> array_find (fun y => f y === x) l = Some a.
Proof.
  intros N Ha E. destruct (array_find _ l) as [b|] eqn:F.
  - apply array_find_Some in F as [Hb Eb]. bool_hyps. f_equal. eapply NoDup_map_eq; [done..|congruence].
  - rewrite array_find_None in F. specialize (F a Ha). by bool_hyps.
Qed.

Lemma agents_step_grows s l :
  agents_kept (agents (tables s)) l -> grows s (s <| tables := (tables s) <| agents := l |> |>).
Proof.
  intros (K & N1 & N2). split; cbn; [|by exists []; rewrite app_nil_r|by exists []; rewrite app_nil_r|done| |].
  - intros h Hh. by apply untouched.
  - intros x a [Ha E]%array_find_Some. bool_hyps. destruct (K a Ha) as (b & Hb & Ei & Eh).
    exists b. split; [|done]. apply find_unique; [done..|congruence].
  - intros x a [Ha E]%array_find_Some. bool_hyps. destruct (K a Ha) as (b & Hb & Ei & Eh).
    exists b. split; [|done]. apply find_unique; [done..|congruence].
Qed.

Lemma history_grows s s' : history s s' -> store_ok s -> grows s s'.
Proof.
  induction 1 as [|s c s' _ IH|s l s' K _ IH]; intros O; [reflexivity| |].
  - assert (T : thread_step s (serve c s)) by apply serve_step, O.
    etrans; [by apply thread_step_grows|]. apply IH. by eapply thread_step_ok.
  - etrans; [by apply agents_step_grows|]. apply IH.
    eapply history_ok; [|exact O]. by eapply history_agents, history_nil.
Qed.
End Growth.
