(* ===== verification/HandoffExample.v ===== *)
(** * A concrete relay

    Two agents, a thread from one to the other that is created, accepted,
    answered and completed, and a block: the store the witnesses run on. *)

From S2P Require Import Prelude JsLib RelayStore Mailbox Handoff HandoffSpec.
Local Open Scope Z_scope.

#[local] Instance ex_env : RelayEnv := {|
  json := string; json_is_string := fun _ => true; json_is_array := fun _ => true;
  gen_random_uuid := fun n => "id-" +:+ pretty n
|}.

Definition ex_agent (id handle : string) : Agents.Agent := {|
  Agents.id := id; Agents.handle := handle; Agents.email := handle; Agents.displayName := handle;
  Agents.role := "dev"; Agents.status := Agents.active; Agents.createdAt := 0; Agents.updatedAt := 0
|}.

Definition ex_empty : Store := {|
  tables := {| agents := [ex_agent "a" "alice@acme"; ex_agent "b" "bob@acme"]; agentBlocks := [];
               handoffs := []; messages := []; mailboxEvents := []; auditLog := []; notified := [] |};
  cursorSeq := 0; auditSeq := 0; draws := 0; held := []
|}.

Definition ex_create (key : option string) : CreateHandoffInput := {|
  senderId := "a"; recipientHandle := "bob@acme"; summary := "Review the cache"; intent := inform;
  artifacts := []; initialPayload := "{}"; proposedAction := None; metadata := "{}";
  idempotencyKey := key; requestId := "r1"
|}.

Definition ex_reply : AppendMessageInput := {|
  append_senderId := "b"; taskId := "id-0"; body := "Done"; payload := "{}";
  append_artifacts := []; append_idempotencyKey := Some "k2"; append_requestId := "r2"
|}.

Definition ex_late : AppendMessageInput := {|
  append_senderId := "b"; taskId := "id-0"; body := "One more thing"; payload := "{}";
  append_artifacts := []; append_idempotencyKey := None; append_requestId := "r4"
|}.

Definition ex_move (caller : string) (t : Transition) : TransitionInput := {|
  transition_taskId := "id-0"; callerId := caller; transition := t; sessionId := None;
  resultSummary := None; resultArtifacts := None; transition_requestId := "r3"
|}.

Definition ex_created : Store := serve (Create 10 (ex_create (Some "k1"))) ex_empty.
Definition ex_accepted : Store := serve (Move 20 21 (ex_move "b" accept)) ex_created.
Definition ex_answered : Store := serve (Append 30 ex_reply) ex_accepted.
Definition ex_completed : Store := serve (Move 40 41 (ex_move "b" complete)) ex_answered.

(** The same thread under the empty key, and a store where bob has blocked alice. *)
Definition ex_empty_key : Store := serve (Create 10 (ex_create (Some ""))) ex_empty.
Definition ex_block : call := PostBlock 15 {| me_id := "b"; me_handle := "bob@acme" |} "alice@acme" None "r5".
Definition ex_blocked : Store := serve ex_block ex_created.

Definition ex_push : AppendMessageInput := {|
  append_senderId := "a"; taskId := "id-0"; body := "Hello?"; payload := "{}";
  append_artifacts := []; append_idempotencyKey := None; append_requestId := "r6"
|}.

Definition ex_page : ListMailboxEventsInput := {|
  list_recipientAgentId := "a"; afterCursor := None; Mailbox.limit := 1
|}.

Example ex_relay_run : map Handoffs.status (handoffs (tables ex_completed)) = [completed].
Proof. vm_compute. reflexivity. Qed.
Example ex_cursors : map MailboxEvents.cursor (mailboxEvents (tables ex_completed)) = [1; 2; 3; 4].
Proof. vm_compute. reflexivity. Qed.
Example ex_numbers : map Messages.sequenceNo (messages (tables ex_completed)) = [1; 2].
Proof. vm_compute. reflexivity. Qed.
(** A closed thread takes no message; the retried reply is answered from the log. *)
Example ex_closed :
  (appendMessage 50 ex_late ex_completed).1 =
  Err (Relay {| code := thread_terminal; message := "Thread is completed" |}).
Proof. vm_compute. reflexivity. Qed.
Example ex_replayed :
  (appendMessage 50 ex_reply ex_completed).1 =
  Ok {| messageId := "id-4"; sequenceNo := 2; createdAt := 30; replayed := true |}.
Proof. vm_compute. reflexivity. Qed.

Example ex_push_blocked :
  (appendMessage 50 ex_push ex_blocked).1 =
  Err (Relay {| code := teammate_blocked; message := "Sender is blocked by the other participant" |}).
Proof. vm_compute. reflexivity. Qed.

Lemma ex_initial : initial ex_empty.
Proof. by vm_compute. Qed.

Lemma history_snoc `{RelayEnv} s c s' : history s s' -> history s (serve c s').
Proof.
  induction 1 as [s|s d s' R IH|s l s' K R IH].
  - apply (history_call s c), history_nil.
  - by apply (history_call s d).
  - by apply (history_agents s l).
Qed.

Lemma ex_created_completed : history ex_created ex_completed.
Proof. unfold ex_completed, ex_answered, ex_accepted. do 3 apply history_snoc. apply history_nil. Qed.
Lemma ex_created_reachable : reachable ex_created.
Proof. exists ex_empty. split; [exact ex_initial|]. unfold ex_created. apply history_snoc, history_nil. Qed.
Lemma ex_answered_reachable : reachable ex_answered.
Proof.
  exists ex_empty. split; [exact ex_initial|]. unfold ex_answered, ex_accepted, ex_created.
  do 3 apply history_snoc. apply history_nil.
Qed.
Lemma ex_blocked_reachable : reachable ex_blocked.
Proof.
  exists ex_empty. split; [exact ex_initial|]. unfold ex_blocked, ex_created.
  do 2 apply history_snoc. apply history_nil.
Qed.
