(* ===== verification/HandoffRetry.v ===== *)
(** * Retries

    A request with an idempotency key takes effect once: sent again, at any
    later time, it is answered from the log. *)

From S2P Require Import Prelude JsLib RelayStore Mailbox Handoff.
From S2P Require Import HandoffSpec HandoffRefine HandoffSafety HandoffExample.
Local Open Scope Z_scope.

Section Retry.
Context `{RelayEnv}.
Implicit Types s : Store.

Lemma serve_eq c s : serve c s = (run_call c s).2.
Proof. done. Qed.

Lemma drop_state {A} (m : Tx A) s : ((_ ← m; mret tt) s).2 = (m s).2.
Proof. unfold mbind, Tx_bind. by destruct (m s) as [[a|e] s']. Qed.

Lemma create_history now input s r s1 :
  createHandoff now input s = (r, s1) -> history s s1.
Proof.
  intros E. assert (s1 = serve (Create now input) s) as ->; [|eapply history_call, history_nil].
  unfold serve. cbn. by rewrite drop_state, E.
Qed.
Lemma append_history now input s r s1 :
  appendMessage now input s = (r, s1) -> history s s1.
Proof.
  intros E. assert (s1 = serve (Append now input) s) as ->; [|eapply history_call, history_nil].
  unfold serve. cbn. by rewrite drop_state, E.
Qed.

(** The validation does not look at the store. *)
Lemma validate_again i a s u s1 s2 :
  validateIntentInvariant i a s = (Ok u, s1) -> validateIntentInvariant i a s2 = (Ok tt, s2).
Proof.
  unfold validateIntentInvariant, throw_if, mbind, Tx_bind.
  destruct (_ && _); [done|]. destruct (_ && _); [done|]. destruct a as [a|]; [|done].
  by destruct (_ || _).
Qed.

Lemma create_replay now input s k h :
  validateIntentInvariant (intent input) (proposedAction input) s = (Ok tt, s) ->
  usable_key (idempotencyKey input) = Some k -> find_by_key (tables s) k = Some h ->
  samePayload h (find_agent (tables s) (recipientHandle input))
    (first_message (tables s) (Handoffs.id h)) input = true ->
  exists s3, createHandoff now input s = (Ok (h, true), s3) /\ tables s3 = tables s.
Proof.
  intros V K F S. unfold createHandoff, transaction, create_tx, lock_key.
  unfold mbind, Tx_bind, lockIdempotencyKey. rewrite V, K. cbn. rewrite F. cbn. rewrite S. cbn.
  by eexists.
Qed.

Lemma append_replay now input s k h m :
  usable_key (append_idempotencyKey input) = Some k ->
  find_handoff (tables s) (taskId input) = Some h ->
  participant h (append_senderId input) = true ->
  find_message_by_key (tables s) k = Some m -> message_differs m h input = false ->
  exists s3, appendMessage now input s =
    (Ok {| messageId := Messages.id m; sequenceNo := Messages.sequenceNo m;
           createdAt := Messages.createdAt m; replayed := true |}, s3) /\ tables s3 = tables s.
Proof.
  intros K F Pa M D. unfold appendMessage, transaction, append_tx, lock_key, select_for_update.
  unfold mbind, Tx_bind, lockIdempotencyKey. rewrite K. cbn. rewrite F, Pa. cbn. rewrite M. cbn.
  rewrite D. cbn. by eexists.
Qed.

(** ** A key names one thread, for good *)
Lemma find_by_key_later s s2 h k :
  store_ok s2 -> grows s s2 -> h ∈ handoffs (tables s) -> Handoffs.idempotencyKey h = Some k ->
  exists h', find_by_key (tables s2) k = Some h' /\ same_content h h'.
Proof.
  intros O G Hh E. destruct (grows_handoffs _ _ G h Hh) as (h' & Hh' & S & _ & _).
  exists h'. split; [|done]. apply array_find_key; [apply O|done|]. by rewrite (same_key _ _ S).
Qed.

Lemma samePayload_later h h' r r' m input :
  same_content h h' -> option_map Agents.id r' = option_map Agents.id r ->
  samePayload h r m input = true -> samePayload h' r' m input = true.
Proof. intros [_ E1 E2 E3 E4 E5 E6 E7 _ _] R. unfold samePayload. by rewrite E1, E2, E3, E4, E5, E6, E7, R. Qed.

Lemma samePayload_recipient h r m input :
  samePayload h r m input = true -> option_map Agents.id r = Some (Handoffs.recipientId h).
Proof. unfold samePayload. intros E. bool_hyps. done. Qed.

(** The agent of a handle keeps its id. *)
Lemma agent_later s s2 x i :
  grows s s2 -> option_map Agents.id (find_agent (tables s) x) = Some i ->
  option_map Agents.id (find_agent (tables s2) x) = option_map Agents.id (find_agent (tables s) x).
Proof.
  intros G E. destruct (find_agent (tables s) x) as [a|] eqn:F; [|done].
  destruct (grows_handle _ _ G _ _ F) as (b & -> & Ei). cbn. by rewrite Ei.
Qed.

(** The first message of a new thread is found ever after. *)
Lemma first_message_later input s s1 s2 h m :
  store_ok s -> created input s s1 h m -> grows s1 s2 ->
  first_message (tables s2) (Handoffs.id h) = Some m.
Proof.
  intros O (F & M & M1 & _ & _ & _ & _ & Em & _) [_ [ms E] _ _ _ _].
  unfold first_message. rewrite array_find_filter, E, Em, !array_filter_app.
  destruct (ok_no_stray _ _ O (fresh_id _ _ F)) as [T _]. unfold thread in T. rewrite T.
  cbn. rewrite M1, bool_decide_eq_true_2 by done. cbn. by rewrite (new_number _ _ _ M).
Qed.

(** C24: A thread request with an idempotency key takes effect once. After it created a thread,
    the same request, at any later time and whatever happened in between, returns that thread as a
    replay and writes nothing; any other request with the key either throws or, again, returns that
    thread and writes nothing. *)
Theorem create_exactly_once s now input k h s1 s2 now' (R : reachable s)
    (K : usable_key (idempotencyKey input) = Some k)
    (E : createHandoff now input s = (Ok (h, false), s1)) (T : history s1 s2) :
  (exists h' s3, createHandoff now' input s2 = (Ok (h', true), s3) /\ tables s3 = tables s2 /\
    same_content h h') /\
  (forall other r s3, usable_key (idempotencyKey other) = Some k ->
    createHandoff now' other s2 = (Ok r, s3) ->
    r.2 = true /\ same_content h r.1 /\ tables s3 = tables s2).
Proof.
  pose proof (reachable_ok _ R) as O. pose proof (create_history _ _ _ _ _ E) as T1.
  pose proof (history_ok _ _ T1 O) as O1. pose proof (history_grows _ _ T O1) as G.
  pose proof (history_ok _ _ T O1) as O2.
  assert (V := E). unfold createHandoff in V. apply bind_ok in V as (u & v & V & _).
  apply createHandoff_ok in E. unfold create_result in E. rewrite K in E. cbn in E.
  destruct (find_by_key _ _); [by destruct E|]. destruct E as (_ & m & C).
  assert (C' := C). destruct C' as (_ & _ & _ & _ & _ & _ & Eh & _ & _ & Ek & Sp).
  apply usable_key_Some in K as K'. destruct K' as [K' _]. rewrite K' in Ek.
  destruct (find_by_key_later s1 s2 h k O2 G) as (h' & F & S); [rewrite Eh; set_solver|done|]. split.
  - destruct (create_replay now' input s2 k h') as (s3 & E3 & T3); [by eapply validate_again|done..| |].
    + rewrite (same_id _ _ S), (first_message_later _ _ _ _ _ _ O C G).
      eapply samePayload_later; [exact S| |exact Sp].
      eapply agent_later; [etrans; [by apply (history_grows s s1)|exact G]|].
      by eapply samePayload_recipient.
    + by exists h', s3.
  - intros other r s3 Ko E3%createHandoff_ok. unfold create_result in E3. rewrite Ko in E3. cbn in E3.
    rewrite F in E3. destruct E3 as (-> & [T3 _] & _). done.
Qed.

(** ** A key names one message, for good *)
Lemma find_handoff_later s s2 i h :
  store_ok s2 -> grows s s2 -> find_handoff (tables s) i = Some h ->
  exists h', find_handoff (tables s2) i = Some h' /\ same_content h h'.
Proof.
  intros O G [Hh <-]%find_handoff_elem. destruct (grows_handoffs _ _ G h Hh) as (h' & Hh' & S & _ & _).
  exists h'. split; [|done]. rewrite <-(same_id _ _ S). apply find_handoff_unique; [apply O|done].
Qed.

Lemma find_message_later s s2 m k :
  store_ok s2 -> grows s s2 -> m ∈ messages (tables s) -> Messages.idempotencyKey m = Some k ->
  find_message_by_key (tables s2) k = Some m.
Proof.
  intros O [_ [ms E] _ _ _ _] Hm Ek. apply array_find_key; [apply O| |done]. rewrite E. set_solver.
Qed.

Lemma message_differs_same m h h' input :
  same_content h h' -> message_differs m h' input = message_differs m h input.
Proof. intros S. unfold message_differs. by rewrite (same_id _ _ S). Qed.

(** A keyed append that returned, first time or replay, left its message in the log. *)
Lemma append_logged input s r s1 k :
  usable_key (append_idempotencyKey input) = Some k -> append_result input s r s1 ->
  exists h m, find_handoff (tables s1) (taskId input) = Some h /\
    participant h (append_senderId input) = true /\ m ∈ messages (tables s1) /\
    Messages.idempotencyKey m = Some k /\ message_differs m h input = false /\
    messageId r = Messages.id m /\ sequenceNo r = Messages.sequenceNo m /\
    createdAt r = Messages.createdAt m.
Proof.
  intros K (h & F & Pa & m & R1 & R2 & R3 & C). exists h, m. rewrite K in C. cbn in C.
  destruct (find_message_by_key _ k) as [m'|] eqn:Fm.
  - destruct C as (-> & _ & [T _] & D). apply array_find_Some in Fm as [Hm Em]. bool_hyps.
    rewrite T. done.
  - destruct C as (_ & _ & _ & _ & _ & Ek & D & Eh & Em & _).
    apply usable_key_Some in K as [K _]. unfold find_handoff in *. rewrite Eh, Em.
    split_and!; try done; [set_solver|congruence].
Qed.

(** A message with an idempotency key is written once. After an append returned, the same
    request, at any later time and whatever happened in between (the thread closed, the sender
    blocked), returns the same message id, number and time as a replay and writes nothing; any
    other request with the key either throws or returns that message and writes nothing. *)
Theorem append_exactly_once s now input k r s1 s2 now' (R : reachable s)
    (K : usable_key (append_idempotencyKey input) = Some k)
    (E : appendMessage now input s = (Ok r, s1)) (T : history s1 s2) :
  (exists s3, appendMessage now' input s2 =
    (Ok {| messageId := messageId r; sequenceNo := sequenceNo r; createdAt := createdAt r;
           replayed := true |}, s3) /\ tables s3 = tables s2) /\
  (forall other r' s3, usable_key (append_idempotencyKey other) = Some k ->
    appendMessage now' other s2 = (Ok r', s3) ->
    messageId r' = messageId r /\ replayed r' = true /\ tables s3 = tables s2).
Proof.
  pose proof (reachable_ok _ R) as O. pose proof (append_history _ _ _ _ _ E) as T1.
  pose proof (history_ok _ _ T1 O) as O1. pose proof (history_grows _ _ T O1) as G.
  pose proof (history_ok _ _ T O1) as O2. apply appendMessage_ok in E.
  destruct (append_logged _ _ _ _ _ K E) as (h & m & F & Pa & Hm & Ek & D & R1 & R2 & R3).
  destruct (find_handoff_later _ _ _ _ O2 G F) as (h' & F' & S).
  pose proof (find_message_later _ _ _ _ O2 G Hm Ek) as Fm. split.
  - rewrite R1, R2, R3. eapply append_replay; [exact K|exact F'| |exact Fm|].
    + by rewrite (participant_same _ _ _ S).
    + by rewrite (message_differs_same _ _ _ _ S).
  - intros other r' s3 Ko (h2 & F2 & _ & m2 & E2 & _ & _ & C)%appendMessage_ok. rewrite Ko in C. cbn in C.
    rewrite Fm in C. destruct C as (-> & ? & [T3 _] & _). split_and!; [congruence|done|done].
Qed.

(** C27: The empty string is no usable key for the replay test, yet it is stored in the unique
    column: once a thread carries it, no request with the empty key creates or replays one, whoever
    sends it and whatever it says. *)
Theorem empty_key_never_again s now input h (R : reachable s) (Hh : h ∈ handoffs (tables s))
    (Kh : Handoffs.idempotencyKey h = Some "") (K : idempotencyKey input = Some "") :
  exists e, (createHandoff now input s).1 = Err e /\ tables (createHandoff now input s).2 = tables s.
Proof.
  destruct (createHandoff now input s) as [[r|e] s'] eqn:E.
  - apply createHandoff_ok in E. unfold create_result in E. rewrite K in E. cbn in E.
    destruct E as (_ & m & F & _ & _ & _ & _ & _ & _ & _ & _ & Ek & _).
    pose proof (fresh_key _ _ F) as N. rewrite Ek, K in N. unfold no_conflict in N. cbn in N.
    apply negb_true_iff, includes_false_iff in N. destruct N. rewrite <-Kh. by apply list_elem_of_fmap_2.
  - exists e. split; [done|]. cbn. pose proof (atomic_run_call (Create now input) s e s') as A. apply A.
    cbn. unfold mbind, Tx_bind. by rewrite E.
Qed.
End Retry.

#[local] Existing Instance ex_env.

Lemma create_exactly_once_witness :
  reachable ex_empty /\
  exists h' s3, createHandoff 99 (ex_create (Some "k1")) ex_completed = (Ok (h', true), s3) /\
    tables s3 = tables ex_completed.
Proof.
  assert (R : reachable ex_empty) by (exists ex_empty; split; [exact ex_initial|apply history_nil]).
  split; [exact R|].
  destruct (createHandoff 10 (ex_create (Some "k1")) ex_empty) as [[[h [|]]|e] s1] eqn:E;
    [exfalso; vm_compute in E; discriminate E| |exfalso; vm_compute in E; discriminate E].
  assert (T : s1 = ex_created) by (unfold ex_created, serve; cbn; by rewrite drop_state, E). subst s1.
  destruct (create_exactly_once ex_empty 10 (ex_create (Some "k1")) "k1" h ex_created ex_completed 99
    R eq_refl E ex_created_completed) as [(h' & s3 & E3 & T3 & _) _].
  exists h', s3. split; [exact E3|exact T3].
Defined.

Lemma append_exactly_once_witness :
  exists r s3, appendMessage 99 ex_reply ex_completed = (Ok r, s3) /\ tables s3 = tables ex_completed /\
    sequenceNo r = 2 /\ replayed r = true.
Proof.
  assert (R : reachable ex_accepted).
  { exists ex_empty. split; [exact ex_initial|]. unfold ex_accepted, ex_created.
    do 2 apply history_snoc. apply history_nil. }
  destruct (appendMessage 30 ex_reply ex_accepted) as [[r|e] s1] eqn:E;
    [|exfalso; vm_compute in E; discriminate E].
  assert (T : s1 = ex_answered) by (unfold ex_answered, serve; cbn; by rewrite drop_state, E). subst s1.
  assert (N : sequenceNo r = 2).
  { apply (f_equal fst) in E. vm_compute in E. injection E as <-. reflexivity. }
  destruct (append_exactly_once ex_accepted 30 ex_reply "k2" r ex_answered ex_completed 99 R eq_refl E
    (history_snoc _ _ _ (history_nil _))) as [(s3 & E3 & T3) _].
  eexists _, s3. split; [exact E3|]. split; [exact T3|]. split; [exact N|reflexivity].
Defined.

(** The second request fails with the database's own error, an internal error of the relay. *)
Lemma empty_key_never_again_witness :
  (createHandoff 20 (ex_create (Some "")) ex_empty_key).1 =
    Err (Constraint "handoffs_idempotency_key_unique") /\
  exists e, (createHandoff 20 (ex_create (Some "")) ex_empty_key).1 = Err e /\
    tables (createHandoff 20 (ex_create (Some "")) ex_empty_key).2 = tables ex_empty_key.
Proof.
  split; [vm_compute; reflexivity|].
  destruct (handoffs (tables ex_empty_key)) as [|h l] eqn:E;
    [exfalso; vm_compute in E; discriminate E|].
  apply (empty_key_never_again _ _ _ h).
  - exists ex_empty. split; [exact ex_initial|]. unfold ex_empty_key. apply history_snoc, history_nil.
  - rewrite E. left.
  - vm_compute in E. injection E as <- _. reflexivity.
  - reflexivity.
Defined.
