(* ===== verification/MailboxFeed.v ===== *)
(** * Reading threads and mailboxes

    The queries that order rows by a number strictly increasing in the table
    return them in insertion order; a mailbox read page by page, while events
    keep arriving, misses none and repeats none. *)

From stdpp Require Import sorting.
From S2P Require Import Prelude JsLib RelayStore Mailbox Handoff.
From S2P Require Import HandoffSpec HandoffRefine HandoffSafety HandoffExample.
Local Open Scope Z_scope.

(** Projections that are total on a list. *)
Section Total.
Context {A B : Type} (f : A -> option B).

Lemma take_omap n (l : list A) :
  (forall x, x ∈ l -> is_Some (f x)) -> take n (omap f l) = omap f (take n l).
Proof.
  revert n. induction l as [|x l IH]; intros n T; [by destruct n|]. destruct n as [|n]; [done|]. cbn.
  destruct (T x) as [y ->]; [left|]. cbn. f_equal. apply IH. intros z Hz. apply T. by right.
Qed.

Lemma last_omap (l : list A) : (forall x, x ∈ l -> is_Some (f x)) -> last (omap f l) = last l ≫= f.
Proof.
  induction l as [|x l IH] using rev_ind; intros T; [done|]. rewrite omap_app, last_snoc. cbn.
  destruct (T x) as [y E]; [set_solver|]. rewrite E. by rewrite last_snoc.
Qed.

Lemma length_omap_le (l : list A) : (length (omap f l) <= length l)%nat.
Proof. induction l as [|x l IH]; cbn; [lia|]. destruct (f x); cbn; lia. Qed.

Lemma omap_agree (g : A -> option B) (l : list A) :
  (forall x, x ∈ l -> f x = g x) -> omap f l = omap g l.
Proof.
  induction l as [|x l IH]; intros E; cbn; [done|]. rewrite (E x) by left.
  rewrite IH; [done|]. intros y Hy. apply E. by right.
Qed.
End Total.

Section Feed.
Context `{RelayEnv}.
Implicit Types s : Store.

(** The events of a mailbox above a cursor, as the table holds them. *)
Definition mailbox (t : Tables) (r : string) (c : option Z) : list MailboxEvents.MailboxEvent :=
  array_filter (fun e => (MailboxEvents.recipientAgentId e === r) && after c e) (mailboxEvents t).

Definition event_view (t : Tables) (e : MailboxEvents.MailboxEvent) : option MailboxEventView :=
  view <$> join_actor t e.

Lemma mailbox_sorted s r c :
  store_ok s -> StronglySorted Z.lt (map MailboxEvents.cursor (mailbox (tables s) r c)).
Proof. intros O. apply sorted_filter, O. Qed.

(** What the query returns, as it is shown. *)
Lemma feed_views s r c :
  store_ok s -> map view (feed (tables s) r c) = omap (event_view (tables s)) (mailbox (tables s) r c).
Proof.
  intros O. unfold feed. fold (mailbox (tables s) r c).
  rewrite (merge_sort_sorted MailboxEvents.cursor) by (done || by apply mailbox_sorted).
  generalize (mailbox (tables s) r c) as l. unfold event_view.
  induction l as [|e l IH]; cbn; [done|]. destruct (join_actor _ e); cbn; congruence.
Qed.

Lemma event_view_total s e :
  store_ok s -> e ∈ mailboxEvents (tables s) -> is_Some (event_view (tables s) e).
Proof.
  intros O He. pose proof (ok_events _ O) as V. rewrite Forall_forall in V.
  destruct (V e He) as (h & _ & _ & _ & _ & X). unfold event_view, join_actor, agent_exists in *.
  destruct (array_find _ _) eqn:F; cbn; [eauto|]. rewrite array_find_None in F.
  apply some_iff in X as (a & Ha & E). by rewrite (F a Ha) in E.
Qed.

Lemma mailbox_elem s r c e : e ∈ mailbox (tables s) r c -> e ∈ mailboxEvents (tables s).
Proof. by intros [? _]%elem_of_array_filter. Qed.

(** An event is shown the same at every later time. *)
Lemma event_view_later s s' e :
  store_ok s -> grows s s' -> e ∈ mailboxEvents (tables s) ->
  event_view (tables s') e = event_view (tables s) e.
Proof.
  intros O G He. destruct (event_view_total _ _ O He) as [v E]. rewrite E.
  unfold event_view, join_actor in *.
  destruct (array_find _ (agents (tables s))) as [a|] eqn:F; [|done].
  destruct (grows_id _ _ G _ _ F) as (b & Fb & Eh). unfold find_agent_by_id in Fb. rewrite Fb.
  rewrite <-E. cbn. unfold view. cbn. by rewrite Eh.
Qed.

(** New events come after everything a reader has seen. *)
Lemma mailbox_later s s' r c :
  grows s s' -> exists es, mailbox (tables s') r c = mailbox (tables s) r c ++ es.
Proof.
  intros [_ _ (es & E & _) _ _ _]. unfold mailbox. rewrite E, array_filter_app. by eexists.
Qed.

Lemma mailbox_from s r c l1 e l2 :
  store_ok s -> mailbox (tables s) r c = l1 ++ e :: l2 ->
  mailbox (tables s) r (Some (MailboxEvents.cursor e)) = l2.
Proof.
  intros O E. pose proof (mailbox_sorted s r c O) as S. rewrite E in S.
  rewrite <-(filter_after MailboxEvents.cursor l1 e l2 S), <-E. unfold mailbox.
  rewrite array_filter_filter. apply array_filter_ext. intros x _. cbn.
  assert (He : e ∈ mailbox (tables s) r c) by (rewrite E; set_solver).
  apply elem_of_array_filter in He as [_ He]. bool_hyps. case_bool_decide; cbn; [|done].
  destruct c as [c|]; cbn in *; [|done]. bool_hyps.
  destruct (_ <? _) eqn:L; [|by rewrite andb_false_r]. bool_hyps.
  symmetry. apply andb_true_iff. split; [apply Z.ltb_lt; lia|done].
Qed.
Lemma event_view_cursor t e v : event_view t e = Some v -> cursor v = string_of_int (MailboxEvents.cursor e).
Proof.
  unfold event_view, join_actor. destruct (array_find _ _); cbn; [|done]. by intros [= <-].
Qed.

(** The page a request returns: the first rows of the mailbox, and the cursor of the last. *)
Lemma list_page s input page s1 :
  store_ok s -> listMailboxEvents input s = (Ok page, s1) ->
  let pg := take (Z.to_nat (Mailbox.limit input))
              (mailbox (tables s) (list_recipientAgentId input) (afterCursor input)) in
  tables s1 = tables s /\ 0 <= Mailbox.limit input /\ events page = omap (event_view (tables s)) pg /\
  next_cursor page = string_of_int <$>
    match last pg with Some e => Some (MailboxEvents.cursor e) | None => afterCursor input end.
Proof.
  intros O E pg. unfold listMailboxEvents in E. tx_step E. cbn. bool_hyps. tabs.
  assert (Tot : forall e, e ∈ mailbox (tables s) (list_recipientAgentId input) (afterCursor input) ->
    is_Some (event_view (tables s) e)).
  { intros e He. by eapply event_view_total, mailbox_elem. }
  assert (V : map view (take (Z.to_nat (Mailbox.limit input))
      (feed (tables s) (list_recipientAgentId input) (afterCursor input))) =
    omap (event_view (tables s)) pg).
  { rewrite <-firstn_map, feed_views by done. by apply take_omap. }
  tabs_hyps. rewrite V. split_and!; [done|done|done|].
  assert (Tp : forall e, e ∈ pg -> is_Some (event_view (tables s) e)).
  { intros e He. apply Tot. rewrite <-(take_drop (Z.to_nat (Mailbox.limit input))). set_solver. }
  rewrite last_omap by exact Tp. destruct (last pg) as [e|] eqn:L; cbn; [|done].
  destruct (Tp e) as [v Ev]; [apply last_Some in L as [l' ->]; set_solver|].
  rewrite Ev. cbn. by rewrite (event_view_cursor _ _ _ Ev).
Qed.

(** A thread is read by its two participants only, and they read its whole log in the order
    of its numbers; a missing thread and a stranger get their own errors; reading writes nothing. *)
Theorem get_handoff_spec s task caller (R : reachable s) :
  getHandoff task caller s =
    (match find_handoff (tables s) task with
     | None => Err (Relay {| code := thread_not_found; message := "Thread not found" |})
     | Some h =>
         if participant h caller
         then Ok (h, map message_view (thread (tables s) (Handoffs.id h)))
         else Err (Relay {| code := not_a_participant; message := "Caller is not a participant" |})
     end, s).
Proof.
  apply reachable_ok in R as O. unfold getHandoff, mbind, Tx_bind. cbn.
  destruct (find_handoff _ _) as [h|] eqn:F; cbn; [|done]. apply find_handoff_elem in F as [Hh _].
  destruct (participant h caller); cbn; [|done]. fold (thread (tables s) (Handoffs.id h)).
  rewrite (merge_sort_sorted Messages.sequenceNo); [done|done|].
  pose proof (ok_handoffs _ O) as K. rewrite Forall_forall in K.
  rewrite (handoff_numbers _ _ (K h Hh)). apply seqZ_sorted.
Qed.

(** C25: A mailbox can be read page by page while it grows. Whatever happens between two
    requests, the page together with what a later store lists after the page's [next_cursor] is
    exactly what that store lists after the cursor the page was asked for: no event is skipped,
    repeated or reordered; a page is empty only when nothing is left, and never longer than asked. *)
Theorem mailbox_catch_up s s' input page s1 (R : reachable s) (T : history s s')
    (E : listMailboxEvents input s = (Ok page, s1)) :
  len (events page) <= Mailbox.limit input /\ tables s1 = tables s /\
  exists k, next_cursor page = string_of_int <$> k /\
    map view (feed (tables s') (list_recipientAgentId input) (afterCursor input)) =
      events page ++ map view (feed (tables s') (list_recipientAgentId input) k) /\
    (0 < Mailbox.limit input -> events page = [] ->
      k = afterCursor input /\ feed (tables s) (list_recipientAgentId input) k = []).
Proof.
  apply reachable_ok in R as O. pose proof (history_grows _ _ T O) as G.
  pose proof (history_ok _ _ T O) as O'.
  destruct (list_page _ _ _ _ O E) as (T1 & L & Ev & Nx). rewrite Ev.
  set (c := afterCursor input) in *. set (r := list_recipientAgentId input) in *.
  set (n := Z.to_nat (Mailbox.limit input)) in *. set (M := mailbox (tables s) r c) in *.
  assert (Later : forall l : list _, (forall e, e ∈ l -> e ∈ M) ->
    omap (event_view (tables s')) l = omap (event_view (tables s)) l).
  { intros l Hl. apply omap_agree. intros e He. eapply event_view_later; [done..|].
    by eapply mailbox_elem, Hl. }
  destruct (mailbox_later s s' r c G) as [es Es]. fold M in Es.
  assert (Sp : M = take n M ++ drop n M) by (symmetry; apply take_drop).
  split; [|split; [exact T1|]].
  { unfold len. pose proof (length_omap_le (event_view (tables s)) (take n M)) as B.
    rewrite length_take in B. lia. }
  eexists. split; [exact Nx|]. destruct (last (take n M)) as [e|] eqn:La.
  - apply last_Some in La as [l1 La].
    assert (He : e ∈ M) by (rewrite Sp, La; set_solver). split.
    + rewrite !feed_views by done. change (mailbox (tables s') r c) with (mailbox (tables s') r c).
      rewrite Es. erewrite (mailbox_from s' r c l1 e) by (done || rewrite Es, Sp, La, <-!app_assoc; reflexivity).
      rewrite Sp at 1. rewrite <-app_assoc, omap_app. f_equal. apply Later. intros x Hx. rewrite Sp. set_solver.
    + intros _ N. rewrite La, omap_app in N. apply app_nil in N as [_ N].
      destruct (event_view_total s e O) as [v V]; [by eapply mailbox_elem|]. cbn in N. by rewrite V in N.
  - apply last_None in La. rewrite La. split; [done|]. intros Pos _. split; [done|].
    apply (map_eq_nil view). rewrite feed_views by done. fold M. rewrite Sp, La.
    destruct n eqn:En; [lia|]. by destruct M.
Qed.
End Feed.

#[local] Existing Instance ex_env.

Lemma mailbox_catch_up_witness :
  exists k, Some "2" = string_of_int <$> k /\
    len (map view (feed (tables ex_completed) "a" None)) =
    1 + len (map view (feed (tables ex_completed) "a" k)).
Proof.
  destruct (listMailboxEvents ex_page ex_answered) as [[page|e] s1] eqn:E;
    [|exfalso; apply (f_equal fst) in E; vm_compute in E; discriminate E].
  destruct (mailbox_catch_up ex_answered ex_completed ex_page page s1 ex_answered_reachable
    (history_snoc _ _ _ (history_nil _)) E) as (_ & _ & k & N & F & _).
  apply (f_equal fst) in E. vm_compute in E. injection E as <-. exists k. split; [exact N|].
  change (list_recipientAgentId ex_page) with "a" in F. change (afterCursor ex_page) with (@None Z) in F.
  rewrite F, len_app. reflexivity.
Defined.

Lemma get_handoff_spec_witness :
  exists h ms, (getHandoff "id-0" "b" ex_answered).1 = Ok (h, ms) /\ map sequence_no ms = [1; 2].
Proof.
  rewrite (get_handoff_spec ex_answered "id-0" "b" ex_answered_reachable).
  destruct (find_handoff (tables ex_answered) "id-0") as [h|] eqn:F;
    [|exfalso; vm_compute in F; discriminate F].
  assert (P : participant h "b" = true) by (vm_compute in F; injection F as <-; reflexivity).
  assert (I : Handoffs.id h = "id-0") by (vm_compute in F; injection F as <-; reflexivity).
  rewrite P. exists h, (map message_view (thread (tables ex_answered) (Handoffs.id h))).
  split; [reflexivity|]. rewrite I. vm_compute. reflexivity.
Defined.
