(* ===== verification/HandoffLocks.v ===== *)
(** * The locks of the handoff service

    Transactions are modelled one at a time; in the database their conflicts
    are resolved by the locks they take.  Each transaction takes its locks in
    one global order, and whatever crosses a block boundary does so holding the
    lock that the block list takes on that boundary.  The locks PostgreSQL takes
    on its own account (foreign keys, index entries) and collisions of the
    hashes under the advisory locks are not modelled. *)

From S2P Require Import Prelude JsLib RelayStore Mailbox Handoff HandoffSpec HandoffRefine HandoffExample.
From stdpp Require Import sorting.
Local Open Scope Z_scope.

Definition rank (l : Lock) : Z :=
  match l with
  | IdempotencyLock _ => 0 | ThreadRow _ => 1 | BlockPair _ _ => 2 | SequenceLock _ => 3
  | MailboxLock _ => 4
  | AdvisoryLock _ | DeliveryRow _ => 5
  end.

Section Locks.
Context `{RelayEnv}.
Implicit Types s : Store.

(** The locks taken by a run of [m], from an empty-handed start. *)
Definition locks_of {A} (m : Tx A) s : list Lock := held (m (s <| held := [] |>)).2.

(** A run of [m] takes locks of ranks in [[lo, hi)], each above the one before. *)
Definition takes {A} (lo hi : Z) (m : Tx A) : Prop :=
  forall s, exists ls, held (m s).2 = held s ++ ls /\
    StronglySorted Z.lt (map rank ls) /\ Forall (fun l => lo <= rank l < hi) ls.

Lemma takes_nothing {A} lo hi (m : Tx A) : (forall s, held (m s).2 = held s) -> takes lo hi m.
Proof. intros E s. exists []. rewrite E, app_nil_r. split_and!; [done|constructor|done]. Qed.

Lemma takes_lock lo hi l : lo <= rank l < hi -> takes lo hi (lock l).
Proof. intros B s. exists [l]. split_and!; [done|repeat constructor|by constructor]. Qed.

Lemma takes_weaken {A} lo hi lo' hi' (m : Tx A) :
  lo' <= lo -> hi <= hi' -> takes lo hi m -> takes lo' hi' m.
Proof.
  intros L U M s. destruct (M s) as (ls & E & S & F). exists ls. split_and!; auto.
  eapply Forall_impl; [exact F|]. cbn. lia.
Qed.

Lemma takes_bind {A B} lo mid hi (m : Tx A) (k : A -> Tx B) :
  lo <= mid -> mid <= hi -> takes lo mid m -> (forall a, takes mid hi (k a)) -> takes lo hi (m ≫= k).
Proof.
  intros L U M K s. unfold mbind, Tx_bind. destruct (M s) as (ls & E & S & F).
  destruct (m s) as [[a|e] s1]; cbn in *.
  - destruct (K a s1) as (ls' & E' & S' & F'). exists (ls ++ ls'). rewrite E', E, app_assoc, map_app.
    split_and!; [done| |apply Forall_app; split; (eapply Forall_impl; [done|]; cbn; lia)].
    apply StronglySorted_app_2; [|done|done].
    intros x y (a1 & -> & Hx)%list_elem_of_fmap (a2 & -> & Hy)%list_elem_of_fmap.
    rewrite Forall_forall in F. rewrite Forall_forall in F'. specialize (F _ Hx). specialize (F' _ Hy). lia.
  - exists ls. split_and!; auto. eapply Forall_impl; [exact F|]. cbn. lia.
Qed.

(** Computations that take no lock, and the two that other components own. *)
Lemma takes_raise {A} lo hi c msg : takes lo hi (@raise _ A c msg).
Proof. by apply takes_nothing. Qed.
Lemma takes_ret {A} lo hi (a : A) : takes lo hi (mret a).
Proof. by apply takes_nothing. Qed.
Lemma takes_throw_if lo hi b c msg : takes lo hi (throw_if b c msg).
Proof. apply takes_nothing. intros s. by destruct b. Qed.
Lemma takes_check lo hi b n : takes lo hi (check b n).
Proof. apply takes_nothing. intros s. by destruct b. Qed.
Lemma takes_select {A} lo hi (q : Tables -> A) : takes lo hi (select q).
Proof. by apply takes_nothing. Qed.
Lemma takes_write lo hi f : takes lo hi (write f).
Proof. by apply takes_nothing. Qed.
Lemma takes_uuid lo hi : takes lo hi draw_uuid.
Proof. by apply takes_nothing. Qed.
Lemma takes_cursor lo hi : takes lo hi next_cursor_value.
Proof. apply takes_nothing. intros s. unfold next_cursor_value. by destruct (_ <? _). Qed.
Lemma takes_audit_id lo hi : takes lo hi next_audit_id.
Proof. apply takes_nothing. intros s. unfold next_audit_id. by destruct (_ <? _). Qed.
End Locks.

#[export] Hint Resolve takes_raise takes_ret takes_throw_if takes_check takes_select takes_write
  takes_uuid takes_cursor takes_audit_id : relay.

(** Split a bind at rank [mid]; binds that take nothing stay at the lower end. *)
Ltac takes_free := repeat (
  match goal with
  | |- takes ?lo ?hi (_ ≫= _) => apply (takes_bind lo lo hi); [lia|lia|solve [takes_free]|intros ?]
  | |- takes _ _ (match ?x with _ => _ end) => destruct x
  | |- takes _ _ _ => solve [eauto with relay nocore]
  end).
Ltac takes_at mid := apply (takes_bind _ mid _); [lia|lia| |intros ?].

Section Order.
Context `{RelayEnv}.
Implicit Types s : Store.

Lemma takes_audit lo hi now e : lo <= hi -> takes lo hi (writeAudit now e).
Proof. intros. unfold writeAudit, insert_audit. takes_free. Qed.
Lemma takes_insert_handoff lo hi now a b c d e f g h :
  lo <= hi -> takes lo hi (insert_handoff now a b c d e f g h).
Proof. intros. unfold insert_handoff. takes_free. Qed.
Lemma takes_insert_message lo hi now a b c d e f g :
  lo <= hi -> takes lo hi (insert_message now a b c d e f g).
Proof. intros. unfold insert_message. takes_free. Qed.
Lemma takes_event lo hi now i : lo <= 4 -> 5 <= hi -> takes lo hi (appendMailboxEvent now i).
Proof.
  intros. unfold appendMailboxEvent, insert_mailbox_event, pg_notify. takes_at 5; [apply takes_lock; cbn; lia|].
  takes_free.
Qed.
Lemma takes_pair a b : takes 2 3 (lockAgentBlockPair a b).
Proof. apply takes_lock. cbn. lia. Qed.
Lemma takes_key key : takes 0 1 (lock_key key).
Proof.
  unfold lock_key. destruct (usable_key key); [apply takes_lock; cbn; lia|auto with relay nocore].
Qed.
Lemma takes_update lo hi now i st f : lo <= hi -> takes lo hi (update_in_status now i st f).
Proof. intros. unfold update_in_status, update_handoffs. takes_free. Qed.
Lemma takes_record now i h a md r k : takes 3 5 (record_transition now i h a md r k).
Proof.
  unfold record_transition. takes_at 4; [apply takes_audit; lia|].
  takes_at 5; [apply takes_event; lia|]. takes_free.
Qed.

Lemma create_order now input : takes 0 5 (create_tx now input).
Proof.
  unfold create_tx. takes_at 1; [apply takes_key|]. takes_free.
  unfold create_new, isSenderBlocked. destruct a0; [|takes_free].
  takes_at 1; [takes_free|]. takes_at 2; [takes_free|]. takes_at 3; [apply takes_pair|].
  takes_at 3; [takes_free|]. takes_at 3; [takes_free|].
  takes_at 3; [apply takes_insert_handoff; lia|]. takes_at 3; [apply takes_insert_message; lia|].
  takes_at 4; [apply takes_audit; lia|]. takes_at 5; [apply takes_event; lia|]. takes_free.
Qed.

Lemma append_order now input : takes 0 5 (append_tx now input).
Proof.
  unfold append_tx, select_for_update. takes_at 1; [apply takes_key|].
  takes_at 2; [takes_at 2; [apply takes_lock; cbn; lia|takes_free]|]. takes_free.
  unfold append_new, isSenderBlocked, nextSequenceNo. takes_at 2; [takes_free|].
  takes_at 3; [apply takes_pair|]. takes_at 3; [takes_free|]. takes_at 3; [takes_free|].
  takes_at 4; [takes_at 4; [apply takes_lock; cbn; lia|takes_free]|].
  takes_at 4; [apply takes_insert_message; lia|]. takes_at 4; [apply takes_audit; lia|].
  takes_at 5; [apply takes_event; lia|]. takes_free.
Qed.

Lemma transition_order now date input : takes 0 5 (transition_tx now date input).
Proof.
  unfold transition_tx, select_for_update.
  takes_at 2; [takes_at 2; [apply takes_lock; cbn; lia|takes_free]|]. takes_free.
  - unfold accept_handoff, isSenderBlocked. takes_at 2; [takes_free|]. destruct (_ === _); [takes_free|].
    takes_at 2; [takes_free|]. takes_at 3; [apply takes_pair|]. takes_at 3; [takes_free|].
    takes_at 3; [takes_free|]. takes_at 3; [apply takes_update; lia|].
    takes_at 5; [apply takes_record|]. takes_free.
  - unfold complete_handoff, isSenderBlocked. takes_at 2; [takes_free|]. takes_at 2; [takes_free|].
    takes_at 3; [apply takes_pair|]. takes_at 3; [takes_free|]. takes_at 3; [takes_free|].
    takes_at 3; [apply takes_update; lia|]. takes_at 5; [apply takes_record|]. takes_free.
  - unfold cancel_handoff. takes_at 2; [takes_free|]. takes_at 2; [takes_free|].
    takes_at 3; [apply takes_update; lia|]. takes_at 5; [apply takes_record|]. takes_free.
Qed.
(** ** Holding the boundary *)

(** A run of [m] that returned has taken [l]. *)
Definition acquires {A} (l : Lock) (m : Tx A) : Prop :=
  forall s a s', m s = (Ok a, s') -> l ∈ held s'.

Lemma acquires_later {A B} l (m : Tx A) (k : A -> Tx B) :
  (forall a, acquires l (k a)) -> acquires l (m ≫= k).
Proof. intros K s b s' (a & s1 & _ & E)%bind_ok. by eapply K. Qed.
Lemma acquires_now {A B} l lo hi (m : Tx A) (k : A -> Tx B) :
  acquires l m -> (forall a, takes lo hi (k a)) -> acquires l (m ≫= k).
Proof.
  intros M K s b s' (a & s1 & E1 & E2)%bind_ok. destruct (K a s1) as (ls & E & _). rewrite E2 in E.
  cbn in E. rewrite E. apply elem_of_app. left. by eapply M.
Qed.
Lemma acquires_lock l : acquires l (lock l).
Proof. intros s u s' [= _ <-]. cbn. set_solver. Qed.

Lemma create_holds now input r :
  acquires (BlockPair (Agents.id r) (senderId input)) (create_new now input (Some r)).
Proof.
  do 2 (apply acquires_later; intros _). eapply (acquires_now _ 3 5); [apply acquires_lock|]. intros _.
  unfold isSenderBlocked. takes_at 3; [takes_free|]. takes_at 3; [takes_free|].
  takes_at 3; [apply takes_insert_handoff; lia|]. takes_at 3; [apply takes_insert_message; lia|].
  takes_at 4; [apply takes_audit; lia|]. takes_at 5; [apply takes_event; lia|]. takes_free.
Qed.

Lemma append_holds now input h :
  acquires (BlockPair (other_participant h (append_senderId input)) (append_senderId input))
    (append_new now input h).
Proof.
  apply acquires_later. intros _. eapply (acquires_now _ 3 5); [apply acquires_lock|]. intros _.
  unfold isSenderBlocked, nextSequenceNo. takes_at 3; [takes_free|]. takes_at 3; [takes_free|].
  takes_at 4; [takes_at 4; [apply takes_lock; cbn; lia|takes_free]|].
  takes_at 4; [apply takes_insert_message; lia|]. takes_at 4; [apply takes_audit; lia|].
  takes_at 5; [apply takes_event; lia|]. takes_free.
Qed.

Lemma accept_holds now date input h :
  Handoffs.status h <> accepted ->
  acquires (BlockPair (Handoffs.recipientId h) (Handoffs.senderId h)) (accept_handoff now date input h).
Proof.
  intros N. unfold accept_handoff. rewrite (bool_decide_eq_false_2 _ N).
  do 2 (apply acquires_later; intros _). eapply (acquires_now _ 3 5); [apply acquires_lock|]. intros _.
  unfold isSenderBlocked. takes_at 3; [takes_free|]. takes_at 3; [takes_free|].
  takes_at 3; [apply takes_update; lia|]. takes_at 5; [apply takes_record|]. takes_free.
Qed.

Lemma complete_holds now date input h :
  acquires (BlockPair (Handoffs.senderId h) (callerId input)) (complete_handoff now date input h).
Proof.
  do 2 (apply acquires_later; intros _). eapply (acquires_now _ 3 5); [apply acquires_lock|]. intros _.
  unfold isSenderBlocked. takes_at 3; [takes_free|]. takes_at 3; [takes_free|].
  takes_at 3; [apply takes_update; lia|]. takes_at 5; [apply takes_record|]. takes_free.
Qed.

(** The agreement the mailbox mutations and the block list share: what crosses
    the boundary of [blocker] and [blocked] holds the lock of that boundary. *)
Definition holds_boundary (s' : Store) (blocker blocked : string) : Prop :=
  BlockPair blocker blocked ∈ held s'.

Lemma create_tx_holds now input s r s' :
  create_tx now input s = (Ok r, s') -> r.2 = false ->
  holds_boundary s' (Handoffs.recipientId r.1) (Handoffs.senderId r.1).
Proof.
  unfold create_tx. intros (u & s1 & _ & E)%bind_ok N. do 2 tx_one E. tabs_hyps.
  destruct (_ ≫= _); [tx_step E; done|]. replace (tables s1) with (tables s2) in E by done.
  assert (C := E). apply create_new_ok in C as (_ & m & _ & _ & _ & _ & _ & _ & _ & _ & _ & _ & S).
  unfold samePayload in S. bool_hyps. destruct (find_agent _ _) as [a|]; [|done].
  apply create_holds in E. unfold holds_boundary. cbn in *. congruence.
Qed.

Lemma append_tx_holds now input s r s' :
  append_tx now input s = (Ok r, s') -> replayed r = false ->
  exists h, find_handoff (tables s) (taskId input) = Some h /\
    holds_boundary s' (other_participant h (append_senderId input)) (append_senderId input).
Proof.
  unfold append_tx, select_for_update. intros (u & s1 & [T _]%lock_key_ok & E)%bind_ok N.
  tx_one E. tabs_hyps. destruct (find_handoff _ _) as [h|]; [|tx_step E]. exists h. split; [done|].
  do 2 tx_one E. destruct (_ ≫= _); [tx_step E; done|]. by apply append_holds in E.
Qed.

Lemma transition_tx_holds now date input s r s' :
  transition_tx now date input s = (Ok r, s') ->
  exists h, find_handoff (tables s) (transition_taskId input) = Some h /\
    match transition input with
    | accept => Handoffs.status h <> accepted ->
        holds_boundary s' (Handoffs.recipientId h) (Handoffs.senderId h)
    | complete => holds_boundary s' (Handoffs.senderId h) (callerId input)
    | Handoff.cancel => True
    end.
Proof.
  unfold transition_tx, select_for_update. intros E. tx_one E. tabs_hyps.
  destruct (find_handoff _ _) as [h|]; [|tx_step E]. exists h. split; [done|]. tx_one E.
  destruct (transition input); [|by apply complete_holds in E|done].
  intros N. by apply (accept_holds _ _ _ _ N) in E.
Qed.

(** C26: Whatever its outcome, a transaction of the service takes its locks in one strictly
    increasing order (key, thread, boundary, numbering, mailbox), so no circle of transactions can
    wait for each other on them; and every commit that carries content over a block boundary, a new
    thread, a message, an acceptance, a completion, holds the lock of exactly that boundary, the
    lock the block list takes to change it. *)
Theorem lock_discipline s now date c a t :
  StronglySorted Z.lt (map rank (locks_of (create_tx now c) s)) /\
  StronglySorted Z.lt (map rank (locks_of (append_tx now a) s)) /\
  StronglySorted Z.lt (map rank (locks_of (transition_tx now date t) s)) /\
  (forall r s', create_tx now c s = (Ok r, s') -> r.2 = false ->
    holds_boundary s' (Handoffs.recipientId r.1) (Handoffs.senderId r.1)) /\
  (forall r s', append_tx now a s = (Ok r, s') -> replayed r = false ->
    exists h, find_handoff (tables s) (taskId a) = Some h /\
      holds_boundary s' (other_participant h (append_senderId a)) (append_senderId a)) /\
  (forall r s', transition_tx now date t s = (Ok r, s') ->
    exists h, find_handoff (tables s) (transition_taskId t) = Some h /\
      match transition t with
      | accept => Handoffs.status h <> accepted ->
          holds_boundary s' (Handoffs.recipientId h) (Handoffs.senderId h)
      | complete => holds_boundary s' (Handoffs.senderId h) (callerId t)
      | Handoff.cancel => True
      end).
Proof.
  assert (Sorted : forall A (m : Tx A), takes 0 5 m -> StronglySorted Z.lt (map rank (locks_of m s))).
  { intros A m M. unfold locks_of. destruct (M (s <| held := [] |>)) as (ls & E & S & _).
    cbn in E. by rewrite E. }
  split_and!.
  - apply Sorted, create_order.
  - apply Sorted, append_order.
  - apply Sorted, transition_order.
  - exact (create_tx_holds now c s).
  - exact (append_tx_holds now a s).
  - exact (transition_tx_holds now date t s).
Qed.
End Order.

#[local] Existing Instance ex_env.

(** The locks of a reply. *)
Example ex_reply_locks :
  locks_of (append_tx 30 ex_reply) ex_accepted =
  [IdempotencyLock "k2"; ThreadRow "id-0"; BlockPair "a" "b"; SequenceLock "id-0"; MailboxLock "a"].
Proof. vm_compute. reflexivity. Qed.

Lemma lock_discipline_witness :
  exists r s', append_tx 30 ex_reply ex_accepted = (Ok r, s') /\ replayed r = false /\
    exists h, find_handoff (tables ex_accepted) "id-0" = Some h /\
      holds_boundary s' (other_participant h "b") "b".
Proof.
  destruct (lock_discipline ex_accepted 30 0 (ex_create None) ex_reply (ex_move "b" accept))
    as (_ & _ & _ & _ & A & _).
  destruct (append_tx 30 ex_reply ex_accepted) as [[r|e] s'] eqn:E;
    [|exfalso; apply (f_equal fst) in E; vm_compute in E; discriminate E].
  exists r, s'. split; [reflexivity|].
  assert (N : replayed r = false).
  { apply (f_equal fst) in E. vm_compute in E. injection E as <-. reflexivity. }
  split; [exact N|]. exact (A r s' eq_refl N).
Defined.
