(* ===== verification/HandoffGuarantees.v ===== *)
(** * Guarantees of the handoff service

    The theorems about reachable stores: the thread log, the refinement of the
    specification with rollback, what histories preserve, and the block fence.
    Retries are in [HandoffRetry], reads in [MailboxFeed], locks in
    [HandoffLocks]. *)

From S2P Require Import Prelude JsLib RelayStore Mailbox Handoff.
From S2P Require Import HandoffSpec HandoffRefine HandoffSafety HandoffExample.
From stdpp Require Import sorting.
Local Open Scope Z_scope.

(** ** The log of a thread *)
Section Log.
Context `{RelayEnv}.
Implicit Types s : Store.

(** C20: In every reachable store, each thread holds messages numbered 1, 2, 3, ... without a
    gap or a repeat, the first one is the sender's summary, every message and event is of one
    of the two participants, the columns of the thread agree with its status, and the mailboxes
    hold exactly one event per message and per transition. *)
Theorem thread_log_complete s h (R : reachable s) (Hh : h ∈ handoffs (tables s)) :
  Handoffs.senderId h <> Handoffs.recipientId h /\ coherent h /\
  map Messages.sequenceNo (thread (tables s) (Handoffs.id h)) =
    seqZ 1 (len (thread (tables s) (Handoffs.id h))) /\
  (exists m, head (thread (tables s) (Handoffs.id h)) = Some m /\
    Messages.authorId m = Handoffs.senderId h /\ Messages.body m = Handoffs.summary h) /\
  (forall m, m ∈ thread (tables s) (Handoffs.id h) -> participant h (Messages.authorId m) = true) /\
  (forall e, e ∈ thread_events (tables s) (Handoffs.id h) ->
    participant h (MailboxEvents.actorAgentId e) = true /\
    MailboxEvents.recipientAgentId e = other_participant h (MailboxEvents.actorAgentId e)) /\
  len (thread_events (tables s) (Handoffs.id h)) =
    len (thread (tables s) (Handoffs.id h)) + moves_made (Handoffs.status h).
Proof.
  pose proof (reachable_ok _ R) as O. pose proof (ok_handoffs _ O) as K.
  pose proof (ok_messages _ O) as M. pose proof (ok_events _ O) as V.
  rewrite Forall_forall in K. rewrite Forall_forall in M. rewrite Forall_forall in V. destruct (K h Hh) as [K1 K2 K3 K4 K5 K6].
  assert (Same : forall x, x ∈ handoffs (tables s) -> Handoffs.id x = Handoffs.id h -> x = h).
  { intros x Hx E. by eapply NoDup_map_eq; [apply O|..]. }
  split_and!; auto.
  - intros m [Hm E]%elem_of_array_filter. bool_hyps. destruct (M m Hm) as (x & Hx & Ex & P).
    rewrite <-(Same x Hx) by congruence. done.
  - intros e [He E]%elem_of_array_filter. bool_hyps. destruct (V e He) as (x & Hx & Ex & P & Q & _).
    rewrite <-(Same x Hx) by congruence. done.
Qed.

(** C21: Every call of the service, whatever its outcome, takes a step of the specification; one
    that throws, a relay error or a violated constraint, leaves every table as it was. *)
Theorem handoff_service_refines s c (R : reachable s) :
  thread_step s (serve c s) /\
  forall e, (run_call c s).1 = Err e -> tables (serve c s) = tables s.
Proof.
  split; [apply serve_step, reachable_ok, R|]. intros e E. unfold serve.
  destruct (run_call c s) as [r s'] eqn:D. cbn in *. subst. by eapply atomic_run_call.
Qed.

(** C23: Along every history, a thread keeps its parties, content and key and moves only forward
    (pending, accepted, completed, or pending, cancelled); messages and events are only added,
    the events above every cursor handed out before; a completed or cancelled thread never
    changes again and takes no message. *)
Theorem history_preserves s s' h (R : reachable s) (T : history s s') (Hh : h ∈ handoffs (tables s)) :
  exists h', h' ∈ handoffs (tables s') /\ same_content h h' /\
    status_to (Handoffs.status h) (Handoffs.status h') /\
    (exists ms, thread (tables s') (Handoffs.id h) = thread (tables s) (Handoffs.id h) ++ ms /\
      (terminal (Handoffs.status h) = true -> h' = h /\ ms = [])) /\
    exists es, mailboxEvents (tables s') = mailboxEvents (tables s) ++ es /\
      Forall (fun e => cursorSeq s < MailboxEvents.cursor e) es.
Proof.
  apply reachable_ok in R. destruct (history_grows _ _ T R) as [G [ms M] E _ _ _].
  destruct (G h Hh) as (h' & Hh' & S & P & F). exists h'. split_and!; auto.
  exists (array_filter (fun m => Messages.handoffId m === Handoffs.id h) ms).
  assert (Em : thread (tables s') (Handoffs.id h) = thread (tables s) (Handoffs.id h) ++
    array_filter (fun m => Messages.handoffId m === Handoffs.id h) ms).
  { unfold thread. by rewrite M, array_filter_app. }
  split; [done|]. intros D. destruct (F D) as [-> Q]. split; [done|].
  rewrite Q in Em. rewrite <-(app_nil_r (thread (tables s) (Handoffs.id h))) in Em at 1.
  by apply app_inv_head in Em.
Qed.

(** A step adds no message by [a] to a thread with an agent who has blocked [a]. *)
Lemma fence_messages s s' m h :
  store_ok s' -> thread_step s s' -> m ∈ messages (tables s') -> m ∉ messages (tables s) ->
  h ∈ handoffs (tables s') -> Handoffs.id h = Messages.handoffId m ->
  blocks (tables s) (other_participant h (Messages.authorId m)) (Messages.authorId m) = false.
Proof.
  intros O T Hm Nm Hh Ei. pose proof (ok_ids _ O) as N.
  assert (New : forall x, m ∈ messages (tables s) ++ [x] -> m = x) by set_solver.
  destruct T as [T C|h0 x F M M1 M2 M3 M4 Eh Em P|h0 x F T Pa X M1 M Eh Em P|h0 h' l1 l2 r q k E E' Em S V P
    |Eh Em Ea Ee Ec].
  - by rewrite T in Hm.
  - rewrite Em in Hm. apply New in Hm as ->. assert (h = h0) as ->.
    { eapply NoDup_map_eq; [exact N|done| |congruence]. rewrite Eh. set_solver. }
    rewrite M2, other_sender. apply F.
  - rewrite Em in Hm. apply New in Hm as ->. assert (h = h0) as ->; [|done].
    apply find_handoff_elem in F as [? _].
    eapply NoDup_map_eq; [exact N|done| |congruence]. by rewrite Eh.
  - by rewrite Em in Hm.
  - by rewrite Em in Hm.
Qed.

(** The same for the events that announce content. *)
Lemma fence_events s s' e :
  store_ok s -> thread_step s s' -> e ∈ mailboxEvents (tables s') -> e ∉ mailboxEvents (tables s) ->
  blocks (tables s) (MailboxEvents.recipientAgentId e) (MailboxEvents.actorAgentId e) = true ->
  MailboxEvents.kind e = thread_accepted \/ MailboxEvents.kind e = thread_cancelled.
Proof.
  intros O T He Ne B.
  assert (New : forall a r th src k, posted s s' a r th src k ->
    MailboxEvents.actorAgentId e = a /\ MailboxEvents.recipientAgentId e = r /\
    MailboxEvents.kind e = k).
  { intros a r th src k [_ _ _ (x & E & E1 & E2 & E3 & E4 & _)]. rewrite E in He.
    assert (e = x) as -> by set_solver. done. }
  destruct T as [T C|h0 x F M M1 M2 M3 M4 Eh Em P|h0 x F T Pa X M1 M Eh Em P|h0 h' l1 l2 r q k E E' Em S V P
    |Eh Em Ea Ee Ec].
  - by rewrite T in He.
  - destruct (New _ _ _ _ _ P) as (E1 & E2 & _). rewrite E1, E2, (fresh_open _ _ F) in B. done.
  - destruct (New _ _ _ _ _ P) as (E1 & E2 & _). rewrite E1, E2, X in B. done.
  - destruct (New _ _ _ _ _ P) as (E1 & E2 & ->). destruct V as [d _ _ X|d _ _ X|d _ _ _]; [auto| |auto].
    rewrite E1, E2, X in B. done.
  - by rewrite Ee in He.
Qed.

(** C22: The block list is a fence. While [b] has blocked [a], no call puts a message of [a] in a
    thread [a] shares with [b], and the only events of [a] that reach [b]'s mailbox are the
    content-free ones: an acceptance or a cancellation. *)
Theorem block_fence s c a b (R : reachable s) (B : blocks (tables s) b a = true) :
  (forall m h, m ∈ messages (tables (serve c s)) -> m ∉ messages (tables s) ->
    h ∈ handoffs (tables (serve c s)) -> Handoffs.id h = Messages.handoffId m ->
    Messages.authorId m = a -> other_participant h a <> b) /\
  (forall e, e ∈ mailboxEvents (tables (serve c s)) -> e ∉ mailboxEvents (tables s) ->
    MailboxEvents.actorAgentId e = a -> MailboxEvents.recipientAgentId e = b ->
    MailboxEvents.kind e = thread_accepted \/ MailboxEvents.kind e = thread_cancelled).
Proof.
  apply reachable_ok in R. pose proof (serve_step c s (ok_ids _ R)) as T.
  pose proof (thread_step_ok _ _ T R) as O'. split.
  - intros m h Hm Nm Hh Ei <- <-. by rewrite (fence_messages s _ m h O' T) in B.
  - intros e He Ne <- <-. by apply (fence_events s (serve c s)).
Qed.
End Log.

#[local] Existing Instance ex_env.

Lemma thread_log_complete_witness :
  exists h, h ∈ handoffs (tables ex_answered) /\
    map Messages.sequenceNo (thread (tables ex_answered) (Handoffs.id h)) =
      seqZ 1 (len (thread (tables ex_answered) (Handoffs.id h))) /\
    len (thread_events (tables ex_answered) (Handoffs.id h)) =
      len (thread (tables ex_answered) (Handoffs.id h)) + moves_made (Handoffs.status h).
Proof.
  destruct (find_handoff (tables ex_answered) "id-0") as [h|] eqn:F; [|vm_compute in F; discriminate F].
  apply find_handoff_elem in F as [Hh _].
  destruct (thread_log_complete ex_answered h ex_answered_reachable Hh) as (_ & _ & N & _ & _ & _ & C).
  exists h. split; [exact Hh|]. split; [exact N|exact C].
Defined.

Lemma handoff_service_refines_witness :
  thread_step ex_blocked (serve (Append 50 ex_push) ex_blocked) /\
  tables (serve (Append 50 ex_push) ex_blocked) = tables ex_blocked.
Proof.
  destruct (handoff_service_refines ex_blocked (Append 50 ex_push) ex_blocked_reachable) as [T E].
  split; [exact T|].
  apply (E (Relay {| code := teammate_blocked; message := "Sender is blocked by the other participant" |})).
  vm_compute. reflexivity.
Defined.

Lemma history_preserves_witness :
  exists h h', h ∈ handoffs (tables ex_created) /\ h' ∈ handoffs (tables ex_completed) /\
    same_content h h' /\ status_to (Handoffs.status h) (Handoffs.status h').
Proof.
  destruct (find_handoff (tables ex_created) "id-0") as [h|] eqn:F; [|vm_compute in F; discriminate F].
  apply find_handoff_elem in F as [Hh _].
  destruct (history_preserves ex_created ex_completed h ex_created_reachable ex_created_completed Hh)
    as (h' & Hh' & S & P & _).
  exists h, h'. split; [exact Hh|]. split; [exact Hh'|]. split; [exact S|exact P].
Defined.

Lemma block_fence_witness :
  blocks (tables ex_blocked) "b" "a" = true /\
  forall e, e ∈ mailboxEvents (tables (serve (Append 50 ex_push) ex_blocked)) ->
    e ∉ mailboxEvents (tables ex_blocked) -> MailboxEvents.actorAgentId e = "a" ->
    MailboxEvents.recipientAgentId e = "b" ->
    MailboxEvents.kind e = thread_accepted \/ MailboxEvents.kind e = thread_cancelled.
Proof.
  split; [vm_compute; reflexivity|].
  apply (block_fence ex_blocked (Append 50 ex_push) "a" "b" ex_blocked_reachable).
  vm_compute. reflexivity.
Defined.
