(* ===== verification/IsoDates.v ===== *)
(** * Timestamps as text

    [Date.parse] reads back what [toISOString] writes, for every time from 1970 to
    the end of the year 9999.  The calendar part is checked at the 400 year
    boundaries of one era and the 366 days of a year; the rest is arithmetic. *)

From Stdlib Require Import Ascii.
From S2P Require Import Prelude JsLib Json.
Local Open Scope Z_scope.

(** ** Digits *)
Lemma digit_code n : code (Ascii.ascii_of_N (Z.to_N (48 + n mod 10))) = 48 + n mod 10.
Proof.
  assert (R : 0 <= n mod 10 < 10) by (apply Z.mod_pos_bound; lia).
  assert (n mod 10 = 0 \/ n mod 10 = 1 \/ n mod 10 = 2 \/ n mod 10 = 3 \/ n mod 10 = 4 \/
          n mod 10 = 5 \/ n mod 10 = 6 \/ n mod 10 = 7 \/ n mod 10 = 8 \/ n mod 10 = 9) as C by lia.
  repeat (destruct C as [->|C]; [reflexivity|]). rewrite C. reflexivity.
Qed.

Lemma digits_S k acc n r :
  digits (S k) acc (digit n +:+ r) = digits k (10 * acc + n mod 10) r.
Proof.
  change (digit n +:+ r) with (String (Ascii.ascii_of_N (Z.to_N (48 + n mod 10))) r).
  cbn [digits]. rewrite digit_code. unfold is_digit, in_range.
  assert (R : 0 <= n mod 10 < 10) by (apply Z.mod_pos_bound; lia).
  rewrite !(proj2 (Z.leb_le _ _)) by lia. cbn [andb]. f_equal. lia.
Qed.

Lemma digits_two n r : 0 <= n < 100 -> digits 2 0 (two_digits n +:+ r) = Some (n, r).
Proof.
  intros R. unfold two_digits. rewrite string_app_assoc, !digits_S. cbn [digits].
  do 2 f_equal. assert (n / 10 < 10) by (apply Z.div_lt_upper_bound; lia).
  rewrite (Z.mod_small (n / 10)) by (split; [apply Z.div_pos|]; lia).
  pose proof (Z.div_mod n 10). lia.
Qed.

Lemma digits_four n r : 0 <= n < 10000 -> digits 4 0 (four_digits n +:+ r) = Some (n, r).
Proof.
  intros R. unfold four_digits, three_digits, two_digits.
  rewrite !string_app_assoc, !digits_S. cbn [digits]. do 2 f_equal.
  change 1000 with (10 * (10 * 10)). change 100 with (10 * 10).
  rewrite <-!Z.div_div by lia.
  assert (n / 10 / 10 / 10 < 10) by (repeat (apply Z.div_lt_upper_bound; [lia|]); lia).
  rewrite (Z.mod_small (n / 10 / 10 / 10)) by (split; [repeat apply Z.div_pos|]; lia).
  pose proof (Z.div_mod n 10). pose proof (Z.div_mod (n / 10) 10).
  pose proof (Z.div_mod (n / 10 / 10) 10). lia.
Qed.

(** The fraction of a second: three digits, then what is not a digit. *)
Lemma fraction_three n r :
  0 <= n < 1000 -> fraction 100 (three_digits n +:+ "Z" +:+ r) = (n, "Z" +:+ r).
Proof.
  intros R. unfold three_digits, two_digits. rewrite !string_app_assoc.
  assert (D : forall m k q, fraction k (digit m +:+ q) =
            let '(v, r) := fraction (k / 10) q in ((m mod 10) * k + v, r)).
  { intros m k q. change (digit m +:+ q) with (String (Ascii.ascii_of_N (Z.to_N (48 + m mod 10))) q).
    cbn [fraction]. rewrite digit_code. unfold is_digit, in_range.
    assert (0 <= m mod 10 < 10) by (apply Z.mod_pos_bound; lia).
    rewrite !(proj2 (Z.leb_le _ _)) by lia. cbn [andb].
    destruct (fraction (k / 10) q) as [v x]. do 2 f_equal. lia. }
  rewrite !D. change (fraction (100 / 10 / 10 / 10) ("Z" +:+ r)) with (0, "Z" +:+ r). f_equal.
  change (100 / 10) with 10. change (10 / 10) with 1. change 100 with (10 * 10).
  rewrite <-!Z.div_div by lia.
  assert (n / 10 / 10 < 10) by (repeat (apply Z.div_lt_upper_bound; [lia|]); lia).
  rewrite (Z.mod_small (n / 10 / 10)) by (split; [repeat apply Z.div_pos|]; lia).
  pose proof (Z.div_mod n 10). pose proof (Z.div_mod (n / 10) 10). lia.
Qed.

(** ** The calendar *)

(** The first day of a year of the era, which begins in March. *)
Definition year_start (yoe : Z) : Z := 365 * yoe + yoe / 4 - yoe / 100.
Definition year_of_day (doe : Z) : Z := (doe - doe / 1460 + doe / 36524 - doe / 146096) / 365.

(** The last day of a year: the era's last year has a leap day more. *)
Definition year_end (yoe : Z) : Z := year_start (yoe + 1) - 1 + yoe / 399.

(** What is checked of every year of an era, and of every day of a year. *)
Definition year_ok (y : Z) : bool :=
  (year_of_day (year_start y) =? y) && (year_of_day (year_end y) =? y) &&
  (year_end y - year_start y <? (if leap_year (y + 1) then 366 else 365)).
Definition month_index (doy : Z) : Z := (5 * doy + 2) / 153.
Definition month_number (mp : Z) : Z := if mp <? 10 then mp + 3 else mp - 9.
Definition day_number (doy : Z) : Z := doy - (153 * month_index doy + 2) / 5 + 1.
Definition day_ok (doy : Z) : bool :=
  let m := month_number (month_index doy) in
  in_range 1 12 m && (1 <=? day_number doy) &&
  ((if 2 <? m then m - 3 else m + 9) =? month_index doy) &&
  (day_number doy <=?
   (if m =? 2 then (if doy =? 365 then 29 else 28)
    else if (m =? 4) || (m =? 6) || (m =? 9) || (m =? 11) then 30 else 31)).

Lemma years_ok : every year_ok (seqZ 0 400) = true.
Proof. by_vm. Qed.
Lemma days_ok : every day_ok (seqZ 0 366) = true.
Proof. by_vm. Qed.

Lemma year_of_day_mono a b : 0 <= a <= b -> year_of_day a <= year_of_day b.
Proof.
  intros R. unfold year_of_day. apply Z.div_le_mono; [lia|].
  change 146096 with (36524 * 4). rewrite <-!Z.div_div by lia.
  assert (a / 36524 <= b / 36524) by (apply Z.div_le_mono; lia).
  pose proof (Z.div_mod a 1460). pose proof (Z.mod_pos_bound a 1460).
  pose proof (Z.div_mod b 1460). pose proof (Z.mod_pos_bound b 1460).
  pose proof (Z.div_mod (a / 36524) 4). pose proof (Z.mod_pos_bound (a / 36524) 4).
  pose proof (Z.div_mod (b / 36524) 4). pose proof (Z.mod_pos_bound (b / 36524) 4).
  lia.
Qed.

Lemma year_bracket doe :
  0 <= doe < 146097 -> exists y, 0 <= y < 400 /\ year_start y <= doe <= year_end y.
Proof.
  intros R.
  assert (K : forall n : nat, (n <= 400)%nat -> doe <= year_end (Z.of_nat n - 1) ->
            exists y, 0 <= y < Z.of_nat n /\ year_start y <= doe <= year_end y).
  { induction n as [|n IH]; intros Hn D.
    - exfalso. change (year_end (Z.of_nat 0 - 1)) with (-2) in D. lia.
    - destruct (Z.le_gt_cases (year_start (Z.of_nat n)) doe) as [G|G].
      + exists (Z.of_nat n). replace (Z.of_nat (S n) - 1) with (Z.of_nat n) in D by lia. lia.
      + destruct IH as (y & Hy & E); [lia| |exists y; lia].
        unfold year_end. replace (Z.of_nat n - 1 + 1) with (Z.of_nat n) by lia.
        destruct n as [|n]; [change (year_start (Z.of_nat 0)) with 0 in G; lia|].
        assert (0 <= (Z.of_nat (S n) - 1) / 399) by (apply Z.div_pos; lia). lia. }
  destruct (K 400%nat ltac:(lia)) as (y & Hy & E); [change (doe <= 146096); lia|].
  exists y. lia.
Qed.

Lemma year_of_day_spec doe :
  0 <= doe < 146097 ->
  let yoe := year_of_day doe in
  0 <= yoe < 400 /\ 0 <= doe - year_start yoe < 366 /\
  (doe - year_start yoe = 365 -> leap_year (yoe + 1) = true).
Proof.
  intros R. destruct (year_bracket doe R) as (y & Hy & B). cbv zeta.
  pose proof (proj1 (every_iff _ _) years_ok y ltac:(apply elem_of_seqZ; lia)) as Ok.
  unfold year_ok in Ok. bool_hyps.
  assert (0 <= year_start y).
  { unfold year_start. Z.to_euclidean_division_equations. lia. }
  pose proof (year_of_day_mono (year_start y) doe).
  pose proof (year_of_day_mono doe (year_end y)).
  assert (year_of_day doe = y) as -> by lia.
  destruct (leap_year (y + 1)); split_and!; try lia; intros; try done; lia.
Qed.

Lemma day_spec doy :
  0 <= doy < 366 ->
  let m := month_number (month_index doy) in
  let d := day_number doy in
  1 <= m <= 12 /\ 1 <= d /\ (if 2 <? m then m - 3 else m + 9) = month_index doy /\
  d <= (if m =? 2 then (if doy =? 365 then 29 else 28)
        else if (m =? 4) || (m =? 6) || (m =? 9) || (m =? 11) then 30 else 31).
Proof.
  intros R. pose proof (proj1 (every_iff _ _) days_ok doy ltac:(apply elem_of_seqZ; lia)) as Ok.
  unfold day_ok, in_range in Ok. bool_hyps. cbv zeta. split_and!; lia.
Qed.

Lemma leap_year_era y era : leap_year (y + era * 400) = leap_year y.
Proof.
  unfold leap_year. rewrite Z_mod_plus_full.
  assert (E : forall k, (k | 400) -> 0 < k -> (y + era * 400) mod k = y mod k).
  { intros k [j Hj] Hk. rewrite Hj, Z.mul_assoc, Z_mod_plus_full. done. }
  rewrite !E; [done| | | |]; try lia; [exists 4|exists 100]; lia.
Qed.

(** The civil date of a day after 1970 is a date, and denotes that day. *)
Lemma civil_spec z :
  0 <= z ->
  let '(y, m, d) := civil_from_days z in
  1 <= m <= 12 /\ 1 <= d <= days_in_month y m /\ days_from_civil y m d = z.
Proof.
  intros Hz. unfold civil_from_days.
  set (z' := z + 719468). set (era := z' / 146097). set (doe := z' - era * 146097).
  assert (D : 0 <= doe < 146097).
  { unfold doe, era. pose proof (Z.div_mod z' 146097). pose proof (Z.mod_pos_bound z' 146097). lia. }
  fold (year_of_day doe). destruct (year_of_day_spec doe D) as (Y & O & L).
  set (yoe := year_of_day doe) in *. fold (year_start yoe). set (doy := doe - year_start yoe) in *.
  fold (month_index doy). fold (month_number (month_index doy)). fold (day_number doy).
  destruct (day_spec doy O) as (M & D1 & I & D2). set (m := month_number (month_index doy)) in *.
  set (d := day_number doy) in *. split_and!; [lia|lia|lia| |].
  - unfold days_in_month. destruct (m =? 2) eqn:E2; [|done].
    destruct (doy =? 365) eqn:E3; rewrite ?E2, ?E3 in D2; [|clear L; destruct (leap_year _); lia].
    apply Z.eqb_eq in E2, E3. replace (m <=? 2) with true by (symmetry; apply Z.leb_le; lia).
    replace (yoe + era * 400 + 1) with (yoe + 1 + era * 400) by lia.
    rewrite leap_year_era, L by done. done.
  - unfold days_from_civil.
    assert (Yr : (if m <=? 2 then yoe + era * 400 + (if m <=? 2 then 1 else 0) - 1
                  else yoe + era * 400 + (if m <=? 2 then 1 else 0)) = yoe + era * 400)
      by (destruct (m <=? 2); lia).
    rewrite Yr, I. rewrite Z.div_add, (Z.div_small yoe) by lia. rewrite Z.add_0_l.
    replace (yoe + era * 400 - era * 400) with yoe by lia.
    unfold d, day_number, doy, year_start, doe, z'. lia.
Qed.

(** A day before the year 10000 has a four-digit year. *)
Lemma civil_year z :
  0 <= z < 2932897 -> let '(y, _, _) := civil_from_days z in 0 <= y < 10000.
Proof.
  intros R. pose proof (civil_spec z ltac:(lia)) as C. destruct (civil_from_days z) as [[y m] d].
  destruct C as (M & D & E). unfold days_from_civil in E.
  set (y' := if m <=? 2 then y - 1 else y) in *.
  assert (Dm : days_in_month y m <= 31).
  { unfold days_in_month. repeat case_match; lia. }
  assert (P : 0 <= (153 * (if 2 <? m then m - 3 else m + 9) + 2) / 5 <= 337 /\
              (m <= 2 -> 306 <= (153 * (if 2 <? m then m - 3 else m + 9) + 2) / 5)).
  { destruct (2 <? m) eqn:E2; bool_hyps; Z.to_euclidean_division_equations; lia. }
  assert (A : y' = y /\ 2 < m \/ y' = y - 1 /\ m <= 2)
    by (unfold y'; destruct (m <=? 2) eqn:E2; bool_hyps; lia).
  clearbody y'. set (p := _ / 5) in *. clearbody p.
  assert (Q : y' = 400 * (y' / 400) + y' mod 400) by (apply Z.div_mod; lia).
  assert (Qb : 0 <= y' mod 400 < 400) by (apply Z.mod_pos_bound; lia).
  replace (y' - y' / 400 * 400) with (y' mod 400) in E by lia.
  set (q := y' / 400) in *. set (k := y' mod 400) in *. clearbody q k.
  Z.to_euclidean_division_equations. lia.
Qed.

(** ** The round trip *)

(** The times with a four-digit year after 1970. *)
Definition iso_range (t : Z) : Prop := 0 <= t < 253402300800000.

Lemma eat_head c s : eat c (String c EmptyString +:+ s) = Some s.
Proof. change (String c EmptyString +:+ s) with (String c s). cbn. by rewrite Ascii.eqb_refl. Qed.

Lemma parse_seconds_spec sec ms r :
  0 <= sec < 60 -> 0 <= ms < 1000 ->
  parse_seconds (":" +:+ two_digits sec +:+ "." +:+ three_digits ms +:+ "Z" +:+ r) =
    Some (sec * 1000 + ms, "Z" +:+ r).
Proof.
  intros S M. unfold parse_seconds. rewrite eat_head, digits_two by lia. cbn [mbind option_bind].
  rewrite (proj2 (Z.ltb_ge _ _)) by lia. rewrite eat_head.
  assert (D : digits 1 0 (three_digits ms +:+ "Z" +:+ r) =
              Some ((ms / 100) mod 10, two_digits ms +:+ "Z" +:+ r)).
  { unfold three_digits. rewrite string_app_assoc, digits_S. done. }
  rewrite D. cbn [mbind option_bind]. by rewrite fraction_three.
Qed.

(** [new Date(new Date(t).toISOString()).getTime() === t] *)
Lemma Date_parse_toISOString t : iso_range t -> Date_parse (toISOString t) = Some t.
Proof.
  intros R. unfold iso_range in R. unfold toISOString.
  assert (Dz : 0 <= t / 86400000 < 2932897).
  { split; [apply Z.div_pos; lia|apply Z.div_lt_upper_bound; lia]. }
  pose proof (civil_year _ Dz) as Y. pose proof (civil_spec _ (proj1 Dz)) as C.
  destruct (civil_from_days (t / 86400000)) as [[y mo] d]. destruct C as (M & D & E).
  assert (Dm : days_in_month y mo <= 31) by (unfold days_in_month; repeat case_match; lia).
  set (r := t mod 86400000). assert (Hr : 0 <= r < 86400000) by (apply Z.mod_pos_bound; lia).
  assert (Hh : 0 <= r / 3600000 < 24) by (split; [apply Z.div_pos; lia|apply Z.div_lt_upper_bound; lia]).
  assert (Hm : 0 <= r / 60000 mod 60 < 60) by (apply Z.mod_pos_bound; lia).
  assert (Hs : 0 <= r / 1000 mod 60 < 60) by (apply Z.mod_pos_bound; lia).
  assert (Hf : 0 <= r mod 1000 < 1000) by (apply Z.mod_pos_bound; lia).
  unfold Date_parse. rewrite digits_four by lia. cbn [mbind option_bind].
  do 2 (rewrite eat_head; cbn [mbind option_bind]; rewrite digits_two by lia; cbn [mbind option_bind]).
  do 2 (rewrite eat_head; cbn [mbind option_bind]; rewrite digits_two by lia; cbn [mbind option_bind]).
  change "Z" with ("Z" +:+ "") at 1. rewrite parse_seconds_spec by done. cbn [mbind option_bind].
  change (parse_zone ("Z" +:+ "")) with (Some 0). cbn [mbind option_bind].
  unfold in_range. rewrite !(proj2 (Z.leb_le _ _)) by lia. cbn [andb]. f_equal. rewrite E.
  pose proof (Z.div_mod t 86400000). fold r in H.
  clear - H Hr. Z.to_euclidean_division_equations. lia.
Qed.
