(* ===== verification/Keys.v ===== *)
(** * The Relay's keys

    relay/src/auth/keys.ts: the tokens the Relay issues to agents and to Nodes.
    [randomBytes] and the sha256 digest belong to node:crypto: the bytes drawn are
    an argument, the digest a parameter.  A [Buffer] that is stored is a string
    of bytes. *)

From Stdlib Require Import Ascii.
From S2P Require Import Prelude JsLib Json.
Local Open Scope Z_scope.

Class RelayCrypto := { sha256_digest : string -> string }.

Definition KEY_BYTES : Z := 20.
Definition BASE32_ALPHABET : string := "abcdefghijklmnopqrstuvwxyz234567".

Inductive KeyEnvironment := live | test.
Definition environment_text (e : KeyEnvironment) : string :=
  match e with live => "live" | test => "test" end.

Record GeneratedKey := { raw : string; hash : string; salt : string }.

(** The result of a bitwise operator: a signed 32-bit integer. *)
Definition to_int32 (z : Z) : Z :=
  let m := z mod 2 ^ 32 in if m <? 2 ^ 31 then m else m - 2 ^ 32.

(** [BASE32_ALPHABET[idx]] *)
Definition alphabet_at (idx : Z) : string :=
  match String.get (Z.to_nat idx) BASE32_ALPHABET with
  | Some c => String c EmptyString
  | None => "undefined"
  end.

(** [while (bits >= 5) { bits -= 5; ... }]: each turn takes five off [bits]. *)
Fixpoint drain (fuel : nat) (value bits : Z) (out : string) : Z * string :=
  match fuel with
  | O => (bits, out)
  | S fuel =>
      if 5 <=? bits
      then let bits := bits - 5 in
           drain fuel value bits (out +:+ alphabet_at (Z.land (Z.shiftr value bits) 31))
      else (bits, out)
  end.

Fixpoint base32_loop (bytes : list Z) (value bits : Z) (out : string) : Z * Z * string :=
  match bytes with
  | [] => (value, bits, out)
  | byte :: bytes =>
      let value := to_int32 (Z.lor (to_int32 (Z.shiftl value 8)) byte) in
      let bits := bits + 8 in
      let '(bits, out) := drain (Z.to_nat bits) value bits out in
      base32_loop bytes value bits out
  end.

Definition base32 (bytes : list Z) : string :=
  let '(value, bits, out) := base32_loop bytes 0 0 EmptyString in
  if 0 <? bits
  then out +:+ alphabet_at (Z.land (to_int32 (Z.shiftl value (5 - bits))) 31)
  else out.

(** ** Formats *)
Definition base32_char (c : Z) : bool := is_lower c || in_range 50 55 c.

(** What follows the prefix. *)
Fixpoint strip (p s : string) : option string :=
  match p, s with
  | EmptyString, _ => Some s
  | String a p, String b s => if Ascii.eqb a b then strip p s else None
  | _, EmptyString => None
  end.
Definition key_tail (s : string) : bool := (slen s =? 32) && all_chars base32_char s.
Definition key_of (prefix key : string) : bool :=
  match strip (prefix +:+ "_live_") key with
  | Some tail => key_tail tail
  | None => match strip (prefix +:+ "_test_") key with Some tail => key_tail tail | None => false end
  end.

Definition isWellFormedKey (key : string) : bool := key_of "ah" key.
Definition isWellFormedNodeKey (key : string) : bool := key_of "ar_node" key.

(** ** Keys *)
Fixpoint bytes_text (bytes : list Z) : string :=
  match bytes with
  | [] => EmptyString
  | b :: bytes => String (ascii_of_N (Z.to_N b)) (bytes_text bytes)
  end.

Definition hashKey `{RelayCrypto} (rawKey pepper : string) : string :=
  sha256_digest (pepper +:+ rawKey).

(** [drawn] are the bytes of the key, [salted] those of its salt. *)
Definition generatePrefixedKey `{RelayCrypto} (prefix : string) (env : KeyEnvironment)
    (pepper : string) (drawn salted : list Z) : GeneratedKey :=
  let raw := prefix +:+ "_" +:+ environment_text env +:+ "_" +:+ base32 drawn in
  {| raw := raw; hash := hashKey raw pepper; salt := bytes_text salted |}.
Definition generateKey `{RelayCrypto} := generatePrefixedKey "ah".
Definition generateNodeKey `{RelayCrypto} := generatePrefixedKey "ar_node".

(** [timingSafeEqual] of buffers of one length *)
Fixpoint timingSafeEqual (a b : string) : bool :=
  match a, b with
  | EmptyString, EmptyString => true
  | String x a, String y b => Ascii.eqb x y && timingSafeEqual a b
  | _, _ => false
  end.
Definition constantTimeEqual (a b : string) : bool :=
  if negb (slen a =? slen b) then false else timingSafeEqual a b.

(** ** What a key carries

    A generated key is well formed for its kind and for no other, and it carries
    every byte that was drawn for it. *)
Definition is_byte (b : Z) : Prop := 0 <= b < 256.

(** The number a base32 text writes, and the number the bytes write. *)
Fixpoint digit_in (s : string) (c : ascii) : Z :=
  match s with
  | EmptyString => 0
  | String a s => if Ascii.eqb a c then 0 else 1 + digit_in s c
  end.
Fixpoint decode (s : string) (acc : Z) : Z :=
  match s with
  | EmptyString => acc
  | String c s => decode s (32 * acc + digit_in BASE32_ALPHABET c)
  end.
Fixpoint number (bytes : list Z) (acc : Z) : Z :=
  match bytes with [] => acc | b :: bytes => number bytes (256 * acc + b) end.

(** ** Machine arithmetic *)
Lemma int32_mod z k : 0 <= k <= 31 -> to_int32 z mod 2 ^ k = z mod 2 ^ k.
Proof.
  intros K. unfold to_int32. assert (P : 2 ^ 32 = 2 ^ k * 2 ^ (32 - k)) by (rewrite <-Z.pow_add_r by lia; f_equal; lia).
  assert (M : (z mod 2 ^ 32) mod 2 ^ k = z mod 2 ^ k).
  { rewrite P. apply Z.mod_mod_divide. by exists (2 ^ (32 - k)); lia. }
  assert (0 < 2 ^ k) by (apply Z.pow_pos_nonneg; lia).
  cbv zeta. destruct (_ <? _); [done|]. rewrite <-M.
  replace (z mod 2 ^ 32 - 2 ^ 32) with (z mod 2 ^ 32 + - 2 ^ (32 - k) * 2 ^ k) by lia.
  by rewrite Z.mod_add by lia.
Qed.

Lemma lor_low a b : 0 <= b < 256 -> Z.lor (Z.shiftl a 8) b = 256 * a + b.
Proof.
  intros B. rewrite Z.shiftl_mul_pow2 by lia. change (2 ^ 8) with 256.
  pose proof (Z.add_lor_land (a * 256) b) as S. enough (Z.land (a * 256) b = 0) by lia. clear S.
  apply Z.bits_inj'. intros n Hn. rewrite Z.land_spec, Z.bits_0.
  change 256 with (2 ^ 8). destruct (Z_lt_le_dec n 8).
  - by rewrite Z.mul_pow2_bits_low.
  - assert (Z.testbit b n = false) as ->; [|apply andb_false_r].
    destruct (Z.eq_dec b 0) as [->|]; [apply Z.bits_0|]. apply Z.bits_above_log2; [lia|].
    assert (Z.log2 b < 8); [|lia]. apply Z.log2_lt_pow2; lia.
Qed.

(** One byte enters below the bits kept so far. *)
Lemma shift_in value bits byte :
  0 <= bits < 5 -> is_byte byte ->
  to_int32 (Z.lor (to_int32 (Z.shiftl value 8)) byte) mod 2 ^ (bits + 8) =
  256 * (value mod 2 ^ bits) + byte.
Proof.
  intros Hb By. unfold is_byte in By. rewrite int32_mod by lia.
  assert (P : 2 ^ (bits + 8) = 2 ^ bits * 256) by (by rewrite Z.pow_add_r by lia).
  assert (0 < 2 ^ bits) by (apply Z.pow_pos_nonneg; lia).
  assert (E : exists k, to_int32 (Z.shiftl value 8) = Z.shiftl (value + k * 2 ^ 24) 8).
  { unfold to_int32. rewrite !Z.shiftl_mul_pow2 by lia. change (2 ^ 8) with 256.
    change (2 ^ 32) with 4294967296. change (2 ^ 24) with 16777216.
    pose proof (Z.div_mod (value * 256) 4294967296 ltac:(lia)) as D. cbv zeta.
    destruct (_ <? _); [exists (- (value * 256 / 4294967296))|exists (- (value * 256 / 4294967296) - 1)];
      rewrite Z.shiftl_mul_pow2 by lia; change (2 ^ 8) with 256; lia. }
  destruct E as [k ->]. rewrite lor_low by lia. rewrite P.
  assert (Q : 2 ^ 24 = 2 ^ bits * 2 ^ (24 - bits)) by (rewrite <-Z.pow_add_r by lia; f_equal; lia).
  symmetry. apply Z.mod_unique with (q := value / 2 ^ bits + k * 2 ^ (24 - bits)).
  - pose proof (Z.mod_pos_bound value (2 ^ bits)). lia.
  - pose proof (Z.div_mod value (2 ^ bits)). rewrite Q. nia.
Qed.

(** ** Texts *)
Lemma decode_app a b acc : decode (a +:+ b) acc = decode b (decode a acc).
Proof. revert acc. induction a as [|c a IH]; intros acc; [done|]. apply IH. Qed.

Lemma alphabet_digit i :
  0 <= i < 32 -> exists c, alphabet_at i = String c EmptyString /\
    digit_in BASE32_ALPHABET c = i /\ base32_char (code c) = true.
Proof.
  intros Hi. unfold alphabet_at.
  assert (X : forall n, (n < 32)%nat -> match String.get n BASE32_ALPHABET with
    | Some c => (digit_in BASE32_ALPHABET c =? Z.of_nat n) && base32_char (code c)
    | None => false end = true).
  { intros n Hn. do 32 (destruct n as [|n]; [reflexivity|]). lia. }
  specialize (X (Z.to_nat i) ltac:(lia)). destruct (String.get _ _) as [c|]; [|done].
  bool_hyps. exists c. split_and!; [done|lia|done].
Qed.

(** What the loop keeps: [out] writes all the bits but the last [bits] of
    [value]. *)
Record carried (total count : Z) (value bits : Z) (out : string) : Prop := {
  ca_bits : 0 <= bits;
  ca_value : decode out 0 * 2 ^ bits + value mod 2 ^ bits = total;
  ca_length : 5 * slen out + bits = 8 * count;
  ca_chars : all_chars base32_char out = true
}.

Lemma take_digit total count value bits out :
  5 <= bits -> carried total count value bits out ->
  carried total count value (bits - 5)
    (out +:+ alphabet_at (Z.land (Z.shiftr value (bits - 5)) 31)).
Proof.
  intros B [_ V L C]. rewrite Z.shiftr_div_pow2 by lia. change 31 with (Z.ones 5).
  rewrite Z.land_ones by lia. set (q := value / 2 ^ (bits - 5)).
  assert (0 < 2 ^ (bits - 5)) by (apply Z.pow_pos_nonneg; lia).
  destruct (alphabet_digit (q mod 2 ^ 5)) as (c & -> & D & Ch).
  { apply (Z.mod_pos_bound q (2 ^ 5)). lia. }
  constructor; [lia| | |].
  - rewrite decode_app. cbn [decode]. rewrite D, <-V.
    assert (P : 2 ^ bits = 2 ^ (bits - 5) * 2 ^ 5) by (rewrite <-Z.pow_add_r by lia; f_equal; lia).
    rewrite P, Z.rem_mul_r by lia. fold q. change (2 ^ 5) with 32. lia.
  - rewrite slen_app. change (slen (String c EmptyString)) with 1. lia.
  - rewrite all_chars_app, C. cbn. by rewrite Ch.
Qed.

Lemma drain_ok fuel total count value bits out bits' out' :
  carried total count value bits out -> drain fuel value bits out = (bits', out') ->
  (Z.to_nat bits <= fuel)%nat -> carried total count value bits' out' /\ bits' < 5.
Proof.
  revert bits out. induction fuel as [|fuel IH]; intros bits out Ca E F; cbn in E.
  - injection E as <- <-. split; [done|]. destruct Ca. lia.
  - destruct (5 <=? bits) eqn:B.
    + apply IH in E; [done| |lia]. apply take_digit; [lia|done].
    + injection E as <- <-. split; [done|lia].
Qed.

Lemma base32_loop_ok bytes total count value bits out value' bits' out' :
  Forall is_byte bytes -> bits < 5 -> carried total count value bits out ->
  base32_loop bytes value bits out = (value', bits', out') ->
  carried (number bytes total) (count + len bytes) value' bits' out' /\ bits' < 5.
Proof.
  revert total count value bits out. induction bytes as [|b bytes IH]; intros total count value bits out Fb B Ca E; cbn in E.
  - injection E as <- <- <-. cbn. by rewrite len_nil, Z.add_0_r.
  - apply Forall_cons in Fb as [Hb Fb]. destruct (drain _ _ _ _) as [bits1 out1] eqn:D.
    destruct Ca as [Bn V L C]. eapply (drain_ok _ (256 * total + b) (count + 1)) in D as [Ca D]; [| |lia].
    + eapply IH in E; [|done..]. cbn [number]. rewrite len_cons.
      by replace (count + (1 + len bytes)) with (count + 1 + len bytes) by lia.
    + constructor; [lia| |lia|done]. rewrite shift_in by (done || lia).
      rewrite <-V, Z.pow_add_r by lia. change (2 ^ 8) with 256. lia.
Qed.

(** Twenty bytes leave no bit over. *)
Lemma base32_carries bytes :
  Forall is_byte bytes -> len bytes = KEY_BYTES ->
  key_tail (base32 bytes) = true /\ decode (base32 bytes) 0 = number bytes 0.
Proof.
  intros Fb L. unfold base32. destruct (base32_loop bytes 0 0 EmptyString) as [[value bits] out] eqn:E.
  apply (base32_loop_ok _ 0 0) in E as [[Bn V Le C] B]; [|done|lia|by constructor].
  rewrite L in Le. unfold KEY_BYTES in Le. assert (bits = 0) as -> by lia. cbn [Z.ltb Z.compare].
  rewrite Z.pow_0_r, Z.mod_1_r in V. unfold key_tail. rewrite C. split; [|lia].
  apply andb_true_iff. split; [lia|done].
Qed.

Lemma number_inj a b x y :
  Forall is_byte a -> Forall is_byte b -> length a = length b ->
  number a x = number b y -> a = b /\ x = y.
Proof.
  revert b x y. induction a as [|c a IH]; intros [|d b] x y Fa Fb L E; try done;
    cbn [number] in E.
  apply Forall_cons in Fa as [Hc Fa]. apply Forall_cons in Fb as [Hd Fb].
  apply IH in E as [-> E]; [|done|done|by injection L]. unfold is_byte in *. assert (c = d /\ x = y) as [-> ->] by lia. done.
Qed.

Lemma string_app_cons c (p s : string) : String c p +:+ s = String c (p +:+ s).
Proof. done. Qed.
Lemma strip_cons c p s : strip (String c p) (String c s) = strip p s.
Proof. cbn [strip]. by rewrite Ascii.eqb_refl. Qed.
Lemma strip_app p s : strip p (p +:+ s) = Some s.
Proof. induction p as [|c p IH]; [done|]. by rewrite string_app_cons, strip_cons. Qed.

Lemma key_of_other prefix env tail other :
  (forall s, strip (other +:+ "_live_") (prefix +:+ s) = None) ->
  (forall s, strip (other +:+ "_test_") (prefix +:+ s) = None) ->
  key_of other (prefix +:+ "_" +:+ environment_text env +:+ "_" +:+ tail) = false.
Proof. intros L T. unfold key_of. by rewrite L, T. Qed.

Lemma key_of_own prefix env tail :
  key_tail tail = true ->
  key_of prefix (prefix +:+ "_" +:+ environment_text env +:+ "_" +:+ tail) = true.
Proof.
  intros K. unfold key_of. destruct env; cbn [environment_text].
  - change ("_" +:+ "live" +:+ "_" +:+ tail) with ("_live_" +:+ tail). by rewrite <-string_app_assoc, strip_app.
  - change ("_" +:+ "test" +:+ "_" +:+ tail) with ("_test_" +:+ tail). rewrite <-string_app_assoc, strip_app.
    enough (strip (prefix +:+ "_live_") ((prefix +:+ "_test_") +:+ tail) = None) as -> by done.
    rewrite string_app_assoc. clear. induction prefix as [|c p IH]; [done|]. by rewrite !string_app_cons, strip_cons.
Qed.

Lemma token_tail prefix env env' (a b : string) :
  prefix +:+ "_" +:+ environment_text env +:+ "_" +:+ a =
  prefix +:+ "_" +:+ environment_text env' +:+ "_" +:+ b -> env = env' /\ a = b.
Proof.
  induction prefix as [|c p IH]; intros E.
  - destruct env, env'; by injection E.
  - rewrite !string_app_cons in E. injection E as E. by apply IH.
Qed.

(** C35: a generated Node token is accepted as a Node key and refused as an agent
    key (and conversely), so neither credential opens the other's routes; and two
    tokens are equal only if all the random bytes drawn for them are. *)
Theorem keys_carry_their_bytes `{RelayCrypto} env env' pepper pepper' drawn drawn' salted salted'
    (Hd : Forall is_byte drawn) (Hd' : Forall is_byte drawn')
    (Hl : len drawn = KEY_BYTES) (Hl' : len drawn' = KEY_BYTES) :
  let node := generateNodeKey env pepper drawn salted in
  let agent := generateKey env pepper drawn salted in
  let other := generateNodeKey env' pepper' drawn' salted' in
  isWellFormedNodeKey node.(raw) = true /\ isWellFormedKey node.(raw) = false /\
  isWellFormedKey agent.(raw) = true /\ isWellFormedNodeKey agent.(raw) = false /\
  (node.(raw) = other.(raw) -> env = env' /\ drawn = drawn').
Proof.
  cbv zeta. destruct (base32_carries drawn Hd Hl) as [T V].
  destruct (base32_carries drawn' Hd' Hl') as [_ V'].
  unfold isWellFormedNodeKey, isWellFormedKey, generateNodeKey, generateKey, generatePrefixedKey. cbn [raw].
  split_and!; try (by apply key_of_own); try (apply key_of_other; intros s; reflexivity).
  intros [-> E]%token_tail. rewrite E, V' in V. split; [done|].
  destruct (number_inj drawn drawn' 0 0 Hd Hd') as [-> _]; unfold len in *; [lia|done|done].
Qed.

Lemma keys_carry_their_bytes_witness :
  let crypto := {| sha256_digest s := s |} in
  let drawn := seqZ 100 20 in
  isWellFormedNodeKey (@generateNodeKey crypto live "pepper" drawn [1; 2]).(raw) = true /\
  (@generateNodeKey crypto live "pepper" drawn [1; 2]).(raw) =
  "ar_node_live_mrswmz3infvgw3dnnzxxa4lson2hk5tx".
Proof.
  intros crypto drawn. split; [|vm_compute; reflexivity].
  apply (@keys_carry_their_bytes crypto live live "pepper" "pepper" drawn drawn [1; 2] [1; 2]);
    [| |reflexivity|reflexivity]; apply Forall_forall; intros x Hx%elem_of_seqZ; unfold is_byte; lia.
Defined.
