(* ===== verification/LedgerStore.v ===== *)
(** * The Mission and delivery ledger's store

    The part of [relay/src/db/schema.ts] that the Mission and delivery services
    work on: the tables [nodes], [node_credentials], [api_keys],
    [workspace_bindings], [missions], [mission_participants], [mission_events],
    [node_deliveries] and [delivery_operation_receipts], with their checks, unique indexes and foreign
    keys, next to the tables of [RelayStore] they share (agents, blocks, audit).

    The conventions are those of [RelayStore].  Times are milliseconds, which is
    what [Date] keeps of a [timestamptz]; every reading of the database's wall
    clock is the next value of [clock_timestamp], and [txTime] is the start of the
    transaction.  The [set_updated_at] trigger stamps the rows of one statement
    with one reading.  [jsonb] columns hold the values the code writes to them. *)

From S2P Require Import Prelude JsLib Schemas RelayStore.
From S2P Require Mailbox.
From S2P Require Import MissionEvents MissionCoordinator DeliveryOperations.
Local Open Scope Z_scope.

(** ** Rows *)
Module Nodes.
Record Node := {
  id : string; agentId : string; name : string; status : BindingStatus;
  capabilities : list string; lastSeenAt : option Z; revokedAt : option Z;
  createdAt : Z; updatedAt : Z
}.
#[global] Instance Node_eta : Settable Node := fun n =>
  Build_Node (id n) (agentId n) (name n) (status n) (capabilities n) (lastSeenAt n) (revokedAt n)
    (createdAt n) (updatedAt n).
End Nodes.

Module NodeCredentials.
Record NodeCredential := {
  id : string; nodeId : string; keyHash : string; salt : string; label : option string;
  lastUsedAt : option Z; revokedAt : option Z; createdAt : Z
}.
#[global] Instance NodeCredential_eta : Settable NodeCredential := fun c =>
  Build_NodeCredential (id c) (nodeId c) (keyHash c) (salt c) (label c) (lastUsedAt c)
    (revokedAt c) (createdAt c).
End NodeCredentials.

Module ApiKeys.
Record ApiKey := {
  id : string; agentId : string; keyHash : string; salt : string; label : option string;
  lastUsedAt : option Z; revokedAt : option Z; createdAt : Z
}.
#[global] Instance ApiKey_eta : Settable ApiKey := fun k =>
  Build_ApiKey (id k) (agentId k) (keyHash k) (salt k) (label k) (lastUsedAt k) (revokedAt k)
    (createdAt k).
End ApiKeys.

Module WorkspaceBindings.
Record WorkspaceBinding := {
  id : string; nodeId : string; alias : string; repositoryUrl : string;
  allowedBaseRefs : list string; status : BindingStatus; revokedAt : option Z;
  createdAt : Z; updatedAt : Z
}.
#[global] Instance WorkspaceBinding_eta : Settable WorkspaceBinding := fun w =>
  Build_WorkspaceBinding (id w) (nodeId w) (alias w) (repositoryUrl w) (allowedBaseRefs w)
    (status w) (revokedAt w) (createdAt w) (updatedAt w).
End WorkspaceBindings.

Module Missions.
Record Mission := {
  id : string; createdByAgentId : string; coordinatorConfig : MissionCoordinatorConfig;
  state : MissionCoordinatorState; status : MissionStatus; lastEventSequence : Z;
  contractVersion : Z; expiresAt : Z; createdAt : Z; updatedAt : Z
}.
#[global] Instance Mission_eta : Settable Mission := fun m =>
  Build_Mission (id m) (createdByAgentId m) (coordinatorConfig m) (state m) (status m)
    (lastEventSequence m) (contractVersion m) (expiresAt m) (createdAt m) (updatedAt m).
End Missions.

Module MissionParticipants.
Record MissionParticipant := {
  missionId : string; agentId : string; nodeId : string; workspaceBindingId : string;
  role : string; status : MissionParticipantAcceptanceStatus; acceptedAt : option Z;
  acceptanceIdempotencyKey : option string;
  acceptanceReceipt : option MissionParticipantAcceptanceInput; createdAt : Z
}.
#[global] Instance MissionParticipant_eta : Settable MissionParticipant := fun p =>
  Build_MissionParticipant (missionId p) (agentId p) (nodeId p) (workspaceBindingId p) (role p)
    (status p) (acceptedAt p) (acceptanceIdempotencyKey p) (acceptanceReceipt p) (createdAt p).
End MissionParticipants.

Module MissionEventRows.
Inductive EventActor := agent | system.
#[global] Instance EventActor_eq_dec : EqDecision EventActor.
Proof. solve_decision. Defined.
(** [payload] is the part of the event its tag selects; [type] is that tag. *)
Record MissionEvent := {
  id : string; missionId : string; sequenceNo : Z; type : EventType; actorKind : EventActor;
  actorAgentId : option string; idempotencyKey : string; sourceDeliveryId : option string;
  causalParentEventId : option string; payload : EventBody; createdAt : Z
}.
End MissionEventRows.

Module NodeDeliveries.
Record NodeDelivery := {
  id : string; nodeId : string; missionId : string; missionEventId : string; kind : DeliveryKind;
  cursor : Z; status : DeliveryStatus; attemptCount : Z; maxAttempts : Z;
  lastFencingToken : string; activeLeaseId : option string; leaseExpiresAt : option Z;
  contractVersion : Z; verificationRound : option Z; idempotencyKey : string;
  causalParentDeliveryId : option string; settledByEventId : option string;
  settledAt : option Z; availableAt : Z; acknowledgedAt : option Z; cancelledAt : option Z;
  cancellationReason : option DeliveryCancellationReason; deadLetteredAt : option Z;
  createdAt : Z; updatedAt : Z
}.
#[global] Instance NodeDelivery_eta : Settable NodeDelivery := fun d =>
  Build_NodeDelivery (id d) (nodeId d) (missionId d) (missionEventId d) (kind d) (cursor d)
    (status d) (attemptCount d) (maxAttempts d) (lastFencingToken d) (activeLeaseId d)
    (leaseExpiresAt d) (contractVersion d) (verificationRound d) (idempotencyKey d)
    (causalParentDeliveryId d) (settledByEventId d) (settledAt d) (availableAt d)
    (acknowledgedAt d) (cancelledAt d) (cancellationReason d) (deadLetteredAt d)
    (createdAt d) (updatedAt d).
End NodeDeliveries.

Module Receipts.
Inductive Origin := node | relay.
Inductive Operation := claim | start | renew | complete | release | lease_expired | cancel.
#[global] Instance Origin_eq_dec : EqDecision Origin.
Proof. solve_decision. Defined.
#[global] Instance Operation_eq_dec : EqDecision Operation.
Proof. solve_decision. Defined.

(** The [input] column: a Node operation's delivery id and parsed input, whose
    optional parts depend on the operation, or what the relay records of its own
    operations. *)
Inductive Input :=
| NodeInput (delivery_id idempotency_key : string) (lease : option DeliveryLeaseAuthority)
    (payload : option NodeDeliveryResultPayload) (release : option DeliveryReleaseDetails)
| CancelInput (reason : DeliveryCancellationReason) (settled_by_event_id : string)
| ExpiredInput (lease_id fencing_token : string)
| RevocationInput (reason : DeliveryCancellationReason) (node_id : string)
    (revoked_node_ids : list string) (workspace_binding_id : option string)
    (status_before : DeliveryStatus) (prior_lease : option DeliveryLease).
#[global] Instance Input_eq_dec : EqDecision Input.
Proof. solve_decision. Defined.

(** The [output] column: the result a Node operation returned, or the delivery a
    relay operation left (for a revocation, the columns [cancelledOutput] picks). *)
Inductive Output :=
| ClaimOutput (r : DeliveryClaimResult)
| OperationOutput (r : DeliveryOperationResult)
| CompleteOutput (r : DeliveryCompleteResult)
| DeliveryOutput (d : Delivery)
| CancelledOutput (row : NodeDeliveries.NodeDelivery).

Record Receipt := {
  id : string; origin : Origin; nodeId : string; missionId : string; deliveryId : string;
  operation : Operation; idempotencyKey : string; credentialId : option string;
  attemptCount : Z; leaseId : option string; fencingToken : option string;
  leaseExpiresAt : option Z; statusBefore : DeliveryStatus; statusAfter : DeliveryStatus;
  cancellationReason : option DeliveryCancellationReason; input : Input; output : Output;
  recordedAt : Z
}.
End Receipts.

(** ** What the ledger takes from outside

    The wall clock's successive readings, the collation of [localeCompare], and
    the length of a [jsonb] value's text. *)
Class LedgerEnv := {
  clock_timestamp : nat -> Z;
  localeCompare : string -> string -> Z;
  input_octets : Receipts.Input -> Z;
  output_octets : Receipts.Output -> Z
}.

(** ** What a ledger operation throws *)
Inductive Failure :=
| Thrown (e : RelayStore.Thrown)
| Rejected                              (* a schema's [parse] *)
| CoordinatorFailed (e : CoordinatorError)
| RangeError                            (* [toISOString] of an invalid [Date] *)
| TypeFailure.                          (* a member of [undefined] *)

(** ** The store *)
Record LedgerTables := {
  nodes : list Nodes.Node;
  nodeCredentials : list NodeCredentials.NodeCredential;
  workspaceBindings : list WorkspaceBindings.WorkspaceBinding;
  missions : list Missions.Mission;
  missionParticipants : list MissionParticipants.MissionParticipant;
  missionEvents : list MissionEventRows.MissionEvent;
  nodeDeliveries : list NodeDeliveries.NodeDelivery;
  receipts : list Receipts.Receipt;
  apiKeys : list ApiKeys.ApiKey
}.
#[export] Instance LedgerTables_eta : Settable LedgerTables := fun t =>
  Build_LedgerTables (nodes t) (nodeCredentials t) (workspaceBindings t) (missions t)
    (missionParticipants t) (missionEvents t) (nodeDeliveries t) (receipts t) (apiKeys t).

(** [base] is the rest of the database; [ticks] counts the clock's readings;
    [deliverySeq] is the sequence behind [node_deliveries.cursor]. *)
Record Ledger `{RelayEnv} := {
  base : RelayStore.Store; ledger : LedgerTables; ticks : nat; txTime : Z; deliverySeq : Z
}.
#[export] Instance Ledger_eta `{RelayEnv} : Settable Ledger := fun s =>
  Build_Ledger _ (base s) (ledger s) (ticks s) (txTime s) (deliverySeq s).

(** ** Transactions *)
Section Transactions.
Context `{RelayEnv, LedgerEnv}.

Definition LTx (A : Type) : Type := Ledger -> result Failure A * Ledger.
#[export] Instance LTx_ret : MRet LTx := fun A a s => (Ok a, s).
#[export] Instance LTx_bind : MBind LTx := fun A B k m s =>
  match m s with (Ok a, s') => k a s' | (Err e, s') => (Err e, s') end.

Definition fail_with {A} (e : Failure) : LTx A := fun s => (Err e, s).
Definition relay_fail {A} (c : ErrorSymbol) (m : string) : LTx A :=
  fail_with (Thrown (Relay {| code := c; message := m |})).
Definition fail_if (b : bool) (c : ErrorSymbol) (m : string) : LTx unit :=
  if b then relay_fail c m else mret tt.
Definition fetch {A} (q : LedgerTables -> A) : LTx A := fun s => (Ok (q (ledger s)), s).
Definition put (f : LedgerTables -> LedgerTables) : LTx unit :=
  fun s => (Ok tt, s <| ledger := f (ledger s) |>).

(** [schema.parse(value)] on a value the model writes with the schema's type. *)
Definition parse {A} (schema : A -> bool) (a : A) : LTx A :=
  if schema a then mret a else fail_with Rejected.

Definition of_result {A} (r : result Failure A) : LTx A := fun s => (r, s).
Definition coordinate {A} (r : result CoordinatorError A) : LTx A :=
  of_result (match r with Ok a => Ok a | Err e => Err (CoordinatorFailed e) end).

(** A statement on the tables of [RelayStore]. *)
Definition lift {A} (m : Tx A) : LTx A := fun s =>
  match m (base s) with
  | (Ok a, b) => (Ok a, s <| base := b |>)
  | (Err e, b) => (Err (Thrown e), s <| base := b |>)
  end.
Definition read_base {A} (q : Tables -> A) : LTx A := lift (select q).
Definition take_lock (l : Lock) : LTx unit := lift (lock l).
(** [gen_random_uuid()] and [randomUUID()] draw from one stream. *)
Definition randomUUID : LTx string := lift draw_uuid.

Definition wall_clock : LTx Z :=
  fun s => (Ok (clock_timestamp (ticks s)), s <| ticks := S (ticks s) |>).
Definition tx_now : LTx Z := fun s => (Ok (txTime s), s).

Definition next_delivery_cursor : LTx Z := fun s =>
  if deliverySeq s <? max_bigint
  then (Ok (deliverySeq s + 1), s <| deliverySeq := deliverySeq s + 1 |>)
  else (Err (Thrown (Constraint "node_deliveries_cursor_seq")), s).

(** The first constraint that does not hold is the one reported. *)
Definition check_all (checks : list (bool * string)) : LTx unit :=
  match array_find (fun c => negb c.1) checks with
  | Some (_, name) => fail_with (Thrown (Constraint name))
  | None => mret tt
  end.

(** [db.transaction(body)] *)
Definition begin_tx (s : Ledger) : Ledger :=
  s <| base := (base s) <| held := [] |> |> <| txTime := clock_timestamp (ticks s) |>
    <| ticks := S (ticks s) |>.
Definition ledger_transaction {A} (body : LTx A) : LTx A := fun s =>
  match body (begin_tx s) with
  | (Ok a, s') => (Ok a, s' <| base := (base s') <| held := [] |> |>)
  | (Err e, s') =>
      (Err e, s' <| base := (base s') <| held := [] |> <| tables := tables (base s) |> |>
                 <| ledger := ledger s |>)
  end.

(** [for (const x of l) await body(x)], collecting what [body] returns. *)
Fixpoint for_each {A B} (body : A -> LTx B) (l : list A) : LTx (list B) :=
  match l with
  | [] => mret []
  | x :: l => y ← body x; ys ← for_each body l; mret (y :: ys)
  end.

(** ** Constraints *)
Definition member {A} (f : A -> bool) (l : list A) : bool := some f l.
Definition node_owned (t : LedgerTables) (nodeId agentId : string) : bool :=
  some (fun n => (Nodes.id n === nodeId) && (Nodes.agentId n === agentId)) (nodes t).
Definition binding_of (t : LedgerTables) (bindingId nodeId : string) : bool :=
  some (fun w => (WorkspaceBindings.id w === bindingId) &&
                 (WorkspaceBindings.nodeId w === nodeId)) (workspaceBindings t).
Definition participant_agent (t : LedgerTables) (missionId agentId : string) : bool :=
  some (fun p => (MissionParticipants.missionId p === missionId) &&
                 (MissionParticipants.agentId p === agentId)) (missionParticipants t).
Definition participant_node (t : LedgerTables) (missionId nodeId : string) : bool :=
  some (fun p => (MissionParticipants.missionId p === missionId) &&
                 (MissionParticipants.nodeId p === nodeId)) (missionParticipants t).
Definition event_of (t : LedgerTables) (missionId eventId : string) : bool :=
  some (fun e => (MissionEventRows.missionId e === missionId) &&
                 (MissionEventRows.id e === eventId)) (missionEvents t).
Definition delivery_of (t : LedgerTables) (nodeId missionId deliveryId : string) : bool :=
  some (fun d => (NodeDeliveries.nodeId d === nodeId) &&
                 (NodeDeliveries.missionId d === missionId) &&
                 (NodeDeliveries.id d === deliveryId)) (nodeDeliveries t).
Definition credential_of (t : LedgerTables) (credentialId nodeId : string) : bool :=
  some (fun c => (NodeCredentials.id c === credentialId) &&
                 (NodeCredentials.nodeId c === nodeId)) (nodeCredentials t).
Definition fk {A} (p : A -> bool) (o : option A) : bool :=
  match o with None => true | Some a => p a end.

(** *** [missions] *)
Definition mission_checks (m : Missions.Mission) : list (bool * string) :=
  [(0 <=? Missions.lastEventSequence m, "missions_sequence_chk");
   (0 <? Missions.contractVersion m, "missions_contract_version_chk")].

Definition insert_mission (id createdByAgentId : string) (config : MissionCoordinatorConfig)
    (state : MissionCoordinatorState) (expiresAt : Z) : LTx unit :=
  now ← tx_now;
  t ← fetch (fun t => t);
  known ← read_base (fun b => agent_exists b createdByAgentId);
  let row := {|
    Missions.id := id; Missions.createdByAgentId := createdByAgentId;
    Missions.coordinatorConfig := config; Missions.state := state;
    Missions.status := MissionEvents.status state;
    Missions.lastEventSequence := sequence_no state;
    Missions.contractVersion := contract_version state; Missions.expiresAt := expiresAt;
    Missions.createdAt := now; Missions.updatedAt := now |} in
  _ ← check_all (mission_checks row ++
    [(negb (some (fun m => Missions.id m === id) (missions t)), "missions_pkey");
     (known, "missions_created_by_agent_id_agents_id_fk")]);
  put (fun t => t <| missions := missions t ++ [row] |>).

(** [UPDATE missions SET state, status, last_event_sequence, contract_version]:
    the projection of the coordinator's state. *)
Definition project (state : MissionCoordinatorState) (now : Z) (m : Missions.Mission)
    : Missions.Mission :=
  m <| Missions.state := state |> <| Missions.status := MissionEvents.status state |>
    <| Missions.lastEventSequence := sequence_no state |>
    <| Missions.contractVersion := contract_version state |> <| Missions.updatedAt := now |>.
Definition update_mission (id : string) (state : MissionCoordinatorState) : LTx unit :=
  now ← wall_clock;
  rows ← fetch (fun t => array_filter (fun m => Missions.id m === id) (missions t));
  _ ← check_all (concat (map (fun m => mission_checks (project state now m)) rows));
  put (fun t => t <| missions :=
    map (fun m => if Missions.id m === id then project state now m else m) (missions t) |>).

(** *** [mission_participants] *)
Definition insert_participant (missionId agentId nodeId workspaceBindingId role : string)
    : LTx unit :=
  now ← tx_now;
  t ← fetch (fun t => t);
  known ← read_base (fun b => agent_exists b agentId);
  _ ← check_all
    [(negb (participant_agent t missionId agentId), "mission_participants_pkey");
     (negb (participant_node t missionId nodeId), "idx_mission_participants_mission_node");
     (some (fun m => Missions.id m === missionId) (missions t),
      "mission_participants_mission_id_missions_id_fk");
     (known, "mission_participants_agent_id_agents_id_fk");
     (node_owned t nodeId agentId, "mission_participants_node_owner_fk");
     (binding_of t workspaceBindingId nodeId, "mission_participants_binding_node_fk")];
  put (fun t => t <| missionParticipants := missionParticipants t ++ [{|
    MissionParticipants.missionId := missionId; MissionParticipants.agentId := agentId;
    MissionParticipants.nodeId := nodeId;
    MissionParticipants.workspaceBindingId := workspaceBindingId;
    MissionParticipants.role := role; MissionParticipants.status := AS_pending;
    MissionParticipants.acceptedAt := None; MissionParticipants.acceptanceIdempotencyKey := None;
    MissionParticipants.acceptanceReceipt := None; MissionParticipants.createdAt := now |}] |>).

(** The update of an acceptance: [mission_participants_accepted_at_chk] holds of
    the row it writes. *)
Definition accepted_by (acceptance : MissionParticipantAcceptanceInput) (acceptedAt : Z)
    (p : MissionParticipants.MissionParticipant) : MissionParticipants.MissionParticipant :=
  p <| MissionParticipants.status := AS_accepted |>
    <| MissionParticipants.acceptedAt := Some acceptedAt |>
    <| MissionParticipants.acceptanceIdempotencyKey := Some acceptance.(acc_idempotency_key) |>
    <| MissionParticipants.acceptanceReceipt := Some acceptance |>.
Definition acceptance_key (missionId : string) (p : MissionParticipants.MissionParticipant)
    : option string :=
  if MissionParticipants.missionId p === missionId
  then MissionParticipants.acceptanceIdempotencyKey p else None.
Definition update_participants (missionId : string)
    (p : MissionParticipants.MissionParticipant -> bool)
    (g : MissionParticipants.MissionParticipant -> MissionParticipants.MissionParticipant)
    : LTx (list MissionParticipants.MissionParticipant) :=
  t ← fetch (fun t => t);
  let all := map (fun r => if p r then g r else r) (missionParticipants t) in
  _ ← check_all [(unique_values (omap (acceptance_key missionId) all),
                  "idx_mission_participants_acceptance_idempotency")];
  _ ← put (fun t => t <| missionParticipants := all |>);
  mret (map g (array_filter p (missionParticipants t))).

(** *** [mission_events] *)
Definition event_checks (e : MissionEventRows.MissionEvent) : list (bool * string) :=
  let terminal := MissionEventRows.type e === ET_mission_terminal in
  let by_system := MissionEventRows.actorKind e === MissionEventRows.system in
  [(Bool.eqb by_system (is_null (MissionEventRows.actorAgentId e)),
    "mission_events_actor_identity_chk");
   (Bool.eqb terminal by_system, "mission_events_actor_event_chk");
   (0 <? MissionEventRows.sequenceNo e, "mission_events_sequence_chk")].

Definition insert_event (row : MissionEventRows.MissionEvent) : LTx unit :=
  t ← fetch (fun t => t);
  let missionId := MissionEventRows.missionId row in
  let same := array_filter (fun e => MissionEventRows.missionId e === missionId)
                (missionEvents t) in
  _ ← check_all (event_checks row ++
    [(negb (some (fun e => MissionEventRows.id e === MissionEventRows.id row) (missionEvents t)),
      "mission_events_pkey");
     (negb (some (fun e => MissionEventRows.sequenceNo e === MissionEventRows.sequenceNo row) same),
      "idx_mission_events_sequence");
     (negb (some (fun e => MissionEventRows.idempotencyKey e ===
                           MissionEventRows.idempotencyKey row) same),
      "idx_mission_events_idempotency");
     (some (fun m => Missions.id m === missionId) (missions t),
      "mission_events_mission_id_missions_id_fk");
     (fk (event_of t missionId) (MissionEventRows.causalParentEventId row),
      "mission_events_causal_parent_fk");
     (fk (participant_agent t missionId) (MissionEventRows.actorAgentId row),
      "mission_events_actor_participant_fk")]);
  put (fun t => t <| missionEvents := missionEvents t ++ [row] |>).

(** *** [node_deliveries] *)
Definition delivery_checks (d : NodeDeliveries.NodeDelivery) : list (bool * string) :=
  let status := NodeDeliveries.status d in
  let attempts := NodeDeliveries.attemptCount d in
  let leased := needsLease status in
  [(Bool.eqb (NodeDeliveries.kind d === K_verification)
             (non_null (NodeDeliveries.verificationRound d)) &&
    nullable (fun n => 0 <? n) (NodeDeliveries.verificationRound d),
    "node_deliveries_verification_round_chk");
   ((0 <=? attempts) && (1 <=? NodeDeliveries.maxAttempts d) &&
    (NodeDeliveries.maxAttempts d <=? 100) && (attempts <=? NodeDeliveries.maxAttempts d),
    "node_deliveries_attempt_chk");
   (NodeDeliveries.lastFencingToken d === string_of_int attempts,
    "node_deliveries_fencing_token_chk");
   ((status !== D_stored) || non_null (NodeDeliveries.settledByEventId d) ||
    (attempts <? NodeDeliveries.maxAttempts d), "node_deliveries_stored_capacity_chk");
   (Bool.eqb leased (non_null (NodeDeliveries.activeLeaseId d)) &&
    Bool.eqb leased (non_null (NodeDeliveries.leaseExpiresAt d)) &&
    (negb leased || (0 <? attempts)), "node_deliveries_lease_chk");
   (Bool.eqb (status === D_acknowledged) (non_null (NodeDeliveries.acknowledgedAt d)) &&
    ((status !== D_acknowledged) ||
     ((0 <? attempts) && non_null (NodeDeliveries.settledByEventId d))),
    "node_deliveries_acknowledged_at_chk");
   (Bool.eqb (status === D_cancelled) (non_null (NodeDeliveries.cancelledAt d)) &&
    Bool.eqb (status === D_cancelled) (non_null (NodeDeliveries.cancellationReason d)),
    "node_deliveries_cancelled_at_chk");
   (Bool.eqb (status === D_dead_lettered) (non_null (NodeDeliveries.deadLetteredAt d)),
    "node_deliveries_dead_lettered_at_chk");
   (Bool.eqb (non_null (NodeDeliveries.settledByEventId d)) (non_null (NodeDeliveries.settledAt d)),
    "node_deliveries_settlement_chk")].

Definition delivery_settlement_fk (t : LedgerTables) (d : NodeDeliveries.NodeDelivery)
    : bool * string :=
  (fk (event_of t (NodeDeliveries.missionId d)) (NodeDeliveries.settledByEventId d),
   "node_deliveries_settlement_event_mission_fk").

Definition insert_delivery (nodeId missionId missionEventId : string) (kind : DeliveryKind)
    (contractVersion : Z) (verificationRound : option Z) (idempotencyKey : string)
    (causalParentDeliveryId : option string) : LTx NodeDeliveries.NodeDelivery :=
  id ← randomUUID;
  cursor ← next_delivery_cursor;
  now ← tx_now;
  t ← fetch (fun t => t);
  let row := {|
    NodeDeliveries.id := id; NodeDeliveries.nodeId := nodeId;
    NodeDeliveries.missionId := missionId; NodeDeliveries.missionEventId := missionEventId;
    NodeDeliveries.kind := kind; NodeDeliveries.cursor := cursor;
    NodeDeliveries.status := D_stored; NodeDeliveries.attemptCount := 0;
    NodeDeliveries.maxAttempts := 5; NodeDeliveries.lastFencingToken := "0";
    NodeDeliveries.activeLeaseId := None; NodeDeliveries.leaseExpiresAt := None;
    NodeDeliveries.contractVersion := contractVersion;
    NodeDeliveries.verificationRound := verificationRound;
    NodeDeliveries.idempotencyKey := idempotencyKey;
    NodeDeliveries.causalParentDeliveryId := causalParentDeliveryId;
    NodeDeliveries.settledByEventId := None; NodeDeliveries.settledAt := None;
    NodeDeliveries.availableAt := now; NodeDeliveries.acknowledgedAt := None;
    NodeDeliveries.cancelledAt := None; NodeDeliveries.cancellationReason := None;
    NodeDeliveries.deadLetteredAt := None; NodeDeliveries.createdAt := now;
    NodeDeliveries.updatedAt := now |} in
  let taken := fun p => some p (nodeDeliveries t) in
  _ ← check_all (delivery_checks row ++
    [(negb (taken (fun d => NodeDeliveries.id d === id)), "node_deliveries_pkey");
     (negb (taken (fun d => NodeDeliveries.cursor d === cursor)), "idx_node_deliveries_cursor");
     (negb (taken (fun d => (NodeDeliveries.nodeId d === nodeId) &&
                            (NodeDeliveries.missionEventId d === missionEventId) &&
                            (NodeDeliveries.kind d === kind))), "idx_node_deliveries_event_kind");
     (negb (taken (fun d => (NodeDeliveries.nodeId d === nodeId) &&
                            (NodeDeliveries.idempotencyKey d === idempotencyKey))),
      "idx_node_deliveries_idempotency");
     (some (fun n => Nodes.id n === nodeId) (nodes t), "node_deliveries_node_id_nodes_id_fk");
     (some (fun m => Missions.id m === missionId) (missions t),
      "node_deliveries_mission_id_missions_id_fk");
     (fk (delivery_of t nodeId missionId) causalParentDeliveryId,
      "node_deliveries_causal_parent_fk");
     (event_of t missionId missionEventId, "node_deliveries_event_mission_fk");
     (participant_node t missionId nodeId, "node_deliveries_participant_node_fk")]);
  _ ← put (fun t => t <| nodeDeliveries := nodeDeliveries t ++ [row] |>);
  mret row.

(** [UPDATE node_deliveries SET ... WHERE ... RETURNING] *)
Definition update_deliveries (p : NodeDeliveries.NodeDelivery -> bool)
    (g : NodeDeliveries.NodeDelivery -> NodeDeliveries.NodeDelivery)
    : LTx (list NodeDeliveries.NodeDelivery) :=
  now ← wall_clock;
  t ← fetch (fun t => t);
  let stamp d := (g d) <| NodeDeliveries.updatedAt := now |> in
  let updated := map stamp (array_filter p (nodeDeliveries t)) in
  let all := map (fun d => if p d then stamp d else d) (nodeDeliveries t) in
  _ ← check_all (concat (map delivery_checks updated) ++
    map (delivery_settlement_fk t) updated ++
    [(unique_values (omap NodeDeliveries.activeLeaseId all), "idx_node_deliveries_active_lease")]);
  _ ← put (fun t => t <| nodeDeliveries := all |>);
  mret updated.

(** [const [row] = await tx.update(...).returning(); if (!row) throw] *)
Definition update_one (p : NodeDeliveries.NodeDelivery -> bool)
    (g : NodeDeliveries.NodeDelivery -> NodeDeliveries.NodeDelivery)
    (c : ErrorSymbol) (m : string) : LTx NodeDeliveries.NodeDelivery :=
  rows ← update_deliveries p g;
  match rows with [] => relay_fail c m | row :: _ => mret row end.

(** *** [delivery_operation_receipts] *)
Definition receipt_transition (r : Receipts.Receipt) : bool :=
  let before := Receipts.statusBefore r in
  let after := Receipts.statusAfter r in
  match Receipts.operation r with
  | Receipts.claim => ((before === D_stored) && (after === D_leased)) ||
                      (needsLease before && (after === D_dead_lettered))
  | Receipts.start => (before === D_leased) && (after === D_executing)
  | Receipts.renew => needsLease before && (after === before)
  | Receipts.complete => (before === D_executing) && (after === D_acknowledged)
  | Receipts.release | Receipts.lease_expired =>
      needsLease before && ((after === D_stored) || (after === D_dead_lettered))
  | Receipts.cancel => ((before === D_stored) || needsLease before) && (after === D_cancelled)
  end.

Definition node_operation (o : Receipts.Operation) : bool :=
  match o with Receipts.lease_expired | Receipts.cancel => false | _ => true end.

Definition receipt_checks (r : Receipts.Receipt) : list (bool * string) :=
  let operation := Receipts.operation r in
  let by_node := Receipts.origin r === Receipts.node in
  let no_lease := is_null (Receipts.leaseId r) in
  let dead_letter_claim := (operation === Receipts.claim) &&
                           (Receipts.statusAfter r === D_dead_lettered) in
  [(in_range 1 128 (utf8_length (Receipts.idempotencyKey r)),
    "delivery_operation_receipts_idempotency_key_chk");
   (in_range 0 100 (Receipts.attemptCount r) &&
    ((operation === Receipts.cancel) || (0 <? Receipts.attemptCount r)),
    "delivery_operation_receipts_attempt_chk");
   (fk (fun token => token === string_of_int (Receipts.attemptCount r)) (Receipts.fencingToken r),
    "delivery_operation_receipts_fencing_token_chk");
   (Bool.eqb no_lease (is_null (Receipts.fencingToken r)) &&
    Bool.eqb no_lease (is_null (Receipts.leaseExpiresAt r)) &&
    (negb by_node || negb no_lease || dead_letter_claim),
    "delivery_operation_receipts_lease_chk");
   (Bool.eqb by_node (non_null (Receipts.credentialId r)),
    "delivery_operation_receipts_origin_credential_chk");
   (Bool.eqb by_node (node_operation operation), "delivery_operation_receipts_origin_operation_chk");
   (receipt_transition r, "delivery_operation_receipts_transition_chk");
   (Bool.eqb (operation === Receipts.cancel) (non_null (Receipts.cancellationReason r)),
    "delivery_operation_receipts_cancellation_chk");
   ((negb (node_operation operation) || dead_letter_claim ||
     fk (fun x => Receipts.recordedAt r <? x) (Receipts.leaseExpiresAt r)) &&
    ((operation !== Receipts.lease_expired) ||
     fk (fun x => x <=? Receipts.recordedAt r) (Receipts.leaseExpiresAt r)),
    "delivery_operation_receipts_deadline_chk");
   (input_octets (Receipts.input r) <=? 1048576, "delivery_operation_receipts_input_chk");
   (output_octets (Receipts.output r) <=? 1048576, "delivery_operation_receipts_output_chk")].

(** The key of an index over the rows that meet its [WHERE]. *)
Definition claim_attempt (r : Receipts.Receipt) : option (string * Z) :=
  if (Receipts.operation r === Receipts.claim) && (Receipts.statusAfter r === D_leased)
  then Some (Receipts.deliveryId r, Receipts.attemptCount r) else None.
Definition claim_lease (r : Receipts.Receipt) : option string :=
  if Receipts.operation r === Receipts.claim then Receipts.leaseId r else None.

Definition insert_receipt (row : Receipts.Receipt) : LTx unit :=
  t ← fetch (fun t => t);
  let taken := fun p => some p (receipts t) in
  _ ← check_all (receipt_checks row ++
    [(negb (taken (fun r => Receipts.id r === Receipts.id row)),
      "delivery_operation_receipts_pkey");
     (negb (taken (fun r => (Receipts.origin r === Receipts.origin row) &&
                            (Receipts.nodeId r === Receipts.nodeId row) &&
                            (Receipts.idempotencyKey r === Receipts.idempotencyKey row))),
      "idx_delivery_operation_receipts_node_idempotency");
     (is_null (claim_attempt row) || negb (taken (fun r => claim_attempt r === claim_attempt row)),
      "idx_delivery_operation_receipts_claim_attempt");
     (is_null (claim_lease row) || negb (taken (fun r => claim_lease r === claim_lease row)),
      "idx_delivery_operation_receipts_claim_lease");
     (delivery_of t (Receipts.nodeId row) (Receipts.missionId row) (Receipts.deliveryId row),
      "delivery_operation_receipts_delivery_owner_fk");
     (fk (fun c => credential_of t c (Receipts.nodeId row)) (Receipts.credentialId row),
      "delivery_operation_receipts_credential_node_fk")]);
  put (fun t => t <| receipts := receipts t ++ [row] |>).

(** *** [audit_log] *)
Definition audit (actorKind actorId : option string) (action resourceType resourceId : string)
    (metadata : list (string * AuditLog.AuditValue)) (requestId : option string) : LTx unit :=
  now ← tx_now;
  lift (Mailbox.writeAudit now {|
    Mailbox.actorKind := actorKind; Mailbox.actorId := actorId; Mailbox.action := action;
    Mailbox.resourceType := resourceType; Mailbox.resourceId := resourceId;
    Mailbox.metadata := Some metadata; Mailbox.requestId := requestId |}).
End Transactions.
