(* ===== verification/MissionLedger.v ===== *)
(** * The Mission ledger

    relay/src/services/mission-ledger.ts.  A Mission's events are rows of
    [mission_events]; [missions.state] is the projection the coordinator computes
    from them.  [appendMissionEventInTransaction] replays the stored events,
    checks the projection, reduces the new event, settles the delivery it
    answers, and stores the deliveries the new state calls for.  Creation,
    acceptance and the stored page are here as well, and before them what they ask of
    services/mission-trust.ts and services/node-enrollment.ts: who may work with whom,
    and the credential of a Node. *)

From S2P Require Import Prelude JsLib Schemas RelayStore Mailbox.
From S2P Require Import MissionEvents MissionCoordinator DeliveryOperations.
From S2P Require Import LedgerStore.
Local Open Scope Z_scope.

Record NodeCredentialContext := {
  auth_nodeId : string; auth_agentId : string; auth_credentialId : string;
  auth_requestId : option string }.

Section Trust.
Context `{RelayEnv, LedgerEnv}.

(** ** The trust boundary *)
Fixpoint directed_pairs (ids : list string) : list (string * string) :=
  match ids with
  | [] => []
  | id :: rest =>
      concat (map (fun other => [(id, other); (other, id)]) rest) ++ directed_pairs rest
  end.
Definition pair_key (p : string * string) : string := p.1 +:+ ":" +:+ p.2.

Definition blocked_within (ids : list string) (t : Tables) : bool :=
  some (fun b => includes ids (AgentBlocks.blockerId b) && includes ids (AgentBlocks.blockedId b))
    (agentBlocks t).

Definition assertMissionTrustBoundary (principalIds : list string) : LTx unit :=
  let ids := sort_strings (distinct principalIds) in
  let pairs := sort_by (fun a b => localeCompare (pair_key a) (pair_key b)) (directed_pairs ids) in
  _ ← for_each (fun p => lift (lockAgentBlockPair p.1 p.2)) pairs;
  if len ids <? 2 then mret tt else
  blocked ← read_base (blocked_within ids);
  fail_if blocked teammate_blocked "Mission participants must remain mutually unblocked".

(** ** Node authority *)
Definition lock_key (key : string) : LTx unit := take_lock (AdvisoryLock key).
Definition lockNodeMutation (nodeId : string) : LTx unit := lock_key ("node:" +:+ nodeId).
Definition lockAgentLifecycle (agentId : string) : LTx unit :=
  lock_key ("agent-lifecycle:" +:+ agentId).

Definition active_agent (b : Tables) (agentId : string) : bool :=
  some (fun a => (Agents.id a === agentId) && (Agents.status a === Agents.active)) (agents b).

Definition credential_authorizes (t : LedgerTables) (b : Tables) (auth : NodeCredentialContext)
    : bool :=
  some (fun c =>
    (NodeCredentials.id c === auth.(auth_credentialId)) &&
    (NodeCredentials.nodeId c === auth.(auth_nodeId)) && is_null (NodeCredentials.revokedAt c) &&
    some (fun n => (Nodes.id n === NodeCredentials.nodeId c) &&
                   (Nodes.agentId n === auth.(auth_agentId)) && (Nodes.status n === S_active) &&
                   active_agent b (Nodes.agentId n)) (nodes t))
    (nodeCredentials t).

Definition assertActiveNodeCredential (auth : NodeCredentialContext) : LTx unit :=
  b ← read_base (fun b => b);
  authorized ← fetch (fun t => credential_authorizes t b auth);
  fail_if (negb authorized) unauthenticated "Node credential no longer authorizes this operation".
End Trust.

(** ** The ledger *)

Record SourceDeliveryAuthorization := {
  sa_status : DeliveryStatus; sa_nodeId : option string; sa_leaseId : option string;
  sa_fencingToken : option string }.

Record AppendMissionEventResult := {
  ap_event : MissionCoordinatorEvent; ap_deliveryIds : list string;
  ap_state : MissionCoordinatorState; ap_replayed : bool }.

Record AppendInput := {
  in_actorAgentId : string; in_appendInput : MissionCoordinatorAppendInput;
  in_requestId : option string; in_allowDerivedAcceptance : bool;
  in_sourceAuthorization : option SourceDeliveryAuthorization; in_recordedAt : option Z }.

Record DeliveryTarget := {
  tg_agentId : string; tg_kind : DeliveryKind; tg_contractVersion : Z;
  tg_verificationRound : option Z }.
#[export] Instance DeliveryTarget_eq_dec : EqDecision DeliveryTarget.
Proof. solve_decision. Defined.

(** The [delivery_id] of a participant's event. *)
Definition body_source (b : EventBody) : option string := snd <$> body_participant b.
Definition is_accepted_body (b : EventBody) : bool :=
  match b with ParticipantsAccepted _ => true | _ => false end.
Definition body_tag (b : EventBody) : EventType :=
  match b with
  | ParticipantsAccepted _ => ET_participants_accepted
  | TurnCompleted _ => ET_turn_completed
  | ContractAcknowledged _ => ET_contract_acknowledged
  | VerificationRecorded _ => ET_verification_recorded
  | MissionTerminal _ => ET_mission_terminal
  end.

(** ** Rows to values *)
Definition event_of_row (row : MissionEventRows.MissionEvent) : MissionCoordinatorEvent := {|
  envelope := {|
    env_event_id := MissionEventRows.id row;
    env_idempotency_key := MissionEventRows.idempotencyKey row;
    env_mission_id := MissionEventRows.missionId row;
    env_sequence_no := MissionEventRows.sequenceNo row;
    env_created_at := toISOString (MissionEventRows.createdAt row) |};
  body := MissionEventRows.payload row |}.

(** A payload that does not have the shape [row.type] selects is rejected. *)
Definition eventFromRow `{Zod} (row : MissionEventRows.MissionEvent)
    : result Failure MissionCoordinatorEvent :=
  if (body_tag (MissionEventRows.payload row) === MissionEventRows.type row) &&
     missionCoordinatorEventSchema (event_of_row row)
  then Ok (event_of_row row) else Err Rejected.

Fixpoint eventsFromRows `{Zod} (rows : list MissionEventRows.MissionEvent)
    : result Failure (list MissionCoordinatorEvent) :=
  match rows with
  | [] => Ok []
  | row :: rows =>
      let* event := eventFromRow row in
      let* events := eventsFromRows rows in
      Ok (event :: events)
  end.

Definition delivery_of_row (row : NodeDeliveries.NodeDelivery) : Delivery := {|
  d_delivery_id := NodeDeliveries.id row; d_node_id := NodeDeliveries.nodeId row;
  d_mission_id := NodeDeliveries.missionId row;
  d_mission_event_id := NodeDeliveries.missionEventId row;
  d_kind := NodeDeliveries.kind row; d_cursor := string_of_int (NodeDeliveries.cursor row);
  d_status := NodeDeliveries.status row; d_attempt_count := NodeDeliveries.attemptCount row;
  d_max_attempts := NodeDeliveries.maxAttempts row;
  d_last_fencing_token := NodeDeliveries.lastFencingToken row;
  d_contract_version := NodeDeliveries.contractVersion row;
  d_verification_round := NodeDeliveries.verificationRound row;
  d_lease :=
    match NodeDeliveries.activeLeaseId row, NodeDeliveries.leaseExpiresAt row with
    | Some lease, Some expires =>
        Some {| lease_lease_id := lease;
                lease_fencing_token := NodeDeliveries.lastFencingToken row;
                lease_expires_at := toISOString expires |}
    | _, _ => None
    end;
  d_logical_settlement :=
    match NodeDeliveries.settledByEventId row, NodeDeliveries.settledAt row with
    | Some event, Some at_ =>
        Some {| set_settled_by_event_id := event; set_settled_at := toISOString at_ |}
    | _, _ => None
    end;
  d_idempotency_key := NodeDeliveries.idempotencyKey row;
  d_causal_parent_delivery_id := NodeDeliveries.causalParentDeliveryId row;
  d_available_at := toISOString (NodeDeliveries.availableAt row);
  d_created_at := toISOString (NodeDeliveries.createdAt row);
  d_updated_at := toISOString (NodeDeliveries.updatedAt row);
  d_acknowledged_at := toISOString <$> NodeDeliveries.acknowledgedAt row;
  d_cancelled_at := toISOString <$> NodeDeliveries.cancelledAt row;
  d_cancellation_reason := NodeDeliveries.cancellationReason row;
  d_dead_lettered_at := toISOString <$> NodeDeliveries.deadLetteredAt row |}.

#[export] Instance AppendInput_eq_dec : EqDecision MissionCoordinatorAppendInput.
Proof. solve_decision. Defined.

Section MissionLedger.
Context `{Zod, RelayEnv, LedgerEnv}.

Definition deliveryFromRow (row : NodeDeliveries.NodeDelivery) : LTx Delivery :=
  parse deliverySchema (delivery_of_row row).

Definition missionDeliveryItemFromRows (delivery : NodeDeliveries.NodeDelivery)
    (event : MissionEventRows.MissionEvent) : LTx MissionDeliveryItem :=
  match MissionEventRows.actorKind event, MissionEventRows.actorAgentId event with
  | MissionEventRows.agent, Some actor =>
      d ← deliveryFromRow delivery;
      e ← of_result (eventFromRow event);
      mret {| item_delivery := d; item_event := e; item_actor_agent_id := actor;
              item_source_delivery_id := MissionEventRows.sourceDeliveryId event;
              item_causal_parent_event_id := MissionEventRows.causalParentEventId event |}
  | _, _ => relay_fail internal "Node delivery source event is not participant-authored"
  end.

(** [missionCoordinatorConfigSchema.parse(mission.coordinatorConfig)] *)
Definition mission_config (m : Missions.Mission) : LTx MissionCoordinatorConfig :=
  parse missionCoordinatorConfigSchema (Missions.coordinatorConfig m).
Definition config_manifest (c : MissionCoordinatorConfig) : MissionManifest :=
  c.(cfg_mission_context).(ctx_manifest).

Definition missionStateFromRow (row : Missions.Mission) : LTx MissionCoordinatorState :=
  config ← mission_config row;
  let state := Missions.state row in
  _ ← fail_if (negb (missionCoordinatorStateSchema state) ||
               ((state_manifest state).(man_mission_id) !== (config_manifest config).(man_mission_id)))
        internal "Stored Mission projection is invalid";
  mret state.

(** ** Queries *)
Definition find_mission (id : string) (t : LedgerTables) : option Missions.Mission :=
  array_find (fun m => Missions.id m === id) (missions t).

(** [WHERE mission_id = id ORDER BY sequence_no] *)
Definition by_sequence (a b : MissionEventRows.MissionEvent) : Z :=
  MissionEventRows.sequenceNo a - MissionEventRows.sequenceNo b.
Definition mission_event_rows (id : string) (t : LedgerTables)
    : list MissionEventRows.MissionEvent :=
  sort_by by_sequence (array_filter (fun e => MissionEventRows.missionId e === id) (missionEvents t)).

(** [ORDER BY cursor] *)
Definition by_cursor (a b : NodeDeliveries.NodeDelivery) : Z :=
  NodeDeliveries.cursor a - NodeDeliveries.cursor b.

Definition participants_of (id : string) (t : LedgerTables)
    : list MissionParticipants.MissionParticipant :=
  array_filter (fun p => MissionParticipants.missionId p === id) (missionParticipants t).

Definition lockMissionMutation (missionId : string) : LTx unit := lock_key missionId.
Definition readDatabaseClock : LTx Z := wall_clock.

(** ** Acceptance receipts *)
Definition acceptanceInputFromParticipant (participant : MissionParticipants.MissionParticipant)
    : LTx MissionParticipantAcceptanceInput :=
  match MissionParticipants.acceptanceReceipt participant with
  | None => relay_fail internal "Accepted participant is missing its durable receipt"
  | Some receipt => parse missionParticipantAcceptanceInputSchema receipt
  end.

Definition acceptanceReceiptFromParticipant (participant : MissionParticipants.MissionParticipant)
    (acceptance : MissionParticipantAcceptanceInput) : LTx MissionParticipantAcceptanceReceipt :=
  match MissionParticipants.acceptedAt participant with
  | None => relay_fail internal "Accepted participant is missing its acceptance time"
  | Some acceptedAt =>
      mret {| rcp_mission_id := MissionParticipants.missionId participant;
              rcp_participant_agent_id := MissionParticipants.agentId participant;
              rcp_idempotency_key := acceptance.(acc_idempotency_key);
              rcp_contract := acceptance.(acc_contract);
              rcp_local_policy_grant := acceptance.(acc_local_policy_grant);
              rcp_accepted_at := toISOString acceptedAt |}
  end.

Definition isAccepted (p : MissionParticipants.MissionParticipant) : bool :=
  (MissionParticipants.status p === AS_accepted) && non_null (MissionParticipants.acceptedAt p) &&
  non_null (MissionParticipants.acceptanceIdempotencyKey p) &&
  non_null (MissionParticipants.acceptanceReceipt p).

Definition assertExactParticipantAcceptances (mission : Missions.Mission)
    (contract : ArtifactRef) : LTx unit :=
  config ← mission_config mission;
  let manifest := config_manifest config in
  participants ← fetch (participants_of (Missions.id mission));
  _ ← fail_if ((len participants !== len manifest.(man_participants)) ||
               negb (every isAccepted participants))
        not_authorized_transition "Both Mission participants must have durable acceptance receipts";
  _ ← fail_if (contract !== manifest.(man_shared_contract))
        internal "Derived acceptance contract does not match the manifest";
  _ ← for_each (fun manifestParticipant =>
        match array_find (fun candidate =>
                MissionParticipants.agentId candidate === manifestParticipant.(part_agent_id))
                participants with
        | None => relay_fail internal "Mission manifest and participant rows disagree"
        | Some participant =>
            acceptance ← acceptanceInputFromParticipant participant;
            fail_if ((acceptance.(acc_contract) !== manifest.(man_shared_contract)) ||
                     (acceptance.(acc_local_policy_grant).(grant_profile_name) !==
                      manifestParticipant.(part_requested_local_policy_profile)))
              internal "Stored participant acceptance no longer matches the immutable Mission"
        end) manifest.(man_participants);
  mret tt.

(** ** Appending an event *)
Definition expected_kind (b : EventBody) : DeliveryKind :=
  match b with
  | TurnCompleted _ => K_turn
  | ContractAcknowledged _ => K_contract_acknowledgement
  | _ => K_verification
  end.
Definition body_contract_version (b : EventBody) : option Z :=
  match b with
  | TurnCompleted t => Some t.(tc_contract_version)
  | ContractAcknowledged a => Some a.(ca_contract_version)
  | VerificationRecorded v => Some v.(vr_contract_version)
  | _ => None
  end.

(** The source delivery, joined with its participant row. *)
Definition source_row (missionId actorAgentId deliveryId : string) (t : LedgerTables)
    : option (NodeDeliveries.NodeDelivery * MissionParticipants.MissionParticipant) :=
  d ← array_find (fun d => (NodeDeliveries.id d === deliveryId) &&
                           (NodeDeliveries.missionId d === missionId)) (nodeDeliveries t);
  p ← array_find (fun p =>
        (MissionParticipants.missionId p === NodeDeliveries.missionId d) &&
        (MissionParticipants.nodeId p === NodeDeliveries.nodeId d) &&
        (MissionParticipants.agentId p === actorAgentId)) (missionParticipants t);
  Some (d, p).

Definition source_mismatch (d : NodeDeliveries.NodeDelivery) (b : EventBody)
    (a : SourceDeliveryAuthorization) : bool :=
  (NodeDeliveries.status d !== a.(sa_status)) ||
  non_null (NodeDeliveries.settledByEventId d) ||
  (NodeDeliveries.kind d !== expected_kind b) ||
  (Some (NodeDeliveries.contractVersion d) !== body_contract_version b) ||
  (non_null a.(sa_nodeId) && (Some (NodeDeliveries.nodeId d) !== a.(sa_nodeId))) ||
  (non_null a.(sa_leaseId) && (NodeDeliveries.activeLeaseId d !== a.(sa_leaseId))) ||
  (non_null a.(sa_fencingToken) &&
   (Some (NodeDeliveries.lastFencingToken d) !== a.(sa_fencingToken))) ||
  match b with
  | VerificationRecorded v =>
      NodeDeliveries.verificationRound d !== Some v.(vr_verification_round)
  | _ => false
  end.

Definition assertSourceDelivery (missionId actorAgentId deliveryId : string) (b : EventBody)
    (a : SourceDeliveryAuthorization) : LTx unit :=
  _ ← fail_if ((a.(sa_status) === D_executing) &&
               (is_null a.(sa_nodeId) || is_null a.(sa_leaseId) || is_null a.(sa_fencingToken)))
        internal "Executing source authorization is incomplete";
  source ← fetch (source_row missionId actorAgentId deliveryId);
  match source with
  | None => relay_fail not_authorized_transition
      "Source delivery is not assigned to the authenticated Mission participant"
  | Some (d, p) =>
      _ ← fail_if (MissionParticipants.status p !== AS_accepted) not_authorized_transition
            "Source delivery is not assigned to the authenticated Mission participant";
      fail_if (source_mismatch d b a) invalid_transition
        "Source delivery is unavailable or does not match the event kind and contract"
  end.

Definition shouldSettleSourceDelivery (next : MissionCoordinatorState) (b : EventBody) : bool :=
  match b with
  | VerificationRecorded event =>
      if MissionEvents.status next !== M_verifying then true
      else if event.(vr_evidence).(vev_outcome) === O_failed then false
      else
        let required := default []
          (next.(required_verification_commands) !! event.(vr_participant_agent_id)) in
        every (fun commandId =>
          some (fun record =>
            (record.(vrec_participant_agent_id) === event.(vr_participant_agent_id)) &&
            (record.(vrec_contract_version) === event.(vr_contract_version)) &&
            (record.(vrec_verification_round) === event.(vr_verification_round)) &&
            (record.(vrec_evidence).(vev_command_id) === commandId) &&
            (record.(vrec_evidence).(vev_outcome) === O_passed))
            next.(verification_records)) required
  | ParticipantsAccepted _ => false
  | _ => true
  end.

Definition assertAuthorizedActor (actorAgentId : string) (b : EventBody) : LTx unit :=
  if is_accepted_body b then mret tt else
  fail_if ((fst <$> body_participant b) !== Some actorAgentId) not_authorized_transition
    "Mission event participant does not match the authenticated actor".

Definition targets_all (s : MissionCoordinatorState) (kind : DeliveryKind) (version : Z)
    (round : option Z) : list DeliveryTarget :=
  map (fun p => {| tg_agentId := p.(part_agent_id); tg_kind := kind;
                   tg_contractVersion := version; tg_verificationRound := round |})
    (state_manifest s).(man_participants).

Definition deriveDeliveryTargets (previous next : MissionCoordinatorState) (b : EventBody)
    : LTx (list DeliveryTarget) :=
  let otherwise :=
    if (MissionEvents.status previous !== M_verifying) && (MissionEvents.status next === M_verifying)
    then mret (targets_all next K_verification next.(contract_version)
                 (Some next.(verification_round)))
    else
      match next.(current_participant_agent_id) with
      | Some agent =>
          mret (if MissionEvents.status next === M_active
                then [{| tg_agentId := agent; tg_kind := K_turn;
                         tg_contractVersion := next.(contract_version);
                         tg_verificationRound := None |}]
                else [])
      | None => mret []
      end in
  match b with
  | TurnCompleted event =>
      if is_propose event.(tc_disposition) then
        match next.(pending_revision) with
        | Some revision =>
            mret (targets_all next K_contract_acknowledgement revision.(rev_version) None)
        | None =>
            if MissionEvents.status next === M_failed then mret []
            else relay_fail internal "Contract proposal did not produce a pending revision"
        end
      else otherwise
  | _ => otherwise
  end.

Definition appendInputFromEvent (event : MissionCoordinatorEvent)
    : LTx MissionCoordinatorAppendInput :=
  parse missionCoordinatorAppendInputSchema
    {| ai_idempotency_key := event_key event; ai_body := body event |}.

Definition replays_input (input : AppendInput) (row : MissionEventRows.MissionEvent)
    (event : MissionCoordinatorEvent) : LTx bool :=
  if (MissionEventRows.actorAgentId row !== Some input.(in_actorAgentId)) ||
     (MissionEventRows.sourceDeliveryId row !== body_source input.(in_appendInput).(ai_body))
  then mret false
  else
    stored ← appendInputFromEvent event;
    mret (stored === input.(in_appendInput)).

(** The result of appending a key that is already stored. *)
Definition replay_append (mission : Missions.Mission) (input : AppendInput)
    (row : MissionEventRows.MissionEvent) : LTx AppendMissionEventResult :=
  event ← of_result (eventFromRow row);
  same ← replays_input input row event;
  _ ← fail_if (negb same) duplicate_idempotency_key "Idempotency key is already bound to a different Mission event";
  deliveries ← fetch (fun t => sort_by by_cursor
    (array_filter (fun d => NodeDeliveries.missionEventId d === MissionEventRows.id row)
       (nodeDeliveries t)));
  config ← mission_config mission;
  rows ← fetch (mission_event_rows (Missions.id mission));
  events ← of_result (eventsFromRows (array_filter (fun r =>
    MissionEventRows.sequenceNo r <=? MissionEventRows.sequenceNo row) rows));
  state ← coordinate (replayMissionCoordinatorEvents config events);
  mret {| ap_event := event; ap_deliveryIds := map NodeDeliveries.id deliveries;
          ap_state := state; ap_replayed := true |}.

(** The state the stored events lead to, and the last event's id. *)
Definition replay_stored (missionId : string) (config : MissionCoordinatorConfig)
    : LTx (MissionCoordinatorState * option string) :=
  rows ← fetch (mission_event_rows missionId);
  events ← of_result (eventsFromRows rows);
  currentState ← coordinate (replayMissionCoordinatorEvents config events);
  mret (currentState, MissionEventRows.id <$> at_last rows).

Definition projection_mismatch : string :=
  "Stored Mission projection does not match its event ledger".

(** The deliveries a verification that ends its round settles, or the source
    delivery alone. *)
Definition settled_by (missionId sourceDeliveryId : string) (next : MissionCoordinatorState)
    (b : EventBody) (d : NodeDeliveries.NodeDelivery) : bool :=
  is_null (NodeDeliveries.settledByEventId d) && (NodeDeliveries.missionId d === missionId) &&
  match b with
  | VerificationRecorded v =>
      if (MissionEvents.status next === M_active) || (MissionEvents.status next === M_failed)
      then (NodeDeliveries.kind d === K_verification) &&
           (NodeDeliveries.contractVersion d === v.(vr_contract_version)) &&
           (NodeDeliveries.verificationRound d === Some v.(vr_verification_round))
      else NodeDeliveries.id d === sourceDeliveryId
  | _ => NodeDeliveries.id d === sourceDeliveryId
  end.

Definition settle_with (eventId : string) (settledAt : Z) (d : NodeDeliveries.NodeDelivery)
    : NodeDeliveries.NodeDelivery :=
  d <| NodeDeliveries.settledByEventId := Some eventId |>
    <| NodeDeliveries.settledAt := Some settledAt |>.

Definition settle_source (missionId : string) (next : MissionCoordinatorState)
    (event : MissionCoordinatorEvent) (settledAt : Z) : LTx unit :=
  match body_source (body event) with
  | Some source =>
      if shouldSettleSourceDelivery next (body event) then
        settled ← update_deliveries (settled_by missionId source next (body event))
                    (settle_with (event_id event) settledAt);
        fail_if (negb (some (fun d => NodeDeliveries.id d === source) settled))
          invalid_transition "Source delivery is no longer available"
      else mret tt
  | None => mret tt
  end.

Definition DeliveryKind_name (k : DeliveryKind) : string :=
  match k with
  | K_turn => "turn" | K_verification => "verification"
  | K_contract_acknowledgement => "contract_acknowledgement"
  end.

(** The latest delivery of the Mission on the Node. *)
Definition latest_delivery (missionId nodeId : string) (t : LedgerTables) : option string :=
  NodeDeliveries.id <$> at_last (sort_by by_cursor
    (array_filter (fun d => (NodeDeliveries.missionId d === missionId) &&
                            (NodeDeliveries.nodeId d === nodeId)) (nodeDeliveries t))).

Definition create_delivery (missionId eventId : string)
    (participantRows : list MissionParticipants.MissionParticipant) (target : DeliveryTarget)
    : LTx string :=
  match array_find (fun row => MissionParticipants.agentId row === target.(tg_agentId))
          participantRows with
  | None => relay_fail internal "Derived delivery target is not a Mission participant"
  | Some participant =>
      let nodeId := MissionParticipants.nodeId participant in
      causalParent ← fetch (latest_delivery missionId nodeId);
      created ← insert_delivery nodeId missionId eventId target.(tg_kind)
        target.(tg_contractVersion) target.(tg_verificationRound)
        ("event:" +:+ eventId +:+ ":" +:+ DeliveryKind_name target.(tg_kind) +:+ ":" +:+ nodeId)
        causalParent;
      mret (NodeDeliveries.id created)
  end.

(** [reduceMissionCoordinatorEvent], its rejections as the relay's errors. *)
Definition reduce_or_fail (state : MissionCoordinatorState) (event : MissionCoordinatorEvent)
    : LTx MissionCoordinatorState :=
  match reduceMissionCoordinatorEvent state event with
  | Ok next => mret next
  | Err (InvalidMissionCoordinatorEvent reason) => relay_fail invalid_transition reason
  | Err e => fail_with (CoordinatorFailed e)
  end.

Definition EventType_name (t : EventType) : string :=
  match t with
  | ET_participants_accepted => "participants_accepted" | ET_turn_completed => "turn_completed"
  | ET_contract_acknowledged => "contract_acknowledged"
  | ET_verification_recorded => "verification_recorded"
  | ET_mission_terminal => "mission_terminal"
  end.
Definition audit_id (o : option string) : AuditLog.AuditValue :=
  match o with Some s => AuditLog.AString s | None => AuditLog.ANull end.

(** [new Date(text)], written to a timestamp column. *)
Definition as_date (text : string) : LTx Z :=
  match Date_parse text with Some t => mret t | None => fail_with RangeError end.

(** The writes of an accepted event: the row, the settlement, the deliveries it
    derives, the projection, the audit entry. *)
Definition commit_event (missionId : string) (input : AppendInput)
    (current next : MissionCoordinatorState) (event : MissionCoordinatorEvent)
    (previous : option string) : LTx AppendMissionEventResult :=
  let b := body event in
  createdAt ← as_date event.(envelope).(env_created_at);
  _ ← insert_event {|
    MissionEventRows.id := event_id event; MissionEventRows.missionId := missionId;
    MissionEventRows.sequenceNo := event_sequence event; MissionEventRows.type := body_tag b;
    MissionEventRows.actorKind := MissionEventRows.agent;
    MissionEventRows.actorAgentId := Some input.(in_actorAgentId);
    MissionEventRows.idempotencyKey := event_key event;
    MissionEventRows.sourceDeliveryId := body_source b;
    MissionEventRows.causalParentEventId := previous; MissionEventRows.payload := b;
    MissionEventRows.createdAt := createdAt |};
  _ ← settle_source missionId next event createdAt;
  participantRows ← fetch (participants_of missionId);
  targets ← deriveDeliveryTargets current next b;
  ids ← for_each (create_delivery missionId (event_id event) participantRows) targets;
  _ ← update_mission missionId next;
  _ ← audit None (Some input.(in_actorAgentId)) "mission.event.append" "mission_event"
        (event_id event)
        [("mission_id", AuditLog.AString missionId);
         ("sequence_no", AuditLog.ANumber (event_sequence event));
         ("type", AuditLog.AString (EventType_name (body_tag b)));
         ("source_delivery_id", audit_id (body_source b));
         ("delivery_ids", AuditLog.AStrings ids);
         ("derived", AuditLog.ABool (is_accepted_body b))] input.(in_requestId);
  mret {| ap_event := event; ap_deliveryIds := ids; ap_state := next; ap_replayed := false |}.

Definition mission_principals (mission : Missions.Mission) (config : MissionCoordinatorConfig)
    : list string :=
  Missions.createdByAgentId mission :: participant_ids (config_manifest config).

(** The checks of the actor: stored acceptances for the derived event, the
    authenticated participant for the others. *)
Definition assert_actor (mission : Missions.Mission) (input : AppendInput) : LTx unit :=
  match input.(in_appendInput).(ai_body) with
  | ParticipantsAccepted e =>
      _ ← fail_if (negb input.(in_allowDerivedAcceptance)) not_authorized_transition
            "Participant acceptance must be derived from stored receipts";
      assertExactParticipantAcceptances mission e.(pa_contract)
  | b => assertAuthorizedActor input.(in_actorAgentId) b
  end.

Definition assert_source (mission : Missions.Mission) (input : AppendInput) : LTx unit :=
  let b := input.(in_appendInput).(ai_body) in
  match body_source b with
  | None => mret tt
  | Some source =>
      match input.(in_sourceAuthorization) with
      | None => relay_fail internal "Mission result is missing source delivery authority"
      | Some a => assertSourceDelivery (Missions.id mission) input.(in_actorAgentId) source b a
      end
  end.

Definition append_new (mission : Missions.Mission) (input : AppendInput)
    : LTx AppendMissionEventResult :=
  recordedAt ← match input.(in_recordedAt) with
               | Some t => mret t | None => readDatabaseClock end;
  _ ← fail_if (Missions.expiresAt mission <=? recordedAt) invalid_transition "Mission has expired";
  config ← mission_config mission;
  _ ← assertMissionTrustBoundary (mission_principals mission config);
  _ ← assert_actor mission input;
  projection ← replay_stored (Missions.id mission) config;
  let currentState := projection.1 in
  _ ← fail_if (currentState.(sequence_no) !== Missions.lastEventSequence mission)
        internal projection_mismatch;
  stored ← missionStateFromRow mission;
  _ ← fail_if (currentState !== stored) internal projection_mismatch;
  _ ← assert_source mission input;
  eventId ← randomUUID;
  let event := {|
    envelope := {|
      env_event_id := eventId;
      env_idempotency_key := input.(in_appendInput).(ai_idempotency_key);
      env_mission_id := Missions.id mission;
      env_sequence_no := currentState.(sequence_no) + 1;
      env_created_at := toISOString recordedAt |};
    body := input.(in_appendInput).(ai_body) |} in
  _ ← parse missionCoordinatorEventSchema event;
  nextState ← reduce_or_fail currentState event;
  commit_event (Missions.id mission) input currentState nextState event projection.2.

Definition appendMissionEventInTransaction (mission : Missions.Mission) (input : AppendInput)
    : LTx AppendMissionEventResult :=
  replayRow ← fetch (fun t => array_find (fun e =>
    (MissionEventRows.missionId e === Missions.id mission) &&
    (MissionEventRows.idempotencyKey e === input.(in_appendInput).(ai_idempotency_key)))
    (missionEvents t));
  match replayRow with
  | Some row => replay_append mission input row
  | None => append_new mission input
  end.

Definition appendMissionEvent (missionId actorAgentId : string)
    (appendInput : MissionCoordinatorAppendInput) (requestId : option string)
    : LTx AppendMissionEventResult :=
  _ ← parse missionCoordinatorAppendInputSchema appendInput;
  _ ← fail_if (is_accepted_body appendInput.(ai_body)) not_authorized_transition
        "Participant acceptance is derived only from two independent receipts";
  ledger_transaction (
    _ ← lockMissionMutation missionId;
    found ← fetch (find_mission missionId);
    match found with
    | None => relay_fail invalid_params "Mission not found"
    | Some mission =>
        appendMissionEventInTransaction mission {|
          in_actorAgentId := actorAgentId; in_appendInput := appendInput;
          in_requestId := requestId; in_allowDerivedAcceptance := false;
          in_sourceAuthorization := Some {| sa_status := D_stored; sa_nodeId := None;
                                            sa_leaseId := None; sa_fencingToken := None |};
          in_recordedAt := None |}
    end).

(** ** Participant bindings *)

(** The active bindings of the participant's workspace on its active Nodes. *)
Definition eligible_bindings (participant : Participant) (t : LedgerTables)
    : list MissionParticipantBinding :=
  concat (map (fun w =>
    map (fun n => {| bind_agent_id := participant.(part_agent_id); bind_node_id := Nodes.id n;
                     bind_workspace_binding_id := WorkspaceBindings.id w |})
      (array_filter (fun n =>
         (Nodes.id n === WorkspaceBindings.nodeId w) &&
         (Nodes.agentId n === participant.(part_agent_id)) && (Nodes.status n === S_active))
         (nodes t)))
    (array_filter (fun w =>
       (WorkspaceBindings.status w === S_active) &&
       (WorkspaceBindings.alias w === participant.(part_workspace_alias)) &&
       (WorkspaceBindings.repositoryUrl w === participant.(part_repository_url)))
       (workspaceBindings t))).

Definition resolveActiveParticipantBindings (participants : list Participant)
    : LTx (list MissionParticipantBinding) :=
  for_each (fun participant =>
    matches ← fetch (eligible_bindings participant);
    match matches with
    | [binding] => mret binding
    | _ => relay_fail invalid_params
             "Mission participant must resolve to exactly one active Node workspace"
    end) participants.

Definition lockParticipantNodes (bindings : list MissionParticipantBinding) : LTx unit :=
  _ ← for_each lockNodeMutation (sort_strings (distinct (map bind_node_id bindings)));
  mret tt.

Definition loadParticipantBindings (missionId : string) (participantAgentIds : list string)
    : LTx (list MissionParticipantBinding) :=
  rows ← fetch (participants_of missionId);
  for_each (fun agentId =>
    match array_find (fun row => MissionParticipants.agentId row === agentId) rows with
    | None => relay_fail internal "Stored Mission participant binding is missing"
    | Some row =>
        mret {| bind_agent_id := MissionParticipants.agentId row;
                bind_node_id := MissionParticipants.nodeId row;
                bind_workspace_binding_id := MissionParticipants.workspaceBindingId row |}
    end) participantAgentIds.

Definition assertMissionCreationAuthoritiesActive (creatorAgentId : string)
    (participants : list Participant) (bindings : list MissionParticipantBinding) : LTx unit :=
  let required := distinct (map part_agent_id participants ++ [creatorAgentId]) in
  activeAgents ← read_base (fun b => array_filter (fun a =>
    includes required (Agents.id a) && (Agents.status a === Agents.active)) (agents b));
  _ ← fail_if (len activeAgents !== len required) invalid_params
        "Mission creator and every participant must be active agents";
  currentBindings ← resolveActiveParticipantBindings participants;
  fail_if (currentBindings !== bindings) invalid_params
    "Mission participant Node workspace binding changed during creation".

(** ** Creation *)
Definition store_participant (missionId : string) (bindings : list MissionParticipantBinding)
    (participant : Participant) : LTx unit :=
  match array_find (fun candidate => candidate.(bind_agent_id) === participant.(part_agent_id))
          bindings with
  | None => fail_with TypeFailure
  | Some binding =>
      insert_participant missionId participant.(part_agent_id) binding.(bind_node_id)
        binding.(bind_workspace_binding_id) participant.(part_role)
  end.

Definition replay_creation (createdByAgentId : string) (config : MissionCoordinatorConfig)
    (existing : Missions.Mission) : LTx MissionCreationResult :=
  existingConfig ← mission_config existing;
  _ ← fail_if ((Missions.createdByAgentId existing !== createdByAgentId) ||
               (existingConfig !== config))
        duplicate_idempotency_key "Mission ID is already bound to different creation input";
  state ← missionStateFromRow existing;
  bindings ← loadParticipantBindings (Missions.id existing)
    (participant_ids (config_manifest existingConfig));
  mret {| mcr_mission_id := Missions.id existing; mcr_state := state;
          mcr_participant_bindings := bindings; mcr_replayed := true |}.

Definition create_new (createdByAgentId : string) (config : MissionCoordinatorConfig)
    (bindings : list MissionParticipantBinding) (requestId : option string)
    : LTx MissionCreationResult :=
  let manifest := config_manifest config in
  let missionId := manifest.(man_mission_id) in
  _ ← assertMissionCreationAuthoritiesActive createdByAgentId manifest.(man_participants) bindings;
  _ ← assertMissionTrustBoundary (createdByAgentId :: participant_ids manifest);
  creationTime ← readDatabaseClock;
  _ ← fail_if (num_le (Date_parse manifest.(man_expires_at)) (Some creationTime))
        invalid_transition "Mission has expired";
  state ← coordinate (createMissionCoordinatorState config);
  expiresAt ← as_date manifest.(man_expires_at);
  _ ← insert_mission missionId createdByAgentId config state expiresAt;
  _ ← for_each (store_participant missionId bindings) manifest.(man_participants);
  _ ← audit None (Some createdByAgentId) "mission.create" "mission" missionId
        [("participant_agent_ids", AuditLog.AStrings (participant_ids manifest))] requestId;
  mret {| mcr_mission_id := missionId; mcr_state := state;
          mcr_participant_bindings := bindings; mcr_replayed := false |}.

Definition createMissionLedger (createdByAgentId : string) (config : MissionCoordinatorConfig)
    (requestId : option string) : LTx MissionCreationResult :=
  _ ← parse missionCoordinatorConfigSchema config;
  let context := config.(cfg_mission_context) in
  let manifest := context.(ctx_manifest) in
  let missionId := manifest.(man_mission_id) in
  _ ← fail_if ((context.(ctx_created_by).(actor_kind) !== A_agent) ||
               (context.(ctx_created_by).(actor_principal_id) !== createdByAgentId))
        not_authorized_transition
        "Authenticated Mission creator does not match mission_context.created_by";
  _ ← fail_if (negb (includes (participant_ids manifest) createdByAgentId))
        not_authorized_transition
        "The first Mission slice must be created by one of its two participants";
  ledger_transaction (
    observed ← fetch (find_mission missionId);
    bindings ← match observed with
               | Some mission =>
                   observedConfig ← mission_config mission;
                   loadParticipantBindings missionId
                     (participant_ids (config_manifest observedConfig))
               | None => resolveActiveParticipantBindings manifest.(man_participants)
               end;
    _ ← lockParticipantNodes bindings;
    _ ← lockMissionMutation missionId;
    existing ← fetch (find_mission missionId);
    match existing with
    | Some mission => replay_creation createdByAgentId config mission
    | None => create_new createdByAgentId config bindings requestId
    end).

(** ** Acceptance *)

(** The participant's row, if its Node and workspace binding are active. *)
Definition accepting_participant (missionId agentId : string) (nodeId : option string)
    (t : LedgerTables) : option MissionParticipants.MissionParticipant :=
  array_find (fun p =>
    (MissionParticipants.missionId p === missionId) &&
    (MissionParticipants.agentId p === agentId) &&
    (is_null nodeId || (Some (MissionParticipants.nodeId p) === nodeId)) &&
    some (fun n => (Nodes.id n === MissionParticipants.nodeId p) && (Nodes.status n === S_active))
      (nodes t) &&
    some (fun w => (WorkspaceBindings.id w === MissionParticipants.workspaceBindingId p) &&
                   (WorkspaceBindings.nodeId w === MissionParticipants.nodeId p) &&
                   (WorkspaceBindings.status w === S_active)) (workspaceBindings t))
    (missionParticipants t).

(** The Mission's participants joined with their active Node, agent and binding. *)
Definition active_bindings (missionId : string) (b : Tables) (t : LedgerTables)
    : list MissionParticipants.MissionParticipant :=
  array_filter (fun p =>
    some (fun n => (Nodes.id n === MissionParticipants.nodeId p) && (Nodes.status n === S_active))
      (nodes t) &&
    active_agent b (MissionParticipants.agentId p) &&
    some (fun w => (WorkspaceBindings.id w === MissionParticipants.workspaceBindingId p) &&
                   (WorkspaceBindings.nodeId w === MissionParticipants.nodeId p) &&
                   (WorkspaceBindings.status w === S_active)) (workspaceBindings t))
    (participants_of missionId t).

Definition assertAllParticipantBindingsActive (missionId : string) (expectedCount : Z) : LTx unit :=
  b ← read_base (fun b => b);
  active ← fetch (active_bindings missionId b);
  fail_if (len active !== expectedCount) invalid_transition
    "Every Mission participant must retain an active Node and workspace binding".

Definition acceptance_result (p : MissionParticipants.MissionParticipant)
    (acceptance : MissionParticipantAcceptanceInput) (replayed : bool)
    : LTx MissionParticipantAcceptanceResult :=
  receipt ← acceptanceReceiptFromParticipant p acceptance;
  parse missionParticipantAcceptanceResultSchema
    {| res_receipt := receipt; res_replayed := replayed |}.

Definition replay_acceptance (participant : MissionParticipants.MissionParticipant)
    (acceptance : MissionParticipantAcceptanceInput) : LTx MissionParticipantAcceptanceResult :=
  stored ← acceptanceInputFromParticipant participant;
  _ ← fail_if ((MissionParticipants.acceptanceIdempotencyKey participant !==
                Some acceptance.(acc_idempotency_key)) || (stored !== acceptance))
        duplicate_idempotency_key "Mission participant already accepted with a different receipt";
  acceptance_result participant stored true.

(** Both receipts are stored: derive the event that activates the Mission. *)
Definition activate_when_complete (mission : Missions.Mission) (manifest : MissionManifest)
    (participantAgentId : string) (acceptedAt : Z) (requestId : option string) : LTx unit :=
  let missionId := Missions.id mission in
  participants ← fetch (participants_of missionId);
  if (len participants === len manifest.(man_participants)) && every isAccepted participants then
    _ ← assertAllParticipantBindingsActive missionId (len manifest.(man_participants));
    let aggregate := {|
      ai_idempotency_key := "mission:" +:+ missionId +:+ ":participants-accepted";
      ai_body := ParticipantsAccepted {|
        pa_participant_agent_ids := participant_ids manifest;
        pa_contract := manifest.(man_shared_contract) |} |} in
    _ ← parse missionCoordinatorAppendInputSchema aggregate;
    _ ← appendMissionEventInTransaction mission {|
          in_actorAgentId := participantAgentId; in_appendInput := aggregate;
          in_requestId := requestId; in_allowDerivedAcceptance := true;
          in_sourceAuthorization := None; in_recordedAt := Some acceptedAt |};
    mret tt
  else mret tt.

Definition accept_new (mission : Missions.Mission) (participantAgentId : string)
    (acceptance : MissionParticipantAcceptanceInput) (requestId : option string)
    : LTx MissionParticipantAcceptanceResult :=
  let missionId := Missions.id mission in
  config ← mission_config mission;
  let manifest := config_manifest config in
  _ ← assertMissionTrustBoundary (mission_principals mission config);
  acceptedAt ← readDatabaseClock;
  _ ← fail_if (Missions.expiresAt mission <=? acceptedAt) invalid_transition "Mission has expired";
  match array_find (fun candidate => candidate.(part_agent_id) === participantAgentId)
          manifest.(man_participants) with
  | None => relay_fail internal "Stored participant is absent from the Mission manifest"
  | Some manifestParticipant =>
      _ ← fail_if (acceptance.(acc_contract) !== manifest.(man_shared_contract)) invalid_params
            "Acceptance must bind the exact Mission contract";
      _ ← fail_if (acceptance.(acc_local_policy_grant).(grant_profile_name) !==
                   manifestParticipant.(part_requested_local_policy_profile)) invalid_params
            "Acceptance policy grant must match the participant's requested local profile";
      keyOwner ← fetch (fun t => some (fun p =>
        MissionParticipants.acceptanceIdempotencyKey p === Some acceptance.(acc_idempotency_key))
        (participants_of missionId t));
      _ ← fail_if keyOwner duplicate_idempotency_key
            "Acceptance idempotency key is already bound to another participant";
      updated ← update_participants missionId
        (fun p => (MissionParticipants.missionId p === missionId) &&
                  (MissionParticipants.agentId p === participantAgentId) &&
                  (MissionParticipants.status p === AS_pending))
        (accepted_by acceptance acceptedAt);
      match updated with
      | [] => relay_fail invalid_transition "Mission participant is not pending acceptance"
      | acceptedParticipant :: _ =>
          _ ← audit None (Some participantAgentId) "mission.participant.accept" "mission" missionId
                [("contract_version", AuditLog.ANumber acceptance.(acc_contract).(art_version));
                 ("contract_sha256", AuditLog.AString acceptance.(acc_contract).(art_sha256));
                 ("policy_profile",
                  AuditLog.AString acceptance.(acc_local_policy_grant).(grant_profile_name));
                 ("policy_grant_sha256",
                  AuditLog.AString acceptance.(acc_local_policy_grant).(grant_sha256))] requestId;
          _ ← activate_when_complete mission manifest participantAgentId acceptedAt requestId;
          acceptance_result acceptedParticipant acceptance false
      end
  end.

Definition acceptMissionParticipant (missionId participantAgentId : string)
    (acceptance : MissionParticipantAcceptanceInput) (requestId : option string)
    (nodeAuth : option NodeCredentialContext) : LTx MissionParticipantAcceptanceResult :=
  _ ← parse missionParticipantAcceptanceInputSchema acceptance;
  _ ← fail_if (match nodeAuth with
               | Some auth => auth.(auth_agentId) !== participantAgentId | None => false end)
        not_authorized_transition
        "Authenticated Node owner does not match the Mission participant";
  ledger_transaction (
    _ ← match nodeAuth with
        | Some auth => _ ← lockNodeMutation auth.(auth_nodeId); assertActiveNodeCredential auth
        | None => mret tt
        end;
    _ ← lockMissionMutation missionId;
    found ← fetch (find_mission missionId);
    match found with
    | None => relay_fail invalid_params "Mission not found"
    | Some mission =>
        participant ← fetch (accepting_participant missionId participantAgentId
                               (auth_nodeId <$> nodeAuth));
        match participant with
        | None => relay_fail not_authorized_transition
                    "Authenticated actor is not a Mission participant"
        | Some participant =>
            if MissionParticipants.status participant === AS_accepted
            then replay_acceptance participant acceptance
            else accept_new mission participantAgentId acceptance requestId
        end
    end).
End MissionLedger.
