(* ===== verification/MissionReconciliation.v ===== *)
(** * Mission reconciliation

    relay/src/services/mission-reconciliation.ts: an active or verifying Mission
    that is past its deadline, or that has a dead-lettered delivery nothing
    settled, is ended by a [mission_terminal] event of the relay itself, which
    cancels the deliveries still open. *)

From S2P Require Import Prelude JsLib Schemas RelayStore.
From S2P Require Import MissionEvents MissionCoordinator DeliveryOperations.
From S2P Require Import LedgerStore MissionLedger.
Local Open Scope Z_scope.

Inductive TerminalCause := Deadline | DeadLetter (deliveryId : string).

Definition cause_status (c : TerminalCause) : TerminalStatus :=
  match c with Deadline => TS_expired | DeadLetter _ => TS_failed end.
Definition cause_reason (c : TerminalCause) : TerminalReason :=
  match c with Deadline => TR_deadline_exceeded | DeadLetter _ => TR_delivery_dead_lettered end.
Definition cause_delivery (c : TerminalCause) : option string :=
  match c with Deadline => None | DeadLetter id => Some id end.
Definition cause_key (c : TerminalCause) : string :=
  match c with
  | Deadline => "relay:mission-terminal:deadline"
  | DeadLetter id => "relay:mission-terminal:delivery:" +:+ id
  end.
Definition cause_cancellation (c : TerminalCause) : DeliveryCancellationReason :=
  match c with Deadline => C_mission_expired | DeadLetter _ => C_mission_failed end.

Definition TerminalStatus_name (s : TerminalStatus) : string :=
  match s with TS_expired => "expired" | TS_failed => "failed" end.
Definition TerminalReason_name (r : TerminalReason) : string :=
  match r with
  | TR_deadline_exceeded => "deadline_exceeded" | TR_delivery_dead_lettered => "delivery_dead_lettered"
  end.
Definition DeliveryCancellationReason_name (r : DeliveryCancellationReason) : string :=
  match r with
  | C_mission_cancelled => "mission_cancelled" | C_mission_expired => "mission_expired"
  | C_mission_failed => "mission_failed" | C_work_superseded => "work_superseded"
  | C_node_revoked => "node_revoked" | C_workspace_revoked => "workspace_revoked"
  end.

Record MissionReconciliationResult := {
  rec_missionId : string; rec_reconciled : bool; rec_status : MissionStatus;
  rec_event : option MissionCoordinatorEvent; rec_checkedAt : Z }.

(** [status = 'active' OR status = 'verifying'] *)
Definition is_live (status : MissionStatus) : bool :=
  (status === M_active) || (status === M_verifying).
(** [status IN ('stored', 'leased', 'executing')] *)
Definition open_status (status : DeliveryStatus) : bool :=
  (status === D_stored) || (status === D_leased) || (status === D_executing).

Section Reconciliation.
Context `{Zod, RelayEnv, LedgerEnv}.

Definition unresolved_dead_letter (missionId : string) (d : NodeDeliveries.NodeDelivery) : bool :=
  (NodeDeliveries.missionId d === missionId) && (NodeDeliveries.status d === D_dead_lettered) &&
  is_null (NodeDeliveries.settledByEventId d).

Definition terminalCause (missionId : string) (expiresAt now : Z) : LTx (option TerminalCause) :=
  if expiresAt <=? now then mret (Some Deadline) else
  deadLettered ← fetch (fun t => head (sort_by by_cursor
    (array_filter (unresolved_dead_letter missionId) (nodeDeliveries t))));
  mret (DeadLetter ∘ NodeDeliveries.id <$> deadLettered).

(** The row of an update that cancels an open delivery. *)
Definition cancel_delivery (reason : DeliveryCancellationReason) (now : Z)
    (d : NodeDeliveries.NodeDelivery) : NodeDeliveries.NodeDelivery :=
  d <| NodeDeliveries.status := D_cancelled |> <| NodeDeliveries.activeLeaseId := None |>
    <| NodeDeliveries.leaseExpiresAt := None |> <| NodeDeliveries.cancelledAt := Some now |>
    <| NodeDeliveries.cancellationReason := Some reason |>.

(** [settledByEventId ?? event.event_id], [settledAt ?? now] *)
Definition settle_if_open (eventId : string) (now : Z) (d : NodeDeliveries.NodeDelivery)
    : NodeDeliveries.NodeDelivery :=
  d <| NodeDeliveries.settledByEventId :=
         Some (default eventId (NodeDeliveries.settledByEventId d)) |>
    <| NodeDeliveries.settledAt := Some (default now (NodeDeliveries.settledAt d)) |>.

(** The receipt the relay stores for its own cancellation of [before]. *)
Definition relay_cancellation (id key : string) (reason : DeliveryCancellationReason)
    (input : Receipts.Input) (output : Receipts.Output) (now : Z)
    (before : NodeDeliveries.NodeDelivery) : Receipts.Receipt := {|
  Receipts.id := id; Receipts.origin := Receipts.relay;
  Receipts.nodeId := NodeDeliveries.nodeId before;
  Receipts.missionId := NodeDeliveries.missionId before;
  Receipts.deliveryId := NodeDeliveries.id before; Receipts.operation := Receipts.cancel;
  Receipts.idempotencyKey := key; Receipts.credentialId := None;
  Receipts.attemptCount := NodeDeliveries.attemptCount before;
  Receipts.leaseId := NodeDeliveries.activeLeaseId before;
  Receipts.fencingToken :=
    if is_null (NodeDeliveries.activeLeaseId before) then None
    else Some (NodeDeliveries.lastFencingToken before);
  Receipts.leaseExpiresAt := NodeDeliveries.leaseExpiresAt before;
  Receipts.statusBefore := NodeDeliveries.status before; Receipts.statusAfter := D_cancelled;
  Receipts.cancellationReason := Some reason; Receipts.input := input; Receipts.output := output;
  Receipts.recordedAt := now |}.

Definition cancel_for_terminal (missionId eventId : string) (cause : TerminalCause) (now : Z)
    (delivery : NodeDeliveries.NodeDelivery) : LTx unit :=
  let reason := cause_cancellation cause in
  row ← update_one
    (fun d => (NodeDeliveries.id d === NodeDeliveries.id delivery) &&
              (NodeDeliveries.status d === NodeDeliveries.status delivery))
    (fun d => settle_if_open eventId now (cancel_delivery reason now d))
    internal "Failed to cancel terminal Mission work";
  output ← deliveryFromRow row;
  receiptId ← randomUUID;
  _ ← insert_receipt (relay_cancellation receiptId
        ("relay:mission-terminal:" +:+ missionId +:+ ":" +:+ NodeDeliveries.id delivery) reason
        (Receipts.CancelInput reason eventId) (Receipts.DeliveryOutput output) now delivery);
  audit (Some "system") None "delivery.cancel" "node_delivery" (NodeDeliveries.id delivery)
    [("origin", AuditLog.AString "relay");
     ("node_id", AuditLog.AString (NodeDeliveries.nodeId delivery));
     ("mission_id", AuditLog.AString missionId);
     ("reason", AuditLog.AString (DeliveryCancellationReason_name reason));
     ("settled_by_event_id", AuditLog.AString eventId)] None.

(** The deliveries the terminal event cancels. *)
Definition open_work (missionId : string) (d : NodeDeliveries.NodeDelivery) : bool :=
  (NodeDeliveries.missionId d === missionId) && open_status (NodeDeliveries.status d) &&
  is_null (NodeDeliveries.settledByEventId d).

Definition terminal_event (missionId eventId : string) (sequence : Z) (now : Z)
    (cause : TerminalCause) : MissionCoordinatorEvent := {|
  envelope := {|
    env_event_id := eventId; env_idempotency_key := cause_key cause; env_mission_id := missionId;
    env_sequence_no := sequence; env_created_at := toISOString now |};
  body := MissionTerminal {|
    mt_terminal_status := cause_status cause; mt_reason := cause_reason cause;
    mt_triggering_delivery_id := cause_delivery cause |} |}.

Definition terminate (mission : Missions.Mission) (cause : TerminalCause) (now : Z)
    : LTx MissionReconciliationResult :=
  let missionId := Missions.id mission in
  config ← mission_config mission;
  projection ← replay_stored missionId config;
  let currentState := projection.1 in
  projectedState ← parse missionCoordinatorStateSchema (Missions.state mission);
  _ ← fail_if ((currentState.(sequence_no) !== Missions.lastEventSequence mission) ||
               (currentState !== projectedState)) internal projection_mismatch;
  eventId ← randomUUID;
  let event := terminal_event missionId eventId (currentState.(sequence_no) + 1) now cause in
  _ ← parse missionCoordinatorEventSchema event;
  nextState ← coordinate (reduceMissionCoordinatorEvent currentState event);
  _ ← insert_event {|
    MissionEventRows.id := event_id event; MissionEventRows.missionId := missionId;
    MissionEventRows.sequenceNo := event_sequence event;
    MissionEventRows.type := ET_mission_terminal;
    MissionEventRows.actorKind := MissionEventRows.system; MissionEventRows.actorAgentId := None;
    MissionEventRows.idempotencyKey := event_key event;
    MissionEventRows.sourceDeliveryId := cause_delivery cause;
    MissionEventRows.causalParentEventId := projection.2;
    MissionEventRows.payload := body event; MissionEventRows.createdAt := now |};
  activeDeliveries ← fetch (fun t =>
    sort_by by_cursor (array_filter (open_work missionId) (nodeDeliveries t)));
  _ ← for_each (fun d => take_lock (DeliveryRow (NodeDeliveries.id d))) activeDeliveries;
  _ ← for_each (cancel_for_terminal missionId (event_id event) cause now) activeDeliveries;
  _ ← update_mission missionId nextState;
  _ ← audit (Some "system") None "mission.terminal" "mission_event" (event_id event)
        [("mission_id", AuditLog.AString missionId);
         ("sequence_no", AuditLog.ANumber (event_sequence event));
         ("status", AuditLog.AString (TerminalStatus_name (cause_status cause)));
         ("reason", AuditLog.AString (TerminalReason_name (cause_reason cause)));
         ("triggering_delivery_id", audit_id (cause_delivery cause));
         ("cancelled_delivery_ids",
          AuditLog.AStrings (map NodeDeliveries.id activeDeliveries))] None;
  mret {| rec_missionId := missionId; rec_reconciled := true;
          rec_status := MissionEvents.status nextState; rec_event := Some event;
          rec_checkedAt := now |}.

Definition reconcileMissionInTransaction (missionId : string) : LTx MissionReconciliationResult :=
  _ ← lockMissionMutation missionId;
  found ← fetch (find_mission missionId);
  match found with
  | None => relay_fail internal "Mission reconciliation target is missing"
  | Some mission =>
      now ← readDatabaseClock;
      let unchanged := {| rec_missionId := missionId; rec_reconciled := false;
                          rec_status := Missions.status mission; rec_event := None;
                          rec_checkedAt := now |} in
      if negb (is_live (Missions.status mission)) then mret unchanged else
      cause ← terminalCause missionId (Missions.expiresAt mission) now;
      match cause with
      | None => mret unchanged
      | Some cause => terminate mission cause now
      end
  end.

Definition reconcileMission (missionId : string) : LTx MissionReconciliationResult :=
  ledger_transaction (reconcileMissionInTransaction missionId).

(** The Missions of a Node that are due; [clock_timestamp()] is read once for the
    query. *)
Definition reconciliation_candidates (nodeId : string) (now : Z) (t : LedgerTables) : list string :=
  map Missions.id (concat (map (fun m =>
    map (fun _ => m) (array_filter (fun p =>
      (MissionParticipants.missionId p === Missions.id m) &&
      (MissionParticipants.nodeId p === nodeId)) (missionParticipants t)))
    (array_filter (fun m => is_live (Missions.status m) &&
       ((Missions.expiresAt m <=? now) ||
        some (unresolved_dead_letter (Missions.id m)) (nodeDeliveries t))) (missions t)))).

Definition reconcileNodeMissions (nodeId : string) : LTx unit :=
  now ← readDatabaseClock;
  candidates ← fetch (reconciliation_candidates nodeId now);
  _ ← for_each reconcileMission candidates;
  mret tt.
End Reconciliation.
