(* ===== verification/DeliveryLedger.v ===== *)
(** * The delivery ledger

    relay/src/services/delivery-ledger.ts: a Node claims a delivery under a lease
    with a fencing token, starts, renews, completes or releases it; every
    operation stores a receipt under the caller's idempotency key and is replayed
    from it.  Each runs in one transaction that first reconciles the Mission. *)

From S2P Require Import Prelude JsLib Schemas RelayStore.
From S2P Require Import MissionEvents MissionCoordinator DeliveryOperations.
From S2P Require Import LedgerStore MissionLedger MissionReconciliation.
Local Open Scope Z_scope.

Definition LEASE_DURATION_MS : Z := 60000.
Definition MAX_RETRY_BACKOFF_MS : Z := 60000.

Record LockedDeliveryContext := {
  cx_delivery : NodeDeliveries.NodeDelivery; cx_mission : Missions.Mission;
  cx_participantStatus : MissionParticipantAcceptanceStatus; cx_workspaceStatus : BindingStatus }.

Record LockedDeliveryResult := {
  lk_context : LockedDeliveryContext; lk_now : Z; lk_reconciledStatus : option MissionStatus }.

(** [outcome]: the operation's value, or the error a committed reconciliation is
    reported with. *)
Inductive Outcome' (A : Type) := Returned (a : A) | PostCommitRejection (e : Failure).
Arguments Returned {A} a.
Arguments PostCommitRejection {A} e.

(** ** Receipts *)
Definition recorded_operation (o : DeliveryOperation) : Receipts.Operation :=
  match o with
  | Op_claim => Receipts.claim | Op_start => Receipts.start | Op_renew => Receipts.renew
  | Op_complete => Receipts.complete | Op_release => Receipts.release
  | Op_cancel => Receipts.cancel
  end.
Definition DeliveryOperation_name (o : DeliveryOperation) : string :=
  match o with
  | Op_claim => "claim" | Op_start => "start" | Op_renew => "renew" | Op_complete => "complete"
  | Op_release => "release" | Op_cancel => "cancel"
  end.

(** [operationInput(deliveryId, input)] for each operation. *)
Definition claim_input (deliveryId : string) (i : DeliveryClaimInput) : Receipts.Input :=
  Receipts.NodeInput deliveryId i.(ci_idempotency_key) None None None.
Definition lease_input (deliveryId : string) (i : LeaseOperationInput) : Receipts.Input :=
  Receipts.NodeInput deliveryId i.(li_idempotency_key) (Some i.(li_authority)) None None.
Definition complete_input (deliveryId : string) (i : DeliveryCompleteInput) : Receipts.Input :=
  Receipts.NodeInput deliveryId i.(cmi_lease).(li_idempotency_key)
    (Some i.(cmi_lease).(li_authority)) (Some i.(cmi_result)) None.
Definition release_input (deliveryId : string) (i : DeliveryReleaseInput) : Receipts.Input :=
  Receipts.NodeInput deliveryId i.(ri_lease).(li_idempotency_key)
    (Some i.(ri_lease).(li_authority)) None (Some i.(ri_release)).

(** ** Time *)
Definition retryBackoffMs (attemptCount : Z) : Z :=
  Z.min MAX_RETRY_BACKOFF_MS (1000 * 2 ^ Z.max 0 (attemptCount - 1)).

Section DeliveryLedger.
Context `{Zod, RelayEnv, LedgerEnv}.

Definition boundedLeaseExpiry (now missionExpiresAt : Z) : LTx Z :=
  let expiry := Z.min (now + LEASE_DURATION_MS) missionExpiresAt in
  _ ← fail_if (expiry <=? now) invalid_transition "Mission has no remaining lease window";
  mret expiry.

Record ReceiptFields := {
  rf_operation : DeliveryOperation; rf_idempotencyKey : string; rf_nodeId : string;
  rf_delivery : NodeDeliveries.NodeDelivery; rf_statusBefore : DeliveryStatus;
  rf_lease : option DeliveryLeaseAuthority; rf_leaseExpiresAt : option Z;
  rf_claimOutcome : option DeliveryClaimOutcome; rf_releaseDetails : option DeliveryReleaseDetails;
  rf_recordedAt : Z }.

Definition receipt_of (receiptId : string) (input : ReceiptFields) : DeliveryOperationReceipt :=
  let delivery := input.(rf_delivery) in {|
  or_receipt_id := receiptId; or_operation := input.(rf_operation);
  or_idempotency_key := input.(rf_idempotencyKey); or_node_id := input.(rf_nodeId);
  or_delivery_id := NodeDeliveries.id delivery;
  or_attempt_count := NodeDeliveries.attemptCount delivery;
  or_lease := input.(rf_lease); or_lease_expires_at := toISOString <$> input.(rf_leaseExpiresAt);
  or_status_before := input.(rf_statusBefore); or_status_after := NodeDeliveries.status delivery;
  or_logical_settlement := d_logical_settlement (delivery_of_row delivery);
  or_claim_outcome := input.(rf_claimOutcome); or_release := input.(rf_releaseDetails);
  or_cancellation_reason := NodeDeliveries.cancellationReason delivery;
  or_recorded_at := toISOString input.(rf_recordedAt) |}.

Definition operationReceipt (input : ReceiptFields) : LTx DeliveryOperationReceipt :=
  receiptId ← randomUUID;
  parse deliveryOperationReceiptSchema (receipt_of receiptId input).

Definition persistNodeReceipt (auth : NodeCredentialContext)
    (delivery : NodeDeliveries.NodeDelivery) (receipt : DeliveryOperationReceipt)
    (input : Receipts.Input) (output : Receipts.Output) : LTx unit :=
  leaseExpiresAt ← match receipt.(or_lease_expires_at) with
                   | None => mret None
                   | Some text => t ← as_date text; mret (Some t)
                   end;
  recordedAt ← as_date receipt.(or_recorded_at);
  insert_receipt {|
    Receipts.id := receipt.(or_receipt_id); Receipts.origin := Receipts.node;
    Receipts.nodeId := auth.(auth_nodeId);
    Receipts.missionId := NodeDeliveries.missionId delivery;
    Receipts.deliveryId := NodeDeliveries.id delivery;
    Receipts.operation := recorded_operation receipt.(or_operation);
    Receipts.idempotencyKey := receipt.(or_idempotency_key);
    Receipts.credentialId := Some auth.(auth_credentialId);
    Receipts.attemptCount := receipt.(or_attempt_count);
    Receipts.leaseId := auth_lease_id <$> receipt.(or_lease);
    Receipts.fencingToken := auth_fencing_token <$> receipt.(or_lease);
    Receipts.leaseExpiresAt := leaseExpiresAt;
    Receipts.statusBefore := receipt.(or_status_before);
    Receipts.statusAfter := receipt.(or_status_after);
    Receipts.cancellationReason := receipt.(or_cancellation_reason);
    Receipts.input := input; Receipts.output := output; Receipts.recordedAt := recordedAt |}.

Definition auditNodeOperation (auth : NodeCredentialContext)
    (delivery : NodeDeliveries.NodeDelivery) (receipt : DeliveryOperationReceipt) : LTx unit :=
  audit None (Some auth.(auth_agentId))
    ("delivery." +:+ DeliveryOperation_name receipt.(or_operation)) "node_delivery"
    (NodeDeliveries.id delivery)
    [("node_id", AuditLog.AString auth.(auth_nodeId));
     ("credential_id", AuditLog.AString auth.(auth_credentialId));
     ("mission_id", AuditLog.AString (NodeDeliveries.missionId delivery));
     ("attempt_count", AuditLog.ANumber receipt.(or_attempt_count));
     ("fencing_token", audit_id (auth_fencing_token <$> receipt.(or_lease)));
     ("status_before", AuditLog.AString (DeliveryStatus_name receipt.(or_status_before)));
     ("status_after", AuditLog.AString (DeliveryStatus_name receipt.(or_status_after)))]
    auth.(auth_requestId).

(** ** Replay *)
Definition loadReplay (nodeId deliveryId : string) (operation : DeliveryOperation)
    (idempotencyKey : string) (storedInput : Receipts.Input) : LTx (option Receipts.Receipt) :=
  found ← fetch (fun t => array_find (fun r =>
    (Receipts.origin r === Receipts.node) && (Receipts.nodeId r === nodeId) &&
    (Receipts.idempotencyKey r === idempotencyKey)) (receipts t));
  match found with
  | None => mret None
  | Some receipt =>
      _ ← fail_if ((Receipts.deliveryId receipt !== deliveryId) ||
                   (Receipts.operation receipt !== recorded_operation operation) ||
                   (Receipts.input receipt !== storedInput))
            duplicate_idempotency_key "Delivery operation key is already bound to different input";
      mret (Some receipt)
  end.

(** [{ ...objectOutput(replay.output), replayed: true }], parsed by the
    operation's result schema. *)
Definition replayed_claim (r : DeliveryClaimResult) : DeliveryClaimResult :=
  match r with
  | Claimed item receipt _ => Claimed item receipt true
  | DeadLettered delivery receipt _ => DeadLettered delivery receipt true
  end.
Definition replayed_operation (r : DeliveryOperationResult) : DeliveryOperationResult :=
  {| op_delivery := r.(op_delivery); op_receipt := r.(op_receipt); op_replayed := true |}.
Definition replayed_complete (r : DeliveryCompleteResult) : DeliveryCompleteResult :=
  {| cr_delivery := r.(cr_delivery); cr_receipt := r.(cr_receipt); cr_events := r.(cr_events);
     cr_derived_delivery_ids := r.(cr_derived_delivery_ids); cr_replayed := true |}.

Definition replayClaim (nodeId deliveryId : string) (input : DeliveryClaimInput)
    : LTx (option DeliveryClaimResult) :=
  replay ← loadReplay nodeId deliveryId Op_claim input.(ci_idempotency_key)
             (claim_input deliveryId input);
  match Receipts.output <$> replay with
  | None => mret None
  | Some (Receipts.ClaimOutput r) =>
      r ← parse deliveryClaimResultSchema (replayed_claim r); mret (Some r)
  | Some _ => fail_with Rejected
  end.

Definition replayOperation (nodeId deliveryId : string) (operation : DeliveryOperation)
    (idempotencyKey : string) (storedInput : Receipts.Input)
    : LTx (option DeliveryOperationResult) :=
  replay ← loadReplay nodeId deliveryId operation idempotencyKey storedInput;
  match Receipts.output <$> replay with
  | None => mret None
  | Some (Receipts.OperationOutput r) =>
      r ← parse (resultOf operation) (replayed_operation r); mret (Some r)
  | Some _ => fail_with Rejected
  end.

Definition replayComplete (nodeId deliveryId : string) (input : DeliveryCompleteInput)
    : LTx (option DeliveryCompleteResult) :=
  replay ← loadReplay nodeId deliveryId Op_complete input.(cmi_lease).(li_idempotency_key)
             (complete_input deliveryId input);
  match Receipts.output <$> replay with
  | None => mret None
  | Some (Receipts.CompleteOutput r) =>
      r ← parse deliveryCompleteResultSchema (replayed_complete r); mret (Some r)
  | Some _ => fail_with Rejected
  end.

(** ** Locking the delivery's context *)
Definition delivery_on (nodeId deliveryId : string) (t : LedgerTables)
    : option NodeDeliveries.NodeDelivery :=
  array_find (fun d => (NodeDeliveries.nodeId d === nodeId) && (NodeDeliveries.id d === deliveryId))
    (nodeDeliveries t).

Definition prefetchMissionId (nodeId deliveryId : string) : LTx string :=
  row ← fetch (delivery_on nodeId deliveryId);
  match row with
  | None => relay_fail delivery_not_found "Delivery not found"
  | Some row => mret (NodeDeliveries.missionId row)
  end.

Definition lockDelivery (nodeId deliveryId : string) : LTx NodeDeliveries.NodeDelivery :=
  _ ← take_lock (DeliveryRow deliveryId);
  row ← fetch (delivery_on nodeId deliveryId);
  match row with
  | None => relay_fail delivery_not_found "Delivery not found"
  | Some row => mret row
  end.

Definition loadMission (missionId : string) : LTx Missions.Mission :=
  found ← fetch (find_mission missionId);
  match found with
  | None => relay_fail internal "Delivery Mission is missing"
  | Some mission => mret mission
  end.

(** The participant row of the caller, joined with its workspace binding. *)
Definition assignment_row (missionId : string) (auth : NodeCredentialContext) (t : LedgerTables)
    : option (MissionParticipantAcceptanceStatus * BindingStatus) :=
  head (omap (fun p =>
    w ← array_find (fun w => WorkspaceBindings.id w === MissionParticipants.workspaceBindingId p)
          (workspaceBindings t);
    Some (MissionParticipants.status p, WorkspaceBindings.status w))
    (array_filter (fun p => (MissionParticipants.missionId p === missionId) &&
                            (MissionParticipants.nodeId p === auth.(auth_nodeId)) &&
                            (MissionParticipants.agentId p === auth.(auth_agentId)))
       (missionParticipants t))).

Definition lockDeliveryContext (auth : NodeCredentialContext) (deliveryId : string)
    (mission : Missions.Mission) : LTx LockedDeliveryContext :=
  delivery ← lockDelivery auth.(auth_nodeId) deliveryId;
  row ← fetch (assignment_row (Missions.id mission) auth);
  match row with
  | None => relay_fail delivery_not_found "Delivery not found"
  | Some (participant, workspace) =>
      mret {| cx_delivery := delivery; cx_mission := mission;
              cx_participantStatus := participant; cx_workspaceStatus := workspace |}
  end.

Definition reconcileAndLockDeliveryContext (auth : NodeCredentialContext) (deliveryId : string)
    : LTx LockedDeliveryResult :=
  missionId ← prefetchMissionId auth.(auth_nodeId) deliveryId;
  reconciliation ← reconcileMissionInTransaction missionId;
  mission ← loadMission missionId;
  context ← lockDeliveryContext auth deliveryId mission;
  mret {| lk_context := context; lk_now := reconciliation.(rec_checkedAt);
          lk_reconciledStatus :=
            if reconciliation.(rec_reconciled) then Some reconciliation.(rec_status) else None |}.

(** A relay error after a reconciliation is reported once the transaction has
    committed; an error of the database aborts it in any case. *)
Definition preserveReconciliation {A} (locked : LockedDeliveryResult) (operation : LTx A)
    : LTx (Outcome' A) := fun s =>
  match operation s with
  | (Ok a, s') => (Ok (Returned a), s')
  | (Err (Thrown (Constraint name)), s') => (Err (Thrown (Constraint name)), s')
  | (Err e, s') =>
      if is_null locked.(lk_reconciledStatus) then (Err e, s') else (Ok (PostCommitRejection e), s')
  end.

Definition runDeliveryTransaction {A} (operation : LTx (Outcome' A)) : LTx A :=
  outcome ← ledger_transaction operation;
  match outcome with Returned a => mret a | PostCommitRejection e => fail_with e end.

Definition runLockedDeliveryOperation {A} (auth : NodeCredentialContext) (deliveryId : string)
    (operation : LockedDeliveryResult -> LTx A) : LTx A :=
  runDeliveryTransaction (
    _ ← lockNodeMutation auth.(auth_nodeId);
    _ ← assertActiveNodeCredential auth;
    locked ← reconcileAndLockDeliveryContext auth deliveryId;
    preserveReconciliation locked (operation locked)).

(** ** Guards *)
Definition assertDeliveryMissionTrust (mission : Missions.Mission) : LTx unit :=
  config ← mission_config mission;
  assertMissionTrustBoundary (mission_principals mission config).

(** The participant rows of the Mission joined with their agent, Node (owned by
    that agent) and binding (on that Node): whether the route is as the manifest
    expects. *)
Definition routes (missionId : string) (b : Tables) (t : LedgerTables)
    : list (MissionParticipants.MissionParticipant * Agents.Agent * Nodes.Node *
            WorkspaceBindings.WorkspaceBinding) :=
  omap (fun p =>
    a ← array_find (fun a => Agents.id a === MissionParticipants.agentId p) (agents b);
    n ← array_find (fun n => (Nodes.id n === MissionParticipants.nodeId p) &&
                             (Nodes.agentId n === MissionParticipants.agentId p)) (nodes t);
    w ← array_find (fun w =>
          (WorkspaceBindings.id w === MissionParticipants.workspaceBindingId p) &&
          (WorkspaceBindings.nodeId w === MissionParticipants.nodeId p)) (workspaceBindings t);
    Some (p, a, n, w)) (participants_of missionId t).

(** [expectedParticipants.get(id)]: the last entry of the key wins. *)
Definition expected_participant (manifest : MissionManifest) (agentId : string)
    : option Participant :=
  at_last (array_filter (fun p => p.(part_agent_id) === agentId) manifest.(man_participants)).

Definition route_active (manifest : MissionManifest)
    (route : MissionParticipants.MissionParticipant * Agents.Agent * Nodes.Node *
             WorkspaceBindings.WorkspaceBinding) : bool :=
  let '(p, a, n, w) := route in
  match expected_participant manifest (MissionParticipants.agentId p) with
  | None => false
  | Some expected =>
      (MissionParticipants.status p === AS_accepted) && (Agents.status a === Agents.active) &&
      (Nodes.status n === S_active) && (WorkspaceBindings.status w === S_active) &&
      (WorkspaceBindings.nodeId w === MissionParticipants.nodeId p) &&
      (WorkspaceBindings.alias w === expected.(part_workspace_alias)) &&
      (WorkspaceBindings.repositoryUrl w === expected.(part_repository_url))
  end.

Definition assertMissionRoutingAuthority (mission : Missions.Mission) : LTx unit :=
  config ← mission_config mission;
  let manifest := config_manifest config in
  b ← read_base (fun b => b);
  rows ← fetch (routes (Missions.id mission) b);
  fail_if (negb ((len rows === len (distinct (participant_ids manifest))) &&
                 every (route_active manifest) rows))
    not_authorized_transition "Mission participant routing authority is no longer active".

Definition assertRunnableContext (context : LockedDeliveryContext) (now : Z) : LTx unit :=
  _ ← fail_if ((context.(cx_participantStatus) !== AS_accepted) ||
               (context.(cx_workspaceStatus) !== S_active))
        not_authorized_transition "Delivery assignment is no longer active";
  _ ← fail_if (Missions.expiresAt context.(cx_mission) <=? now) invalid_transition
        "Mission has expired";
  fail_if (negb (is_live (Missions.status context.(cx_mission)))) invalid_transition
    "Mission is not accepting Node work".

Definition assertReplayableDelivery (delivery : NodeDeliveries.NodeDelivery) : LTx unit :=
  fail_if (NodeDeliveries.status delivery === D_cancelled) not_authorized_transition
    "Cancelled delivery receipts cannot authorize operation replay".

Definition assertActiveLeaseStatus (delivery : NodeDeliveries.NodeDelivery) : LTx unit :=
  fail_if (negb (needsLease (NodeDeliveries.status delivery))) invalid_transition
    "Delivery does not have active lease authority".

Definition assertLeaseAuthority (delivery : NodeDeliveries.NodeDelivery)
    (authority : DeliveryLeaseAuthority) (now : Z) : LTx unit :=
  _ ← fail_if ((NodeDeliveries.activeLeaseId delivery !== Some authority.(auth_lease_id)) ||
               (NodeDeliveries.lastFencingToken delivery !== authority.(auth_fencing_token)))
        state_changed "Delivery lease authority is stale";
  fail_if (match NodeDeliveries.leaseExpiresAt delivery with
           | None => true | Some expires => expires <=? now end)
    invalid_transition "Delivery lease has expired".

Definition MissionStatus_name (s : MissionStatus) : string :=
  match s with
  | M_awaiting_acceptance => "awaiting_acceptance" | M_active => "active"
  | M_verifying => "verifying" | M_blocked => "blocked" | M_completed => "completed"
  | M_cancelled => "cancelled" | M_expired => "expired" | M_failed => "failed"
  end.
Definition terminalMutationError (status : MissionStatus) : LTx unit :=
  relay_fail invalid_transition
    ("Mission reconciled to " +:+ MissionStatus_name status +:+ " before the delivery mutation").

(** [if (locked.reconciledStatus !== null) throw terminalMutationError(...)] *)
Definition assert_not_reconciled (locked : LockedDeliveryResult) : LTx unit :=
  match locked.(lk_reconciledStatus) with
  | None => mret tt | Some status => terminalMutationError status end.

Definition by_id (deliveryId : string) (d : NodeDeliveries.NodeDelivery) : bool :=
  NodeDeliveries.id d === deliveryId.

(** ** Claim *)
Definition release_lease (status : DeliveryStatus) (d : NodeDeliveries.NodeDelivery)
    : NodeDeliveries.NodeDelivery :=
  d <| NodeDeliveries.status := status |> <| NodeDeliveries.activeLeaseId := None |>
    <| NodeDeliveries.leaseExpiresAt := None |>.

Definition dead_letter (now : Z) (d : NodeDeliveries.NodeDelivery) : NodeDeliveries.NodeDelivery :=
  (release_lease D_dead_lettered d) <| NodeDeliveries.deadLetteredAt := Some now |>.

Definition deadLetterExpiredFinalClaim (auth : NodeCredentialContext)
    (delivery : NodeDeliveries.NodeDelivery) (input : DeliveryClaimInput) (now : Z)
    : LTx DeliveryClaimResult :=
  let deliveryId := NodeDeliveries.id delivery in
  _ ← fail_if (negb (needsLease (NodeDeliveries.status delivery))) internal
        "Terminal recovery requires an expired active delivery";
  deadLettered ← update_one (by_id deliveryId) (dead_letter now) internal
                   "Failed to dead-letter expired delivery";
  receipt ← operationReceipt {|
    rf_operation := Op_claim; rf_idempotencyKey := input.(ci_idempotency_key);
    rf_nodeId := auth.(auth_nodeId); rf_delivery := deadLettered;
    rf_statusBefore := NodeDeliveries.status delivery; rf_lease := None;
    rf_leaseExpiresAt := None; rf_claimOutcome := Some CO_dead_lettered;
    rf_releaseDetails := None; rf_recordedAt := now |};
  snapshot ← deliveryFromRow deadLettered;
  result ← parse deliveryClaimResultSchema (DeadLettered snapshot receipt false);
  _ ← persistNodeReceipt auth deadLettered receipt (claim_input deliveryId input)
        (Receipts.ClaimOutput result);
  _ ← auditNodeOperation auth deadLettered receipt;
  _ ← reconcileMissionInTransaction (NodeDeliveries.missionId deadLettered);
  mret result.

Definition expire_lease (now : Z) (d : NodeDeliveries.NodeDelivery) : NodeDeliveries.NodeDelivery :=
  (release_lease D_stored d) <| NodeDeliveries.availableAt := now |>.

Definition expireLeaseForRetry (auth : NodeCredentialContext)
    (delivery : NodeDeliveries.NodeDelivery) (now : Z) : LTx unit :=
  let deliveryId := NodeDeliveries.id delivery in
  match NodeDeliveries.activeLeaseId delivery, NodeDeliveries.leaseExpiresAt delivery with
  | Some leaseId, Some leaseExpiresAt =>
      _ ← fail_if (negb (needsLease (NodeDeliveries.status delivery))) internal
            "Expired retry is missing prior lease authority";
      stored ← update_one (by_id deliveryId) (expire_lease now) internal
                 "Failed to recover expired delivery lease";
      output ← deliveryFromRow stored;
      receiptId ← randomUUID;
      _ ← insert_receipt {|
        Receipts.id := receiptId; Receipts.origin := Receipts.relay;
        Receipts.nodeId := NodeDeliveries.nodeId delivery;
        Receipts.missionId := NodeDeliveries.missionId delivery;
        Receipts.deliveryId := deliveryId; Receipts.operation := Receipts.lease_expired;
        Receipts.idempotencyKey := "lease-expired:" +:+ deliveryId +:+ ":" +:+
          string_of_int (NodeDeliveries.attemptCount delivery);
        Receipts.credentialId := None;
        Receipts.attemptCount := NodeDeliveries.attemptCount delivery;
        Receipts.leaseId := Some leaseId;
        Receipts.fencingToken := Some (NodeDeliveries.lastFencingToken delivery);
        Receipts.leaseExpiresAt := Some leaseExpiresAt;
        Receipts.statusBefore := NodeDeliveries.status delivery;
        Receipts.statusAfter := D_stored; Receipts.cancellationReason := None;
        Receipts.input :=
          Receipts.ExpiredInput leaseId (NodeDeliveries.lastFencingToken delivery);
        Receipts.output := Receipts.DeliveryOutput output; Receipts.recordedAt := now |};
      audit None (Some auth.(auth_agentId)) "delivery.lease_expired" "node_delivery" deliveryId
        [("origin", AuditLog.AString "relay");
         ("node_id", AuditLog.AString (NodeDeliveries.nodeId delivery));
         ("mission_id", AuditLog.AString (NodeDeliveries.missionId delivery));
         ("attempt_count", AuditLog.ANumber (NodeDeliveries.attemptCount delivery));
         ("lease_id", AuditLog.AString leaseId);
         ("fencing_token", AuditLog.AString (NodeDeliveries.lastFencingToken delivery));
         ("status_before",
          AuditLog.AString (DeliveryStatus_name (NodeDeliveries.status delivery)));
         ("status_after", AuditLog.AString "stored")] auth.(auth_requestId)
  | _, _ => relay_fail internal "Expired retry is missing prior lease authority"
  end.

Definition loadMissionEvent (eventId : string) : LTx MissionEventRows.MissionEvent :=
  found ← fetch (fun t => array_find (fun e => MissionEventRows.id e === eventId) (missionEvents t));
  match found with
  | None => relay_fail internal "Delivery source Mission event is missing"
  | Some event => mret event
  end.

Definition grant_lease (leaseId : string) (attemptCount leaseExpiresAt : Z)
    (d : NodeDeliveries.NodeDelivery) : NodeDeliveries.NodeDelivery :=
  d <| NodeDeliveries.status := D_leased |> <| NodeDeliveries.attemptCount := attemptCount |>
    <| NodeDeliveries.lastFencingToken := string_of_int attemptCount |>
    <| NodeDeliveries.activeLeaseId := Some leaseId |>
    <| NodeDeliveries.leaseExpiresAt := Some leaseExpiresAt |>.

(** A claim of a delivery that has no lease. *)
Definition claim_stored (auth : NodeCredentialContext) (context : LockedDeliveryContext)
    (input : DeliveryClaimInput) (now : Z) : LTx DeliveryClaimResult :=
  let delivery := context.(cx_delivery) in
  let deliveryId := NodeDeliveries.id delivery in
  _ ← fail_if ((NodeDeliveries.status delivery !== D_stored) ||
               non_null (NodeDeliveries.settledByEventId delivery) ||
               (NodeDeliveries.maxAttempts delivery <=? NodeDeliveries.attemptCount delivery))
        invalid_transition "Delivery is not available for a new claim";
  _ ← fail_if (now <? NodeDeliveries.availableAt delivery) state_changed
        "Delivery retry is not available yet";
  let attemptCount := NodeDeliveries.attemptCount delivery + 1 in
  leaseId ← randomUUID;
  let fencingToken := string_of_int attemptCount in
  leaseExpiresAt ← boundedLeaseExpiry now (Missions.expiresAt context.(cx_mission));
  claimed ← update_one (by_id deliveryId) (grant_lease leaseId attemptCount leaseExpiresAt)
              internal "Failed to persist delivery claim";
  event ← loadMissionEvent (NodeDeliveries.missionEventId claimed);
  receipt ← operationReceipt {|
    rf_operation := Op_claim; rf_idempotencyKey := input.(ci_idempotency_key);
    rf_nodeId := auth.(auth_nodeId); rf_delivery := claimed; rf_statusBefore := D_stored;
    rf_lease := Some {| auth_lease_id := leaseId; auth_fencing_token := fencingToken |};
    rf_leaseExpiresAt := Some leaseExpiresAt; rf_claimOutcome := Some CO_claimed;
    rf_releaseDetails := None; rf_recordedAt := now |};
  item ← missionDeliveryItemFromRows claimed event;
  result ← parse deliveryClaimResultSchema (Claimed item receipt false);
  _ ← persistNodeReceipt auth claimed receipt (claim_input deliveryId input)
        (Receipts.ClaimOutput result);
  _ ← auditNodeOperation auth claimed receipt;
  mret result.

Definition with_delivery (context : LockedDeliveryContext) (d : NodeDeliveries.NodeDelivery)
    : LockedDeliveryContext :=
  {| cx_delivery := d; cx_mission := context.(cx_mission);
     cx_participantStatus := context.(cx_participantStatus);
     cx_workspaceStatus := context.(cx_workspaceStatus) |}.

Definition claim_new (auth : NodeCredentialContext) (context : LockedDeliveryContext)
    (input : DeliveryClaimInput) (now : Z) : LTx DeliveryClaimResult :=
  let delivery := context.(cx_delivery) in
  if needsLease (NodeDeliveries.status delivery) then
    match NodeDeliveries.leaseExpiresAt delivery with
    | None => relay_fail internal "Active delivery is missing its lease deadline"
    | Some leaseExpiresAt =>
        _ ← fail_if (now <? leaseExpiresAt) state_changed "Delivery already has an active lease";
        if NodeDeliveries.maxAttempts delivery <=? NodeDeliveries.attemptCount delivery
        then deadLetterExpiredFinalClaim auth delivery input now
        else
          _ ← expireLeaseForRetry auth delivery now;
          relocked ← lockDelivery auth.(auth_nodeId) (NodeDeliveries.id delivery);
          claim_stored auth (with_delivery context relocked) input now
    end
  else claim_stored auth context input now.

(** The callback of [claimDelivery]'s transaction. *)
Definition claim_operation (auth : NodeCredentialContext) (deliveryId : string)
    (input : DeliveryClaimInput) (locked : LockedDeliveryResult) : LTx DeliveryClaimResult :=
  let context := locked.(lk_context) in
  _ ← assertMissionRoutingAuthority context.(cx_mission);
  replay ← replayClaim auth.(auth_nodeId) deliveryId input;
  match replay with
  | Some result =>
      _ ← assertDeliveryMissionTrust context.(cx_mission);
      _ ← assertReplayableDelivery context.(cx_delivery);
      mret result
  | None =>
      _ ← assert_not_reconciled locked;
      _ ← assertDeliveryMissionTrust context.(cx_mission);
      _ ← assertRunnableContext context locked.(lk_now);
      claim_new auth context input locked.(lk_now)
  end.

Definition claimDelivery (auth : NodeCredentialContext) (deliveryId : string)
    (input : DeliveryClaimInput) : LTx DeliveryClaimResult :=
  _ ← parse deliveryClaimInputSchema input;
  runLockedDeliveryOperation auth deliveryId (claim_operation auth deliveryId input).

(** ** Start, renew, release *)

(** The callback of [mutateLeaseDelivery]'s transaction. *)
Definition lease_operation (auth : NodeCredentialContext) (deliveryId : string)
    (operation : DeliveryOperation) (idempotencyKey : string) (storedInput : Receipts.Input)
    (mutate : LockedDeliveryContext -> Z -> LTx DeliveryOperationResult)
    (locked : LockedDeliveryResult) : LTx DeliveryOperationResult :=
  let context := locked.(lk_context) in
  let delivery := context.(cx_delivery) in
  _ ← assertMissionRoutingAuthority context.(cx_mission);
  replay ← replayOperation auth.(auth_nodeId) deliveryId operation idempotencyKey storedInput;
  match replay with
  | Some result =>
      _ ← (if operation === Op_release then mret tt
           else assertDeliveryMissionTrust context.(cx_mission));
      _ ← assertReplayableDelivery delivery;
      mret result
  | None =>
      _ ← assert_not_reconciled locked;
      _ ← assertDeliveryMissionTrust context.(cx_mission);
      _ ← assertRunnableContext context locked.(lk_now);
      result ← mutate context locked.(lk_now);
      receipt ← parse deliveryOperationReceiptSchema result.(op_receipt);
      _ ← persistNodeReceipt auth delivery receipt storedInput (Receipts.OperationOutput result);
      _ ← auditNodeOperation auth delivery receipt;
      _ ← (if receipt.(or_status_after) === D_dead_lettered
           then (_ ← reconcileMissionInTransaction (NodeDeliveries.missionId delivery); mret tt)
           else mret tt);
      mret result
  end.

Definition mutateLeaseDelivery (auth : NodeCredentialContext) (deliveryId : string)
    (operation : DeliveryOperation) (idempotencyKey : string) (storedInput : Receipts.Input)
    (mutate : LockedDeliveryContext -> Z -> LTx DeliveryOperationResult)
    : LTx DeliveryOperationResult :=
  runLockedDeliveryOperation auth deliveryId
    (lease_operation auth deliveryId operation idempotencyKey storedInput mutate).

(** The result of a lease operation that left [after]. *)
Definition operation_result (auth : NodeCredentialContext) (operation : DeliveryOperation)
    (input : LeaseOperationInput) (before after : NodeDeliveries.NodeDelivery)
    (leaseExpiresAt : option Z) (release : option DeliveryReleaseDetails) (now : Z)
    : LTx DeliveryOperationResult :=
  receipt ← operationReceipt {|
    rf_operation := operation; rf_idempotencyKey := input.(li_idempotency_key);
    rf_nodeId := auth.(auth_nodeId); rf_delivery := after;
    rf_statusBefore := NodeDeliveries.status before; rf_lease := Some input.(li_authority);
    rf_leaseExpiresAt := leaseExpiresAt; rf_claimOutcome := None;
    rf_releaseDetails := release; rf_recordedAt := now |};
  snapshot ← deliveryFromRow after;
  parse (resultOf operation)
    {| op_delivery := snapshot; op_receipt := receipt; op_replayed := false |}.

Definition start_execution (d : NodeDeliveries.NodeDelivery) : NodeDeliveries.NodeDelivery :=
  d <| NodeDeliveries.status := D_executing |>.

Definition start_leased (auth : NodeCredentialContext) (input : LeaseOperationInput)
    (context : LockedDeliveryContext) (now : Z) : LTx DeliveryOperationResult :=
  let delivery := context.(cx_delivery) in
  _ ← fail_if (NodeDeliveries.status delivery !== D_leased) invalid_transition
        "Only a leased delivery can start execution";
  _ ← assertLeaseAuthority delivery input.(li_authority) now;
  started ← update_one (by_id (NodeDeliveries.id delivery)) start_execution internal
              "Failed to start delivery execution";
  operation_result auth Op_start input delivery started (NodeDeliveries.leaseExpiresAt started)
    None now.

Definition startDelivery (auth : NodeCredentialContext) (deliveryId : string)
    (input : LeaseOperationInput) : LTx DeliveryOperationResult :=
  _ ← parse leaseOperationInputSchema input;
  mutateLeaseDelivery auth deliveryId Op_start input.(li_idempotency_key)
    (lease_input deliveryId input) (start_leased auth input).

Definition extend_lease (leaseExpiresAt : Z) (d : NodeDeliveries.NodeDelivery)
    : NodeDeliveries.NodeDelivery :=
  d <| NodeDeliveries.leaseExpiresAt := Some leaseExpiresAt |>.

Definition renew_lease (auth : NodeCredentialContext) (input : LeaseOperationInput)
    (context : LockedDeliveryContext) (now : Z) : LTx DeliveryOperationResult :=
  let delivery := context.(cx_delivery) in
  _ ← assertActiveLeaseStatus delivery;
  _ ← assertLeaseAuthority delivery input.(li_authority) now;
  leaseExpiresAt ← boundedLeaseExpiry now (Missions.expiresAt context.(cx_mission));
  _ ← fail_if (match NodeDeliveries.leaseExpiresAt delivery with
               | None => true | Some old => leaseExpiresAt <? old end)
        invalid_transition "Delivery lease deadline cannot move backwards";
  renewed ← update_one (by_id (NodeDeliveries.id delivery)) (extend_lease leaseExpiresAt) internal
              "Failed to renew delivery lease";
  operation_result auth Op_renew input delivery renewed (Some leaseExpiresAt) None now.

Definition renewDelivery (auth : NodeCredentialContext) (deliveryId : string)
    (input : LeaseOperationInput) : LTx DeliveryOperationResult :=
  _ ← parse leaseOperationInputSchema input;
  mutateLeaseDelivery auth deliveryId Op_renew input.(li_idempotency_key)
    (lease_input deliveryId input) (renew_lease auth input).

Definition release_dead_letters (details : DeliveryReleaseDetails)
    (delivery : NodeDeliveries.NodeDelivery) (retryAt missionExpiresAt : Z) : bool :=
  (details.(rel_classification) !== R_transient) ||
  (NodeDeliveries.maxAttempts delivery <=? NodeDeliveries.attemptCount delivery) ||
  (missionExpiresAt <=? retryAt).

Definition release_to (deadLetter : bool) (retryAt now : Z) (d : NodeDeliveries.NodeDelivery)
    : NodeDeliveries.NodeDelivery :=
  if deadLetter then dead_letter now d
  else (release_lease D_stored d) <| NodeDeliveries.availableAt := retryAt |>
         <| NodeDeliveries.deadLetteredAt := None |>.

Definition release_leased (auth : NodeCredentialContext) (input : DeliveryReleaseInput)
    (context : LockedDeliveryContext) (now : Z) : LTx DeliveryOperationResult :=
  let delivery := context.(cx_delivery) in
  _ ← assertActiveLeaseStatus delivery;
  _ ← assertLeaseAuthority delivery input.(ri_lease).(li_authority) now;
  let retryAt := now + retryBackoffMs (NodeDeliveries.attemptCount delivery) in
  let deadLetter := release_dead_letters input.(ri_release) delivery retryAt
                      (Missions.expiresAt context.(cx_mission)) in
  released ← update_one (by_id (NodeDeliveries.id delivery)) (release_to deadLetter retryAt now)
               internal "Failed to release delivery";
  operation_result auth Op_release input.(ri_lease) delivery released
    (NodeDeliveries.leaseExpiresAt delivery) (Some input.(ri_release)) now.

Definition releaseDelivery (auth : NodeCredentialContext) (deliveryId : string)
    (input : DeliveryReleaseInput) : LTx DeliveryOperationResult :=
  _ ← parse deliveryReleaseInputSchema input;
  mutateLeaseDelivery auth deliveryId Op_release input.(ri_lease).(li_idempotency_key)
    (release_input deliveryId input) (release_leased auth input).
End DeliveryLedger.
