(* ===== verification/DeliveryCompletion.v ===== *)
(** * Completing a delivery

    [completeDelivery] of relay/src/services/delivery-ledger.ts: the Node's result
    becomes one or more coordinator events ([buildCompletionEvents]), which are
    appended to the Mission; the last of them settles the delivery, which is then
    acknowledged, and the siblings the same event settled are cancelled. *)

From S2P Require Import Prelude JsLib Schemas RelayStore.
From S2P Require Import MissionEvents MissionCoordinator DeliveryOperations.
From S2P Require Import LedgerStore MissionLedger MissionReconciliation DeliveryLedger.
Local Open Scope Z_scope.

Section Completion.
Context `{Zod, RelayEnv, LedgerEnv}.

(** ** The events of a result *)
Definition parseCompletionAppendInput (input : MissionCoordinatorAppendInput)
    : LTx MissionCoordinatorAppendInput :=
  _ ← fail_if (negb (missionCoordinatorAppendInputSchema input)) invalid_params
        "Completion content is invalid for this Mission";
  mret input.

Definition result_type (r : NodeDeliveryResultPayload) : EventType :=
  match r with
  | NR_turn_completed _ => ET_turn_completed
  | NR_contract_acknowledged => ET_contract_acknowledged
  | NR_verification_recorded _ => ET_verification_recorded
  end.

(** [`event:${randomUUID()}`] *)
Definition prefixed_uuid (prefix : string) : LTx string :=
  id ← randomUUID; mret (prefix +:+ id).

Definition reply_message (state : MissionCoordinatorState)
    (delivery : NodeDeliveries.NodeDelivery) (agentId : string) (disposition : TurnDisposition)
    (now : Z) : LTx (option Message) :=
  match disposition with
  | Reply message_type text artifacts =>
      messageId ← randomUUID;
      key ← prefixed_uuid "message:";
      mret (Some {|
        msg_message_id := messageId; msg_mission_id := NodeDeliveries.missionId delivery;
        msg_sequence_no := len (MissionEvents.messages state) + 1;
        msg_author_agent_id := agentId; msg_type := message_type; msg_body := text;
        msg_artifacts := default [] artifacts;
        msg_contract_version := NodeDeliveries.contractVersion delivery;
        msg_idempotency_key := key;
        msg_causal_parent_message_id := msg_message_id <$> at_last (MissionEvents.messages state);
        msg_created_at := toISOString now |})
  | _ => mret None
  end.

Definition proposal_revision (delivery : NodeDeliveries.NodeDelivery) (agentId : string)
    (disposition : TurnDisposition) (now : Z) : LTx (option ContractRevision) :=
  match disposition with
  | ProposeContract artifact =>
      revisionId ← randomUUID;
      key ← prefixed_uuid "revision:";
      mret (Some {|
        rev_revision_id := revisionId; rev_mission_id := NodeDeliveries.missionId delivery;
        rev_previous_version := NodeDeliveries.contractVersion delivery;
        rev_version := NodeDeliveries.contractVersion delivery + 1; rev_artifact := artifact;
        rev_proposed_by_agent_id := agentId; rev_acknowledged_by_agent_ids := [];
        rev_idempotency_key := key; rev_created_at := toISOString now |})
  | _ => mret None
  end.

Definition turn_events (state : MissionCoordinatorState) (delivery : NodeDeliveries.NodeDelivery)
    (agentId : string) (disposition : TurnDisposition) (now : Z)
    : LTx (list MissionCoordinatorAppendInput) :=
  message ← reply_message state delivery agentId disposition now;
  revision ← proposal_revision delivery agentId disposition now;
  key ← prefixed_uuid "event:";
  input ← parseCompletionAppendInput {|
    ai_idempotency_key := key;
    ai_body := TurnCompleted {|
      tc_participant_agent_id := agentId; tc_delivery_id := NodeDeliveries.id delivery;
      tc_contract_version := NodeDeliveries.contractVersion delivery;
      tc_disposition := disposition; tc_message := message; tc_revision := revision |} |};
  mret [input].

Definition acknowledgement_events (state : MissionCoordinatorState)
    (delivery : NodeDeliveries.NodeDelivery) (agentId : string)
    : LTx (list MissionCoordinatorAppendInput) :=
  match state.(pending_revision) with
  | None => relay_fail invalid_transition "Mission has no pending contract revision"
  | Some pending_ =>
      key ← prefixed_uuid "event:";
      input ← parseCompletionAppendInput {|
        ai_idempotency_key := key;
        ai_body := ContractAcknowledged {|
          ca_participant_agent_id := agentId; ca_delivery_id := NodeDeliveries.id delivery;
          ca_revision_id := pending_.(rev_revision_id);
          ca_contract_version := NodeDeliveries.contractVersion delivery;
          ca_artifact := pending_.(rev_artifact) |} |};
      mret [input]
  end.

(** [new Map(evidence.map((e) => [e.command_id, e]))]: a later entry replaces an
    earlier one. *)
Definition evidence_for (evidence : list VerificationEvidence) (commandId : string)
    : option VerificationEvidence :=
  at_last (array_filter (fun e => e.(vev_command_id) === commandId) evidence).

Definition verification_event (delivery : NodeDeliveries.NodeDelivery) (agentId : string)
    (round : Z) (evidence : VerificationEvidence) : LTx MissionCoordinatorAppendInput :=
  key ← prefixed_uuid "event:";
  parseCompletionAppendInput {|
    ai_idempotency_key := key;
    ai_body := VerificationRecorded {|
      vr_participant_agent_id := agentId; vr_delivery_id := NodeDeliveries.id delivery;
      vr_contract_version := NodeDeliveries.contractVersion delivery;
      vr_verification_round := round; vr_evidence := evidence |} |}.

Definition verification_events (state : MissionCoordinatorState)
    (delivery : NodeDeliveries.NodeDelivery) (agentId : string)
    (evidence : list VerificationEvidence) : LTx (list MissionCoordinatorAppendInput) :=
  match NodeDeliveries.verificationRound delivery,
        state.(required_verification_commands) !! agentId with
  | Some round, Some required =>
      _ ← fail_if ((len (distinct (map vev_command_id evidence)) !== len required) ||
                   some (fun c => negb (includes (map vev_command_id evidence) c)) required)
            invalid_params "Verification completion must contain the exact required command set";
      for_each (verification_event delivery agentId round) (omap (evidence_for evidence) required)
  | _, _ => relay_fail invalid_transition "Verification delivery routing is invalid"
  end.

Definition buildCompletionEvents (context : LockedDeliveryContext) (auth : NodeCredentialContext)
    (result : NodeDeliveryResultPayload) (now : Z) : LTx (list MissionCoordinatorAppendInput) :=
  let delivery := context.(cx_delivery) in
  state ← parse missionCoordinatorStateSchema (Missions.state context.(cx_mission));
  _ ← fail_if (result_type result !== expectedEventType (NodeDeliveries.kind delivery))
        invalid_params "Completion result does not match delivery kind";
  match result with
  | NR_turn_completed disposition => turn_events state delivery auth.(auth_agentId) disposition now
  | NR_contract_acknowledged => acknowledgement_events state delivery auth.(auth_agentId)
  | NR_verification_recorded evidence =>
      verification_events state delivery auth.(auth_agentId) evidence
  end.

(** ** Appending them *)
Fixpoint append_all (auth : NodeCredentialContext) (authority : DeliveryLeaseAuthority) (now : Z)
    (inputs : list MissionCoordinatorAppendInput) (mission : Missions.Mission)
    : LTx (list AppendMissionEventResult) :=
  match inputs with
  | [] => mret []
  | input :: inputs =>
      appended ← appendMissionEventInTransaction mission {|
        in_actorAgentId := auth.(auth_agentId); in_appendInput := input;
        in_requestId := auth.(auth_requestId); in_allowDerivedAcceptance := false;
        in_sourceAuthorization := Some {|
          sa_status := D_executing; sa_nodeId := Some auth.(auth_nodeId);
          sa_leaseId := Some authority.(auth_lease_id);
          sa_fencingToken := Some authority.(auth_fencing_token) |};
        in_recordedAt := Some now |};
      updated ← fetch (find_mission (Missions.id mission));
      match updated with
      | None => relay_fail internal "Mission vanished during completion"
      | Some mission => rest ← append_all auth authority now inputs mission; mret (appended :: rest)
      end
  end.

Definition acknowledge_delivery (now : Z) (d : NodeDeliveries.NodeDelivery)
    : NodeDeliveries.NodeDelivery :=
  (release_lease D_acknowledged d) <| NodeDeliveries.acknowledgedAt := Some now |>.

(** The row the acknowledgement still finds under the caller's lease, settled by
    the last event. *)
Definition completed_row (auth : NodeCredentialContext) (deliveryId : string)
    (authority : DeliveryLeaseAuthority) (eventId : string) (now : Z)
    (d : NodeDeliveries.NodeDelivery) : bool :=
  (NodeDeliveries.id d === deliveryId) && (NodeDeliveries.nodeId d === auth.(auth_nodeId)) &&
  (NodeDeliveries.status d === D_executing) &&
  (NodeDeliveries.activeLeaseId d === Some authority.(auth_lease_id)) &&
  (NodeDeliveries.lastFencingToken d === authority.(auth_fencing_token)) &&
  (NodeDeliveries.settledByEventId d === Some eventId) &&
  match NodeDeliveries.leaseExpiresAt d with None => false | Some expires => now <? expires end.

(** ** Superseded siblings *)
Definition superseded (missionId eventId sourceId : string) (d : NodeDeliveries.NodeDelivery)
    : bool :=
  (NodeDeliveries.missionId d === missionId) &&
  (NodeDeliveries.settledByEventId d === Some eventId) && (NodeDeliveries.id d !== sourceId) &&
  open_status (NodeDeliveries.status d).

Definition cancel_superseded (auth : NodeCredentialContext) (eventId : string) (now : Z)
    (sibling : NodeDeliveries.NodeDelivery) : LTx unit :=
  row ← update_one
    (fun d => (NodeDeliveries.id d === NodeDeliveries.id sibling) &&
              (NodeDeliveries.status d === NodeDeliveries.status sibling) &&
              (NodeDeliveries.settledByEventId d === Some eventId))
    (cancel_delivery C_work_superseded now) internal "Failed to cancel superseded delivery";
  output ← deliveryFromRow row;
  receiptId ← randomUUID;
  _ ← insert_receipt (relay_cancellation receiptId
        ("cancel:" +:+ NodeDeliveries.id sibling +:+ ":" +:+ eventId) C_work_superseded
        (Receipts.CancelInput C_work_superseded eventId) (Receipts.DeliveryOutput output) now
        sibling);
  audit None (Some auth.(auth_agentId)) "delivery.cancel" "node_delivery"
    (NodeDeliveries.id sibling)
    [("origin", AuditLog.AString "relay");
     ("node_id", AuditLog.AString (NodeDeliveries.nodeId sibling));
     ("mission_id", AuditLog.AString (NodeDeliveries.missionId sibling));
     ("reason", AuditLog.AString "work_superseded");
     ("settled_by_event_id", AuditLog.AString eventId)] auth.(auth_requestId).

Definition cancelSupersededSiblings (auth : NodeCredentialContext)
    (source : NodeDeliveries.NodeDelivery) (eventId : string) (now : Z) : LTx unit :=
  siblings ← fetch (fun t => sort_by by_cursor (array_filter
    (superseded (NodeDeliveries.missionId source) eventId (NodeDeliveries.id source))
    (nodeDeliveries t)));
  _ ← for_each (fun d => take_lock (DeliveryRow (NodeDeliveries.id d))) siblings;
  _ ← for_each (cancel_superseded auth eventId now) siblings;
  mret tt.

(** ** The operation *)
Definition complete_executing (auth : NodeCredentialContext) (deliveryId : string)
    (input : DeliveryCompleteInput) (context : LockedDeliveryContext) (now : Z)
    : LTx DeliveryCompleteResult :=
  let delivery := context.(cx_delivery) in
  let authority := input.(cmi_lease).(li_authority) in
  _ ← fail_if ((NodeDeliveries.status delivery !== D_executing) ||
               non_null (NodeDeliveries.settledByEventId delivery)) invalid_transition
        "Only unsettled executing work can publish a completion";
  _ ← assertLeaseAuthority delivery authority now;
  inputs ← buildCompletionEvents context auth input.(cmi_result) now;
  appended ← append_all auth authority now inputs context.(cx_mission);
  match at_last appended with
  | None => relay_fail internal "Completion produced no Mission result"
  | Some final =>
      let finalId := event_id final.(ap_event) in
      acknowledged ← update_one (completed_row auth deliveryId authority finalId now)
                       (acknowledge_delivery now) invalid_transition
                       "Completion did not settle its source delivery";
      _ ← cancelSupersededSiblings auth acknowledged finalId now;
      receipt ← operationReceipt {|
        rf_operation := Op_complete; rf_idempotencyKey := input.(cmi_lease).(li_idempotency_key);
        rf_nodeId := auth.(auth_nodeId); rf_delivery := acknowledged;
        rf_statusBefore := D_executing; rf_lease := Some authority;
        rf_leaseExpiresAt := NodeDeliveries.leaseExpiresAt delivery; rf_claimOutcome := None;
        rf_releaseDetails := None; rf_recordedAt := now |};
      snapshot ← deliveryFromRow acknowledged;
      result ← parse deliveryCompleteResultSchema {|
        cr_delivery := snapshot; cr_receipt := receipt; cr_events := map ap_event appended;
        cr_derived_delivery_ids := distinct (concat (map ap_deliveryIds appended));
        cr_replayed := false |};
      _ ← persistNodeReceipt auth acknowledged receipt (complete_input deliveryId input)
            (Receipts.CompleteOutput result);
      _ ← auditNodeOperation auth acknowledged receipt;
      mret result
  end.

(** The callback of [completeDelivery]'s transaction. *)
Definition complete_operation (auth : NodeCredentialContext) (deliveryId : string)
    (input : DeliveryCompleteInput) (locked : LockedDeliveryResult) : LTx DeliveryCompleteResult :=
  let context := locked.(lk_context) in
  _ ← assertMissionRoutingAuthority context.(cx_mission);
  replay ← replayComplete auth.(auth_nodeId) deliveryId input;
  match replay with
  | Some result => _ ← assertReplayableDelivery context.(cx_delivery); mret result
  | None =>
      _ ← assert_not_reconciled locked;
      _ ← assertDeliveryMissionTrust context.(cx_mission);
      _ ← assertRunnableContext context locked.(lk_now);
      complete_executing auth deliveryId input context locked.(lk_now)
  end.

Definition completeDelivery (auth : NodeCredentialContext) (deliveryId : string)
    (input : DeliveryCompleteInput) : LTx DeliveryCompleteResult :=
  _ ← parse deliveryCompleteInputSchema input;
  runLockedDeliveryOperation auth deliveryId (complete_operation auth deliveryId input).

(** ** Reading *)

(** The rows of a page joined with their event and a live, unexpired Mission. *)
Definition delivery_page (keep : NodeDeliveries.NodeDelivery -> bool) (nodeId : string) (now : Z)
    (limit : Z) (t : LedgerTables)
    : list (NodeDeliveries.NodeDelivery * MissionEventRows.MissionEvent) :=
  take (Z.to_nat limit) (omap (fun d =>
    e ← array_find (fun e => MissionEventRows.id e === NodeDeliveries.missionEventId d)
          (missionEvents t);
    m ← find_mission (NodeDeliveries.missionId d) t;
    if is_live (Missions.status m) && (now <? Missions.expiresAt m) then Some (d, e) else None)
    (sort_by by_cursor (array_filter (fun d =>
       (NodeDeliveries.nodeId d === nodeId) && is_null (NodeDeliveries.settledByEventId d) &&
       keep d) (nodeDeliveries t)))).

Definition items_of (rows : list (NodeDeliveries.NodeDelivery * MissionEventRows.MissionEvent))
    : LTx (list MissionDeliveryItem) :=
  for_each (fun row => missionDeliveryItemFromRows row.1 row.2) rows.

(** [after_cursor] and [limit] have passed the request's schema; [cursor] is the
    number the text denotes. *)
Record PageRequest := { pg_after : option Z; pg_after_text : option string; pg_limit : Z }.

Definition listStoredDeliveryEvents (nodeId : string) (page : PageRequest)
    : LTx StoredMissionDeliveryCursorPage :=
  now ← readDatabaseClock;
  rows ← fetch (delivery_page (fun d =>
    (NodeDeliveries.status d === D_stored) && (NodeDeliveries.availableAt d <=? now) &&
    match page.(pg_after) with None => true | Some c => c <? NodeDeliveries.cursor d end)
    nodeId now page.(pg_limit));
  items ← items_of rows;
  parse storedMissionDeliveryCursorPageSchema {|
    smp_items := items;
    smp_next_cursor := match at_last items with
                       | Some item => Some (item_cursor item) | None => page.(pg_after_text) end |}.

Definition listAvailableDeliveryEvents (nodeId : string) (page : PageRequest)
    : LTx StoredMissionDeliveryCursorPage :=
  _ ← reconcileNodeMissions nodeId;
  listStoredDeliveryEvents nodeId page.

Definition listRecoverableDeliveryEvents (nodeId : string) (limit : Z)
    : LTx RecoverableMissionDeliveryPage :=
  _ ← reconcileNodeMissions nodeId;
  asOf ← readDatabaseClock;
  rows ← fetch (delivery_page (fun d =>
    ((NodeDeliveries.status d === D_stored) && (0 <? NodeDeliveries.attemptCount d) &&
     (NodeDeliveries.availableAt d <=? asOf)) || needsLease (NodeDeliveries.status d))
    nodeId asOf limit);
  items ← items_of rows;
  parse recoverableMissionDeliveryPageSchema {| rmp_items := items; rmp_as_of := toISOString asOf |}.
End Completion.
