(* ===== verification/DeliveryRevocation.v ===== *)
(** * Revoking the work of a Node

    relay/src/services/delivery-revocation.ts: the transaction that revokes a
    Node, one of its workspaces or all the Nodes of an agent cancels every open
    delivery of the Missions they take part in, whichever Node it was for. *)

From S2P Require Import Prelude JsLib Schemas RelayStore.
From S2P Require Import MissionEvents MissionCoordinator DeliveryOperations.
From S2P Require Import LedgerStore MissionLedger MissionReconciliation.
Local Open Scope Z_scope.

Inductive RevocationScope := NodeRevoked | WorkspaceRevoked (workspaceBindingId : string).
Definition scope_reason (scope : RevocationScope) : DeliveryCancellationReason :=
  match scope with NodeRevoked => C_node_revoked | WorkspaceRevoked _ => C_workspace_revoked end.
Definition scope_binding (scope : RevocationScope) : option string :=
  match scope with NodeRevoked => None | WorkspaceRevoked id => Some id end.

(** [AuditActor] of services/audit.ts. *)
Inductive AuditActor := AgentActor (actorId : string) | AdminActor | SystemActor.
Definition actor_kind (a : AuditActor) : string :=
  match a with AgentActor _ => "agent" | AdminActor => "admin" | SystemActor => "system" end.
Definition actor_id (a : AuditActor) : option string :=
  match a with AgentActor id => Some id | AdminActor | SystemActor => None end.
Definition copyAuditActor (a : AuditActor) : AuditActor :=
  match a with AgentActor id => AgentActor id | AdminActor => AdminActor | SystemActor => SystemActor end.

Record CancelDeliveriesForRevocationInput := {
  cr_nodeId : string; cr_actorId : string; cr_requestId : option string; cr_scope : RevocationScope }.
Record CancelDeliveriesForNodeRevocationsInput := {
  cn_actor : AuditActor; cn_nodeIds : list string; cn_requestId : option string;
  cn_targetAgentId : option string }.
Record CancelMissionDeliveriesInput := {
  cm_actor : AuditActor; cm_missionIds : list string; cm_requestId : option string;
  cm_revokedNodeIds : list string; cm_scope : RevocationScope; cm_targetAgentId : option string }.

(** [ids.length === 1 ? ids[0] : null] *)
Definition only_one (ids : list string) : option string :=
  match ids with [id] => Some id | _ => None end.

(** [ORDER BY mission_id, id] *)
Definition by_mission_and_id (a b : NodeDeliveries.NodeDelivery) : Z :=
  let c := code_unit_order (NodeDeliveries.missionId a) (NodeDeliveries.missionId b) in
  if c =? 0 then code_unit_order (NodeDeliveries.id a) (NodeDeliveries.id b) else c.

Section Revocation.
Context `{Zod, RelayEnv, LedgerEnv}.

Definition priorLeaseEvidence (delivery : NodeDeliveries.NodeDelivery) : LTx (option DeliveryLease) :=
  match NodeDeliveries.activeLeaseId delivery, NodeDeliveries.leaseExpiresAt delivery with
  | None, None => mret None
  | Some lease, Some expires => mret (Some {|
      lease_lease_id := lease;
      lease_fencing_token := NodeDeliveries.lastFencingToken delivery;
      lease_expires_at := toISOString expires |})
  | _, _ => relay_fail internal "Delivery has partial lease authority during revocation"
  end.

(** [new Date(prior.lease_expires_at)] *)
Definition prior_deadline (prior : option DeliveryLease) : LTx (option Z) :=
  match prior with
  | Some lease => t ← as_date lease.(lease_expires_at); mret (Some t)
  | None => mret None
  end.

Definition revocation_input (input : CancelMissionDeliveriesInput) (prior : option DeliveryLease)
    (delivery : NodeDeliveries.NodeDelivery) : Receipts.Input :=
  Receipts.RevocationInput (scope_reason input.(cm_scope)) (NodeDeliveries.nodeId delivery)
    input.(cm_revokedNodeIds) (scope_binding input.(cm_scope)) (NodeDeliveries.status delivery) prior.

Definition revocation_audit (input : CancelMissionDeliveriesInput) (prior : option DeliveryLease)
    (delivery : NodeDeliveries.NodeDelivery) : list (string * AuditLog.AuditValue) :=
  match input.(cm_targetAgentId) with
  | Some agent => if agent === "" then [] else [("target_agent_id", AuditLog.AString agent)]
  | None => []
  end ++
  [("origin", AuditLog.AString "relay");
   ("node_id", AuditLog.AString (NodeDeliveries.nodeId delivery));
   ("revoked_node_id", audit_id (only_one input.(cm_revokedNodeIds)));
   ("revoked_node_ids", AuditLog.AStrings input.(cm_revokedNodeIds));
   ("mission_id", AuditLog.AString (NodeDeliveries.missionId delivery));
   ("workspace_binding_id", audit_id (scope_binding input.(cm_scope)));
   ("reason", AuditLog.AString (DeliveryCancellationReason_name (scope_reason input.(cm_scope))));
   ("status_before", AuditLog.AString (DeliveryStatus_name (NodeDeliveries.status delivery)));
   ("attempt_count", AuditLog.ANumber (NodeDeliveries.attemptCount delivery));
   ("lease_id", audit_id (lease_lease_id <$> prior));
   ("fencing_token", audit_id (lease_fencing_token <$> prior));
   ("lease_expires_at", audit_id (lease_expires_at <$> prior))].

(** The receipt of one cancellation. *)
Definition revocation_receipt (id : string) (input : CancelMissionDeliveriesInput) (now : Z)
    (prior : option DeliveryLease) (deadline : option Z)
    (delivery cancelled : NodeDeliveries.NodeDelivery) : Receipts.Receipt :=
  let reason := scope_reason input.(cm_scope) in {|
  Receipts.id := id; Receipts.origin := Receipts.relay;
  Receipts.nodeId := NodeDeliveries.nodeId delivery;
  Receipts.missionId := NodeDeliveries.missionId delivery;
  Receipts.deliveryId := NodeDeliveries.id delivery; Receipts.operation := Receipts.cancel;
  Receipts.idempotencyKey :=
    "cancel:" +:+ DeliveryCancellationReason_name reason +:+ ":" +:+ NodeDeliveries.id delivery;
  Receipts.credentialId := None; Receipts.attemptCount := NodeDeliveries.attemptCount delivery;
  Receipts.leaseId := lease_lease_id <$> prior; Receipts.fencingToken := lease_fencing_token <$> prior;
  Receipts.leaseExpiresAt := deadline; Receipts.statusBefore := NodeDeliveries.status delivery;
  Receipts.statusAfter := D_cancelled; Receipts.cancellationReason := Some reason;
  Receipts.input := revocation_input input prior delivery;
  Receipts.output := Receipts.CancelledOutput cancelled; Receipts.recordedAt := now |}.

Definition cancel_for_revocation (input : CancelMissionDeliveriesInput) (now : Z)
    (delivery : NodeDeliveries.NodeDelivery) : LTx string :=
  cancelled ← update_one (fun d => NodeDeliveries.id d === NodeDeliveries.id delivery)
    (cancel_delivery (scope_reason input.(cm_scope)) now)
    internal "Failed to cancel delivery during revocation";
  prior ← priorLeaseEvidence delivery;
  deadline ← prior_deadline prior;
  receiptId ← randomUUID;
  _ ← insert_receipt (revocation_receipt receiptId input now prior deadline delivery cancelled);
  let actor := copyAuditActor input.(cm_actor) in
  _ ← audit (Some (actor_kind actor)) (actor_id actor) "delivery.cancel" "node_delivery"
        (NodeDeliveries.id delivery) (revocation_audit input prior delivery) input.(cm_requestId);
  mret (NodeDeliveries.id delivery).

(** The deliveries the query locks. *)
Definition open_in (missionIds : list string) (d : NodeDeliveries.NodeDelivery) : bool :=
  includes missionIds (NodeDeliveries.missionId d) && open_status (NodeDeliveries.status d).

Definition cancelMissionDeliveries (input : CancelMissionDeliveriesInput) : LTx (list string) :=
  let missionIds := sort_strings (distinct input.(cm_missionIds)) in
  if len missionIds =? 0 then mret [] else
  _ ← for_each (fun missionId => lock_key missionId) missionIds;
  deliveries ← fetch (fun t =>
    sort_by by_mission_and_id (array_filter (open_in missionIds) (nodeDeliveries t)));
  _ ← for_each (fun d => take_lock (DeliveryRow (NodeDeliveries.id d))) deliveries;
  if len deliveries =? 0 then mret [] else
  now ← readDatabaseClock;
  for_each (cancel_for_revocation input now) deliveries.

(** The Missions of the participants that meet the condition. *)
Definition participant_missions (p : MissionParticipants.MissionParticipant -> bool)
    (t : LedgerTables) : list string :=
  sort_strings (distinct (map MissionParticipants.missionId (array_filter p (missionParticipants t)))).

Definition in_scope (nodeId : string) (scope : RevocationScope)
    (p : MissionParticipants.MissionParticipant) : bool :=
  (MissionParticipants.nodeId p === nodeId) &&
  match scope with
  | NodeRevoked => true
  | WorkspaceRevoked binding => MissionParticipants.workspaceBindingId p === binding
  end.

Definition cancelDeliveriesForRevocation (input : CancelDeliveriesForRevocationInput)
    : LTx (list string) :=
  missionIds ← fetch (participant_missions (in_scope input.(cr_nodeId) input.(cr_scope)));
  cancelMissionDeliveries {|
    cm_actor := AgentActor input.(cr_actorId); cm_missionIds := missionIds;
    cm_requestId := input.(cr_requestId); cm_revokedNodeIds := [input.(cr_nodeId)];
    cm_scope := input.(cr_scope); cm_targetAgentId := None |}.

Definition cancelDeliveriesForNodeRevocations (input : CancelDeliveriesForNodeRevocationsInput)
    : LTx (list string) :=
  let nodeIds := sort_strings (distinct input.(cn_nodeIds)) in
  if len nodeIds =? 0 then mret [] else
  missionIds ← fetch (participant_missions (fun p =>
    includes nodeIds (MissionParticipants.nodeId p)));
  cancelMissionDeliveries {|
    cm_actor := copyAuditActor input.(cn_actor); cm_missionIds := missionIds;
    cm_requestId := input.(cn_requestId); cm_revokedNodeIds := nodeIds;
    cm_scope := NodeRevoked; cm_targetAgentId := input.(cn_targetAgentId) |}.
End Revocation.
