(* ===== verification/NodeStore.v ===== *)
(** * The tables of agents' Nodes

    The inserts and updates of [nodes], [node_credentials], [workspace_bindings],
    [api_keys] and [agents] (relay/src/db/schema.ts) with their checks, unique
    indexes and foreign keys.  The rows of one update share one reading of
    [clock_timestamp()] in [SET], and the [set_updated_at] trigger reads the clock
    after it. *)

From S2P Require Import Prelude JsLib Schemas RelayStore.
From S2P Require Import LedgerStore MissionLedger.
Local Open Scope Z_scope.

#[export] Instance Agent_eta : Settable Agents.Agent := fun a =>
  Agents.Build_Agent (Agents.id a) (Agents.handle a) (Agents.email a) (Agents.displayName a)
    (Agents.role a) (Agents.status a) (Agents.createdAt a) (Agents.updatedAt a).

Section NodeStore.
Context `{RelayEnv, LedgerEnv}.

(** ** [nodes] *)
Definition active_name (n : Nodes.Node) : option (string * string) :=
  if Nodes.status n === S_active then Some (Nodes.agentId n, Nodes.name n) else None.
Definition node_checks (n : Nodes.Node) : list (bool * string) :=
  [(Bool.eqb (Nodes.status n === S_revoked) (non_null (Nodes.revokedAt n)), "nodes_revoked_at_chk")].

Definition insert_node (agentId name : string) (capabilities : list string) : LTx Nodes.Node :=
  id ← randomUUID;
  now ← tx_now;
  b ← read_base (fun b => b);
  t ← fetch (fun t => t);
  let row := {|
    Nodes.id := id; Nodes.agentId := agentId; Nodes.name := name; Nodes.status := S_active;
    Nodes.capabilities := capabilities; Nodes.lastSeenAt := None; Nodes.revokedAt := None;
    Nodes.createdAt := now; Nodes.updatedAt := now |} in
  _ ← check_all (node_checks row ++
    [(negb (some (fun n => Nodes.id n === id) (nodes t)), "nodes_pkey");
     (negb (some (fun n => active_name n === Some (agentId, name)) (nodes t)),
      "idx_nodes_active_name");
     (agent_exists b agentId, "nodes_agent_id_agents_id_fk")]);
  _ ← put (fun t => t <| nodes := nodes t ++ [row] |>);
  mret row.

(** [SET status = 'revoked', revoked_at = clock_timestamp()] *)
Definition revoked_node (revokedAt stampedAt : Z) (n : Nodes.Node) : Nodes.Node :=
  n <| Nodes.status := S_revoked |> <| Nodes.revokedAt := Some revokedAt |>
    <| Nodes.updatedAt := stampedAt |>.
Definition revoke_nodes (p : Nodes.Node -> bool) : LTx unit :=
  revokedAt ← wall_clock;
  stampedAt ← wall_clock;
  t ← fetch (fun t => t);
  let all := map (fun n => if p n then revoked_node revokedAt stampedAt n else n) (nodes t) in
  _ ← check_all (concat (map node_checks all) ++
    [(unique_values (omap active_name all), "idx_nodes_active_name")]);
  put (fun t => t <| nodes := all |>).

(** ** [node_credentials] *)
Definition active_node (c : NodeCredentials.NodeCredential) : option string :=
  if is_null (NodeCredentials.revokedAt c) then Some (NodeCredentials.nodeId c) else None.
Definition active_hash (c : NodeCredentials.NodeCredential) : option string :=
  if is_null (NodeCredentials.revokedAt c) then Some (NodeCredentials.keyHash c) else None.

Definition insert_credential (nodeId keyHash salt label : string) : LTx string :=
  id ← randomUUID;
  now ← tx_now;
  t ← fetch (fun t => t);
  let taken := fun p => some p (nodeCredentials t) in
  _ ← check_all
    [(negb (taken (fun c => NodeCredentials.id c === id)), "node_credentials_pkey");
     (negb (taken (fun c => active_node c === Some nodeId)), "idx_node_credentials_active_node");
     (negb (taken (fun c => active_hash c === Some keyHash)), "idx_node_credentials_active_hash");
     (some (fun n => Nodes.id n === nodeId) (nodes t), "node_credentials_node_id_nodes_id_fk")];
  _ ← put (fun t => t <| nodeCredentials := nodeCredentials t ++ [{|
    NodeCredentials.id := id; NodeCredentials.nodeId := nodeId; NodeCredentials.keyHash := keyHash;
    NodeCredentials.salt := salt; NodeCredentials.label := Some label;
    NodeCredentials.lastUsedAt := None; NodeCredentials.revokedAt := None;
    NodeCredentials.createdAt := now |}] |>);
  mret id.

(** [SET revoked_at = clock_timestamp() ... RETURNING id] *)
Definition revoked_credential (revokedAt : Z) (c : NodeCredentials.NodeCredential)
    : NodeCredentials.NodeCredential := c <| NodeCredentials.revokedAt := Some revokedAt |>.
Definition revoke_credentials (p : NodeCredentials.NodeCredential -> bool) : LTx (list string) :=
  revokedAt ← wall_clock;
  t ← fetch (fun t => t);
  _ ← put (fun t => t <| nodeCredentials :=
        map (fun c => if p c then revoked_credential revokedAt c else c) (nodeCredentials t) |>);
  mret (map NodeCredentials.id (array_filter p (nodeCredentials t))).

(** ** [workspace_bindings] *)
Definition active_alias (w : WorkspaceBindings.WorkspaceBinding) : option (string * string) :=
  if WorkspaceBindings.status w === S_active
  then Some (WorkspaceBindings.nodeId w, WorkspaceBindings.alias w) else None.
Definition binding_checks (w : WorkspaceBindings.WorkspaceBinding) : list (bool * string) :=
  [(Bool.eqb (WorkspaceBindings.status w === S_revoked) (non_null (WorkspaceBindings.revokedAt w)),
    "workspace_bindings_revoked_at_chk")].

Definition insert_binding (nodeId alias repositoryUrl : string) (allowedBaseRefs : list string)
    : LTx WorkspaceBindings.WorkspaceBinding :=
  id ← randomUUID;
  now ← tx_now;
  t ← fetch (fun t => t);
  let row := {|
    WorkspaceBindings.id := id; WorkspaceBindings.nodeId := nodeId;
    WorkspaceBindings.alias := alias; WorkspaceBindings.repositoryUrl := repositoryUrl;
    WorkspaceBindings.allowedBaseRefs := allowedBaseRefs; WorkspaceBindings.status := S_active;
    WorkspaceBindings.revokedAt := None; WorkspaceBindings.createdAt := now;
    WorkspaceBindings.updatedAt := now |} in
  let taken := fun p => some p (workspaceBindings t) in
  _ ← check_all (binding_checks row ++
    [(negb (taken (fun w => WorkspaceBindings.id w === id)), "workspace_bindings_pkey");
     (negb (taken (fun w => active_alias w === Some (nodeId, alias))),
      "idx_workspace_bindings_active_alias");
     (some (fun n => Nodes.id n === nodeId) (nodes t), "workspace_bindings_node_id_nodes_id_fk")]);
  _ ← put (fun t => t <| workspaceBindings := workspaceBindings t ++ [row] |>);
  mret row.

Definition revoked_binding (revokedAt stampedAt : Z) (w : WorkspaceBindings.WorkspaceBinding)
    : WorkspaceBindings.WorkspaceBinding :=
  w <| WorkspaceBindings.status := S_revoked |> <| WorkspaceBindings.revokedAt := Some revokedAt |>
    <| WorkspaceBindings.updatedAt := stampedAt |>.
Definition revoke_bindings (p : WorkspaceBindings.WorkspaceBinding -> bool) : LTx (list string) :=
  revokedAt ← wall_clock;
  stampedAt ← wall_clock;
  t ← fetch (fun t => t);
  let all := map (fun w => if p w then revoked_binding revokedAt stampedAt w else w)
               (workspaceBindings t) in
  _ ← check_all (concat (map binding_checks all) ++
    [(unique_values (omap active_alias all), "idx_workspace_bindings_active_alias")]);
  _ ← put (fun t => t <| workspaceBindings := all |>);
  mret (map WorkspaceBindings.id (array_filter p (workspaceBindings t))).

(** ** [api_keys] *)
Definition active_key_hash (k : ApiKeys.ApiKey) : option string :=
  if is_null (ApiKeys.revokedAt k) then Some (ApiKeys.keyHash k) else None.

Definition insert_api_key (agentId keyHash salt label : string) : LTx string :=
  id ← randomUUID;
  now ← tx_now;
  b ← read_base (fun b => b);
  t ← fetch (fun t => t);
  let taken := fun p => some p (apiKeys t) in
  _ ← check_all
    [(negb (taken (fun k => ApiKeys.id k === id)), "api_keys_pkey");
     (negb (taken (fun k => active_key_hash k === Some keyHash)), "idx_api_keys_active_hash");
     (agent_exists b agentId, "api_keys_agent_id_agents_id_fk")];
  _ ← put (fun t => t <| apiKeys := apiKeys t ++ [{|
    ApiKeys.id := id; ApiKeys.agentId := agentId; ApiKeys.keyHash := keyHash;
    ApiKeys.salt := salt; ApiKeys.label := Some label; ApiKeys.lastUsedAt := None;
    ApiKeys.revokedAt := None; ApiKeys.createdAt := now |}] |>);
  mret id.

Definition revoke_api_keys (p : ApiKeys.ApiKey -> bool) (revokedAt : Z) : LTx unit :=
  put (fun t => t <| apiKeys :=
    map (fun k => if p k then k <| ApiKeys.revokedAt := Some revokedAt |> else k) (apiKeys t) |>).

(** ** [agents] *)

(** [email] is a [citext] column: its equality ignores case. *)
Definition insert_agent (handle email displayName role : string) : LTx Agents.Agent :=
  id ← randomUUID;
  now ← tx_now;
  b ← read_base (fun b => b);
  let row := {|
    Agents.id := id; Agents.handle := handle; Agents.email := email;
    Agents.displayName := displayName; Agents.role := role; Agents.status := Agents.active;
    Agents.createdAt := now; Agents.updatedAt := now |} in
  let taken := fun p => some p (agents b) in
  _ ← check_all
    [(negb (taken (fun a => Agents.id a === id)), "agents_pkey");
     (negb (taken (fun a => Agents.handle a === handle)), "agents_handle_unique");
     (negb (taken (fun a => to_lower (Agents.email a) === to_lower email)),
      "agents_email_unique")];
  _ ← lift (write (fun b => b <| agents := agents b ++ [row] |>));
  mret row.

(** [UPDATE agents SET status = 'disabled' WHERE id = $1] *)
Definition disable_agent (agentId : string) : LTx unit :=
  stampedAt ← wall_clock;
  lift (write (fun b => b <| agents := map (fun a =>
    if Agents.id a === agentId
    then a <| Agents.status := Agents.disabled |> <| Agents.updatedAt := stampedAt |> else a)
    (agents b) |>)).
End NodeStore.
