(* ===== verification/NodeEnrollment.v ===== *)
(** * Node enrollment

    relay/src/services/node-enrollment.ts: an agent enrolls Nodes, rotates their
    credentials and revokes them; a Node registers and revokes the workspaces it
    serves.  The checks every mutation starts with ([assertActiveNodeCredential],
    the locks) are in [MissionLedger]. *)

From S2P Require Import Prelude JsLib Schemas RelayStore.
From S2P Require Import MissionEvents MissionCoordinator DeliveryOperations.
From S2P Require Import Keys LedgerStore MissionLedger MissionReconciliation.
From S2P Require Import DeliveryRevocation NodeStore.
Local Open Scope Z_scope.

Record IssuedNodeCredential := { cred_id : string; cred_token : string }.
Record EnrollNodeResult := { en_node : NodeDescriptor; en_credential : IssuedNodeCredential }.
Record RegisterWorkspaceResult := { rw_workspace : WorkspaceBindingDescriptor; rw_replayed : bool }.
Record OwnedNodeSummary := { own_node : NodeDescriptor; own_active_credential_id : option string }.
Definition ownedNodeSummarySchema `{Zod} (s : OwnedNodeSummary) : bool :=
  nodeDescriptorSchema s.(own_node) && nullable uuidSchema s.(own_active_credential_id).

(** The details of the [state_changed] errors are left out, as everywhere. *)
Section Enrollment.
Context `{Zod, RelayEnv, LedgerEnv}.

Definition toNodeDescriptor (node : Nodes.Node) : LTx NodeDescriptor :=
  parse nodeDescriptorSchema {|
    node_node_id := Nodes.id node; node_agent_id := Nodes.agentId node;
    node_name := Nodes.name node; node_status := Nodes.status node;
    node_capabilities := Nodes.capabilities node;
    node_last_seen_at := toISOString <$> Nodes.lastSeenAt node;
    node_created_at := toISOString (Nodes.createdAt node);
    node_updated_at := toISOString (Nodes.updatedAt node);
    node_revoked_at := toISOString <$> Nodes.revokedAt node |}.

Definition toWorkspaceDescriptor (agentId : string) (workspace : WorkspaceBindings.WorkspaceBinding)
    : LTx WorkspaceBindingDescriptor :=
  parse workspaceBindingDescriptorSchema {|
    wsb_workspace_binding_id := WorkspaceBindings.id workspace;
    wsb_node_id := WorkspaceBindings.nodeId workspace; wsb_agent_id := agentId;
    wsb_alias := WorkspaceBindings.alias workspace;
    wsb_repository_url := WorkspaceBindings.repositoryUrl workspace;
    wsb_allowed_base_refs := WorkspaceBindings.allowedBaseRefs workspace;
    wsb_status := WorkspaceBindings.status workspace;
    wsb_created_at := toISOString (WorkspaceBindings.createdAt workspace);
    wsb_updated_at := toISOString (WorkspaceBindings.updatedAt workspace);
    wsb_revoked_at := toISOString <$> WorkspaceBindings.revokedAt workspace |}.

(** ** Owners *)
Definition named_active (agentId name : string) (n : Nodes.Node) : bool :=
  (Nodes.agentId n === agentId) && (Nodes.name n === name) && (Nodes.status n === S_active).

(** The transaction, for the key generated before it. *)
Definition enroll_with (agentId : string) (input : NodeEnrollmentInput) (generated : GeneratedKey)
    (requestId : option string) : LTx EnrollNodeResult :=
  let capabilities := sort_strings input.(enroll_capabilities) in
  ledger_transaction (
    _ ← lockAgentLifecycle agentId;
    _ ← lock_key ("node-enroll:" +:+ agentId +:+ ":" +:+ input.(enroll_name));
    owner ← read_base (fun b => active_agent b agentId);
    _ ← fail_if (negb owner) unauthenticated "Only an active agent can enroll a Node";
    existing ← fetch (fun t => some (named_active agentId input.(enroll_name)) (nodes t));
    _ ← fail_if existing state_changed "An active Node with this name already exists";
    node ← insert_node agentId input.(enroll_name) capabilities;
    credential ← insert_credential (Nodes.id node) generated.(hash) generated.(salt) "enrollment";
    _ ← audit None (Some agentId) "node.enroll" "node" (Nodes.id node)
          [("credential_id", AuditLog.AString credential);
           ("name", AuditLog.AString (Nodes.name node));
           ("capabilities", AuditLog.AStrings capabilities)] requestId;
    descriptor ← toNodeDescriptor node;
    mret {| en_node := descriptor;
            en_credential := {| cred_id := credential; cred_token := generated.(raw) |} |}).

Definition enrollNode `{RelayCrypto} (agentId : string) (input : NodeEnrollmentInput)
    (env : KeyEnvironment) (pepper : string) (drawn salted : list Z) (requestId : option string)
    : LTx EnrollNodeResult :=
  enroll_with agentId input (generateNodeKey env pepper drawn salted) requestId.

(** [ORDER BY created_at, id] *)
Definition by_creation (createdAt : Z) (id : string) (createdAt' : Z) (id' : string) : Z :=
  if createdAt =? createdAt' then code_unit_order id id' else createdAt - createdAt'.
Definition by_node (a b : Nodes.Node) : Z :=
  by_creation (Nodes.createdAt a) (Nodes.id a) (Nodes.createdAt b) (Nodes.id b).

(** The left join of a Node with its active credentials. *)
Definition active_credentials (t : LedgerTables) (nodeId : string) : list string :=
  map NodeCredentials.id (array_filter (fun c =>
    (NodeCredentials.nodeId c === nodeId) && is_null (NodeCredentials.revokedAt c))
    (nodeCredentials t)).
Definition node_rows (agentId : string) (t : LedgerTables) : list (Nodes.Node * option string) :=
  concat (map (fun n =>
    match active_credentials t (Nodes.id n) with
    | [] => [(n, None)]
    | ids => map (fun id => (n, Some id)) ids
    end) (sort_by by_node (array_filter (fun n => Nodes.agentId n === agentId) (nodes t)))).

Fixpoint owned_summaries (rows : list (Nodes.Node * option string)) (seen : list string)
    : LTx (list OwnedNodeSummary) :=
  match rows with
  | [] => mret []
  | (node, credential) :: rows =>
      _ ← fail_if (includes seen (Nodes.id node)) internal "Node has multiple active credentials";
      descriptor ← toNodeDescriptor node;
      summary ← parse ownedNodeSummarySchema
        {| own_node := descriptor; own_active_credential_id := credential |};
      summaries ← owned_summaries rows (Nodes.id node :: seen);
      mret (summary :: summaries)
  end.
Definition listNodes (agentId : string) : LTx (list OwnedNodeSummary) :=
  rows ← fetch (node_rows agentId);
  owned_summaries rows [].

Definition owned_node (nodeId agentId : string) (t : LedgerTables) : option Nodes.Node :=
  array_find (fun n => (Nodes.id n === nodeId) && (Nodes.agentId n === agentId)) (nodes t).

Definition getNode (nodeId agentId : string) : LTx NodeDescriptor :=
  found ← fetch (owned_node nodeId agentId);
  match found with
  | Some node => toNodeDescriptor node
  | None => relay_fail node_not_found "Node not found"
  end.

(** [.limit(2)] *)
Definition loadActiveCredentialIds (nodeId : string) : LTx (list string) :=
  fetch (fun t => take 2 (active_credentials t nodeId)).
Definition credentialStateChanged {A} : LTx A :=
  relay_fail state_changed "Active Node credential changed; refresh the owner Node summary".

Definition rotate_with (agentId nodeId expected_credential_id : string) (generated : GeneratedKey)
    (requestId : option string) : LTx IssuedNodeCredential :=
  ledger_transaction (
    _ ← lockNodeMutation nodeId;
    found ← fetch (owned_node nodeId agentId);
    match found with
    | None => relay_fail node_not_found "Node not found"
    | Some node =>
        _ ← fail_if (Nodes.status node !== S_active) invalid_transition
              "Cannot rotate a revoked Node credential";
        activeCredentials ← loadActiveCredentialIds nodeId;
        if activeCredentials !== [expected_credential_id] then credentialStateChanged else
        revoked ← revoke_credentials (fun c =>
          (NodeCredentials.id c === expected_credential_id) &&
          (NodeCredentials.nodeId c === nodeId) && is_null (NodeCredentials.revokedAt c));
        match revoked with
        | [] => _ ← loadActiveCredentialIds nodeId; credentialStateChanged
        | previous :: _ =>
            credential ← insert_credential nodeId generated.(hash) generated.(salt) "owner-rotated";
            _ ← audit None (Some agentId) "node.credential.rotate" "node" nodeId
                  [("previous_credential_id", AuditLog.AString previous);
                   ("credential_id", AuditLog.AString credential)] requestId;
            mret {| cred_id := credential; cred_token := generated.(raw) |}
        end
    end).

Definition rotateNodeCredential `{RelayCrypto} (agentId nodeId expected_credential_id : string)
    (env : KeyEnvironment) (pepper : string) (drawn salted : list Z) (requestId : option string)
    : LTx IssuedNodeCredential :=
  rotate_with agentId nodeId expected_credential_id (generateNodeKey env pepper drawn salted)
    requestId.

Definition active_credential_of (nodeId : string) (c : NodeCredentials.NodeCredential) : bool :=
  (NodeCredentials.nodeId c === nodeId) && is_null (NodeCredentials.revokedAt c).
Definition active_binding_of (nodeId : string) (w : WorkspaceBindings.WorkspaceBinding) : bool :=
  (WorkspaceBindings.nodeId w === nodeId) && (WorkspaceBindings.status w === S_active).

Definition revokeNode (agentId nodeId : string) (requestId : option string) : LTx unit :=
  ledger_transaction (
    _ ← lockNodeMutation nodeId;
    found ← fetch (owned_node nodeId agentId);
    match found with
    | None => relay_fail node_not_found "Node not found"
    | Some node =>
        if Nodes.status node === S_revoked then mret tt else
        _ ← cancelDeliveriesForRevocation {|
              cr_nodeId := nodeId; cr_actorId := agentId; cr_requestId := requestId;
              cr_scope := NodeRevoked |};
        _ ← revoke_nodes (fun n => Nodes.id n === nodeId);
        _ ← revoke_credentials (active_credential_of nodeId);
        _ ← revoke_bindings (active_binding_of nodeId);
        audit None (Some agentId) "node.revoke" "node" nodeId [] requestId
    end).

(** ** Workspaces *)

(** [WHERE node_id = $1 AND alias = $2 ORDER BY created_at LIMIT 1] *)
Definition workspace_by_alias (nodeId alias : string) (t : LedgerTables)
    : option WorkspaceBindings.WorkspaceBinding :=
  head (sort_by (fun a b => WorkspaceBindings.createdAt a - WorkspaceBindings.createdAt b)
    (array_filter (fun w => (WorkspaceBindings.nodeId w === nodeId) &&
                            (WorkspaceBindings.alias w === alias)) (workspaceBindings t))).
Definition lock_workspace (nodeId alias : string) : LTx unit :=
  lock_key ("workspace:" +:+ nodeId +:+ ":" +:+ alias).

Definition registerWorkspace (auth : NodeCredentialContext) (input : WorkspaceRegistrationInput)
    : LTx RegisterWorkspaceResult :=
  let allowedBaseRefs := sort_strings input.(wsr_allowed_base_refs) in
  ledger_transaction (
    _ ← lockNodeMutation auth.(auth_nodeId);
    _ ← lock_workspace auth.(auth_nodeId) input.(wsr_alias);
    _ ← assertActiveNodeCredential auth;
    found ← fetch (workspace_by_alias auth.(auth_nodeId) input.(wsr_alias));
    match found with
    | Some existing =>
        _ ← fail_if (WorkspaceBindings.status existing !== S_active) invalid_transition
              "A revoked workspace alias cannot be registered again";
        _ ← fail_if ((WorkspaceBindings.repositoryUrl existing !== input.(wsr_repository_url)) ||
                     (WorkspaceBindings.allowedBaseRefs existing !== allowedBaseRefs))
              state_changed "Workspace alias is already registered with different configuration";
        workspace ← toWorkspaceDescriptor auth.(auth_agentId) existing;
        mret {| rw_workspace := workspace; rw_replayed := true |}
    | None =>
        workspace ← insert_binding auth.(auth_nodeId) input.(wsr_alias) input.(wsr_repository_url)
                      allowedBaseRefs;
        _ ← audit None (Some auth.(auth_agentId)) "workspace.register" "workspace_binding"
              (WorkspaceBindings.id workspace)
              [("node_id", AuditLog.AString auth.(auth_nodeId));
               ("credential_id", AuditLog.AString auth.(auth_credentialId));
               ("alias", AuditLog.AString (WorkspaceBindings.alias workspace))]
              auth.(auth_requestId);
        descriptor ← toWorkspaceDescriptor auth.(auth_agentId) workspace;
        mret {| rw_workspace := descriptor; rw_replayed := false |}
    end).

Definition by_binding (a b : WorkspaceBindings.WorkspaceBinding) : Z :=
  by_creation (WorkspaceBindings.createdAt a) (WorkspaceBindings.id a)
    (WorkspaceBindings.createdAt b) (WorkspaceBindings.id b).
Definition listWorkspaces (nodeId agentId : string) : LTx (list WorkspaceBindingDescriptor) :=
  rows ← fetch (fun t => sort_by by_binding
    (array_filter (fun w => WorkspaceBindings.nodeId w === nodeId) (workspaceBindings t)));
  for_each (toWorkspaceDescriptor agentId) rows.

Definition revokeWorkspace (auth : NodeCredentialContext) (alias : string) : LTx unit :=
  ledger_transaction (
    _ ← lockNodeMutation auth.(auth_nodeId);
    _ ← lock_workspace auth.(auth_nodeId) alias;
    _ ← assertActiveNodeCredential auth;
    found ← fetch (workspace_by_alias auth.(auth_nodeId) alias);
    match found with
    | None => relay_fail workspace_not_found "Workspace not found"
    | Some workspace =>
        if WorkspaceBindings.status workspace === S_revoked then mret tt else
        _ ← cancelDeliveriesForRevocation {|
              cr_nodeId := auth.(auth_nodeId); cr_actorId := auth.(auth_agentId);
              cr_requestId := auth.(auth_requestId);
              cr_scope := WorkspaceRevoked (WorkspaceBindings.id workspace) |};
        revoked ← revoke_bindings (fun w => WorkspaceBindings.id w === WorkspaceBindings.id workspace);
        _ ← fail_if (len revoked =? 0) internal "Failed to revoke workspace";
        audit None (Some auth.(auth_agentId)) "workspace.revoke" "workspace_binding"
          (WorkspaceBindings.id workspace)
          [("node_id", AuditLog.AString auth.(auth_nodeId));
           ("credential_id", AuditLog.AString auth.(auth_credentialId));
           ("alias", AuditLog.AString (WorkspaceBindings.alias workspace))] auth.(auth_requestId)
    end).
End Enrollment.
