(* ===== verification/AgentAccounts.v ===== *)
(** * Agents' accounts

    relay/src/services/agent-registration.ts, the handlers of
    relay/src/routes/admin.ts behind its parameter checks, and what
    relay/src/auth/middleware.ts resolves a bearer token to.  The fire-and-forget
    presence updates of the middleware are [touch_key] and [touch_node]. *)

From S2P Require Import Prelude JsLib Schemas RelayStore.
From S2P Require Import MissionEvents MissionCoordinator DeliveryOperations.
From S2P Require Import Keys LedgerStore MissionLedger MissionReconciliation.
From S2P Require Import DeliveryRevocation NodeStore NodeEnrollment.
Local Open Scope Z_scope.

(** ** Registration *)
Record RegisterAgentInput := {
  ra_handle : string; ra_email : option string; ra_displayName : option string; ra_role : string;
  ra_pepper : string; ra_keyEnvironment : KeyEnvironment; ra_keyLabel : option string }.
Record RegisterAgentResult := { ra_agent : Agents.Agent; ra_apiKey : string }.

Section Accounts.
Context `{Zod, RelayEnv, LedgerEnv}.

Definition register_with (input : RegisterAgentInput) (generated : GeneratedKey)
    : LTx RegisterAgentResult :=
  existing ← read_base (fun b => some (fun a => Agents.handle a === input.(ra_handle)) (agents b));
  _ ← fail_if existing invalid_params
        ("Handle '" +:+ input.(ra_handle) +:+ "' is already registered");
  agent ← insert_agent input.(ra_handle) (default input.(ra_handle) input.(ra_email))
            (default input.(ra_handle) input.(ra_displayName)) input.(ra_role);
  _ ← insert_api_key (Agents.id agent) generated.(hash) generated.(salt)
        (default "initial" input.(ra_keyLabel));
  mret {| ra_agent := agent; ra_apiKey := generated.(raw) |}.

Definition registerAgentWithInitialKey `{RelayCrypto} (input : RegisterAgentInput)
    (drawn salted : list Z) : LTx RegisterAgentResult :=
  register_with input (generateKey input.(ra_keyEnvironment) input.(ra_pepper) drawn salted).

(** ** The admin's handlers *)

(** POST /admin/agents *)
Definition createAgent `{RelayCrypto} (input : RegisterAgentInput) (drawn salted : list Z)
    : LTx RegisterAgentResult :=
  ledger_transaction (registerAgentWithInitialKey input drawn salted).

Definition find_agent (agentId : string) (b : Tables) : option Agents.Agent :=
  array_find (fun a => Agents.id a === agentId) (agents b).

(** POST /admin/agents/:id/keys/rotate; [now] is the process's [new Date()]. *)
Definition rotate_keys_with (agentId : string) (generated : GeneratedKey) (now : Z)
    : LTx (string * string) :=
  keyId ← ledger_transaction (
    _ ← lockAgentLifecycle agentId;
    found ← read_base (find_agent agentId);
    match found with
    | None => relay_fail recipient_not_found "Agent not found"
    | Some agent =>
        _ ← fail_if (Agents.status agent !== Agents.active) invalid_transition
              "Cannot rotate keys for a disabled agent";
        _ ← revoke_api_keys (fun k => ApiKeys.agentId k === agentId) now;
        insert_api_key agentId generated.(hash) generated.(salt) "rotated"
    end);
  mret (keyId, generated.(raw)).

Definition rotateAgentKeys `{RelayCrypto} (agentId : string) (env : KeyEnvironment)
    (pepper : string) (drawn salted : list Z) (now : Z) : LTx (string * string) :=
  rotate_keys_with agentId (generateKey env pepper drawn salted) now.

(** DELETE /admin/agents/:id *)
Definition owned_nodes (agentId : string) (t : LedgerTables) : list Nodes.Node :=
  sort_by (fun a b => code_unit_order (Nodes.id a) (Nodes.id b))
    (array_filter (fun n => Nodes.agentId n === agentId) (nodes t)).

Definition revoke_owned (agentId : string) (nodeIds : list string) (requestId : option string)
    : LTx unit :=
  if 0 <? len nodeIds then
    _ ← cancelDeliveriesForNodeRevocations {|
          cn_actor := AdminActor; cn_nodeIds := nodeIds; cn_requestId := requestId;
          cn_targetAgentId := Some agentId |};
    _ ← revoke_credentials (fun c => includes nodeIds (NodeCredentials.nodeId c) &&
                                     is_null (NodeCredentials.revokedAt c));
    _ ← revoke_bindings (fun w => includes nodeIds (WorkspaceBindings.nodeId w) &&
                                  (WorkspaceBindings.status w === S_active));
    revoke_nodes (fun n => includes nodeIds (Nodes.id n) && (Nodes.status n === S_active))
  else mret tt.

Definition disableAgent (agentId : string) (requestId : option string) : LTx unit :=
  ledger_transaction (
    _ ← lockAgentLifecycle agentId;
    found ← read_base (find_agent agentId);
    match found with
    | None => relay_fail recipient_not_found "Agent not found"
    | Some _ =>
        ownedNodes ← fetch (owned_nodes agentId);
        _ ← for_each (fun node => lockNodeMutation (Nodes.id node)) ownedNodes;
        let nodeIds := map Nodes.id ownedNodes in
        _ ← revoke_owned agentId nodeIds requestId;
        _ ← disable_agent agentId;
        revokedAt ← wall_clock;
        _ ← revoke_api_keys (fun k => (ApiKeys.agentId k === agentId) &&
                                      is_null (ApiKeys.revokedAt k)) revokedAt;
        audit (Some "admin") None "agent.disable" "agent" agentId
          [("target_agent_id", AuditLog.AString agentId);
           ("revoked_node_ids", AuditLog.AStrings nodeIds)] requestId
    end).
End Accounts.

(** ** Bearer tokens *)
(** A character [.] does not match. *)
Definition line_terminator (c : Z) : bool := (c =? 10) || (c =? 13).

(** [/^Bearer\s+(.+)$/i]; where only spaces follow the scheme, the group is the
    last of them. *)
Definition extractBearer (header : option string) : option string :=
  match header with
  | None => None
  | Some header =>
      match strip "bearer" (to_lower (String.substring 0 6 header)) with
      | None => None
      | Some _ =>
          match String.substring 6 (String.length header - 6) header with
          | EmptyString => None
          | String c tail =>
              if negb (is_js_space (JsLib.code c)) || (slen tail =? 0) then None else
              let group := trim_start tail in
              if all_chars (fun c => negb (line_terminator c)) group
              then Some (trim group) else None
          end
      end
  end.

Definition LAST_USED_DEBOUNCE_MS : Z := 60000.
(** One of the two debounce maps: whether to write, and the map afterwards. *)
Definition shouldUpdateLastUsed (debounce : gmap string Z) (keyId : string) (now : Z)
    : bool * gmap string Z :=
  match debounce !! keyId with
  | Some prev =>
      if (prev !== 0) && (now - prev <? LAST_USED_DEBOUNCE_MS) then (false, debounce)
      else (true, <[keyId := now]> debounce)
  | None => (true, <[keyId := now]> debounce)
  end.

Record AuthenticatedAgent := {
  aa_id : string; aa_handle : string; aa_email : string; aa_role : string;
  aa_status : Agents.AgentStatus; aa_apiKeyId : string }.
Record AuthenticatedNode := {
  authn_id : string; authn_agentId : string; authn_name : string; authn_status : BindingStatus;
  authn_credentialId : string }.

Section Authentication.
Context `{RelayEnv, LedgerEnv, RelayCrypto}.

Definition key_row (hash : string) (b : Tables) (t : LedgerTables)
    : option (ApiKeys.ApiKey * Agents.Agent) :=
  head (omap (fun k => a ← find_agent (ApiKeys.agentId k) b; Some (k, a))
    (array_filter (fun k => (ApiKeys.keyHash k === hash) && is_null (ApiKeys.revokedAt k))
       (apiKeys t))).

(** What [bearerAuth] sets as the request's agent. *)
Definition bearerAuth (pepper : string) (header : option string) : LTx AuthenticatedAgent :=
  match extractBearer header with
  | Some raw =>
      if isWellFormedKey raw then
        b ← read_base (fun b => b);
        row ← fetch (key_row (hashKey raw pepper) b);
        match row with
        | None => relay_fail unauthenticated "Invalid or revoked API key"
        | Some (key, agent) =>
            _ ← fail_if (Agents.status agent !== Agents.active) forbidden "Agent is disabled";
            mret {| aa_id := ApiKeys.agentId key; aa_handle := Agents.handle agent;
                    aa_email := Agents.email agent; aa_role := Agents.role agent;
                    aa_status := Agents.status agent; aa_apiKeyId := ApiKeys.id key |}
        end
      else relay_fail unauthenticated "Missing or malformed bearer token"
  | None => relay_fail unauthenticated "Missing or malformed bearer token"
  end.

(** The inner join of [nodeBearerAuth]. *)
Definition credential_row (hash : string) (b : Tables) (t : LedgerTables)
    : option (NodeCredentials.NodeCredential * Nodes.Node) :=
  head (omap (fun c =>
    n ← array_find (fun n => (Nodes.id n === NodeCredentials.nodeId c) &&
                             (Nodes.status n === S_active) && active_agent b (Nodes.agentId n))
          (nodes t);
    Some (c, n))
    (array_filter (fun c => (NodeCredentials.keyHash c === hash) &&
                            is_null (NodeCredentials.revokedAt c)) (nodeCredentials t))).

Definition nodeBearerAuth (pepper : string) (header : option string) : LTx AuthenticatedNode :=
  match extractBearer header with
  | Some raw =>
      if isWellFormedNodeKey raw then
        b ← read_base (fun b => b);
        row ← fetch (credential_row (hashKey raw pepper) b);
        match row with
        | None => relay_fail unauthenticated "Invalid or revoked Node credential"
        | Some (credential, node) =>
            mret {| authn_id := Nodes.id node; authn_agentId := Nodes.agentId node;
                    authn_name := Nodes.name node; authn_status := Nodes.status node;
                    authn_credentialId := NodeCredentials.id credential |}
        end
      else relay_fail unauthenticated "Missing or malformed Node bearer token"
  | None => relay_fail unauthenticated "Missing or malformed Node bearer token"
  end.

(** The presence updates; a Node's are two statements of their own. *)
Definition touch_key (keyId : string) (now : Z) : LTx unit :=
  put (fun t => t <| apiKeys := map (fun k =>
    if ApiKeys.id k === keyId then k <| ApiKeys.lastUsedAt := Some now |> else k) (apiKeys t) |>).
Definition touch_credential (credentialId : string) : LTx unit :=
  now ← wall_clock;
  put (fun t => t <| nodeCredentials := map (fun c =>
    if (NodeCredentials.id c === credentialId) && is_null (NodeCredentials.revokedAt c)
    then c <| NodeCredentials.lastUsedAt := Some now |> else c) (nodeCredentials t) |>).
Definition touch_node (nodeId : string) : LTx unit :=
  now ← wall_clock;
  stampedAt ← wall_clock;
  put (fun t => t <| nodes := map (fun n =>
    if (Nodes.id n === nodeId) && (Nodes.status n === S_active)
    then n <| Nodes.lastSeenAt := Some now |> <| Nodes.updatedAt := stampedAt |> else n) (nodes t) |>).
End Authentication.
