(* ===== verification/LedgerExample.v ===== *)
(** * A concrete Mission ledger

    The Mission of [MissionExample], created by one of its participants, accepted
    by both Nodes, and worked on: the runs the ledger's witnesses evaluate. *)

From S2P Require Import Prelude JsLib Schemas RelayStore.
From S2P Require Import MissionEvents MissionCoordinator MissionExample DeliveryOperations.
From S2P Require Import LedgerStore MissionLedger MissionReconciliation.
From S2P Require Import DeliveryLedger DeliveryCompletion.
Local Open Scope Z_scope.

#[local] Existing Instance example_zod.

Definition two_hex (n : nat) : string :=
  let d k := nth k ["0";"1";"2";"3";"4";"5";"6";"7";"8";"9";"a";"b";"c";"d";"e";"f"]%string "0"%string in
  d (n / 16)%nat +:+ d (n mod 16)%nat.

#[local] Instance ex_relay_env : RelayEnv := {|
  json := string; json_is_string := fun _ => true; json_is_array := fun _ => true;
  gen_random_uuid := fun n => "50000000-0000-4000-8000-0000000000" +:+ two_hex n |}.

(** The clock starts at [ex_start] and advances by one second a reading, a million
    times. *)
Definition ex_start : Z := 1785758400000.
#[local] Instance ex_ledger_env : LedgerEnv := {|
  clock_timestamp := fun n => ex_start + 1000 * Z.min (Z.of_nat n) 1000000;
  localeCompare := code_unit_order;
  input_octets := fun _ => 512; output_octets := fun _ => 2048 |}.

Definition ex_config : MissionCoordinatorConfig :=
  {| cfg_mission_context :=
       {| ctx_manifest := ex_manifest;
          ctx_created_by := {| actor_principal_id := ex_agent_a; actor_kind := A_agent |} |};
     cfg_required_verification_commands := ex_cfg.(cfg_required_verification_commands) |}.

Definition ex_node (digit agent : string) : Nodes.Node := {|
  Nodes.id := "60000000-0000-4000-8000-00000000000" +:+ digit; Nodes.agentId := agent;
  Nodes.name := "laptop"; Nodes.status := S_active; Nodes.capabilities := [];
  Nodes.lastSeenAt := None; Nodes.revokedAt := None; Nodes.createdAt := 0; Nodes.updatedAt := 0 |}.
Definition ex_credential (digit : string) : NodeCredentials.NodeCredential := {|
  NodeCredentials.id := "70000000-0000-4000-8000-00000000000" +:+ digit;
  NodeCredentials.nodeId := "60000000-0000-4000-8000-00000000000" +:+ digit;
  NodeCredentials.keyHash := "hash" +:+ digit; NodeCredentials.salt := "salt";
  NodeCredentials.label := None; NodeCredentials.lastUsedAt := None;
  NodeCredentials.revokedAt := None; NodeCredentials.createdAt := 0 |}.
Definition ex_binding (digit alias : string) : WorkspaceBindings.WorkspaceBinding := {|
  WorkspaceBindings.id := "80000000-0000-4000-8000-00000000000" +:+ digit;
  WorkspaceBindings.nodeId := "60000000-0000-4000-8000-00000000000" +:+ digit;
  WorkspaceBindings.alias := alias;
  WorkspaceBindings.repositoryUrl := "https://github.com/acme/service";
  WorkspaceBindings.allowedBaseRefs := []; WorkspaceBindings.status := S_active;
  WorkspaceBindings.revokedAt := None; WorkspaceBindings.createdAt := 0;
  WorkspaceBindings.updatedAt := 0 |}.

Definition ex_relay_agent (id : string) : Agents.Agent := {|
  Agents.id := id; Agents.handle := id; Agents.email := id; Agents.displayName := id;
  Agents.role := "dev"; Agents.status := Agents.active; Agents.createdAt := 0;
  Agents.updatedAt := 0 |}.

Definition ex_ledger : Ledger := {|
  base := {| tables := {| agents := [ex_relay_agent ex_agent_a; ex_relay_agent ex_agent_b];
                          agentBlocks := []; handoffs := []; RelayStore.messages := [];
                          mailboxEvents := []; auditLog := []; notified := [] |};
             cursorSeq := 0; auditSeq := 0; draws := 0; held := [] |};
  ledger := {| nodes := [ex_node "a" ex_agent_a; ex_node "b" ex_agent_b];
               nodeCredentials := [ex_credential "a"; ex_credential "b"];
               workspaceBindings := [ex_binding "a" "client"; ex_binding "b" "server"];
               missions := []; missionParticipants := []; missionEvents := [];
               nodeDeliveries := []; receipts := []; apiKeys := [] |};
  ticks := 0; txTime := 0; deliverySeq := 0 |}.

Definition ex_auth (digit : string) : NodeCredentialContext := {|
  auth_nodeId := "60000000-0000-4000-8000-00000000000" +:+ digit;
  auth_agentId := ex_id digit;
  auth_credentialId := "70000000-0000-4000-8000-00000000000" +:+ digit;
  auth_requestId := Some "r" |}.

Definition ex_acceptance (key : string) : MissionParticipantAcceptanceInput := {|
  acc_idempotency_key := key; acc_contract := ex_artifact 1;
  acc_local_policy_grant := {| grant_profile_name := "default"; grant_sha256 := ex_hash |} |}.

Definition ex_draw (n : nat) : string := gen_random_uuid n.
Definition ex_claim (key : string) : DeliveryClaimInput := {| ci_idempotency_key := key |}.
Definition ex_presented (key leaseId token : string) : LeaseOperationInput := {|
  li_idempotency_key := key;
  li_authority := {| auth_lease_id := leaseId; auth_fencing_token := token |} |}.
Definition ex_completes (key leaseId token : string) (r : NodeDeliveryResultPayload)
    : DeliveryCompleteInput := {|
  cmi_lease := ex_presented key leaseId token; cmi_result := r |}.

Definition after_of {A} (m : LTx A) (s : Ledger) : Ledger := (m s).2.
Definition value_of {A} (m : LTx A) (s : Ledger) : result Failure A := (m s).1.

Definition ex_created_ledger : Ledger :=
  after_of (createMissionLedger ex_agent_a ex_config None) ex_ledger.
Definition ex_accepted_ledger : Ledger :=
  after_of (acceptMissionParticipant ex_mission ex_agent_b (ex_acceptance "accept-b") None
              (Some (ex_auth "b")))
    (after_of (acceptMissionParticipant ex_mission ex_agent_a (ex_acceptance "accept-a") None
                 (Some (ex_auth "a"))) ex_created_ledger).

(** ** Working on the Mission *)

(** The Node's delivery that nothing has settled yet, and its lease. *)
Definition ex_open (digit : string) (s : Ledger) : string :=
  match array_find (fun d => (NodeDeliveries.nodeId d === (ex_auth digit).(auth_nodeId)) &&
                             is_null (NodeDeliveries.settledByEventId d))
          (nodeDeliveries (ledger s)) with
  | Some d => NodeDeliveries.id d | None => "" end.
Definition ex_row (deliveryId : string) (s : Ledger) : option NodeDeliveries.NodeDelivery :=
  array_find (by_id deliveryId) (nodeDeliveries (ledger s)).
Definition ex_held_lease (deliveryId : string) (s : Ledger) : DeliveryLeaseAuthority :=
  match ex_row deliveryId s with
  | Some d => {| auth_lease_id := default "" (NodeDeliveries.activeLeaseId d);
                 auth_fencing_token := NodeDeliveries.lastFencingToken d |}
  | None => {| auth_lease_id := ""; auth_fencing_token := "" |} end.
Definition ex_lease_input (key deliveryId : string) (s : Ledger) : LeaseOperationInput :=
  {| li_idempotency_key := key; li_authority := ex_held_lease deliveryId s |}.

(** One delivery worked on from claim to completion. *)
Definition ex_work (digit key : string) (r : NodeDeliveryResultPayload) (s : Ledger) : Ledger :=
  let id := ex_open digit s in
  let s := after_of (claimDelivery (ex_auth digit) id (ex_claim (key +:+ "-claim"))) s in
  let s := after_of (startDelivery (ex_auth digit) id (ex_lease_input (key +:+ "-start") id s)) s in
  after_of (completeDelivery (ex_auth digit) id
    {| cmi_lease := ex_lease_input (key +:+ "-complete") id s; cmi_result := r |}) s.

Definition ex_reply_result : NodeDeliveryResultPayload :=
  NR_turn_completed (Reply T_decision "Version 2 it is" None).
Definition ex_ready_result : NodeDeliveryResultPayload := NR_turn_completed (Ready []).
Definition ex_propose_result : NodeDeliveryResultPayload :=
  NR_turn_completed (ProposeContract (ex_artifact 2)).
Definition ex_verify_result (digit command : string) (o : Outcome) : NodeDeliveryResultPayload :=
  NR_verification_recorded [ex_evidence digit command o].

(** The Mission up to the proposal, the agreed contract, both ready, and done. *)
Definition ex_proposed : Ledger := ex_work "a" "w1" ex_propose_result ex_accepted_ledger.
Definition ex_agreed : Ledger :=
  ex_work "a" "w3" NR_contract_acknowledged (ex_work "b" "w2" NR_contract_acknowledged ex_proposed).
Definition ex_verifying_ledger : Ledger :=
  ex_work "b" "w6" ex_ready_result
    (ex_work "a" "w5" ex_ready_result (ex_work "b" "w4" ex_reply_result ex_agreed)).
Definition ex_done : Ledger :=
  ex_work "b" "w8" (ex_verify_result "2" "contract" O_passed)
    (ex_work "a" "w7" (ex_verify_result "1" "unit" O_passed) ex_verifying_ledger).
