(* ===== verification/LedgerRules.v ===== *)
(** * Reasoning about ledger operations

    What each statement of the transaction monad does when it returns, which
    operations leave the ledger's tables alone ([quiet]), and the tactics that
    split a run that returned along its binds.  Then the statements that write: what an
    insert or update that returned has done to the tables. *)

From stdpp Require Import sorting.
From S2P Require Import Prelude JsLib Schemas RelayStore.
From S2P Require Import MissionEvents MissionCoordinator DeliveryOperations.
From S2P Require Import LedgerStore MissionLedger MissionReconciliation.
From S2P Require Import DeliveryLedger DeliveryCompletion.
Local Open Scope Z_scope.

Section Rules.
Context `{Zod, RelayEnv, LedgerEnv}.
Implicit Types s : Ledger.

(** ** The monad *)
Lemma lbind_ok {A B} (m : LTx A) (k : A -> LTx B) s b s' :
  (m ≫= k) s = (Ok b, s') -> exists a s1, m s = (Ok a, s1) /\ k a s1 = (Ok b, s').
Proof. unfold mbind, LTx_bind. destruct (m s) as [[a|e] s1]; [eauto|done]. Qed.
Lemma lret_ok {A} (a b : A) s s' : mret (M := LTx) a s = (Ok b, s') -> b = a /\ s' = s.
Proof. by intros [= -> ->]. Qed.
Lemma fail_if_ok b c m s u s' : fail_if b c m s = (Ok u, s') -> b = false /\ s' = s.
Proof. unfold fail_if. destruct b; [done|]. by intros [= <- ->]. Qed.
Lemma fail_with_ok {A} e s (a : A) s' : fail_with e s = (Ok a, s') -> False.
Proof. done. Qed.
Lemma relay_fail_ok {A} c m s (a : A) s' : relay_fail c m s = (Ok a, s') -> False.
Proof. done. Qed.
Lemma fetch_ok {A} (q : LedgerTables -> A) s a s' :
  fetch q s = (Ok a, s') -> a = q (ledger s) /\ s' = s.
Proof. by intros [= <- <-]. Qed.
Lemma put_ok f s u s' : put f s = (Ok u, s') -> ledger s' = f (ledger s).
Proof. by intros [= <- <-]. Qed.
Lemma parse_ok {A} (p : A -> bool) a s b s' :
  parse p a s = (Ok b, s') -> b = a /\ p a = true /\ s' = s.
Proof. unfold parse. destruct (p a); [|done]. by intros [= <- <-]. Qed.
Lemma of_result_ok {A} (r : result Failure A) s a s' :
  of_result r s = (Ok a, s') -> r = Ok a /\ s' = s.
Proof. by intros [= -> ->]. Qed.
Lemma coordinate_ok {A} (r : result CoordinatorError A) s a s' :
  coordinate r s = (Ok a, s') -> r = Ok a /\ s' = s.
Proof. unfold coordinate, of_result. destruct r; [by intros [= -> ->]|done]. Qed.
Lemma tx_now_ok s a s' : tx_now s = (Ok a, s') -> a = txTime s /\ s' = s.
Proof. by intros [= <- <-]. Qed.

Lemma check_all_ok cs s u s' :
  check_all cs s = (Ok u, s') -> (forall c, c ∈ cs -> c.1 = true) /\ s' = s.
Proof.
  unfold check_all. destruct (array_find _ cs) as [[b n]|] eqn:F; [done|]. intros [= <- <-].
  split; [|done]. intros c Hc. rewrite array_find_None in F. specialize (F c Hc).
  by destruct c.1.
Qed.

Lemma lift_ok {A} (m : Tx A) s a s' : lift m s = (Ok a, s') -> ledger s' = ledger s.
Proof. unfold lift. destruct (m (base s)) as [[b|e] t]; [|done]. by intros [= -> <-]. Qed.

Lemma as_date_ok text s t s' : as_date text s = (Ok t, s') -> Date_parse text = Some t /\ s' = s.
Proof. unfold as_date. destruct (Date_parse text); [|done]. by intros [= -> ->]. Qed.

(** ** Operations that write nothing to the ledger's tables *)
Definition quiet {A} (m : LTx A) : Prop := forall s r s', m s = (r, s') -> ledger s' = ledger s.

Lemma quiet_bind {A B} (m : LTx A) (k : A -> LTx B) :
  quiet m -> (forall a, quiet (k a)) -> quiet (m ≫= k).
Proof.
  intros Qm Qk s r s'. unfold mbind, LTx_bind. destruct (m s) as [[a|e] s1] eqn:E; intros R.
  - rewrite (Qk _ _ _ _ R). by eapply Qm.
  - injection R as <- <-. by eapply Qm.
Qed.
Lemma quiet_ret {A} (a : A) : quiet (mret a).
Proof. by intros s r s' [= <- <-]. Qed.
Lemma quiet_fail_with {A} e : quiet (@fail_with _ A e).
Proof. by intros s r s' [= <- <-]. Qed.
Lemma quiet_relay_fail {A} c m : quiet (@relay_fail _ A c m).
Proof. apply quiet_fail_with. Qed.
Lemma quiet_fail_if b c m : quiet (fail_if b c m).
Proof. unfold fail_if. destruct b; [apply quiet_fail_with|apply quiet_ret]. Qed.
Lemma quiet_fetch {A} (q : LedgerTables -> A) : quiet (fetch q).
Proof. by intros s r s' [= <- <-]. Qed.
Lemma quiet_parse {A} (p : A -> bool) a : quiet (parse p a).
Proof. unfold parse. destruct (p a); [apply quiet_ret|apply quiet_fail_with]. Qed.
Lemma quiet_of_result {A} (r : result Failure A) : quiet (of_result r).
Proof. by intros s x s' [= <- <-]. Qed.
Lemma quiet_coordinate {A} (r : result CoordinatorError A) : quiet (coordinate r).
Proof. apply quiet_of_result. Qed.
Lemma quiet_lift {A} (m : Tx A) : quiet (lift m).
Proof. intros s r s'. unfold lift. destruct (m (base s)) as [[a|e] t]; by intros [= <- <-]. Qed.
Lemma quiet_clock : quiet wall_clock.
Proof. by intros s r s' [= <- <-]. Qed.
Lemma quiet_now : quiet tx_now.
Proof. by intros s r s' [= <- <-]. Qed.
Lemma quiet_check cs : quiet (check_all cs).
Proof. unfold check_all. destruct (array_find _ cs) as [[b n]|]; [apply quiet_fail_with|apply quiet_ret]. Qed.
Lemma quiet_as_date text : quiet (as_date text).
Proof. unfold as_date. destruct (Date_parse text); [apply quiet_ret|apply quiet_fail_with]. Qed.
Lemma quiet_for_each {A B} (f : A -> LTx B) l : (forall x, quiet (f x)) -> quiet (for_each f l).
Proof.
  intros Q. induction l as [|x l IH]; cbn; [apply quiet_ret|].
  apply quiet_bind; [done|]. intros y. apply quiet_bind; [done|]. intros ys. apply quiet_ret.
Qed.
Lemma quiet_audit k i a rt rid md rq : quiet (audit k i a rt rid md rq).
Proof. unfold audit. apply quiet_bind; [apply quiet_now|]. intros n. apply quiet_lift. Qed.
End Rules.

#[export] Hint Resolve quiet_ret quiet_fail_with quiet_relay_fail quiet_fail_if quiet_fetch
  quiet_parse quiet_of_result quiet_coordinate quiet_lift quiet_clock quiet_now quiet_check
  quiet_as_date quiet_audit : relay.

(** Proves [quiet m] by walking through the structure of [m]. *)
Ltac quiet :=
  repeat (intros; lazymatch goal with
  | |- quiet (_ ≫= _) => apply quiet_bind
  | |- quiet (for_each _ _) => apply quiet_for_each
  | |- quiet (match ?x with _ => _ end) => destruct x
  | |- quiet _ => solve [auto with relay nocore]
  end).

Section QuietOperations.
Context `{Zod, RelayEnv, LedgerEnv}.

Lemma quiet_lock l : quiet (take_lock l).
Proof. apply quiet_lift. Qed.
Lemma quiet_uuid : quiet randomUUID.
Proof. apply quiet_lift. Qed.
Lemma quiet_read_base {A} (q : Tables -> A) : quiet (read_base q).
Proof. apply quiet_lift. Qed.
Lemma quiet_lock_mission m : quiet (lockMissionMutation m).
Proof. apply quiet_lift. Qed.
Lemma quiet_lock_node n : quiet (lockNodeMutation n).
Proof. apply quiet_lift. Qed.
Lemma quiet_database_clock : quiet readDatabaseClock.
Proof. apply quiet_clock. Qed.
#[local] Hint Resolve quiet_lock quiet_uuid quiet_read_base quiet_lock_mission quiet_lock_node
  quiet_database_clock : relay.

Lemma quiet_trust ids : quiet (assertMissionTrustBoundary ids).
Proof. unfold assertMissionTrustBoundary. cbv zeta. quiet. Qed.
Lemma quiet_credential auth : quiet (assertActiveNodeCredential auth).
Proof. unfold assertActiveNodeCredential. quiet. Qed.
Lemma quiet_config m : quiet (mission_config m).
Proof. unfold mission_config. quiet. Qed.
#[local] Hint Resolve quiet_trust quiet_credential quiet_config : relay.
Lemma quiet_state_from_row m : quiet (missionStateFromRow m).
Proof. unfold missionStateFromRow. cbv zeta. quiet. Qed.
Lemma quiet_delivery_from_row d : quiet (deliveryFromRow d).
Proof. unfold deliveryFromRow. quiet. Qed.
#[local] Hint Resolve quiet_state_from_row quiet_delivery_from_row : relay.
Lemma quiet_item d e : quiet (missionDeliveryItemFromRows d e).
Proof. unfold missionDeliveryItemFromRows. quiet. Qed.
Lemma quiet_acceptance_input p : quiet (acceptanceInputFromParticipant p).
Proof. unfold acceptanceInputFromParticipant. quiet. Qed.
Lemma quiet_acceptance_receipt p a : quiet (acceptanceReceiptFromParticipant p a).
Proof. unfold acceptanceReceiptFromParticipant. quiet. Qed.
#[local] Hint Resolve quiet_item quiet_acceptance_input quiet_acceptance_receipt : relay.
Lemma quiet_exact_acceptances m c : quiet (assertExactParticipantAcceptances m c).
Proof. unfold assertExactParticipantAcceptances. cbv zeta. quiet. Qed.
Lemma quiet_source m a d b x : quiet (assertSourceDelivery m a d b x).
Proof. unfold assertSourceDelivery. quiet. Qed.
Lemma quiet_actor a b : quiet (assertAuthorizedActor a b).
Proof. unfold assertAuthorizedActor. quiet. Qed.
Lemma quiet_targets p n b : quiet (deriveDeliveryTargets p n b).
Proof. unfold deriveDeliveryTargets. cbv zeta. quiet. Qed.
Lemma quiet_reduce st e : quiet (reduce_or_fail st e).
Proof. unfold reduce_or_fail. quiet. Qed.
Lemma quiet_append_input e : quiet (appendInputFromEvent e).
Proof. unfold appendInputFromEvent. quiet. Qed.
Lemma quiet_replay_stored m c : quiet (replay_stored m c).
Proof. unfold replay_stored. quiet. Qed.
#[local] Hint Resolve quiet_exact_acceptances quiet_source quiet_actor quiet_targets quiet_reduce
  quiet_append_input quiet_replay_stored : relay.
Lemma quiet_assert_actor m i : quiet (assert_actor m i).
Proof. unfold assert_actor. quiet. Qed.
Lemma quiet_assert_source m i : quiet (assert_source m i).
Proof. unfold assert_source. cbv zeta. quiet. Qed.
Lemma quiet_replays_input i r e : quiet (replays_input i r e).
Proof. unfold replays_input. quiet. Qed.
#[local] Hint Resolve quiet_assert_actor quiet_assert_source quiet_replays_input : relay.
Lemma quiet_replay_append m i r : quiet (replay_append m i r).
Proof. unfold replay_append. quiet. Qed.
Lemma quiet_resolve ps : quiet (resolveActiveParticipantBindings ps).
Proof. unfold resolveActiveParticipantBindings. quiet. Qed.
Lemma quiet_lock_nodes bs : quiet (lockParticipantNodes bs).
Proof. unfold lockParticipantNodes. quiet. Qed.
Lemma quiet_load_bindings m ids : quiet (loadParticipantBindings m ids).
Proof. unfold loadParticipantBindings. quiet. Qed.
#[local] Hint Resolve quiet_resolve quiet_lock_nodes quiet_load_bindings quiet_replay_append : relay.
Lemma quiet_authorities c ps bs : quiet (assertMissionCreationAuthoritiesActive c ps bs).
Proof. unfold assertMissionCreationAuthoritiesActive. cbv zeta. quiet. Qed.
Lemma quiet_replay_creation c cfg m : quiet (replay_creation c cfg m).
Proof. unfold replay_creation. quiet. Qed.
Lemma quiet_all_bindings m n : quiet (assertAllParticipantBindingsActive m n).
Proof. unfold assertAllParticipantBindingsActive. quiet. Qed.
Lemma quiet_acceptance_result p a r : quiet (acceptance_result p a r).
Proof. unfold acceptance_result. quiet. Qed.
#[local] Hint Resolve quiet_authorities quiet_replay_creation quiet_all_bindings
  quiet_acceptance_result : relay.
Lemma quiet_replay_acceptance p a : quiet (replay_acceptance p a).
Proof. unfold replay_acceptance. quiet. Qed.
Lemma quiet_terminal_cause m e n : quiet (terminalCause m e n).
Proof. unfold terminalCause. quiet. Qed.
Lemma quiet_bounded n e : quiet (boundedLeaseExpiry n e).
Proof. unfold boundedLeaseExpiry. cbv zeta. quiet. Qed.
Lemma quiet_receipt i : quiet (operationReceipt i).
Proof. unfold operationReceipt. quiet. Qed.
Lemma quiet_audit_node a d r : quiet (auditNodeOperation a d r).
Proof. unfold auditNodeOperation. quiet. Qed.
Lemma quiet_load_replay n d o k i : quiet (loadReplay n d o k i).
Proof. unfold loadReplay. quiet. Qed.
#[local] Hint Resolve quiet_replay_acceptance quiet_terminal_cause quiet_bounded quiet_receipt
  quiet_audit_node quiet_load_replay : relay.
Lemma quiet_replay_claim n d i : quiet (replayClaim n d i).
Proof. unfold replayClaim. quiet. Qed.
Lemma quiet_replay_operation n d o k i : quiet (replayOperation n d o k i).
Proof. unfold replayOperation. quiet. Qed.
Lemma quiet_replay_complete n d i : quiet (replayComplete n d i).
Proof. unfold replayComplete. quiet. Qed.
Lemma quiet_prefetch n d : quiet (prefetchMissionId n d).
Proof. unfold prefetchMissionId. quiet. Qed.
Lemma quiet_lock_delivery n d : quiet (lockDelivery n d).
Proof. unfold lockDelivery. quiet. Qed.
Lemma quiet_load_mission m : quiet (loadMission m).
Proof. unfold loadMission. quiet. Qed.
#[local] Hint Resolve quiet_replay_claim quiet_replay_operation quiet_replay_complete quiet_prefetch
  quiet_lock_delivery quiet_load_mission : relay.
Lemma quiet_lock_context a d m : quiet (lockDeliveryContext a d m).
Proof. unfold lockDeliveryContext. quiet. Qed.
Lemma quiet_delivery_trust m : quiet (assertDeliveryMissionTrust m).
Proof. unfold assertDeliveryMissionTrust. quiet. Qed.
Lemma quiet_routing m : quiet (assertMissionRoutingAuthority m).
Proof. unfold assertMissionRoutingAuthority. cbv zeta. quiet. Qed.
Lemma quiet_runnable c n : quiet (assertRunnableContext c n).
Proof. unfold assertRunnableContext. quiet. Qed.
Lemma quiet_replayable d : quiet (assertReplayableDelivery d).
Proof. unfold assertReplayableDelivery. quiet. Qed.
Lemma quiet_lease_status d : quiet (assertActiveLeaseStatus d).
Proof. unfold assertActiveLeaseStatus. quiet. Qed.
Lemma quiet_lease_authority d a n : quiet (assertLeaseAuthority d a n).
Proof. unfold assertLeaseAuthority. quiet. Qed.
Lemma quiet_not_reconciled l : quiet (assert_not_reconciled l).
Proof. unfold assert_not_reconciled, terminalMutationError. quiet. Qed.
Lemma quiet_load_event e : quiet (loadMissionEvent e).
Proof. unfold loadMissionEvent. quiet. Qed.
Lemma quiet_prefixed p : quiet (prefixed_uuid p).
Proof. unfold prefixed_uuid. quiet. Qed.
Lemma quiet_parse_completion i : quiet (parseCompletionAppendInput i).
Proof. unfold parseCompletionAppendInput. quiet. Qed.
#[local] Hint Resolve quiet_lock_context quiet_delivery_trust quiet_routing quiet_runnable
  quiet_replayable quiet_lease_status quiet_lease_authority quiet_not_reconciled quiet_load_event
  quiet_prefixed quiet_parse_completion : relay.
Lemma quiet_build c a r n : quiet (buildCompletionEvents c a r n).
Proof.
  unfold buildCompletionEvents, turn_events, reply_message, proposal_revision,
    acknowledgement_events, verification_events, verification_event. cbv zeta. quiet.
Qed.
Lemma quiet_items rows : quiet (items_of rows).
Proof. unfold items_of. quiet. Qed.
Lemma quiet_list_stored n p : quiet (listStoredDeliveryEvents n p).
Proof. unfold listStoredDeliveryEvents, items_of. quiet. Qed.
End QuietOperations.

#[export] Hint Resolve quiet_lock quiet_uuid quiet_read_base quiet_lock_mission quiet_lock_node
  quiet_database_clock quiet_trust quiet_credential quiet_config quiet_state_from_row
  quiet_delivery_from_row quiet_item quiet_acceptance_input quiet_acceptance_receipt
  quiet_exact_acceptances quiet_source quiet_actor quiet_targets quiet_reduce quiet_append_input
  quiet_replay_stored quiet_assert_actor quiet_assert_source quiet_replays_input
  quiet_resolve quiet_lock_nodes quiet_load_bindings quiet_replay_append quiet_authorities
  quiet_replay_creation quiet_all_bindings quiet_acceptance_result quiet_replay_acceptance
  quiet_terminal_cause quiet_bounded quiet_receipt quiet_audit_node quiet_load_replay
  quiet_replay_claim quiet_replay_operation quiet_replay_complete quiet_prefetch
  quiet_lock_delivery quiet_load_mission quiet_lock_context quiet_delivery_trust quiet_routing
  quiet_runnable quiet_replayable quiet_lease_status quiet_lease_authority quiet_not_reconciled
  quiet_load_event quiet_prefixed quiet_parse_completion quiet_build quiet_items
  quiet_list_stored : relay.

(** ** What the statements write *)

Abbreviation Row := NodeDeliveries.NodeDelivery.

(** The row as an update statement leaves it. *)
Definition stamp (now : Z) (d : Row) : Row := d <| NodeDeliveries.updatedAt := now |>.

(** Tables that differ in the deliveries only, but for receipts added. *)
Record same_missions (t t' : LedgerTables) : Prop := {
  sm_missions : missions t' = missions t;
  sm_participants : missionParticipants t' = missionParticipants t;
  sm_events : missionEvents t' = missionEvents t
}.
Definition adds_receipts (t t' : LedgerTables) : Prop := exists l, receipts t' = receipts t ++ l.
Record same_nodes (t t' : LedgerTables) : Prop := {
  sn_nodes : nodes t' = nodes t;
  sn_credentials : nodeCredentials t' = nodeCredentials t;
  sn_bindings : workspaceBindings t' = workspaceBindings t
}.

#[export] Instance same_missions_refl : Reflexive same_missions.
Proof. by constructor. Qed.
#[export] Instance same_missions_trans : Transitive same_missions.
Proof. intros a b c [A B C] [D E F]. constructor; congruence. Qed.
#[export] Instance same_nodes_refl : Reflexive same_nodes.
Proof. by constructor. Qed.
#[export] Instance same_nodes_trans : Transitive same_nodes.
Proof. intros a b c [A B C] [D E F]. constructor; congruence. Qed.
#[export] Instance adds_receipts_refl : Reflexive adds_receipts.
Proof. intros t. exists []. by rewrite app_nil_r. Qed.
#[export] Instance adds_receipts_trans : Transitive adds_receipts.
Proof. intros a b c [l E] [k F]. exists (l ++ k). by rewrite F, E, app_assoc. Qed.

(** Only deliveries change, and receipts are added. *)
Record writes_rows (t t' : LedgerTables) : Prop := {
  wr_missions : same_missions t t'; wr_nodes : same_nodes t t'; wr_receipts : adds_receipts t t'
}.
#[export] Instance writes_rows_refl : Reflexive writes_rows.
Proof. constructor; reflexivity. Qed.
#[export] Instance writes_rows_trans : Transitive writes_rows.
Proof. intros a b c [A B C] [D E F]. constructor; by etrans. Qed.

Definition row_ids (t : LedgerTables) : list string := map NodeDeliveries.id (nodeDeliveries t).

(** The table with [row] in place of the row of its id. *)
Definition put_row (row : Row) (rows : list Row) : list Row :=
  map (fun d => if NodeDeliveries.id d === NodeDeliveries.id row then row else d) rows.

(** Every check of the table's definition holds of the row. *)
Definition delivery_row_ok (d : Row) : bool := every fst (delivery_checks d).

Lemma every_app {A} (p : A -> bool) l k : every p (l ++ k) = every p l && every p k.
Proof. induction l as [|x l IH]; cbn; [done|]. by rewrite IH, andb_assoc. Qed.
Lemma every_concat_map {A B} (p : B -> bool) (f : A -> list B) l :
  every p (concat (map f l)) = every (fun x => every p (f x)) l.
Proof. induction l as [|x l IH]; cbn; [done|]. by rewrite every_app, IH. Qed.
Lemma every_map {A B} (p : B -> bool) (f : A -> B) l : every p (map f l) = every (fun x => p (f x)) l.
Proof. induction l as [|x l IH]; cbn; [done|]. by rewrite IH. Qed.

Section Writes.
Context `{Zod, RelayEnv, LedgerEnv}.
Implicit Types s : Ledger.

Lemma check_every cs s u s' : check_all cs s = (Ok u, s') -> every fst cs = true /\ s' = s.
Proof. intros [C E]%check_all_ok. split; [|done]. by apply every_iff. Qed.

Lemma quiet_ok {A} (m : LTx A) s a s' : quiet m -> m s = (Ok a, s') -> ledger s' = ledger s.
Proof. intros Q R. by apply (Q _ _ _ R). Qed.
End Writes.

(** Split [E : m s = (Ok _, _)] along the binds of [m]; what a quiet operation
    returned is forgotten, except that it left the ledger alone. *)
Ltac ltx_atom E :=
  lazymatch type of E with
  | mret _ _ = (Ok _, _) => apply lret_ok in E as (-> & ->)
  | fail_if _ _ _ _ = (Ok _, _) => let G := fresh "G" in apply fail_if_ok in E as (G & ->)
  | fetch _ _ = (Ok _, _) => apply fetch_ok in E as (-> & ->)
  | put _ _ = (Ok _, _) => apply put_ok in E
  | parse _ _ _ = (Ok _, _) => let G := fresh "G" in apply parse_ok in E as (-> & G & ->)
  | of_result _ _ = (Ok _, _) => let G := fresh "G" in apply of_result_ok in E as (G & ->)
  | coordinate _ _ = (Ok _, _) => let G := fresh "G" in apply coordinate_ok in E as (G & ->)
  | as_date _ _ = (Ok _, _) => let G := fresh "G" in apply as_date_ok in E as (G & ->)
  | check_all _ _ = (Ok _, _) => let G := fresh "G" in apply check_every in E as (G & ->)
  | tx_now _ = (Ok _, _) => apply tx_now_ok in E as (-> & ->)
  | relay_fail _ _ _ = (Ok _, _) => destruct (relay_fail_ok _ _ _ _ _ E)
  | fail_with _ _ = (Ok _, _) => destruct (fail_with_ok _ _ _ _ E)
  | _ => idtac
  end.
Ltac ltx_one E :=
  let a := fresh "a" in let s1 := fresh "s" in let R := fresh "R" in
  apply lbind_ok in E as (a & s1 & R & E); ltx_atom R.
Ltac ltx E :=
  lazymatch type of E with
  | (_ ≫= _) _ = (Ok _, _) => ltx_one E; ltx E
  | _ => ltx_atom E
  end.

(** [R : m s = (Ok a, s')] of a quiet [m] becomes [ledger s' = ledger s]. *)
Ltac hush R := apply quiet_ok in R; [|solve [quiet]].

(** Follow what became of the ledger's tables back to where the run began. *)
Ltac led := repeat match goal with
  | L : ledger ?a = _ |- context [ledger ?a] => rewrite L
  end.

Section Inserts.
Context `{Zod, RelayEnv, LedgerEnv}.
Implicit Types s : Ledger.

(** What the clock read is the next of its readings. *)
Lemma clock_ok s t s' :
  wall_clock s = (Ok t, s') -> t = clock_timestamp (ticks s) /\ ledger s' = ledger s.
Proof. by intros [= <- <-]. Qed.

Lemma insert_event_ok row s u s' :
  insert_event row s = (Ok u, s') ->
  ledger s' = (ledger s) <| missionEvents := missionEvents (ledger s) ++ [row] |> /\
  every fst (event_checks row) = true /\
  (forall e, e ∈ missionEvents (ledger s) -> MissionEventRows.id e <> MissionEventRows.id row).
Proof.
  unfold insert_event. intros E. ltx_one E. ltx_one E. ltx_atom E. led.
  split; [done|]. rewrite every_app in G. apply andb_true_iff in G as [G0 G]. split; [done|]. cbn [every fst] in *. bool_hyps.
  repeat match goal with G : some _ _ = false |- _ => rewrite some_false_iff in G end.
  intros e He. repeat match goal with G : forall x, x ∈ missionEvents _ -> _ |- _ => specialize (G e He) end.
  by bool_hyps.
Qed.

Lemma update_deliveries_ok p g s rows s' :
  update_deliveries p g s = (Ok rows, s') ->
  exists n, let u d := stamp (clock_timestamp n) (g d) in
    rows = map u (array_filter p (nodeDeliveries (ledger s))) /\
    ledger s' = (ledger s) <| nodeDeliveries :=
      map (fun d => if p d then u d else d) (nodeDeliveries (ledger s)) |> /\
    every delivery_row_ok rows = true.
Proof.
  unfold update_deliveries. intros E. ltx_one E. apply clock_ok in R as (-> & L). ltx_one E.
  ltx_one E. ltx_one E. ltx_atom E. rewrite L in *. exists (ticks s). cbn zeta.
  split_and!; [done|done|]. rewrite every_app, every_concat_map in G. by bool_hyps.
Qed.

(** A row as [insert_delivery] stores it. *)
Record new_row (nodeId missionId eventId : string) (kind : DeliveryKind) (version : Z)
    (round : option Z) (d : Row) : Prop := {
  nr_node : NodeDeliveries.nodeId d = nodeId; nr_mission : NodeDeliveries.missionId d = missionId;
  nr_event : NodeDeliveries.missionEventId d = eventId; nr_kind : NodeDeliveries.kind d = kind;
  nr_version : NodeDeliveries.contractVersion d = version;
  nr_round : NodeDeliveries.verificationRound d = round;
  nr_status : NodeDeliveries.status d = D_stored;
  nr_attempts : NodeDeliveries.attemptCount d = 0; nr_max : NodeDeliveries.maxAttempts d = 5;
  nr_token : NodeDeliveries.lastFencingToken d = "0";
  nr_lease : NodeDeliveries.activeLeaseId d = None;
  nr_deadline : NodeDeliveries.leaseExpiresAt d = None;
  nr_settled : NodeDeliveries.settledByEventId d = None
}.

Lemma insert_delivery_ok nodeId missionId eventId kind version round key parent s row s' :
  insert_delivery nodeId missionId eventId kind version round key parent s = (Ok row, s') ->
  ledger s' = (ledger s) <| nodeDeliveries := nodeDeliveries (ledger s) ++ [row] |> /\
  new_row nodeId missionId eventId kind version round row /\
  NodeDeliveries.id row ∉ row_ids (ledger s).
Proof.
  unfold insert_delivery. intros E. ltx_one E. hush R. ltx_one E.
  assert (L : ledger s1 = ledger s0).
  { revert R0. unfold next_delivery_cursor. case_match; by intros [= _ <-]. }
  clear R0. ltx E. led. split; [done|]. split; [done|].
  rewrite L, R in G. rewrite every_app in G. bool_hyps. cbn [every fst] in *. bool_hyps.
  intros (d & Ed & Hd)%list_elem_of_fmap.
  repeat match goal with G : some _ _ = false |- _ => rewrite some_false_iff in G; specialize (G d Hd) end.
  bool_hyps. cbn in *. congruence.
Qed.

(** An update that can only match the row with one id. *)
Lemma update_one_ok p g c msg i s row s' :
  NoDup (row_ids (ledger s)) -> (forall d, p d = true -> NodeDeliveries.id d = i) ->
  (forall d, NodeDeliveries.id (g d) = NodeDeliveries.id d) ->
  update_one p g c msg s = (Ok row, s') ->
  exists d n, d ∈ nodeDeliveries (ledger s) /\ p d = true /\
    row = stamp (clock_timestamp n) (g d) /\ delivery_row_ok row = true /\
    ledger s' = (ledger s) <| nodeDeliveries := put_row row (nodeDeliveries (ledger s)) |>.
Proof.
  intros N Hp Hg. unfold update_one. intros E. ltx_one E.
  apply update_deliveries_ok in R as (n & Er & L & C).
  destruct a as [|row' rows]; [by ltx E|]. ltx E. rename row' into row.
  destruct (array_filter p _) as [|d ds] eqn:F; [done|]. injection Er as -> ->.
  assert (Hd : d ∈ array_filter p (nodeDeliveries (ledger s))) by (rewrite F; left).
  apply elem_of_array_filter in Hd as [Hd Pd]. exists d, n. cbn [every] in C. apply andb_true_iff in C as [C _].
  split_and!; try done. led.
  enough (map (fun d => if p d then stamp (clock_timestamp n) (g d) else d) (nodeDeliveries (ledger s)) =
          put_row (stamp (clock_timestamp n) (g d)) (nodeDeliveries (ledger s))) as -> by done.
  apply map_ext_in. intros x Hx%list_elem_of_In. cbn. rewrite Hg.
  pose proof (fun K => NoDup_map_eq NodeDeliveries.id _ x d N Hx Hd K) as U.
  destruct (p x) eqn:Px; case_bool_decide as K; try done.
  - by rewrite (U K).
  - destruct K. by rewrite (Hp _ Px), (Hp _ Pd).
  - rewrite (U K) in Px. congruence.
Qed.

Lemma insert_receipt_ok row s u s' :
  insert_receipt row s = (Ok u, s') ->
  ledger s' = (ledger s) <| receipts := receipts (ledger s) ++ [row] |> /\
  forall r, r ∈ receipts (ledger s) -> Receipts.origin r = Receipts.origin row ->
    Receipts.nodeId r = Receipts.nodeId row ->
    Receipts.idempotencyKey r <> Receipts.idempotencyKey row.
Proof.
  unfold insert_receipt. intros E. ltx E. led. split; [done|]. intros r Hr Eo En Ek.
  rewrite every_app in G. bool_hyps. cbn [every fst] in *. bool_hyps.
  match goal with G : some (fun r => _ && (Receipts.idempotencyKey r === _)) _ = false |- _ =>
    rewrite some_false_iff in G; specialize (G r Hr) end.
  by rewrite Eo, En, Ek, !bool_decide_true in *.
Qed.

Lemma insert_mission_ok id creator config state expires s u s' :
  insert_mission id creator config state expires s = (Ok u, s') ->
  exists created, let row := {|
      Missions.id := id; Missions.createdByAgentId := creator;
      Missions.coordinatorConfig := config; Missions.state := state;
      Missions.status := MissionEvents.status state;
      Missions.lastEventSequence := sequence_no state;
      Missions.contractVersion := contract_version state; Missions.expiresAt := expires;
      Missions.createdAt := created; Missions.updatedAt := created |} in
    ledger s' = (ledger s) <| missions := missions (ledger s) ++ [row] |> /\
    id ∉ map Missions.id (missions (ledger s)).
Proof.
  unfold insert_mission. intros E. ltx_one E. ltx_one E. ltx_one E. hush R. ltx E.
  exists (txTime s). cbn zeta. led. split; [done|].
  rewrite every_app in G. bool_hyps. cbn [every fst] in *. bool_hyps.
  intros (m & -> & Hm)%list_elem_of_fmap.
  repeat match goal with G : some _ _ = false |- _ => rewrite some_false_iff in G; specialize (G m Hm) end.
  bool_hyps. by cbn in *.
Qed.

Lemma update_mission_ok id state s u s' :
  update_mission id state s = (Ok u, s') ->
  exists now, ledger s' = (ledger s) <| missions :=
    map (fun m => if Missions.id m === id then project state now m else m)
      (missions (ledger s)) |>.
Proof.
  unfold update_mission. intros E. ltx_one E. apply clock_ok in R as (-> & L). ltx E.
  exists (clock_timestamp (ticks s)). by led.
Qed.

Lemma insert_participant_ok mission agent node binding role s u s' :
  insert_participant mission agent node binding role s = (Ok u, s') ->
  exists created, ledger s' = (ledger s) <| missionParticipants := missionParticipants (ledger s) ++ [{|
      MissionParticipants.missionId := mission; MissionParticipants.agentId := agent;
      MissionParticipants.nodeId := node; MissionParticipants.workspaceBindingId := binding;
      MissionParticipants.role := role; MissionParticipants.status := AS_pending;
      MissionParticipants.acceptedAt := None;
      MissionParticipants.acceptanceIdempotencyKey := None;
      MissionParticipants.acceptanceReceipt := None; MissionParticipants.createdAt := created |}] |> /\
    (forall p, p ∈ participants_of mission (ledger s) ->
       MissionParticipants.agentId p <> agent /\ MissionParticipants.nodeId p <> node).
Proof.
  unfold insert_participant. intros E. ltx_one E. ltx_one E. ltx_one E. hush R. ltx E.
  exists (txTime s). led. split; [done|]. cbn [every fst] in G. bool_hyps.
  unfold participant_agent, participant_node in *.
  intros p [Hp Em]%elem_of_array_filter.
  repeat match goal with G : some _ _ = false |- _ => rewrite some_false_iff in G; specialize (G p Hp) end.
  rewrite Em in *. cbn in *. by bool_hyps.
Qed.

Lemma update_participants_ok mission p g s rows s' :
  update_participants mission p g s = (Ok rows, s') ->
  ledger s' = (ledger s) <| missionParticipants :=
    map (fun r => if p r then g r else r) (missionParticipants (ledger s)) |> /\
  rows = map g (array_filter p (missionParticipants (ledger s))).
Proof. unfold update_participants. intros E. ltx E. by led. Qed.
End Inserts.
