(* ===== verification/LedgerSteps.v ===== *)
(** * The ledger as a step relation

    The abstract specification of the Mission and delivery services: what one
    step may do to the ledger's tables, with no errors, locks or receipts to
    replay.  A delivery row moves ([row_move]); a Mission is created, a
    participant's acceptance stored; an event is logged, which settles the
    delivery it answers and stores the deliveries it derives ([appends]), or ends
    the Mission and cancels its open work ([terminates]); a revocation cancels the
    open work of the Missions it invalidates ([revokes]); Nodes and bindings are
    added or revoked ([authorities]). *)

From stdpp Require Import sorting.
From S2P Require Import Prelude JsLib Schemas IsoDates RelayStore.
From S2P Require Import MissionEvents MissionCoordinator MissionReach DeliveryOperations.
From S2P Require Import LedgerStore MissionLedger MissionReconciliation.
From S2P Require Import DeliveryLedger DeliveryCompletion DeliveryRevocation.
From S2P Require Import LedgerRules.
Local Open Scope Z_scope.

(** A time the clock can read, and its text. *)
Definition moment `{Zod} (now : Z) : Prop :=
  iso_range now /\ isoTimestampSchema (toISOString now) = true.

(** The row has a lease that runs until [x]. *)
Definition leased_until (d : Row) (x : Z) : Prop :=
  needsLease (NodeDeliveries.status d) = true /\ NodeDeliveries.leaseExpiresAt d = Some x.

(** ** What may happen to a delivery *)
Inductive row_move `{Zod} (now : Z) (d : Row) : Row -> Prop :=
| mv_claim lease x :
    NodeDeliveries.status d = D_stored -> NodeDeliveries.settledByEventId d = None ->
    NodeDeliveries.attemptCount d < NodeDeliveries.maxAttempts d ->
    NodeDeliveries.availableAt d <= now -> now < x -> moment x -> uuidSchema lease = true ->
    row_move now d (grant_lease lease (NodeDeliveries.attemptCount d + 1) x d)
| mv_start x :
    leased_until d x -> NodeDeliveries.status d = D_leased -> now < x ->
    NodeDeliveries.settledByEventId d = None -> row_move now d (start_execution d)
| mv_renew x y :
    leased_until d x -> now < x -> x <= y -> moment y -> NodeDeliveries.settledByEventId d = None ->
    row_move now d (extend_lease y d)
| mv_release x dead retryAt :
    leased_until d x -> now < x -> NodeDeliveries.settledByEventId d = None ->
    (dead = false -> NodeDeliveries.attemptCount d < NodeDeliveries.maxAttempts d) ->
    row_move now d (release_to dead retryAt now d)
| mv_expire x :
    leased_until d x -> x <= now -> NodeDeliveries.settledByEventId d = None ->
    NodeDeliveries.attemptCount d < NodeDeliveries.maxAttempts d ->
    row_move now d (expire_lease now d)
| mv_exhaust x :
    leased_until d x -> x <= now -> NodeDeliveries.settledByEventId d = None ->
    NodeDeliveries.maxAttempts d <= NodeDeliveries.attemptCount d ->
    row_move now d (dead_letter now d)
| mv_acknowledge x e :
    leased_until d x -> NodeDeliveries.status d = D_executing -> now < x ->
    NodeDeliveries.settledByEventId d = Some e -> row_move now d (acknowledge_delivery now d)
| mv_supersede e :
    open_status (NodeDeliveries.status d) = true -> NodeDeliveries.settledByEventId d = Some e ->
    row_move now d (cancel_delivery C_work_superseded now d).

Definition row_moved `{Zod} (now : Z) (d d' : Row) : Prop :=
  d' = d \/ exists n v, row_move now d v /\ d' = stamp n v.

Record moves_rows `{Zod} (t t' : LedgerTables) : Prop := {
  mr_frame : writes_rows t t';
  mr_rows : exists now, moment now /\
    Forall2 (row_moved now) (nodeDeliveries t) (nodeDeliveries t')
}.

(** ** Creation and acceptance *)
Definition projected (m : Missions.Mission) (state : MissionCoordinatorState) : Prop :=
  Missions.state m = state /\ Missions.status m = MissionEvents.status state /\
  Missions.lastEventSequence m = sequence_no state /\
  Missions.contractVersion m = contract_version state.

(** The columns that tie a participant to its Mission, agent and Node. *)
Definition participant_key (p : MissionParticipants.MissionParticipant) : string * string * string :=
  (MissionParticipants.missionId p, MissionParticipants.agentId p, MissionParticipants.nodeId p).

Record creates `{Zod} (m : Missions.Mission)
    (ps : list MissionParticipants.MissionParticipant) (t t' : LedgerTables) : Prop := {
  cr_fresh : Missions.id m ∉ map Missions.id (missions t);
  cr_config : missionCoordinatorConfigSchema (Missions.coordinatorConfig m) = true;
  cr_id : Missions.id m = (cfg_manifest (Missions.coordinatorConfig m)).(man_mission_id);
  cr_state : projected m (initial_state (Missions.coordinatorConfig m));
  cr_own : Forall (fun p => MissionParticipants.missionId p = Missions.id m) ps;
  cr_agents : map MissionParticipants.agentId ps =
    participant_ids (cfg_manifest (Missions.coordinatorConfig m));
  cr_nodes : NoDup (map MissionParticipants.nodeId ps);
  cr_tables : t' = t <| missions := missions t ++ [m] |>
                     <| missionParticipants := missionParticipants t ++ ps |>
}.

(** The columns that tie a participant to its Node and workspace. *)
Definition route_key (p : MissionParticipants.MissionParticipant) : string * string * string :=
  (MissionParticipants.missionId p, MissionParticipants.nodeId p,
   MissionParticipants.workspaceBindingId p).

Record accepts_one (t t' : LedgerTables) : Prop := {
  ao_keys : map participant_key (missionParticipants t') =
            map participant_key (missionParticipants t);
  ao_tables : t' = t <| missionParticipants := missionParticipants t' |>;
  ao_routes : map route_key (missionParticipants t') = map route_key (missionParticipants t)
}.

(** ** Events *)

(** The events stored for the Mission lead to its projection, and the new row
    holds the event that follows them. *)
Record logs `{Zod} (m : Missions.Mission) (row : MissionEventRows.MissionEvent)
    (next : MissionCoordinatorState) (t t' : LedgerTables) : Prop := {
  lg_mission : find_mission (Missions.id m) t = Some m;
  lg_config : missionCoordinatorConfigSchema (Missions.coordinatorConfig m) = true;
  lg_replay : exists events,
    eventsFromRows (mission_event_rows (Missions.id m) t) = Ok events /\
    replayMissionCoordinatorEvents (Missions.coordinatorConfig m) events = Ok (Missions.state m);
  lg_sequence : sequence_no (Missions.state m) = Missions.lastEventSequence m;
  lg_event : eventFromRow row = Ok (event_of_row row);
  lg_own : MissionEventRows.missionId row = Missions.id m;
  lg_next : MissionEventRows.sequenceNo row = sequence_no (Missions.state m) + 1;
  lg_reduce : reduceMissionCoordinatorEvent (Missions.state m) (event_of_row row) = Ok next;
  lg_events : missionEvents t' = missionEvents t ++ [row];
  lg_missions : exists now, missions t' =
    map (fun x => if Missions.id x === Missions.id m then project next now x else x) (missions t);
  lg_participants : missionParticipants t' = missionParticipants t;
  lg_nodes : same_nodes t t'
}.

(** The deliveries the event calls for: the value [deriveDeliveryTargets] returns. *)
Definition targets_of (previous next : MissionCoordinatorState) (b : EventBody)
    : list DeliveryTarget :=
  let otherwise :=
    if (MissionEvents.status previous !== M_verifying) && (MissionEvents.status next === M_verifying)
    then targets_all next K_verification next.(contract_version) (Some next.(verification_round))
    else
      match next.(current_participant_agent_id) with
      | Some agent =>
          if MissionEvents.status next === M_active
          then [{| tg_agentId := agent; tg_kind := K_turn;
                   tg_contractVersion := next.(contract_version); tg_verificationRound := None |}]
          else []
      | None => []
      end in
  match b with
  | TurnCompleted event =>
      if is_propose event.(tc_disposition) then
        match next.(pending_revision) with
        | Some revision =>
            targets_all next K_contract_acknowledgement revision.(rev_version) None
        | None => []
        end
      else otherwise
  | _ => otherwise
  end.

(** The row was created for the target, on the Node of the target's agent. *)
Definition created_for (missionId eventId : string)
    (ps : list MissionParticipants.MissionParticipant) (tg : DeliveryTarget) (d : Row) : Prop :=
  exists p, p ∈ ps /\ MissionParticipants.agentId p = tg.(tg_agentId) /\
    new_row (MissionParticipants.nodeId p) missionId eventId tg.(tg_kind) tg.(tg_contractVersion)
      tg.(tg_verificationRound) d.

(** A participant's event answers a delivery of its own. *)
Record answers (m : Missions.Mission) (b : EventBody) (t : LedgerTables) (d : Row) : Prop := {
  an_row : d ∈ nodeDeliveries t;
  an_source : body_source b = Some (NodeDeliveries.id d);
  an_mission : NodeDeliveries.missionId d = Missions.id m;
  an_open : NodeDeliveries.settledByEventId d = None;
  an_kind : NodeDeliveries.kind d = expected_kind b;
  an_version : body_contract_version b = Some (NodeDeliveries.contractVersion d);
  an_agent : exists p, p ∈ participants_of (Missions.id m) t /\
    MissionParticipants.nodeId p = NodeDeliveries.nodeId d /\
    Some (MissionParticipants.agentId p) = fst <$> body_participant b;
  an_status : open_status (NodeDeliveries.status d) = true
}.

(** The participant's Node and its workspace binding are active. *)
Definition routed (t : LedgerTables) (p : MissionParticipants.MissionParticipant) : Prop :=
  (exists n, n ∈ nodes t /\ Nodes.id n = MissionParticipants.nodeId p /\ Nodes.status n = S_active) /\
  exists w, w ∈ workspaceBindings t /\
    WorkspaceBindings.id w = MissionParticipants.workspaceBindingId p /\
    WorkspaceBindings.status w = S_active.
Definition all_routed (id : string) (t : LedgerTables) : Prop :=
  forall p, p ∈ participants_of id t -> routed t p.

(** The rows once the event has settled the delivery it answers. *)
Definition settled_rows (m : Missions.Mission) (next : MissionCoordinatorState) (b : EventBody)
    (eventId : string) (settledAt stampedAt : Z) (rows : list Row) : list Row :=
  match body_source b with
  | Some source =>
      if shouldSettleSourceDelivery next b
      then map (fun d => if settled_by (Missions.id m) source next b d
                         then stamp stampedAt (settle_with eventId settledAt d) else d) rows
      else rows
  | None => rows
  end.

Record appends `{Zod} (m : Missions.Mission) (row : MissionEventRows.MissionEvent)
    (next : MissionCoordinatorState) (t t' : LedgerTables) : Prop := {
  ap_logs : logs m row next t t';
  ap_body : body_tag (MissionEventRows.payload row) <> ET_mission_terminal;
  ap_answers : forall source, body_source (MissionEventRows.payload row) = Some source ->
    exists d, answers m (MissionEventRows.payload row) t d;
  ap_receipts : receipts t' = receipts t;
  ap_rows : exists at_ stamped created,
    nodeDeliveries t' =
      settled_rows m next (MissionEventRows.payload row) (MissionEventRows.id row) at_ stamped
        (nodeDeliveries t) ++ created /\
    Forall2 (created_for (Missions.id m) (MissionEventRows.id row)
               (participants_of (Missions.id m) t))
      (targets_of (Missions.state m) next (MissionEventRows.payload row)) created /\
    NoDup (map NodeDeliveries.id created) /\
    forall d, d ∈ created -> NodeDeliveries.id d ∉ row_ids t;
  ap_routed : body_source (MissionEventRows.payload row) = None -> all_routed (Missions.id m) t
}.

(** The relay's own event: every open delivery that nothing settled is cancelled. *)
Definition ended (missionId eventId : string) (cause : TerminalCause) (now : Z) (d d' : Row) : Prop :=
  if open_work missionId d
  then exists n, d' = stamp n (settle_if_open eventId now
                                 (cancel_delivery (cause_cancellation cause) now d))
  else d' = d.

Record terminates `{Zod} (m : Missions.Mission) (row : MissionEventRows.MissionEvent)
    (next : MissionCoordinatorState) (cause : TerminalCause) (now : Z) (t t' : LedgerTables)
    : Prop := {
  tm_logs : logs m row next t t';
  tm_now : moment now;
  tm_live : is_live (Missions.status m) = true;
  tm_cause : match cause with
             | Deadline => Missions.expiresAt m <= now
             | DeadLetter id => exists d, d ∈ nodeDeliveries t /\ NodeDeliveries.id d = id /\
                 unresolved_dead_letter (Missions.id m) d = true
             end;
  tm_body : MissionEventRows.payload row = MissionTerminal {|
    mt_terminal_status := cause_status cause; mt_reason := cause_reason cause;
    mt_triggering_delivery_id := cause_delivery cause |};
  tm_receipts : adds_receipts t t';
  tm_rows : Forall2 (ended (Missions.id m) (MissionEventRows.id row) cause now)
    (nodeDeliveries t) (nodeDeliveries t')
}.

(** ** Revocation *)

(** Every open delivery of the Missions is cancelled, settled or not. *)
Definition revoked_row (ids : list string) (reason : DeliveryCancellationReason) (now : Z)
    (d d' : Row) : Prop :=
  if open_in ids d then exists n, d' = stamp n (cancel_delivery reason now d) else d' = d.

Definition revocation_reason (r : DeliveryCancellationReason) : bool :=
  (r === C_node_revoked) || (r === C_workspace_revoked).

Record revokes `{Zod} (ids : list string) (reason : DeliveryCancellationReason) (t t' : LedgerTables)
    : Prop := {
  rv_frame : writes_rows t t';
  rv_rows : exists now, moment now /\
    Forall2 (revoked_row ids reason now) (nodeDeliveries t) (nodeDeliveries t');
  rv_reason : revocation_reason reason = true
}.

(** What may become of a Node and of a binding: revocation is final. *)
Definition node_kept (n n' : Nodes.Node) : Prop :=
  Nodes.id n' = Nodes.id n /\ Nodes.agentId n' = Nodes.agentId n /\
  (Nodes.status n = S_revoked -> Nodes.status n' = S_revoked).
Definition binding_kept (w w' : WorkspaceBindings.WorkspaceBinding) : Prop :=
  WorkspaceBindings.id w' = WorkspaceBindings.id w /\
  WorkspaceBindings.nodeId w' = WorkspaceBindings.nodeId w /\
  (WorkspaceBindings.status w = S_revoked -> WorkspaceBindings.status w' = S_revoked).
Definition grown {A} (key : A -> string) (kept : A -> A -> Prop) (l l' : list A) : Prop :=
  exists old new, l' = old ++ new /\ Forall2 kept l old /\
    forall x, x ∈ new -> key x ∉ map key l.

(** The Mission tables stay; Nodes and bindings are added or revoked. *)
Record authorities `{Zod} (t t' : LedgerTables) : Prop := {
  au_missions : same_missions t t';
  au_rows : nodeDeliveries t' = nodeDeliveries t;
  au_receipts : receipts t' = receipts t;
  au_nodes : grown Nodes.id node_kept (nodes t) (nodes t');
  au_bindings : grown WorkspaceBindings.id binding_kept (workspaceBindings t) (workspaceBindings t')
}.

(** ** The relation *)
Inductive ledger_step `{Zod} (t t' : LedgerTables) : Prop :=
| step_rows : moves_rows t t' -> ledger_step t t'
| step_create m ps : creates m ps t t' -> ledger_step t t'
| step_accept : accepts_one t t' -> ledger_step t t'
| step_append m row next : appends m row next t t' -> ledger_step t t'
| step_terminal m row next cause now : terminates m row next cause now t t' -> ledger_step t t'
| step_revoke ids reason : revokes ids reason t t' -> ledger_step t t'
| step_authority : authorities t t' -> ledger_step t t'.

(** The ids that are primary keys. *)
Record keys_ok (t : LedgerTables) : Prop := {
  key_missions : NoDup (map Missions.id (missions t));
  key_rows : NoDup (row_ids t)
}.

(** ** What the moves leave alone *)

(** What routes a delivery, and whether it is settled. *)
Definition routing (d : Row) : string * string * string * DeliveryKind * Z * option Z * bool :=
  (NodeDeliveries.id d, NodeDeliveries.nodeId d, NodeDeliveries.missionId d,
   NodeDeliveries.kind d, NodeDeliveries.contractVersion d, NodeDeliveries.verificationRound d,
   is_null (NodeDeliveries.settledByEventId d)).

Lemma row_move_routing `{Zod} now d d' : row_move now d d' -> routing d' = routing d.
Proof. destruct 1; try done. by destruct dead. Qed.

Lemma row_moved_routing `{Zod} now d d' : row_moved now d d' -> routing d' = routing d.
Proof. intros [->|(n & v & M & ->)]; [done|]. by apply row_move_routing in M. Qed.

Lemma revoked_row_routing ids reason now d d' :
  revoked_row ids reason now d d' -> routing d' = routing d.
Proof. unfold revoked_row. case_match; [by intros [n ->]|by intros ->]. Qed.

Lemma Forall2_map_eq {A B} (f : A -> B) (R : A -> A -> Prop) l l' :
  (forall x y, R x y -> f y = f x) -> Forall2 R l l' -> map f l' = map f l.
Proof. intros K. induction 1; cbn; [done|]. f_equal; [by apply K|done]. Qed.

Lemma ended_id m e c now d d' : ended m e c now d d' -> NodeDeliveries.id d' = NodeDeliveries.id d.
Proof. unfold ended. case_match; [by intros [n ->]|by intros ->]. Qed.

Lemma settled_rows_ids m next b e at_ st rows :
  map NodeDeliveries.id (settled_rows m next b e at_ st rows) = map NodeDeliveries.id rows.
Proof.
  unfold settled_rows. repeat case_match; [|done..]. rewrite map_map. apply map_ext. intros d.
  by case_match.
Qed.

Lemma project_ids id next now l :
  map Missions.id (map (fun x => if Missions.id x === id then project next now x else x) l) =
  map Missions.id l.
Proof. rewrite map_map. apply map_ext. intros x. by case_match. Qed.

Section Keys.
Context `{Zod}.

Lemma logs_keys m row next t t' :
  logs m row next t t' -> map Missions.id (missions t') = map Missions.id (missions t).
Proof. intros L. destruct (lg_missions _ _ _ _ _ L) as [now ->]. apply project_ids. Qed.

Lemma step_keys t t' : ledger_step t t' -> keys_ok t -> keys_ok t'.
Proof.
  intros S [Km Kr]. unfold row_ids in *. destruct S as [[F (now & _ & R)]|m ps [? _ _ _ _ _ _ ->]
    |[_ -> _]|m row next [L _ _ _ (at_ & st & created & Er & _ & Nc & Fr) _]
    |m row next cause now [L _ _ _ _ _ R]|ids reason [F (now & _ & R) _]|[F Er _ _ _]].
  - constructor.
    + destruct F as [[Em _ _] _ _]. by rewrite Em.
    + unfold row_ids. erewrite Forall2_map_eq; [done| |exact R].
      intros x y M%row_moved_routing. by injection M.
  - constructor; [|done]. cbn. rewrite map_app. by apply NoDup_snoc.
  - by constructor.
  - constructor; [by erewrite logs_keys|]. unfold row_ids. rewrite Er.
    rewrite map_app, settled_rows_ids. apply NoDup_app. split; [done|]. split; [|done].
    intros i Hi (d & -> & Hd)%list_elem_of_fmap. by apply (Fr d).
  - constructor; [by erewrite logs_keys|]. unfold row_ids.
    erewrite Forall2_map_eq; [done| |exact R]. apply ended_id.
  - constructor.
    + destruct F as [[Em _ _] _ _]. by rewrite Em.
    + unfold row_ids. erewrite Forall2_map_eq; [done| |exact R]. intros x y Rv.
      pose proof (revoked_row_routing _ _ _ _ _ Rv) as E. by injection E.
  - destruct F as [Em _ _]. constructor; [by rewrite Em|]. unfold row_ids. by rewrite Er.
Qed.

Lemma steps_keys t t' : rtc ledger_step t t' -> keys_ok t -> keys_ok t'.
Proof. induction 1; eauto using step_keys. Qed.

(** Receipts are never removed. *)
Lemma step_receipts t t' : ledger_step t t' -> adds_receipts t t'.
Proof.
  destruct 1 as [[[_ _ R] _]|m ps [_ _ _ _ _ _ _ ->]|[_ -> _]|m row next []|m row next cause now []
    |ids reason [[_ _ R] _ _]|[_ _ R _ _]]; try done; exists []; by rewrite app_nil_r.
Qed.
Lemma steps_receipts t t' : rtc ledger_step t t' -> adds_receipts t t'.
Proof. induction 1; [reflexivity|]. etrans; [by apply step_receipts|done]. Qed.
End Keys.
