(* ===== verification/LedgerAppend.v ===== *)
(** * Appending an event is a step

    [appendMissionEventInTransaction] either replays a stored event and writes
    nothing, or its writes together are one [appends] step. *)

From stdpp Require Import sorting.
From S2P Require Import Prelude JsLib Schemas IsoDates RelayStore.
From S2P Require Import MissionEvents MissionCoordinator MissionReach DeliveryOperations.
From S2P Require Import LedgerStore MissionLedger MissionReconciliation.
From S2P Require Import DeliveryLedger DeliveryCompletion LedgerRules LedgerSteps.
Local Open Scope Z_scope.

(** A time within the years [toISOString] writes with four digits, a lease's
    length before their end; the wall clock reads no other.  zod's date-time
    format accepts what [toISOString] writes of them. *)
Definition clock_time (t : Z) : Prop := 0 <= t /\ t + LEASE_DURATION_MS < 253402300800000.
Class LedgerLaws `{Zod, LedgerEnv} : Prop := {
  clock_in_range n : clock_time (clock_timestamp n);
  iso_datetime t : iso_range t -> zod_datetime (toISOString t) = true
}.

Lemma clock_time_iso t : clock_time t -> iso_range t.
Proof. unfold clock_time, iso_range, LEASE_DURATION_MS. lia. Qed.
Lemma clock_iso `{LedgerLaws} n : iso_range (clock_timestamp n).
Proof. apply clock_time_iso, clock_in_range. Qed.

Section Append.
Context `{Zod, RelayEnv, LedgerEnv, !LedgerLaws}.
Implicit Types s : Ledger.

Lemma derive_targets p n b s l s' :
  deriveDeliveryTargets p n b s = (Ok l, s') -> l = targets_of p n b /\ s' = s.
Proof.
  unfold deriveDeliveryTargets, targets_of. cbv zeta. intros E.
  destruct b as [|e| | |]; [..|]; repeat case_match; ltx E; done.
Qed.

Lemma create_deliveries missionId eventId ps targets s ids s' :
  for_each (create_delivery missionId eventId ps) targets s = (Ok ids, s') ->
  exists created,
    ledger s' = (ledger s) <| nodeDeliveries := nodeDeliveries (ledger s) ++ created |> /\
    Forall2 (created_for missionId eventId ps) targets created /\
    ids = map NodeDeliveries.id created /\
    NoDup ids /\ forall i, i ∈ ids -> i ∉ row_ids (ledger s).
Proof.
  revert s ids. induction targets as [|tg targets IH]; intros s ids E; cbn in E.
  - ltx E. exists []. rewrite app_nil_r. split_and!; try done; try constructor.
    + by destruct (ledger s).
    + intros i Hi. by apply not_elem_of_nil in Hi.
  - apply lbind_ok in E as (id & s1 & C & E). apply lbind_ok in E as (ids' & s2 & F & E).
    ltx_atom E. apply IH in F as (created & L & FA & -> & N & Fr).
    unfold create_delivery in C. case_match; [|ltx C; done]. ltx_one C. ltx_one C. ltx_atom C.
    apply insert_delivery_ok in R as (L' & NR & Fi). rename a into row.
    exists (row :: created).
    assert (row_ids (ledger s0) = row_ids (ledger s) ++ [NodeDeliveries.id row]) as Eids.
    { unfold row_ids. rewrite L'. cbn. by rewrite map_app. }
    rewrite Eids in Fr. rewrite L' in L. split_and!; [|constructor; [|done]|done|constructor; [|done]|].
    + rewrite L. cbn. by rewrite <-app_assoc.
    + match goal with A : array_find _ _ = Some _ |- _ => apply array_find_Some in A as [Hp Ep] end.
      bool_hyps. eexists. split_and!; done.
    + intros Hi. apply (Fr _ Hi). apply elem_of_app. right. left.
    + intros i [->|Hi]%elem_of_cons; [done|]. intros K. apply (Fr _ Hi), elem_of_app. by left.
Qed.

Lemma settle_source_ok m next e at_ s u s' :
  settle_source (Missions.id m) next e at_ s = (Ok u, s') ->
  exists n, ledger s' = (ledger s) <| nodeDeliveries :=
    settled_rows m next (body e) (event_id e) at_ n (nodeDeliveries (ledger s)) |>.
Proof.
  unfold settle_source, settled_rows. destruct (body_source (body e)) as [source|].
  - destruct (shouldSettleSourceDelivery _ _).
    + intros E. ltx_one E. apply update_deliveries_ok in R as (n & -> & L & _). ltx_atom E.
      exists (clock_timestamp n). by rewrite L.
    + intros E. ltx E. exists 0. by destruct (ledger s).
  - intros E. ltx E. exists 0. by destruct (ledger s).
Qed.

(** What the writes of an accepted event leave. *)
Lemma commit_event_ok m input current next event previous recordedAt s r s' :
  env_created_at (envelope event) = toISOString recordedAt -> iso_range recordedAt ->
  env_mission_id (envelope event) = Missions.id m ->
  commit_event (Missions.id m) input current next event previous s = (Ok r, s') ->
  exists row n st created,
    event_of_row row = event /\ MissionEventRows.type row = body_tag (body event) /\
    every fst (event_checks row) = true /\ MissionEventRows.actorKind row = MissionEventRows.agent /\
    ledger s' = (ledger s) <| missionEvents := missionEvents (ledger s) ++ [row] |>
      <| nodeDeliveries := settled_rows m next (body event) (event_id event) recordedAt st
           (nodeDeliveries (ledger s)) ++ created |>
      <| missions := map (fun x => if Missions.id x === Missions.id m then project next n x else x)
           (missions (ledger s)) |> /\
    Forall2 (created_for (Missions.id m) (event_id event) (participants_of (Missions.id m) (ledger s)))
      (targets_of current next (body event)) created /\
    NoDup (map NodeDeliveries.id created) /\
    (forall d, d ∈ created -> NodeDeliveries.id d ∉ row_ids (ledger s)) /\
    r = {| ap_event := event; ap_deliveryIds := map NodeDeliveries.id created; ap_state := next;
           ap_replayed := false |}.
Proof.
  intros Ec Ir Em. unfold commit_event. cbv zeta. intros E. ltx_one E.
  rewrite Ec, Date_parse_toISOString in G by done. injection G as <-.
  ltx_one E. apply insert_event_ok in R as (L1 & C & _). ltx_one E.
  apply settle_source_ok in R as (st & L2). ltx_one E. ltx_one E.
  apply derive_targets in R as (-> & ->). ltx_one E. apply create_deliveries in R as (created & L3 & F & -> & N & Fr).
  ltx_one E. apply update_mission_ok in R as (n & L4). ltx_one E. hush R. ltx_atom E.
  match type of C with every _ (event_checks ?row) = _ => exists row, n, st, created end. rewrite L2, L1 in L3, F, Fr. rewrite L3 in L4. rewrite R.
  split_and!; [|reflexivity|exact C|done| |exact F|exact N| |done].
  - destruct event as [[] ?]. cbn in *. by subst.
  - rewrite L4. cbn. done.
  - intros d Hd K. apply (Fr (NodeDeliveries.id d)); [by apply list_elem_of_fmap_2|].
    unfold row_ids. cbn. by rewrite settled_rows_ids.
Qed.
(** ** The checks before the writes *)
Lemma config_ok m s c s' :
  mission_config m s = (Ok c, s') ->
  c = Missions.coordinatorConfig m /\
  missionCoordinatorConfigSchema (Missions.coordinatorConfig m) = true /\ s' = s.
Proof. unfold mission_config. intros E. by ltx E. Qed.

Lemma state_from_row_ok m s st s' :
  missionStateFromRow m s = (Ok st, s') -> st = Missions.state m.
Proof. unfold missionStateFromRow. cbv zeta. intros E. ltx_one E. ltx_one E. by ltx_atom E. Qed.

Lemma replay_stored_ok mid config s p s' :
  replay_stored mid config s = (Ok p, s') ->
  exists events, eventsFromRows (mission_event_rows mid (ledger s)) = Ok events /\
    replayMissionCoordinatorEvents config events = Ok p.1 /\ s' = s.
Proof. unfold replay_stored. intros E. ltx E. eauto. Qed.

Lemma reduce_or_fail_ok st e s next s' :
  reduce_or_fail st e s = (Ok next, s') -> reduceMissionCoordinatorEvent st e = Ok next /\ s' = s.
Proof.
  unfold reduce_or_fail. destruct (reduceMissionCoordinatorEvent st e) as [n|[]]; intros E; by ltx E.
Qed.

Lemma source_checked m b actor source a s u s' :
  assertSourceDelivery (Missions.id m) actor source b a s = (Ok u, s') ->
  open_status (sa_status a) = true -> body_source b = Some source -> fst <$> body_participant b = Some actor ->
  exists d, answers m b (ledger s) d.
Proof.
  unfold assertSourceDelivery. intros E Oa Bs Ba. ltx_one E. ltx_one E.
  destruct (source_row _ _ _ _) as [[d p]|] eqn:F; [|by ltx E]. ltx E.
  unfold source_row in F. apply bind_Some in F as (d' & Fd & F). apply bind_Some in F as (p' & Fp & [= -> ->]).
  apply array_find_Some in Fd as [Hd Ed]. apply array_find_Some in Fp as [Hp Ep].
  unfold source_mismatch in *. bool_hyps. exists d.
  assert (NodeDeliveries.id d = source) as Ei by congruence.
  constructor; try done.
  - by rewrite Ei.
  - exists p. split_and!; [|congruence|by rewrite Ba; congruence].
    apply elem_of_array_filter. split; [done|]. apply bool_decide_eq_true. congruence.
  - by match goal with S : NodeDeliveries.status d = _ |- _ => rewrite S end.
Qed.

(** What the callers of the append see to: the status their source delivery has
    is an open one, and an event derived from the participants' acceptances is
    appended when all their routes are active. *)
Record append_guarded (m : Missions.Mission) (input : AppendInput) (t : LedgerTables) : Prop := {
  ag_status : forall a, in_sourceAuthorization input = Some a -> open_status (sa_status a) = true;
  ag_routed : in_allowDerivedAcceptance input = true -> all_routed (Missions.id m) t
}.

Lemma actor_derived m input s u s' :
  assert_actor m input s = (Ok u, s') -> body_source (in_appendInput input).(ai_body) = None ->
  in_allowDerivedAcceptance input = true.
Proof.
  unfold assert_actor, assertAuthorizedActor. destruct (ai_body _) as [| | | |]; intros E Ns; cbn in *;
    try done; ltx_one E || ltx_atom E; by bool_hyps.
Qed.

Lemma actor_checked m input s u s' :
  assert_actor m input s = (Ok u, s') ->
  body_source (in_appendInput input).(ai_body) <> None ->
  fst <$> body_participant (in_appendInput input).(ai_body) = Some (in_actorAgentId input).
Proof.
  unfold assert_actor, assertAuthorizedActor. destruct (ai_body _) as [| | | |]; intros E Ns; cbn in *;
    try done; ltx E; by bool_hyps.
Qed.

Lemma source_answered m input t s1 u1 s1' s u s' source :
  append_guarded m input t ->
  assert_actor m input s1 = (Ok u1, s1') -> assert_source m input s = (Ok u, s') ->
  body_source (in_appendInput input).(ai_body) = Some source ->
  exists d, answers m (in_appendInput input).(ai_body) (ledger s) d.
Proof.
  intros [Os _] A E Bs. unfold assert_source in E. cbv zeta in E. rewrite Bs in E.
  destruct (in_sourceAuthorization input) as [a|]; [|by ltx E].
  eapply source_checked; [exact E|by apply Os|exact Bs|]. eapply actor_checked; [exact A|]. by rewrite Bs.
Qed.

Lemma clock_or_given (o : option Z) s t s' :
  (forall t, o = Some t -> iso_range t) ->
  (match o with Some t => mret t | None => readDatabaseClock end) s = (Ok t, s') ->
  iso_range t /\ ledger s' = ledger s.
Proof.
  intros G E. destruct o as [t'|]; [ltx E; auto|].
  apply clock_ok in E as (-> & L). split; [apply clock_iso|done].
Qed.

Lemma append_new_event_ok m input s r s' :
  find_mission (Missions.id m) (ledger s) = Some m ->
  (forall t, in_recordedAt input = Some t -> iso_range t) -> append_guarded m input (ledger s) ->
  append_new m input s = (Ok r, s') ->
  exists row next, appends m row next (ledger s) (ledger s') /\
    MissionEventRows.payload row = (in_appendInput input).(ai_body) /\
    ap_event r = event_of_row row.
Proof.
  intros Fm Rt Ag. unfold append_new. cbv zeta. intros E.
  apply lbind_ok in E as (recordedAt & s1 & Rc & E). apply clock_or_given in Rc as [Ir L1]; [|done].
  ltx_one E. apply lbind_ok in E as (c & s2 & Rc & E). apply config_ok in Rc as (-> & V & ->).
  ltx_one E. hush R. rename R into L2.
  apply lbind_ok in E as ([] & s3 & Ra & E). pose proof (quiet_ok _ _ _ _ (quiet_assert_actor _ _) Ra) as L3.
  apply lbind_ok in E as (p & s4 & Rp & E). apply replay_stored_ok in Rp as (events & Re & Rr & ->).
  ltx_one E. apply lbind_ok in E as (st & s5 & Rs & E).
  pose proof (quiet_ok _ _ _ _ (quiet_state_from_row _) Rs) as L5. apply state_from_row_ok in Rs as ->.
  ltx_one E. apply lbind_ok in E as ([] & s6 & Rs & E).
  pose proof (quiet_ok _ _ _ _ (quiet_assert_source _ _) Rs) as L6.
  apply lbind_ok in E as (eventId & s7 & Ru & E). apply (quiet_ok _ _ _ _ quiet_uuid) in Ru as L7. clear Ru.
  ltx_one E. apply lbind_ok in E as (next & s8 & Rn & E). apply reduce_or_fail_ok in Rn as [Rn ->].
  bool_hyps. rewrite G1 in *.
  assert (L : ledger s7 = ledger s) by congruence.
  apply (commit_event_ok m input _ next _ _ recordedAt) in E as (row & n & st & created & Er & Et & C & Ac & Ls & Fc & Nc & Fr & ->);
    [|done..].
  exists row, next. rewrite L in *. cbn [ap_event]. cbn [body] in *.
  assert (Eb : MissionEventRows.payload row = (in_appendInput input).(ai_body)).
  { change (body (event_of_row row) = (in_appendInput input).(ai_body)). by rewrite Er. }
  split; [|split; [done|by rewrite Er]].
  split; rewrite ?Eb.
  - constructor; try done; rewrite ?Ls; try done.
    + exists events. by rewrite <-L1, <-L2, <-L3.
    + unfold eventFromRow. rewrite Et, Eb, Er, bool_decide_true by done. by rewrite G2.
    + change (event_mission (event_of_row row) = Missions.id m). by rewrite Er.
    + change (event_sequence (event_of_row row) = sequence_no (Missions.state m) + 1). by rewrite Er.
    + by rewrite Er.
    + by exists n.
  - unfold event_checks in C. rewrite Ac, Et in C. cbn in C. bool_hyps.
    intros K. by rewrite K in *.
  - intros source Bs. rewrite <-L5, <-L3, <-L2, <-L1 in *. replace (ledger s) with (ledger s5) by congruence.
    eapply source_answered; [exact Ag|exact Ra|exact Rs|exact Bs].
  - by rewrite Ls.
  - exists recordedAt, st, created. rewrite Ls. split_and!; try done.
    + change (MissionEventRows.id row) with (event_id (event_of_row row)). by rewrite Er.
    + change (MissionEventRows.id row) with (event_id (event_of_row row)). by rewrite Er.
  - intros Bs. apply Ag. eapply actor_derived; [exact Ra|exact Bs].
Qed.

(** [appendMissionEventInTransaction] is atomic and idempotent in the
    relation's terms: it either replays the stored event and writes nothing, or
    makes exactly one [appends] step. *)
Lemma append_ok m input s r s' :
  find_mission (Missions.id m) (ledger s) = Some m ->
  (forall t, in_recordedAt input = Some t -> iso_range t) -> append_guarded m input (ledger s) ->
  appendMissionEventInTransaction m input s = (Ok r, s') ->
  ledger s' = ledger s \/
  exists row next, appends m row next (ledger s) (ledger s').
Proof.
  intros Fm Rt Ag E. unfold appendMissionEventInTransaction in E. ltx_one E.
  destruct (array_find _ _) as [row|].
  - left. by apply (quiet_ok _ _ _ _ (quiet_replay_append _ _ _)) in E.
  - right. apply append_new_event_ok in E as (row & next & A & _); eauto.
Qed.
End Append.
