(* ===== verification/LedgerTerminal.v ===== *)
(** * Reconciliation is a step

    [reconcileMissionInTransaction] leaves the ledger as it is, or ends the
    Mission in one [terminates] step; the loop that replaces rows one by one is
    shared with the cancellation of superseded siblings. *)

From stdpp Require Import sorting.
From S2P Require Import Prelude JsLib Schemas IsoDates RelayStore.
From S2P Require Import MissionEvents MissionCoordinator MissionReach DeliveryOperations.
From S2P Require Import LedgerStore MissionLedger MissionReconciliation.
From S2P Require Import DeliveryLedger DeliveryCompletion LedgerRules LedgerSteps.
From S2P Require Import LedgerAppend.
Local Open Scope Z_scope.

Lemma Forall2_impl_elem {A B} (P Q : A -> B -> Prop) l k :
  Forall2 P l k -> (forall x y, x ∈ l -> P x y -> Q x y) -> Forall2 Q l k.
Proof.
  induction 1 as [|x y l k Pxy F IH]; intros K; constructor.
  - apply K; [left|done].
  - apply IH. intros a b Ha. apply K. by right.
Qed.

Lemma put_row_ids row rows : map NodeDeliveries.id (put_row row rows) = map NodeDeliveries.id rows.
Proof.
  unfold put_row. rewrite map_map. apply map_ext. intros d. by case_bool_decide.
Qed.

(** A change of the deliveries alone, one row at a time. *)
Definition edits `{RelayEnv} (row : Row) (s s' : Ledger) : Prop :=
  writes_rows (ledger s) (ledger s') /\
  nodeDeliveries (ledger s') = put_row row (nodeDeliveries (ledger s)).

Lemma edit_loop `{RelayEnv} {B} (body : Row -> LTx B) (Q : Row -> Row -> Prop) l s us s' :
  (forall x s u s', NoDup (row_ids (ledger s)) -> x ∈ nodeDeliveries (ledger s) ->
     body x s = (Ok u, s') ->
     exists x', Q x x' /\ NodeDeliveries.id x' = NodeDeliveries.id x /\ edits x' s s') ->
  NoDup (row_ids (ledger s)) -> NoDup l -> (forall x, x ∈ l -> x ∈ nodeDeliveries (ledger s)) ->
  for_each body l s = (Ok us, s') ->
  writes_rows (ledger s) (ledger s') /\
  Forall2 (fun d d' => (d ∈ l /\ Q d d') \/ (~ d ∈ l /\ d' = d))
    (nodeDeliveries (ledger s)) (nodeDeliveries (ledger s')).
Proof.
  intros K. revert s us. induction l as [|x l IH]; intros s us N Nl Hl E; cbn in E.
  - ltx E. split; [done|]. clear. induction (nodeDeliveries (ledger s)) as [|d r IH]; constructor; [|done].
    right. split; [|done]. by intros ?%not_elem_of_nil.
  - apply lbind_ok in E as (u & s1 & C & E). apply lbind_ok in E as (us' & s2 & F & E). ltx_atom E.
    apply NoDup_cons in Nl as [Nx Nl].
    pose proof (Hl x (list_elem_of_here _ _)) as Hx.
    apply K in C as (x' & Qx & Ix & W & Er); [|done..].
    assert (U : forall y, y ∈ nodeDeliveries (ledger s) -> NodeDeliveries.id y = NodeDeliveries.id x -> y = x).
    { intros y Hy Ey. by apply (NoDup_map_eq NodeDeliveries.id (nodeDeliveries (ledger s))). }
    apply IH in F as [W' F]; [|unfold row_ids; by rewrite Er, put_row_ids|done|].
    + split; [by etrans|]. rewrite Er in F. unfold put_row in F.
      apply Forall2_fmap_l in F. eapply Forall2_impl_elem; [exact F|].
      intros d d' Hd. cbn. rewrite Ix. case_bool_decide as Ei.
      * rewrite (U d Hd Ei). intros [[Hx' _]|[_ ->]]; [|left; split; [left|done]].
        destruct Nx. pose proof (Hl x' (list_elem_of_further _ _ _ Hx')) as H'.
        by rewrite <-(U x' H' Ix).
      * intros [[Hd' Qd]|[Hd' ->]]; [left; split; [by right|done]|right; split; [|done]].
        intros [->|?]%elem_of_cons; done.
    + intros y Hy. rewrite Er. apply list_elem_of_fmap. exists y.
      split; [|by apply Hl; right]. rewrite Ix, bool_decide_false; [done|].
      intros Ey. rewrite (U y) in Hy; [done|by apply Hl; right|done].
Qed.

Section Terminal.
Context `{Zod, RelayEnv, LedgerEnv, !LedgerLaws}.
Implicit Types s : Ledger.

Lemma delivery_row_parsed d s r s' :
  deliveryFromRow d s = (Ok r, s') -> deliverySchema (delivery_of_row d) = true /\ s' = s.
Proof. unfold deliveryFromRow. intros E. by ltx E. Qed.

Lemma cancel_for_terminal_ok missionId eventId cause now x s u s' :
  NoDup (row_ids (ledger s)) -> x ∈ nodeDeliveries (ledger s) ->
  cancel_for_terminal missionId eventId cause now x s = (Ok u, s') ->
  exists x', (exists n, x' = stamp n (settle_if_open eventId now
                                        (cancel_delivery (cause_cancellation cause) now x))) /\
    NodeDeliveries.id x' = NodeDeliveries.id x /\ edits x' s s'.
Proof.
  intros N Hx. unfold cancel_for_terminal. cbv zeta. intros E. ltx_one E.
  apply (update_one_ok _ _ _ _ (NodeDeliveries.id x)) in R as (d & n & Hd & Pd & -> & _ & L);
    [|done|intros d; by intros ?; bool_hyps|done].
  bool_hyps. assert (d = x) as -> by (by apply (NoDup_map_eq NodeDeliveries.id (nodeDeliveries (ledger s)))).
  ltx_one E. hush R. ltx_one E. hush R0. ltx_one E. apply insert_receipt_ok in R1 as [R1 _]. hush E.
  eexists. split; [by eexists|]. split; [done|]. unfold edits. led.
  split; [|done]. constructor; [done|done|]. by eexists [_].
Qed.

Lemma cause_ok m now cause s s' :
  terminalCause (Missions.id m) (Missions.expiresAt m) now s = (Ok cause, s') ->
  s' = s /\
  match cause with
  | Some Deadline => Missions.expiresAt m <= now
  | Some (DeadLetter id) => exists d, d ∈ nodeDeliveries (ledger s) /\ NodeDeliveries.id d = id /\
      unresolved_dead_letter (Missions.id m) d = true
  | None => now < Missions.expiresAt m /\
      forall d, d ∈ nodeDeliveries (ledger s) -> unresolved_dead_letter (Missions.id m) d = false
  end.
Proof.
  unfold terminalCause. intros E. case_match eqn:D; ltx E; bool_hyps; [done|]. split; [done|].
  destruct (sort_by _ _) as [|d ds] eqn:S; cbn.
  - split; [done|]. intros d Hd. destruct (unresolved_dead_letter _ d) eqn:U; [|done].
    assert (K : d ∈ sort_by by_cursor (array_filter (unresolved_dead_letter (Missions.id m))
                                  (nodeDeliveries (ledger s)))).
    { unfold sort_by. rewrite merge_sort_Permutation. by apply elem_of_array_filter. }
    rewrite S in K. by apply not_elem_of_nil in K.
  - assert (K : d ∈ array_filter (unresolved_dead_letter (Missions.id m)) (nodeDeliveries (ledger s))).
    { rewrite <-(merge_sort_Permutation (ordered by_cursor)). unfold sort_by in S. rewrite S. left. }
    apply elem_of_array_filter in K as [? ?]. eauto.
Qed.
Lemma open_work_listed missionId rows d :
  d ∈ sort_by by_cursor (array_filter (open_work missionId) rows) <->
  d ∈ rows /\ open_work missionId d = true.
Proof. unfold sort_by. by rewrite merge_sort_Permutation, elem_of_array_filter. Qed.

Lemma ids_rows t : NoDup (row_ids t) -> NoDup (nodeDeliveries t).
Proof. apply NoDup_fmap_1. Qed.

Lemma terminate_ok m cause now s r s' :
  NoDup (row_ids (ledger s)) -> find_mission (Missions.id m) (ledger s) = Some m ->
  iso_range now -> is_live (Missions.status m) = true ->
  match cause with
  | Deadline => Missions.expiresAt m <= now
  | DeadLetter id => exists d, d ∈ nodeDeliveries (ledger s) /\ NodeDeliveries.id d = id /\
      unresolved_dead_letter (Missions.id m) d = true
  end ->
  terminate m cause now s = (Ok r, s') ->
  exists row next, terminates m row next cause now (ledger s) (ledger s') /\
    rec_reconciled r = true /\ rec_checkedAt r = now.
Proof.
  intros N Fm Ir Lv Ca. unfold terminate. cbv zeta. intros E.
  apply lbind_ok in E as (c & s1 & Rc & E). apply config_ok in Rc as (-> & V & ->).
  apply lbind_ok in E as (p & s2 & Rp & E). apply replay_stored_ok in Rp as (events & Re & Rr & ->).
  ltx_one E. ltx_one E. ltx_one E. hush R. rename R into L1. ltx_one E. ltx_one E. ltx_one E.
  apply insert_event_ok in R as (L2 & _ & _). ltx_one E. ltx_one E. hush R. rename R into L3.
  apply lbind_ok in E as (us & s5 & Rl & E). ltx_one E. apply update_mission_ok in R as (n & L4).
  ltx_one E. hush R. rename R into L5. ltx_atom E. bool_hyps. rewrite H4 in *.
  apply (edit_loop _ (fun d d' => exists n, d' = stamp n (settle_if_open a0 now
           (cancel_delivery (cause_cancellation cause) now d)))) in Rl as [[[Wm Wp We] Wn Wr] F].
  - rewrite L3, L2, L1 in *. cbn in Wm, Wp, We, Wr, F.
    match type of We with _ = _ ++ [?row] => exists row, a1;
      assert (Ev : event_of_row row = terminal_event (Missions.id m) a0
                     (sequence_no (Missions.state m) + 1) now cause) by reflexivity end.
    split; [|done]. split.
    + constructor; try done; rewrite ?L5, ?L4; cbn; try done.
      * by exists events.
      * unfold eventFromRow. rewrite Ev, G1. by rewrite bool_decide_true.
      * exists n. by rewrite Wm.
      * destruct Wn. by constructor.
    + split; [done|]. unfold missionCoordinatorEventSchema, missionEventEnvelopeSchema in G1. by bool_hyps.
    + done.
    + done.
    + done.
    + rewrite L5, L4. destruct Wr as [l Wr]. by exists l.
    + rewrite L5, L4. cbn. eapply Forall2_impl_elem; [exact F|]. intros d d' Hd. unfold ended. cbn.
      destruct (open_work (Missions.id m) d) eqn:O; intros [[K Q]|[K Q]]; try done.
      * destruct K. by apply open_work_listed.
      * apply open_work_listed in K as [_ K]. congruence.
  - intros x s6 u s7 N' Hx C. by apply cancel_for_terminal_ok in C.
  - by rewrite L3, L2, L1.
  - unfold sort_by. rewrite merge_sort_Permutation. apply NoDup_array_filter. rewrite L2, L1. by apply ids_rows.
  - intros x [Hx _]%open_work_listed. by rewrite L3.
Qed.

(** Reconciliation ends a live Mission in one step when its deadline has passed or
    a dead letter is open, and does nothing otherwise. *)
Record unreconciled (missionId : string) (now : Z) (t : LedgerTables) : Prop := {
  un_mission : exists m, find_mission missionId t = Some m /\
    (is_live (Missions.status m) = true -> now < Missions.expiresAt m /\
     forall d, d ∈ nodeDeliveries t -> unresolved_dead_letter missionId d = false)
}.

Lemma reconcile_ok missionId s r s' :
  NoDup (row_ids (ledger s)) ->
  reconcileMissionInTransaction missionId s = (Ok r, s') ->
  clock_time (rec_checkedAt r) /\
  ((rec_reconciled r = false /\ ledger s' = ledger s /\
    unreconciled missionId (rec_checkedAt r) (ledger s)) \/
   (rec_reconciled r = true /\ exists m row next cause, Missions.id m = missionId /\
    terminates m row next cause (rec_checkedAt r) (ledger s) (ledger s'))).
Proof.
  intros N. unfold reconcileMissionInTransaction. cbv zeta. intros E. ltx_one E. hush R. ltx_one E.
  destruct (find_mission missionId (ledger s0)) as [m|] eqn:Fm; [|by ltx E].
  assert (Missions.id m = missionId) as <- by (apply array_find_Some in Fm as [_ Fm]; by bool_hyps).
  apply lbind_ok in E as (now & s1 & Rc & E). apply clock_ok in Rc as (En & L1).
  assert (clock_time now) as Ir by (rewrite En; apply clock_in_range).
  destruct (is_live (Missions.status m)) eqn:Lv; cbn [negb] in E.
  - apply lbind_ok in E as (cause & s2 & Rc & E). apply cause_ok in Rc as (-> & Rc).
    rewrite L1, R in *. destruct cause as [cause|].
    + apply terminate_ok in E as (row & next & T & Tr & Tn); rewrite ?L1, ?R; try done; [|by apply clock_time_iso].
      split; [by rewrite Tn|]. right. rewrite Tr, Tn. split; [done|].
      exists m, row, next, cause. by rewrite L1 in T.
    + ltx_atom E. split; [done|]. left. split; [done|]. rewrite L1. split; [done|].
      constructor. exists m. done.
  - ltx_atom E. split; [done|]. left. split; [done|]. rewrite L1. split; [done|].
    constructor. exists m. rewrite R in Fm. split; [done|]. by rewrite Lv.
Qed.
End Terminal.
