(* ===== verification/LedgerMoves.v ===== *)
(** * Delivery operations move rows

    Each operation of a Node on its lease, run in the context its transaction has
    locked, changes one row as [row_move] says, stores its receipt, and may end
    the Mission; the frame of all of them reconciles the Mission first. *)

From stdpp Require Import sorting.
From S2P Require Import Prelude JsLib Schemas IsoDates RelayStore.
From S2P Require Import MissionEvents MissionCoordinator MissionReach DeliveryOperations.
From S2P Require Import LedgerStore MissionLedger MissionReconciliation.
From S2P Require Import DeliveryLedger DeliveryCompletion LedgerRules LedgerSteps.
From S2P Require Import LedgerAppend LedgerTerminal.
Local Open Scope Z_scope.

(** What the schema of a returned delivery says of its row. *)
Section RowSchema.
Context `{Zod}.
Implicit Types d : Row.

Lemma schema_texts d :
  deliverySchema (delivery_of_row d) = true ->
  isoTimestampSchema (toISOString (NodeDeliveries.availableAt d)) = true /\
  (forall x, NodeDeliveries.cancelledAt d = Some x -> isoTimestampSchema (toISOString x) = true) /\
  (forall l x, NodeDeliveries.activeLeaseId d = Some l -> NodeDeliveries.leaseExpiresAt d = Some x ->
     uuidSchema l = true /\ isoTimestampSchema (toISOString x) = true).
Proof.
  unfold deliverySchema. intros V. bool_hyps. cbn [delivery_of_row d_available_at d_cancelled_at d_lease] in *.
  split_and!; [done| |].
  - intros x E. rewrite E in *. done.
  - intros l x E F. rewrite E, F in *. unfold deliveryLeaseSchema in *. cbn in *. by bool_hyps.
Qed.

Lemma schema_unsettled d :
  deliverySchema (delivery_of_row d) = true -> delivery_row_ok d = true ->
  NodeDeliveries.status d <> D_acknowledged -> NodeDeliveries.status d <> D_cancelled ->
  NodeDeliveries.settledByEventId d = None.
Proof.
  unfold deliverySchema, deliveryIssues. intros V R Na Nc. rewrite !no_issues_app, !no_issues_if in V.
  bool_hyps. unfold delivery_row_ok, delivery_checks in R. cbn [every fst] in R. bool_hyps.
  match goal with K : non_null (d_logical_settlement _) && _ && _ = false |- _ =>
    cbn [delivery_of_row d_logical_settlement d_status] in K; rename K into K' end.
  match goal with K : Bool.eqb (non_null (NodeDeliveries.settledByEventId d)) _ = true |- _ =>
    rename K into S end.
  destruct (NodeDeliveries.settledByEventId d), (NodeDeliveries.settledAt d); try done.
  by rewrite !bool_decide_false in K'.
Qed.

Lemma schema_receipt r :
  deliveryOperationReceiptSchema r = true -> isoTimestampSchema r.(or_recorded_at) = true.
Proof. unfold deliveryOperationReceiptSchema, rawDeliveryOperationReceiptSchema. intros V. by bool_hyps. Qed.
End RowSchema.

Lemma clock_moment `{Zod} now :
  clock_time now -> isoTimestampSchema (toISOString now) = true -> moment now.
Proof. intros C I. split; [by apply clock_time_iso|done]. Qed.

Lemma Forall2_refl_on {A} (R : A -> A -> Prop) l : (forall x, R x x) -> Forall2 R l l.
Proof. intros K. induction l; by constructor. Qed.

(** The receipt of a Node's operation. *)
Record receipt_row (nodeId deliveryId : string) (operation : Receipts.Operation) (key : string)
    (i : Receipts.Input) (o : Receipts.Output) (row : Receipts.Receipt) : Prop := {
  rr_origin : Receipts.origin row = Receipts.node; rr_node : Receipts.nodeId row = nodeId;
  rr_delivery : Receipts.deliveryId row = deliveryId;
  rr_operation : Receipts.operation row = operation;
  rr_key : Receipts.idempotencyKey row = key; rr_input : Receipts.input row = i;
  rr_output : Receipts.output row = o
}.
(** The receipt a retry of the operation finds: the first under its key. *)
Definition stored_receipt (nodeId key : string) (t : LedgerTables) : option Receipts.Receipt :=
  array_find (fun r =>
    (Receipts.origin r === Receipts.node) && (Receipts.nodeId r === nodeId) &&
    (Receipts.idempotencyKey r === key)) (receipts t).
Definition has_receipt (nodeId deliveryId : string) (operation : Receipts.Operation) (key : string)
    (i : Receipts.Input) (o : Receipts.Output) (t : LedgerTables) : Prop :=
  exists row, stored_receipt nodeId key t = Some row /\
    receipt_row nodeId deliveryId operation key i o row.

Lemma array_find_app {A} (p : A -> bool) l k :
  array_find p (l ++ k) = match array_find p l with Some x => Some x | None => array_find p k end.
Proof. induction l as [|x l IH]; cbn; [done|]. by destruct (p x). Qed.

Lemma has_receipt_mono n d op k i o t t' :
  adds_receipts t t' -> has_receipt n d op k i o t -> has_receipt n d op k i o t'.
Proof.
  intros [l E] (r & F & R). exists r. split; [|done]. unfold stored_receipt in *.
  by rewrite E, array_find_app, F.
Qed.

Section Moves.
Context `{Zod, RelayEnv, LedgerEnv, !LedgerLaws}.
Implicit Types s : Ledger.

(** One row replaced by a move of it. *)
Lemma put_moves now d n v t t' :
  NoDup (row_ids t) -> d ∈ nodeDeliveries t -> row_move now d v -> moment now ->
  nodeDeliveries t' = put_row (stamp n v) (nodeDeliveries t) -> writes_rows t t' ->
  moves_rows t t'.
Proof.
  intros N Hd M Mo E W. split; [done|]. exists now. split; [done|]. rewrite E.
  assert (NodeDeliveries.id v = NodeDeliveries.id d) as Ei.
  { apply row_move_routing in M. by injection M. }
  unfold put_row. apply Forall2_fmap_r. eapply Forall2_impl_elem.
  - by apply (Forall2_refl_on eq).
  - intros x ? Hx <-. cbn. rewrite Ei. case_bool_decide as K; [|by left].
    right. assert (x = d) as -> by (by apply (NoDup_map_eq NodeDeliveries.id (nodeDeliveries t))). eauto.
Qed.

(** Receipts may be added without a row moving. *)
Lemma receipts_move now t t' :
  moment now -> writes_rows t t' -> nodeDeliveries t' = nodeDeliveries t -> moves_rows t t'.
Proof.
  intros Mo W E. split; [done|]. exists now. split; [done|]. rewrite E.
  apply Forall2_refl_on. by left.
Qed.

Lemma update_by_id d g c msg s row s' :
  NoDup (row_ids (ledger s)) -> d ∈ nodeDeliveries (ledger s) ->
  (forall x, NodeDeliveries.id (g x) = NodeDeliveries.id x) ->
  update_one (by_id (NodeDeliveries.id d)) g c msg s = (Ok row, s') ->
  exists n, row = stamp n (g d) /\ delivery_row_ok row = true /\
    ledger s' = (ledger s) <| nodeDeliveries := put_row row (nodeDeliveries (ledger s)) |>.
Proof.
  intros N Hd Hg E.
  apply (update_one_ok _ _ _ _ (NodeDeliveries.id d)) in E as (x & n & Hx & Px & -> & C & L); [|done| |done].
  - unfold by_id in Px. bool_hyps. exists (clock_timestamp n).
    assert (x = d) as -> by (by apply (NoDup_map_eq NodeDeliveries.id (nodeDeliveries (ledger s)))). done.
  - intros x Px. unfold by_id in Px. by bool_hyps.
Qed.

Lemma persist_ok auth d r i o s u s' :
  persistNodeReceipt auth d r i o s = (Ok u, s') ->
  (exists row, ledger s' = (ledger s) <| receipts := receipts (ledger s) ++ [row] |>) /\
  has_receipt auth.(auth_nodeId) (NodeDeliveries.id d) (recorded_operation r.(or_operation))
    r.(or_idempotency_key) i o (ledger s').
Proof.
  unfold persistNodeReceipt. intros E. apply lbind_ok in E as (x & s1 & R & E).
  assert (ledger s1 = ledger s) as L1 by (destruct (or_lease_expires_at r); ltx R; done). clear R.
  ltx_one E. apply insert_receipt_ok in E as [E U]. rewrite L1 in *. split; [eauto|].
  eexists. rewrite E. unfold stored_receipt. cbn. rewrite array_find_app.
  match goal with |- match array_find ?p ?l with _ => _ end = _ /\ _ =>
    assert (array_find p l = None) as -> end.
  - apply array_find_None. intros y Hy. specialize (U y Hy). cbn in U.
    destruct (_ && _) eqn:K; [|done]. bool_hyps. exfalso. by apply U.
  - cbn. rewrite !bool_decide_true by done. split; [done|]. by constructor.
Qed.

Lemma lease_authority_ok d a now s u s' :
  assertLeaseAuthority d a now s = (Ok u, s') ->
  NodeDeliveries.activeLeaseId d = Some a.(auth_lease_id) /\
  NodeDeliveries.lastFencingToken d = a.(auth_fencing_token) /\
  (exists x, NodeDeliveries.leaseExpiresAt d = Some x /\ now < x) /\ s' = s.
Proof.
  unfold assertLeaseAuthority. intros E. ltx_one E. ltx E. bool_hyps. split_and!; try done.
  destruct (NodeDeliveries.leaseExpiresAt d) as [x|]; [|done]. exists x. split; [done|]. by bool_hyps.
Qed.

Lemma operation_receipt_ok f s r s' :
  operationReceipt f s = (Ok r, s') ->
  exists receiptId, r = receipt_of receiptId f /\ deliveryOperationReceiptSchema r = true /\
    ledger s' = ledger s.
Proof. unfold operationReceipt. intros E. ltx_one E. hush R. ltx E. eauto. Qed.

Lemma operation_result_ok auth op i before after x release now s r s' :
  operation_result auth op i before after x release now s = (Ok r, s') ->
  isoTimestampSchema (toISOString now) = true /\
  deliverySchema (delivery_of_row after) = true /\ resultOf op r = true /\
  op_replayed r = false /\
  (exists receiptId, op_receipt r = receipt_of receiptId {|
    rf_operation := op; rf_idempotencyKey := i.(li_idempotency_key);
    rf_nodeId := auth.(auth_nodeId); rf_delivery := after;
    rf_statusBefore := NodeDeliveries.status before; rf_lease := Some i.(li_authority);
    rf_leaseExpiresAt := x; rf_claimOutcome := None; rf_releaseDetails := release;
    rf_recordedAt := now |}) /\
  ledger s' = ledger s.
Proof.
  unfold operation_result. intros E. apply lbind_ok in E as (rc & s1 & R & E).
  apply operation_receipt_ok in R as (rid & -> & V & L). apply schema_receipt in V.
  apply lbind_ok in E as (sn & s2 & R & E). apply delivery_row_parsed in R as (W & ->). ltx E. eauto 10.
Qed.

Section Lease.
Context (auth : NodeCredentialContext) (context : LockedDeliveryContext) (now : Z).
Let d := cx_delivery context.

(** What an operation on the locked row [d] may do: move it. *)
Definition moves_only {A} (m : LTx A) : Prop := forall s r s',
  NoDup (row_ids (ledger s)) -> d ∈ nodeDeliveries (ledger s) -> clock_time now ->
  m s = (Ok r, s') -> moves_rows (ledger s) (ledger s').

Lemma moved_to g n s s' :
  NoDup (row_ids (ledger s)) -> d ∈ nodeDeliveries (ledger s) -> moment now ->
  row_move now d (g d) ->
  ledger s' = (ledger s) <| nodeDeliveries := put_row (stamp n (g d)) (nodeDeliveries (ledger s)) |> ->
  moves_rows (ledger s) (ledger s').
Proof.
  intros N Hd Mo M L. rewrite L. eapply put_moves; try done. constructor; [done|done|].
  exists []. by rewrite app_nil_r.
Qed.

Lemma start_moves input : moves_only (start_leased auth input context now).
Proof.
  intros s r s' N Hd Ir E. unfold start_leased in E. fold d in E. ltx_one E.
  apply lbind_ok in E as (u & s1 & R & E). apply lease_authority_ok in R as (_ & _ & (x & Ex & Lx) & ->).
  apply lbind_ok in E as (row & s2 & R & E). apply update_by_id in R as (n & -> & C & L); [|done..].
  apply operation_result_ok in E as (Iso & V & _ & _ & _ & L2). bool_hyps.
  eapply (moved_to start_execution n); try done; [by apply clock_moment| |by rewrite L2].
  apply (mv_start now d x); try done.
  - split; [|done]. by match goal with St : NodeDeliveries.status d = _ |- _ => rewrite St end.
  - by apply (schema_unsettled _ V C); cbn.
Qed.

Lemma renew_moves input : moves_only (renew_lease auth input context now).
Proof.
  intros s r s' N Hd Ir E. unfold renew_lease, assertActiveLeaseStatus, boundedLeaseExpiry in E.
  cbv zeta in E. fold d in E. ltx_one E.
  apply lbind_ok in E as (u & s1 & R & E). apply lease_authority_ok in R as (Ea & _ & (x & Ex & Lx) & ->).
  ltx_one E. ltx R. ltx_one E. rewrite Ex in *. bool_hyps.
  apply lbind_ok in E as (row & s2 & R & E). apply update_by_id in R as (n & -> & C & L); [|done..].
  apply operation_result_ok in E as (Iso & V & _ & _ & _ & L2).
  assert (Lv : needsLease (NodeDeliveries.status d) = true) by done.
  eapply (moved_to (extend_lease (Z.min (now + LEASE_DURATION_MS) (Missions.expiresAt (cx_mission context)))) n);
    try done; [by apply clock_moment| |by rewrite L2].
  apply (mv_renew now d x); try done.
  - split; [unfold iso_range, clock_time in *; lia|].
    apply schema_texts in V as (_ & _ & V). by eapply (V _ _ Ea).
  - apply (schema_unsettled _ V C); cbn; intros K; rewrite K in Lv; done.
Qed.

Lemma release_moves input : moves_only (release_leased auth input context now).
Proof.
  intros s r s' N Hd Ir E. unfold release_leased, assertActiveLeaseStatus in E.
  cbv zeta in E. fold d in E. ltx_one E.
  apply lbind_ok in E as (u & s1 & R & E). apply lease_authority_ok in R as (_ & _ & (x & Ex & Lx) & ->).
  apply lbind_ok in E as (row & s2 & R & E).
  apply update_by_id in R as (n & -> & C & L); [|done..|by intros y; unfold release_to; case_match].
  apply operation_result_ok in E as (Iso & V & _ & _ & _ & L2). bool_hyps.
  set (dead := release_dead_letters _ _ _ _) in *. set (retryAt := now + _) in *.
  eapply (moved_to (release_to dead retryAt now) n); try done; [by apply clock_moment| |by rewrite L2].
  apply (mv_release now d x); try done.
  - clearbody dead. destruct dead; by apply (schema_unsettled _ V C).
  - unfold dead, release_dead_letters. intros K. by bool_hyps.
Qed.

(** ** Claiming *)
Definition claim_fields (i : DeliveryClaimInput) (after : Row) (before : DeliveryStatus)
    (lease : option DeliveryLeaseAuthority) (x : option Z) (o : DeliveryClaimOutcome)
    : ReceiptFields := {|
  rf_operation := Op_claim; rf_idempotencyKey := i.(ci_idempotency_key);
  rf_nodeId := auth.(auth_nodeId); rf_delivery := after; rf_statusBefore := before;
  rf_lease := lease; rf_leaseExpiresAt := x; rf_claimOutcome := Some o;
  rf_releaseDetails := None; rf_recordedAt := now |}.

(** The receipt of the claim is stored. *)
Definition stores_claim (i : DeliveryClaimInput) (r : DeliveryClaimResult) : LedgerTables -> Prop :=
  has_receipt auth.(auth_nodeId) (NodeDeliveries.id d) Receipts.claim i.(ci_idempotency_key)
    (claim_input (NodeDeliveries.id d) i) (Receipts.ClaimOutput r).

Lemma claim_stored_moves input s r s' :
  NoDup (row_ids (ledger s)) -> d ∈ nodeDeliveries (ledger s) -> clock_time now ->
  claim_stored auth context input now s = (Ok r, s') ->
  moves_rows (ledger s) (ledger s') /\ stores_claim input r (ledger s').
Proof.
  intros N Hd Ir E. unfold claim_stored, boundedLeaseExpiry in E. cbv zeta in E. fold d in E.
  ltx_one E. ltx_one E. ltx_one E. hush R. rename R into L1, a1 into lease. ltx_one E. ltx R.
  rewrite <-L1 in N, Hd.
  apply lbind_ok in E as (row & s2 & R & E). apply update_by_id in R as (n & -> & C & L2); [|done..].
  apply lbind_ok in E as (ev & s3 & R & E). hush R. rename R into L3.
  apply lbind_ok in E as (rc & s4 & R & E). apply operation_receipt_ok in R as (rid & -> & V & L4).
  apply lbind_ok in E as (item & s5 & R & E).
  assert (deliverySchema (delivery_of_row (stamp n (grant_lease lease (NodeDeliveries.attemptCount d + 1)
    (Z.min (now + LEASE_DURATION_MS) (Missions.expiresAt (cx_mission context))) d))) = true /\
    ledger s5 = ledger s4) as [W L5].
  { revert R. unfold missionDeliveryItemFromRows. destruct (MissionEventRows.actorKind ev), (MissionEventRows.actorAgentId ev); intros R; try (ltx R; done).
    apply lbind_ok in R as (x & s6 & R' & R). apply delivery_row_parsed in R' as (W & ->). by ltx R. }
  clear R. ltx_one E. apply lbind_ok in E as (u & s6 & R & E).
  apply persist_ok in R as ((row & L6) & R7). ltx_one E. hush R. ltx_atom E.
  bool_hyps. set (x := Z.min _ _) in *. apply schema_receipt in V. cbn in V.
  match type of R with ledger ?s' = _ =>
    assert (Lr : ledger s' = (ledger s0) <| nodeDeliveries := put_row (stamp n (grant_lease lease
      (NodeDeliveries.attemptCount d + 1) x d)) (nodeDeliveries (ledger s0)) |>
      <| receipts := receipts (ledger s0) ++ [row] |>) by (rewrite R, L6, L5, L4, L3, L2; done)
  end.
  split.
  - rewrite Lr, <-L1. eapply (put_moves now d); try done; [| |by constructor; [done|done|exists [row]]].
    + apply mv_claim; try done; [|].
      * destruct (schema_texts _ W) as (_ & _ & K). split; [unfold iso_range, clock_time in *; lia|].
        by eapply (K lease x).
      * destruct (schema_texts _ W) as (_ & _ & K). by eapply (K lease x).
    + by apply clock_moment.
  - by rewrite R.
Qed.

Lemma expire_moves s u s' :
  NoDup (row_ids (ledger s)) -> d ∈ nodeDeliveries (ledger s) -> clock_time now ->
  (forall x, NodeDeliveries.leaseExpiresAt d = Some x -> x <= now) ->
  NodeDeliveries.attemptCount d < NodeDeliveries.maxAttempts d ->
  expireLeaseForRetry auth d now s = (Ok u, s') ->
  exists n, moves_rows (ledger s) (ledger s') /\
    nodeDeliveries (ledger s') = put_row (stamp n (expire_lease now d)) (nodeDeliveries (ledger s)).
Proof.
  intros N Hd Ir Ex At E. unfold expireLeaseForRetry in E. cbv zeta in E.
  destruct (NodeDeliveries.activeLeaseId d) as [lease|]; [|by ltx E].
  destruct (NodeDeliveries.leaseExpiresAt d) as [x|] eqn:Dx; [|by ltx E]. ltx_one E.
  apply lbind_ok in E as (row & s1 & R & E). apply update_by_id in R as (n & -> & C & L1); [|done..].
  apply lbind_ok in E as (sn & s2 & R & E). apply delivery_row_parsed in R as (V & ->).
  ltx_one E. hush R. ltx_one E. apply insert_receipt_ok in R0 as [R0 _]. hush E. bool_hyps. exists n.
  split; [|by rewrite E, R0, R, L1].
  eapply (put_moves now d); try done; [| |by rewrite E, R0, R, L1|].
  - apply (mv_expire now d x); try done; [by apply Ex|]. by apply (schema_unsettled _ V C).
  - apply clock_moment; [done|]. by apply schema_texts in V as (V & _).
  - rewrite E, R0, R, L1. constructor; [done|done|]. by eexists [_].
Qed.

Lemma reconcile_steps missionId s r s' :
  NoDup (row_ids (ledger s)) -> reconcileMissionInTransaction missionId s = (Ok r, s') ->
  rtc ledger_step (ledger s) (ledger s').
Proof.
  intros N E. apply reconcile_ok in E as [_ [(_ & -> & _)|(_ & m & row & next & cause & _ & T)]]; [done..| |done].
  apply rtc_once. by eapply step_terminal.
Qed.

Lemma exhaust_steps input s r s' :
  NoDup (row_ids (ledger s)) -> d ∈ nodeDeliveries (ledger s) -> clock_time now ->
  (forall x, NodeDeliveries.leaseExpiresAt d = Some x -> x <= now) ->
  NodeDeliveries.leaseExpiresAt d <> None ->
  NodeDeliveries.maxAttempts d <= NodeDeliveries.attemptCount d ->
  deadLetterExpiredFinalClaim auth d input now s = (Ok r, s') ->
  exists t1, moves_rows (ledger s) t1 /\ stores_claim input r t1 /\
    rtc ledger_step t1 (ledger s').
Proof.
  intros N Hd Ir Ex Nx At E. unfold deadLetterExpiredFinalClaim in E. cbv zeta in E. ltx_one E.
  destruct (NodeDeliveries.leaseExpiresAt d) as [x|] eqn:Dx; [|done].
  apply lbind_ok in E as (row & s1 & R & E). apply update_by_id in R as (n & -> & C & L1); [|done..].
  apply lbind_ok in E as (rc & s2 & R & E). apply operation_receipt_ok in R as (rid & -> & W & L2).
  apply lbind_ok in E as (sn & s3 & R & E). apply delivery_row_parsed in R as (V & ->). ltx_one E.
  apply lbind_ok in E as (u & s4 & R & E).
  apply persist_ok in R as ((row & L6) & R7). ltx_one E. hush R. cbn in R7.
  apply lbind_ok in E as (rr & s5 & Rr & E). ltx_atom E. bool_hyps.
  exists (ledger s4). rewrite L2, L1 in L6. apply schema_receipt in W. cbn in W.
  assert (M : moves_rows (ledger s) (ledger s4)).
  { rewrite L6. eapply (put_moves now d); try done; [| |by constructor; [done|done|exists [row]]].
    - apply (mv_exhaust now d x); try done; [by apply Ex|]. by apply (schema_unsettled _ V C).
    - by apply clock_moment. }
  split; [done|]. split.
  - exact R7.
  - rewrite <-R. apply reconcile_steps in Rr; [done|]. rewrite R, L6. unfold row_ids. cbn.
    by rewrite put_row_ids.
Qed.

End Lease.

Lemma delivery_found node id t d :
  delivery_on node id t = Some d -> d ∈ nodeDeliveries t /\ NodeDeliveries.id d = id /\ NodeDeliveries.nodeId d = node.
Proof. unfold delivery_on. intros [Hd E]%array_find_Some. by bool_hyps. Qed.

Lemma lock_delivery_ok node id s d s' :
  lockDelivery node id s = (Ok d, s') -> delivery_on node id (ledger s) = Some d /\ ledger s' = ledger s.
Proof.
  unfold lockDelivery. intros E. ltx_one E. hush R. ltx_one E.
  rewrite R in E. destruct (delivery_on _ _ _) as [x|] eqn:F; by ltx E.
Qed.

Lemma rtc_receipts t t' : rtc ledger_step t t' -> adds_receipts t t'.
Proof. apply steps_receipts. Qed.

Lemma claim_new_steps auth context input now s r s' :
  let d := cx_delivery context in
  NoDup (row_ids (ledger s)) -> delivery_on auth.(auth_nodeId) (NodeDeliveries.id d) (ledger s) = Some d ->
  clock_time now -> claim_new auth context input now s = (Ok r, s') ->
  rtc ledger_step (ledger s) (ledger s') /\ stores_claim auth context input r (ledger s').
Proof.
  intros d N Fd Ir E. unfold claim_new in E. cbv zeta in E. fold d in E.
  destruct (delivery_found _ _ _ _ Fd) as (Hd & _).
  destruct (needsLease _) eqn:Nl.
  - destruct (NodeDeliveries.leaseExpiresAt d) as [x|] eqn:Dx; [|by ltx E]. ltx_one E. bool_hyps.
    assert (Ex : forall y, NodeDeliveries.leaseExpiresAt d = Some y -> y <= now) by (intros y; rewrite Dx; by intros [= <-]).
    destruct (_ <=? _) eqn:At in E; bool_hyps.
    + apply exhaust_steps in E as (t1 & M & S & T); try done; [|fold d; by rewrite Dx].
      split; [eapply rtc_l; [by apply step_rows|done]|].
      eapply has_receipt_mono; [|exact S]. by apply steps_receipts.
    + apply lbind_ok in E as (u & s1 & R & E).
      apply (expire_moves _ context) in R as (n & M & Er); try done.
      apply lbind_ok in E as (d' & s2 & R & E). apply lock_delivery_ok in R as (Fd' & L2).
      destruct (delivery_found _ _ _ _ Fd') as (Hd' & Id' & _).
      assert (N1 : NoDup (row_ids (ledger s1))) by (unfold row_ids; by rewrite Er, put_row_ids).
      apply claim_stored_moves in E as (M' & S); rewrite ?L2; try done.
      rewrite L2 in M'. split.
      * eapply rtc_l; [by apply step_rows|]. apply rtc_once. by apply step_rows.
      * unfold stores_claim in *. cbn in S. fold d. by rewrite <-Id'.
  - apply claim_stored_moves in E as (M & S); [|done..]. split; [|done]. apply rtc_once. by apply step_rows.
Qed.
End Moves.
