(* ===== verification/LedgerCompletion.v ===== *)
(** * Completion is a sequence of steps

    The events a completion appends, the acknowledgement of the delivery they
    settle, and the cancellation of the siblings they supersede. *)

From stdpp Require Import sorting.
From S2P Require Import Prelude JsLib Schemas IsoDates RelayStore.
From S2P Require Import MissionEvents MissionCoordinator MissionReach DeliveryOperations.
From S2P Require Import LedgerStore MissionLedger MissionReconciliation.
From S2P Require Import DeliveryLedger DeliveryCompletion LedgerRules LedgerSteps.
From S2P Require Import LedgerAppend LedgerTerminal LedgerMoves.
Local Open Scope Z_scope.

Section Completion.
Context `{Zod, RelayEnv, LedgerEnv, !LedgerLaws}.
Implicit Types s : Ledger.

Lemma found_id id t m : find_mission id t = Some m -> Missions.id m = id.
Proof. unfold find_mission. intros [_ E]%array_find_Some. by bool_hyps. Qed.

Lemma append_all_steps auth a now inputs m s l s' :
  find_mission (Missions.id m) (ledger s) = Some m -> iso_range now ->
  append_all auth a now inputs m s = (Ok l, s') -> rtc ledger_step (ledger s) (ledger s').
Proof.
  revert m s l. induction inputs as [|i inputs IH]; intros m s l Fm Ir E; cbn in E; [by ltx E|].
  apply lbind_ok in E as (r & s1 & R & E). apply append_ok in R as R'; [|done|by intros t [= <-]|].
  2: { split; [by intros ? [= <-]|done]. }
  ltx_one E. destruct (find_mission _ _) as [m'|] eqn:F in E; [|by ltx E].
  apply lbind_ok in E as (l' & s2 & A & E). ltx_atom E.
  apply IH in A; [|by rewrite (found_id _ _ _ F)|done].
  destruct R' as [<-|(row & next & Ap)]; [done|]. eapply rtc_l; [by eapply step_append|done].
Qed.

Lemma cancel_superseded_ok auth e now x s u s' :
  NoDup (row_ids (ledger s)) -> x ∈ nodeDeliveries (ledger s) ->
  cancel_superseded auth e now x s = (Ok u, s') ->
  exists x', (NodeDeliveries.settledByEventId x = Some e /\
              isoTimestampSchema (toISOString now) = true /\
              exists n, x' = stamp n (cancel_delivery C_work_superseded now x)) /\
    NodeDeliveries.id x' = NodeDeliveries.id x /\ edits x' s s'.
Proof.
  intros N Hx. unfold cancel_superseded. intros E. ltx_one E.
  apply (update_one_ok _ _ _ _ (NodeDeliveries.id x)) in R as (d & n & Hd & Pd & -> & _ & L);
    [|done|intros d; by intros ?; bool_hyps|done].
  bool_hyps. assert (d = x) as -> by (by apply (NoDup_map_eq NodeDeliveries.id (nodeDeliveries (ledger s)))).
  apply lbind_ok in E as (sn & s2 & R & E). apply delivery_row_parsed in R as (V & ->).
  ltx_one E. hush R. ltx_one E. apply insert_receipt_ok in R0 as [R0 _]. hush E.
  eexists. split; [split; [done|]; split; [|by eexists]|split; [done|]].
  - apply schema_texts in V as (_ & V & _). by apply V.
  - unfold edits. led. split; [|done]. constructor; [done|done|]. by eexists [_].
Qed.

Lemma cancel_siblings_moves auth source e now s u s' :
  NoDup (row_ids (ledger s)) -> moment now ->
  cancelSupersededSiblings auth source e now s = (Ok u, s') -> moves_rows (ledger s) (ledger s').
Proof.
  intros N Mo. unfold cancelSupersededSiblings. intros E. ltx_one E. ltx_one E. hush R.
  apply lbind_ok in E as (us & s2 & Rl & E). ltx_atom E. rewrite <-R in *.
  apply (edit_loop _ (fun x x' => NodeDeliveries.settledByEventId x = Some e /\
           isoTimestampSchema (toISOString now) = true /\
           exists n, x' = stamp n (cancel_delivery C_work_superseded now x))) in Rl as [W F]; [|..].
  - split; [done|]. exists now. split; [done|]. eapply Forall2_impl; [exact F|].
    intros d d' [[Hd (Es & _ & n & ->)]|[_ ->]]; [|by left]. right. eexists n, _. split; [|done].
    apply mv_supersede with e; [|done]. unfold sort_by in Hd.
    rewrite merge_sort_Permutation in Hd. apply elem_of_array_filter in Hd as [_ Hd].
    unfold superseded in Hd. by bool_hyps.
  - intros x s3 u' s4 N' Hx C. by apply cancel_superseded_ok in C.
  - done.
  - unfold sort_by. rewrite merge_sort_Permutation. apply NoDup_array_filter. by apply ids_rows.
  - intros x. unfold sort_by. rewrite merge_sort_Permutation. by intros [Hx _]%elem_of_array_filter.
Qed.

Lemma complete_steps auth deliveryId input context now s r s' :
  keys_ok (ledger s) -> clock_time now ->
  find_mission (Missions.id (cx_mission context)) (ledger s) = Some (cx_mission context) ->
  NodeDeliveries.id (cx_delivery context) = deliveryId ->
  complete_executing auth deliveryId input context now s = (Ok r, s') ->
  rtc ledger_step (ledger s) (ledger s') /\ cr_replayed r = false /\
  has_receipt auth.(auth_nodeId) deliveryId Receipts.complete input.(cmi_lease).(li_idempotency_key)
    (complete_input deliveryId input) (Receipts.CompleteOutput r) (ledger s').
Proof.
  intros K Ir Fm Ei. unfold complete_executing. cbv zeta. intros E. ltx_one E.
  apply lbind_ok in E as (u & s1 & R & E). apply lease_authority_ok in R as (_ & _ & (x & Ex & Lx) & ->).
  apply lbind_ok in E as (inputs & s2 & R & E). hush R. rename R into L1.
  apply lbind_ok in E as (appended & s3 & Ra & E). apply append_all_steps in Ra; [|by rewrite L1|by apply clock_time_iso].
  rewrite L1 in Ra. destruct (at_last appended) as [final|]; [|by ltx E].
  pose proof (steps_keys _ _ Ra K) as K3.
  apply lbind_ok in E as (row & s4 & R & E).
  apply (update_one_ok _ _ _ _ deliveryId) in R as (d & n & Hd & Pd & -> & C & L4);
    [|apply K3|unfold completed_row; by intros y ?; bool_hyps|done].
  unfold completed_row in Pd. bool_hyps.
  destruct (NodeDeliveries.leaseExpiresAt d) as [y|] eqn:Dy; [|done]. bool_hyps.
  apply lbind_ok in E as (u5 & s5 & Rs & E).
  apply lbind_ok in E as (rc & s6 & R & E). apply operation_receipt_ok in R as (rid & -> & W & L6).
  apply lbind_ok in E as (sn & s7 & R & E). apply delivery_row_parsed in R as (_ & ->). ltx_one E.
  apply lbind_ok in E as (u7 & s8 & R & E).
  apply persist_ok in R as ((row & L8) & R7). ltx_one E. hush R. ltx_atom E.
  apply schema_receipt in W. cbn in W. assert (Mo : moment now) by by apply clock_moment.
  assert (M4 : moves_rows (ledger s3) (ledger s4)).
  { rewrite L4. eapply (put_moves now d); try done; [apply K3| |].
    - apply (mv_acknowledge now d y (event_id (ap_event final))); try done.
      split; [|done]. by match goal with St : NodeDeliveries.status d = _ |- _ => rewrite St end.
    - constructor; [done|done|]. exists []. by rewrite app_nil_r. }
  assert (N4 : NoDup (row_ids (ledger s4))).
  { rewrite L4. unfold row_ids. cbn. rewrite put_row_ids. apply K3. }
  apply cancel_siblings_moves in Rs; [|done..].
  split_and!.
  - etrans; [exact Ra|]. eapply rtc_l; [by apply step_rows|]. eapply rtc_l; [by apply step_rows|].
    apply rtc_once, step_rows. rewrite R, L8, L6. eapply (receipts_move now); [done| |done].
    constructor; [done|done|by exists [row]].
  - done.
  - rewrite R. cbn in R7. revert R7.
    match goal with Ed : NodeDeliveries.id d = _ |- _ => rewrite Ed end. done.
Qed.
End Completion.

(** ** Transactions of the ledger

    What a transaction that returned or failed leaves, the frame every delivery
    operation runs in, and the lease operations within it. *)
(** The operation runs on a row and a Mission that are in the tables. *)
Record locked_in (auth : NodeCredentialContext) (deliveryId : string)
    (locked : LockedDeliveryResult) (t : LedgerTables) : Prop := {
  li_row : delivery_on auth.(auth_nodeId) deliveryId t = Some (cx_delivery (lk_context locked));
  li_mission : find_mission (Missions.id (cx_mission (lk_context locked))) t =
               Some (cx_mission (lk_context locked));
  li_now : clock_time (lk_now locked)
}.

(** Nothing but the end of a Mission that was due. *)
Definition reconciled_only `{Zod} (t t' : LedgerTables) : Prop :=
  t' = t \/ exists m row next cause now, terminates m row next cause now t t'.

Lemma reconciled_steps `{Zod} t t' : reconciled_only t t' -> rtc ledger_step t t'.
Proof.
  intros [->|(m & row & next & cause & now & T)]; [done|]. apply rtc_once. by eapply step_terminal.
Qed.

Section Frame.
Context `{Zod, RelayEnv, LedgerEnv, !LedgerLaws}.
Implicit Types s : Ledger.

Lemma ledger_transaction_ok {A} (body : LTx A) s a s' :
  ledger_transaction body s = (Ok a, s') ->
  exists s1 s2, ledger s1 = ledger s /\ body s1 = (Ok a, s2) /\ ledger s' = ledger s2.
Proof.
  unfold ledger_transaction. destruct (body (begin_tx s)) as [[b|e] s2] eqn:E; [|done].
  intros [= <- <-]. by exists (begin_tx s), s2.
Qed.
Lemma transaction_err {A} (body : LTx A) s e s' :
  ledger_transaction body s = (Err e, s') -> ledger s' = ledger s.
Proof.
  unfold ledger_transaction. destruct (body (begin_tx s)) as [[b|e'] s2] eqn:E; [done|].
  by intros [= <- <-].
Qed.

(** A transaction that advances when it returns advances in any case. *)
Lemma transaction_steps {A} (body : LTx A) s r s' :
  (forall s1 a s2, keys_ok (ledger s1) -> body s1 = (Ok a, s2) ->
     rtc ledger_step (ledger s1) (ledger s2)) ->
  keys_ok (ledger s) -> ledger_transaction body s = (r, s') ->
  rtc ledger_step (ledger s) (ledger s').
Proof.
  intros B K E. destruct r as [a|e].
  - apply ledger_transaction_ok in E as (s1 & s2 & L1 & E & ->). rewrite <-L1 in *. by eapply B.
  - by rewrite (transaction_err _ _ _ _ E).
Qed.

Lemma lock_context_ok auth deliveryId s locked s' :
  NoDup (row_ids (ledger s)) ->
  reconcileAndLockDeliveryContext auth deliveryId s = (Ok locked, s') ->
  reconciled_only (ledger s) (ledger s') /\ locked_in auth deliveryId locked (ledger s') /\
  (lk_reconciledStatus locked = None -> ledger s' = ledger s).
Proof.
  intros N. unfold reconcileAndLockDeliveryContext. intros E. ltx_one E. hush R. rename R into L1, a into mid.
  rewrite <-L1 in *. apply lbind_ok in E as (rec & s2 & Rr & E).
  apply reconcile_ok in Rr as [Cl Rr]; [|done].
  assert (St : reconciled_only (ledger s0) (ledger s2)).
  { destruct Rr as [(_ & -> & _)|(_ & m & row & next & cause & _ & T)]; [by left|]. right. by eexists _, _, _, _, _. }
  apply lbind_ok in E as (m & s3 & R & E). unfold loadMission in R. ltx_one R.
  destruct (find_mission mid _) as [m'|] eqn:Fm; [|by ltx R]. ltx_atom R.
  apply lbind_ok in E as (c & s4 & R & E). ltx_atom E.
  unfold lockDeliveryContext in R. apply lbind_ok in R as (d & s5 & Rd & R).
  apply lock_delivery_ok in Rd as (Fd & L5). ltx_one R.
  destruct (assignment_row _ _ _) as [[pa wo]|]; [|by ltx R]. ltx_atom R.
  rewrite L5. split; [done|]. split; [constructor|]; cbn.
  - done.
  - by rewrite (found_id _ _ _ Fm).
  - done.
  - intros Nr. destruct Rr as [(Er & -> & _)|(Er & _)]; [done|]. by rewrite Er in Nr.
Qed.

Lemma run_locked_ok {A} auth deliveryId (operation : LockedDeliveryResult -> LTx A) s a s' :
  NoDup (row_ids (ledger s)) ->
  runLockedDeliveryOperation auth deliveryId operation s = (Ok a, s') ->
  exists locked s1 s2, reconciled_only (ledger s) (ledger s1) /\
    locked_in auth deliveryId locked (ledger s1) /\
    (lk_reconciledStatus locked = None -> ledger s1 = ledger s) /\
    operation locked s1 = (Ok a, s2) /\ ledger s' = ledger s2.
Proof.
  intros N. unfold runLockedDeliveryOperation, runDeliveryTransaction. intros E.
  apply lbind_ok in E as (o & s1 & T & E). apply ledger_transaction_ok in T as (s0 & s2 & L0 & T & L1).
  ltx_one T. hush R. rename R into L2. ltx_one T. hush R. rename R into L3. rewrite L2, L0 in L3.
  apply lbind_ok in T as (locked & s5 & Rl & T). rewrite <-L3 in N.
  apply lock_context_ok in Rl as (St & Li & Un); [|done]. rewrite L3 in St, Un.
  destruct o as [b|e]; [|by ltx E]. ltx_atom E.
  unfold preserveReconciliation in T. destruct (operation locked s5) as [[b'|e] s6] eqn:O.
  - injection T as -> ->. exists locked, s5, s2. done.
  - destruct e as [[]| | | |]; try done; by case_match.
Qed.

Lemma run_locked_err {A} auth deliveryId (operation : LockedDeliveryResult -> LTx A) s e s' :
  NoDup (row_ids (ledger s)) ->
  runLockedDeliveryOperation auth deliveryId operation s = (Err e, s') ->
  ledger s' = ledger s \/
  exists locked s1 s2 e', reconciled_only (ledger s) (ledger s1) /\
    lk_reconciledStatus locked <> None /\ operation locked s1 = (Err e', s2) /\
    ledger s' = ledger s2.
Proof.
  intros N. unfold runLockedDeliveryOperation, runDeliveryTransaction, mbind at 1, LTx_bind.
  destruct (ledger_transaction _ s) as [[o|e'] s1] eqn:T.
  - apply ledger_transaction_ok in T as (s0 & s2 & L0 & T & L1). intros E.
    destruct o as [b|e2]; [by ltx E|]. injection E as -> ->.
    ltx_one T. hush R. rename R into L2. ltx_one T. hush R. rename R into L3. rewrite L2, L0 in L3.
    apply lbind_ok in T as (locked & s5 & Rl & T). rewrite <-L3 in N.
    apply lock_context_ok in Rl as (St & Li & Un); [|done]. rewrite L3 in St.
    unfold preserveReconciliation in T. destruct (operation locked s5) as [[b'|e3] s6] eqn:O; [done|].
    right. exists locked, s5, s6, e3. split; [done|].
    destruct (lk_reconciledStatus locked) eqn:Ls.
    + split; [done|]. split; [done|]. destruct e3 as [[]| | | |]; cbn in T; try done; by injection T as <- <-.
    + destruct e3 as [[]| | | |]; cbn in T; done.
  - intros [= <- <-]. left. by apply transaction_err in T.
Qed.

(** A delivery operation advances the ledger, whatever it returns. *)
Lemma run_locked_steps {A} auth deliveryId (operation : LockedDeliveryResult -> LTx A) s r s' :
  (forall locked s1 a s2, keys_ok (ledger s1) -> locked_in auth deliveryId locked (ledger s1) ->
     operation locked s1 = (Ok a, s2) -> rtc ledger_step (ledger s1) (ledger s2)) ->
  (forall locked, lk_reconciledStatus locked <> None -> quiet (operation locked)) ->
  keys_ok (ledger s) -> runLockedDeliveryOperation auth deliveryId operation s = (r, s') ->
  rtc ledger_step (ledger s) (ledger s').
Proof.
  intros B Q K E. pose proof (key_rows _ K) as N. destruct r as [a|e].
  - apply run_locked_ok in E as (locked & s1 & s2 & St & Li & _ & O & ->); [|done].
    apply reconciled_steps in St. etrans; [exact St|]. eapply B; [by eapply steps_keys|done..].
  - apply run_locked_err in E as [->|(locked & s1 & s2 & e' & St & Nr & O & ->)]; [done| |done].
    rewrite (Q _ Nr _ _ _ O). by apply reconciled_steps.
Qed.

(** Once the Mission is reconciled, nothing but the error is left. *)
Lemma quiet_reconciled {A} locked (k : unit -> LTx A) :
  lk_reconciledStatus locked <> None -> quiet (assert_not_reconciled locked ≫= k).
Proof.
  intros Nr. unfold assert_not_reconciled. destruct (lk_reconciledStatus locked); [|done].
  intros s r s'. by intros [= <- <-].
Qed.

Lemma not_reconciled_ok locked s u s' :
  assert_not_reconciled locked s = (Ok u, s') -> lk_reconciledStatus locked = None /\ s' = s.
Proof.
  unfold assert_not_reconciled. destruct (lk_reconciledStatus locked); [done|]. intros E. by ltx E.
Qed.
End Frame.
