(* ===== verification/LedgerAuthority.v ===== *)
(** * Revocations and authorities are steps

    The cancellation a revocation makes is one [revokes] step that leaves a
    receipt for every delivery it cancelled; what node enrollment and the admin's
    handlers do to Nodes, credentials, bindings and keys are [authorities] steps. *)

From stdpp Require Import sorting.
From S2P Require Import Prelude JsLib Schemas IsoDates RelayStore.
From S2P Require Import MissionEvents MissionCoordinator MissionReach DeliveryOperations.
From S2P Require Import Keys LedgerStore MissionLedger MissionReconciliation.
From S2P Require Import DeliveryLedger DeliveryCompletion DeliveryRevocation NodeStore.
From S2P Require Import NodeEnrollment AgentAccounts LedgerRules LedgerSteps.
From S2P Require Import LedgerAppend LedgerTerminal LedgerMoves LedgerCompletion.
Local Open Scope Z_scope.

(** The receipt of the cancellation of [d]. *)
Record cancelled_receipt (reason : DeliveryCancellationReason) (d : Row) (r : Receipts.Receipt)
    : Prop := {
  cd_origin : Receipts.origin r = Receipts.relay; cd_operation : Receipts.operation r = Receipts.cancel;
  cd_delivery : Receipts.deliveryId r = NodeDeliveries.id d;
  cd_node : Receipts.nodeId r = NodeDeliveries.nodeId d;
  cd_before : Receipts.statusBefore r = NodeDeliveries.status d;
  cd_after : Receipts.statusAfter r = D_cancelled;
  cd_reason : Receipts.cancellationReason r = Some reason;
  cd_lease : Receipts.leaseId r = NodeDeliveries.activeLeaseId d;
  cd_deadline : (forall x, NodeDeliveries.leaseExpiresAt d = Some x -> iso_range x) ->
    Receipts.leaseExpiresAt r = NodeDeliveries.leaseExpiresAt d
}.

Section QuietAuthority.
Context `{Zod, RelayEnv, LedgerEnv}.

Lemma quiet_lock_key k : quiet (lock_key k).
Proof. apply quiet_lift. Qed.
Lemma quiet_lifecycle a : quiet (lockAgentLifecycle a).
Proof. apply quiet_lift. Qed.
Lemma quiet_prior d : quiet (priorLeaseEvidence d).
Proof. unfold priorLeaseEvidence. quiet. Qed.
Lemma quiet_prior_deadline p : quiet (prior_deadline p).
Proof. unfold prior_deadline. quiet. Qed.
Lemma quiet_node_descriptor n : quiet (toNodeDescriptor n).
Proof. unfold toNodeDescriptor. quiet. Qed.
Lemma quiet_workspace_descriptor a w : quiet (toWorkspaceDescriptor a w).
Proof. unfold toWorkspaceDescriptor. quiet. Qed.
Lemma quiet_lock_workspace n a : quiet (lock_workspace n a).
Proof. apply quiet_lift. Qed.
Lemma quiet_state_changed {A} : quiet (@credentialStateChanged _ A).
Proof. apply quiet_relay_fail. Qed.
End QuietAuthority.
#[export] Hint Resolve quiet_lock_key quiet_lifecycle quiet_prior quiet_prior_deadline
  quiet_node_descriptor quiet_workspace_descriptor quiet_lock_workspace quiet_state_changed : relay.

Section Revocation.
Context `{Zod, RelayEnv, LedgerEnv, !LedgerLaws}.
Implicit Types s : Ledger.

Lemma iso_text_short t : slen (toISOString t) = 24.
Proof.
  unfold toISOString. destruct (civil_from_days _) as [[y mo] d].
  unfold four_digits, three_digits, two_digits, digit. by rewrite !slen_app.
Qed.
Lemma iso_moment t : iso_range t -> moment t.
Proof.
  intros R. split; [done|]. unfold isoTimestampSchema. by rewrite iso_text_short, (iso_datetime _ R).
Qed.

Lemma prior_ok d s p s' : priorLeaseEvidence d s = (Ok p, s') ->
  s' = s /\ lease_lease_id <$> p = NodeDeliveries.activeLeaseId d /\
  lease_expires_at <$> p = toISOString <$> NodeDeliveries.leaseExpiresAt d.
Proof.
  unfold priorLeaseEvidence. intros E.
  destruct (NodeDeliveries.activeLeaseId d), (NodeDeliveries.leaseExpiresAt d); by ltx E.
Qed.

Lemma prior_deadline_ok p x s t s' :
  prior_deadline p s = (Ok t, s') -> lease_expires_at <$> p = toISOString <$> x ->
  (forall y, x = Some y -> iso_range y) -> t = x.
Proof.
  unfold prior_deadline. intros E Ep R. destruct p as [l|], x as [y|]; try done.
  - ltx E. injection Ep as Ep. rewrite Ep, Date_parse_toISOString in * by auto. congruence.
  - by ltx E.
Qed.

Lemma cancel_for_revocation_ok input now x s u s' :
  NoDup (row_ids (ledger s)) -> x ∈ nodeDeliveries (ledger s) ->
  cancel_for_revocation input now x s = (Ok u, s') ->
  u = NodeDeliveries.id x /\
  (exists r, r ∈ receipts (ledger s') /\ cancelled_receipt (scope_reason (cm_scope input)) x r) /\
  exists x', (exists n, x' = stamp n (cancel_delivery (scope_reason (cm_scope input)) now x)) /\
    NodeDeliveries.id x' = NodeDeliveries.id x /\ edits x' s s'.
Proof.
  intros N Hx. unfold cancel_for_revocation. cbv zeta. intros E. ltx_one E.
  apply (update_one_ok _ _ _ _ (NodeDeliveries.id x)) in R as (d & n & Hd & Pd & -> & _ & L);
    [|done|intros d; by intros ?; bool_hyps|done].
  bool_hyps. assert (d = x) as -> by (by apply (NoDup_map_eq NodeDeliveries.id (nodeDeliveries (ledger s)))).
  apply lbind_ok in E as (p & sa & Rp & E). apply prior_ok in Rp as (-> & El & Ex).
  apply lbind_ok in E as (t & sb & Rt & E). pose proof (quiet_ok _ _ _ _ (quiet_prior_deadline _) Rt) as L1.
  ltx_one E. hush R. ltx_one E. apply insert_receipt_ok in R0 as [R0 _]. ltx_one E. hush R1. ltx_atom E.
  split; [done|]. split.
  - eexists. split; [rewrite R1, R0; apply elem_of_app; right; left|]. constructor; try done.
    intros Ri. by apply (prior_deadline_ok _ _ _ _ _ Rt).
  - eexists. split; [by eexists|]. split; [done|]. unfold edits. led.
    split; [|done]. constructor; [done|done|]. by eexists [_].
Qed.

(** The loop leaves the receipts of all the rows it cancelled. *)
Lemma revocation_receipts input now l s us s' :
  NoDup (row_ids (ledger s)) -> (forall x, x ∈ l -> x ∈ nodeDeliveries (ledger s)) -> NoDup l ->
  for_each (cancel_for_revocation input now) l s = (Ok us, s') ->
  us = map NodeDeliveries.id l /\ adds_receipts (ledger s) (ledger s') /\
  forall x, x ∈ l -> exists r, r ∈ receipts (ledger s') /\
    cancelled_receipt (scope_reason (cm_scope input)) x r.
Proof.
  revert s us. induction l as [|x l IH]; intros s us N Hl Nl E; cbn in E.
  - ltx E. split_and!; [done|done|]. by intros x ?%not_elem_of_nil.
  - apply lbind_ok in E as (u & s1 & C & E). apply lbind_ok in E as (us' & s2 & F & E). ltx_atom E.
    apply NoDup_cons in Nl as [Nx Nl]. pose proof (Hl x (list_elem_of_here _ _)) as Hx.
    apply cancel_for_revocation_ok in C as (-> & (r & Hr & Cr) & x' & _ & Ix & W & Er); [|done..].
    apply IH in F as (-> & A & F); [| | |done].
    + split_and!; [done|etrans; [apply W|done]|]. intros y [->|Hy]%elem_of_cons; [|by apply F].
      exists r. split; [|done]. destruct A as [k Ek]. rewrite Ek. apply elem_of_app. by left.
    + unfold row_ids. by rewrite Er, put_row_ids.
    + intros y Hy. rewrite Er. apply list_elem_of_fmap. exists y. split; [|by apply Hl; right].
      rewrite Ix, bool_decide_false; [done|]. intros Ey. destruct Nx.
      enough (y = x) as -> by done. apply (NoDup_map_eq NodeDeliveries.id _ _ _ N); [by apply Hl; right|done|done].
Qed.

(** What a revocation does to the deliveries. *)
Record revocation_done (ids : list string) (reason : DeliveryCancellationReason)
    (cancelled : list string) (t t' : LedgerTables) : Prop := {
  rd_step : revokes ids reason t t';
  rd_cancelled : forall i, i ∈ cancelled <->
    exists d, d ∈ nodeDeliveries t /\ open_in ids d = true /\ NodeDeliveries.id d = i;
  rd_receipts : forall d, d ∈ nodeDeliveries t -> open_in ids d = true ->
    exists r, r ∈ receipts t' /\ cancelled_receipt reason d r
}.

Lemma revocation_reason_scope scope : revocation_reason (scope_reason scope) = true.
Proof. by destruct scope. Qed.

Lemma nothing_revoked ids reason t :
  revocation_reason reason = true -> (forall d, d ∈ nodeDeliveries t -> open_in ids d = false) ->
  revocation_done ids reason [] t t.
Proof.
  intros Rr No. split.
  - split; [done| |done]. exists (clock_timestamp 0). split; [apply iso_moment, clock_iso|].
    apply Forall2_same_length_lookup_2; [done|]. intros i d d' Hd Hd'. assert (d' = d) as -> by congruence.
    unfold revoked_row. by rewrite (No d (list_elem_of_lookup_2 _ _ _ Hd)).
  - intros i. split; [by intros ?%not_elem_of_nil|]. intros (d & Hd & O & _). by rewrite No in O.
  - intros d Hd O. by rewrite No in O.
Qed.

Lemma cancel_missions_ok input s l s' :
  keys_ok (ledger s) -> cancelMissionDeliveries input s = (Ok l, s') ->
  revocation_done (sort_strings (distinct (cm_missionIds input))) (scope_reason (cm_scope input)) l
    (ledger s) (ledger s').
Proof.
  intros K. unfold cancelMissionDeliveries. cbv zeta. set (ids := sort_strings _). intros E.
  destruct (len ids =? 0) eqn:Li.
  { ltx E. apply nothing_revoked; [apply revocation_reason_scope|]. intros d _.
    apply Z.eqb_eq, len_zero in Li. by rewrite Li. }
  ltx_one E. hush R. ltx_one E. ltx_one E. hush R0. rewrite R in R0.
  set (rows := sort_by by_mission_and_id (array_filter (open_in ids) (nodeDeliveries (ledger s)))) in *.
  rewrite R in E. fold rows in E.
  assert (Hr : forall d, d ∈ rows <-> d ∈ nodeDeliveries (ledger s) /\ open_in ids d = true).
  { intros d. unfold rows, sort_by. by rewrite merge_sort_Permutation, elem_of_array_filter. }
  destruct (len rows =? 0) eqn:Lr.
  { ltx E. rewrite R0. apply nothing_revoked; [apply revocation_reason_scope|]. intros d Hd.
    destruct (open_in ids d) eqn:O; [|done]. assert (d ∈ rows) as X by (by apply Hr).
    apply Z.eqb_eq, len_zero in Lr. rewrite Lr in X. by apply not_elem_of_nil in X. }
  apply lbind_ok in E as (now & sa & Rc & E). apply clock_ok in Rc as (En & L1). rewrite R0 in L1.
  destruct K as [_ Kr].
  assert (Nr : NoDup rows).
  { unfold rows, sort_by. rewrite merge_sort_Permutation. apply NoDup_array_filter. by apply ids_rows. }
  rewrite <-L1 in *. pose proof E as E'.
  apply revocation_receipts in E' as (-> & _ & Rc); [|done|by intros x [Hx _]%Hr|done].
  apply (edit_loop _ (fun x x' => exists n, x' = stamp n (cancel_delivery (scope_reason (cm_scope input)) now x)))
    in E as [W F]; [|by intros x s3 u' s4 N' Hx (_ & _ & C)%cancel_for_revocation_ok|done|done|by intros x [Hx _]%Hr].
  split.
  - split; [done| |apply revocation_reason_scope]. exists now. split; [rewrite En; apply iso_moment, clock_iso|].
    eapply Forall2_impl_elem; [exact F|]. intros d d' Hd. unfold revoked_row.
    destruct (open_in ids d) eqn:O; intros [[X ?]|[X ?]]; try done.
    + destruct X. by apply Hr.
    + apply Hr in X as [_ X]. congruence.
  - intros i. split.
    + intros (d & -> & Hd)%list_elem_of_fmap. exists d. by apply Hr in Hd as [? ?].
    + intros (d & Hd & O & <-). apply list_elem_of_fmap_2. by apply Hr.
  - intros d Hd O. apply Rc. by apply Hr.
Qed.

(** The Missions of a scope. *)
Lemma participant_missions_elem p t id :
  id ∈ sort_strings (distinct (participant_missions p t)) <->
  exists x, x ∈ missionParticipants t /\ p x = true /\ MissionParticipants.missionId x = id.
Proof.
  assert (S : forall l, id ∈ sort_strings (distinct l) <-> id ∈ l).
  { intros l. unfold sort_strings, sort_by. rewrite merge_sort_Permutation. apply elem_of_distinct. }
  rewrite S. unfold participant_missions. rewrite S. split.
  - intros (x & -> & Hx)%list_elem_of_fmap. apply elem_of_array_filter in Hx as [? ?]. eauto.
  - intros (x & Hx & Px & <-). apply list_elem_of_fmap_2. by apply elem_of_array_filter.
Qed.

(** The revocation reached exactly the Missions whose participant meets [p]. *)
Definition revoked_scope (p : MissionParticipants.MissionParticipant -> bool)
    (reason : DeliveryCancellationReason) (t t' : LedgerTables) : Prop :=
  exists ids cancelled, revocation_done ids reason cancelled t t' /\
    forall id, id ∈ ids <->
      exists x, x ∈ missionParticipants t /\ p x = true /\ MissionParticipants.missionId x = id.

Lemma cancel_scope_ok input s l s' :
  keys_ok (ledger s) -> cancelDeliveriesForRevocation input s = (Ok l, s') ->
  revoked_scope (in_scope (cr_nodeId input) (cr_scope input)) (scope_reason (cr_scope input))
    (ledger s) (ledger s').
Proof.
  intros K. unfold cancelDeliveriesForRevocation. intros E. ltx_one E.
  apply cancel_missions_ok in E; [|done]. cbn in E. eexists _, l. split; [exact E|].
  intros id. apply participant_missions_elem.
Qed.

Lemma cancel_nodes_ok input s l s' :
  keys_ok (ledger s) -> cancelDeliveriesForNodeRevocations input s = (Ok l, s') ->
  revoked_scope (fun p => includes (cn_nodeIds input) (MissionParticipants.nodeId p)) C_node_revoked
    (ledger s) (ledger s').
Proof.
  intros K. unfold cancelDeliveriesForNodeRevocations. cbv zeta. set (ids := sort_strings _). intros E.
  assert (Hi : forall id, id ∈ ids <-> id ∈ cn_nodeIds input).
  { intros id. unfold ids, sort_strings, sort_by. rewrite merge_sort_Permutation. apply elem_of_distinct. }
  assert (Ei : forall p, includes ids (MissionParticipants.nodeId p) =
                         includes (cn_nodeIds input) (MissionParticipants.nodeId p)).
  { intros p. unfold includes. by apply bool_decide_ext. }
  destruct (len ids =? 0) eqn:Li.
  - ltx E. exists [], []. split; [by apply nothing_revoked|]. intros id.
    split; [by intros ?%not_elem_of_nil|]. intros (x & _ & Px & _). rewrite <-Ei in Px.
    apply Z.eqb_eq, len_zero in Li. by rewrite Li in Px.
  - ltx_one E. apply cancel_missions_ok in E; [|done]. eexists _, l. split; [exact E|].
    intros id. cbn. rewrite participant_missions_elem. by setoid_rewrite Ei.
Qed.
End Revocation.

(** ** Transactions made of steps *)

Lemma node_kept_refl n : node_kept n n.
Proof. done. Qed.
Lemma binding_kept_refl w : binding_kept w w.
Proof. done. Qed.

Lemma grown_map {A} (key : A -> string) kept (f : A -> A) l :
  (forall x, kept x (f x)) -> grown key kept l (map f l).
Proof.
  intros K. exists (map f l), []. rewrite app_nil_r. split; [done|]. split; [|by intros x ?%not_elem_of_nil].
  apply Forall2_fmap_r. by apply Forall2_refl_on.
Qed.
Lemma grown_same {A} (key : A -> string) (kept : A -> A -> Prop) l :
  (forall x, kept x x) -> grown key kept l l.
Proof. intros K. rewrite <-(map_id l) at 2. by apply grown_map. Qed.
Lemma grown_snoc {A} (key : A -> string) (kept : A -> A -> Prop) l x :
  (forall x, kept x x) -> key x ∉ map key l -> grown key kept l (l ++ [x]).
Proof.
  intros K N. exists l, [x]. split; [done|]. split; [by apply Forall2_refl_on|].
  by intros y ->%list_elem_of_singleton.
Qed.

Section Steps.
Context `{Zod, RelayEnv, LedgerEnv, !LedgerLaws}.
Implicit Types s : Ledger.

(** A body that, when it returns, has made steps only. *)
Definition only_steps {A} (m : LTx A) : Prop := forall s a s',
  keys_ok (ledger s) -> m s = (Ok a, s') -> rtc ledger_step (ledger s) (ledger s').

Lemma only_steps_bind {A B} (m : LTx A) (k : A -> LTx B) :
  only_steps m -> (forall a, only_steps (k a)) -> only_steps (m ≫= k).
Proof.
  intros Sm Sk s b s' K E. apply lbind_ok in E as (a & s1 & R & E).
  pose proof (Sm _ _ _ K R) as S. etrans; [exact S|]. eapply Sk; [by eapply steps_keys|exact E].
Qed.
Lemma only_steps_quiet {A} (m : LTx A) : quiet m -> only_steps m.
Proof. intros Q s a s' _ E. by rewrite (Q _ _ _ E). Qed.
Lemma only_steps_one {A} (m : LTx A) :
  (forall s a s', m s = (Ok a, s') -> authorities (ledger s) (ledger s')) -> only_steps m.
Proof. intros M s a s' _ E. apply rtc_once, step_authority. by eapply M. Qed.
Lemma only_steps_revokes {A} (m : LTx A) :
  (forall s a s', keys_ok (ledger s) -> m s = (Ok a, s') ->
     exists p reason, revoked_scope p reason (ledger s) (ledger s')) -> only_steps m.
Proof.
  intros M s a s' K E. destruct (M _ _ _ K E) as (p & r & ids & l & [R _ _] & _).
  apply rtc_once. by eapply step_revoke.
Qed.

(** The tables with other credentials and keys. *)
Lemma authorities_keys t t' :
  same_missions t t' -> nodeDeliveries t' = nodeDeliveries t -> receipts t' = receipts t ->
  nodes t' = nodes t -> workspaceBindings t' = workspaceBindings t -> authorities t t'.
Proof.
  intros M D R N W. split; try done; rewrite ?N, ?W; apply grown_same; done.
Qed.

Lemma insert_node_ok a n c s row s' :
  insert_node a n c s = (Ok row, s') ->
  ledger s' = (ledger s) <| nodes := nodes (ledger s) ++ [row] |> /\
  Nodes.id row ∉ map Nodes.id (nodes (ledger s)) /\ Nodes.status row = S_active.
Proof.
  unfold insert_node. intros E. ltx_one E. hush R. ltx_one E. ltx_one E. hush R0. ltx E. led.
  split; [done|]. split; [|done]. rewrite every_app in G. bool_hyps. cbn [every fst] in *. bool_hyps.
  rewrite R0, R in *. intros (x & Ex & Hx)%list_elem_of_fmap. cbn in Ex.
  repeat match goal with G : some _ _ = false |- _ => rewrite some_false_iff in G; specialize (G x Hx) end.
  bool_hyps. by cbn in *.
Qed.

Lemma insert_binding_ok n al u r s row s' :
  insert_binding n al u r s = (Ok row, s') ->
  ledger s' = (ledger s) <| workspaceBindings := workspaceBindings (ledger s) ++ [row] |> /\
  WorkspaceBindings.id row ∉ map WorkspaceBindings.id (workspaceBindings (ledger s)) /\
  WorkspaceBindings.status row = S_active.
Proof.
  unfold insert_binding. intros E. ltx_one E. hush R. ltx_one E. ltx E. led.
  split; [done|]. split; [|done]. rewrite every_app in G. bool_hyps. cbn [every fst] in *. bool_hyps.
  rewrite R in *. intros (x & Ex & Hx)%list_elem_of_fmap. cbn in Ex.
  repeat match goal with G : some _ _ = false |- _ => rewrite some_false_iff in G; specialize (G x Hx) end.
  bool_hyps. by cbn in *.
Qed.

Lemma revoke_nodes_ok p s u s' :
  revoke_nodes p s = (Ok u, s') -> exists x y, ledger s' = (ledger s) <| nodes :=
    map (fun n => if p n then revoked_node x y n else n) (nodes (ledger s)) |>.
Proof.
  unfold revoke_nodes. intros E. apply lbind_ok in E as (x & s1 & R1 & E). apply clock_ok in R1 as (_ & L1).
  apply lbind_ok in E as (y & s2 & R2 & E). apply clock_ok in R2 as (_ & L2). ltx E.
  exists x, y. by led.
Qed.
Lemma revoke_bindings_ok p s l s' :
  revoke_bindings p s = (Ok l, s') -> exists x y, ledger s' = (ledger s) <| workspaceBindings :=
    map (fun w => if p w then revoked_binding x y w else w) (workspaceBindings (ledger s)) |>.
Proof.
  unfold revoke_bindings. intros E. apply lbind_ok in E as (x & s1 & R1 & E). apply clock_ok in R1 as (_ & L1).
  apply lbind_ok in E as (y & s2 & R2 & E). apply clock_ok in R2 as (_ & L2). ltx E.
  exists x, y. by led.
Qed.

Lemma steps_insert_node a n c : only_steps (insert_node a n c).
Proof.
  apply only_steps_one. intros s row s' (-> & N & _)%insert_node_ok.
  split; try done; [by apply grown_snoc|by apply grown_same].
Qed.
Lemma steps_insert_binding n a u r : only_steps (insert_binding n a u r).
Proof.
  apply only_steps_one. intros s row s' (-> & N & _)%insert_binding_ok.
  split; try done; [by apply grown_same|by apply grown_snoc].
Qed.
Lemma steps_revoke_nodes p : only_steps (revoke_nodes p).
Proof.
  apply only_steps_one. intros s u s' (x & y & ->)%revoke_nodes_ok.
  split; try done; [|by apply grown_same]. apply grown_map. intros n. by destruct (p n).
Qed.
Lemma steps_revoke_bindings p : only_steps (revoke_bindings p).
Proof.
  apply only_steps_one. intros s u s' (x & y & ->)%revoke_bindings_ok.
  split; try done; [by apply grown_same|]. apply grown_map. intros w. by destruct (p w).
Qed.

Lemma steps_insert_credential n h sa l : only_steps (insert_credential n h sa l).
Proof.
  apply only_steps_one. unfold insert_credential. intros s i s' E. ltx_one E. hush R. ltx E.
  apply authorities_keys; by led.
Qed.
Lemma steps_revoke_credentials p : only_steps (revoke_credentials p).
Proof.
  apply only_steps_one. unfold revoke_credentials. intros s l s' E. ltx_one E. hush R. ltx E.
  apply authorities_keys; by led.
Qed.
Lemma steps_insert_api_key a h sa l : only_steps (insert_api_key a h sa l).
Proof.
  apply only_steps_one. unfold insert_api_key. intros s i s' E. ltx_one E. hush R. ltx_one E.
  ltx_one E. hush R0. ltx E. apply authorities_keys; by led.
Qed.
Lemma steps_revoke_api_keys p now : only_steps (revoke_api_keys p now).
Proof.
  apply only_steps_one. unfold revoke_api_keys. intros s u s' E. ltx_atom E. apply authorities_keys; by led.
Qed.
Lemma steps_cancel_scope input : only_steps (cancelDeliveriesForRevocation input).
Proof. apply only_steps_revokes. intros s l s' K E. eexists _, _. by eapply cancel_scope_ok. Qed.
Lemma steps_cancel_nodes input : only_steps (cancelDeliveriesForNodeRevocations input).
Proof. apply only_steps_revokes. intros s l s' K E. eexists _, _. by eapply cancel_nodes_ok. Qed.
Lemma quiet_insert_agent h e n r : quiet (insert_agent h e n r).
Proof. unfold insert_agent. cbv zeta. quiet. Qed.
Lemma quiet_disable_agent a : quiet (disable_agent a).
Proof. unfold disable_agent. quiet. Qed.
End Steps.

#[export] Hint Resolve steps_insert_node steps_insert_binding steps_revoke_nodes steps_revoke_bindings
  steps_insert_credential steps_revoke_credentials steps_insert_api_key steps_revoke_api_keys
  steps_cancel_scope steps_cancel_nodes quiet_insert_agent quiet_disable_agent : relay.

(** Proves [only_steps m] by walking through the structure of [m]. *)
Ltac only_steps :=
  repeat (intros; lazymatch goal with
  | |- only_steps (_ ≫= _) => apply only_steps_bind
  | |- only_steps (match ?x with _ => _ end) => destruct x
  | |- only_steps _ => first [solve [auto with relay nocore] | apply only_steps_quiet; solve [quiet]]
  end).

Section Bodies.
Context `{Zod, RelayEnv, LedgerEnv, !LedgerLaws}.
Implicit Types s : Ledger.

(** A transaction of such a body. *)
Definition advances_by_steps {A} (m : LTx A) : Prop :=
  exists body, m = ledger_transaction body /\ only_steps body.

Lemma enroll_steps a i g r : advances_by_steps (enroll_with a i g r).
Proof. eexists. split; [reflexivity|]. only_steps. Qed.
Lemma rotate_steps a n e g r : advances_by_steps (rotate_with a n e g r).
Proof. eexists. split; [reflexivity|]. unfold loadActiveCredentialIds. only_steps. Qed.
Lemma revoke_node_steps a n r : advances_by_steps (revokeNode a n r).
Proof. eexists. split; [reflexivity|]. only_steps. Qed.
Lemma register_steps auth i : advances_by_steps (registerWorkspace auth i).
Proof. eexists. split; [reflexivity|]. only_steps. Qed.
Lemma revoke_workspace_steps auth a : advances_by_steps (revokeWorkspace auth a).
Proof. eexists. split; [reflexivity|]. only_steps. Qed.
Lemma steps_touch_key k now : only_steps (touch_key k now).
Proof. apply only_steps_one. unfold touch_key. intros s u s' E. ltx_atom E. apply authorities_keys; by led. Qed.
Lemma steps_touch_credential c : only_steps (touch_credential c).
Proof.
  apply only_steps_one. unfold touch_credential. intros s u s' E. ltx_one E. hush R. ltx_atom E.
  apply authorities_keys; by led.
Qed.
Lemma steps_touch_node n : only_steps (touch_node n).
Proof.
  apply only_steps_one. unfold touch_node. intros s u s' E. ltx_one E. hush R. ltx_one E. hush R0.
  ltx_atom E. rewrite E, R0, R. split; try done; [|by apply grown_same].
  apply grown_map. intros x. by destruct (_ && _).
Qed.
Lemma create_agent_steps i g : advances_by_steps (ledger_transaction (register_with i g)).
Proof. eexists. split; [reflexivity|]. unfold register_with. only_steps. Qed.
Lemma disable_steps a r : advances_by_steps (disableAgent a r).
Proof. eexists. split; [reflexivity|]. unfold revoke_owned. only_steps. Qed.
End Bodies.
