(* ===== verification/LedgerCalls.v ===== *)
(** * Every service call is a sequence of steps

    The exported functions of the Mission ledger, the reconciliation, the delivery
    ledger, node enrollment, the admin's handlers and the presence updates of the
    authentication as one type of calls; a call, however it ends, advances the
    tables by [ledger_step]s only. *)

From stdpp Require Import sorting.
From S2P Require Import Prelude JsLib Schemas IsoDates RelayStore.
From S2P Require Import MissionEvents MissionCoordinator MissionReach DeliveryOperations.
From S2P Require Import LedgerStore MissionLedger MissionReconciliation.
From S2P Require Import DeliveryLedger DeliveryCompletion LedgerRules LedgerSteps.
From S2P Require Import LedgerAppend LedgerTerminal LedgerMoves LedgerCompletion.
From S2P Require Import Keys DeliveryRevocation NodeStore NodeEnrollment AgentAccounts LedgerAuthority.
Local Open Scope Z_scope.

Inductive ledger_call :=
| CreateMission (creator : string) (config : MissionCoordinatorConfig) (requestId : option string)
| AcceptMission (missionId agentId : string) (acceptance : MissionParticipantAcceptanceInput)
    (requestId : option string) (auth : option NodeCredentialContext)
| AppendEvent (missionId agentId : string) (input : MissionCoordinatorAppendInput)
    (requestId : option string)
| Reconcile (missionId : string)
| ListAvailable (nodeId : string) (page : PageRequest)
| ListRecoverable (nodeId : string) (limit : Z)
| Claim (auth : NodeCredentialContext) (deliveryId : string) (input : DeliveryClaimInput)
| Start (auth : NodeCredentialContext) (deliveryId : string) (input : LeaseOperationInput)
| Renew (auth : NodeCredentialContext) (deliveryId : string) (input : LeaseOperationInput)
| Release (auth : NodeCredentialContext) (deliveryId : string) (input : DeliveryReleaseInput)
| Complete (auth : NodeCredentialContext) (deliveryId : string) (input : DeliveryCompleteInput)
| EnrollNode (agentId : string) (input : NodeEnrollmentInput) (generated : GeneratedKey)
    (requestId : option string)
| RotateCredential (agentId nodeId expected : string) (generated : GeneratedKey)
    (requestId : option string)
| RevokeNode (agentId nodeId : string) (requestId : option string)
| RegisterWorkspace (auth : NodeCredentialContext) (input : WorkspaceRegistrationInput)
| RevokeWorkspace (auth : NodeCredentialContext) (alias : string)
| CreateAgent (input : RegisterAgentInput) (generated : GeneratedKey)
| RotateAgentKeys (agentId : string) (generated : GeneratedKey) (now : Z)
| DisableAgent (agentId : string) (requestId : option string)
| TouchKey (keyId : string) (now : Z)
| TouchCredential (credentialId : string)
| TouchNode (nodeId : string).

(** The ledger a call leaves. *)
Definition perform `{Zod, RelayEnv, LedgerEnv} (c : ledger_call) (s : Ledger) : Ledger :=
  match c with
  | CreateMission creator config r => (createMissionLedger creator config r s).2
  | AcceptMission m a i r auth => (acceptMissionParticipant m a i r auth s).2
  | AppendEvent m a i r => (appendMissionEvent m a i r s).2
  | Reconcile m => (reconcileMission m s).2
  | ListAvailable n p => (listAvailableDeliveryEvents n p s).2
  | ListRecoverable n l => (listRecoverableDeliveryEvents n l s).2
  | Claim a d i => (claimDelivery a d i s).2
  | Start a d i => (startDelivery a d i s).2
  | Renew a d i => (renewDelivery a d i s).2
  | Release a d i => (releaseDelivery a d i s).2
  | Complete a d i => (completeDelivery a d i s).2
  | EnrollNode a i g r => (enroll_with a i g r s).2
  | RotateCredential a n e g r => (rotate_with a n e g r s).2
  | RevokeNode a n r => (revokeNode a n r s).2
  | RegisterWorkspace auth i => (registerWorkspace auth i s).2
  | RevokeWorkspace auth al => (revokeWorkspace auth al s).2
  | CreateAgent i g => (ledger_transaction (register_with i g) s).2
  | RotateAgentKeys a g now => (rotate_keys_with a g now s).2
  | DisableAgent a r => (disableAgent a r s).2
  | TouchKey k now => (touch_key k now s).2
  | TouchCredential c => (touch_credential c s).2
  | TouchNode n => (touch_node n s).2
  end.

Section Calls.
Context `{Zod, RelayEnv, LedgerEnv, !LedgerLaws}.
Implicit Types s : Ledger.

(** An operation that advances the ledger, whatever it returns. *)
Definition advances {A} (m : LTx A) : Prop := forall s r s',
  keys_ok (ledger s) -> m s = (r, s') -> rtc ledger_step (ledger s) (ledger s').

Lemma advances_bind {A B} (m : LTx A) (k : A -> LTx B) :
  advances m -> (forall a, advances (k a)) -> advances (m ≫= k).
Proof.
  intros Am Ak s r s' K. unfold mbind, LTx_bind. destruct (m s) as [[a|e] s1] eqn:E.
  - intros R. pose proof (Am _ _ _ K E) as S. etrans; [exact S|].
    eapply Ak; [by eapply steps_keys|done].
  - intros [= <- <-]. by eapply Am.
Qed.
Lemma advances_quiet {A} (m : LTx A) : quiet m -> advances m.
Proof. intros Q s r s' _ E. by rewrite (Q _ _ _ E). Qed.
Lemma advances_for_each {A B} (f : A -> LTx B) l : (forall x, advances (f x)) -> advances (for_each f l).
Proof.
  intros Q. induction l as [|x l IH]; cbn; [apply advances_quiet; quiet|].
  apply advances_bind; [done|]. intros y. apply advances_bind; [done|]. intros ys.
  apply advances_quiet. quiet.
Qed.
Lemma advances_transaction {A} (body : LTx A) :
  (forall s a s', keys_ok (ledger s) -> body s = (Ok a, s') ->
     rtc ledger_step (ledger s) (ledger s')) -> advances (ledger_transaction body).
Proof. intros B s r s' K E. by eapply transaction_steps. Qed.

Lemma advances_by {A} (m : LTx A) : advances_by_steps m -> advances m.
Proof. intros (body & -> & S). by apply advances_transaction. Qed.
(** A statement outside a transaction: what it writes when it fails is nothing. *)
Lemma advances_statement {A} (m : LTx A) :
  only_steps m -> (forall s e s', m s = (Err e, s') -> ledger s' = ledger s) -> advances m.
Proof. intros S F s [a|e] s' K E; [by eapply S|by rewrite (F _ _ _ E)]. Qed.

Lemma rotate_keys_advances a g now : advances (rotate_keys_with a g now).
Proof.
  unfold rotate_keys_with. apply advances_bind; [|intros; apply advances_quiet; quiet].
  apply advances_by. eexists. split; [reflexivity|]. only_steps.
Qed.

(** ** The Mission ledger *)
Lemma store_participants missionId bindings l s us s' :
  for_each (store_participant missionId bindings) l s = (Ok us, s') ->
  exists ps, ledger s' = (ledger s) <| missionParticipants := missionParticipants (ledger s) ++ ps |> /\
    Forall (fun p => MissionParticipants.missionId p = missionId) ps /\
    map MissionParticipants.agentId ps = map part_agent_id l /\
    NoDup (map MissionParticipants.nodeId ps) /\
    forall p q, p ∈ participants_of missionId (ledger s) -> q ∈ ps ->
      MissionParticipants.nodeId p <> MissionParticipants.nodeId q.
Proof.
  revert s us. induction l as [|x l IH]; intros s us E; cbn in E.
  - ltx E. exists []. rewrite app_nil_r. split_and!; try done; try constructor.
    + by destruct (ledger s).
    + intros p q _ Hq. by apply not_elem_of_nil in Hq.
  - apply lbind_ok in E as (u & s1 & C & E). apply lbind_ok in E as (us' & s2 & F & E). ltx_atom E.
    unfold store_participant in C. destruct (array_find _ bindings) as [b|]; [|by ltx C].
    apply insert_participant_ok in C as (created & L1 & Fr).
    apply IH in F as (ps & L2 & O & Ag & N & D). rewrite L1 in L2, D.
    match type of L1 with _ = set_field _ (fun _ => _ ++ [?row]) _ => exists (row :: ps) end.
    unfold participants_of in *. cbn in D, L2.
    rewrite L2. rewrite array_filter_app in D. cbn in D. rewrite bool_decide_true in D by done.
    split_and!; [by rewrite <-app_assoc|by constructor|cbn; by rewrite Ag| |].
    + constructor; [|done]. intros (q & Eq & Hq)%list_elem_of_fmap.
      eapply D; [|exact Hq|exact Eq]. apply elem_of_app. right. left.
    + intros p q Hp [->|Hq]%elem_of_cons; [by apply Fr|]. apply D; [|done]. apply elem_of_app. by left.
Qed.

Lemma create_new_mission_ok creator config bindings r s res s' :
  find_mission (cfg_manifest config).(man_mission_id) (ledger s) = None ->
  create_new creator config bindings r s = (Ok res, s') ->
  exists m ps, creates m ps (ledger s) (ledger s').
Proof.
  intros Fm. unfold create_new. cbv zeta. change (config_manifest config) with (cfg_manifest config).
  intros E. ltx_one E. hush R. ltx_one E. hush R0. rewrite R in R0.
  apply lbind_ok in E as (t & sa & Rc & E). apply clock_ok in Rc as (_ & L1). ltx_one E. ltx_one E. ltx_one E.
  apply create_iff in G0 as [V ->].
  apply lbind_ok in E as (u & sb & Ri & E). apply insert_mission_ok in Ri as (created & L2 & Fr).
  apply lbind_ok in E as (us & sc & Rs & E). apply store_participants in Rs as (ps & L3 & O & Ag & N & _).
  ltx_one E. hush R1. ltx_atom E. rewrite L2, L1, R0 in L3. rewrite L1, R0 in Fr.
  match type of L2 with _ = set_field _ (fun _ => _ ++ [?row]) _ => exists row, ps end.
  constructor; try done. by rewrite R1, L3.
Qed.

Lemma create_advances creator config r : advances (createMissionLedger creator config r).
Proof.
  unfold createMissionLedger. cbv zeta. apply advances_bind; [apply advances_quiet; quiet|]. intros [].
  apply advances_bind; [apply advances_quiet; quiet|]. intros [].
  apply advances_bind; [apply advances_quiet; quiet|]. intros [].
  apply advances_transaction. intros s a s' K E. ltx_one E.
  apply lbind_ok in E as (bs & sa & R & E).
  assert (ledger sa = ledger s) as L1 by (destruct (find_mission _ _); by hush R). clear R.
  ltx_one E. hush R. ltx_one E. hush R0. ltx_one E. rewrite <-L1, <-R, <-R0.
  destruct (find_mission _ _) as [m|] eqn:Fm in E.
  - hush E. by rewrite E.
  - apply create_new_mission_ok in E as (m & ps & C); [|done]. apply rtc_once. by eapply step_create.
Qed.

Lemma append_advances m a i r : advances (appendMissionEvent m a i r).
Proof.
  unfold appendMissionEvent. apply advances_bind; [apply advances_quiet; quiet|]. intros [].
  apply advances_bind; [apply advances_quiet; quiet|]. intros [].
  apply advances_transaction. intros s x s' K E. ltx_one E. hush R. ltx_one E. rewrite <-R.
  destruct (find_mission _ _) as [mission|] eqn:Fm in E; [|by ltx E].
  apply append_ok in E as [->|(row & next & A)]; [done| |by rewrite (found_id _ _ _ Fm)|done|].
  - apply rtc_once. by eapply step_append.
  - split; [by intros x' [= <-]|done].
Qed.

(** Every participant's route is active when as many are as there are. *)
Lemma filter_all {A} (p : A -> bool) l : length (array_filter p l) = length l -> forall x, x ∈ l -> p x = true.
Proof.
  induction l as [|y l IH]; cbn; [by intros _ x ?%not_elem_of_nil|].
  pose proof (array_filter_length p l) as Le. destruct (p y) eqn:Py; cbn; [|lia].
  intros [= E] x [->|Hx]%elem_of_cons; [done|by apply IH].
Qed.

Lemma bindings_routed id n s u s' :
  assertAllParticipantBindingsActive id n s = (Ok u, s') ->
  len (participants_of id (ledger s)) = n -> all_routed id (ledger s).
Proof.
  unfold assertAllParticipantBindingsActive. intros E L. ltx_one E. hush R. ltx E. bool_hyps.
  unfold active_bindings, len in *. rewrite R in *. intros p Hp.
  assert (K : length (array_filter (fun p =>
    some (fun n => (Nodes.id n === MissionParticipants.nodeId p) && (Nodes.status n === S_active))
      (nodes (ledger s)) &&
    active_agent a (MissionParticipants.agentId p) &&
    some (fun w => (WorkspaceBindings.id w === MissionParticipants.workspaceBindingId p) &&
                   (WorkspaceBindings.nodeId w === MissionParticipants.nodeId p) &&
                   (WorkspaceBindings.status w === S_active)) (workspaceBindings (ledger s)))
    (participants_of id (ledger s))) = length (participants_of id (ledger s))) by lia.
  pose proof (filter_all _ _ K p Hp) as Ac. cbn beta in Ac. bool_hyps.
  repeat match goal with G : some _ _ = true |- _ => apply some_iff in G as (? & ? & ?) end. bool_hyps.
  split; eexists; split_and!; done.
Qed.

Lemma accept_new_ok mission agent acceptance r s res s' :
  find_mission (Missions.id mission) (ledger s) = Some mission ->
  accept_new mission agent acceptance r s = (Ok res, s') ->
  rtc ledger_step (ledger s) (ledger s').
Proof.
  intros Fm. unfold accept_new. cbv zeta. intros E.
  apply lbind_ok in E as (c & sa & Rc & E). apply config_ok in Rc as (-> & V & ->).
  ltx_one E. hush R. rename R into L1. apply lbind_ok in E as (t & sb & Rc & E).
  apply clock_ok in Rc as (Et & L2). ltx_one E.
  destruct (array_find _ _) as [mp|] in E; [|by ltx E]. ltx_one E. ltx_one E. ltx_one E. ltx_one E.
  apply lbind_ok in E as (rows & sc & Ru & E). apply update_participants_ok in Ru as (L3 & _).
  destruct rows as [|p rows]; [by ltx E|]. ltx_one E. hush R. rename R into L4.
  apply lbind_ok in E as (u & sd & Ra & E). hush E. rewrite E. rewrite L2, L1 in L3.
  assert (A : ledger_step (ledger s) (ledger s1)).
  { apply step_accept. rewrite L4, L3. split; [|done|]; cbn; rewrite map_map; apply map_ext; intros q;
      by destruct (_ && _). }
  assert (Fm1 : find_mission (Missions.id mission) (ledger s1) = Some mission) by (by rewrite L4, L3).
  eapply rtc_l; [exact A|]. unfold activate_when_complete in Ra. cbv zeta in Ra. ltx_one Ra.
  destruct (_ && _) eqn:Ac in Ra; [|by ltx_atom Ra]. bool_hyps. ltx_one Ra.
  pose proof (bindings_routed _ _ _ _ _ R ltac:(done)) as Rd. hush R. ltx_one Ra.
  apply lbind_ok in Ra as (x & se & Rx & Ra). ltx_atom Ra. rewrite <-R in *.
  apply append_ok in Rx as [->|(row & next & Ap)]; [done| |done| |by split].
  - apply rtc_once. by eapply step_append.
  - intros y [= <-]. rewrite Et. apply clock_iso.
Qed.

Lemma accept_advances m a i r auth : advances (acceptMissionParticipant m a i r auth).
Proof.
  unfold acceptMissionParticipant. apply advances_bind; [apply advances_quiet; quiet|]. intros [].
  apply advances_bind; [apply advances_quiet; quiet|]. intros [].
  apply advances_transaction. intros s x s' K E.
  apply lbind_ok in E as (u & sa & R & E). hush R. rename R into L1. ltx_one E. hush R. ltx_one E.
  rewrite <-L1, <-R. destruct (find_mission _ _) as [mission|] eqn:Fm in E; [|by ltx E]. ltx_one E.
  destruct (accepting_participant _ _ _ _) as [p|]; [|by ltx E]. destruct (_ === _).
  - hush E. by rewrite E.
  - eapply accept_new_ok; [by rewrite (found_id _ _ _ Fm)|exact E].
Qed.

(** ** Reconciliation and the reading operations *)
Lemma reconcile_advances m : advances (reconcileMission m).
Proof. apply advances_transaction. intros s r s' K E. by eapply reconcile_steps; [apply K|]. Qed.
Lemma reconcile_node_advances n : advances (reconcileNodeMissions n).
Proof.
  unfold reconcileNodeMissions. apply advances_bind; [apply advances_quiet; quiet|]. intros t.
  apply advances_bind; [apply advances_quiet; quiet|]. intros ids.
  apply advances_bind; [|intros; apply advances_quiet; quiet].
  apply advances_for_each. apply reconcile_advances.
Qed.
Lemma list_advances n p : advances (listAvailableDeliveryEvents n p).
Proof.
  unfold listAvailableDeliveryEvents. apply advances_bind; [apply reconcile_node_advances|].
  intros. apply advances_quiet. quiet.
Qed.
Lemma recover_advances n l : advances (listRecoverableDeliveryEvents n l).
Proof.
  unfold listRecoverableDeliveryEvents. apply advances_bind; [apply reconcile_node_advances|].
  intros. apply advances_quiet. quiet.
Qed.
End Calls.
