(* ===== verification/LedgerRefine.v ===== *)
(** * The services refine the step relation

    The callbacks of the delivery operations: each advances the ledger by steps,
    and leaves the receipt a retry will find.  With the calls of [LedgerCalls]
    this is the refinement theorem of the library's ledger. *)

From stdpp Require Import sorting.
From S2P Require Import Prelude JsLib Schemas IsoDates RelayStore.
From S2P Require Import MissionEvents MissionCoordinator MissionReach DeliveryOperations.
From S2P Require Import LedgerStore MissionLedger MissionReconciliation.
From S2P Require Import DeliveryLedger DeliveryCompletion LedgerRules LedgerSteps.
From S2P Require Import LedgerAppend LedgerTerminal LedgerMoves LedgerCompletion.
From S2P Require Import LedgerAuthority LedgerCalls.
Local Open Scope Z_scope.

Section Refine.
Context `{Zod, RelayEnv, LedgerEnv, !LedgerLaws}.
Implicit Types s : Ledger.

Lemma load_replay_ok n d op key i s o s' :
  loadReplay n d op key i s = (Ok o, s') ->
  s' = s /\ match o with
            | Some row => stored_receipt n key (ledger s) = Some row /\
                receipt_row n d (recorded_operation op) key i (Receipts.output row) row
            | None => stored_receipt n key (ledger s) = None
            end.
Proof.
  unfold loadReplay. intros E. ltx_one E. unfold stored_receipt.
  destruct (array_find _ _) as [row|] eqn:F in E.
  - rewrite F. ltx_one E. ltx_atom E. split; [done|]. split; [done|].
    apply array_find_Some in F as [_ F]. bool_hyps. by constructor.
  - by ltx_atom E.
Qed.

(** ** Operations on a lease *)
Lemma replay_operation_ok n d op key i s o s' :
  replayOperation n d op key i s = (Ok o, s') ->
  s' = s /\ match o with
            | Some r => exists r0, r = replayed_operation r0 /\
                has_receipt n d (recorded_operation op) key i (Receipts.OperationOutput r0) (ledger s)
            | None => stored_receipt n key (ledger s) = None
            end.
Proof.
  unfold replayOperation. intros E. apply lbind_ok in E as (x & s1 & R & E).
  apply load_replay_ok in R as [-> R]. destruct x as [row|]; cbn in E; [|by ltx E].
  destruct R as [F R]. destruct (Receipts.output row) as [|r0| | |] eqn:Eo; try by ltx E.
  ltx E. split; [done|]. exists r0. split; [done|]. exists row. split; [done|]. done.
Qed.

(** What the callback of a lease operation may rely on. *)
Record lease_mutation (op : DeliveryOperation) (key : string)
    (mutate : LockedDeliveryContext -> Z -> LTx DeliveryOperationResult) : Prop := {
  lm_moves : forall context now, moves_only context now (mutate context now);
  lm_result : forall context now s r s', mutate context now s = (Ok r, s') ->
    op_replayed r = false /\ or_operation (op_receipt r) = op /\
    or_idempotency_key (op_receipt r) = key
}.

Lemma quiet_delivery_start locked auth deliveryId op key i mutate :
  lk_reconciledStatus locked <> None ->
  quiet (lease_operation auth deliveryId op key i mutate locked).
Proof.
  intros Nr. unfold lease_operation. cbv zeta. apply quiet_bind; [quiet|]. intros [].
  apply quiet_bind; [quiet|]. intros [r|]; [quiet|]. by apply quiet_reconciled.
Qed.

Lemma lease_operation_ok auth deliveryId op key i mutate locked s r s' :
  lease_mutation op key mutate -> keys_ok (ledger s) -> locked_in auth deliveryId locked (ledger s) ->
  lease_operation auth deliveryId op key i mutate locked s = (Ok r, s') ->
  (lk_reconciledStatus locked <> None -> ledger s' = ledger s) /\
  rtc ledger_step (ledger s) (ledger s') /\
  exists r0, replayed_operation r = replayed_operation r0 /\
    has_receipt auth.(auth_nodeId) deliveryId (recorded_operation op) key i
      (Receipts.OperationOutput r0) (ledger s') /\
    (has_receipt auth.(auth_nodeId) deliveryId (recorded_operation op) key i
       (Receipts.OperationOutput r0) (ledger s) -> r = replayed_operation r0 /\ ledger s' = ledger s).
Proof.
  intros [Mv Re] K Li. unfold lease_operation. cbv zeta. intros E. ltx_one E. hush R.
  apply lbind_ok in E as (o & sa & Ro & E). apply replay_operation_ok in Ro as [-> Ro]. rewrite R in Ro.
  destruct o as [r1|].
  - destruct Ro as (r0 & -> & Hr).
    apply lbind_ok in E as (u & sb & Rb & E). apply quiet_ok in Rb; [|case_match; quiet].
    ltx_one E. hush R0. ltx_atom E.
    assert (Ls : forall x, ledger x = ledger s0 -> ledger x = ledger s) by (intros; congruence).
    rewrite R0, Rb, R. split; [done|]. split; [done|]. exists r0. by split_and!.
  - apply lbind_ok in E as (u & sa & Ra & E). apply not_reconciled_ok in Ra as [Nr ->].
    ltx_one E. hush R0. ltx_one E. hush R1. rewrite R0, R in R1.
    apply lbind_ok in E as (res & sb & Rm & E). pose proof (Re _ _ _ _ _ Rm) as (Rr & Ro1 & Rk).
    destruct (delivery_found _ _ _ _ (li_row _ _ _ _ Li)) as (Hd & Ed & _).
    apply Mv in Rm; [|rewrite R1; apply K|by rewrite R1|apply Li]. rewrite R1 in Rm.
    ltx_one E. apply lbind_ok in E as (u2 & sc & Rp & E). apply persist_ok in Rp as ((row & L3) & Hr).
    ltx_one E. hush R2. apply lbind_ok in E as (u3 & sd & Rr2 & E). ltx_atom E.
    assert (S1 : rtc ledger_step (ledger s) (ledger sc)).
    { eapply rtc_l; [by apply step_rows|]. apply rtc_once, step_rows. rewrite L3.
      destruct (mr_rows _ _ Rm) as (n & Mo & _).
      eapply receipts_move; [exact Mo| |done]. constructor; [done|done|by exists [row]]. }
    assert (S2 : rtc ledger_step (ledger sc) (ledger sd)).
    { rewrite <-R2. case_match; [|by ltx_atom Rr2]. ltx_one Rr2. ltx_atom Rr2.
      apply reconcile_steps in R3; [done|]. rewrite R2. by apply (steps_keys _ _ S1 K). }
    split; [by rewrite Nr|]. split; [by etrans|]. exists res.
    rewrite Ed, Ro1, Rk in Hr. split; [done|]. split.
    + eapply has_receipt_mono; [by apply steps_receipts|exact Hr].
    + intros (x & Fx & _). congruence.
Qed.

Lemma start_mutation auth input : lease_mutation Op_start input.(li_idempotency_key) (start_leased auth input).
Proof.
  split; [intros; apply start_moves|]. intros ctx now s r s' E. unfold start_leased in E. cbv zeta in E.
  ltx_one E. ltx_one E. ltx_one E. by apply operation_result_ok in E as (_ & _ & _ & Rr & (rid & ->) & _).
Qed.
Lemma renew_mutation auth input : lease_mutation Op_renew input.(li_idempotency_key) (renew_lease auth input).
Proof.
  split; [intros; apply renew_moves|]. intros ctx now s r s' E. unfold renew_lease in E. cbv zeta in E.
  ltx_one E. ltx_one E. ltx_one E. ltx_one E. ltx_one E.
  by apply operation_result_ok in E as (_ & _ & _ & Rr & (rid & ->) & _).
Qed.
Lemma release_mutation auth input :
  lease_mutation Op_release input.(ri_lease).(li_idempotency_key) (release_leased auth input).
Proof.
  split; [intros; apply release_moves|]. intros ctx now s r s' E. unfold release_leased in E. cbv zeta in E.
  ltx_one E. ltx_one E. ltx_one E. by apply operation_result_ok in E as (_ & _ & _ & Rr & (rid & ->) & _).
Qed.

Lemma lease_operation_advances auth deliveryId op key i mutate :
  lease_mutation op key mutate -> advances (mutateLeaseDelivery auth deliveryId op key i mutate).
Proof.
  intros M s r s' K E. eapply run_locked_steps; [| |exact K|exact E].
  - intros locked s1 a s2 K1 Li O. by apply lease_operation_ok in O as (_ & St & _).
  - intros locked Nr. by apply quiet_delivery_start.
Qed.

(** ** Claims *)
Lemma replay_claim_ok n d i s o s' :
  replayClaim n d i s = (Ok o, s') ->
  s' = s /\ match o with
            | Some r => exists r0, r = replayed_claim r0 /\
                has_receipt n d Receipts.claim i.(ci_idempotency_key) (claim_input d i)
                  (Receipts.ClaimOutput r0) (ledger s)
            | None => stored_receipt n i.(ci_idempotency_key) (ledger s) = None
            end.
Proof.
  unfold replayClaim. intros E. apply lbind_ok in E as (x & s1 & R & E).
  apply load_replay_ok in R as [-> R]. destruct x as [row|]; cbn in E; [|by ltx E].
  destruct R as [F R]. destruct (Receipts.output row) as [r0| | | |] eqn:Eo; try by ltx E.
  ltx E. split; [done|]. exists r0. split; [done|]. by exists row.
Qed.

Lemma quiet_claim_start auth d i locked :
  lk_reconciledStatus locked <> None -> quiet (claim_operation auth d i locked).
Proof.
  intros Nr. unfold claim_operation. cbv zeta. apply quiet_bind; [quiet|]. intros [].
  apply quiet_bind; [quiet|]. intros [r|]; [quiet|]. by apply quiet_reconciled.
Qed.

Lemma claim_operation_ok auth deliveryId i locked s r s' :
  keys_ok (ledger s) -> locked_in auth deliveryId locked (ledger s) ->
  claim_operation auth deliveryId i locked s = (Ok r, s') ->
  rtc ledger_step (ledger s) (ledger s') /\
  exists r0, replayed_claim r = replayed_claim r0 /\
    has_receipt auth.(auth_nodeId) deliveryId Receipts.claim i.(ci_idempotency_key)
      (claim_input deliveryId i) (Receipts.ClaimOutput r0) (ledger s') /\
    (has_receipt auth.(auth_nodeId) deliveryId Receipts.claim i.(ci_idempotency_key)
       (claim_input deliveryId i) (Receipts.ClaimOutput r0) (ledger s) ->
     r = replayed_claim r0 /\ ledger s' = ledger s).
Proof.
  intros K Li. unfold claim_operation. cbv zeta. intros E. ltx_one E. hush R.
  apply lbind_ok in E as (o & sa & Ro & E). apply replay_claim_ok in Ro as [-> Ro]. rewrite R in Ro.
  destruct o as [r1|].
  - destruct Ro as (r0 & -> & Hr). ltx_one E. hush R0. ltx_one E. hush R1. ltx_atom E.
    rewrite R1, R0, R. split; [done|]. exists r0. split_and!; [by destruct r0|done|done].
  - apply lbind_ok in E as (u & sa & Ra & E). apply not_reconciled_ok in Ra as [Nr ->].
    ltx_one E. hush R0. ltx_one E. hush R1. rewrite R0, R in R1. destruct Li as [Lr _ Ln].
    destruct (delivery_found _ _ _ _ Lr) as (_ & Ed & _). rewrite <-R1 in *.
    apply claim_new_steps in E as (St & S); [|apply K|by rewrite Ed|done].
    split; [done|]. exists r. unfold stores_claim in S. rewrite Ed in S. split; [done|]. split; [done|].
    intros (x & Fx & _). congruence.
Qed.

Lemma claim_advances auth d i : advances (claimDelivery auth d i).
Proof.
  unfold claimDelivery. apply advances_bind; [apply advances_quiet; quiet|]. intros _ s r s' K E.
  eapply run_locked_steps; [| |exact K|exact E].
  - intros locked s1 a s2 K1 Li O. by apply claim_operation_ok in O as (St & _).
  - intros locked Nr. by apply quiet_claim_start.
Qed.

(** ** Completions *)
Lemma replay_complete_ok n d i s o s' :
  replayComplete n d i s = (Ok o, s') ->
  s' = s /\ match o with
            | Some r => exists r0, r = replayed_complete r0 /\
                has_receipt n d Receipts.complete i.(cmi_lease).(li_idempotency_key)
                  (complete_input d i) (Receipts.CompleteOutput r0) (ledger s)
            | None => stored_receipt n i.(cmi_lease).(li_idempotency_key) (ledger s) = None
            end.
Proof.
  unfold replayComplete. intros E. apply lbind_ok in E as (x & s1 & R & E).
  apply load_replay_ok in R as [-> R]. destruct x as [row|]; cbn in E; [|by ltx E].
  destruct R as [F R]. destruct (Receipts.output row) as [| |r0| |] eqn:Eo; try by ltx E.
  ltx E. split; [done|]. exists r0. split; [done|]. by exists row.
Qed.

Lemma quiet_complete_start auth d i locked :
  lk_reconciledStatus locked <> None -> quiet (complete_operation auth d i locked).
Proof.
  intros Nr. unfold complete_operation. cbv zeta. apply quiet_bind; [quiet|]. intros [].
  apply quiet_bind; [quiet|]. intros [r|]; [quiet|]. by apply quiet_reconciled.
Qed.

Lemma complete_operation_ok auth deliveryId i locked s r s' :
  keys_ok (ledger s) -> locked_in auth deliveryId locked (ledger s) ->
  complete_operation auth deliveryId i locked s = (Ok r, s') ->
  rtc ledger_step (ledger s) (ledger s') /\
  exists r0, replayed_complete r = replayed_complete r0 /\
    has_receipt auth.(auth_nodeId) deliveryId Receipts.complete i.(cmi_lease).(li_idempotency_key)
      (complete_input deliveryId i) (Receipts.CompleteOutput r0) (ledger s') /\
    (has_receipt auth.(auth_nodeId) deliveryId Receipts.complete i.(cmi_lease).(li_idempotency_key)
       (complete_input deliveryId i) (Receipts.CompleteOutput r0) (ledger s) ->
     r = replayed_complete r0 /\ ledger s' = ledger s).
Proof.
  intros K Li. unfold complete_operation. cbv zeta. intros E. ltx_one E. hush R.
  apply lbind_ok in E as (o & sa & Ro & E). apply replay_complete_ok in Ro as [-> Ro]. rewrite R in Ro.
  destruct o as [r1|].
  - destruct Ro as (r0 & -> & Hr). ltx_one E. hush R0. ltx_atom E.
    rewrite R0, R. split; [done|]. exists r0. by split_and!.
  - apply lbind_ok in E as (u & sa & Ra & E). apply not_reconciled_ok in Ra as [Nr ->].
    ltx_one E. hush R0. ltx_one E. hush R1. rewrite R0, R in R1. destruct Li as [Lr Lm Ln].
    destruct (delivery_found _ _ _ _ Lr) as (_ & Ed & _). rewrite <-R1 in *.
    apply complete_steps in E as (St & Rr & S); [|done..].
    split; [done|]. exists r. split; [done|]. split; [done|].
    intros (x & Fx & _). congruence.
Qed.

Lemma complete_advances auth d i : advances (completeDelivery auth d i).
Proof.
  unfold completeDelivery. apply advances_bind; [apply advances_quiet; quiet|]. intros _ s r s' K E.
  eapply run_locked_steps; [| |exact K|exact E].
  - intros locked s1 a s2 K1 Li O. by apply complete_operation_ok in O as (St & _).
  - intros locked Nr. by apply quiet_complete_start.
Qed.

(** ** All the calls *)
Lemma perform_steps c s :
  keys_ok (ledger s) -> rtc ledger_step (ledger s) (ledger (perform c s)).
Proof.
  intros K. enough (forall A (m : LTx A), advances m -> rtc ledger_step (ledger s) (ledger (m s).2)) as X.
  { destruct c; apply X; clear X.
    all: try solve [auto using create_advances, accept_advances, append_advances, reconcile_advances,
      list_advances, recover_advances, claim_advances, complete_advances, rotate_keys_advances].
    all: try (apply advances_by; solve [auto using enroll_steps, rotate_steps, revoke_node_steps,
      register_steps, revoke_workspace_steps, create_agent_steps, disable_steps]).
    4-6: by apply advances_statement;
      [first [apply steps_touch_key|apply steps_touch_credential|apply steps_touch_node]|].
    all: apply advances_bind; [apply advances_quiet; quiet|]; intros _; apply lease_operation_advances.
    - apply start_mutation.
    - apply renew_mutation.
    - apply release_mutation. }
  intros A m Am. destruct (m s) as [r s'] eqn:E. by eapply Am.
Qed.
End Refine.

(** ** Reachable ledgers *)

(** Nothing has been created yet. *)
Definition fresh_ledger (t : LedgerTables) : Prop :=
  missions t = [] /\ missionParticipants t = [] /\ missionEvents t = [] /\ nodeDeliveries t = [] /\
  receipts t = [].

(** The ledger after any calls in any order, between which the rest of the
    database (agents, blocks, Nodes, credentials, bindings, the clock) may change
    in any way. *)
Inductive reachable_ledger `{Zod, RelayEnv, LedgerEnv} : Ledger -> Prop :=
| rl_fresh s : fresh_ledger (ledger s) -> reachable_ledger s
| rl_call c s : reachable_ledger s -> reachable_ledger (perform c s)
| rl_outside s s' :
    reachable_ledger s ->
    missions (ledger s') = missions (ledger s) ->
    missionParticipants (ledger s') = missionParticipants (ledger s) ->
    missionEvents (ledger s') = missionEvents (ledger s) ->
    nodeDeliveries (ledger s') = nodeDeliveries (ledger s) ->
    receipts (ledger s') = receipts (ledger s) -> reachable_ledger s'.

(** A property of the ledger's tables that no step breaks. *)
Record invariant `{Zod} (P : LedgerTables -> Prop) : Prop := {
  iv_fresh : forall t, fresh_ledger t -> P t;
  iv_step : forall t t', keys_ok t -> P t -> ledger_step t t' -> P t';
  iv_outside : forall t t', P t -> missions t' = missions t ->
    missionParticipants t' = missionParticipants t -> missionEvents t' = missionEvents t ->
    nodeDeliveries t' = nodeDeliveries t -> P t'
}.

Lemma invariant_reachable `{Zod, RelayEnv, LedgerEnv, !LedgerLaws} P s :
  invariant P -> reachable_ledger s -> keys_ok (ledger s) /\ P (ledger s).
Proof.
  intros [F St O] R. induction R as [s Fr|c s R [K IH]|s s' R [[Km Kr] IH] Em Ep Ee Ed Er].
  - split; [|by apply F]. destruct Fr as (Em & _ & _ & Ed & _).
    split; [rewrite Em|unfold row_ids; rewrite Ed]; constructor.
  - pose proof (perform_steps c s K) as S. split; [by eapply steps_keys|]. revert K IH.
    induction S as [|t t1 t2 S1 S2 IH']; [done|]. intros K Pt. apply IH'; [by eapply step_keys|by eapply St].
  - split; [|by eapply O]. split; [by rewrite Em|]. unfold row_ids. by rewrite Ed.
Qed.
