(* ===== verification/LedgerProjection.v ===== *)
(** * The projection is the replay of the events

    In every reachable ledger, the events stored for a Mission are numbered 1, 2,
    3, ... and replaying them gives exactly the state and the projected columns of
    the Mission's row. *)

From stdpp Require Import sorting.
From S2P Require Import Prelude JsLib Schemas IsoDates RelayStore.
From S2P Require Import MissionEvents MissionCoordinator MissionSteps MissionReach.
From S2P Require Import DeliveryOperations LedgerStore MissionLedger.
From S2P Require Import MissionReconciliation DeliveryLedger DeliveryCompletion LedgerExample.
From S2P Require Import LedgerRules LedgerSteps LedgerAppend LedgerTerminal LedgerMoves.
From S2P Require Import LedgerCompletion LedgerCalls LedgerRefine.
Local Open Scope Z_scope.

(** The Mission's rows in table order. *)
Definition own_events (id : string) (t : LedgerTables) : list MissionEventRows.MissionEvent :=
  array_filter (fun e => MissionEventRows.missionId e === id) (missionEvents t).

Record mission_ok `{Zod} (t : LedgerTables) (m : Missions.Mission) : Prop := {
  mo_config : missionCoordinatorConfigSchema (Missions.coordinatorConfig m) = true;
  mo_id : Missions.id m = (cfg_manifest (Missions.coordinatorConfig m)).(man_mission_id);
  mo_projected : projected m (Missions.state m);
  mo_numbers : map MissionEventRows.sequenceNo (own_events (Missions.id m) t) =
               seqZ 1 (sequence_no (Missions.state m));
  mo_events : eventsFromRows (own_events (Missions.id m) t) =
              Ok (map event_of_row (own_events (Missions.id m) t));
  mo_replay : replayMissionCoordinatorEvents (Missions.coordinatorConfig m)
                (map event_of_row (own_events (Missions.id m) t)) = Ok (Missions.state m)
}.

Record missions_ok `{Zod} (t : LedgerTables) : Prop := {
  ms_each : forall m, m ∈ missions t -> mission_ok t m;
  ms_owned : forall e, e ∈ missionEvents t -> MissionEventRows.missionId e ∈ map Missions.id (missions t)
}.

Section Projection.
Context `{Zod}.

Lemma by_sequence_order x y :
  ordered by_sequence x y <-> MissionEventRows.sequenceNo x <= MissionEventRows.sequenceNo y.
Proof. unfold ordered, by_sequence. lia. Qed.

(** The query's order is the table's. *)
Lemma event_rows_own t m :
  mission_ok t m -> mission_event_rows (Missions.id m) t = own_events (Missions.id m) t.
Proof.
  intros [_ _ _ N _ _]. unfold mission_event_rows, sort_by.
  apply (merge_sort_sorted MissionEventRows.sequenceNo); [apply by_sequence_order|].
  fold (own_events (Missions.id m) t). rewrite N. apply seqZ_sorted.
Qed.

Lemma seqZ_one a : seqZ a 1 = [a].
Proof. unfold seqZ. cbn. f_equal. Qed.

Lemma eventsFromRows_snoc rows row events event :
  eventsFromRows rows = Ok events -> eventFromRow row = Ok event ->
  eventsFromRows (rows ++ [row]) = Ok (events ++ [event]).
Proof.
  revert events. induction rows as [|r rows IH]; cbn; intros events.
  - intros [= <-] ->. done.
  - destruct (eventFromRow r) as [x|]; [|done]. destruct (eventsFromRows rows) as [xs|]; [|done].
    intros [= <-] E. by rewrite (IH xs).
Qed.

Lemma replay_snoc cfg events e s s' :
  replayMissionCoordinatorEvents cfg events = Ok s -> reduceMissionCoordinatorEvent s e = Ok s' ->
  replayMissionCoordinatorEvents cfg (events ++ [e]) = Ok s'.
Proof.
  unfold replayMissionCoordinatorEvents. destruct (createMissionCoordinatorState cfg); [|done].
  intros R E. by rewrite reduce_all_snoc, R.
Qed.

Lemma state_reachable t m :
  mission_ok t m -> reachable (Missions.coordinatorConfig m) (Missions.state m).
Proof. intros [_ _ _ _ _ R]. by eapply replay_reachable. Qed.

(** The event a step logs is new to the coordinator. *)
Lemma logs_step t m row next t' :
  mission_ok t m -> logs m row next t t' ->
  coordinator_step (Missions.state m) (event_of_row row) next.
Proof.
  intros Mo L. pose proof (state_reachable _ _ Mo) as R.
  destruct (reduce_step_sound _ _ _ (lg_reduce _ _ _ _ _ L)) as [(_ & F & _)|S]; [|done]. exfalso.
  apply findReplay_Some in F. destruct (reachable_log _ _ R) as [Ln En _ _ _].
  apply list_elem_of_lookup in F as [i Hi]. pose proof (lookup_lt_Some _ _ _ Hi) as Lt.
  apply En in Hi as (_ & Hi & _).
  change (event_sequence (event_of_row row)) with (MissionEventRows.sequenceNo row) in Hi.
  rewrite (lg_next _ _ _ _ _ L), Ln in Hi. unfold len in Hi. lia.
Qed.

Lemma coordinator_step_sequence s e s' :
  coordinator_step s e s' -> sequence_no s' = sequence_no s + 1.
Proof. by destruct 1. Qed.

Lemma own_events_snoc id t t' row :
  missionEvents t' = missionEvents t ++ [row] ->
  own_events id t' = own_events id t ++ (if MissionEventRows.missionId row === id then [row] else []).
Proof. unfold own_events. intros ->. rewrite array_filter_app. cbn. by case_match. Qed.

Lemma mission_ok_events t t' m :
  own_events (Missions.id m) t' = own_events (Missions.id m) t -> mission_ok t m -> mission_ok t' m.
Proof. intros E [A B C N F R]. by constructor; rewrite ?E. Qed.

Lemma missions_ok_same t t' :
  missions t' = missions t -> missionEvents t' = missionEvents t -> missions_ok t -> missions_ok t'.
Proof.
  intros Em Ee [A B]. constructor.
  - intros m. rewrite Em. intros Hm. eapply mission_ok_events; [|by apply A].
    unfold own_events. by rewrite Ee.
  - rewrite Ee, Em. done.
Qed.

Lemma initial_mission_ok t m :
  own_events (Missions.id m) t = [] -> missionCoordinatorConfigSchema (Missions.coordinatorConfig m) = true ->
  Missions.id m = (cfg_manifest (Missions.coordinatorConfig m)).(man_mission_id) ->
  projected m (initial_state (Missions.coordinatorConfig m)) -> mission_ok t m.
Proof.
  intros E V I (Es & P). constructor; rewrite ?E, ?Es; try done.
  unfold replayMissionCoordinatorEvents. by rewrite (proj2 (create_iff _ _) (conj V eq_refl)).
Qed.

Lemma logs_missions_ok m row next t t' :
  keys_ok t -> missions_ok t -> logs m row next t t' -> missions_ok t'.
Proof.
  intros K [A B] L. pose proof L as [Fm V _ _ Le Lo Ln Lr Ev [now Em] _ _].
  apply array_find_Some in Fm as [Hm _]. constructor.
  - intros x. rewrite Em. intros (y & -> & Hy)%list_elem_of_fmap.
    pose proof (A y Hy) as Y. case_bool_decide as Ei.
    + assert (y = m) as -> by (by apply (NoDup_map_eq Missions.id (missions t)); [apply K|..]).
      pose proof (logs_step _ _ _ _ _ Y L) as St. destruct Y as [Y1 Y2 Y3 Y4 Y5 Y6].
      assert (E : own_events (Missions.id m) t' = own_events (Missions.id m) t ++ [row]).
      { rewrite (own_events_snoc _ _ _ _ Ev). by rewrite bool_decide_true. }
      constructor; cbn; rewrite ?E, ?map_app; cbn; try done.
      * pose proof (log_length _ _ (reachable_log _ _ (replay_reachable _ _ _ Y6))) as Ll.
        pose proof (len_nonneg (applied_events (Missions.state m))).
        rewrite (coordinator_step_sequence _ _ _ St), Y4, Ln, seqZ_app by lia.
        f_equal. by rewrite seqZ_one, Z.add_comm.
      * by apply eventsFromRows_snoc.
      * by eapply replay_snoc.
    + eapply mission_ok_events; [|exact Y]. rewrite (own_events_snoc _ _ _ _ Ev), Lo.
      rewrite bool_decide_false by congruence. by rewrite app_nil_r.
  - intros e. rewrite (logs_keys _ _ _ _ _ L), Ev. intros [He| ->%list_elem_of_singleton]%elem_of_app; [by apply B|].
    rewrite Lo. by apply list_elem_of_fmap_2.
Qed.

Lemma missions_invariant : invariant missions_ok.
Proof.
  split.
  - intros t (Em & _ & Ee & _). constructor.
    + intros m. rewrite Em. by intros ?%not_elem_of_nil.
    + intros e. rewrite Ee. by intros ?%not_elem_of_nil.
  - intros t t' K I S. destruct S as [[[[Em _ Ee] _ _] _]|m ps C|[_ -> _]|m row next [L _ _ _ _]
      |m row next cause now [L _ _ _ _ _ _]|ids reason [[[Em _ Ee] _ _] _ _]|[[Em _ Ee] _ _ _ _]].
    + by apply (missions_ok_same t).
    + destruct C as [Fr V Ci Cs _ _ _ ->], I as [A B]. constructor.
      * intros x [Hx| ->%list_elem_of_singleton]%elem_of_app.
        -- by eapply mission_ok_events; [|by apply A].
        -- apply initial_mission_ok; try done. apply array_filter_none. intros e He.
           apply bool_decide_eq_false. intros Eq. apply Fr. rewrite <-Eq. by apply B.
      * cbn. intros e He. rewrite map_app. apply elem_of_app. left. by apply B.
    + by apply (missions_ok_same t).
    + by eapply logs_missions_ok.
    + by eapply logs_missions_ok.
    + by apply (missions_ok_same t).
    + by apply (missions_ok_same t).
  - intros t t' I Em _ Ee _. by apply (missions_ok_same t).
Qed.
End Projection.

Lemma reachable_missions `{Zod, RelayEnv, LedgerEnv, !LedgerLaws} s :
  reachable_ledger s -> missions_ok (ledger s).
Proof. intros R. by destruct (invariant_reachable _ _ missions_invariant R). Qed.

(** C1: a Mission's row is the replay of its events.  In every ledger the services
    can reach, whatever calls succeeded or failed before, the stored events of a
    Mission read in order are numbered 1 to n without a gap, they all parse, the
    coordinator replays them from the Mission's own configuration, and what it
    computes is exactly the stored state, with the status, the last sequence and
    the contract version the row projects from it: the mismatch that
    [appendMissionEventInTransaction] reports as an internal error cannot occur. *)
Theorem projection_is_replay `{Zod, RelayEnv, LedgerEnv, !LedgerLaws} s m :
  reachable_ledger s -> m ∈ missions (ledger s) ->
  let rows := mission_event_rows (Missions.id m) (ledger s) in
  map MissionEventRows.sequenceNo rows = seqZ 1 (Missions.lastEventSequence m) /\
  eventsFromRows rows = Ok (map event_of_row rows) /\
  replayMissionCoordinatorEvents (Missions.coordinatorConfig m) (map event_of_row rows) =
    Ok (Missions.state m) /\
  projected m (Missions.state m).
Proof.
  intros R Hm. cbv zeta. pose proof (ms_each _ (reachable_missions s R) m Hm) as Mo.
  rewrite (event_rows_own _ _ Mo). destruct Mo as [_ _ P N E Rp].
  destruct P as (Es & Est & Eq & Ec). by rewrite Eq.
Qed.

(** ** The example's run is reachable *)
#[local] Existing Instance example_zod.
#[local] Existing Instance ex_relay_env.
#[local] Existing Instance ex_ledger_env.

#[export] Instance ex_laws : LedgerLaws.
Proof.
  split.
  - intros n. unfold clock_time, LEASE_DURATION_MS, ex_start. cbn [clock_timestamp ex_ledger_env].
    unfold ex_start. lia.
  - intros t R. unfold zod_datetime, example_zod. by rewrite Date_parse_toISOString.
Qed.

Lemma after_create c f r s :
  reachable_ledger s -> reachable_ledger (after_of (createMissionLedger c f r) s).
Proof. exact (rl_call (CreateMission c f r) s). Qed.
Lemma after_accept m a i r o s :
  reachable_ledger s -> reachable_ledger (after_of (acceptMissionParticipant m a i r o) s).
Proof. exact (rl_call (AcceptMission m a i r o) s). Qed.
Lemma after_claim a d i s :
  reachable_ledger s -> reachable_ledger (after_of (claimDelivery a d i) s).
Proof. exact (rl_call (Claim a d i) s). Qed.
Lemma after_start a d i s :
  reachable_ledger s -> reachable_ledger (after_of (startDelivery a d i) s).
Proof. exact (rl_call (Start a d i) s). Qed.
Lemma after_complete a d i s :
  reachable_ledger s -> reachable_ledger (after_of (completeDelivery a d i) s).
Proof. exact (rl_call (Complete a d i) s). Qed.

Lemma ex_work_reachable digit key r s : reachable_ledger s -> reachable_ledger (ex_work digit key r s).
Proof. intros R. unfold ex_work. apply after_complete, after_start, after_claim, R. Qed.
Lemma ex_created_ledger_reachable : reachable_ledger ex_created_ledger.
Proof. unfold ex_created_ledger. apply after_create, rl_fresh. by repeat split. Qed.
Lemma ex_accepted_reachable : reachable_ledger ex_accepted_ledger.
Proof. unfold ex_accepted_ledger. apply after_accept, after_accept, ex_created_ledger_reachable. Qed.
Lemma ex_verifying_reachable : reachable_ledger ex_verifying_ledger.
Proof.
  unfold ex_verifying_ledger, ex_agreed, ex_proposed.
  do 6 apply ex_work_reachable. apply ex_accepted_reachable.
Qed.
Lemma ex_done_reachable : reachable_ledger ex_done.
Proof. unfold ex_done. do 2 apply ex_work_reachable. apply ex_verifying_reachable. Qed.

Lemma projection_is_replay_witness :
  exists m, m ∈ missions (ledger ex_done) /\ Missions.status m = M_completed /\
    Missions.lastEventSequence m = 9 /\
    map MissionEventRows.sequenceNo (mission_event_rows (Missions.id m) (ledger ex_done)) = seqZ 1 9.
Proof.
  destruct (missions (ledger ex_done) !! 0%nat) as [m|] eqn:E.
  - exists m. pose proof (list_elem_of_lookup_2 _ _ _ E) as Hm. split; [exact Hm|].
    assert (S : ((fun m => (Missions.status m, Missions.lastEventSequence m)) <$>
                 missions (ledger ex_done) !! 0%nat) = Some (M_completed, 9)) by by_vm.
    rewrite E in S. injection S as Es El. split; [exact Es|]. split; [exact El|].
    rewrite <-El. exact (proj1 (projection_is_replay ex_done m ex_done_reachable Hm)).
  - exfalso. assert (L : length (missions (ledger ex_done)) = 1%nat) by by_vm.
    apply lookup_ge_None in E. lia.
Defined.
