(* ===== verification/LedgerMachine.v ===== *)
(** * Deliveries follow the protocol's state machine

    [transitionDeliveryState] of protocol/src/state-machines.ts is not called by
    the relay: the delivery ledger writes its rows itself.  Read as a state of
    that machine, every row is one the machine reaches, and every change of a row
    is a run of it. *)

From stdpp Require Import sorting.
From S2P Require Import Prelude JsLib Schemas IsoDates RelayStore.
From S2P Require StateMachines.
From S2P Require Import MissionEvents MissionCoordinator MissionExample MissionReach DeliveryOperations.
From S2P Require Import LedgerStore MissionLedger MissionReconciliation.
From S2P Require Import DeliveryLedger DeliveryCompletion DeliveryRevocation LedgerExample.
From S2P Require Import LedgerRules.
From S2P Require Import LedgerSteps LedgerAppend LedgerTerminal LedgerMoves LedgerCompletion.
From S2P Require Import LedgerCompletion LedgerCalls LedgerRefine LedgerProjection.
Import StateMachines (DeliveryTransitionState, Build_DeliveryTransitionState, DeliveryTransitionEvent,
  transitionDeliveryState, delivery_run, initial_delivery, delivery_wf, Lease, RenewLease,
  StartExecution, Acknowledge, Release, LeaseExpired, Cancel, DeliveryClaim, Build_DeliveryClaim).
Local Open Scope Z_scope.

#[local] Existing Instance StateMachines.DeliveryEventType_eq_dec.

(** The row as a state of the machine. *)
Definition machine_of (d : Row) : DeliveryTransitionState := {|
  StateMachines.status := NodeDeliveries.status d;
  StateMachines.attemptCount := NodeDeliveries.attemptCount d;
  StateMachines.maxAttempts := NodeDeliveries.maxAttempts d;
  StateMachines.lastFencingToken := NodeDeliveries.lastFencingToken d;
  StateMachines.activeLeaseId := NodeDeliveries.activeLeaseId d;
  StateMachines.activeFencingToken :=
    match NodeDeliveries.activeLeaseId d with
    | Some _ => Some (NodeDeliveries.lastFencingToken d) | None => None end;
  StateMachines.leaseExpiresAt := toISOString <$> NodeDeliveries.leaseExpiresAt d;
  StateMachines.logicallySettled := non_null (NodeDeliveries.settledByEventId d) |}.

(** The claim a Node presents for the row's lease at [now]. *)
Definition claim_at (lease : string) (d : Row) (now : Z) : DeliveryClaim :=
  Build_DeliveryClaim lease (NodeDeliveries.lastFencingToken d) (toISOString now).

Definition runs_to `{Zod} (d d' : Row) : Prop :=
  exists es, delivery_run (machine_of d) es (machine_of d').

Section Machine.
Context `{Zod}.
Implicit Types d : Row.

Lemma run_trans a es b es' c : delivery_run a es b -> delivery_run b es' c -> delivery_run a (es ++ es') c.
Proof.
  induction 1; cbn; [done| |]; intros R.
  - eapply StateMachines.run_event; eauto.
  - apply StateMachines.run_settle; eauto.
Qed.
Lemma run_one s e s' : transitionDeliveryState s e = Ok s' -> delivery_run s [e] s'.
Proof. intros T. eapply StateMachines.run_event; [exact T|]. apply StateMachines.run_nil. Qed.

Lemma before_text a b :
  moment a -> moment b -> a < b ->
  StateMachines.isTimestampBefore (Some (toISOString a)) (Some (toISOString b)) = true.
Proof.
  intros [Ra Ia] [Rb Ib] L. unfold StateMachines.isTimestampBefore, StateMachines.isTimestamp.
  cbn beta iota. rewrite Ia, Ib. unfold Date_parse_opt. cbn [mbind option_bind].
  rewrite !Date_parse_toISOString by done. by apply Z.ltb_lt.
Qed.
Lemma not_before_text a b :
  moment a -> moment b -> b <= a ->
  StateMachines.isTimestampBefore (Some (toISOString a)) (Some (toISOString b)) = false.
Proof.
  intros [Ra Ia] [Rb Ib] L. unfold StateMachines.isTimestampBefore, StateMachines.isTimestamp.
  cbn beta iota. rewrite Ia, Ib. unfold Date_parse_opt. cbn [mbind option_bind].
  rewrite !Date_parse_toISOString by done. by apply Z.ltb_ge.
Qed.

(** The row's machine state is well formed and its deadline in range. *)
Record row_timed d : Prop := {
  rt_wf : delivery_wf (machine_of d);
  rt_range : forall x, NodeDeliveries.leaseExpiresAt d = Some x -> iso_range x
}.

(** What a leased row's lease is. *)
Lemma leased_fields d x :
  row_timed d -> leased_until d x ->
  moment x /\ exists lease, NodeDeliveries.activeLeaseId d = Some lease.
Proof.
  intros [W R] [N E]. pose proof (StateMachines.wf_lease _ W) as L.
  unfold StateMachines.lease_fields in L. cbn [StateMachines.status machine_of] in L. rewrite N in L.
  destruct L as ([lease El] & _ & T & _). cbn [StateMachines.leaseExpiresAt machine_of] in T.
  rewrite E in T. split; [split; [by apply R|done]|by exists lease].
Qed.

(** The row's lease passes the machine's checks: at a time before its deadline,
    or for its expiry at a time after it. *)
Lemma claim_accepted d x lease now type :
  leased_until d x -> moment x -> moment now -> NodeDeliveries.activeLeaseId d = Some lease ->
  (if type === StateMachines.DE_lease_expired then x <= now else now < x) ->
  StateMachines.assertLeaseOwned (machine_of d) (claim_at lease d now) type = Ok tt.
Proof.
  intros [N E] Mx Mn El C. unfold StateMachines.assertLeaseOwned.
  cbn [machine_of StateMachines.status]. rewrite N.
  assert (M : StateMachines.assertMatchingDeliveryClaim (machine_of d)
                (StateMachines.partial_claim (claim_at lease d now)) type = Ok tt).
  { unfold StateMachines.assertMatchingDeliveryClaim, claim_at, StateMachines.partial_claim, machine_of.
    cbn [StateMachines.p_leaseId StateMachines.p_fencingToken StateMachines.p_now StateMachines.leaseId
         StateMachines.fencingToken StateMachines.now StateMachines.status StateMachines.activeLeaseId
         StateMachines.activeFencingToken StateMachines.leaseExpiresAt is_null orb].
    rewrite El, E. cbn [fmap option_fmap option_map]. unfold StateMachines.isTimestamp.
    destruct Mx as [_ ->], Mn as [_ ->].
    rewrite (bool_decide_true (Some lease = _)), (bool_decide_true (Some _ = Some _)) by done.
    unfold needsLease in N. by destruct (NodeDeliveries.status d). }
  unfold StateMachines.assertActiveDeliveryClaim. rewrite M.
  cbn [machine_of StateMachines.leaseExpiresAt claim_at StateMachines.now StateMachines.partial_claim
       StateMachines.p_now]. rewrite E. cbn [fmap option_fmap option_map].
  case_bool_decide; [by rewrite not_before_text|by rewrite before_text].
Qed.

(** The name of a cancellation reason is one the machine accepts. *)
Lemma reason_named r : deliveryCancellationReasonSchema (DeliveryCancellationReason_name r) = Some r.
Proof. by destruct r. Qed.

Lemma cancel_run now r d :
  open_status (NodeDeliveries.status d) = true -> moment now ->
  delivery_run (machine_of d) [Cancel (DeliveryCancellationReason_name r) (toISOString now)]
    (machine_of (cancel_delivery r now d)).
Proof.
  intros O [_ I]. apply run_one. unfold transitionDeliveryState. cbn [StateMachines.event_type].
  rewrite reason_named, I. unfold open_status in O. cbn [machine_of StateMachines.status].
  by destruct (NodeDeliveries.status d).
Qed.

(** The events that present the row's lease. *)
Lemma lease_event_run now x lease d e next d' :
  row_timed d -> leased_until d x -> moment now -> NodeDeliveries.activeLeaseId d = Some lease ->
  StateMachines.event_claim e = Some (claim_at lease d now) ->
  StateMachines.event_type e <> StateMachines.DE_lease ->
  (if StateMachines.event_type e === StateMachines.DE_lease_expired then x <= now else now < x) ->
  StateMachines.deliveryTransitions (NodeDeliveries.status d) (StateMachines.event_type e) = Some next ->
  (StateMachines.assertLeaseOwned (machine_of d) (claim_at lease d now) (StateMachines.event_type e) = Ok tt ->
   StateMachines.deliveryTransitions (StateMachines.status (machine_of d)) (StateMachines.event_type e) = Some next ->
   transitionDeliveryState (machine_of d) e = Ok (machine_of d')) ->
  runs_to d d'.
Proof.
  intros T L Mo El Ec Ne C Nx K. destruct (leased_fields _ _ T L) as [Mx _].
  exists [e]. apply run_one, K; [|done]. by eapply claim_accepted.
Qed.

Lemma unsettled_flag d :
  NodeDeliveries.settledByEventId d = None -> StateMachines.logicallySettled (machine_of d) = false.
Proof. intros E. cbn. by rewrite E. Qed.

Lemma claim_run now lease x d :
  NodeDeliveries.status d = D_stored -> NodeDeliveries.settledByEventId d = None ->
  NodeDeliveries.attemptCount d < NodeDeliveries.maxAttempts d -> now < x -> moment now -> moment x ->
  uuidSchema lease = true ->
  runs_to d (grant_lease lease (NodeDeliveries.attemptCount d + 1) x d).
Proof.
  intros St Un At Lx Mo Mx Ul.
  exists [Lease (Build_DeliveryClaim lease (string_of_int (NodeDeliveries.attemptCount d + 1))
                   (toISOString now)) (toISOString x)].
  apply run_one. unfold transitionDeliveryState.
  change (StateMachines.status (machine_of d)) with (NodeDeliveries.status d). rewrite St.
  cbn [StateMachines.event_type StateMachines.deliveryTransitions StateMachines.leaseId
       StateMachines.fencingToken StateMachines.now].
  rewrite (unsettled_flag _ Un), Ul, before_text by done.
  change (StateMachines.maxAttempts (machine_of d)) with (NodeDeliveries.maxAttempts d).
  change (StateMachines.attemptCount (machine_of d)) with (NodeDeliveries.attemptCount d).
  rewrite (proj2 (Z.leb_gt _ _)), bool_decide_true by done. done.
Qed.

(** Unfold the machine on an event that presents the lease. *)
Ltac owned :=
  unfold transitionDeliveryState;
  match goal with A : StateMachines.assertLeaseOwned _ _ _ = Ok tt, N : _ = Some _ |- _ =>
    cbn [StateMachines.event_type] in A, N |- * end.

Lemma row_move_run now d v :
  row_timed d -> moment now -> row_move now d v -> runs_to d v.
Proof.
  intros T Mo M. destruct M as [lease x St Un At Av Lx Mx Ul|x L St Lx Un|x y L Lx Lxy My Un
    |x dead retryAt L Lx Un De|x L Lx Un At|x L Lx Un At|x e L St Lx Se|e O Se].
  1: by apply (claim_run now). 7: eexists; by apply cancel_run.
  all: destruct (leased_fields _ _ T L) as [Mx [lease El]].
  - eapply (lease_event_run now x lease d (StartExecution (claim_at lease d now))); try done; [by rewrite St|].
    intros A N. owned. rewrite N, (unsettled_flag _ Un), A. done.
  - destruct (decide (x = y)) as [->|Ne].
    { exists []. destruct L as [_ E]. replace (machine_of (extend_lease y d)) with (machine_of d).
      - apply StateMachines.run_nil.
      - unfold machine_of. cbn. by rewrite E. }
    assert (Nx : StateMachines.deliveryTransitions (NodeDeliveries.status d) StateMachines.DE_renew_lease
                 = Some (NodeDeliveries.status d)).
    { destruct L as [N _]. unfold needsLease in N. by destruct (NodeDeliveries.status d). }
    eapply (lease_event_run now x lease d (RenewLease (claim_at lease d now) (toISOString y))); try done.
    intros A N. owned. rewrite N, (unsettled_flag _ Un), A.
    cbn [andb]. unfold claim_at. cbn [StateMachines.now].
    rewrite before_text by (done || lia).
    change (StateMachines.leaseExpiresAt (machine_of d)) with (toISOString <$> NodeDeliveries.leaseExpiresAt d).
    destruct L as [_ ->]. cbn [fmap option_fmap option_map].
    rewrite before_text by (done || lia). unfold StateMachines.isTimestamp. destruct Mx as [_ ->]. done.
  - assert (Nx : StateMachines.deliveryTransitions (NodeDeliveries.status d) StateMachines.DE_release
                 = Some D_stored).
    { destruct L as [N _]. unfold needsLease in N. by destruct (NodeDeliveries.status d). }
    eapply (lease_event_run now x lease d (Release (claim_at lease d now) (if dead then "permanent" else "transient"))); try done.
    intros A N. owned. rewrite N, (unsettled_flag _ Un), A.
    destruct dead; [cbn; by rewrite orb_true_r|].
    change (StateMachines.maxAttempts (machine_of d)) with (NodeDeliveries.maxAttempts d).
    change (StateMachines.attemptCount (machine_of d)) with (NodeDeliveries.attemptCount d).
    rewrite (proj2 (Z.leb_gt _ _)) by auto. done.
  - assert (Nx : StateMachines.deliveryTransitions (NodeDeliveries.status d) StateMachines.DE_lease_expired
                 = Some D_stored).
    { destruct L as [N _]. unfold needsLease in N. by destruct (NodeDeliveries.status d). }
    eapply (lease_event_run now x lease d (LeaseExpired (claim_at lease d now))); try done.
    intros A N. owned. rewrite N, (unsettled_flag _ Un), A.
    change (StateMachines.maxAttempts (machine_of d)) with (NodeDeliveries.maxAttempts d).
    change (StateMachines.attemptCount (machine_of d)) with (NodeDeliveries.attemptCount d).
    rewrite (proj2 (Z.leb_gt _ _)) by auto. done.
  - assert (Nx : StateMachines.deliveryTransitions (NodeDeliveries.status d) StateMachines.DE_lease_expired
                 = Some D_stored).
    { destruct L as [N _]. unfold needsLease in N. by destruct (NodeDeliveries.status d). }
    eapply (lease_event_run now x lease d (LeaseExpired (claim_at lease d now))); try done.
    intros A N. owned. rewrite N, (unsettled_flag _ Un), A.
    change (StateMachines.maxAttempts (machine_of d)) with (NodeDeliveries.maxAttempts d).
    change (StateMachines.attemptCount (machine_of d)) with (NodeDeliveries.attemptCount d).
    rewrite (proj2 (Z.leb_le _ _)) by auto. done.
  - eapply (lease_event_run now x lease d (Acknowledge (claim_at lease d now))); try done; [by rewrite St|].
    intros A N. owned. rewrite N, A. cbn. rewrite Se. done.
Qed.

(** ** Every row, at every step *)
Definition from_start d : Prop :=
  (exists es, delivery_run (initial_delivery 5) es (machine_of d)) /\
  forall x, NodeDeliveries.leaseExpiresAt d = Some x -> iso_range x.
Definition rows_from_start (t : LedgerTables) : Prop :=
  forall d, d ∈ nodeDeliveries t -> from_start d.

(** The rows after, as the rows before in a later state, and new ones. *)
Record rows_follow (l l' : list Row) : Prop := {
  rf_split : exists kept created, l' = kept ++ created /\
    Forall2 (fun d d' => NodeDeliveries.id d' = NodeDeliveries.id d /\ runs_to d d') l kept /\
    Forall (fun d => exists es, delivery_run (initial_delivery 5) es (machine_of d)) created
}.

Lemma from_start_timed d : from_start d -> row_timed d.
Proof.
  intros [[es R] X]. constructor; [|done]. eapply StateMachines.run_wf; [exact R|].
  by apply StateMachines.initial_delivery_wf.
Qed.

Lemma from_start_runs d d' :
  from_start d -> runs_to d d' ->
  (forall x, NodeDeliveries.leaseExpiresAt d' = Some x -> iso_range x) -> from_start d'.
Proof. intros [[es R] X] [es' R'] X'. split; [|done]. exists (es ++ es'). by eapply run_trans. Qed.

Lemma runs_refl d : runs_to d d.
Proof. exists []. apply StateMachines.run_nil. Qed.
Lemma runs_trans a b c : runs_to a b -> runs_to b c -> runs_to a c.
Proof. intros [e R] [f Q]. exists (e ++ f). by eapply run_trans. Qed.

Lemma stamp_run n d v : runs_to d v -> runs_to d (stamp n v).
Proof. intros R. exact R. Qed.

Lemma rows_follow_trans a b c : rows_follow a b -> rows_follow b c -> rows_follow a c.
Proof.
  intros [(k & n & -> & F & N)] [(k' & n' & -> & F' & N')].
  apply Forall2_app_inv_l in F' as (k1 & k2 & F1 & F2 & ->).
  constructor. exists k1, (k2 ++ n'). split; [by rewrite app_assoc|]. split.
  - clear N N' F2. revert k1 F1. induction F as [|x y l k [E R] F IH]; intros k1 F1.
    + by inversion F1.
    + inversion F1 as [|y' z k' k1' [E' R'] F1']; subst. constructor; [|by apply IH].
      split; [congruence|by eapply runs_trans].
  - apply Forall_app. split; [|done]. clear -F2 N. induction F2 as [|x y l k [_ [es' R']] F IH]; [done|].
    apply Forall_cons in N as [[es R] N]. constructor; [|by apply IH]. exists (es ++ es'). by eapply run_trans.
Qed.

Lemma row_moved_run now d d' :
  from_start d -> moment now -> row_moved now d d' ->
  (NodeDeliveries.id d' = NodeDeliveries.id d /\ runs_to d d') /\ from_start d'.
Proof.
  intros Fs Mo [->|(n & v & M & ->)]; [split; [split; [done|apply runs_refl]|done]|].
  pose proof (row_move_routing _ _ _ M) as Ro. injection Ro as Ei _.
  pose proof (stamp_run n _ _ (row_move_run now d v (from_start_timed _ Fs) Mo M)) as R.
  split; [split; [exact Ei|exact R]|]. apply (from_start_runs d); [exact Fs|exact R|].
  destruct Fs as [_ X]. clear R Ei. cbn.
  destruct M as [lease x ? ? ? ? ? [Mx _] ?|x|x y ? ? ? [My _] ?|x [] retryAt|x|x|x e|e];
    try exact X; try (by intros ?); by intros ? [= <-].
Qed.

Lemma settle_run e at_ n d : runs_to d (stamp n (settle_with e at_ d)).
Proof. exists []. apply StateMachines.run_settle, StateMachines.run_nil. Qed.

Lemma ended_run m e c now d d' :
  from_start d -> moment now -> ended m e c now d d' ->
  (NodeDeliveries.id d' = NodeDeliveries.id d /\ runs_to d d') /\ from_start d'.
Proof.
  intros Fs Mo. unfold ended. destruct (open_work m d) eqn:O.
  - intros [n ->]. unfold open_work in O. bool_hyps.
    assert (R : runs_to d (settle_if_open e now (cancel_delivery (cause_cancellation c) now d))).
    { exists ([Cancel (DeliveryCancellationReason_name (cause_cancellation c)) (toISOString now)] ++ []).
      eapply run_trans; [by apply cancel_run|]. apply StateMachines.run_settle, StateMachines.run_nil. }
    apply (stamp_run n) in R. split; [split; [reflexivity|exact R]|].
    apply (from_start_runs d); [exact Fs|exact R|]. intros x E. discriminate E.
  - intros ->. split; [split; [done|apply runs_refl]|done].
Qed.

Lemma revoked_run ids reason now d d' :
  from_start d -> moment now -> revoked_row ids reason now d d' ->
  (NodeDeliveries.id d' = NodeDeliveries.id d /\ runs_to d d') /\ from_start d'.
Proof.
  intros Fs Mo. unfold revoked_row. destruct (open_in ids d) eqn:O.
  - intros [n ->]. unfold open_in in O. bool_hyps.
    assert (R : runs_to d (cancel_delivery reason now d)) by (eexists; by apply cancel_run).
    apply (stamp_run n) in R. split; [split; [reflexivity|exact R]|].
    apply (from_start_runs d); [exact Fs|exact R|]. intros x E. discriminate E.
  - intros ->. split; [split; [done|apply runs_refl]|done].
Qed.

Lemma new_row_initial n m e k v r d :
  new_row n m e k v r d -> machine_of d = initial_delivery 5 /\ from_start d.
Proof.
  intros [_ _ _ _ _ _ A B C D E F G].
  assert (M : machine_of d = initial_delivery 5) by (unfold machine_of; by rewrite A, B, C, D, E, F, G).
  split; [done|]. split; [rewrite M; exists []; apply StateMachines.run_nil|]. by rewrite F.
Qed.

Lemma follow_all (R : Row -> Row -> Prop) l l' :
  (forall d d', d ∈ l -> R d d' ->
     (NodeDeliveries.id d' = NodeDeliveries.id d /\ runs_to d d') /\ from_start d') ->
  Forall2 R l l' -> rows_follow l l' /\ forall d, d ∈ l' -> from_start d.
Proof.
  intros K F. split.
  - constructor. exists l', []. rewrite app_nil_r. split; [done|]. split; [|done].
    eapply Forall2_impl_elem; [exact F|]. intros d d' Hd Rd. by apply K.
  - intros d' Hd'. apply list_elem_of_lookup in Hd' as [i Hi].
    destruct (Forall2_lookup_r _ _ _ _ _ F Hi) as (d & Hd & Rd).
    by apply (K d d'); [apply list_elem_of_lookup_2 with i|].
Qed.

Lemma step_follows t t' :
  rows_from_start t -> ledger_step t t' ->
  rows_follow (nodeDeliveries t) (nodeDeliveries t') /\ rows_from_start t'.
Proof.
  intros I S. destruct S as [[_ (now & Mo & F)]|m ps [_ _ _ _ _ _ _ ->]|[_ -> _]
    |m row next [_ _ _ _ (at_ & st & created & Er & Fc & _ & _) _]|m row next cause now [_ Mo _ _ _ _ F]
    |ids reason [_ (now & Mo & F) _]|[_ Er _ _ _]].
  - eapply follow_all; [|exact F]. intros d d' Hd M. by apply (row_moved_run now); [apply I| |].
  - apply (follow_all eq); [|by apply Forall2_refl_on]. intros d ? Hd <-.
    split; [split; [done|apply runs_refl]|by apply I].
  - apply (follow_all eq); [|by apply Forall2_refl_on]. intros d ? Hd <-.
    split; [split; [done|apply runs_refl]|by apply I].
  - assert (K : rows_follow (nodeDeliveries t) (settled_rows m next (MissionEventRows.payload row)
                  (MissionEventRows.id row) at_ st (nodeDeliveries t)) /\
                forall d, d ∈ settled_rows m next (MissionEventRows.payload row)
                  (MissionEventRows.id row) at_ st (nodeDeliveries t) -> from_start d).
    { apply (follow_all (fun d d' => d' = d \/ exists e a n, d' = stamp n (settle_with e a d))).
      - intros d d' Hd [->|(e & a & n & ->)]; [split; [split; [done|apply runs_refl]|by apply I]|].
        pose proof (settle_run e a n d) as R. split; [by split|].
        eapply from_start_runs; [by apply I|exact R|]. by destruct (I d Hd).
      - unfold settled_rows. repeat case_match; try (apply Forall2_refl_on; by left).
        apply Forall2_fmap_r, Forall2_refl_on. intros d. cbn. case_match; eauto 6. }
    destruct K as [K1 K2]. unfold rows_from_start. rewrite Er.
    assert (N : Forall from_start created /\
                Forall (fun d => exists es, delivery_run (initial_delivery 5) es (machine_of d)) created).
    { clear -Fc. induction Fc as [|tg d l k (p & _ & _ & C) F [IH1 IH2]]; [done|].
      apply new_row_initial in C as [M C]. split; constructor; try done. apply C. }
    destruct N as [N1 N2]. split.
    + destruct K1 as [(k & n & E & F & Fn)]. constructor. exists k, (n ++ created).
      split; [by rewrite E, app_assoc|]. split; [done|]. by apply Forall_app.
    + intros d [Hd|Hd]%elem_of_app; [by apply K2|]. rewrite Forall_forall in N1. by apply N1.
  - eapply follow_all; [|exact F]. intros d d' Hd M. by eapply ended_run; [apply I| |].
  - eapply follow_all; [|exact F]. intros d d' Hd M. by eapply revoked_run; [apply I| |].
  - unfold rows_from_start. rewrite Er. apply (follow_all eq); [|by apply Forall2_refl_on].
    intros d ? Hd <-. split; [split; [done|apply runs_refl]|by apply I].
Qed.

Lemma rows_invariant : invariant rows_from_start.
Proof.
  split.
  - intros t (_ & _ & _ & Ed & _) d. rewrite Ed. by intros ?%not_elem_of_nil.
  - intros t t' _ I S. by apply step_follows in S as [_ ?].
  - intros t t' I _ _ _ Ed d. rewrite Ed. apply I.
Qed.

Lemma steps_follow t t' :
  rows_from_start t -> rtc ledger_step t t' -> rows_follow (nodeDeliveries t) (nodeDeliveries t').
Proof.
  intros I S. revert I. induction S as [t|t t1 t2 S1 S2 IH]; intros I.
  - constructor. exists (nodeDeliveries t), []. rewrite app_nil_r. split; [done|]. split; [|done].
    apply Forall2_refl_on. intros d. split; [done|apply runs_refl].
  - apply step_follows in S1 as [F I1]; [|done]. eapply rows_follow_trans; [exact F|by apply IH].
Qed.
End Machine.

(** C2: the ledger's deliveries obey the protocol's state machine.  The relay does
    not call [transitionDeliveryState]; yet in every reachable ledger each
    delivery row, read as a state of that machine, is one a run from the initial
    delivery (five attempts) leads to, and whatever a service call does, every row
    it finds is afterwards where some run of the machine leads from it, and the
    rows it adds are where a run from the initial delivery leads: leases are
    granted, renewed, given up and expired, fencing tokens issued and terminal
    statuses kept as [delivery_reachable_wf], [fencing_tokens_consecutive] and
    [delivery_runs_bounded] say. *)
Theorem rows_follow_machine `{Zod, RelayEnv, LedgerEnv, !LedgerLaws} s c :
  reachable_ledger s ->
  (forall d, d ∈ nodeDeliveries (ledger s) ->
     exists es, delivery_run (initial_delivery 5) es (machine_of d)) /\
  rows_follow (nodeDeliveries (ledger s)) (nodeDeliveries (ledger (perform c s))).
Proof.
  intros R. destruct (invariant_reachable _ _ rows_invariant R) as [K I]. split.
  - intros d Hd. by destruct (I d Hd).
  - apply steps_follow; [done|]. by apply perform_steps.
Qed.

#[local] Existing Instance example_zod.
#[local] Existing Instance ex_relay_env.
#[local] Existing Instance ex_ledger_env.

Lemma rows_follow_machine_witness :
  map NodeDeliveries.status (nodeDeliveries (ledger ex_verifying_ledger)) =
    [D_acknowledged; D_acknowledged; D_acknowledged; D_acknowledged; D_acknowledged; D_acknowledged;
     D_stored; D_stored] /\
  forall d, d ∈ nodeDeliveries (ledger ex_verifying_ledger) ->
    exists es, delivery_run (initial_delivery 5) es (machine_of d).
Proof.
  split; [by_vm|].
  exact (proj1 (rows_follow_machine ex_verifying_ledger (Reconcile ex_mission) ex_verifying_reachable)).
Defined.
