(* ===== verification/MissionWork.v ===== *)
(** * The work a Mission waits for

    Which deliveries a coordinator state calls for: the turn of the current
    participant, the acknowledgements of a pending revision, the verifications of
    a round.  An event takes the piece of work it answers out of that list, and
    the deliveries [deriveDeliveryTargets] adds are exactly what is missing. *)

From stdpp Require Import sorting.
From S2P Require Import Prelude JsLib Schemas.
From S2P Require Import MissionEvents MissionCoordinator MissionSteps MissionReach MissionContract.
From S2P Require Import MissionSchedule DeliveryOperations RelayStore.
From S2P Require Import LedgerStore MissionLedger MissionReconciliation.
From S2P Require Import DeliveryLedger DeliveryCompletion LedgerRules LedgerSteps.
Local Open Scope Z_scope.

(** The participant still has to acknowledge the revision. *)
Definition owes_acknowledgement (r : ContractRevision) (p : string) : bool :=
  negb (includes r.(rev_acknowledged_by_agent_ids) p).

(** The participant still has a command of the round to report. *)
Definition owes_verification (s : MissionCoordinatorState) (p : string) : bool :=
  negb (allParticipantCommandsRecorded (default [] (s.(required_verification_commands) !! p))
          (records_of p s.(verification_records))).

Definition work_item (kind : DeliveryKind) (version : Z) (round : option Z) (p : string)
    : DeliveryTarget :=
  {| tg_agentId := p; tg_kind := kind; tg_contractVersion := version; tg_verificationRound := round |}.

Definition expected_work (s : MissionCoordinatorState) : list DeliveryTarget :=
  match MissionEvents.status s with
  | M_active =>
      match s.(pending_revision), s.(current_participant_agent_id) with
      | Some r, _ => map (work_item K_contract_acknowledgement r.(rev_version) None)
                       (array_filter (owes_acknowledgement r) (missionParticipantIds s))
      | None, Some p => [work_item K_turn s.(contract_version) None p]
      | None, None => []
      end
  | M_verifying =>
      map (work_item K_verification s.(contract_version) (Some s.(verification_round)))
        (array_filter (owes_verification s) (missionParticipantIds s))
  | _ => []
  end.

(** A verification that ends its round settles every delivery of the round. *)
Definition ends_round (next : MissionCoordinatorState) (b : EventBody) : bool :=
  match b with
  | VerificationRecorded _ =>
      (MissionEvents.status next === M_active) || (MissionEvents.status next === M_failed)
  | _ => false
  end.

(** What an event does to the work: none was due; nothing is done yet; the round
    is over; or the actor's own piece of work is done. *)
Inductive work_done (s next : MissionCoordinatorState) (b : EventBody) : Prop :=
| wd_first :
    body_source b = None -> expected_work s = [] -> expected_work next = targets_of s next b ->
    work_done s next b
| wd_none :
    body_source b <> None -> shouldSettleSourceDelivery next b = false ->
    expected_work next = expected_work s -> targets_of s next b = [] -> work_done s next b
| wd_round v :
    b = VerificationRecorded v -> shouldSettleSourceDelivery next b = true ->
    ends_round next b = true ->
    (forall tg, tg ∈ expected_work s -> tg.(tg_kind) = K_verification /\
       tg.(tg_contractVersion) = v.(vr_contract_version) /\
       tg.(tg_verificationRound) = Some v.(vr_verification_round)) ->
    expected_work next = targets_of s next b -> work_done s next b
| wd_own p rest tg :
    fst <$> body_participant b = Some p -> shouldSettleSourceDelivery next b = true ->
    ends_round next b = false -> expected_work s ≡ₚ tg :: rest -> tg.(tg_agentId) = p ->
    (forall x, x ∈ rest -> x.(tg_agentId) <> p) ->
    expected_work next ≡ₚ rest ++ targets_of s next b -> work_done s next b.

(** ** Lemmas *)
#[local] Arguments records_of : simpl never.
#[local] Arguments some_failed : simpl never.
#[local] Arguments allParticipantCommandsRecorded : simpl never.

Lemma array_filter_map {A B} (f : A -> B) (p : B -> bool) l :
  array_filter p (map f l) = map f (array_filter (fun x => p (f x)) l).
Proof. induction l as [|x l IH]; cbn; [done|]. rewrite IH. by case_match. Qed.

Lemma array_filter_id {A} (p : A -> bool) l : (forall x, x ∈ l -> p x = true) -> array_filter p l = l.
Proof.
  induction l as [|x l IH]; intros K; cbn; [done|]. rewrite (K x) by left. f_equal. apply IH.
  intros y Hy. apply K. by right.
Qed.

Lemma array_filter_cons_perm {A} (P Q : A -> bool) ids p :
  NoDup ids -> p ∈ ids -> P p = true -> Q p = false -> (forall x, x ∈ ids -> x <> p -> Q x = P x) ->
  array_filter P ids ≡ₚ p :: array_filter Q ids.
Proof.
  induction 1 as [|x l Nx N IH]; intros Hp Pp Qp K; [by apply not_elem_of_nil in Hp|].
  apply elem_of_cons in Hp as [<-|Hp]; cbn.
  - rewrite Pp, Qp. f_equiv. erewrite array_filter_ext; [done|]. intros y Hy. symmetry.
    apply K; [by right|]. by intros ->.
  - assert (x <> p) as Nxp by (by intros ->). rewrite (K x) by (done || left).
    pose proof (IH Hp Pp Qp (fun y Hy => K y (list_elem_of_further _ _ _ Hy))) as I.
    destruct (P x); [|done]. rewrite I. apply Permutation_swap.
Qed.

Lemma targets_all_map s kind v r :
  targets_all s kind v r = map (work_item kind v r) (missionParticipantIds s).
Proof. unfold targets_all, missionParticipantIds, participant_ids. by rewrite map_map. Qed.

Section Work.
Context `{Zod}.
Implicit Types s : MissionCoordinatorState.

Lemma participants_nodup cfg s : reachable cfg s -> NoDup (missionParticipantIds s).
Proof.
  intros R. unfold missionParticipantIds. rewrite (reachable_manifest _ _ R).
  destruct (cfg_participants cfg (reachable_valid _ _ R)) as (p & q & -> & N & _).
  rewrite !NoDup_cons, list_elem_of_singleton, elem_of_nil. split_and!; [done|tauto|apply NoDup_nil_2].
Qed.

(** The work depends on the state's scheduling fields only. *)
Lemma expected_work_log s n l :
  expected_work (s <| sequence_no := n |> <| applied_events := l |>) = expected_work s.
Proof. done. Qed.
Lemma targets_of_log p s n l b :
  targets_of p (s <| sequence_no := n |> <| applied_events := l |>) b = targets_of p s b.
Proof. done. Qed.
Lemma should_settle_log s n l b :
  shouldSettleSourceDelivery (s <| sequence_no := n |> <| applied_events := l |>) b =
  shouldSettleSourceDelivery s b.
Proof. done. Qed.

Lemma work_done_log s r n l b :
  work_done s r b -> work_done s (r <| sequence_no := n |> <| applied_events := l |>) b.
Proof.
  intros [].
  - by eapply wd_first.
  - by eapply wd_none.
  - by eapply wd_round.
  - by eapply wd_own.
Qed.

Lemma commands_owed cfg s p :
  reachable cfg s -> p ∈ missionParticipantIds s ->
  exists cs, s.(required_verification_commands) !! p = Some cs /\ cs <> [].
Proof.
  intros R Hp. destruct (reachable_retains _ _ R) as [M Q]. unfold missionParticipantIds in Hp.
  rewrite M in Hp. destruct (cfg_commands cfg p (reachable_valid _ _ R) Hp) as (cs & E & _ & L).
  exists cs. rewrite Q. split; [done|]. intros ->. unfold len in L. cbn in L. lia.
Qed.

(** *** Turns *)
Lemma work_turn cfg s id mid e r :
  reachable cfg s -> core_step s id mid (TurnCompleted e) r -> work_done s r (TurnCompleted e).
Proof.
  intros R C. inversion C as [?|?|e' r' A Pe Cu Ve Li Te| | |]; subst.
  assert (W : expected_work s = [work_item K_turn s.(contract_version) None e.(tc_participant_agent_id)])
    by (unfold expected_work; by rewrite A, Pe, Cu).
  assert (S : forall n, n = [] ++ targets_of s (turn_limited r') (TurnCompleted e) ->
              expected_work (turn_limited r') = n -> work_done s (turn_limited r') (TurnCompleted e)).
  { intros n -> En. eapply (wd_own _ _ _ e.(tc_participant_agent_id) []
      (work_item K_turn s.(contract_version) None e.(tc_participant_agent_id))); try done.
    - by rewrite W.
    - by intros x ?%not_elem_of_nil.
    - by rewrite En. }
  eapply S; [reflexivity|]. clear S. cbn [app]. unfold turn_limited.
  destruct (_ && _) eqn:L.
  { unfold targets_of, expected_work. cbn. rewrite A. case_match; done. }
  destruct Te as [ty text arts m o D|rv D _ _ _ _ _ Na|ev D _ _|ev o D]; cbn in L |- *;
    unfold targets_of, expected_work; cbn; rewrite ?A, ?Pe, ?D; cbn; try done.
  - rewrite targets_all_map. cbn. f_equal. apply array_filter_id. intros p Hp.
    unfold owes_acknowledgement. rewrite Na. apply negb_true_iff, includes_false_iff. by apply not_elem_of_nil.
  - rewrite targets_all_map. cbn. f_equal. apply array_filter_id. intros p Hp.
    destruct (commands_owed cfg s p R Hp) as (cs & E & Ne). unfold owes_verification. cbn. rewrite E.
    cbn. destruct cs; done.
Qed.

(** *** Acknowledgements *)
Lemma work_ack cfg s id mid e r :
  reachable cfg s -> core_step s id mid (ContractAcknowledged e) r ->
  work_done s r (ContractAcknowledged e).
Proof.
  intros R C. pose proof (participants_nodup _ _ R) as N.
  inversion C as [?|?|?|e' rv A Pe Cu Hp _ Ve _ Na _ Ss|e' rv o A Pe Cu Hp _ Ve _ Na _ Ss Ot|?]; subst.
  - eapply (wd_own _ _ _ e.(ca_participant_agent_id)
      (map (work_item K_contract_acknowledgement rv.(rev_version) None)
         (array_filter (owes_acknowledgement (acknowledge rv e.(ca_participant_agent_id)))
            (missionParticipantIds s)))
      (work_item K_contract_acknowledgement rv.(rev_version) None e.(ca_participant_agent_id))); try done.
    + unfold expected_work. rewrite A, Pe. rewrite <-map_cons. apply Permutation_map.
      apply array_filter_cons_perm; try done; unfold owes_acknowledgement; cbn.
      * by apply negb_true_iff, includes_false_iff.
      * apply negb_false_iff, includes_iff, elem_of_app. right. left.
      * intros x _ Nx. f_equal. apply eq_true_iff_eq. rewrite !includes_iff, elem_of_app, list_elem_of_singleton.
        split; [intros [?|?]; [done|done]|by left].
    + intros x (y & -> & [Hy Oy]%elem_of_array_filter)%list_elem_of_fmap. cbn. intros ->.
      unfold owes_acknowledgement in Oy. cbn in Oy. bool_hyps. apply includes_false_iff in Oy.
      apply Oy, elem_of_app. right. left.
    + unfold expected_work, targets_of. cbn. rewrite A, Cu. cbn. by rewrite app_nil_r.
  - eapply (wd_own _ _ _ e.(ca_participant_agent_id) []
      (work_item K_contract_acknowledgement rv.(rev_version) None e.(ca_participant_agent_id))); try done.
    + unfold expected_work. rewrite A, Pe.
      change [work_item K_contract_acknowledgement (rev_version rv) None (ca_participant_agent_id e)] with
        (map (work_item K_contract_acknowledgement (rev_version rv) None)
           (ca_participant_agent_id e :: [])). apply Permutation_map.
      apply sameStringSet_iff in Ss as [_ Ss]. cbn in Ss.
      rewrite (array_filter_cons_perm _ (fun _ => false) _ e.(ca_participant_agent_id)); try done.
      * by rewrite array_filter_none.
      * unfold owes_acknowledgement. by apply negb_true_iff, includes_false_iff.
      * intros x Hx Nx. symmetry. unfold owes_acknowledgement. apply negb_false_iff, includes_iff.
        rewrite <-Ss in Hx. apply elem_of_app in Hx as [Hx|Hx]; [done|]. by apply list_elem_of_singleton in Hx.
    + by intros x ?%not_elem_of_nil.
    + unfold expected_work, targets_of. cbn. by rewrite A.
Qed.

(** *** Acceptance *)
Lemma work_accepted cfg s id mid e r :
  reachable cfg s -> core_step s id mid (ParticipantsAccepted e) r ->
  work_done s r (ParticipantsAccepted e).
Proof.
  intros R C. inversion C as [e' A Ap Ss Co| | | | |]; subst. apply wd_first; [done| |].
  - unfold expected_work. by rewrite A.
  - destruct (reachable_phase _ _ R) as [_ _ Pe Cu _ _|? A'|? A'|A'|A'|[A'|A']]; try congruence.
    unfold expected_work, targets_of. cbn. rewrite A, Pe. cbn.
    destruct (head (missionParticipantIds s)) as [p|]; done.
Qed.

(** *** Verifications *)
Lemma recorded_other p records r :
  r.(vrec_participant_agent_id) <> p ->
  records_of p (records ++ [r]) = records_of p records.
Proof. intros Np. rewrite records_of_snoc, bool_decide_false by done. by rewrite app_nil_r. Qed.

Section Verification.
Context (cfg : MissionCoordinatorConfig) (s : MissionCoordinatorState) (id : string)
  (e : VerificationRecordedEvent) (cs : list string).
Let p := e.(vr_participant_agent_id).
Let records := s.(verification_records) ++ [record_of id e].
Context (R : reachable cfg s) (A : MissionEvents.status s = M_verifying)
  (Ve : e.(vr_contract_version) = s.(contract_version))
  (Ro : e.(vr_verification_round) = s.(verification_round))
  (Ec : s.(required_verification_commands) !! p = Some cs)
  (Hc : e.(vr_evidence).(vev_command_id) ∈ cs) (Fr : fresh_evidence s p e.(vr_evidence)).

Lemma verifying_work :
  expected_work s = map (work_item K_verification s.(contract_version) (Some s.(verification_round)))
                      (array_filter (owes_verification s) (missionParticipantIds s)).
Proof using A. unfold expected_work. by rewrite A. Qed.

(** The actor still owed the command it reports. *)
Lemma actor_owes : owes_verification s p = true.
Proof using Ec Hc Fr.
  unfold owes_verification. rewrite Ec. cbn. apply negb_true_iff.
  destruct (allParticipantCommandsRecorded cs _) eqn:K; [|done]. exfalso.
  unfold allParticipantCommandsRecorded in K. rewrite every_iff in K.
  apply K, some_iff in Hc as (x & Hx & E). apply records_of_elem in Hx as [Hx Ex]. bool_hyps.
  by apply (proj2 Fr x Hx Ex).
Qed.

Lemma actor_participates : p ∈ missionParticipantIds s.
Proof using R Ec.
  unfold missionParticipantIds. destruct (reachable_retains _ _ R) as [M Q]. rewrite M.
  destruct (decide (p ∈ participant_ids (cfg_manifest cfg))) as [|N]; [done|].
  rewrite Q, (cfg_commands_absent cfg p (reachable_valid _ _ R) N) in Ec. done.
Qed.

(** The others owe after the event what they owed before. *)
Lemma others_owe q : q <> p ->
  owes_verification (s <| verification_records := records |>) q = owes_verification s q.
Proof using Type.
  intros Nq. unfold owes_verification. cbn. unfold records. rewrite recorded_other; [done|].
  cbn. fold p. congruence.
Qed.

Lemma own_work :
  owes_verification (s <| verification_records := records |>) p = false ->
  expected_work s ≡ₚ
    work_item K_verification s.(contract_version) (Some s.(verification_round)) p ::
    map (work_item K_verification s.(contract_version) (Some s.(verification_round)))
      (array_filter (owes_verification (s <| verification_records := records |>))
         (missionParticipantIds s)).
Proof using R A Ec Hc Fr.
  intros Op. rewrite verifying_work, <-map_cons. apply Permutation_map.
  apply array_filter_cons_perm; [by eapply participants_nodup|apply actor_participates|apply actor_owes|done|].
  intros q _ Nq. by apply others_owe.
Qed.

Lemma some_failed_false l x :
  some_failed l = false -> x ∈ l -> x.(vrec_evidence).(vev_outcome) = O_passed.
Proof.
  unfold some_failed. rewrite some_false_iff. intros K Hx. specialize (K x Hx). bool_hyps.
  by destruct (vev_outcome _).
Qed.

(** In the round's records, what the actor recorded without a failure has passed. *)
Lemma clean_passed c :
  some_failed (records_of p records) = false ->
  allParticipantCommandsRecorded cs (records_of p records) = true -> c ∈ cs ->
  some (fun record =>
    (record.(vrec_participant_agent_id) === p) &&
    (record.(vrec_contract_version) === e.(vr_contract_version)) &&
    (record.(vrec_verification_round) === e.(vr_verification_round)) &&
    (record.(vrec_evidence).(vev_command_id) === c) &&
    (record.(vrec_evidence).(vev_outcome) === O_passed)) records = true.
Proof using R A Ve Ro.
  intros Cl Al Hx. unfold allParticipantCommandsRecorded in Al. rewrite every_iff in Al.
  apply Al, some_iff in Hx as (x & Hx & E). pose proof (some_failed_false _ _ Cl Hx) as Eo.
  apply records_of_elem in Hx as [Hx Ex]. bool_hyps. apply some_iff. exists x. split; [done|].
  assert (K : x.(vrec_contract_version) = e.(vr_contract_version) /\
              x.(vrec_verification_round) = e.(vr_verification_round)).
  { unfold records in Hx. apply elem_of_app in Hx as [Hx| ->%list_elem_of_singleton]; [|done].
    destruct (reachable_phase _ _ R) as [A'|? A'|? A'|_ _ _ _ Ok _|A'|[A'|A']]; try congruence.
    rewrite Ve, Ro. by apply (records_current _ _ _ Ok). }
  destruct K as [K1 K2]. by rewrite Ex, E, Eo, K1, K2, !bool_decide_true.
Qed.

Lemma work_verification r :
  r = verification_outcome s p cs records -> s.(pending_revision) = None ->
  s.(current_participant_agent_id) = None -> work_done s r (VerificationRecorded e).
Proof using R A Ve Ro Ec Hc Fr.
  intros -> Pe Cu. unfold verification_outcome.
  assert (Ow : forall b, allParticipantCommandsRecorded cs (records_of p records) = b ->
               owes_verification (s <| verification_records := records |>) p = negb b).
  { intros b Eb. unfold owes_verification. cbn. rewrite Ec. cbn. by rewrite Eb. }
  destruct (allParticipantCommandsRecorded cs _) eqn:Al; cbn [negb].
  2:{ apply wd_none; [done| | |].
      - unfold shouldSettleSourceDelivery. cbn. rewrite A. cbn.
        destruct (vev_outcome _ === O_failed) eqn:Ef; [done|]. fold p. rewrite Ec. cbn.
        destruct (every _ cs) eqn:Ev; [|done]. exfalso.
        assert (K : allParticipantCommandsRecorded cs (records_of p records) = true); [|congruence].
        apply every_iff. intros c Hcc. rewrite every_iff in Ev. apply Ev, some_iff in Hcc as (x & Hx & E).
        bool_hyps. apply some_iff. exists x. split; [|by apply bool_decide_eq_true].
        by apply records_of_elem.
      - rewrite verifying_work. unfold expected_work. cbn. rewrite A. f_equal.
        apply array_filter_ext. intros q _. destruct (decide (q = p)) as [->|Nq]; [|by apply others_owe].
        by rewrite actor_owes, (Ow false).
      - unfold targets_of. cbn. rewrite A, Cu. done. }
  destruct (some_failed _) eqn:Cl.
  { assert (Rd : forall next, ends_round next (VerificationRecorded e) = true ->
                 expected_work next = targets_of s next (VerificationRecorded e) ->
                 work_done s next (VerificationRecorded e)).
    { intros next En Ew. apply (wd_round _ _ _ e); try done.
      - unfold shouldSettleSourceDelivery. unfold ends_round in En.
        destruct (MissionEvents.status next) eqn:Es; cbn in En; try done.
      - rewrite verifying_work. intros tg (q & -> & _)%list_elem_of_fmap. by rewrite Ve, Ro. }
    case_match; apply Rd; try done; unfold expected_work, targets_of; cbn; rewrite ?A, ?Pe; done. }
  assert (Op : owes_verification (s <| verification_records := records |>) p = false) by by rewrite (Ow true).
  assert (Ev : forall next, next.(verification_records) = records ->
      next.(required_verification_commands) = s.(required_verification_commands) ->
      ends_round next (VerificationRecorded e) = false ->
      shouldSettleSourceDelivery next (VerificationRecorded e) = true).
  { intros next Er Eq En. unfold shouldSettleSourceDelivery. case_match; [done|].
    assert (vev_outcome (vr_evidence e) = O_passed) as ->.
    { apply (some_failed_false (records_of p records) (record_of id e)); [done|].
      apply records_of_elem. split; [|done]. apply elem_of_app. right. left. }
    cbn. rewrite Eq, Er. fold p. rewrite Ec. cbn. apply every_iff. intros c Hcc. by apply clean_passed. }
  destruct (allRequiredCommandsPassed s records) eqn:Pa; cbn [negb].
  - apply (wd_own _ _ _ p [] (work_item K_verification s.(contract_version) (Some s.(verification_round)) p));
      try done; [|by intros x ?%not_elem_of_nil|unfold expected_work, targets_of; cbn; by rewrite A, Cu].
    rewrite own_work by done. f_equiv. rewrite array_filter_none; [done|]. intros q Hq.
    unfold owes_verification. cbn. destruct (commands_owed cfg s q R Hq) as (cq & Eq & _). rewrite Eq. cbn.
    apply negb_false_iff. by apply (passed_all_recorded s).
  - apply (wd_own _ _ _ p
      (map (work_item K_verification s.(contract_version) (Some s.(verification_round)))
         (array_filter (owes_verification (s <| verification_records := records |>))
            (missionParticipantIds s)))
      (work_item K_verification s.(contract_version) (Some s.(verification_round)) p)); try done.
    + apply Ev; try done. cbn. by rewrite A.
    + cbn. by rewrite A.
    + by apply own_work.
    + intros x (q & -> & [Hq Oq]%elem_of_array_filter)%list_elem_of_fmap. cbn. intros Eqp. by rewrite Eqp, Op in Oq.
    + unfold expected_work, targets_of. cbn. rewrite A, Cu. cbn. by rewrite app_nil_r.
Qed.
End Verification.

(** Every event of the log but the relay's own accounts for the work. *)
Lemma step_work cfg s e next :
  reachable cfg s -> coordinator_step s e next -> body_tag (body e) <> ET_mission_terminal ->
  work_done s next (body e).
Proof.
  intros R [r _ _ _ _ _ _ C] Nt. apply work_done_log. destruct (body e) as [a|t|c|v|x].
  - by eapply work_accepted.
  - by eapply work_turn.
  - by eapply work_ack.
  - inversion C as [?|?|?|?|?|v' cs A Pe Cu Ve Ro Ec Hc Fr Al]; subst. by eapply work_verification.
  - done.
Qed.

(** A live Mission waits for somebody. *)
Lemma live_work cfg s :
  reachable cfg s -> is_live (MissionEvents.status s) = true -> exists tg, tg ∈ expected_work s.
Proof.
  intros R L. assert (T : isTerminal s.(MissionEvents.status) = false) by (by destruct (MissionEvents.status s)).
  pose proof (waits_for_someone cfg s R T) as (p & Hp & W).
  destruct (reachable_retains _ _ R) as [M _]. assert (Hp' : p ∈ missionParticipantIds s) by (unfold missionParticipantIds; by rewrite M).
  unfold expected_work.
  destruct (reachable_phase _ _ R) as [A|q A _ Pe Cu|r A _ Pe _ Cu|A Pe Cu|A|[A|A]]; rewrite A in *; try done;
    destruct W as [W|[W|[(r' & W & No)|[W (cs & c & Ec & Hc & No)]]]]; try done; try congruence.
  - rewrite Pe, Cu. eexists. left.
  - rewrite Pe. rewrite Pe in W. injection W as <-. eexists. apply list_elem_of_fmap_2, elem_of_array_filter.
    split; [exact Hp'|]. by apply negb_true_iff, includes_false_iff.
  - eexists. apply list_elem_of_fmap_2, elem_of_array_filter. split; [exact Hp'|].
    unfold owes_verification. destruct (reachable_retains _ _ R) as [_ ->]. rewrite Ec. cbn.
    apply negb_true_iff. destruct (allParticipantCommandsRecorded cs _) eqn:K; [|done]. exfalso.
    unfold allParticipantCommandsRecorded in K. rewrite every_iff in K. apply K, some_iff in Hc as (x & Hx & E).
    apply records_of_elem in Hx as [Hx Ex]. bool_hyps. apply (No x Hx). unfold record_key. by rewrite Ex, E.
Qed.
End Work.
