(* ===== verification/LedgerWork.v ===== *)
(** * Every live Mission's work is stored

    The deliveries of a Mission that nothing has settled are exactly the work its
    coordinator state waits for ([MissionWork]): one row for each expected piece
    of work, on the Node of the participant that owes it.  A Mission that has
    ended has none left, except the dead letters that ended it. *)

From stdpp Require Import sorting.
From S2P Require Import Prelude JsLib Schemas.
From S2P Require Import MissionEvents MissionCoordinator MissionExample MissionSteps MissionReach.
From S2P Require Import DeliveryOperations RelayStore.
From S2P Require Import LedgerStore MissionLedger MissionReconciliation.
From S2P Require Import DeliveryLedger DeliveryCompletion DeliveryRevocation LedgerExample.
From S2P Require Import LedgerRules.
From S2P Require Import LedgerSteps LedgerAppend LedgerTerminal LedgerMoves LedgerCompletion.
From S2P Require Import LedgerCompletion LedgerCalls LedgerRefine LedgerProjection MissionWork.
Local Open Scope Z_scope.

(** The Mission's unsettled deliveries. *)
Definition open_for (id : string) (d : Row) : bool :=
  (NodeDeliveries.missionId d === id) && is_null (NodeDeliveries.settledByEventId d).
Definition open_rows (id : string) (t : LedgerTables) : list Row :=
  array_filter (open_for id) (nodeDeliveries t).

(** The agent that takes part in the Mission on the Node. *)
Definition on_node (id node : string) (k : string * string * string) : bool :=
  (k.1.1 === id) && (k.2 === node).
Definition keys_of (t : LedgerTables) : list (string * string * string) :=
  map participant_key (missionParticipants t).
Definition agent_on (id node : string) (t : LedgerTables) : option string :=
  (fun k => k.1.2) <$> array_find (on_node id node) (keys_of t).

(** The piece of work a delivery asks for. *)
Definition target_of (t : LedgerTables) (d : Row) : option DeliveryTarget :=
  work_item (NodeDeliveries.kind d) (NodeDeliveries.contractVersion d)
    (NodeDeliveries.verificationRound d) <$>
  agent_on (NodeDeliveries.missionId d) (NodeDeliveries.nodeId d) t.
Definition stored_work (id : string) (t : LedgerTables) : list (option DeliveryTarget) :=
  map (target_of t) (open_rows id t).

Definition has_failed (status : MissionStatus) : bool :=
  (status === M_expired) || (status === M_failed).

(** A delivery that nothing settles any more: a dead letter, or one a revocation
    cancelled. *)
Definition abandoned (d : Row) : bool :=
  (NodeDeliveries.status d === D_dead_lettered) ||
  ((NodeDeliveries.status d === D_cancelled) &&
   match NodeDeliveries.cancellationReason d with
   | Some reason => revocation_reason reason | None => false end).

(** The Mission's deliveries against its state. *)
Definition accounted (t : LedgerTables) (m : Missions.Mission) : Prop :=
  let state := Missions.state m in
  if has_failed (MissionEvents.status state)
  then Forall (fun d => abandoned d = true) (open_rows (Missions.id m) t)
  else stored_work (Missions.id m) t ≡ₚ map Some (expected_work state).

Record work_ok `{Zod} (t : LedgerTables) : Prop := {
  wo_missions : missions_ok t;
  wo_each : forall m, m ∈ missions t -> accounted t m;
  wo_nodes : NoDup (map (fun k => (k.1.1, k.2)) (keys_of t));
  wo_keys : forall k, k ∈ keys_of t -> k.1.1 ∈ map Missions.id (missions t);
  wo_rows : forall d, d ∈ nodeDeliveries t ->
    NodeDeliveries.missionId d ∈ map Missions.id (missions t);
  wo_status : forall d, d ∈ nodeDeliveries t -> NodeDeliveries.settledByEventId d = None ->
    open_status (NodeDeliveries.status d) || abandoned d = true
}.

(** ** Lemmas *)
Lemma Forall2_filter {A B} (R S : A -> B -> Prop) (p : A -> bool) (q : B -> bool) l k :
  Forall2 R l k -> (forall x y, R x y -> q y = p x) ->
  (forall x y, R x y -> p x = true -> S x y) -> Forall2 S (array_filter p l) (array_filter q k).
Proof.
  intros F K L. induction F as [|x y l k Rxy F IH]; cbn; [done|]. rewrite (K x y Rxy).
  destruct (p x) eqn:E; [|done]. constructor; [by apply L|done].
Qed.

Lemma filter_settled {A} (open p : A -> bool) (g : A -> A) l :
  (forall x, p x = true -> open (g x) = false) ->
  array_filter open (map (fun x => if p x then g x else x) l) =
  array_filter (fun x => open x && negb (p x)) l.
Proof.
  intros K. induction l as [|x l IH]; cbn; [done|]. destruct (p x) eqn:E; cbn.
  - by rewrite (K x E), andb_false_r.
  - rewrite andb_true_r. destruct (open x); [by f_equal|done].
Qed.

Lemma open_for_mission id d : open_for id d = true -> NodeDeliveries.missionId d = id.
Proof. unfold open_for. intros E. by bool_hyps. Qed.
Lemma open_for_unsettled id d : open_for id d = true -> NodeDeliveries.settledByEventId d = None.
Proof. unfold open_for. intros E. by bool_hyps. Qed.

Lemma routing_open id d d' : routing d' = routing d -> open_for id d' = open_for id d.
Proof. unfold open_for. intros [= _ _ -> _ _ _ ->]. done. Qed.
Lemma routing_target t t' d d' :
  keys_of t' = keys_of t -> routing d' = routing d -> target_of t' d' = target_of t d.
Proof. unfold target_of, agent_on. intros -> [= _ -> -> -> -> -> _]. done. Qed.

(** A row that routes as before and, once abandoned, stays so. *)
Definition kept (d d' : Row) : Prop :=
  routing d' = routing d /\ (abandoned d = true -> abandoned d' = true).

Lemma abandoned_closed d : abandoned d = true -> open_status (NodeDeliveries.status d) = false.
Proof. unfold abandoned. by destruct (NodeDeliveries.status d). Qed.
Lemma open_not_abandoned d : open_status (NodeDeliveries.status d) = true -> abandoned d = false.
Proof. unfold abandoned. by destruct (NodeDeliveries.status d). Qed.
Lemma leased_open d x : leased_until d x -> open_status (NodeDeliveries.status d) = true.
Proof. intros [N _]. by destruct (NodeDeliveries.status d). Qed.

Lemma kept_refl l : Forall2 kept l l.
Proof. induction l; by constructor. Qed.

Lemma Forall2_work t t' l l' :
  Forall2 kept l l' -> (forall d, d ∈ l -> forall d', routing d' = routing d ->
    target_of t' d' = target_of t d) -> map (target_of t') l' = map (target_of t) l.
Proof.
  induction 1 as [|d d' l l' [R _] F IH]; intros K; cbn; [done|]. f_equal.
  - by apply K; [left|].
  - apply IH. intros x Hx. apply K. by right.
Qed.

Lemma accounted_kept t t' m :
  Forall2 kept (open_rows (Missions.id m) t) (open_rows (Missions.id m) t') ->
  (forall d, d ∈ open_rows (Missions.id m) t -> forall d', routing d' = routing d ->
     target_of t' d' = target_of t d) ->
  accounted t m -> accounted t' m.
Proof.
  intros F K. unfold accounted. cbv zeta. case_match.
  - intros D. clear K. induction F as [|d d' l l' [_ Ds] F IH]; [done|].
    apply Forall_cons in D as [Dd D]. apply Forall_cons. split; [by apply Ds|by apply IH].
  - unfold stored_work. by rewrite (Forall2_work t t' _ _ F K).
Qed.

(** Unique Nodes make the agent of a participant the one found on its Node. *)
Lemma agent_on_participant t p :
  NoDup (map (fun k => (k.1.1, k.2)) (keys_of t)) -> p ∈ missionParticipants t ->
  agent_on (MissionParticipants.missionId p) (MissionParticipants.nodeId p) t =
  Some (MissionParticipants.agentId p).
Proof.
  intros N Hp. unfold agent_on. pose proof (list_elem_of_fmap_2 participant_key _ _ Hp) as Hk.
  change (participant_key <$> missionParticipants t) with (keys_of t) in Hk.
  destruct (array_find _ _) as [k|] eqn:F.
  - apply array_find_Some in F as [Hk' F]. unfold on_node in F. bool_hyps.
    assert (k = participant_key p) as -> by (apply (NoDup_map_eq _ _ _ _ N Hk' Hk); cbn; congruence).
    done.
  - rewrite array_find_None in F. specialize (F _ Hk). unfold on_node, participant_key in F. cbn in F.
    by rewrite !bool_decide_true in F.
Qed.

Lemma target_on t d p kind version round :
  NoDup (map (fun k => (k.1.1, k.2)) (keys_of t)) -> p ∈ missionParticipants t ->
  MissionParticipants.missionId p = NodeDeliveries.missionId d ->
  MissionParticipants.nodeId p = NodeDeliveries.nodeId d ->
  NodeDeliveries.kind d = kind -> NodeDeliveries.contractVersion d = version ->
  NodeDeliveries.verificationRound d = round ->
  target_of t d = Some (work_item kind version round (MissionParticipants.agentId p)).
Proof.
  intros N Hp Em En <- <- <-. unfold target_of. by rewrite <-Em, <-En, agent_on_participant.
Qed.

(** A Mission that expects nothing has no open row. *)
Lemma nothing_open t id : stored_work id t ≡ₚ [] -> open_rows id t = [].
Proof. intros E%Permutation_nil_r. unfold stored_work in E. by destruct (open_rows id t). Qed.

(** ** The steps *)
Section Steps.
Context `{Zod}.

(** The tables whose rows only moved. *)
Lemma row_moved_kept now d d' : row_moved now d d' -> kept d d'.
Proof.
  intros M. split; [by eapply row_moved_routing|]. destruct M as [->|(n & v & M & ->)]; [done|].
  intros E%abandoned_closed.
  destruct M as [? ? S|? L|? ? L|? ? ? L|? L|? L|? ? L|? O]; try apply leased_open in L;
    try rewrite S in E; done || congruence.
Qed.

Lemma row_moved_status now d d' :
  row_moved now d d' ->
  (NodeDeliveries.settledByEventId d = None ->
   open_status (NodeDeliveries.status d) || abandoned d = true) ->
  NodeDeliveries.settledByEventId d' = None ->
  open_status (NodeDeliveries.status d') || abandoned d' = true.
Proof.
  intros [->|(n & v & M & ->)] K; [done|]. intros U.
  destruct M as [| |? ? L _ _ _ Un|? dead|? ? ? Un|? ? ? Un|? ? ? _ _ Se|? ? Se]; cbn in U; try done.
  - change (open_status (NodeDeliveries.status d) || abandoned d = true). by apply K.
  - by destruct dead.
  - congruence.
  - congruence.
Qed.

Lemma moves_work t t' : moves_rows t t' -> work_ok t -> work_ok t'.
Proof.
  intros [[[Em Ep Ee] _ _] (now & _ & R)] [M W N K Rw St].
  assert (Ek : keys_of t' = keys_of t) by (unfold keys_of; by rewrite Ep).
  constructor; rewrite ?Ek, ?Em; try done.
  - by apply (missions_ok_same t).
  - intros m Hm. apply (accounted_kept t); [| |by apply W].
    + apply (Forall2_filter (row_moved now)); [exact R| |].
      * intros d d' Rd%row_moved_routing. by apply routing_open.
      * intros d d' Rd _. by eapply row_moved_kept.
    + intros d _ d' Rd. by apply routing_target.
  - intros d' Hd'. apply list_elem_of_lookup in Hd' as [i Hi].
    destruct (Forall2_lookup_r _ _ _ _ _ R Hi) as (d & Hd & Rd). apply row_moved_routing in Rd.
    injection Rd as _ _ -> _ _ _ _. apply Rw. by eapply list_elem_of_lookup_2.
  - intros d' Hd'. apply list_elem_of_lookup in Hd' as [i Hi].
    destruct (Forall2_lookup_r _ _ _ _ _ R Hi) as (d & Hd & Rd).
    apply (row_moved_status _ _ _ Rd), St. by eapply list_elem_of_lookup_2.
Qed.

(** A new Mission has no work yet; the others keep theirs. *)
Lemma agent_on_other id node t ps :
  (forall k, k ∈ map participant_key ps -> k.1.1 <> id) ->
  array_find (on_node id node) (keys_of t ++ map participant_key ps) =
  array_find (on_node id node) (keys_of t).
Proof.
  intros K. induction (keys_of t) as [|k ks IH]; cbn.
  - apply array_find_None. intros k Hk. unfold on_node. by rewrite bool_decide_false by by apply K.
  - destruct (on_node id node k); [done|exact IH].
Qed.

Lemma creates_work m ps t t' :
  missions_ok t' -> creates m ps t t' -> work_ok t -> work_ok t'.
Proof.
  intros M' [Fr _ _ Pj Own _ Nn ->] [M W N K Rw St].
  assert (Ek : keys_of (t <| missions := missions t ++ [m] |>
                          <| missionParticipants := missionParticipants t ++ ps |>) =
               keys_of t ++ map participant_key ps) by (unfold keys_of; cbn; apply map_app).
  rewrite Forall_forall in Own.
  assert (Kp : forall k, k ∈ map participant_key ps -> k.1.1 = Missions.id m).
  { intros k (p & -> & Hp)%list_elem_of_fmap. by apply Own. }
  constructor; rewrite ?Ek; cbn; try done.
  - intros x [Hx| ->%list_elem_of_singleton]%elem_of_app.
    + apply (accounted_kept t); [apply kept_refl| |by apply W]. intros d Hd d' Rd.
      rewrite <-(routing_target t t d d') by done. unfold target_of, agent_on. rewrite Ek, agent_on_other; [done|].
      intros k Hk%Kp. rewrite Hk. injection Rd as _ _ -> _ _ _ _.
      apply elem_of_array_filter in Hd as [Hd _]. intros Em. apply Fr. rewrite Em. by apply Rw.
    + destruct Pj as (Es & _). unfold accounted. rewrite Es. change (has_failed _) with false.
      unfold stored_work, open_rows. cbn [nodeDeliveries]. rewrite array_filter_none;
        [exact (perm_nil _)|]. intros d Hd.
      unfold open_for. rewrite bool_decide_false; [done|]. intros Em. apply Fr. rewrite <-Em. by apply Rw.
  - rewrite map_app. apply NoDup_app. split; [done|]. split.
    + intros x (k & -> & Hk)%list_elem_of_fmap (k' & E & Hk')%list_elem_of_fmap.
      apply Fr. rewrite <-(Kp k' Hk'). injection E as <- _. by apply K.
    + rewrite map_map. assert (E : map (fun p => ((participant_key p).1.1, (participant_key p).2)) ps =
        map (pair (Missions.id m)) (map MissionParticipants.nodeId ps)).
      { rewrite map_map. apply map_ext_in. intros p Hp%list_elem_of_In. cbn. by rewrite (Own p Hp). }
      rewrite E. by apply (NoDup_fmap_2 _).
  - intros k. rewrite map_app, !elem_of_app. intros [Hk|Hk]; [left; by apply K|right].
    rewrite (Kp k Hk). cbn. left.
  - intros d Hd. rewrite map_app, elem_of_app. left. by apply Rw.
Qed.

Lemma accepts_work t t' : accepts_one t t' -> work_ok t -> work_ok t'.
Proof.
  intros [Ek Et _] [M W N K Rw St].
  assert (Em : missions t' = missions t) by (rewrite Et; done).
  assert (Ee : missionEvents t' = missionEvents t) by (rewrite Et; done).
  assert (Ed : nodeDeliveries t' = nodeDeliveries t) by (rewrite Et; done). clear Et.
  change (keys_of t' = keys_of t) in Ek.
  constructor; rewrite ?Ek, ?Em, ?Ed; try done.
  - by apply (missions_ok_same t).
  - intros m Hm. apply (accounted_kept t); [|intros d _ d' Rd; by apply routing_target|by apply W].
    unfold open_rows. rewrite Ed. apply kept_refl.
Qed.

(** What an event's projection leaves of the missions. *)
Lemma logs_missions m row next t t' x :
  keys_ok t -> logs m row next t t' -> x ∈ missions t' ->
  (Missions.id x = Missions.id m /\ Missions.state x = next) \/
  (x ∈ missions t /\ Missions.id x <> Missions.id m).
Proof.
  intros K L. destruct (lg_missions _ _ _ _ _ L) as [now ->].
  intros (y & -> & Hy)%list_elem_of_fmap. case_bool_decide as E; [by left|by right].
Qed.

Lemma logs_keys_of m row next t t' : logs m row next t t' -> keys_of t' = keys_of t.
Proof. intros L. unfold keys_of. by rewrite (lg_participants _ _ _ _ _ L). Qed.

(** A row the terminal event reached, and one it did not. *)
Lemma ended_cases m e c now d d' :
  ended m e c now d d' ->
  (open_work m d = false /\ d' = d) \/
  (open_work m d = true /\ NodeDeliveries.missionId d' = NodeDeliveries.missionId d /\
   is_null (NodeDeliveries.settledByEventId d') = false).
Proof.
  unfold ended. destruct (open_work m d); [|by left]. intros [n ->]. by right.
Qed.

Lemma open_work_open m d :
  open_work m d = open_for m d && open_status (NodeDeliveries.status d).
Proof.
  unfold open_work, open_for. by rewrite <-andb_assoc, (andb_comm (open_status _)), andb_assoc.
Qed.

Lemma terminates_work m row next cause now t t' :
  keys_ok t -> missions_ok t' -> terminates m row next cause now t t' -> work_ok t -> work_ok t'.
Proof.
  intros Ko M' [L _ _ _ Eb _ R] [M W N K Rw St].
  pose proof (logs_keys_of _ _ _ _ _ L) as Ek. pose proof (logs_keys _ _ _ _ _ L) as Ei.
  pose proof (lg_mission _ _ _ _ _ L) as F. apply array_find_Some in F as [Hm _].
  pose proof (logs_step _ _ _ _ _ (ms_each _ M m Hm) L) as S.
  assert (Each : forall d', d' ∈ nodeDeliveries t' -> exists d, d ∈ nodeDeliveries t /\
            ended (Missions.id m) (MissionEventRows.id row) cause now d d').
  { intros d' Hd'. apply list_elem_of_lookup in Hd' as [i Hi].
    destruct (Forall2_lookup_r _ _ _ _ _ R Hi) as (d & Hd & Rd). exists d.
    split; [by eapply list_elem_of_lookup_2|done]. }
  constructor; rewrite ?Ek, ?Ei; try done.
  - intros x Hx. destruct (logs_missions _ _ _ _ _ _ Ko L Hx) as [[Ex Es]|[Hx' Nx]].
    + unfold accounted. rewrite Es, Ex. replace (has_failed _) with true.
      * apply Forall_forall. intros d' [Hd' Od']%elem_of_array_filter.
        destruct (Each d' Hd') as (d & Hd & [[C ->]|(_ & _ & C)]%ended_cases).
        -- rewrite open_work_open, Od' in C. cbn in C.
           pose proof (St d Hd (open_for_unsettled _ _ Od')) as Sd. rewrite C in Sd. exact Sd.
        -- unfold open_for in Od'. rewrite C, andb_false_r in Od'. done.
      * destruct S as [r _ _ _ _ _ _ C]. change (body (event_of_row row)) with (MissionEventRows.payload row) in C.
        rewrite Eb in C. inversion C; subst. by destruct (mt_terminal_status _ === TS_expired).
    + apply (accounted_kept t); [|intros d _ d' Rd; by apply routing_target|by apply W].
      apply (Forall2_filter _ _ _ _ _ _ R).
      * intros d d' [[_ ->]|(C & E & _)]%ended_cases; [done|]. rewrite open_work_open in C. bool_hyps.
        unfold open_for. rewrite E.
        match goal with O : open_for _ d = true |- _ => rewrite (open_for_mission _ _ O) end.
        by rewrite bool_decide_false by congruence.
      * intros d d' [[_ ->]|(C & _ & _)]%ended_cases Od; [done|]. rewrite open_work_open in C. bool_hyps.
        match goal with O : open_for (Missions.id m) d = true |- _ => apply open_for_mission in O end.
        apply open_for_mission in Od. congruence.
  - intros d' (d & Hd & [[_ ->]|(_ & -> & _)]%ended_cases)%Each; by apply Rw.
  - intros d' (d & Hd & [[_ ->]|(_ & _ & E)]%ended_cases)%Each U; [by apply St|].
    by rewrite U in E.
Qed.

(** *** Revocations and authorities *)
Lemma revoked_kept ids reason now d d' : revoked_row ids reason now d d' -> kept d d'.
Proof.
  intros R. split; [by eapply revoked_row_routing|]. intros A. revert R. unfold revoked_row, open_in.
  rewrite (abandoned_closed d A), andb_false_r. by intros ->.
Qed.

Lemma revokes_work ids reason t t' : revokes ids reason t t' -> work_ok t -> work_ok t'.
Proof.
  intros [[[Em Ep Ee] _ _] (now & _ & R) Rr] [M W N K Rw St].
  assert (Ek : keys_of t' = keys_of t) by (unfold keys_of; by rewrite Ep).
  assert (Each : forall d', d' ∈ nodeDeliveries t' -> exists d, d ∈ nodeDeliveries t /\
            revoked_row ids reason now d d').
  { intros d' Hd'. apply list_elem_of_lookup in Hd' as [i Hi].
    destruct (Forall2_lookup_r _ _ _ _ _ R Hi) as (d & Hd & Rd). exists d.
    split; [by eapply list_elem_of_lookup_2|done]. }
  constructor; rewrite ?Ek, ?Em; try done.
  - by apply (missions_ok_same t).
  - intros m Hm. apply (accounted_kept t); [| |by apply W].
    + apply (Forall2_filter _ _ _ _ _ _ R).
      * intros d d' Rd%revoked_row_routing. by apply routing_open.
      * intros d d' Rd _. by eapply revoked_kept.
    + intros d _ d' Rd. by apply routing_target.
  - intros d' (d & Hd & Rd%revoked_row_routing)%Each. injection Rd as _ _ -> _ _ _ _. by apply Rw.
  - intros d' (d & Hd & Rd)%Each. revert Rd. unfold revoked_row. destruct (open_in ids d).
    + intros [n ->] _. unfold abandoned. cbn -[revocation_reason]. by rewrite Rr.
    + intros ->. by apply St.
Qed.

Lemma same_work t t' :
  same_missions t t' -> nodeDeliveries t' = nodeDeliveries t -> work_ok t -> work_ok t'.
Proof.
  intros [Em Ep Ee] Ed [M W N K Rw St].
  assert (Ek : keys_of t' = keys_of t) by (unfold keys_of; by rewrite Ep).
  constructor; rewrite ?Ek, ?Em, ?Ed; try done.
  - by apply (missions_ok_same t).
  - intros m Hm. apply (accounted_kept t); [|intros d _ d' Rd; by apply routing_target|by apply W].
    unfold open_rows. rewrite Ed. apply kept_refl.
Qed.

(** *** An appended event *)

(** What the settlement leaves open. *)
Lemma settled_open m next b e at_ st rows id :
  array_filter (open_for id) (settled_rows m next b e at_ st rows) =
  array_filter (fun d => open_for id d &&
    negb match body_source b with
         | Some source => shouldSettleSourceDelivery next b && settled_by (Missions.id m) source next b d
         | None => false end) rows.
Proof.
  unfold settled_rows. destruct (body_source b) as [source|].
  2:{ apply array_filter_ext. intros d _. by rewrite andb_true_r. }
  destruct (shouldSettleSourceDelivery next b); cbn [andb].
  - apply (filter_settled (open_for id) _ (fun d => stamp st (settle_with e at_ d))). intros d _.
    unfold open_for. cbn. by rewrite andb_false_r.
  - apply array_filter_ext. intros d _. by rewrite andb_true_r.
Qed.

Lemma settled_by_mission id source next b d :
  settled_by id source next b d = true -> NodeDeliveries.missionId d = id.
Proof. unfold settled_by. intros E. by bool_hyps. Qed.

(** A settlement leaves the open rows of the other Missions alone. *)
Lemma settled_open_other m next b e at_ st rows id :
  id <> Missions.id m ->
  array_filter (open_for id) (settled_rows m next b e at_ st rows) = array_filter (open_for id) rows.
Proof.
  intros N. rewrite settled_open. apply array_filter_ext. intros d _.
  destruct (open_for id d) eqn:O; [|done]. apply open_for_mission in O. destruct (body_source b); [|done].
  destruct (settled_by _ _ _ _ d) eqn:S; [|by rewrite andb_false_r].
  apply settled_by_mission in S. congruence.
Qed.

Section Created.
Context (t : LedgerTables) (m : Missions.Mission) (eventId : string).
Context (N : NoDup (map (fun k => (k.1.1, k.2)) (keys_of t))).

(** The rows stored for the targets ask for exactly them. *)
Lemma created_targets tgs rows :
  Forall2 (created_for (Missions.id m) eventId (participants_of (Missions.id m) t)) tgs rows ->
  map (target_of t) rows = map Some tgs /\
  array_filter (open_for (Missions.id m)) rows = rows /\
  forall d, d ∈ rows -> NodeDeliveries.missionId d = Missions.id m /\
    NodeDeliveries.status d = D_stored.
Proof using N.
  induction 1 as [|tg d tgs rows (p & Hp & Ea & C) F (IH & Io & Id)].
  { split_and!; [done|done|]. by intros d ?%not_elem_of_nil. }
  unfold participants_of in Hp. apply elem_of_array_filter in Hp as [Hp Em]. bool_hyps.
  destruct C as [Cn Cm Ce Ck Cv Cr Cs _ _ _ _ _ Cse]. cbn.
  assert (O : open_for (Missions.id m) d = true)
    by (unfold open_for; by rewrite Cm, Cse, bool_decide_true).
  rewrite O. split_and!.
  - f_equal; [|exact IH]. rewrite (target_on t d p _ _ _ N Hp) by (done || congruence).
    rewrite Ea. by destruct tg.
  - by f_equal.
  - intros x [->|Hx]%elem_of_cons; [done|by apply Id].
Qed.
End Created.

Section Settled.
Context (t : LedgerTables) (m : Missions.Mission) (next : MissionCoordinatorState) (b : EventBody).
Let state := Missions.state m.
Let rest_open := array_filter (fun d => open_for (Missions.id m) d &&
  negb match body_source b with
       | Some source => shouldSettleSourceDelivery next b && settled_by (Missions.id m) source next b d
       | None => false end) (nodeDeliveries t).
Context (Kr : NoDup (row_ids t)) (N : NoDup (map (fun k => (k.1.1, k.2)) (keys_of t))).
Context (W : stored_work (Missions.id m) t ≡ₚ map Some (expected_work state)).
Context (An : forall source, body_source b = Some source -> exists d, answers m b t d).

(** Nothing settled: every open row stays. *)
Lemma none_settled :
  (forall source, body_source b = Some source -> shouldSettleSourceDelivery next b = false) ->
  rest_open = open_rows (Missions.id m) t.
Proof using Type.
  clear An W Kr N. intros K. apply array_filter_ext. intros d _. destruct (body_source b) as [source|] eqn:E.
  - by rewrite (K source), andb_true_r.
  - by rewrite andb_true_r.
Qed.

(** The row the event answers asks for the actor's own piece of work. *)
Lemma answered_target d tg rest p :
  answers m b t d -> fst <$> body_participant b = Some p ->
  expected_work state ≡ₚ tg :: rest -> (forall x, x ∈ rest -> x.(tg_agentId) <> p) ->
  open_for (Missions.id m) d = true /\ target_of t d = Some tg.
Proof using N W.
  clear An Kr. intros [Hd _ Em Eo _ _ (q & Hq & En & Ea) _] Ep Ex Nr. rewrite Ep in Ea. injection Ea as Ea.
  unfold participants_of in Hq. apply elem_of_array_filter in Hq as [Hq Eq]. bool_hyps.
  assert (O : open_for (Missions.id m) d = true) by (unfold open_for; by rewrite Em, Eo, bool_decide_true).
  split; [done|]. pose proof (target_on t d q _ _ _ N Hq ltac:(congruence) En eq_refl eq_refl eq_refl) as T.
  assert (I : target_of t d ∈ stored_work (Missions.id m) t).
  { apply list_elem_of_fmap_2, elem_of_array_filter. by split. }
  rewrite W, Ex, T in I. apply list_elem_of_fmap in I as (x & E & [->|Hx]%elem_of_cons); [by rewrite T|].
  injection E as <-. destruct (Nr _ Hx). done.
Qed.

(** An event that settles its own delivery takes that piece of work out. *)
Lemma own_settled p tg rest source :
  body_source b = Some source -> shouldSettleSourceDelivery next b = true -> ends_round next b = false ->
  fst <$> body_participant b = Some p -> expected_work state ≡ₚ tg :: rest ->
  (forall x, x ∈ rest -> x.(tg_agentId) <> p) ->
  map (target_of t) rest_open ≡ₚ map Some rest.
Proof using Kr N W An.
  intros Es Sh En Ep Ex Nr. destruct (An _ Es) as (d & A).
  destruct (answered_target d tg rest p A Ep Ex Nr) as [O T].
  pose proof (an_row _ _ _ _ A) as Hd. pose proof (an_source _ _ _ _ A) as Eid.
  assert (P : open_rows (Missions.id m) t ≡ₚ d :: rest_open).
  { apply array_filter_cons_perm; [by eapply NoDup_fmap_1|done|done| |].
    - rewrite Es, Sh. unfold settled_by. rewrite (open_for_unsettled _ _ O), (open_for_mission _ _ O).
      rewrite (bool_decide_true (Missions.id m = _)) by done.
      assert (NodeDeliveries.id d = source) as -> by congruence. unfold ends_round in En.
      destruct b; rewrite ?En; cbn; by rewrite bool_decide_true, andb_false_r.
    - intros x Hx Nx. rewrite Es, Sh. cbn [andb].
      destruct (settled_by _ _ _ _ x) eqn:S; [|by rewrite andb_true_r]. exfalso. apply Nx.
      apply (NoDup_map_eq NodeDeliveries.id (nodeDeliveries t)); [exact Kr|done|done|].
      assert (NodeDeliveries.id x = source); [|congruence].
      unfold settled_by in S. unfold ends_round in En. destruct b; rewrite ?En in S; by bool_hyps. }
  unfold stored_work in W. rewrite P, Ex in W. cbn in W. rewrite T in W.
  by apply Permutation_cons_inv in W.
Qed.

(** A verification that ends its round settles every open row. *)
Lemma round_settled v source :
  b = VerificationRecorded v -> body_source b = Some source ->
  shouldSettleSourceDelivery next b = true -> ends_round next b = true ->
  (forall tg, tg ∈ expected_work state -> tg.(tg_kind) = K_verification /\
     tg.(tg_contractVersion) = v.(vr_contract_version) /\
     tg.(tg_verificationRound) = Some v.(vr_verification_round)) ->
  rest_open = [].
Proof using W.
  clear An N Kr. intros Eb Es Sh En K. apply array_filter_none. intros d Hd.
  destruct (open_for (Missions.id m) d) eqn:O; [|done]. cbn. rewrite Es, Sh.
  assert (I : target_of t d ∈ stored_work (Missions.id m) t).
  { apply list_elem_of_fmap_2, elem_of_array_filter. by split. }
  rewrite W in I. apply list_elem_of_fmap in I as (tg & E & Htg). apply K in Htg as (K1 & K2 & K3).
  unfold target_of in E. destruct (agent_on _ _ _) as [a|]; [|done]. injection E as E.
  rewrite <-E in K1, K2, K3. cbn in K1, K2, K3.
  unfold settled_by. rewrite (open_for_unsettled _ _ O), (open_for_mission _ _ O), Eb.
  unfold ends_round in En. rewrite Eb in En. rewrite En, K1, K2, K3. by rewrite !bool_decide_true.
Qed.
End Settled.

Lemma accounted_exact t x :
  stored_work (Missions.id x) t ≡ₚ map Some (expected_work (Missions.state x)) -> accounted t x.
Proof.
  intros P. unfold accounted. cbv zeta. destruct (has_failed _) eqn:E; [|done].
  assert (W : expected_work (Missions.state x) = []).
  { unfold expected_work. unfold has_failed in E. by destruct (MissionEvents.status _). }
  rewrite W in P. by rewrite nothing_open.
Qed.

Lemma stored_work_after t t' m next b e at_ st created tgs :
  keys_of t' = keys_of t -> map (target_of t) created = map Some tgs ->
  array_filter (open_for (Missions.id m)) created = created ->
  nodeDeliveries t' = settled_rows m next b e at_ st (nodeDeliveries t) ++ created ->
  stored_work (Missions.id m) t' =
  map (target_of t) (array_filter (fun d => open_for (Missions.id m) d &&
    negb match body_source b with
         | Some source => shouldSettleSourceDelivery next b && settled_by (Missions.id m) source next b d
         | None => false end) (nodeDeliveries t)) ++ map Some tgs.
Proof.
  intros Ek Et Io Er. unfold stored_work, open_rows. rewrite Er, array_filter_app, Io, settled_open.
  rewrite map_app, <-Et. f_equal; apply map_ext; intros d; by apply routing_target.
Qed.

(** The Mission of the event. *)
Lemma appended_work m row next t t' :
  keys_ok t -> work_ok t -> appends m row next t t' -> m ∈ missions t ->
  stored_work (Missions.id m) t' ≡ₚ map Some (expected_work next).
Proof.
  intros Ko [M W N _ _ _] [L Nt An _ (at_ & st & created & Er & C & _)] Hm.
  pose proof (logs_keys_of _ _ _ _ _ L) as Ek. pose proof (ms_each _ M m Hm) as Mo.
  pose proof (logs_step _ _ _ _ _ Mo L) as S.
  pose proof (step_work _ _ _ _ (state_reachable _ _ Mo) S Nt) as D.
  specialize (W m Hm). unfold accounted in W. replace (has_failed _) with false in W.
  2:{ destruct S as [r _ _ _ _ T]. unfold has_failed. by destruct (MissionEvents.status _). }
  destruct (created_targets _ _ _ N _ _ C) as (Et & Io & _). destruct Ko as [_ Kr].
  rewrite (stored_work_after t t' m next _ _ at_ st created _ Ek Et Io Er). clear Er Et Io C.
  change (body (event_of_row row)) with (MissionEventRows.payload row) in D.
  set (b := MissionEventRows.payload row) in *.
  destruct D as [Es E0 E1|_ Sh E1 E2|v Eb Sh En K E1|p rest tg Ep Sh En Ex Et Nr E1].
  - rewrite none_settled by (rewrite Es; done). fold (stored_work (Missions.id m) t).
    by rewrite W, E0, E1.
  - rewrite none_settled by done. fold (stored_work (Missions.id m) t). by rewrite W, E1, E2, app_nil_r.
  - assert (exists source, body_source b = Some source) as [source Es] by (rewrite Eb; eexists; done).
    by rewrite (round_settled t m next b W v source), E1.
  - assert (exists source, body_source b = Some source) as [source Es].
    { unfold body_source. destruct (body_participant b) as [[x y]|]; [by eexists|done]. }
    rewrite (own_settled t m next b Kr N W An p tg rest source) by done.
    by rewrite E1, map_app.
Qed.

Lemma appends_work m row next t t' :
  keys_ok t -> missions_ok t' -> appends m row next t t' -> work_ok t -> work_ok t'.
Proof.
  intros Ko M' A I. pose proof A as [L _ _ _ (at_ & st & created & Er & C & _)].
  pose proof I as [M W N K Rw St]. pose proof (logs_keys_of _ _ _ _ _ L) as Ek.
  pose proof (logs_keys _ _ _ _ _ L) as Ei. pose proof (lg_mission _ _ _ _ _ L) as F.
  apply array_find_Some in F as [Hm _]. destruct (created_targets _ _ _ N _ _ C) as (_ & _ & Cr).
  assert (Each : forall d', d' ∈ nodeDeliveries t' -> d' ∈ created \/ exists d, d ∈ nodeDeliveries t /\
            NodeDeliveries.missionId d' = NodeDeliveries.missionId d /\
            (d' = d \/ is_null (NodeDeliveries.settledByEventId d') = false)).
  { intros d'. rewrite Er, elem_of_app. intros [Hd'|Hd']; [right|by left]. unfold settled_rows in Hd'.
    destruct (body_source _) as [source|]; [|by exists d'; auto].
    destruct (shouldSettleSourceDelivery _ _); [|by exists d'; auto].
    apply list_elem_of_fmap in Hd' as (d & -> & Hd). exists d.
    destruct (settled_by _ _ _ _ d); auto. }
  constructor; rewrite ?Ek, ?Ei; try done.
  - intros x Hx. destruct (logs_missions _ _ _ _ _ _ Ko L Hx) as [[Ex Es]|[Hx' Nx]].
    + apply accounted_exact. rewrite Ex, Es. by eapply appended_work.
    + apply (accounted_kept t); [|intros d _ d' Rd; by apply routing_target|by apply W].
      unfold open_rows. rewrite Er, array_filter_app, settled_open_other by done.
      rewrite (array_filter_none _ created), app_nil_r; [apply kept_refl|]. intros d Hd. unfold open_for.
      destruct (Cr d Hd) as [-> _]. by rewrite bool_decide_false by congruence.
  - intros d' [Hd'|(d & Hd & -> & _)]%Each; [|by apply Rw]. destruct (Cr d' Hd') as [-> _].
    by apply list_elem_of_fmap_2.
  - intros d' [Hd'|(d & Hd & _ & [->|E])]%Each U; [|by apply St|by rewrite U in E].
    by destruct (Cr d' Hd') as [_ ->].
Qed.

Lemma work_invariant : invariant work_ok.
Proof.
  split.
  - intros t Fr. pose proof Fr as (Em & Ep & _ & Ed & _).
    constructor; unfold keys_of; rewrite ?Em, ?Ep, ?Ed; cbn.
    + by apply missions_invariant.
    + by intros m ?%not_elem_of_nil.
    + constructor.
    + by intros k ?%not_elem_of_nil.
    + by intros d ?%not_elem_of_nil.
    + by intros d ?%not_elem_of_nil.
  - intros t t' K I S. assert (M' : missions_ok t') by (eapply (iv_step _ missions_invariant); [done|apply I|done]).
    destruct S.
    + by eapply moves_work.
    + by eapply creates_work.
    + by eapply accepts_work.
    + by eapply appends_work.
    + by eapply terminates_work.
    + by eapply revokes_work.
    + by eapply same_work; [apply au_missions|apply au_rows|].
  - intros t t' I Em Ep Ee Ed. by apply (same_work t).
Qed.
End Steps.

(** C3: no Mission is ever left without its work.  In every ledger the services
    can reach, the unsettled deliveries of a Mission are, one for one, the work
    its coordinator state waits for: the turn of the current participant, the
    acknowledgements a pending revision still lacks, the verifications of the
    round that are not complete, each on the Node of the participant that owes
    it, with the contract version and the round the coordinator will ask for; a
    live Mission has at least one; and a Mission that expired or failed keeps
    none but dead letters and what a revocation had cancelled. *)
Theorem work_accounted `{Zod, RelayEnv, LedgerEnv, !LedgerLaws} s m :
  reachable_ledger s -> m ∈ missions (ledger s) ->
  accounted (ledger s) m /\
  (is_live (Missions.status m) = true -> exists d tg,
     d ∈ open_rows (Missions.id m) (ledger s) /\ tg ∈ expected_work (Missions.state m) /\
     target_of (ledger s) d = Some tg).
Proof.
  intros R Hm. destruct (invariant_reachable _ _ work_invariant R) as [_ [M W _ _ _ _]].
  split; [by apply W|]. intros Lv. pose proof (ms_each _ M m Hm) as Mo.
  destruct (mo_projected _ _ Mo) as (_ & Es & _). rewrite Es in Lv.
  destruct (live_work _ _ (state_reachable _ _ Mo) Lv) as [tg Htg].
  specialize (W m Hm). unfold accounted in W. replace (has_failed _) with false in W
    by (unfold has_failed; by destruct (MissionEvents.status _)).
  assert (I : Some tg ∈ stored_work (Missions.id m) (ledger s)).
  { rewrite W. by apply list_elem_of_fmap_2. }
  apply list_elem_of_fmap in I as (d & E & Hd). by exists d, tg.
Qed.

#[local] Existing Instance example_zod.
#[local] Existing Instance ex_relay_env.
#[local] Existing Instance ex_ledger_env.

Lemma work_accounted_witness :
  exists m, m ∈ missions (ledger ex_verifying_ledger) /\ Missions.status m = M_verifying /\
    length (open_rows (Missions.id m) (ledger ex_verifying_ledger)) = 2%nat /\
    accounted (ledger ex_verifying_ledger) m.
Proof.
  destruct (missions (ledger ex_verifying_ledger) !! 0%nat) as [m|] eqn:E.
  - exists m. pose proof (list_elem_of_lookup_2 _ _ _ E) as Hm. split; [exact Hm|].
    assert (S : ((fun m => (Missions.status m, length (open_rows (Missions.id m) (ledger ex_verifying_ledger)))) <$>
                 missions (ledger ex_verifying_ledger) !! 0%nat) = Some (M_verifying, 2%nat)) by by_vm.
    rewrite E in S. apply (inj Some) in S. apply pair_eq in S as [Es El]. split; [exact Es|]. split; [exact El|].
    exact (proj1 (work_accounted ex_verifying_ledger m ex_verifying_reachable Hm)).
  - exfalso. assert (L : length (missions (ledger ex_verifying_ledger)) = 1%nat) by by_vm.
    apply lookup_ge_None in E. lia.
Defined.
