(* ===== verification/LedgerRetry.v ===== *)
(** * A Node may repeat any operation

    The five operations of relay/src/services/delivery-ledger.ts, as one type: an
    operation that returned leaves a receipt under its idempotency key, and that
    receipt answers every later call with the key, whatever happened between. *)

From stdpp Require Import sorting.
From S2P Require Import Prelude JsLib Schemas IsoDates RelayStore.
From S2P Require Import MissionEvents MissionCoordinator MissionExample MissionReach.
From S2P Require Import DeliveryOperations LedgerStore MissionLedger.
From S2P Require Import MissionReconciliation DeliveryLedger DeliveryCompletion LedgerExample.
From S2P Require Import LedgerRules LedgerSteps LedgerAppend LedgerTerminal LedgerMoves.
From S2P Require Import LedgerCompletion LedgerCalls LedgerRefine LedgerProjection.
Local Open Scope Z_scope.

Inductive node_op :=
| OpClaim (deliveryId : string) (i : DeliveryClaimInput)
| OpStart (deliveryId : string) (i : LeaseOperationInput)
| OpRenew (deliveryId : string) (i : LeaseOperationInput)
| OpRelease (deliveryId : string) (i : DeliveryReleaseInput)
| OpComplete (deliveryId : string) (i : DeliveryCompleteInput).

Inductive node_result :=
| RClaim (r : DeliveryClaimResult)
| ROperation (r : DeliveryOperationResult)
| RComplete (r : DeliveryCompleteResult).

Definition run_op `{Zod, RelayEnv, LedgerEnv} (auth : NodeCredentialContext) (o : node_op)
    : LTx node_result :=
  match o with
  | OpClaim d i => r ← claimDelivery auth d i; mret (RClaim r)
  | OpStart d i => r ← startDelivery auth d i; mret (ROperation r)
  | OpRenew d i => r ← renewDelivery auth d i; mret (ROperation r)
  | OpRelease d i => r ← releaseDelivery auth d i; mret (ROperation r)
  | OpComplete d i => r ← completeDelivery auth d i; mret (RComplete r)
  end.

(** The same result, marked as replayed. *)
Definition replayed_result (r : node_result) : node_result :=
  match r with
  | RClaim r => RClaim (replayed_claim r)
  | ROperation r => ROperation (replayed_operation r)
  | RComplete r => RComplete (replayed_complete r)
  end.

Definition op_key (o : node_op) : string :=
  match o with
  | OpClaim _ i => i.(ci_idempotency_key)
  | OpStart _ i | OpRenew _ i => i.(li_idempotency_key)
  | OpRelease _ i => i.(ri_lease).(li_idempotency_key)
  | OpComplete _ i => i.(cmi_lease).(li_idempotency_key)
  end.

(** What identifies the operation in its receipt. *)
Definition op_recorded (o : node_op) : string * Receipts.Operation * Receipts.Input :=
  match o with
  | OpClaim d i => (d, Receipts.claim, claim_input d i)
  | OpStart d i => (d, Receipts.start, lease_input d i)
  | OpRenew d i => (d, Receipts.renew, lease_input d i)
  | OpRelease d i => (d, Receipts.release, release_input d i)
  | OpComplete d i => (d, Receipts.complete, complete_input d i)
  end.
Definition output_of (r : node_result) : Receipts.Output :=
  match r with
  | RClaim r => Receipts.ClaimOutput r
  | ROperation r => Receipts.OperationOutput r
  | RComplete r => Receipts.CompleteOutput r
  end.
Definition op_receipted (auth : NodeCredentialContext) (o : node_op) (r : node_result)
    (t : LedgerTables) : Prop :=
  let '(d, op, i) := op_recorded o in has_receipt auth.(auth_nodeId) d op (op_key o) i (output_of r) t.

(** Any calls, in any order, between which the rest of the database may change. *)
Inductive later_ledger `{Zod, RelayEnv, LedgerEnv} (s : Ledger) : Ledger -> Prop :=
| ll_refl : later_ledger s s
| ll_call c s1 : later_ledger s s1 -> later_ledger s (perform c s1)
| ll_outside s1 s2 :
    later_ledger s s1 -> missions (ledger s2) = missions (ledger s1) ->
    missionParticipants (ledger s2) = missionParticipants (ledger s1) ->
    missionEvents (ledger s2) = missionEvents (ledger s1) ->
    nodeDeliveries (ledger s2) = nodeDeliveries (ledger s1) ->
    receipts (ledger s2) = receipts (ledger s1) -> later_ledger s s2.

(** ** Lemmas *)
Lemma op_recorded_inj o o' : op_recorded o = op_recorded o' -> o = o'.
Proof.
  destruct o as [d [k]|d [k a]|d [k a]|d [[k a] r]|d [[k a] p]],
    o' as [d' [k']|d' [k' a']|d' [k' a']|d' [[k' a'] r']|d' [[k' a'] p']];
    cbn; try done; intros E; injection E; intros; by subst.
Qed.

Lemma output_of_inj r r' : output_of r = output_of r' -> r = r'.
Proof. destruct r, r'; cbn; congruence. Qed.

Section Retry.
Context `{Zod, RelayEnv, LedgerEnv, !LedgerLaws}.
Implicit Types s : Ledger.

Lemma op_receipted_mono auth o r t t' :
  adds_receipts t t' -> op_receipted auth o r t -> op_receipted auth o r t'.
Proof. unfold op_receipted. destruct (op_recorded o) as [[d op] i]. apply has_receipt_mono. Qed.

(** One receipt answers for a key. *)
Lemma op_receipted_unique auth auth' o o' r r' t :
  auth_nodeId auth = auth_nodeId auth' -> op_key o = op_key o' ->
  op_receipted auth o r t -> op_receipted auth' o' r' t -> o = o' /\ r = r'.
Proof.
  intros En Ek. unfold op_receipted. destruct (op_recorded o) as [[d op] i] eqn:Eo.
  destruct (op_recorded o') as [[d' op'] i'] eqn:Eo'. rewrite En, Ek.
  intros (row & F & [_ _ Rd Ro _ Ri Ru]) (row' & F' & [_ _ Rd' Ro' _ Ri' Ru']).
  assert (row' = row) as -> by congruence. split.
  - apply op_recorded_inj. congruence.
  - apply output_of_inj. congruence.
Qed.

(** What an operation that returns did: it may have reconciled its Mission, it
    left a receipt, and if the receipt was there before it did nothing else. *)
Definition op_effect (auth : NodeCredentialContext) (o : node_op) (s : Ledger) (r : node_result)
    (s' : Ledger) : Prop :=
  exists t1 r0, reconciled_only (ledger s) t1 /\ rtc ledger_step t1 (ledger s') /\
    replayed_result r = replayed_result r0 /\ op_receipted auth o r0 (ledger s') /\
    (op_receipted auth o r0 t1 -> r = replayed_result r0 /\ ledger s' = t1).

Lemma lease_effect auth o d op i mutate s r s' :
  keys_ok (ledger s) -> lease_mutation op (op_key o) mutate ->
  op_recorded o = (d, recorded_operation op, i) ->
  mutateLeaseDelivery auth d op (op_key o) i mutate s = (Ok r, s') ->
  op_effect auth o s (ROperation r) s'.
Proof.
  intros K M Eo E. apply run_locked_ok in E as (locked & s1 & s2 & St & Li & _ & O & L); [|apply K].
  pose proof (steps_keys _ _ (reconciled_steps _ _ St) K) as K1.
  apply lease_operation_ok in O as (_ & S & r0 & Er & Hr & Rp); [|done..].
  exists (ledger s1), (ROperation r0). unfold op_receipted. rewrite Eo, L. split_and!; try done.
  - cbn. by rewrite Er.
  - intros Hb. by destruct (Rp Hb) as [-> ->].
Qed.

Lemma run_op_ok auth o s r s' :
  keys_ok (ledger s) -> run_op auth o s = (Ok r, s') -> op_effect auth o s r s'.
Proof.
  intros K E. destruct o as [d i|d i|d i|d i|d i]; cbn [run_op] in E;
    apply lbind_ok in E as (x & s1 & R & E); ltx_atom E; apply lbind_ok in R as (u & s0 & P & R);
    (apply (quiet_ok _ _ _ _) in P; [|quiet]); rewrite <-P in K; unfold op_effect; rewrite <-P.
  - apply run_locked_ok in R as (locked & s2 & s3 & St & Li & _ & O & L); [|apply K].
    pose proof (steps_keys _ _ (reconciled_steps _ _ St) K) as K1.
    apply claim_operation_ok in O as (S & r0 & Er & Hr & Rp); [|done..].
    exists (ledger s2), (RClaim r0). cbn. rewrite Er, L. split_and!; try done.
    intros Hb. by destruct (Rp Hb) as [-> ->].
  - eapply (lease_effect auth (OpStart d i)); [done|apply start_mutation|done|exact R].
  - eapply (lease_effect auth (OpRenew d i)); [done|apply renew_mutation|done|exact R].
  - eapply (lease_effect auth (OpRelease d i)); [done|apply release_mutation|done|exact R].
  - apply run_locked_ok in R as (locked & s2 & s3 & St & Li & _ & O & L); [|apply K].
    pose proof (steps_keys _ _ (reconciled_steps _ _ St) K) as K1.
    apply complete_operation_ok in O as (S & r0 & Er & Hr & Rp); [|done..].
    exists (ledger s2), (RComplete r0). cbn. rewrite Er, L. split_and!; try done.
    intros Hb. by destruct (Rp Hb) as [-> ->].
Qed.

Lemma op_effect_steps auth o s r s' : op_effect auth o s r s' -> rtc ledger_step (ledger s) (ledger s').
Proof. intros (t1 & r0 & R & S & _). etrans; [by apply reconciled_steps|exact S]. Qed.

Lemma later_grows s s' :
  keys_ok (ledger s) -> later_ledger s s' ->
  keys_ok (ledger s') /\ adds_receipts (ledger s) (ledger s').
Proof.
  intros K L. induction L as [|c s1 L [K1 A1]|s1 s2 L [[Km Kr] A1] Em _ _ Ed Er].
  - by split; [|exists []; rewrite app_nil_r].
  - pose proof (perform_steps c s1 K1) as S. split; [by eapply steps_keys|].
    etrans; [exact A1|by apply steps_receipts].
  - split; [constructor; [by rewrite Em|unfold row_ids; by rewrite Ed]|]. destruct A1 as [l El]. exists l. by rewrite Er.
Qed.
End Retry.

(** C4: retries are exactly-once.  If a claim, start, renewal, release or
    completion returned, then whatever calls succeed or fail afterwards, in any
    order, and however credentials, Nodes, agents and blocks change between them,
    a later operation of the same Node under the same idempotency key that
    returns is the same operation with the same input; it returns the stored
    result, marked as replayed; and it changes nothing, except that its Mission
    may have been found due and ended.  Any other use of the key is refused. *)
Theorem operation_exactly_once `{Zod, RelayEnv, LedgerEnv, !LedgerLaws}
    auth o s1 r s2 s3 auth' o' r' s4 :
  reachable_ledger s1 -> run_op auth o s1 = (Ok r, s2) -> later_ledger s2 s3 ->
  auth_nodeId auth' = auth_nodeId auth -> op_key o' = op_key o ->
  run_op auth' o' s3 = (Ok r', s4) ->
  o' = o /\ r' = replayed_result r /\ reconciled_only (ledger s3) (ledger s4).
Proof.
  intros R E1 L En Ek E2. destruct (invariant_reachable _ _ missions_invariant R) as [K1 _].
  apply run_op_ok in E1; [|done].
  pose proof (steps_keys _ _ (op_effect_steps _ _ _ _ _ E1) K1) as K2.
  destruct (later_grows _ _ K2 L) as [K3 A]. apply run_op_ok in E2; [|done].
  destruct E1 as (t0 & r0 & _ & _ & Er & Hr & _), E2 as (t1 & r1 & St & S & Er' & Hr' & Rp).
  assert (H3 : op_receipted auth o r0 t1).
  { eapply op_receipted_mono; [by apply steps_receipts, reconciled_steps|].
    by eapply op_receipted_mono. }
  destruct (op_receipted_unique auth' auth o' o r1 r0 (ledger s4)) as [-> ->]; try done.
  { eapply op_receipted_mono; [by apply steps_receipts|done]. }
  destruct Rp as [-> ->]; [|by rewrite Er].
  revert H3. unfold op_receipted. by rewrite En.
Qed.

#[local] Existing Instance example_zod.
#[local] Existing Instance ex_relay_env.
#[local] Existing Instance ex_ledger_env.

(** A claim, the start it allows, and the claim again. *)
Definition ex_claimed_id : string := ex_open "a" ex_accepted_ledger.
Definition ex_claim_op : node_op := OpClaim ex_claimed_id (ex_claim "retry").
Definition ex_start_call (s : Ledger) : ledger_call :=
  Start (ex_auth "a") ex_claimed_id (ex_lease_input "retry-start" ex_claimed_id s).

Lemma ex_started_later s : later_ledger s (perform (ex_start_call s) s).
Proof. apply ll_call, ll_refl. Qed.

Lemma operation_exactly_once_witness :
  exists r s2 r' s4,
    run_op (ex_auth "a") ex_claim_op ex_accepted_ledger = (Ok r, s2) /\
    run_op (ex_auth "a") ex_claim_op (perform (ex_start_call s2) s2) = (Ok r', s4) /\
    NodeDeliveries.status <$> ex_row ex_claimed_id s4 = Some D_executing /\ r' = replayed_result r.
Proof.
  assert (V : match run_op (ex_auth "a") ex_claim_op ex_accepted_ledger with
              | (Ok _, s2) =>
                  match run_op (ex_auth "a") ex_claim_op (perform (ex_start_call s2) s2) with
                  | (Ok _, s4) => NodeDeliveries.status <$> ex_row ex_claimed_id s4 === Some D_executing
                  | _ => false end
              | _ => false end = true) by by_vm.
  destruct (run_op (ex_auth "a") ex_claim_op ex_accepted_ledger) as [[r|e] s2] eqn:E1; [|discriminate V].
  destruct (run_op (ex_auth "a") ex_claim_op (perform (ex_start_call s2) s2)) as [[r'|e] s4] eqn:E2;
    [|discriminate V].
  exists r, s2, r', s4. split; [reflexivity|]. split; [exact E2|].
  split; [exact (proj1 (bool_decide_eq_true _) V)|].
  exact (proj1 (proj2 (operation_exactly_once (ex_auth "a") ex_claim_op ex_accepted_ledger r s2
    (perform (ex_start_call s2) s2) (ex_auth "a") ex_claim_op r' s4 ex_accepted_reachable E1
    (ex_started_later s2) eq_refl eq_refl E2))).
Defined.
