(* ===== verification/LedgerService.v ===== *)
(** * What a call of the ledger does, and what a failing one may leave

    The services of the Mission and delivery ledgers against the step relation of
    [LedgerSteps]: the refinement theorem.  A call that throws rolls back, with
    one exception the code makes on purpose ([preserveReconciliation]): Missions
    that were found due have been ended. *)

From stdpp Require Import sorting.
From S2P Require Import Prelude JsLib Schemas IsoDates RelayStore.
From S2P Require Import MissionEvents MissionCoordinator MissionExample MissionReach.
From S2P Require Import DeliveryOperations LedgerStore MissionLedger.
From S2P Require Import MissionReconciliation DeliveryLedger DeliveryCompletion LedgerExample.
From S2P Require Import LedgerRules LedgerSteps LedgerAppend LedgerTerminal LedgerMoves.
From S2P Require Import NodeEnrollment AgentAccounts LedgerAuthority.
From S2P Require Import LedgerCompletion LedgerCalls LedgerRefine LedgerProjection.
Local Open Scope Z_scope.

(** What the call returns to its caller, without the value. *)
Definition outcome_of {A} (r : result Failure A) : result Failure unit :=
  match r with Ok _ => Ok tt | Err e => Err e end.
Definition call_outcome `{Zod, RelayEnv, LedgerEnv} (c : ledger_call) (s : Ledger)
    : result Failure unit :=
  match c with
  | CreateMission creator config r => outcome_of (createMissionLedger creator config r s).1
  | AcceptMission m a i r auth => outcome_of (acceptMissionParticipant m a i r auth s).1
  | AppendEvent m a i r => outcome_of (appendMissionEvent m a i r s).1
  | Reconcile m => outcome_of (reconcileMission m s).1
  | ListAvailable n p => outcome_of (listAvailableDeliveryEvents n p s).1
  | ListRecoverable n l => outcome_of (listRecoverableDeliveryEvents n l s).1
  | Claim a d i => outcome_of (claimDelivery a d i s).1
  | Start a d i => outcome_of (startDelivery a d i s).1
  | Renew a d i => outcome_of (renewDelivery a d i s).1
  | Release a d i => outcome_of (releaseDelivery a d i s).1
  | Complete a d i => outcome_of (completeDelivery a d i s).1
  | EnrollNode a i g r => outcome_of (enroll_with a i g r s).1
  | RotateCredential a n e g r => outcome_of (rotate_with a n e g r s).1
  | RevokeNode a n r => outcome_of (revokeNode a n r s).1
  | RegisterWorkspace auth i => outcome_of (registerWorkspace auth i s).1
  | RevokeWorkspace auth al => outcome_of (revokeWorkspace auth al s).1
  | CreateAgent i g => outcome_of (ledger_transaction (register_with i g) s).1
  | RotateAgentKeys a g now => outcome_of (rotate_keys_with a g now s).1
  | DisableAgent a r => outcome_of (disableAgent a r s).1
  | TouchKey k now => outcome_of (touch_key k now s).1
  | TouchCredential c => outcome_of (touch_credential c s).1
  | TouchNode n => outcome_of (touch_node n s).1
  end.

(** A Mission that was due has been ended. *)
Definition ends `{Zod} (t t' : LedgerTables) : Prop :=
  exists m row next cause now, terminates m row next cause now t t'.

Section Service.
Context `{Zod, RelayEnv, LedgerEnv, !LedgerLaws}.
Implicit Types s : Ledger.

Definition only_ends {A} (m : LTx A) : Prop := forall s r s',
  keys_ok (ledger s) -> m s = (r, s') -> rtc ends (ledger s) (ledger s').
Definition undone {A} (m : LTx A) : Prop := forall s e s',
  keys_ok (ledger s) -> m s = (Err e, s') -> rtc ends (ledger s) (ledger s').

Lemma ends_steps t t' : rtc ends t t' -> rtc ledger_step t t'.
Proof.
  induction 1 as [|t t1 t' (m & row & next & cause & now & T) _ IH]; [done|].
  eapply rtc_l; [by eapply step_terminal|done].
Qed.
Lemma reconciled_ends t t' : reconciled_only t t' -> rtc ends t t'.
Proof. intros [->|E]; [done|by apply rtc_once]. Qed.

Lemma only_ends_quiet {A} (m : LTx A) : quiet m -> only_ends m.
Proof. intros Q s r s' _ E. by rewrite (Q _ _ _ E). Qed.
Lemma only_ends_bind {A B} (m : LTx A) (k : A -> LTx B) :
  only_ends m -> (forall a, only_ends (k a)) -> only_ends (m ≫= k).
Proof.
  intros Om Ok s r s' K. unfold mbind, LTx_bind. destruct (m s) as [[a|e] s1] eqn:E.
  - intros R. pose proof (Om _ _ _ K E) as S. etrans; [exact S|].
    eapply Ok; [by eapply steps_keys; [apply ends_steps|]|done].
  - intros [= <- <-]. by eapply Om.
Qed.
Lemma only_ends_for_each {A B} (f : A -> LTx B) l :
  (forall x, only_ends (f x)) -> only_ends (for_each f l).
Proof.
  intros Q. induction l as [|x l IH]; cbn; [apply only_ends_quiet; quiet|].
  apply only_ends_bind; [done|]. intros y. apply only_ends_bind; [done|]. intros ys.
  apply only_ends_quiet. quiet.
Qed.
Lemma only_ends_undone {A} (m : LTx A) : only_ends m -> undone m.
Proof. intros O s e s' K E. by eapply O. Qed.

Lemma undone_bind {A B} (m : LTx A) (k : A -> LTx B) :
  only_ends m -> (forall a, undone (k a)) -> undone (m ≫= k).
Proof.
  intros Om Uk s e s' K. unfold mbind, LTx_bind. destruct (m s) as [[a|e'] s1] eqn:E.
  - intros R. pose proof (Om _ _ _ K E) as S. etrans; [exact S|].
    eapply Uk; [by eapply steps_keys; [apply ends_steps|]|done].
  - intros [= <- <-]. by eapply Om.
Qed.
Lemma undone_guard {A B} (m : LTx A) (k : A -> LTx B) :
  quiet m -> (forall a, undone (k a)) -> undone (m ≫= k).
Proof. intros Q. by apply undone_bind, only_ends_quiet. Qed.
Lemma undone_transaction {A} (body : LTx A) : undone (ledger_transaction body).
Proof. intros s e s' _ E. by rewrite (transaction_err _ _ _ _ E). Qed.
Lemma undone_locked {A} auth deliveryId (operation : LockedDeliveryResult -> LTx A) :
  (forall locked, lk_reconciledStatus locked <> None -> quiet (operation locked)) ->
  undone (runLockedDeliveryOperation auth deliveryId operation).
Proof.
  intros Q s e s' K E. apply run_locked_err in E as [->|(locked & s1 & s2 & e' & St & Nr & O & ->)];
    [done| |apply K].
  rewrite (Q _ Nr _ _ _ O). by apply reconciled_ends.
Qed.

(** ** The calls *)
Lemma reconcile_only_ends m : only_ends (reconcileMission m).
Proof.
  intros s r s' K E. destruct r as [a|e]; [|by rewrite (transaction_err _ _ _ _ E)].
  apply ledger_transaction_ok in E as (s1 & s2 & L & E & ->). rewrite <-L in *.
  apply reconcile_ok in E as [_ [(_ & -> & _)|(_ & m' & row & next & cause & _ & T)]]; [done| |apply K].
  apply rtc_once. by eexists _, _, _, _, _.
Qed.
Lemma reconcile_node_only_ends n : only_ends (reconcileNodeMissions n).
Proof.
  unfold reconcileNodeMissions. apply only_ends_bind; [apply only_ends_quiet; quiet|]. intros t.
  apply only_ends_bind; [apply only_ends_quiet; quiet|]. intros ids.
  apply only_ends_bind; [|intros; apply only_ends_quiet; quiet].
  apply only_ends_for_each, reconcile_only_ends.
Qed.
Lemma list_only_ends n p : only_ends (listAvailableDeliveryEvents n p).
Proof.
  unfold listAvailableDeliveryEvents. apply only_ends_bind; [apply reconcile_node_only_ends|].
  intros. apply only_ends_quiet. quiet.
Qed.
Lemma recover_only_ends n l : only_ends (listRecoverableDeliveryEvents n l).
Proof.
  unfold listRecoverableDeliveryEvents. apply only_ends_bind; [apply reconcile_node_only_ends|].
  intros. apply only_ends_quiet. quiet.
Qed.

Ltac undone_calls :=
  repeat first
    [ apply undone_transaction
    | apply undone_guard; [solve [quiet]|intros]
    | apply undone_locked; intros; first [by apply quiet_claim_start | by apply quiet_delivery_start
        | by apply quiet_complete_start] ].

Lemma create_undone c cf r : undone (createMissionLedger c cf r).
Proof. unfold createMissionLedger. cbv zeta. undone_calls. Qed.
Lemma accept_undone m a i r auth : undone (acceptMissionParticipant m a i r auth).
Proof. unfold acceptMissionParticipant. undone_calls. Qed.
Lemma append_undone m a i r : undone (appendMissionEvent m a i r).
Proof. unfold appendMissionEvent. undone_calls. Qed.
Lemma claim_undone a d i : undone (claimDelivery a d i).
Proof. unfold claimDelivery. undone_calls. Qed.
Lemma start_undone a d i : undone (startDelivery a d i).
Proof. unfold startDelivery, mutateLeaseDelivery. undone_calls. Qed.
Lemma renew_undone a d i : undone (renewDelivery a d i).
Proof. unfold renewDelivery, mutateLeaseDelivery. undone_calls. Qed.
Lemma release_undone a d i : undone (releaseDelivery a d i).
Proof. unfold releaseDelivery, mutateLeaseDelivery. undone_calls. Qed.
Lemma complete_undone a d i : undone (completeDelivery a d i).
Proof. unfold completeDelivery. undone_calls. Qed.

Lemma rotate_keys_undone a g now : undone (rotate_keys_with a g now).
Proof.
  intros s e s' K. unfold rotate_keys_with, mbind, LTx_bind.
  destruct (ledger_transaction _ s) as [[x|x] s1] eqn:E; [done|]. intros [= <- <-].
  by rewrite (transaction_err _ _ _ _ E).
Qed.
Lemma by_steps_undone {A} (m : LTx A) : advances_by_steps m -> undone m.
Proof. intros (body & -> & _). apply undone_transaction. Qed.
Lemma undone_statement {A} (m : LTx A) :
  (forall s e s', m s = (Err e, s') -> ledger s' = ledger s) -> undone m.
Proof. intros F s e s' _ E. by rewrite (F _ _ _ E). Qed.

Lemma outcome_err {A} (m : LTx A) s e :
  outcome_of (m s).1 = Err e -> exists s', m s = (Err e, s').
Proof. destruct (m s) as [[a|e'] s']; cbn; [done|]. intros [= ->]. by exists s'. Qed.

Lemma failed_undone c s e :
  keys_ok (ledger s) -> call_outcome c s = Err e -> rtc ends (ledger s) (ledger (perform c s)).
Proof.
  intros K. enough (forall A (m : LTx A), undone m -> outcome_of (m s).1 = Err e ->
    rtc ends (ledger s) (ledger (m s).2)) as X.
  { destruct c; apply X; clear X.
    all: try solve [auto using create_undone, accept_undone, append_undone, claim_undone,
      start_undone, renew_undone, release_undone, complete_undone, rotate_keys_undone].
    all: try solve [auto using only_ends_undone, reconcile_only_ends, list_only_ends,
      recover_only_ends].
    all: first [by apply undone_statement | apply by_steps_undone; auto using enroll_steps,
      rotate_steps, revoke_node_steps, register_steps, revoke_workspace_steps, create_agent_steps,
      disable_steps]. }
  intros A m U E. apply outcome_err in E as (s' & E). rewrite E. by eapply U.
Qed.
End Service.

(** C10: the services refine the ledger's step relation.  From every reachable
    ledger, a call of any of them (creating or accepting a Mission, appending an
    event, reconciling, listing, the five operations of a Node, enrolling,
    rotating and revoking Nodes and workspaces, disabling an agent) leads by
    steps of [ledger_step]: rows move as their leases allow, a Mission is stored
    once with its participants, an event is stored with its settlement, its
    deliveries and its projection at once, a due Mission ends with all its open
    work cancelled, or a revocation cancels the open work of the Missions it
    reaches.  A call that throws leaves the tables as they were, but
    for Missions that were due and have been ended. *)
Theorem ledger_service_refines `{Zod, RelayEnv, LedgerEnv, !LedgerLaws} s c :
  reachable_ledger s ->
  rtc ledger_step (ledger s) (ledger (perform c s)) /\
  (forall e, call_outcome c s = Err e -> rtc ends (ledger s) (ledger (perform c s))).
Proof.
  intros R. destruct (invariant_reachable _ _ missions_invariant R) as [K _].
  split; [by apply perform_steps|]. intros e. by apply failed_undone.
Qed.

#[local] Existing Instance example_zod.
#[local] Existing Instance ex_relay_env.
#[local] Existing Instance ex_ledger_env.

(** A claim of a delivery that is not there. *)
Definition ex_missing_claim : ledger_call := Claim (ex_auth "a") (ex_id "f") (ex_claim "none").

Lemma ledger_service_refines_witness :
  call_outcome ex_missing_claim ex_accepted_ledger =
    Err (Thrown (Relay {| code := delivery_not_found; message := "Delivery not found" |})) /\
  rtc ledger_step (ledger ex_accepted_ledger) (ledger (perform ex_missing_claim ex_accepted_ledger)) /\
  rtc ends (ledger ex_accepted_ledger) (ledger (perform ex_missing_claim ex_accepted_ledger)).
Proof.
  assert (E : call_outcome ex_missing_claim ex_accepted_ledger =
    Err (Thrown (Relay {| code := delivery_not_found; message := "Delivery not found" |}))) by by_vm.
  split; [exact E|].
  destruct (ledger_service_refines ex_accepted_ledger ex_missing_claim ex_accepted_reachable) as [S F].
  split; [exact S|exact (F _ E)].
Defined.
