(* ===== verification/LedgerFence.v ===== *)
(** * A revocation is a fence

    Once a Node, a workspace or an agent has been revoked, the Missions it takes
    part in never have an open delivery again, whatever is called afterwards: the
    work they had was cancelled with a receipt, and no event of theirs is accepted
    that would create more. *)

From stdpp Require Import sorting.
From S2P Require Import Prelude JsLib Schemas IsoDates RelayStore.
From S2P Require Import MissionEvents MissionCoordinator MissionExample MissionReach DeliveryOperations.
From S2P Require Import Keys LedgerStore MissionLedger MissionReconciliation.
From S2P Require Import DeliveryLedger DeliveryCompletion DeliveryRevocation NodeStore.
From S2P Require Import NodeEnrollment AgentAccounts LedgerExample LedgerRules LedgerSteps.
From S2P Require Import LedgerAppend LedgerTerminal LedgerMoves LedgerCompletion.
From S2P Require Import LedgerAuthority LedgerCalls LedgerRefine LedgerProjection LedgerService.
Local Open Scope Z_scope.

(** Every row of the Node (of the binding) is revoked, and there is one. *)
Definition node_dead (id : string) (t : LedgerTables) : Prop :=
  id ∈ map Nodes.id (nodes t) /\
  forall n, n ∈ nodes t -> Nodes.id n = id -> Nodes.status n = S_revoked.
Definition binding_dead (id : string) (t : LedgerTables) : Prop :=
  id ∈ map WorkspaceBindings.id (workspaceBindings t) /\
  forall w, w ∈ workspaceBindings t -> WorkspaceBindings.id w = id ->
    WorkspaceBindings.status w = S_revoked.

(** A participant reaches its Node through [route_key]. *)
Definition cut_route (t : LedgerTables) (k : string * string * string) : Prop :=
  node_dead k.1.2 t \/ binding_dead k.2 t.
Record fenced (id : string) (t : LedgerTables) : Prop := {
  fe_cut : exists k, k ∈ map route_key (missionParticipants t) /\ k.1.1 = id /\ cut_route t k;
  fe_closed : forall d, d ∈ nodeDeliveries t -> NodeDeliveries.missionId d = id ->
    open_status (NodeDeliveries.status d) = false
}.

(** Any calls, between which Nodes and bindings may be added or revoked, and
    credentials, agents, blocks and the clock may change in any way. *)
Inductive onward `{Zod, RelayEnv, LedgerEnv} (s : Ledger) : Ledger -> Prop :=
| on_refl : onward s s
| on_call c s1 : onward s s1 -> onward s (perform c s1)
| on_outside s1 s2 : onward s s1 -> authorities (ledger s1) (ledger s2) -> onward s s2.

(** ** The fence holds *)
Lemma grown_dead {A} (key : A -> string) (status : A -> BindingStatus) (kept : A -> A -> Prop) l l' id :
  (forall x y, kept x y -> key y = key x /\ (status x = S_revoked -> status y = S_revoked)) ->
  grown key kept l l' -> id ∈ map key l -> (forall x, x ∈ l -> key x = id -> status x = S_revoked) ->
  id ∈ map key l' /\ forall x, x ∈ l' -> key x = id -> status x = S_revoked.
Proof.
  intros K (old & new & -> & F & N) Hi D.
  assert (E : map key old = map key l).
  { clear -F K. induction F as [|x y l k R F IH]; cbn; [done|]. destruct (K _ _ R) as [-> _]. by f_equal. }
  split; [rewrite map_app, E; apply elem_of_app; by left|]. intros x [Hx|Hx]%elem_of_app Ex.
  - apply list_elem_of_lookup in Hx as [i Hx]. destruct (Forall2_lookup_r _ _ _ _ _ F Hx) as (y & Hy & R).
    destruct (K _ _ R) as [Ek S]. apply S, D; [by eapply list_elem_of_lookup_2|congruence].
  - destruct (N x Hx). by rewrite Ex.
Qed.

Lemma same_nodes_cut t t' k : same_nodes t t' -> cut_route t k -> cut_route t' k.
Proof. intros [En _ Eb]. unfold cut_route, node_dead, binding_dead. by rewrite En, Eb. Qed.

Lemma cut_not_routed t p : cut_route t (route_key p) -> ~ routed t p.
Proof.
  intros [[_ D]|[_ D]] [(n & Hn & En & Sn) (w & Hw & Ew & Sw)].
  - rewrite (D n Hn En) in Sn. done.
  - rewrite (D w Hw Ew) in Sw. done.
Qed.

Section Fence.
Context `{Zod}.

Lemma authorities_cut t t' k : authorities t t' -> cut_route t k -> cut_route t' k.
Proof.
  intros [_ _ _ Gn Gb] [[Hi D]|[Hi D]]; [left|right].
  - eapply (grown_dead Nodes.id Nodes.status); [|exact Gn|exact Hi|exact D]. by intros x y (? & _ & ?).
  - eapply (grown_dead WorkspaceBindings.id WorkspaceBindings.status); [|exact Gb|exact Hi|exact D].
    by intros x y (? & _ & ?).
Qed.

(** The rows of a fenced Mission stay closed when each row only moves. *)
Lemma closed_by (R : Row -> Row -> Prop) id l l' :
  Forall2 R l l' ->
  (forall d d', R d d' -> NodeDeliveries.missionId d' = NodeDeliveries.missionId d /\
     (open_status (NodeDeliveries.status d) = false -> open_status (NodeDeliveries.status d') = false)) ->
  (forall d, d ∈ l -> NodeDeliveries.missionId d = id -> open_status (NodeDeliveries.status d) = false) ->
  forall d, d ∈ l' -> NodeDeliveries.missionId d = id -> open_status (NodeDeliveries.status d) = false.
Proof.
  intros F K C d' Hd' Em. apply list_elem_of_lookup in Hd' as [i Hd'].
  destruct (Forall2_lookup_r _ _ _ _ _ F Hd') as (d & Hd & Rd). destruct (K _ _ Rd) as [E S].
  apply S, C; [by eapply list_elem_of_lookup_2|congruence].
Qed.

Lemma moved_closed now d d' :
  row_moved now d d' -> open_status (NodeDeliveries.status d) = false ->
  open_status (NodeDeliveries.status d') = false.
Proof.
  intros [->|(n & v & M & ->)]; [done|]. intros C.
  destruct M as [? ? S|? [N _]|? ? [N _]|? ? ? [N _]|? [N _]|? [N _]|? ? [N _]|? O];
    try rewrite S in C; try congruence; try (by destruct (NodeDeliveries.status d)); done.
Qed.

Lemma fenced_append id m row next t t' :
  fenced id t -> appends m row next t t' -> Missions.id m <> id.
Proof.
  intros [(k & Hk & Ek & Cut) C] [L _ An _ _ Ro] Em.
  destruct (body_source (MissionEventRows.payload row)) as [source|] eqn:Bs.
  - destruct (An source eq_refl) as (d & [Hd _ Ed _ _ _ _ Od]).
    rewrite C in Od; [done|done|congruence].
  - apply list_elem_of_fmap in Hk as (p & -> & Hp). eapply (cut_not_routed t p Cut), Ro; [done|].
    apply elem_of_array_filter. split; [done|]. apply bool_decide_eq_true. cbn in Ek. congruence.
Qed.

Lemma step_fenced id t t' : ledger_step t t' -> fenced id t -> fenced id t'.
Proof.
  intros S Fe. pose proof Fe as [(k & Hk & Ek & Cut) C].
  destruct S as [[[[_ Ep _] Sn _] (now & _ & F)]|m ps [_ _ _ _ _ _ _ ->]|[_ Et Er]|m row next Ap
    |m row next cause now [L _ _ _ _ _ F]|ids reason [[[_ Ep _] Sn _] (now & _ & F) _]|Au].
  - split; [exists k; rewrite Ep; split_and!; [done|done|by eapply same_nodes_cut]|].
    eapply closed_by; [exact F| |exact C]. intros d d' M. split; [|by eapply moved_closed].
    apply row_moved_routing in M. by injection M.
  - split; [|exact C]. exists k. split_and!; [|done|done]. cbn. rewrite map_app. apply elem_of_app. by left.
  - split; [exists k; rewrite Er; split_and!; [done|done|by rewrite Et]|]. by rewrite Et.
  - pose proof (fenced_append _ _ _ _ _ _ Fe Ap) as Nm.
    destruct Ap as [L _ _ _ (at_ & st & created & Er & Fc & _) _]. split.
    + exists k. rewrite (lg_participants _ _ _ _ _ L).
      split_and!; [done|done|eapply same_nodes_cut; [apply (lg_nodes _ _ _ _ _ L)|done]].
    + rewrite Er. intros d [Hd|Hd]%elem_of_app Em.
      * eapply (closed_by (fun d d' => d' = d \/ exists e a n, d' = stamp n (settle_with e a d)));
          [| |exact C|exact Hd|exact Em].
        -- unfold settled_rows. repeat case_match; try (apply Forall2_refl_on; by left).
           apply Forall2_fmap_r, Forall2_refl_on. intros x. cbn. case_match; eauto 6.
        -- by intros x x' [->|(e & a & n & ->)].
      * exfalso. apply list_elem_of_lookup in Hd as [i Hd].
        destruct (Forall2_lookup_r _ _ _ _ _ Fc Hd) as (tg & _ & (p & _ & _ & Cr)).
        destruct Cr. congruence.
  - split; [exists k; rewrite (lg_participants _ _ _ _ _ L);
      split_and!; [done|done|eapply same_nodes_cut; [apply (lg_nodes _ _ _ _ _ L)|done]]|].
    eapply closed_by; [exact F| |exact C]. intros d d'. unfold ended. case_match; [by intros [n ->]|by intros ->].
  - split; [exists k; rewrite Ep; split_and!; [done|done|by eapply same_nodes_cut]|].
    eapply closed_by; [exact F| |exact C]. intros d d'. unfold revoked_row.
    case_match; [by intros [n ->]|by intros ->].
  - pose proof Au as [[_ Ep _] Er _ _ _]. split; [|by rewrite Er].
    exists k. rewrite Ep. split_and!; [done|done|by eapply authorities_cut].
Qed.

Lemma steps_fenced id t t' : rtc ledger_step t t' -> fenced id t -> fenced id t'.
Proof. induction 1; eauto using step_fenced. Qed.
End Fence.

(** ** The calls that put it up *)
Section Revocations.
Context `{Zod, RelayEnv, LedgerEnv, !LedgerLaws}.
Implicit Types s : Ledger.

(** The fence, and the receipts of what it cancelled. *)
Record fenced_off (p : MissionParticipants.MissionParticipant) (reason : DeliveryCancellationReason)
    (t t' : LedgerTables) : Prop := {
  fo_fenced : fenced (MissionParticipants.missionId p) t';
  fo_receipts : forall d, d ∈ nodeDeliveries t ->
    NodeDeliveries.missionId d = MissionParticipants.missionId p ->
    open_status (NodeDeliveries.status d) = true ->
    exists r, r ∈ receipts t' /\ cancelled_receipt reason d r
}.

Lemma scope_fences (q : MissionParticipants.MissionParticipant -> bool) reason t t1 t' p :
  revoked_scope q reason t t1 -> same_missions t1 t' -> nodeDeliveries t' = nodeDeliveries t1 ->
  receipts t' = receipts t1 -> p ∈ missionParticipants t -> q p = true -> cut_route t' (route_key p) ->
  fenced_off p reason t t'.
Proof.
  intros (ids & l & [[[[_ Ep _] _ _] (now & _ & F) _] _ Rc] & Sc) [_ Ep' _] Er Ere Hp Qp Cut.
  assert (Hi : MissionParticipants.missionId p ∈ ids) by (apply Sc; eauto).
  assert (Oi : forall d, NodeDeliveries.missionId d = MissionParticipants.missionId p ->
            open_in ids d = open_status (NodeDeliveries.status d)).
  { intros d Ed. unfold open_in, includes. by rewrite Ed, bool_decide_true. }
  split.
  - split.
    + exists (route_key p). rewrite Ep', Ep. by split; [apply list_elem_of_fmap_2|].
    + rewrite Er. intros d' Hd' Em. apply list_elem_of_lookup in Hd' as [i Hd'].
      destruct (Forall2_lookup_r _ _ _ _ _ F Hd') as (d & Hd & Rd).
      pose proof (revoked_row_routing _ _ _ _ _ Rd) as Ro. injection Ro as _ _ Ed _ _ _ _.
      revert Rd. unfold revoked_row. rewrite (Oi d) by congruence.
      destruct (open_status (NodeDeliveries.status d)) eqn:O; [by intros [n ->]|by intros ->].
  - intros d Hd Em O. rewrite Ere. apply Rc; [done|]. by rewrite Oi.
Qed.

Lemma dead_after_revoke p x y t id :
  (forall n, n ∈ nodes t -> Nodes.id n = id -> p n = true \/ Nodes.status n = S_revoked) ->
  id ∈ map Nodes.id (nodes t) ->
  node_dead id (t <| nodes := map (fun n => if p n then revoked_node x y n else n) (nodes t) |>).
Proof.
  intros P Hi. split; cbn.
  - rewrite map_map. erewrite map_ext; [exact Hi|]. intros n. by destruct (p n).
  - intros n' (n & -> & Hn)%list_elem_of_fmap. destruct (p n) eqn:Pn; [done|]. intros En.
    destruct (P n Hn En) as [?|?]; [congruence|done].
Qed.
Lemma binding_dead_after_revoke p x y t id :
  (forall w, w ∈ workspaceBindings t -> WorkspaceBindings.id w = id -> p w = true) ->
  id ∈ map WorkspaceBindings.id (workspaceBindings t) ->
  binding_dead id (t <| workspaceBindings :=
    map (fun w => if p w then revoked_binding x y w else w) (workspaceBindings t) |>).
Proof.
  intros P Hi. split; cbn.
  - rewrite map_map. erewrite map_ext; [exact Hi|]. intros w. by destruct (p w).
  - intros w' (w & -> & Hw)%list_elem_of_fmap. destruct (p w) eqn:Pw; [done|]. intros Ew.
    rewrite P in Pw; done.
Qed.

Lemma revoke_credentials_ok p s l s' :
  revoke_credentials p s = (Ok l, s') -> exists cs, ledger s' = (ledger s) <| nodeCredentials := cs |>.
Proof. unfold revoke_credentials. intros E. ltx_one E. hush R. ltx E. eexists. by led. Qed.
Lemma revoke_api_keys_ok p now s u s' :
  revoke_api_keys p now s = (Ok u, s') -> exists ks, ledger s' = (ledger s) <| apiKeys := ks |>.
Proof. unfold revoke_api_keys. intros E. ltx_atom E. by eexists. Qed.

Lemma revoke_node_fences a n r s u s' x p :
  keys_ok (ledger s) -> revokeNode a n r s = (Ok u, s') ->
  owned_node n a (ledger s) = Some x -> Nodes.status x = S_active ->
  p ∈ missionParticipants (ledger s) -> MissionParticipants.nodeId p = n ->
  fenced_off p C_node_revoked (ledger s) (ledger s').
Proof.
  intros K E Fx Sx Hp En. unfold revokeNode in E.
  apply ledger_transaction_ok in E as (sa & sb & L1 & E & ->). ltx_one E. hush R. ltx_one E.
  rewrite R, L1, Fx, Sx in E. cbn -[cancelDeliveriesForRevocation] in E.
  apply lbind_ok in E as (l & sc & Rc & E). apply cancel_scope_ok in Rc; [|by rewrite R, L1].
  rewrite R, L1 in Rc. cbn in Rc. apply lbind_ok in E as (u1 & sd & R4 & E).
  pose proof Rc as (ids & l' & [[[_ [Sn _ _] _] _ _] _ _] & _).
  apply revoke_nodes_ok in R4 as (t1 & t2 & L4).
  apply lbind_ok in E as (u2 & se & R5 & E). apply revoke_credentials_ok in R5 as (cs & L5).
  apply lbind_ok in E as (u3 & sf & R6 & E). apply revoke_bindings_ok in R6 as (t3 & t4 & L6). hush E.
  rewrite L5, L4 in L6.
  eapply scope_fences; [exact Rc| | | |exact Hp| |]; rewrite ?E, ?L6; try done.
  - unfold in_scope. rewrite En. by rewrite bool_decide_true.
  - left. cbn [route_key fst snd]. rewrite En.
    pose proof (dead_after_revoke (fun y => Nodes.id y === n) t1 t2 (ledger sc) n) as D.
    unfold node_dead in *. cbn in *. apply D.
    + intros y _ Ey. left. by apply bool_decide_true.
    + rewrite Sn. unfold owned_node in Fx. apply array_find_Some in Fx as [Hx Fx]. bool_hyps.
      subst n. by apply list_elem_of_fmap_2.
Qed.

Lemma revoke_workspace_fences auth alias s u s' w p :
  keys_ok (ledger s) -> revokeWorkspace auth alias s = (Ok u, s') ->
  workspace_by_alias auth.(auth_nodeId) alias (ledger s) = Some w ->
  WorkspaceBindings.status w = S_active ->
  p ∈ missionParticipants (ledger s) -> MissionParticipants.nodeId p = auth.(auth_nodeId) ->
  MissionParticipants.workspaceBindingId p = WorkspaceBindings.id w ->
  fenced_off p C_workspace_revoked (ledger s) (ledger s').
Proof.
  intros K E Fw Sw Hp En Eb. unfold revokeWorkspace in E.
  apply ledger_transaction_ok in E as (sa & sb & L1 & E & ->). ltx_one E. hush R. ltx_one E. hush R0.
  ltx_one E. hush R1. ltx_one E. rewrite R1, R0, R, L1, Fw, Sw in E.
  cbn -[cancelDeliveriesForRevocation] in E.
  apply lbind_ok in E as (l & sc & Rc & E). apply cancel_scope_ok in Rc; [|by rewrite R1, R0, R, L1].
  rewrite R1, R0, R, L1 in Rc. cbn in Rc.
  pose proof Rc as (ids & l' & [[[_ [_ _ Sb] _] _ _] _ _] & _).
  apply lbind_ok in E as (l2 & sd & R4 & E). apply revoke_bindings_ok in R4 as (t1 & t2 & L4).
  ltx_one E. hush E.
  eapply scope_fences; [exact Rc| | | |exact Hp| |]; rewrite ?E, ?L4; try done.
  - unfold in_scope. rewrite En, Eb. by rewrite !bool_decide_true.
  - right. cbn [route_key snd]. rewrite Eb. apply binding_dead_after_revoke.
    + intros y _ Ey. by apply bool_decide_true.
    + rewrite Sb. apply list_elem_of_fmap_2. unfold workspace_by_alias, sort_by in Fw.
      destruct (merge_sort _ _) as [|y ys] eqn:M in Fw; [done|]. injection Fw as ->.
      assert (Hw : w ∈ w :: ys) by left. rewrite <-M, merge_sort_Permutation in Hw.
      by apply elem_of_array_filter in Hw as [Hw _].
Qed.

Lemma disable_fences a r s u s' x p :
  keys_ok (ledger s) -> disableAgent a r s = (Ok u, s') ->
  x ∈ nodes (ledger s) -> Nodes.agentId x = a -> Nodes.id x = MissionParticipants.nodeId p ->
  p ∈ missionParticipants (ledger s) -> fenced_off p C_node_revoked (ledger s) (ledger s').
Proof.
  intros K E Hx Ea En Hp. unfold disableAgent in E.
  apply ledger_transaction_ok in E as (sa & sb & L1 & E & ->). ltx_one E. hush R. ltx_one E. hush R0.
  destruct (a1 : option Agents.Agent) as [ag|]; [|by ltx E]. ltx_one E. ltx_one E. hush R1.
  rewrite R0, R, L1 in E, R1. set (ids := map Nodes.id (owned_nodes a (ledger s))) in *.
  assert (Hi : MissionParticipants.nodeId p ∈ ids).
  { rewrite <-En. apply list_elem_of_fmap_2. unfold owned_nodes, sort_by.
    rewrite merge_sort_Permutation. apply elem_of_array_filter. split; [done|]. by apply bool_decide_true. }
  apply lbind_ok in E as (u1 & sc & Rr & E). unfold revoke_owned in Rr.
  destruct (0 <? len ids) eqn:Li.
  2:{ assert (len ids = 0) as Z by (pose proof (len_nonneg ids); lia). apply len_zero in Z.
      rewrite Z in Hi. by apply not_elem_of_nil in Hi. }
  apply lbind_ok in Rr as (l & sd & Rc & Rr). apply cancel_nodes_ok in Rc; [|by rewrite R1].
  rewrite R1 in Rc. cbn in Rc. pose proof Rc as (ids' & l' & [[[_ [Sn _ _] _] _ _] _ _] & _).
  apply lbind_ok in Rr as (u2 & se & R5 & Rr). apply revoke_credentials_ok in R5 as (cs & L5).
  apply lbind_ok in Rr as (u3 & sf & R6 & Rr). apply revoke_bindings_ok in R6 as (t3 & t4 & L6).
  apply revoke_nodes_ok in Rr as (t1 & t2 & L7). rewrite L6, L5 in L7.
  ltx_one E. hush R2. ltx_one E. hush R3. ltx_one E. apply revoke_api_keys_ok in R4 as (ks & L8).
  hush E. rewrite R3, R2, L7 in L8.
  eapply scope_fences; [exact Rc| | | |exact Hp| |]; rewrite ?E, ?L8; try done.
  - unfold includes. by apply bool_decide_true.
  - left. cbn [route_key fst snd].
    pose proof (dead_after_revoke (fun y => includes ids (Nodes.id y) && (Nodes.status y === S_active))
      t1 t2 (ledger sd) (MissionParticipants.nodeId p)) as D.
    unfold node_dead in *. cbn in *. apply D.
    + intros y _ Ey. destruct (Nodes.status y) eqn:Sy; [left|by right].
      rewrite Ey. unfold includes. by rewrite !bool_decide_true.
    + rewrite Sn, <-En. by apply list_elem_of_fmap_2.
Qed.
End Revocations.

(** Whether the call revokes the participant's Node or workspace, and why its
    Mission's deliveries are cancelled. *)
Definition revoked_by (c : ledger_call) (t : LedgerTables)
    (p : MissionParticipants.MissionParticipant) : option DeliveryCancellationReason :=
  match c with
  | RevokeNode a n _ =>
      x ← owned_node n a t;
      if (Nodes.status x === S_active) && (MissionParticipants.nodeId p === n)
      then Some C_node_revoked else None
  | RevokeWorkspace auth alias =>
      w ← workspace_by_alias auth.(auth_nodeId) alias t;
      if (WorkspaceBindings.status w === S_active) &&
         (MissionParticipants.nodeId p === auth.(auth_nodeId)) &&
         (MissionParticipants.workspaceBindingId p === WorkspaceBindings.id w)
      then Some C_workspace_revoked else None
  | DisableAgent a _ =>
      if some (fun n => (Nodes.agentId n === a) && (Nodes.id n === MissionParticipants.nodeId p))
           (nodes t)
      then Some C_node_revoked else None
  | _ => None
  end.

Section Finality.
Context `{Zod, RelayEnv, LedgerEnv, !LedgerLaws}.
Implicit Types s : Ledger.

Lemma outcome_ok {A} (m : LTx A) s :
  outcome_of (m s).1 = Ok tt -> exists a, m s = (Ok a, (m s).2).
Proof. destruct (m s) as [[a|e] s']; cbn; [eauto|done]. Qed.

Lemma revoked_fences s c p reason :
  keys_ok (ledger s) -> call_outcome c s = Ok tt -> p ∈ missionParticipants (ledger s) ->
  revoked_by c (ledger s) p = Some reason ->
  fenced_off p reason (ledger s) (ledger (perform c s)).
Proof.
  intros K O Hp R. destruct c; cbn in R; try done; apply outcome_ok in O as [a0 E]; cbn [perform].
  - destruct (owned_node _ _ _) as [x|] eqn:Fx; [|done]. cbn in R. case_match; [|done]. bool_hyps.
    injection R as <-. by eapply revoke_node_fences.
  - destruct (workspace_by_alias _ _ _) as [w|] eqn:Fw; [|done]. cbn in R. case_match; [|done]. bool_hyps.
    injection R as <-. by eapply revoke_workspace_fences.
  - case_match; [|done]. injection R as <-.
    match goal with G : some _ _ = true |- _ => apply some_iff in G as (x & Hx & ?) end. bool_hyps.
    by eapply disable_fences.
Qed.

Lemma onward_steps s s' :
  keys_ok (ledger s) -> onward s s' -> rtc ledger_step (ledger s) (ledger s').
Proof.
  intros K O. induction O as [|c s1 O IH|s1 s2 O IH A]; [done| |].
  - etrans; [exact IH|]. apply perform_steps. by eapply steps_keys.
  - etrans; [exact IH|]. by apply rtc_once, step_authority.
Qed.
End Finality.

(** C11: a revocation is a fence.  If a call that revokes a participant's Node or
    workspace, or disables the agent that owns the Node, returned, then every
    delivery of the participant's Mission that was open, on whichever Node, has a
    relay receipt that cancels it for that reason and records the lease it was
    under; and whatever is called afterwards, in any order, while credentials,
    agents, blocks and other Nodes change, no delivery of that Mission is ever
    open again: none can be claimed, run or completed, and none is created. *)
Theorem revocation_fence `{Zod, RelayEnv, LedgerEnv, !LedgerLaws} s c p reason s' :
  reachable_ledger s -> call_outcome c s = Ok tt -> p ∈ missionParticipants (ledger s) ->
  revoked_by c (ledger s) p = Some reason -> onward (perform c s) s' ->
  (forall d, d ∈ nodeDeliveries (ledger s') ->
     NodeDeliveries.missionId d = MissionParticipants.missionId p ->
     open_status (NodeDeliveries.status d) = false) /\
  (forall d, d ∈ nodeDeliveries (ledger s) ->
     NodeDeliveries.missionId d = MissionParticipants.missionId p ->
     open_status (NodeDeliveries.status d) = true ->
     exists r, r ∈ receipts (ledger s') /\ cancelled_receipt reason d r).
Proof.
  intros Re O Hp R On. destruct (invariant_reachable _ _ missions_invariant Re) as [K _].
  destruct (revoked_fences s c p reason K O Hp R) as [Fe Rc].
  pose proof (onward_steps _ _ (steps_keys _ _ (perform_steps c s K) K) On) as S.
  split; [apply (fe_closed _ _ (steps_fenced _ _ _ S Fe))|].
  intros d Hd Em Od. destruct (Rc d Hd Em Od) as (r & Hr & C). exists r. split; [|done].
  destruct (steps_receipts _ _ S) as [l ->]. apply elem_of_app. by left.
Qed.

#[local] Existing Instance example_zod.
#[local] Existing Instance ex_relay_env.
#[local] Existing Instance ex_ledger_env.

(** The owner of the second participant's Node revokes it while the first one's
    turn is waiting; the turn is then claimed in vain. *)
Definition ex_revocation : ledger_call :=
  RevokeNode (ex_id "b") "60000000-0000-4000-8000-00000000000b" None.
Definition ex_late_claim : ledger_call :=
  Claim (ex_auth "a") (ex_open "a" ex_accepted_ledger) (ex_claim "late").
Definition ex_after_revocation : Ledger :=
  perform ex_late_claim (perform ex_revocation ex_accepted_ledger).

Lemma revocation_fence_witness :
  exists p d r, p ∈ missionParticipants (ledger ex_accepted_ledger) /\
    d ∈ nodeDeliveries (ledger ex_accepted_ledger) /\ NodeDeliveries.status d = D_stored /\
    r ∈ receipts (ledger ex_after_revocation) /\ cancelled_receipt C_node_revoked d r /\
    (forall d, d ∈ nodeDeliveries (ledger ex_after_revocation) ->
       NodeDeliveries.missionId d = MissionParticipants.missionId p ->
       open_status (NodeDeliveries.status d) = false).
Proof.
  assert (O : call_outcome ex_revocation ex_accepted_ledger = Ok tt) by by_vm.
  destruct (missionParticipants (ledger ex_accepted_ledger) !! 1%nat) as [p|] eqn:Ep.
  2:{ exfalso. assert (L : length (missionParticipants (ledger ex_accepted_ledger)) = 2%nat) by by_vm.
      apply lookup_ge_None in Ep. lia. }
  destruct (nodeDeliveries (ledger ex_accepted_ledger) !! 0%nat) as [d|] eqn:Ed.
  2:{ exfalso. assert (L : length (nodeDeliveries (ledger ex_accepted_ledger)) = 1%nat) by by_vm.
      apply lookup_ge_None in Ed. lia. }
  assert (V : (p ← missionParticipants (ledger ex_accepted_ledger) !! 1%nat;
               d ← nodeDeliveries (ledger ex_accepted_ledger) !! 0%nat;
               Some (revoked_by ex_revocation (ledger ex_accepted_ledger) p,
                     NodeDeliveries.missionId d === MissionParticipants.missionId p,
                     NodeDeliveries.status d)) =
              Some (Some C_node_revoked, true, D_stored)) by by_vm.
  rewrite Ep, Ed in V. cbn [mbind option_bind] in V. apply (inj Some) in V.
  apply pair_eq in V as [V Es]. apply pair_eq in V as [Rb Em]. apply bool_decide_eq_true in Em.
  apply list_elem_of_lookup_2 in Ep as Hp. apply list_elem_of_lookup_2 in Ed as Hd.
  destruct (revocation_fence ex_accepted_ledger ex_revocation p C_node_revoked ex_after_revocation
    ex_accepted_reachable O Hp Rb (on_call _ _ _ (on_refl _))) as [F R].
  destruct (R d Hd Em) as (r & Hr & C); [by rewrite Es|].
  exists p, d, r. split_and!; assumption.
Defined.
