(* ===== verification/NodeAccess.v ===== *)
(** * What a Node credential opens

    The token [enrollNode] returns is the one [nodeBearerAuth] resolves to the new
    Node; a rotation hands that over to the new token and leaves the old one
    without effect. *)

From stdpp Require Import sorting.
From S2P Require Import Prelude JsLib Schemas RelayStore.
From S2P Require Mailbox.
From S2P Require Import MissionEvents MissionCoordinator MissionExample DeliveryOperations.
From S2P Require Import Keys LedgerStore MissionLedger MissionReconciliation.
From S2P Require Import DeliveryRevocation NodeStore NodeEnrollment AgentAccounts LedgerExample.
From S2P Require Import LedgerRules LedgerSteps LedgerMoves LedgerCompletion LedgerAuthority.
Local Open Scope Z_scope.

(** ** Bearer headers *)
Lemma base32_not_space c : base32_char c = true -> is_js_space c = false.
Proof. unfold base32_char, is_js_space, is_lower, in_range. intros E. lia. Qed.

Lemma trim_end_same s : all_chars (fun c => negb (is_js_space c)) s = true -> trim_end s = s.
Proof.
  induction s as [|c s IH]; [done|]. cbn [all_chars trim_end]. intros E.
  apply andb_true_iff in E as [Ec Es]. rewrite IH by done. apply negb_true_iff in Ec. rewrite Ec.
  by destruct s.
Qed.
Lemma trim_start_same s : all_chars (fun c => negb (is_js_space c)) s = true -> trim_start s = s.
Proof.
  destruct s as [|c s]; [done|]. cbn [all_chars trim_start]. intros E. apply andb_true_iff in E as [E _].
  apply negb_true_iff in E. by rewrite E.
Qed.
Lemma trim_same s : all_chars (fun c => negb (is_js_space c)) s = true -> trim s = s.
Proof. intros E. unfold trim. by rewrite (trim_start_same s E), trim_end_same. Qed.

Lemma all_chars_impl (p q : Z -> bool) s :
  (forall c, p c = true -> q c = true) -> all_chars p s = true -> all_chars q s = true.
Proof.
  intros I. induction s as [|c s IH]; [done|]. cbn [all_chars]. rewrite !andb_true_iff. intros [? ?]. auto.
Qed.

(** What a key has of characters. *)
Definition token_char (c : Z) : bool := base32_char c || (c =? 95).
Lemma node_key_chars env pepper drawn salted `{RelayCrypto} :
  Forall is_byte drawn -> len drawn = KEY_BYTES ->
  all_chars token_char (generateNodeKey env pepper drawn salted).(raw) = true.
Proof.
  intros F L. destruct (base32_carries drawn F L) as [T _]. unfold key_tail in T. bool_hyps.
  unfold generateNodeKey, generatePrefixedKey. cbn [raw]. rewrite !Json.all_chars_app.
  assert (K : all_chars token_char (base32 drawn) = true).
  { eapply all_chars_impl; [|done]. intros c Hc. unfold token_char. by rewrite Hc. }
  rewrite K. by destruct env.
Qed.

Lemma substring_all s : String.substring 0 (String.length s) s = s.
Proof. induction s as [|c s IH]; [done|]. cbn. by rewrite IH. Qed.

Lemma extract_token token :
  token <> EmptyString -> all_chars token_char token = true ->
  extractBearer (Some ("Bearer " +:+ token)) = Some token.
Proof.
  intros Ne T. unfold extractBearer.
  change (String.substring 0 6 ("Bearer " +:+ token)) with "Bearer".
  change (String.length ("Bearer " +:+ token)) with (7 + String.length token)%nat.
  replace (7 + String.length token - 6)%nat with (S (String.length token)) by lia.
  change (String.substring 6 (S (String.length token)) ("Bearer " +:+ token)) with
    (String (Ascii.ascii_of_N 32) (String.substring 0 (String.length token) token)).
  rewrite substring_all. change (strip "bearer" (to_lower "Bearer")) with (Some EmptyString).
  cbv iota. change (is_js_space (JsLib.code (Ascii.ascii_of_N 32))) with true. cbn [negb orb].
  assert (Sp : all_chars (fun c => negb (is_js_space c)) token = true).
  { eapply all_chars_impl; [|exact T]. intros c Hc. apply negb_true_iff.
    unfold token_char in Hc. apply orb_true_iff in Hc as [Hc|Hc]; [by apply base32_not_space|].
    apply Z.eqb_eq in Hc. by subst c. }
  assert (Le : (slen token =? 0) = false).
  { apply Z.eqb_neq. unfold slen. destruct token; [done|]. cbn [String.length]. lia. }
  rewrite Le, (trim_start_same token Sp), trim_same by done. cbn [orb].
  enough (all_chars (fun c => negb (line_terminator c)) token = true) as -> by done.
  eapply all_chars_impl; [|exact T]. clear. intros c Hc. unfold token_char, base32_char, is_lower, in_range in Hc.
  unfold line_terminator. apply negb_true_iff. lia.
Qed.

(** ** Operations that leave the agents alone *)
Section Agents.
Context `{Zod, RelayEnv, LedgerEnv}.
Implicit Types s : Ledger.

Definition agents_of s : list Agents.Agent := agents (tables (base s)).
Definition keeps_agents {A} (m : LTx A) : Prop := forall s r s', m s = (r, s') -> agents_of s' = agents_of s.

Lemma keeps_bind {A B} (m : LTx A) (k : A -> LTx B) :
  keeps_agents m -> (forall a, keeps_agents (k a)) -> keeps_agents (m ≫= k).
Proof.
  intros Qm Qk s r s'. unfold mbind, LTx_bind. destruct (m s) as [[a|e] s1] eqn:E; intros R.
  - rewrite (Qk _ _ _ _ R). by eapply Qm.
  - injection R as <- <-. by eapply Qm.
Qed.
Lemma keeps_ret {A} (a : A) : keeps_agents (mret a).
Proof. by intros s r s' [= <- <-]. Qed.
Lemma keeps_fail {A} c m : keeps_agents (@relay_fail _ A c m).
Proof. by intros s r s' [= <- <-]. Qed.
Lemma keeps_fail_if b c m : keeps_agents (fail_if b c m).
Proof. unfold fail_if. destruct b; [apply keeps_fail|apply keeps_ret]. Qed.
Lemma keeps_fetch {A} (q : LedgerTables -> A) : keeps_agents (fetch q).
Proof. by intros s r s' [= <- <-]. Qed.
Lemma keeps_put f : keeps_agents (put f).
Proof. by intros s r s' [= <- <-]. Qed.
Lemma keeps_parse {A} (p : A -> bool) a : keeps_agents (parse p a).
Proof. unfold parse. intros s r s'. destruct (p a); by intros [= <- <-]. Qed.
Lemma keeps_check cs : keeps_agents (check_all cs).
Proof. unfold check_all. intros s r s'. destruct (array_find _ cs) as [[b n]|]; by intros [= <- <-]. Qed.
Lemma keeps_now : keeps_agents tx_now.
Proof. by intros s r s' [= <- <-]. Qed.
Lemma keeps_clock : keeps_agents wall_clock.
Proof. by intros s r s' [= <- <-]. Qed.
Lemma keeps_uuid : keeps_agents randomUUID.
Proof. by intros s r s' [= <- <-]. Qed.
Lemma keeps_lock k : keeps_agents (lock_key k).
Proof. by intros s r s' [= <- <-]. Qed.
Lemma keeps_read {A} (q : Tables -> A) : keeps_agents (read_base q).
Proof. by intros s r s' [= <- <-]. Qed.
Lemma keeps_audit k i a rt rid md rq : keeps_agents (audit k i a rt rid md rq).
Proof.
  intros s r s'. unfold audit, mbind, LTx_bind, tx_now, lift, Mailbox.writeAudit, insert_audit, mbind,
    Tx_bind, next_audit_id, select, check, write, mret, Tx_ret.
  repeat (case_match; simplify_eq/=; try done); by intros [= <- <-].
Qed.
End Agents.
#[export] Hint Resolve keeps_ret keeps_fail keeps_fail_if keeps_fetch keeps_put keeps_parse keeps_check
  keeps_now keeps_clock keeps_uuid keeps_lock keeps_read keeps_audit : relay.
Ltac keeps :=
  repeat (intros; lazymatch goal with
  | |- keeps_agents (_ ≫= _) => apply keeps_bind
  | |- keeps_agents (match ?x with _ => _ end) => destruct x
  | |- keeps_agents _ => solve [auto with relay nocore]
  end).

Section Access.
Context `{Zod, RelayEnv, LedgerEnv, RelayCrypto}.
Implicit Types s : Ledger.

Definition bearer (token : string) : option string := Some ("Bearer " +:+ token).
Definition authenticated (c : NodeCredentials.NodeCredential) (n : Nodes.Node) : AuthenticatedNode := {|
  authn_id := Nodes.id n; authn_agentId := Nodes.agentId n; authn_name := Nodes.name n;
  authn_status := Nodes.status n; authn_credentialId := NodeCredentials.id c |}.

(** A Node the credential may act for. *)
Definition serves s (c : NodeCredentials.NodeCredential) (n : Nodes.Node) : bool :=
  (Nodes.id n === NodeCredentials.nodeId c) && (Nodes.status n === S_active) &&
  active_agent (tables (base s)) (Nodes.agentId n).

Lemma bearer_resolves token pepper s :
  token <> EmptyString -> all_chars token_char token = true -> isWellFormedNodeKey token = true ->
  nodeBearerAuth pepper (bearer token) s =
  (match credential_row (hashKey token pepper) (tables (base s)) (ledger s) with
   | Some (c, n) => Ok (authenticated c n)
   | None => Err (Thrown (Relay {| RelayStore.code := unauthenticated;
                                   RelayStore.message := "Invalid or revoked Node credential" |}))
   end, s).
Proof.
  intros Ne Ch W. unfold nodeBearerAuth, bearer. rewrite extract_token, W by done.
  unfold read_base, lift, select, fetch, mbind, LTx_bind.
  assert (E : s <| base := base s |> = s) by by destruct s. rewrite E.
  by destruct (credential_row _ _ _) as [[c n]|].
Qed.

(** The row the hash finds is that of the one active credential that has it. *)
Lemma credential_found s hash c n :
  c ∈ nodeCredentials (ledger s) -> NodeCredentials.keyHash c = hash ->
  NodeCredentials.revokedAt c = None ->
  (forall x, x ∈ nodeCredentials (ledger s) -> active_hash x = Some hash -> x = c) ->
  n ∈ nodes (ledger s) -> serves s c n = true ->
  exists m, m ∈ nodes (ledger s) /\ serves s c m = true /\
    credential_row hash (tables (base s)) (ledger s) = Some (c, m).
Proof.
  intros Hc Eh Ec U Hn Sn. unfold credential_row.
  set (own := array_filter _ _).
  assert (Own : forall x, x ∈ own -> x = c).
  { intros x [Hx Fx]%elem_of_array_filter. apply U; [done|]. unfold active_hash. bool_hyps.
    match goal with G : NodeCredentials.revokedAt x = None |- _ => rewrite G end. cbn. by f_equal. }
  assert (Hown : c ∈ own).
  { apply elem_of_array_filter. split; [done|]. by rewrite Eh, Ec, bool_decide_true. }
  destruct own as [|x l]; [by apply not_elem_of_nil in Hown|].
  assert (x = c) as -> by (apply Own; left). cbn [omap list_omap].
  destruct (array_find _ (nodes (ledger s))) as [m|] eqn:F.
  - cbn. apply array_find_Some in F as [Hm Fm]. exists m. split_and!; [done|exact Fm|done].
  - rewrite array_find_None in F. specialize (F n Hn). unfold serves in Sn. congruence.
Qed.

Lemma node_token env pepper drawn salted :
  Forall is_byte drawn -> len drawn = KEY_BYTES ->
  let key := generateNodeKey env pepper drawn salted in
  key.(raw) <> EmptyString /\ all_chars token_char key.(raw) = true /\
  isWellFormedNodeKey key.(raw) = true /\ key.(hash) = hashKey key.(raw) pepper.
Proof.
  intros F L. cbv zeta. split; [|split; [by apply node_key_chars|split; [|done]]].
  - unfold generateNodeKey, generatePrefixedKey. cbn [raw]. by destruct env.
  - destruct (base32_carries drawn F L) as [T _]. by apply key_of_own.
Qed.

Lemma insert_credential_ok n h sa l s i s' :
  insert_credential n h sa l s = (Ok i, s') ->
  exists c, ledger s' = (ledger s) <| nodeCredentials := nodeCredentials (ledger s) ++ [c] |> /\
    NodeCredentials.id c = i /\ NodeCredentials.nodeId c = n /\ NodeCredentials.keyHash c = h /\
    NodeCredentials.revokedAt c = None /\
    forall x, x ∈ nodeCredentials (ledger s) -> active_hash x <> Some h.
Proof.
  unfold insert_credential. intros E. ltx_one E. hush R. ltx E. eexists. led.
  split; [done|]. split_and!; try done. intros x Hx. cbn [every fst] in *. rewrite R in *. bool_hyps.
  repeat match goal with G : some _ _ = false |- _ => rewrite some_false_iff in G; specialize (G x Hx) end.
  by bool_hyps.
Qed.

Lemma revoke_credentials_map p s l s' :
  revoke_credentials p s = (Ok l, s') ->
  ledger s' = (ledger s) <| nodeCredentials := map (fun c =>
    if p c then revoked_credential (clock_timestamp (ticks s)) c else c) (nodeCredentials (ledger s)) |> /\
  l = map NodeCredentials.id (array_filter p (nodeCredentials (ledger s))).
Proof.
  unfold revoke_credentials. intros E. apply lbind_ok in E as (t & s1 & R & E).
  apply clock_ok in R as (-> & L). ltx E. by led.
Qed.

Lemma take_two {A} (x : A) l : take 2 l = [x] -> l = [x].
Proof. destruct l as [|y [|z l]]; cbn; congruence. Qed.

Lemma transaction_agents {A} (body : LTx A) s a s' :
  ledger_transaction body s = (Ok a, s') -> keeps_agents body -> agents_of s' = agents_of s.
Proof.
  unfold ledger_transaction. destruct (body (begin_tx s)) as [[b|e] s1] eqn:E; [|done].
  intros [= -> <-] K. by apply K in E.
Qed.

Lemma transaction_run {A} (body : LTx A) s a s' :
  ledger_transaction body s = (Ok a, s') ->
  exists s1, body (begin_tx s) = (Ok a, s1) /\ ledger s' = ledger s1.
Proof.
  unfold ledger_transaction. destruct (body (begin_tx s)) as [[b|e] s1]; [|done].
  intros [= -> <-]. by exists s1.
Qed.

Lemma active_agent_same b b' id : agents b = agents b' -> active_agent b id = active_agent b' id.
Proof. unfold active_agent. by intros ->. Qed.
End Access.

(** C12: the token an agent is given when it enrolls a Node is the Node's
    credential: presented as a bearer token to the ledger that enrollment left, it
    resolves to that Node, its owner and the credential that was issued; and the
    agent was active. *)
Theorem enrolled_token_authenticates `{Zod, RelayEnv, LedgerEnv, RelayCrypto}
    agentId input env pepper drawn salted requestId s res s' :
  Forall is_byte drawn -> len drawn = KEY_BYTES ->
  enrollNode agentId input env pepper drawn salted requestId s = (Ok res, s') ->
  active_agent (tables (base s)) agentId = true /\
  nodeBearerAuth pepper (bearer res.(en_credential).(cred_token)) s' =
    (Ok {| authn_id := res.(en_node).(node_node_id); authn_agentId := agentId;
           authn_name := input.(enroll_name); authn_status := S_active;
           authn_credentialId := res.(en_credential).(cred_id) |}, s').
Proof.
  intros Fd Ld E. unfold enrollNode in E. destruct (node_token env pepper drawn salted Fd Ld) as (Ne & Ch & Wf & Eh).
  set (key := generateNodeKey env pepper drawn salted) in *. unfold enroll_with in E. cbv zeta in E.
  assert (Ag : agents_of s' = agents_of s).
  { eapply transaction_agents; [exact E|]. unfold insert_node, insert_credential, toNodeDescriptor,
      lockAgentLifecycle. cbv zeta. keeps. }
  apply transaction_run in E as (sb & E & L2).
  ltx_one E. pose proof (keeps_lock _ _ _ _ R) as A1. hush R.
  ltx_one E. pose proof (keeps_lock _ _ _ _ R0) as A2. hush R0.
  apply lbind_ok in E as (owner & sc & Ro & E). pose proof (keeps_read _ _ _ _ Ro) as A3.
  assert (Ow : owner = active_agent (tables (base s)) agentId).
  { unfold read_base, lift, select in Ro. injection Ro as <- _. apply active_agent_same.
    change (agents_of s1 = agents_of s). by rewrite A2, A1. }
  hush Ro. ltx_one E. apply negb_false_iff in G. rewrite Ow in G. clear Ow owner. ltx_one E. ltx_one E.
  apply lbind_ok in E as (node & sd & Rn & E).
  assert (Nn : Nodes.agentId node = agentId /\ Nodes.name node = enroll_name input).
  { unfold insert_node in Rn. ltx_one Rn. ltx_one Rn. ltx_one Rn. by ltx Rn. }
  apply insert_node_ok in Rn as (L3 & Fn & Sn).
  apply lbind_ok in E as (cid & se & Rc & E). apply insert_credential_ok in Rc as (c & L4 & Ei & Ec & Ek & Er & U).
  ltx_one E. hush R1. apply lbind_ok in E as (desc & sf & Rd & E). unfold toNodeDescriptor in Rd. ltx_atom Rd.
  ltx_atom E. cbn [en_node en_credential cred_token cred_id node_node_id]. destruct Nn as [Na Nm].
  assert (L : ledger s' = (ledger sc) <| nodes := nodes (ledger sc) ++ [node] |>
                <| nodeCredentials := nodeCredentials (ledger sc) ++ [c] |>).
  { rewrite L2, R1, L4, L3. done. }
  split; [done|]. rewrite bearer_resolves by done. fold key. rewrite <-Eh.
  destruct (credential_found s' (hash key) c node) as (m & Hm & Sm & ->); rewrite ?L; cbn.
  - apply elem_of_app. right. left.
  - done.
  - done.
  - intros x [Hx|Hx%list_elem_of_singleton]%elem_of_app Ax; [|done]. destruct (U x); [|done].
    by rewrite L3.
  - apply elem_of_app. right. left.
  - unfold serves. rewrite Ec, Sn, Na. rewrite !bool_decide_true by done. cbn.
    by rewrite <-G; apply active_agent_same.
  - unfold serves in Sm. bool_hyps. rewrite L in Hm. cbn in Hm.
    assert (m = node) as ->.
    { apply elem_of_app in Hm as [Hm|Hm%list_elem_of_singleton]; [|done]. destruct Fn.
      apply list_elem_of_fmap. exists m. split; [congruence|done]. }
    unfold authenticated. by rewrite Na, Nm, Sn, Ei.
Qed.

(** C13: a rotation replaces the token.  It succeeds only on the owner's active
    Node and only if the credential named is the one that is active; then the new
    token resolves to the Node under the new credential, and the token of the old
    one, unless the two hash alike, is refused. *)
Theorem rotation_replaces_token `{Zod, RelayEnv, LedgerEnv, RelayCrypto}
    agentId nodeId expected env pepper drawn salted requestId s issued s' old env0 drawn0 salted0 :
  Forall is_byte drawn -> len drawn = KEY_BYTES -> Forall is_byte drawn0 -> len drawn0 = KEY_BYTES ->
  NoDup (omap active_hash (nodeCredentials (ledger s))) ->
  active_agent (tables (base s)) agentId = true ->
  old ∈ nodeCredentials (ledger s) -> NodeCredentials.id old = expected ->
  NodeCredentials.nodeId old = nodeId -> NodeCredentials.revokedAt old = None ->
  let before := generateNodeKey env0 pepper drawn0 salted0 in
  NodeCredentials.keyHash old = before.(hash) ->
  rotateNodeCredential agentId nodeId expected env pepper drawn salted requestId s = (Ok issued, s') ->
  (exists n, n ∈ nodes (ledger s) /\ Nodes.id n = nodeId /\ Nodes.agentId n = agentId /\
     Nodes.status n = S_active) /\
  active_credentials (ledger s) nodeId = [expected] /\
  (exists who, nodeBearerAuth pepper (bearer issued.(cred_token)) s' = (Ok who, s') /\
     who.(authn_id) = nodeId /\ who.(authn_credentialId) = issued.(cred_id)) /\
  (hashKey issued.(cred_token) pepper <> before.(hash) ->
   exists e, nodeBearerAuth pepper (bearer before.(raw)) s' = (Err (Thrown (Relay e)), s') /\
     RelayStore.code e = unauthenticated).
Proof.
  intros Fd Ld Fd0 Ld0 Nu Aa Ho Eo No Ro before Ho' E. unfold rotateNodeCredential in E.
  destruct (node_token env pepper drawn salted Fd Ld) as (Ne & Ch & Wf & Eh).
  set (key := generateNodeKey env pepper drawn salted) in *. unfold rotate_with in E.
  assert (Ag : agents_of s' = agents_of s).
  { eapply transaction_agents; [exact E|]. unfold insert_credential, lockNodeMutation,
      loadActiveCredentialIds, credentialStateChanged, revoke_credentials. cbv zeta. keeps. }
  apply transaction_run in E as (sb & E & L2). ltx_one E. hush R. ltx_one E.
  destruct (owned_node nodeId agentId (ledger s0)) as [n|] eqn:Fn; [|by ltx E]. rewrite R in Fn.
  apply array_find_Some in Fn as [Hn En]. bool_hyps. ltx_one E. bool_hyps.
  unfold loadActiveCredentialIds in E. ltx_one E. destruct (_ !== _) eqn:Ac in E; [by ltx E|].
  apply negb_false_iff, bool_decide_eq_true in Ac. rewrite R in Ac. change (ledger (begin_tx s)) with (ledger s) in *.
  apply lbind_ok in E as (revoked & sc & Rv & E). apply revoke_credentials_map in Rv as [L3 _].
  destruct revoked as [|prev rest]; [by ltx E|].
  apply lbind_ok in E as (cid & sd & Rc & E). apply insert_credential_ok in Rc as (c & L4 & Ei & Ec & Ek & Er & U).
  ltx_one E. hush R0. ltx_atom E. cbn [cred_token cred_id]. rewrite R in L3.
  set (p := fun c => (NodeCredentials.id c === expected) && (NodeCredentials.nodeId c === nodeId) &&
    is_null (NodeCredentials.revokedAt c)) in L3.
  assert (L : ledger s' = (ledger s) <| nodeCredentials :=
    map (fun c => if p c then revoked_credential (clock_timestamp (ticks s0)) c else c)
      (nodeCredentials (ledger s)) ++ [c] |>) by (rewrite L2, R0, L4, L3; done).
  rewrite L3 in U. cbn in U.
  split; [by exists n|]. split; [by apply take_two|]. split.
  - rewrite bearer_resolves by done. rewrite <-Eh.
    destruct (credential_found s' (hash key) c n) as (m & Hm & Sm & ->); rewrite ?L; cbn; try done.
    + apply elem_of_app. right. left.
    + intros x [Hx|Hx%list_elem_of_singleton]%elem_of_app Ax; [|done]. by destruct (U x Hx).
    + unfold serves. rewrite Ec, bool_decide_true by congruence. rewrite bool_decide_true by done. cbn.
      rewrite <-Aa. subst agentId. by apply active_agent_same.
    + unfold serves in Sm. bool_hyps. eexists. split; [reflexivity|]. cbn. split; [congruence|done].
  - intros Nh. destruct (node_token env0 pepper drawn0 salted0 Fd0 Ld0) as (Ne0 & Ch0 & Wf0 & Eh0).
    fold before in Ne0, Ch0, Wf0, Eh0. rewrite bearer_resolves by done.
    enough (credential_row (hashKey before.(raw) pepper) (tables (base s')) (ledger s') = None) as -> by eauto.
    rewrite <-Eh0. unfold credential_row. rewrite array_filter_none; [done|]. rewrite L. cbn.
    intros x Hx. apply andb_false_iff. destruct (decide (NodeCredentials.keyHash x = before.(hash))) as [Ex|Ex];
      [right|left; by apply bool_decide_false]. apply elem_of_app in Hx as [Hx|Hx%list_elem_of_singleton].
    + apply list_elem_of_fmap in Hx as (y & -> & Hy). destruct (p y) eqn:Py; [done|].
      destruct (NodeCredentials.revokedAt y) eqn:Ry; [done|]. exfalso.
      assert (y = old) as ->.
      { apply (NoDup_omap_eq active_hash _ y old before.(hash) Nu Hy Ho); unfold active_hash.
        - by rewrite Ry, Ex.
        - by rewrite Ro, Ho'. }
      subst p. cbn in Py. rewrite Ro, !bool_decide_true in Py by done. done.
    + subst x. rewrite Ek in Ex. by rewrite <-Eh in Nh.
Qed.

#[local] Existing Instance example_zod.
#[local] Existing Instance ex_relay_env.
#[local] Existing Instance ex_ledger_env.

(** A digest for the examples: the text itself. *)
#[local] Instance ex_crypto : RelayCrypto := {| sha256_digest := fun s => s |}.
Definition ex_drawn : list Z := seqZ 100 20.
Definition ex_redrawn : list Z := seqZ 7 20.
Definition ex_enrollment : NodeEnrollmentInput :=
  {| enroll_name := "desktop"; enroll_capabilities := ["git"; "codex"] |}.
Definition ex_enroll : LTx EnrollNodeResult :=
  enrollNode ex_agent_a ex_enrollment test "pepper" ex_drawn [1; 2; 3] None.

Lemma ex_drawn_bytes : Forall is_byte ex_drawn /\ Forall is_byte ex_redrawn.
Proof. split; apply Forall_forall; intros x Hx%elem_of_seqZ; unfold is_byte; lia. Qed.

Lemma enrolled_token_authenticates_witness :
  exists res s', ex_enroll ex_ledger = (Ok res, s') /\
    nodeBearerAuth "pepper" (bearer res.(en_credential).(cred_token)) s' =
      (Ok {| authn_id := res.(en_node).(node_node_id); authn_agentId := ex_agent_a;
             authn_name := "desktop"; authn_status := S_active;
             authn_credentialId := res.(en_credential).(cred_id) |}, s').
Proof.
  assert (V : is_ok (ex_enroll ex_ledger).1 = true) by by_vm.
  destruct (ex_enroll ex_ledger) as [[res|e] s'] eqn:E; [|discriminate V].
  - exists res, s'. split; [reflexivity|].
    exact (proj2 (enrolled_token_authenticates ex_agent_a ex_enrollment test "pepper" ex_drawn [1; 2; 3]
      None ex_ledger res s' (proj1 ex_drawn_bytes) eq_refl E)).
Defined.

(** The ledger the enrollment left, its new credential, and the rotation. *)
Definition ex_enrolled : Ledger := (ex_enroll ex_ledger).2.
Definition ex_old_credential (s : Ledger) : option NodeCredentials.NodeCredential :=
  nodeCredentials (ledger s) !! 2%nat.
Definition ex_rotation (old : NodeCredentials.NodeCredential) : LTx IssuedNodeCredential :=
  rotateNodeCredential ex_agent_a (NodeCredentials.nodeId old) (NodeCredentials.id old) test "pepper"
    ex_redrawn [4; 5] None.
Definition ex_before : GeneratedKey := generateNodeKey test "pepper" ex_drawn [1; 2; 3].

Lemma rotation_replaces_token_witness :
  exists old issued s', ex_old_credential ex_enrolled = Some old /\
    ex_rotation old ex_enrolled = (Ok issued, s') /\
    (exists who, nodeBearerAuth "pepper" (bearer issued.(cred_token)) s' = (Ok who, s') /\
       who.(authn_id) = NodeCredentials.nodeId old) /\
    exists e, nodeBearerAuth "pepper" (bearer ex_before.(raw)) s' = (Err (Thrown (Relay e)), s') /\
      RelayStore.code e = unauthenticated.
Proof.
  assert (V : match ex_old_credential ex_enrolled with
    | Some old => match ex_rotation old ex_enrolled with
        | (Ok issued, _) => is_null (NodeCredentials.revokedAt old) &&
            (NodeCredentials.keyHash old === ex_before.(hash)) &&
            (hashKey issued.(cred_token) "pepper" !== ex_before.(hash))
        | _ => false end
    | None => false end = true) by by_vm.
  assert (N : NoDup (omap active_hash (nodeCredentials (ledger ex_enrolled)))).
  { apply (bool_decide_eq_true_1 (NoDup (omap active_hash (nodeCredentials (ledger ex_enrolled))))). by_vm. }
  assert (A : active_agent (tables (base ex_enrolled)) ex_agent_a = true) by by_vm.
  destruct (ex_old_credential ex_enrolled) as [old|] eqn:Eo; [|discriminate V].
  destruct (ex_rotation old ex_enrolled) as [[issued|e] s'] eqn:E; [|discriminate V].
  apply andb_true_iff in V as [V Vn]. apply andb_true_iff in V as [V1 V2].
  apply is_null_iff in V1. apply bool_decide_eq_true in V2.
  apply negb_true_iff in Vn. apply bool_decide_eq_false in Vn.
  exists old, issued, s'. split; [reflexivity|]. split; [exact E|].
  unfold ex_rotation in E. unfold ex_before in *. clear - V1 V2 Vn Eo E N A.
  revert E N A Eo. generalize ex_enrolled as s. intros s E N A Eo.
  destruct (rotation_replaces_token ex_agent_a (NodeCredentials.nodeId old) (NodeCredentials.id old) test
    "pepper" ex_redrawn [4; 5] None s issued s' old test ex_drawn [1; 2; 3]
    (proj2 ex_drawn_bytes) eq_refl (proj1 ex_drawn_bytes) eq_refl N A
    (list_elem_of_lookup_2 _ _ _ Eo) eq_refl eq_refl V1 V2 E) as (_ & _ & (who & W & Wi & _) & F).
  split; [exists who; by split|]. exact (F Vn).
Defined.
