(* ===== verification/CapsuleState.v ===== *)
(** * The durable state of a Codex capsule

    node/src/codex-capsule-state.ts: the stored session, the stored turns, the
    schema of the state file and the validation every load and every write runs.
    The literals of the schema ([schema_version], [runtime], [prompt_version])
    carry no information and are left out of the records. *)

From S2P Require Import Prelude JsLib Json Schemas.
From S2P Require Import HostEvents JsonValue TurnInput CapsulePrompt.
Local Open Scope Z_scope.

Inductive SessionPhase := SP_prepared | SP_start_maybe_sent | SP_ready.
Inductive TurnPhase := TP_prepared | TP_start_maybe_sent | TP_accepted | TP_cancelling | TP_terminal.
Inductive Cancellation := CN_none | CN_requested | CN_interrupt_maybe_sent.
#[export] Instance SessionPhase_eq_dec : EqDecision SessionPhase.
Proof. solve_decision. Defined.
#[export] Instance TurnPhase_eq_dec : EqDecision TurnPhase.
Proof. solve_decision. Defined.
#[export] Instance Cancellation_eq_dec : EqDecision Cancellation.
Proof. solve_decision. Defined.

Record StoredSession := {
  ss_input : SessionInput;
  ss_input_sha256 : string;
  host_session_id : string;
  ss_phase : SessionPhase;
  codex_thread_id : option string
}.
#[export] Instance eta_StoredSession : Settable StoredSession :=
  fun r => {| ss_input := ss_input r; ss_input_sha256 := ss_input_sha256 r;
              host_session_id := host_session_id r; ss_phase := ss_phase r;
              codex_thread_id := codex_thread_id r |}.

Record StoredProviderIntent := {
  client_user_message_id : string;
  pi_text : string;
  text_sha256 : string;
  output_schema : JsonValue;
  output_schema_sha256 : string
}.

Record StoredCodexTurn := {
  input : StartTurnInput;
  input_sha256 : string;
  host_turn_id : string;
  phase : TurnPhase;
  codex_turn_id : option string;
  provider_intent : StoredProviderIntent;
  cancellation : Cancellation;
  events : list HostEvent;
  turn_created_at : string;
  turn_updated_at : string
}.
#[export] Instance eta_StoredCodexTurn : Settable StoredCodexTurn :=
  fun r => {| input := input r; input_sha256 := input_sha256 r; host_turn_id := host_turn_id r;
              phase := phase r; codex_turn_id := codex_turn_id r;
              provider_intent := provider_intent r; cancellation := cancellation r;
              events := events r; turn_created_at := turn_created_at r;
              turn_updated_at := turn_updated_at r |}.

Record CodexCapsuleState := {
  capsule_id : string;
  created_at : string;
  updated_at : string;
  session : StoredSession;
  turns : gmap string StoredCodexTurn
}.
#[export] Instance eta_CodexCapsuleState : Settable CodexCapsuleState :=
  fun r => {| capsule_id := capsule_id r; created_at := created_at r; updated_at := updated_at r;
              session := session r; turns := turns r |}.

Record CodexCapsuleIdentity := { capsuleId : string; id_session : SessionInput }.

(** ** Schemas *)
Definition localReferenceSchema (s : string) : bool := bounded 1 256 s.
Definition providerReferenceSchema (s : string) : bool := bounded 1 1024 s.

Definition storedSessionSchema `{Zod} (s : StoredSession) : bool :=
  sessionInputSchema s.(ss_input) && sha256Schema s.(ss_input_sha256) &&
  localReferenceSchema s.(host_session_id) && nullable providerReferenceSchema s.(codex_thread_id).

Definition storedProviderIntentSchema (p : StoredProviderIntent) : bool :=
  providerReferenceSchema p.(client_user_message_id) && bounded 1 1048576 p.(pi_text) &&
  sha256Schema p.(text_sha256) && non_null (jsonValueSchema p.(output_schema)) &&
  sha256Schema p.(output_schema_sha256).

Definition storedCodexTurnSchema `{Zod} `{NodeJs} (t : StoredCodexTurn) : option StoredCodexTurn :=
  input ← startTurnInputSchema (start_input t.(input));
  if sha256Schema t.(input_sha256) && localReferenceSchema t.(host_turn_id) &&
     nullable providerReferenceSchema t.(codex_turn_id) &&
     storedProviderIntentSchema t.(provider_intent) &&
     every hostEventSchema t.(events) && (1 <=? len t.(events)) &&
     zod_datetime t.(turn_created_at) && zod_datetime t.(turn_updated_at)
  then Some (t <| CapsuleState.input := input |>) else None.

(** [z.record(storedCodexTurnSchema)] *)
Definition turns_schema `{Zod} `{NodeJs} (m : gmap string StoredCodexTurn)
    : option (gmap string StoredCodexTurn) :=
  if bool_decide (map_Forall (fun _ t => is_Some (storedCodexTurnSchema t)) m)
  then Some (omap storedCodexTurnSchema m) else None.

Definition codexCapsuleStateSchema `{Zod} `{NodeJs} (s : CodexCapsuleState)
    : option CodexCapsuleState :=
  if negb (uuidSchema s.(capsule_id) && zod_datetime s.(created_at) &&
           zod_datetime s.(updated_at) && storedSessionSchema s.(session)) then None else
  turns ← turns_schema s.(turns);
  if Z.of_nat (size turns) <=? 200 then Some (s <| CapsuleState.turns := turns |>) else None.

(** ** References *)
Definition hostSessionFromState (state : CodexCapsuleState) : HostSessionRef :=
  {| hs_input := state.(session).(ss_input); hs_sessionId := state.(session).(host_session_id) |}.

Definition hostTurnFromStored (turn : StoredCodexTurn) : HostTurnRef :=
  let t := turn.(input).(sti_turn) in
  {| turnId := turn.(host_turn_id);
     sessionId := t.(ti_session).(hs_sessionId);
     missionId := t.(ti_missionId);
     deliveryId := turn.(input).(sti_deliveryId);
     executionAttempt := turn.(input).(sti_executionAttempt);
     contractVersion := t.(ti_contractVersion) |}.

Definition isStoredTurnTerminal (turn : StoredCodexTurn) : bool := turn.(phase) === TP_terminal.

Definition cloneStoredEvents (turn : StoredCodexTurn) : list HostEvent := turn.(events).

(** ** Validation *)
Definition parseIdentity `{Zod} (identity : CodexCapsuleIdentity)
    : result CapsuleError CodexCapsuleIdentity :=
  throw CapsuleZodError when negb (uuidSchema identity.(capsuleId)) in
  throw CapsuleZodError when negb (sessionInputSchema identity.(id_session)) in
  Ok identity.

Definition validateSession `{NodeJs} (state : CodexCapsuleState) : result CapsuleError unit :=
  let s := state.(session) in
  throw (PlainError "Codex Capsule session digest does not match its exact input")
    when s.(ss_input_sha256) !== digestCanonicalJson (session_json s.(ss_input)) in
  let hasThread := non_null s.(codex_thread_id) in
  throw (PlainError "Codex Capsule session phase does not match its thread binding")
    when negb (Bool.eqb (s.(ss_phase) === SP_ready) hasThread) in
  Ok tt.

Definition is_cancelled (k : HostEventKind) : bool :=
  match k with HE_cancelled => true | _ => false end.

(** [list.at(-2)] *)
Definition at_minus_2 {A} (l : list A) : option A := head (tail (rev l)).

Definition validateTurnPhase (turn : StoredCodexTurn) : result CapsuleError unit :=
  throw (PlainError "Codex Capsule turn crossed a provider binding before its start phase")
    when includes [TP_prepared; TP_start_maybe_sent] turn.(phase) &&
         non_null turn.(codex_turn_id) in
  throw (PlainError "Accepted Codex turn is missing its provider binding")
    when (turn.(phase) === TP_accepted) && is_null turn.(codex_turn_id) in
  throw (PlainError "Cancelling Codex turn is missing its cancellation barrier")
    when (turn.(phase) === TP_cancelling) && (turn.(cancellation) === CN_none) in
  throw (PlainError "Codex turn has a cancellation barrier in the wrong phase")
    when (turn.(phase) !== TP_cancelling) && (turn.(phase) !== TP_terminal) &&
         (turn.(cancellation) !== CN_none) in
  throw (PlainError "Cancelled Codex turn lacks a durable local cancellation intent")
    when (turn.(phase) === TP_terminal) &&
         match at_last turn.(events) with
         | Some event => is_cancelled event.(he_kind)
         | None => false
         end && (turn.(cancellation) === CN_none) in
  Ok tt.

(** [acceptHostEvent] throws a plain [Error] or a zod error. *)
Definition host_error (e : HostError) : CapsuleError :=
  match e with
  | HostZodError => CapsuleZodError
  | ParticipantNotFound agent => PlainError agent
  | InvalidPolicy => PlainError "Host event stream limits must be positive safe integers"
  | InvalidHostEventStream reason => PlainError ("Invalid host event stream: " +:+ reason)
  end.

Definition expected_turn (turn : StoredCodexTurn) : HostTurnCorrelation :=
  {| cor_turnId := None; cor_rest := hostTurnFromStored turn |}.

Definition validateTurnEvents `{Zod} (turn : StoredCodexTurn) : result CapsuleError unit :=
  match accept_stream DEFAULT_HOST_EVENT_STREAM_POLICY
          (createHostEventStreamState (expected_turn turn)) turn.(events) with
  | Err e => Err (host_error e)
  | Ok stream =>
      throw (PlainError "Codex Capsule terminal phase does not match its event stream")
        when negb (Bool.eqb (turn.(phase) === TP_terminal) (stream.(st_phase) === PH_terminal)) in
      Ok tt
  end.

Definition validateTurn `{Zod} `{NodeJs} (state : CodexCapsuleState) (key : string)
    (turn : StoredCodexTurn) : result CapsuleError unit :=
  throw (PlainError "Codex Capsule turn is stored under the wrong execution key")
    when key !== executionKey turn.(input).(sti_deliveryId) turn.(input).(sti_executionAttempt) in
  let* digest := digestStartTurnInput turn.(input) in
  throw (PlainError "Codex Capsule turn digest does not match its exact input")
    when turn.(input_sha256) !== digest in
  throw (PlainError "Codex Capsule turn does not belong to its runtime session")
    when turn.(input).(sti_turn).(ti_session) !== hostSessionFromState state in
  let* expectedIntent := buildCodexCapsuleTurnIntent turn.(input) in
  let intent := turn.(provider_intent) in
  throw (PlainError "Codex Capsule provider intent does not match its exact turn input")
    when (intent.(client_user_message_id) !== expectedIntent.(clientUserMessageId)) ||
         (intent.(pi_text) !== expectedIntent.(text)) ||
         (intent.(text_sha256) !== expectedIntent.(textSha256)) ||
         negb (isDeepStrictEqual intent.(output_schema) expectedIntent.(outputSchema)) ||
         (intent.(output_schema_sha256) !== expectedIntent.(outputSchemaSha256)) ||
         (intent.(text_sha256) !== sha256 intent.(pi_text)) ||
         (intent.(output_schema_sha256) !== digestCanonicalJson intent.(output_schema)) in
  let* _ := validateTurnPhase turn in
  validateTurnEvents turn.

(** The loop over [Object.entries(state.turns)]; its order decides only which of
    several errors is thrown. *)
Fixpoint validate_turns `{Zod} `{NodeJs} (state : CodexCapsuleState) (activeTurns : Z)
    (entries : list (string * StoredCodexTurn)) : result CapsuleError Z :=
  match entries with
  | [] => Ok activeTurns
  | (key, turn) :: entries =>
      let* _ := validateTurn state key turn in
      validate_turns state (if turn.(phase) !== TP_terminal then activeTurns + 1 else activeTurns)
        entries
  end.

Definition validateCodexCapsuleState `{Zod} `{NodeJs} (identityValue : CodexCapsuleIdentity)
    (stateValue : CodexCapsuleState) : result CapsuleError CodexCapsuleState :=
  let* identity := parseIdentity identityValue in
  let* state := parse (codexCapsuleStateSchema stateValue) in
  throw (PlainError "Codex Capsule state belongs to another capsule generation")
    when state.(capsule_id) !== identity.(capsuleId) in
  throw (PlainError "Codex Capsule state belongs to another Mission session scope")
    when state.(session).(ss_input) !== identity.(id_session) in
  let* _ := validateSession state in
  let* activeTurns := validate_turns state 0 (map_to_list state.(turns)) in
  throw (PlainError "Codex Capsule contains multiple active turns") when 1 <? activeTurns in
  throw (PlainError "Codex Capsule contains turns before its runtime session is ready")
    when (state.(session).(ss_phase) !== SP_ready) &&
         (0 <? len (map_to_list state.(turns))) in
  Ok state.

(** [createCodexCapsuleState(identity, now)]; [uuid] is what [randomUUID()] returns. *)
Definition createCodexCapsuleState `{Zod} `{NodeJs} (identityValue : CodexCapsuleIdentity)
    (now : Z) (uuid : string) : result CapsuleError CodexCapsuleState :=
  let* identity := parseIdentity identityValue in
  let timestamp := toISOString now in
  parse (codexCapsuleStateSchema
    {| capsule_id := identity.(capsuleId); created_at := timestamp; updated_at := timestamp;
       session :=
         {| ss_input := identity.(id_session);
            ss_input_sha256 := digestCanonicalJson (session_json identity.(id_session));
            host_session_id := "capsule-session-" +:+ uuid; ss_phase := SP_prepared;
            codex_thread_id := None |};
       turns := ∅ |}).
