(* ===== verification/Capsule.v ===== *)
(** * The Codex capsule store

    node/src/codex-capsule-records.ts, codex-capsule-transitions.ts and
    codex-capsule-store.ts.  A transition is a function of the (cloned) state that
    returns a value and the changed state, or throws; [mutate] stamps, validates
    and commits the result.  [randomUUID()] and the clock are arguments. *)

From S2P Require Import Prelude JsLib Json Schemas.
From S2P Require Import HostEvents JsonValue TurnInput CapsulePrompt CapsuleState.
Local Open Scope Z_scope.

(** ** Claims and outcomes: codex-capsule-types.ts *)
Inductive CodexSessionStartClaim :=
| SessionSend
| SessionReconcile
| SessionReady (session : HostSessionRef) (threadId : option string).
Inductive CodexTurnStartClaim :=
| TurnSend (intent : CodexCapsuleTurnIntent)
| TurnReconcile (intent : CodexCapsuleTurnIntent)
| TurnAccepted (turn : HostTurnRef) (terminal : bool).
Inductive CodexInterruptClaim :=
| InterruptSend (threadId : option string) (codexTurnId : string)
| InterruptAwaitingProvider
| InterruptReconcile
| InterruptTerminal.
Inductive CodexNormalizedTerminal :=
| N_completed (disposition : TurnDisposition)
| N_failed (failure : HostFailure)
| N_cancelled.
#[export] Instance CodexNormalizedTerminal_eq_dec : EqDecision CodexNormalizedTerminal.
Proof. solve_decision. Defined.
Record CodexTurnRuntimeState := {
  rs_turn : HostTurnRef; rs_intent : CodexCapsuleTurnIntent; rs_phase : TurnPhase;
  rs_threadId : option string; rs_codexTurnId : option string;
  rs_cancellationRequested : bool; rs_terminal : bool
}.

(** ** Records *)
Definition storedIntent (intent : CodexCapsuleTurnIntent) : StoredProviderIntent :=
  {| client_user_message_id := intent.(clientUserMessageId); pi_text := intent.(text);
     text_sha256 := intent.(textSha256); output_schema := intent.(outputSchema);
     output_schema_sha256 := intent.(outputSchemaSha256) |}.

Definition publicIntent (turn : StoredCodexTurn) : CodexCapsuleTurnIntent :=
  let p := turn.(provider_intent) in
  {| clientUserMessageId := p.(client_user_message_id); text := p.(pi_text);
     textSha256 := p.(text_sha256); outputSchema := p.(output_schema);
     outputSchemaSha256 := p.(output_schema_sha256) |}.

Definition conflict (message : string) : CapsuleError :=
  CapsuleOperationError C_correlation_conflict message.
Definition not_found (message : string) : CapsuleError := CapsuleOperationError C_not_found message.
Definition scope_mismatch (message : string) : CapsuleError :=
  CapsuleOperationError C_scope_mismatch message.

Definition requireReadySession (state : CodexCapsuleState) : result CapsuleError HostSessionRef :=
  throw (scope_mismatch "Codex Capsule session is not ready")
    when state.(session).(ss_phase) !== SP_ready in
  Ok (hostSessionFromState state).

Definition assertSameInput `{Zod} `{NodeJs} (turn : StoredCodexTurn) (input : StartTurnInput)
    : result CapsuleError unit :=
  let different := conflict "Codex execution key was reused with a different exact input" in
  throw different when turn.(CapsuleState.input) !== input in
  let* digest := digestStartTurnInput input in
  throw different when turn.(input_sha256) !== digest in
  Ok tt.

Definition input_key {P} (input : StartTurnInputOf P) : string :=
  executionKey input.(sti_deliveryId) input.(sti_executionAttempt).
Definition ref_key (ref : HostTurnRef) : string :=
  executionKey ref.(deliveryId) ref.(executionAttempt).

Definition requireTurnByInput `{Zod} `{NodeJs} (state : CodexCapsuleState) (input : StartTurnInput)
    : result CapsuleError StoredCodexTurn :=
  match state.(turns) !! input_key input with
  | None => Err (not_found "Codex turn is not prepared")
  | Some turn => let* _ := assertSameInput turn input in Ok turn
  end.

Definition requireTurnByRef (state : CodexCapsuleState) (ref : HostTurnRef)
    : result CapsuleError StoredCodexTurn :=
  let missing := not_found ("Codex Capsule turn was not found: " +:+ ref.(turnId)) in
  match state.(turns) !! ref_key ref with
  | None => Err missing
  | Some turn => throw missing when hostTurnFromStored turn !== ref in Ok turn
  end.

(** Stringifying a disposition and parsing it again gives the disposition. *)
Definition parseTerminal `{Zod} (outcome : CodexNormalizedTerminal)
    : result CapsuleError CodexNormalizedTerminal :=
  match outcome with
  | N_completed disposition =>
      throw CapsuleZodError when negb (turnDispositionSchema disposition) in
      let* _ := parseCodexCapsuleDisposition (Some disposition) in
      Ok (N_completed disposition)
  | N_failed failure => throw CapsuleZodError when negb (hostFailureSchema failure) in Ok (N_failed failure)
  | N_cancelled => Ok N_cancelled
  end.

Definition terminal_kind (outcome : CodexNormalizedTerminal) : HostEventKind :=
  match outcome with
  | N_completed disposition => HE_completed disposition
  | N_failed failure => HE_failed failure
  | N_cancelled => HE_cancelled
  end.

Definition replayTerminalEvents (turn : StoredCodexTurn) (usage : HostUsage)
    (outcome : CodexNormalizedTerminal) : result CapsuleError (list HostEvent) :=
  let ref := hostTurnFromStored turn in
  match at_last turn.(events), at_minus_2 turn.(events) with
  | Some terminal, Some {| he_kind := HE_usage usage' |} =>
      let expectedTerminal := {| he_kind := terminal_kind outcome; he_turn := ref;
                                 he_sequence := terminal.(he_sequence) |} in
      throw (conflict "Codex terminal replay conflicts with durable output")
        when (usage' !== usage) || (terminal !== expectedTerminal) in
      Ok turn.(events)
  | _, _ => Err (conflict "Codex terminal replay is missing its durable usage event")
  end.

(** ** Transitions *)
Definition transition (A : Type) : Type :=
  CodexCapsuleState -> result CapsuleError (A * CodexCapsuleState).

Definition set_session_phase (phase : SessionPhase) (state : CodexCapsuleState) : CodexCapsuleState :=
  state <| session := state.(session) <| ss_phase := phase |> |>.

(** Writing through the reference [state.turns[key]]. *)
Definition put_turn (key : string) (turn : StoredCodexTurn) (state : CodexCapsuleState)
    : CodexCapsuleState :=
  state <| turns := <[key := turn]> state.(turns) |>.

Definition claimSessionStart : transition CodexSessionStartClaim := fun state =>
  match state.(session).(ss_phase) with
  | SP_ready => Ok (SessionReady (hostSessionFromState state) state.(session).(codex_thread_id), state)
  | SP_start_maybe_sent => Ok (SessionReconcile, state)
  | SP_prepared => Ok (SessionSend, set_session_phase SP_start_maybe_sent state)
  end.

Definition acceptSession (threadId : string) : transition HostSessionRef := fun state =>
  if state.(session).(ss_phase) === SP_ready then
    throw (conflict "Codex Capsule session is already bound to another thread")
      when state.(session).(codex_thread_id) !== Some threadId in
    Ok (hostSessionFromState state, state)
  else
  throw (conflict "Codex Capsule thread acceptance is missing its start barrier")
    when state.(session).(ss_phase) !== SP_start_maybe_sent in
  Ok (hostSessionFromState state,
      state <| session := state.(session) <| ss_phase := SP_ready |>
                                          <| codex_thread_id := Some threadId |> |>).

Definition resetUnboundSessionAfterQuiescence : transition unit := fun state =>
  throw (conflict "Codex Capsule session has no unresolved thread start")
    when (state.(session).(ss_phase) !== SP_start_maybe_sent) ||
         non_null state.(session).(codex_thread_id) in
  throw (conflict "Codex Capsule cannot replace a session after preparing a turn")
    when 0 <? len (map_to_list state.(turns)) in
  Ok (tt, set_session_phase SP_prepared state).

Definition host_event (turn : StoredCodexTurn) (kind : HostEventKind) : HostEvent :=
  {| he_kind := kind; he_turn := hostTurnFromStored turn; he_sequence := len turn.(events) + 1 |}.
Definition push_event (kind : HostEventKind) (turn : StoredCodexTurn) : StoredCodexTurn :=
  turn <| events := turn.(events) ++ [host_event turn kind] |>.

Definition prepareTurn `{Zod} `{NodeJs} (input : StartTurnInput) (timestamp uuid : string)
    : transition HostTurnRef := fun state =>
  let* session := requireReadySession state in
  throw (scope_mismatch "Turn does not match the Codex session")
    when input.(sti_turn).(ti_session) !== session in
  let key := input_key input in
  match state.(turns) !! key with
  | Some existing =>
      let* _ := assertSameInput existing input in
      Ok (hostTurnFromStored existing, state)
  | None =>
      throw (conflict "Codex Capsule already has an active turn")
        when some (fun '(_, turn) => turn.(phase) !== TP_terminal) (map_to_list state.(turns)) in
      let* digest := digestStartTurnInput input in
      let* intent := buildCodexCapsuleTurnIntent input in
      let turn :=
        {| CapsuleState.input := input; input_sha256 := digest;
           host_turn_id := "capsule-turn-" +:+ uuid; phase := TP_prepared; codex_turn_id := None;
           provider_intent := storedIntent intent; cancellation := CN_none; events := [];
           turn_created_at := timestamp; turn_updated_at := timestamp |} in
      Ok (hostTurnFromStored turn, put_turn key (push_event HE_accepted turn) state)
  end.

Definition claimTurnStart `{Zod} `{NodeJs} (input : StartTurnInput)
    : transition CodexTurnStartClaim := fun state =>
  let* turn := requireTurnByInput state input in
  if turn.(phase) === TP_prepared then
    Ok (TurnSend (publicIntent turn),
        put_turn (input_key input) (turn <| phase := TP_start_maybe_sent |>) state)
  else if (turn.(phase) === TP_start_maybe_sent) ||
          ((turn.(phase) === TP_cancelling) && is_null turn.(codex_turn_id)) then
    Ok (TurnReconcile (publicIntent turn), state)
  else Ok (TurnAccepted (hostTurnFromStored turn) (turn.(phase) === TP_terminal), state).

Definition acceptTurn `{Zod} `{NodeJs} (input : StartTurnInput) (codexTurnId : string)
    : transition HostTurnRef := fun state =>
  let* turn := requireTurnByInput state input in
  if non_null turn.(codex_turn_id) then
    throw (conflict "Codex execution is already bound to another provider turn")
      when turn.(codex_turn_id) !== Some codexTurnId in
    Ok (hostTurnFromStored turn, state)
  else
  throw (conflict "Codex turn acceptance is missing its at-most-once start barrier")
    when (turn.(phase) !== TP_start_maybe_sent) && (turn.(phase) !== TP_cancelling) in
  let phase' := if turn.(phase) === TP_start_maybe_sent then TP_accepted else turn.(phase) in
  let turn := turn <| codex_turn_id := Some codexTurnId |> <| phase := phase' |> in
  Ok (hostTurnFromStored turn, put_turn (input_key input) turn state).

Definition appendTerminal (usage : HostUsage) (outcome : CodexNormalizedTerminal)
    (turn : StoredCodexTurn) : StoredCodexTurn :=
  (push_event (terminal_kind outcome) (push_event (HE_usage usage) turn)) <| phase := TP_terminal |>.

Definition not_reported : HostUsage := UsageUnavailable U_not_reported.

Definition requestCancellation (ref : HostTurnRef) : transition unit := fun state =>
  let* turn := requireTurnByRef state ref in
  if (turn.(phase) === TP_terminal) || (turn.(phase) === TP_cancelling) then Ok (tt, state)
  else if turn.(phase) === TP_prepared then
    Ok (tt, put_turn (ref_key ref)
              (appendTerminal not_reported N_cancelled (turn <| cancellation := CN_requested |>)) state)
  else
    Ok (tt, put_turn (ref_key ref)
              (turn <| phase := TP_cancelling |> <| cancellation := CN_requested |>) state).

Definition claimInterrupt (ref : HostTurnRef) : transition CodexInterruptClaim := fun state =>
  let* turn := requireTurnByRef state ref in
  if turn.(phase) === TP_terminal then Ok (InterruptTerminal, state) else
  throw (conflict "Codex cancellation was not requested") when turn.(phase) !== TP_cancelling in
  match turn.(codex_turn_id) with
  | None => Ok (InterruptAwaitingProvider, state)
  | Some codexTurnId =>
      if turn.(cancellation) === CN_interrupt_maybe_sent then Ok (InterruptReconcile, state) else
      Ok (InterruptSend state.(session).(codex_thread_id) codexTurnId,
          put_turn (ref_key ref) (turn <| cancellation := CN_interrupt_maybe_sent |>) state)
  end.

Definition transient_failure (message : string) : CodexNormalizedTerminal :=
  N_failed {| hf_class := R_transient; hf_message := message |}.

Definition recordUncertainInterruptAfterQuiescence `{Zod} `{NodeJs} (ref : HostTurnRef)
    (expectedInput : StartTurnInput) : transition (list HostEvent) := fun state =>
  let* turn := requireTurnByRef state ref in
  let* _ := assertSameInput turn expectedInput in
  if turn.(phase) === TP_terminal then Ok (cloneStoredEvents turn, state) else
  throw (conflict "Codex turn has no uncertain provider interrupt to close")
    when (turn.(phase) !== TP_cancelling) || (turn.(cancellation) !== CN_interrupt_maybe_sent) ||
         is_null turn.(codex_turn_id) in
  let turn := appendTerminal not_reported (transient_failure
    "Codex cancellation outcome could not be recovered after provider shutdown") turn in
  Ok (cloneStoredEvents turn, put_turn (ref_key ref) turn state).

Definition recordUnmatchedStartAfterQuiescence `{Zod} `{NodeJs} (ref : HostTurnRef)
    (expectedInput : StartTurnInput) : transition (list HostEvent) := fun state =>
  let* turn := requireTurnByRef state ref in
  let* _ := assertSameInput turn expectedInput in
  if turn.(phase) === TP_terminal then Ok (cloneStoredEvents turn, state) else
  throw (conflict "Codex turn is not an unresolved provider start")
    when ((turn.(phase) !== TP_start_maybe_sent) && (turn.(phase) !== TP_cancelling)) ||
         non_null turn.(codex_turn_id) in
  let outcome := if turn.(cancellation) === CN_none
                 then transient_failure "Codex start could not be recovered after provider shutdown"
                 else N_cancelled in
  let turn := appendTerminal not_reported outcome turn in
  Ok (cloneStoredEvents turn, put_turn (ref_key ref) turn state).

Definition recordTerminal `{Zod} (ref : HostTurnRef) (usage : HostUsage)
    (outcomeValue : CodexNormalizedTerminal) : transition (list HostEvent) := fun state =>
  let* outcome := parseTerminal outcomeValue in
  let* turn := requireTurnByRef state ref in
  if turn.(phase) === TP_terminal then
    let* events := replayTerminalEvents turn usage outcome in Ok (events, state)
  else
  throw (conflict "Codex cancellation lacks a durable local cancellation intent")
    when (outcome === N_cancelled) && (turn.(phase) !== TP_cancelling) in
  throw (conflict "Codex terminal result arrived before durable provider binding")
    when (turn.(phase) !== TP_accepted) && (turn.(phase) !== TP_cancelling) in
  let turn := appendTerminal usage outcome turn in
  Ok (cloneStoredEvents turn, put_turn (ref_key ref) turn state).

(** ** The store *)

(** What [randomUUID()] returns and what the clock reads, in the mutator and at the commit. *)
Record CallEnv := { env_uuid : string; env_timestamp : Z; env_now : Z }.

Definition stamp (timestamp : string) (state : CodexCapsuleState) : CodexCapsuleState :=
  state <| updated_at := timestamp |>
        <| turns := (fun turn => turn <| turn_updated_at := timestamp |>) <$> state.(turns) |>.

(** The state [mutate] writes, with the mutator's value. *)
Definition mutate `{Zod} `{NodeJs} {A} (identity : CodexCapsuleIdentity) (env : CallEnv)
    (mutator : transition A) : transition A := fun state =>
  let* (value, next) := mutator state in
  let* validated := validateCodexCapsuleState identity (stamp (toISOString env.(env_now)) next) in
  Ok (value, validated).

(** An input as callers send it. *)
Notation StartTurnInputValue := (StartTurnInputOf HostArtifactPayloadInput).

Inductive CapsuleCall :=
| Call_claimSessionStart
| Call_acceptSession (codexThreadIdValue : string)
| Call_resetUnboundSessionAfterQuiescence
| Call_prepareTurn (inputValue : StartTurnInputValue)
| Call_claimTurnStart (inputValue : StartTurnInputValue)
| Call_acceptTurn (inputValue : StartTurnInputValue) (codexTurnIdValue : string)
| Call_requestCancellation (refValue : HostTurnRef)
| Call_claimInterrupt (refValue : HostTurnRef)
| Call_recordUncertainInterruptAfterQuiescence (refValue : HostTurnRef)
    (expectedInputValue : StartTurnInputValue)
| Call_recordUnmatchedStartAfterQuiescence (refValue : HostTurnRef)
    (expectedInputValue : StartTurnInputValue)
| Call_recordTerminal (refValue : HostTurnRef) (usageValue : HostUsage)
    (outcome : CodexNormalizedTerminal).

Inductive CapsuleReply :=
| Reply_void
| Reply_session_claim (claim : CodexSessionStartClaim)
| Reply_session (session : HostSessionRef)
| Reply_turn (turn : HostTurnRef)
| Reply_turn_claim (claim : CodexTurnStartClaim)
| Reply_interrupt_claim (claim : CodexInterruptClaim)
| Reply_events (events : list HostEvent).

Definition replies {A} (f : A -> CapsuleReply) (m : transition A) : transition CapsuleReply :=
  fun state => let* (a, next) := m state in Ok (f a, next).

(** The mutator of a method, once its arguments are parsed. *)
Definition mutator_of `{Zod} `{NodeJs} (env : CallEnv) (call : CapsuleCall)
    : result CapsuleError (transition CapsuleReply) :=
  let input_of value := parse (startTurnInputSchema value) in
  let ref_of value := parse_bool hostTurnRefSchema value in
  match call with
  | Call_claimSessionStart => Ok (replies Reply_session_claim claimSessionStart)
  | Call_acceptSession codexThreadIdValue =>
      let* threadId := parse_bool providerReferenceSchema codexThreadIdValue in
      Ok (replies Reply_session (acceptSession threadId))
  | Call_resetUnboundSessionAfterQuiescence =>
      Ok (replies (fun _ => Reply_void) resetUnboundSessionAfterQuiescence)
  | Call_prepareTurn inputValue =>
      let* input := input_of inputValue in
      Ok (replies Reply_turn (prepareTurn input (toISOString env.(env_timestamp)) env.(env_uuid)))
  | Call_claimTurnStart inputValue =>
      let* input := input_of inputValue in
      Ok (replies Reply_turn_claim (claimTurnStart input))
  | Call_acceptTurn inputValue codexTurnIdValue =>
      let* input := input_of inputValue in
      let* codexTurnId := parse_bool providerReferenceSchema codexTurnIdValue in
      Ok (replies Reply_turn (acceptTurn input codexTurnId))
  | Call_requestCancellation refValue =>
      let* ref := ref_of refValue in
      Ok (replies (fun _ => Reply_void) (requestCancellation ref))
  | Call_claimInterrupt refValue =>
      let* ref := ref_of refValue in
      Ok (replies Reply_interrupt_claim (claimInterrupt ref))
  | Call_recordUncertainInterruptAfterQuiescence refValue expectedInputValue =>
      let* ref := ref_of refValue in
      let* expectedInput := input_of expectedInputValue in
      Ok (replies Reply_events (recordUncertainInterruptAfterQuiescence ref expectedInput))
  | Call_recordUnmatchedStartAfterQuiescence refValue expectedInputValue =>
      let* ref := ref_of refValue in
      let* expectedInput := input_of expectedInputValue in
      Ok (replies Reply_events (recordUnmatchedStartAfterQuiescence ref expectedInput))
  | Call_recordTerminal refValue usageValue outcome =>
      let* ref := ref_of refValue in
      let* usage := parse_bool hostUsageSchema usageValue in
      Ok (replies Reply_events (recordTerminal ref usage outcome))
  end.

(** A method of the store: its reply and the state it commits. *)
Definition call_store `{Zod} `{NodeJs} (identity : CodexCapsuleIdentity) (env : CallEnv)
    (call : CapsuleCall) : transition CapsuleReply := fun state =>
  let* mutator := mutator_of env call in mutate identity env mutator state.

(** The methods that only read. *)
Definition lookupTurn `{Zod} (deliveryId : string) (executionAttempt : Z)
    (state : CodexCapsuleState) : result CapsuleError (option HostTurnRef) :=
  let* deliveryId := parse_bool uuidSchema deliveryId in
  let* executionAttempt := parse_bool hostExecutionAttemptSchema executionAttempt in
  Ok (hostTurnFromStored <$> state.(turns) !! executionKey deliveryId executionAttempt).

Definition expected_stored_turn `{Zod} `{NodeJs} (refValue : HostTurnRef)
    (expectedInputValue : StartTurnInputValue) (state : CodexCapsuleState)
    : result CapsuleError StoredCodexTurn :=
  let* ref := parse_bool hostTurnRefSchema refValue in
  let* expectedInput := parse (startTurnInputSchema expectedInputValue) in
  let* turn := requireTurnByRef state ref in
  let* _ := assertSameInput turn expectedInput in
  Ok turn.

Definition inspectTurn `{Zod} `{NodeJs} (refValue : HostTurnRef)
    (expectedInputValue : StartTurnInputValue) (state : CodexCapsuleState)
    : result CapsuleError CodexTurnRuntimeState :=
  let* turn := expected_stored_turn refValue expectedInputValue state in
  Ok {| rs_turn := hostTurnFromStored turn; rs_intent := publicIntent turn;
        rs_phase := turn.(phase); rs_threadId := state.(session).(codex_thread_id);
        rs_codexTurnId := turn.(codex_turn_id);
        rs_cancellationRequested := turn.(cancellation) !== CN_none;
        rs_terminal := isStoredTurnTerminal turn |}.

Definition eventsForTurn `{Zod} `{NodeJs} (refValue : HostTurnRef)
    (expectedInputValue : StartTurnInputValue) (state : CodexCapsuleState)
    : result CapsuleError (list HostEvent) :=
  let* turn := expected_stored_turn refValue expectedInputValue state in
  Ok (cloneStoredEvents turn).

Definition inputForTurn `{Zod} (refValue : HostTurnRef) (state : CodexCapsuleState)
    : result CapsuleError StartTurnInput :=
  let* ref := parse_bool hostTurnRefSchema refValue in
  let* turn := requireTurnByRef state ref in
  Ok turn.(input).

Definition sessionScope (state : CodexCapsuleState) : SessionInput := state.(session).(ss_input).

(** ** A capsule and its state file

    [disk] is the content of the state file, [memory] the state of the process
    that has it open.  The log records every call with the reply its caller got:
    none if the call threw, or the process died first.  A call that fails in
    [writePrivateJson] has or has not replaced the file. *)
Record Capsule := {
  memory : option CodexCapsuleState;
  disk : option CodexCapsuleState;
  log : list (CapsuleCall * option CapsuleReply)
}.

Inductive capsule_step `{Zod} `{NodeJs} (identity : CodexCapsuleIdentity) : Capsule -> Capsule -> Prop :=
| step_create c now uuid s :
    c.(memory) = None -> c.(disk) = None -> createCodexCapsuleState identity now uuid = Ok s ->
    capsule_step identity c {| memory := Some s; disk := Some s; log := c.(log) |}
| step_create_fails c now uuid s :
    c.(memory) = None -> c.(disk) = None -> createCodexCapsuleState identity now uuid = Ok s ->
    capsule_step identity c {| memory := None; disk := Some s; log := c.(log) |}
| step_open c d s :
    c.(memory) = None -> c.(disk) = Some d -> validateCodexCapsuleState identity d = Ok s ->
    capsule_step identity c {| memory := Some s; disk := Some d; log := c.(log) |}
| step_return c env call m reply s :
    c.(memory) = Some m -> call_store identity env call m = Ok (reply, s) ->
    capsule_step identity c
      {| memory := Some s; disk := Some s; log := c.(log) ++ [(call, Some reply)] |}
| step_throw c env call m e :
    c.(memory) = Some m -> call_store identity env call m = Err e ->
    capsule_step identity c
      {| memory := Some m; disk := c.(disk); log := c.(log) ++ [(call, None)] |}
| step_write_fails c env call m reply s (replaced survives : bool) :
    c.(memory) = Some m -> call_store identity env call m = Ok (reply, s) ->
    capsule_step identity c
      {| memory := if survives then Some m else None;
         disk := if replaced then Some s else c.(disk);
         log := c.(log) ++ [(call, None)] |}
| step_stop c :
    capsule_step identity c {| memory := None; disk := c.(disk); log := c.(log) |}.

Definition capsule_steps `{Zod} `{NodeJs} (identity : CodexCapsuleIdentity) : Capsule -> Capsule -> Prop :=
  rtc (capsule_step identity).

(** A capsule generation that has not been opened yet. *)
Definition new_capsule : Capsule := {| memory := None; disk := None; log := [] |}.
