(* ===== verification/CapsuleExample.v ===== *)
(** * The life of a capsule

    A concrete capsule for the witnesses: its session is started, a turn is
    prepared, started, accepted, cancelled and interrupted, and its outcome is
    recorded.  [life] runs calls from a file that does not exist yet. *)

From S2P Require Import Prelude JsLib Json Schemas.
From S2P Require Import MissionExample HostEvents JsonValue TurnInput.
From S2P Require Import CapsulePrompt CapsuleState Capsule.
Local Open Scope Z_scope.

(** Digests of 64 digits that depend on the length of the text. *)
Definition example_sha256 (s : string) : string :=
  "000000000000000000000000000000000000000000000000000000000000" +:+ four_digits (slen s).
Definition example_node : NodeJs := {| JSON_parse := fun _ => None; sha256 := example_sha256 |}.

Lemma example_node_laws : @NodeLaws example_node.
Proof.
  constructor. intros s. change (sha256Schema (example_sha256 s) = true).
  assert (D : forall n, all_chars is_hex (digit n) = true).
  { intros n. unfold digit. cbn [all_chars]. rewrite andb_true_r. unfold code.
    rewrite Ascii.N_ascii_embedding; pose proof (Z.mod_pos_bound n 10 ltac:(lia)).
    - rewrite Z2N.id by lia. unfold is_hex, is_digit, in_range.
      by rewrite !(proj2 (Z.leb_le _ _)) by lia.
    - apply N2Z.inj_lt. rewrite Z2N.id by lia. cbn. lia. }
  unfold sha256Schema, example_sha256, four_digits, three_digits, two_digits.
  rewrite !all_chars_app, !D. done.
Qed.

#[local] Existing Instance example_zod.
#[local] Existing Instance example_node.

Definition ex_session : SessionInput :=
  {| ses_missionId := ex_mission; ses_participantId := ex_agent_a; ses_workspaceAlias := "client" |}.
Definition ex_identity : CodexCapsuleIdentity := {| capsuleId := ex_id "1"; id_session := ex_session |}.
Definition ex_text (s : string) : HostMissionTextInput :=
  {| hm_text := s; hm_authorPrincipalId := ex_id "f" |}.

Definition ex_input (attempt : Z) : StartTurnInputOf HostArtifactPayloadInput :=
  {| sti_turn :=
       {| ti_session := {| hs_input := ex_session; hs_sessionId := "capsule-session-1" |};
          ti_missionId := ex_mission; ti_contractVersion := 1; ti_missionSequence := 1;
          ti_objective := ex_text "Agree on one API"; ti_assignment := ex_text "Implement the client";
          ti_acceptanceCriteria := [ex_text "Both test suites pass"];
          ti_peerMessages := []; ti_artifacts := [] |};
     sti_deliveryId := ex_delivery "1"; sti_executionAttempt := attempt |}.

Definition ex_ref (attempt : Z) : HostTurnRef :=
  {| turnId := "capsule-turn-1"; sessionId := "capsule-session-1"; missionId := ex_mission;
     deliveryId := ex_delivery "1"; executionAttempt := attempt; contractVersion := 1 |}.

Definition ex_call_env : CallEnv :=
  {| env_uuid := "1"; env_timestamp := 1785711367000; env_now := 1785711367123 |}.

(** ** Runs *)
Definition exec (c : Capsule) (call : CapsuleCall) : Capsule :=
  match c.(memory) with
  | None => c
  | Some m =>
      match call_store ex_identity ex_call_env call m with
      | Ok (r, s) => {| memory := Some s; disk := Some s; log := c.(log) ++ [(call, Some r)] |}
      | Err _ => {| memory := Some m; disk := c.(disk); log := c.(log) ++ [(call, None)] |}
      end
  end.

Definition ex_created : Capsule :=
  match createCodexCapsuleState ex_identity 1785711367000 "1" with
  | Ok s => {| memory := Some s; disk := Some s; log := [] |}
  | Err _ => new_capsule
  end.
Definition life (calls : list CapsuleCall) : Capsule := foldl exec ex_created calls.

Lemma exec_steps calls c :
  capsule_steps ex_identity c (foldl exec c calls).
Proof.
  revert c. induction calls as [|call calls IH]; intros c; cbn [foldl]; [apply rtc_refl|].
  destruct (c.(memory)) as [m|] eqn:M.
  - eapply rtc_l; [|apply IH]. unfold exec. rewrite M.
    destruct (call_store ex_identity ex_call_env call m) as [[r s]|e] eqn:C;
      [by eapply step_return|by eapply step_throw].
  - replace (exec c call) with c; [apply IH|]. unfold exec. by rewrite M.
Qed.

Lemma capsule_created : capsule_steps ex_identity new_capsule ex_created.
Proof.
  unfold ex_created. destruct (createCodexCapsuleState _ _ _) as [s|] eqn:C; [|apply rtc_refl].
  apply rtc_once. exact (step_create _ new_capsule _ _ _ eq_refl eq_refl C).
Qed.

Lemma life_steps calls : capsule_steps ex_identity new_capsule (life calls).
Proof. etrans; [apply capsule_created|apply exec_steps]. Qed.

Lemma same_steps c c' : c = c' -> capsule_steps ex_identity c c'.
Proof. intros ->. apply rtc_refl. Qed.

Definition ex_start : list CapsuleCall :=
  [Call_claimSessionStart; Call_claimSessionStart; Call_acceptSession "thread-1";
   Call_prepareTurn (ex_input 1); Call_claimTurnStart (ex_input 1); Call_claimTurnStart (ex_input 1);
   Call_acceptTurn (ex_input 1) "turn-1"].
Definition ex_finish : list CapsuleCall :=
  [Call_requestCancellation (ex_ref 1); Call_claimInterrupt (ex_ref 1); Call_claimInterrupt (ex_ref 1)].
Definition ex_record : CapsuleCall := Call_recordTerminal (ex_ref 1) (UsageAvailable 10 20) N_cancelled.

Definition memory_of (c : Capsule) : CodexCapsuleState :=
  default {| capsule_id := ""; created_at := ""; updated_at := "";
             session := {| ss_input := ex_session; ss_input_sha256 := ""; host_session_id := "";
                           ss_phase := SP_prepared; codex_thread_id := None |}; turns := ∅ |} c.(memory).

(** The whole life, and what the last call replied. *)
Definition ex_open : Capsule := life (ex_start ++ ex_finish).
Definition ex_life : Capsule := life (ex_start ++ ex_finish ++ [ex_record]).
Definition last_events (c : Capsule) : list HostEvent :=
  match at_last c.(log) with Some (_, Some (Reply_events l)) => l | _ => [] end.

(** What the callers of this life are told. *)
Example ex_life_replies :
  map (fun e => match e.2 with
                | None => "threw"
                | Some (Reply_session_claim SessionSend) | Some (Reply_turn_claim (TurnSend _))
                | Some (Reply_interrupt_claim (InterruptSend _ _)) => "send"
                | Some (Reply_session_claim SessionReconcile) | Some (Reply_turn_claim (TurnReconcile _))
                | Some (Reply_interrupt_claim InterruptReconcile) => "reconcile"
                | Some (Reply_events l) => "events"
                | _ => "ok"
                end) ex_life.(log) =
  ["send"; "reconcile"; "ok"; "ok"; "send"; "reconcile"; "ok"; "ok"; "send"; "reconcile"; "events"].
Proof. by_vm. Qed.
