(* ===== verification/CapsuleMoves.v ===== *)
(** * The capsule as an abstract machine

    What the transitions of [Capsule] do, as a step relation on turns
    ([turn_move]) and on states ([capsule_move]), and the order [later] in which
    every step goes up: nothing a capsule has recorded is taken back, except that
    a session start may be reset.  [call_is_move] is the refinement: a call that
    returns makes one move, then stamps the state. *)

From S2P Require Import Prelude JsLib Json Schemas.
From S2P Require Import HostEvents JsonValue TurnInput CapsulePrompt CapsuleState Capsule.
Local Open Scope Z_scope.

(** [autounfold with capsule] unfolds the transitions. *)
Create HintDb capsule discriminated.
#[export] Hint Unfold claimSessionStart acceptSession resetUnboundSessionAfterQuiescence prepareTurn
  claimTurnStart acceptTurn requestCancellation claimInterrupt
  recordUncertainInterruptAfterQuiescence recordUnmatchedStartAfterQuiescence recordTerminal
  replies : capsule.

(** Walk back through a mutator that returned: [M : mutator_of env call = Ok f],
    [R : f s = Ok (r, s')]. *)
Ltac call_inv M R :=
  cbn in M; ok_inv M; injection M as <-; autounfold with capsule in R; ok_inv R;
  repeat match goal with
         | E : Ok _ = Ok (_, _) |- _ => injection E as <- <-
         | E : match _ with _ => _ end = Ok (_, _) |- _ => ok_inv E
         end.

(** ** Moves

    [U] says which usage reports are recorded. *)
Definition allowed_outcome `{Zod} (t : StoredCodexTurn) (outcome : CodexNormalizedTerminal) : Prop :=
  parseTerminal outcome = Ok outcome /\ (outcome = N_cancelled -> t.(cancellation) <> CN_none).

Inductive turn_move `{Zod} (U : HostUsage -> Prop) : StoredCodexTurn -> StoredCodexTurn -> Prop :=
| tm_start t :
    t.(phase) = TP_prepared -> turn_move U t (t <| phase := TP_start_maybe_sent |>)
| tm_accept t id :
    t.(phase) = TP_start_maybe_sent -> t.(codex_turn_id) = None -> providerReferenceSchema id = true ->
    turn_move U t (t <| codex_turn_id := Some id |> <| phase := TP_accepted |>)
| tm_accept_late t id :
    t.(phase) = TP_cancelling -> t.(codex_turn_id) = None -> providerReferenceSchema id = true ->
    turn_move U t (t <| codex_turn_id := Some id |> <| phase := TP_cancelling |>)
| tm_cancel t :
    t.(phase) = TP_start_maybe_sent \/ t.(phase) = TP_accepted ->
    turn_move U t (t <| phase := TP_cancelling |> <| cancellation := CN_requested |>)
| tm_cancel_prepared t :
    t.(phase) = TP_prepared ->
    turn_move U t (appendTerminal not_reported N_cancelled (t <| cancellation := CN_requested |>))
| tm_interrupt t id :
    t.(phase) = TP_cancelling -> t.(codex_turn_id) = Some id ->
    t.(cancellation) <> CN_interrupt_maybe_sent ->
    turn_move U t (t <| cancellation := CN_interrupt_maybe_sent |>)
| tm_finish t usage outcome :
    t.(phase) <> TP_prepared -> t.(phase) <> TP_terminal -> U usage ->
    allowed_outcome t outcome ->
    turn_move U t (appendTerminal usage outcome t).

(** A prepared turn, before its acceptance event. *)
Record fresh_turn `{Zod} `{NodeJs} (s : CodexCapsuleState) (input : StartTurnInput)
    (timestamp uuid : string) (t : StoredCodexTurn) : Prop := {
  ft_parsed : startTurnInputSchema (start_input input) = Some input;
  ft_session : input.(sti_turn).(ti_session) = hostSessionFromState s;
  ft_turn : exists digest intent,
    digestStartTurnInput input = Ok digest /\ buildCodexCapsuleTurnIntent input = Ok intent /\
    t = {| CapsuleState.input := input; input_sha256 := digest;
           host_turn_id := "capsule-turn-" +:+ uuid; phase := TP_prepared; codex_turn_id := None;
           provider_intent := storedIntent intent; cancellation := CN_none; events := [];
           turn_created_at := timestamp; turn_updated_at := timestamp |}
}.

Inductive capsule_move `{Zod} `{NodeJs} (U : HostUsage -> Prop) (env : CallEnv) : CodexCapsuleState -> CodexCapsuleState -> Prop :=
| cm_stay s : capsule_move U env s s
| cm_claim s :
    s.(session).(ss_phase) = SP_prepared ->
    capsule_move U env s (set_session_phase SP_start_maybe_sent s)
| cm_bind s id :
    s.(session).(ss_phase) = SP_start_maybe_sent -> providerReferenceSchema id = true ->
    capsule_move U env s (s <| session := s.(session) <| ss_phase := SP_ready |>
                                                    <| codex_thread_id := Some id |> |>)
| cm_reset s :
    s.(session).(ss_phase) = SP_start_maybe_sent -> s.(session).(codex_thread_id) = None ->
    s.(turns) = ∅ -> capsule_move U env s (set_session_phase SP_prepared s)
| cm_prepare s input t :
    s.(session).(ss_phase) = SP_ready -> s.(turns) !! input_key input = None ->
    (forall k u, s.(turns) !! k = Some u -> u.(phase) = TP_terminal) ->
    fresh_turn s input (toISOString env.(env_timestamp)) env.(env_uuid) t ->
    capsule_move U env s (put_turn (input_key input) (push_event HE_accepted t) s)
| cm_turn s k t t' :
    s.(turns) !! k = Some t -> turn_move U t t' -> capsule_move U env s (put_turn k t' s).

(** ** The order *)
Definition phase_rank (p : TurnPhase) : Z :=
  match p with
  | TP_prepared => 0 | TP_start_maybe_sent => 1 | TP_accepted => 2 | TP_cancelling => 3
  | TP_terminal => 4
  end.
Definition cancellation_rank (c : Cancellation) : Z :=
  match c with CN_none => 0 | CN_requested => 1 | CN_interrupt_maybe_sent => 2 end.

Record turn_later (t t' : StoredCodexTurn) : Prop := {
  tl_same : t'.(input) = t.(input) /\ t'.(input_sha256) = t.(input_sha256) /\
            t'.(host_turn_id) = t.(host_turn_id) /\ t'.(provider_intent) = t.(provider_intent) /\
            t'.(turn_created_at) = t.(turn_created_at);
  tl_phase : phase_rank t.(phase) <= phase_rank t'.(phase);
  tl_cancellation : cancellation_rank t.(cancellation) <= cancellation_rank t'.(cancellation);
  tl_binding : forall id, t.(codex_turn_id) = Some id -> t'.(codex_turn_id) = Some id;
  tl_events : t.(events) `prefix_of` t'.(events);
  tl_final : t.(phase) = TP_terminal ->
    t'.(codex_turn_id) = t.(codex_turn_id) /\ t'.(cancellation) = t.(cancellation) /\
    t'.(events) = t.(events)
}.

Record later (s s' : CodexCapsuleState) : Prop := {
  la_capsule : s'.(capsule_id) = s.(capsule_id) /\ s'.(created_at) = s.(created_at);
  la_scope : hostSessionFromState s' = hostSessionFromState s;
  la_session : s.(session).(ss_phase) = SP_ready -> s'.(session) = s.(session);
  la_turns : forall k t, s.(turns) !! k = Some t ->
    exists t', s'.(turns) !! k = Some t' /\ turn_later t t'
}.

Lemma phase_rank_terminal p : 4 <= phase_rank p -> p = TP_terminal.
Proof. destruct p; cbn; lia || done. Qed.

#[export] Instance turn_later_preorder : PreOrder turn_later.
Proof.
  split.
  - intros t. constructor; try done; lia.
  - intros t u v [S1 P1 C1 B1 E1 F1] [S2 P2 C2 B2 E2 F2]. constructor.
    + destruct S1 as (? & ? & ? & ? & ?), S2 as (? & ? & ? & ? & ?). split_and!; congruence.
    + lia.
    + lia.
    + auto.
    + by etrans.
    + intros T. destruct (F1 T) as (<- & <- & <-). apply F2, phase_rank_terminal. by rewrite T in P1.
Qed.

#[export] Instance later_preorder : PreOrder later.
Proof.
  split.
  - intros s. constructor; try done. intros k t Hk. exists t. by split.
  - intros s u v [[A1 A1'] B1 C1 D1] [[A2 A2'] B2 C2 D2]. constructor.
    + split; congruence.
    + congruence.
    + intros R. rewrite C2, C1 by (rewrite ?C1; done). done.
    + intros k t Hk. destruct (D1 _ _ Hk) as (t1 & Hk1 & L1).
      destruct (D2 _ _ Hk1) as (t2 & Hk2 & L2). exists t2. split; [done|]. by etrans.
Qed.

(** ** Moves go up *)
Section moves.
Context `{Zod} `{NodeJs}.

(** The cancellation barrier of a turn, as [validateTurnPhase] has it. *)
Definition barrier_ok (t : StoredCodexTurn) : Prop :=
  match t.(phase) with
  | TP_cancelling => t.(cancellation) <> CN_none
  | TP_terminal => True
  | _ => t.(cancellation) = CN_none
  end.

Lemma append_terminal_later t usage outcome c :
  t.(phase) <> TP_terminal -> cancellation_rank t.(cancellation) <= cancellation_rank c ->
  turn_later t (appendTerminal usage outcome (t <| cancellation := c |>)).
Proof.
  intros N C. constructor; cbn; try done.
  - by destruct (phase t).
  - rewrite <-app_assoc. by eexists.
Qed.

Lemma turn_move_later U t t' : barrier_ok t -> turn_move U t t' -> turn_later t t'.
Proof.
  intros B M. destruct M as [t P|t id P N V|t id P N V|t P|t P|t id P I N|t usage outcome P N Us A].
  - constructor; cbn; rewrite ?P; done.
  - constructor; cbn; rewrite ?P, ?N; done.
  - constructor; cbn; rewrite ?P, ?N; done.
  - assert (t.(cancellation) = CN_none) as C by (unfold barrier_ok in B; by destruct P as [P|P]; rewrite P in B).
    destruct P as [P|P]; (constructor; cbn; rewrite ?P, ?C; done).
  - apply append_terminal_later; [by rewrite P|]. unfold barrier_ok in B. rewrite P in B. by rewrite B.
  - constructor; cbn; rewrite ?P; try done. by destruct (cancellation t).
  - replace t with (t <| cancellation := t.(cancellation) |>) at 2 by (by destruct t).
    by apply append_terminal_later.
Qed.

Lemma later_put k t t' s :
  s.(turns) !! k = Some t -> turn_later t t' -> later s (put_turn k t' s).
Proof.
  intros Hk L. constructor; try done. intros j u Hj. cbn. destruct (decide (j = k)) as [->|N].
  - exists t'. rewrite lookup_insert_eq. split; [done|]. congruence.
  - exists u. by rewrite lookup_insert_ne.
Qed.

Definition barriers_ok (s : CodexCapsuleState) : Prop :=
  forall k t, s.(turns) !! k = Some t -> barrier_ok t.

Lemma capsule_move_later U env s s' : barriers_ok s -> capsule_move U env s s' -> later s s'.
Proof.
  intros B M. destruct M as [s|s P|s id P V|s P N E|s input t P N T F|s k t t' Hk M].
  - done.
  - constructor; cbn; try done; [by rewrite P|]. intros k t Hk. by exists t.
  - constructor; cbn; try done; [by rewrite P|]. intros k t Hk. by exists t.
  - constructor; cbn; try done; [by rewrite P|]. intros k t Hk. by exists t.
  - constructor; cbn; try done. intros k u Hk. exists u. split; [|done].
    apply lookup_insert_Some. right. split; [|done]. congruence.
  - eapply later_put; [done|]. eapply turn_move_later; [by eapply B|done].
Qed.

Lemma stamp_later timestamp s : later s (stamp timestamp s).
Proof.
  constructor; try done. intros k t Hk. cbn. rewrite lookup_fmap, Hk. cbn.
  eexists. split; [done|]. by constructor.
Qed.

(** ** Every transition is a move *)
Lemma same_input_inv t i : assertSameInput t i = Ok tt -> t.(input) = i.
Proof. unfold assertSameInput. intros R. ok_inv R. by bool_hyps. Qed.

Lemma turn_by_input_inv s i t :
  requireTurnByInput s i = Ok t -> s.(turns) !! input_key i = Some t /\ t.(input) = i.
Proof.
  unfold requireTurnByInput. intros R. ok_inv R. injection R as ->.
  split; [done|]. apply same_input_inv. match goal with u : () |- _ => by destruct u end.
Qed.

Lemma turn_by_ref_inv s ref t :
  requireTurnByRef s ref = Ok t -> s.(turns) !! ref_key ref = Some t /\ hostTurnFromStored t = ref.
Proof. unfold requireTurnByRef. intros R. ok_inv R. injection R as ->. by bool_hyps. Qed.

Lemma parse_terminal_same o o' : parseTerminal o = Ok o' -> o' = o /\ parseTerminal o = Ok o.
Proof. destruct o; cbn; intros R; ok_inv R; injection R as <-; done. Qed.

Lemma parse_bool_inv {A} (schema : A -> bool) a b :
  parse_bool schema a = Ok b -> b = a /\ schema a = true.
Proof. unfold parse_bool. intros R. ok_inv R. by injection R as ->. Qed.

Lemma parse_inv {A} (o : option A) a : parse o = Ok a -> o = Some a.
Proof. destruct o; cbn; congruence. Qed.

(** Undo the pairing of a transition's result. *)
Ltac move_inv R :=
  ok_inv R; injection R as <- <-;
  repeat match goal with
         | E : requireTurnByInput _ _ = Ok _ |- _ => apply turn_by_input_inv in E as [? ?]
         | E : requireTurnByRef _ _ = Ok _ |- _ => apply turn_by_ref_inv in E as [? ?]
         end; bool_hyps.

Lemma session_moves U env s :
  (forall r s', claimSessionStart s = Ok (r, s') -> capsule_move U env s s') /\
  (forall id r s', providerReferenceSchema id = true -> acceptSession id s = Ok (r, s') ->
     capsule_move U env s s') /\
  (forall r s', resetUnboundSessionAfterQuiescence s = Ok (r, s') -> capsule_move U env s s').
Proof.
  split_and!.
  - unfold claimSessionStart. intros r s' R. move_inv R; by constructor.
  - unfold acceptSession. intros id r s' V R. move_inv R; by constructor.
  - unfold resetUnboundSessionAfterQuiescence. intros r s' R. move_inv R.
    apply cm_reset; [done|done|]. apply map_to_list_empty_iff, len_zero.
    pose proof (len_nonneg (map_to_list s.(turns))). lia.
Qed.

Lemma prepare_move U env input s r s' :
  startTurnInputSchema (start_input input) = Some input ->
  prepareTurn input (toISOString env.(env_timestamp)) env.(env_uuid) s = Ok (r, s') ->
  capsule_move U env s s'.
Proof.
  unfold prepareTurn. intros V R. destruct (requireReadySession s) as [session|] eqn:S; [|done].
  unfold requireReadySession in S. ok_inv S. injection S as <-. move_inv R; [constructor|].
  match goal with N : some _ _ = false |- _ => rename N into Op end.
  eapply cm_prepare; [done..| |].
  - intros k u Hk. rewrite some_false_iff in Op. apply elem_of_map_to_list, Op in Hk. by bool_hyps.
  - constructor; [done|done|]. by eexists _, _.
Qed.

Lemma claim_start_move U env input s r s' :
  claimTurnStart input s = Ok (r, s') -> capsule_move U env s s'.
Proof. unfold claimTurnStart. intros R. move_inv R; try constructor. eapply cm_turn; [done|by constructor]. Qed.

Lemma accept_turn_move U env input id s r s' :
  providerReferenceSchema id = true -> acceptTurn input id s = Ok (r, s') -> capsule_move U env s s'.
Proof.
  unfold acceptTurn. intros V R. destruct (requireTurnByInput s input) as [t|] eqn:T; [|done].
  apply turn_by_input_inv in T as [Hk _]. cbn in R.
  destruct (non_null _) eqn:N; [ok_inv R; injection R as <- <-; constructor|].
  destruct (_ && _) eqn:P; [done|]. injection R as <- <-.
  apply negb_false_iff, is_null_iff in N. eapply cm_turn; [done|].
  apply andb_false_iff in P as [P|P]; bool_hyps.
  - rewrite bool_decide_eq_true_2 by done. by constructor.
  - rewrite bool_decide_eq_false_2 by congruence. rewrite P. by constructor.
Qed.

Lemma cancel_moves U env ref s :
  (forall r s', requestCancellation ref s = Ok (r, s') -> capsule_move U env s s') /\
  (forall r s', claimInterrupt ref s = Ok (r, s') -> capsule_move U env s s').
Proof.
  split.
  - unfold requestCancellation. intros r s' R. move_inv R; try constructor.
    + eapply cm_turn; [done|]. by constructor.
    + eapply cm_turn; [done|]. constructor. destruct (phase _); naive_solver.
  - unfold claimInterrupt. intros r s' R. move_inv R; try constructor.
    eapply cm_turn; [done|]. by econstructor.
Qed.

Lemma transient_allowed t m : bounded 1 4000 m = true -> allowed_outcome t (transient_failure m).
Proof. intros B. split; [|done]. cbn. unfold hostFailureSchema. cbn. by rewrite B. Qed.

Lemma finish_moves U env ref s :
  barriers_ok s -> U not_reported ->
  (forall input r s', recordUncertainInterruptAfterQuiescence ref input s = Ok (r, s') ->
     capsule_move U env s s') /\
  (forall input r s', recordUnmatchedStartAfterQuiescence ref input s = Ok (r, s') ->
     capsule_move U env s s') /\
  (forall usage outcome r s', U usage ->
     recordTerminal ref usage outcome s = Ok (r, s') -> capsule_move U env s s').
Proof.
  intros B Un. split_and!.
  - unfold recordUncertainInterruptAfterQuiescence. intros input r s' R. move_inv R; try constructor.
    eapply cm_turn; [done|]. constructor; [congruence..|done|]. by apply transient_allowed.
  - unfold recordUnmatchedStartAfterQuiescence. intros input r s' R. cbv zeta in R.
    destruct (requireTurnByRef s ref) as [t|] eqn:T; [|done]. apply turn_by_ref_inv in T as [Hk _].
    cbn in R. destruct (assertSameInput t input); [|done]. destruct (phase t === TP_terminal) eqn:F;
      [injection R as <- <-; constructor|].
    destruct (_ || _) eqn:P; [done|]. injection R as <- <-. bool_hyps.
    eapply cm_turn; [done|]. constructor; [|done|done|].
    + intros Q. rewrite Q in *. done.
    + destruct (cancellation t === CN_none) eqn:C; [by apply transient_allowed|]. bool_hyps. by split.
  - unfold recordTerminal. intros usage outcome r s' V R. cbv zeta in R.
    destruct (parseTerminal outcome) as [o|] eqn:O; [|done]. apply parse_terminal_same in O as [-> O].
    destruct (requireTurnByRef s ref) as [t|] eqn:T; [|done]. apply turn_by_ref_inv in T as [Hk _].
    cbn in R. destruct (phase t === TP_terminal) eqn:F; [ok_inv R; injection R as <- <-; constructor|].
    destruct (_ && _) eqn:C in R; [done|]. destruct (_ && _) eqn:P in R; [done|].
    injection R as <- <-. bool_hyps. eapply cm_turn; [done|]. constructor; [|done|done|].
    + intros Q. rewrite Q in *. done.
    + split; [done|]. intros ->. cbn in C. apply negb_false_iff, bool_decide_eq_true in C.
      specialize (B _ _ Hk). unfold barrier_ok in B. by rewrite C in B.
Qed.

Lemma call_is_move U env call f s r s' :
  barriers_ok s -> U not_reported ->
  (forall ref u o, call = Call_recordTerminal ref u o -> hostUsageSchema u = true -> U u) ->
  mutator_of env call = Ok f -> f s = Ok (r, s') -> capsule_move U env s s'.
Proof.
  intros B Un Uc M R. destruct (session_moves U env s) as (S1 & S2 & S3).
  destruct call; cbn in M; ok_inv M; injection M as <-; unfold replies in R; ok_inv R;
    injection R as <- <-;
    repeat match goal with
           | E : parse _ = Ok _ |- _ => apply parse_inv in E
           | E : parse_bool _ _ = Ok _ |- _ => apply parse_bool_inv in E as [-> ?]
           end.
  - by eapply S1.
  - by eapply S2.
  - by eapply S3.
  - eapply prepare_move; [|done]. by eapply start_reparse.
  - by eapply claim_start_move.
  - by eapply accept_turn_move.
  - by eapply (proj1 (cancel_moves U env _ s)).
  - by eapply (proj2 (cancel_moves U env _ s)).
  - by eapply (proj1 (finish_moves U env _ s B Un)).
  - by eapply (proj1 (proj2 (finish_moves U env _ s B Un))).
  - eapply (proj2 (proj2 (finish_moves U env _ s B Un))); [|done]. by eapply Uc.
Qed.
End moves.
