(* ===== verification/CapsuleValid.v ===== *)
(** * When a capsule state is valid

    [state_valid] says in the order of the data what [validateCodexCapsuleState]
    checks; [validate_sound] and [validate_complete] say that it is what the
    validator decides, and that validating twice changes nothing.

    Then the invariant of everything a capsule holds in memory and on disk: the state
    is valid, and the events of a turn are its acceptance and, once it is terminal, a
    usage report and the outcome.  [call_store_inv] is what a call that returns did. *)

From S2P Require Import Prelude JsLib Json Schemas.
From S2P Require Import HostEvents JsonValue TurnInput CapsulePrompt CapsuleState Capsule CapsuleMoves.
Local Open Scope Z_scope.

(** ** Turns *)
Definition parsed_input `{Zod} `{NodeJs} (i : StartTurnInput) : Prop :=
  startTurnInputSchema (start_input i) = Some i.

Definition intent_matches `{Zod} `{NodeJs} (i : StartTurnInput) (p : StoredProviderIntent) : Prop :=
  exists e, buildCodexCapsuleTurnIntent i = Ok e /\
    p.(client_user_message_id) = e.(clientUserMessageId) /\ p.(pi_text) = e.(text) /\
    p.(text_sha256) = e.(textSha256) /\ isDeepStrictEqual p.(output_schema) e.(outputSchema) = true /\
    p.(output_schema_sha256) = e.(outputSchemaSha256) /\ p.(text_sha256) = sha256 p.(pi_text) /\
    p.(output_schema_sha256) = digestCanonicalJson p.(output_schema).

(** What never changes in a stored turn. *)
Record turn_fixed `{Zod} `{NodeJs} (ref : HostSessionRef) (key : string) (t : StoredCodexTurn) : Prop := {
  tf_input : parsed_input t.(input);
  tf_strings : sha256Schema t.(input_sha256) = true /\ localReferenceSchema t.(host_turn_id) = true /\
               storedProviderIntentSchema t.(provider_intent) = true /\
               zod_datetime t.(turn_created_at) = true;
  tf_key : key = executionKey t.(input).(sti_deliveryId) t.(input).(sti_executionAttempt);
  tf_digest : digestStartTurnInput t.(input) = Ok t.(input_sha256);
  tf_session : t.(input).(sti_turn).(ti_session) = ref;
  tf_intent : intent_matches t.(input) t.(provider_intent)
}.

(** The barriers between the phases of a turn. *)
Record phase_ok (t : StoredCodexTurn) : Prop := {
  po_unbound : t.(phase) = TP_prepared \/ t.(phase) = TP_start_maybe_sent -> t.(codex_turn_id) = None;
  po_bound : t.(phase) = TP_accepted -> t.(codex_turn_id) <> None;
  po_barrier : match t.(phase) with
               | TP_cancelling => t.(cancellation) <> CN_none
               | TP_terminal => True
               | _ => t.(cancellation) = CN_none
               end;
  po_cancelled : forall e, t.(phase) = TP_terminal -> at_last t.(events) = Some e ->
    e.(he_kind) = HE_cancelled -> t.(cancellation) <> CN_none
}.

Record turn_valid `{Zod} `{NodeJs} (ref : HostSessionRef) (key : string) (t : StoredCodexTurn) : Prop := {
  tv_fixed : turn_fixed ref key t;
  tv_binding : nullable providerReferenceSchema t.(codex_turn_id) = true;
  tv_updated : zod_datetime t.(turn_updated_at) = true;
  tv_events : every hostEventSchema t.(events) = true /\ 1 <= len t.(events);
  tv_phase : phase_ok t;
  tv_stream : validateTurnEvents t = Ok tt
}.

(** ** States *)
Definition one_active (m : gmap string StoredCodexTurn) : Prop :=
  forall k t k' t', m !! k = Some t -> m !! k' = Some t' ->
    t.(phase) <> TP_terminal -> t'.(phase) <> TP_terminal -> k = k'.

Record state_valid `{Zod} `{NodeJs} (identity : CodexCapsuleIdentity) (s : CodexCapsuleState) : Prop := {
  sv_identity : parseIdentity identity = Ok identity /\ s.(capsule_id) = identity.(capsuleId) /\
                s.(session).(ss_input) = identity.(id_session);
  sv_times : zod_datetime s.(created_at) = true /\ zod_datetime s.(updated_at) = true;
  sv_session : storedSessionSchema s.(session) = true /\
    s.(session).(ss_input_sha256) = digestCanonicalJson (session_json s.(session).(ss_input)) /\
    (s.(session).(ss_phase) = SP_ready <-> s.(session).(codex_thread_id) <> None);
  sv_turns : forall k t, s.(turns) !! k = Some t -> turn_valid (hostSessionFromState s) k t;
  sv_size : Z.of_nat (size s.(turns)) <= 200;
  sv_active : one_active s.(turns);
  sv_ready : s.(session).(ss_phase) <> SP_ready -> s.(turns) = ∅
}.

(** ** The validator decides them *)
Section valid.
Context `{Zod} `{NodeJs}.

Lemma phase_ok_iff t : validateTurnPhase t = Ok tt <-> phase_ok t.
Proof.
  unfold validateTurnPhase. split.
  - intros R. ok_inv R. constructor.
    + intros P. destruct (codex_turn_id t); [|done].
      assert (includes [TP_prepared; TP_start_maybe_sent] (phase t) = true) as I
        by (apply includes_iff; destruct P as [->| ->]; set_solver).
      by rewrite I in *.
    + intros P C. by rewrite P, C in *.
    + destruct (phase t), (cancellation t); done.
    + intros e P L K C. rewrite P, L, C in *. cbn in *. by rewrite K in *.
  - intros [U B C D].
    assert (G1 : includes [TP_prepared; TP_start_maybe_sent] (phase t) && non_null (codex_turn_id t) = false).
    { destruct (phase t) eqn:P; try done; rewrite U by auto; by rewrite andb_false_r. }
    assert (G2 : (phase t === TP_accepted) && is_null (codex_turn_id t) = false).
    { destruct (codex_turn_id t); [by rewrite andb_false_r|]. case_bool_decide; [by destruct B|done]. }
    rewrite G1, G2. clear U B G1 G2.
    assert (G3 : match at_last (events t) with Some e => is_cancelled e.(he_kind) | None => false end = true ->
                 t.(phase) = TP_terminal -> t.(cancellation) <> CN_none).
    { destruct (at_last (events t)) as [e|]; [|done]. intros K P. apply (D e P eq_refl).
      by destruct (he_kind e). }
    destruct (match at_last (events t) with Some _ => _ | None => _ end);
      destruct (phase t), (cancellation t); cbn in *; naive_solver.
Qed.

Lemma intent_matches_iff i p :
  intent_matches i p <->
  exists e, buildCodexCapsuleTurnIntent i = Ok e /\
    (p.(client_user_message_id) !== e.(clientUserMessageId)) || (p.(pi_text) !== e.(text)) ||
    (p.(text_sha256) !== e.(textSha256)) ||
    negb (isDeepStrictEqual p.(output_schema) e.(outputSchema)) ||
    (p.(output_schema_sha256) !== e.(outputSchemaSha256)) ||
    (p.(text_sha256) !== sha256 p.(pi_text)) ||
    (p.(output_schema_sha256) !== digestCanonicalJson p.(output_schema)) = false.
Proof.
  split; intros (e & B & C); exists e; (split; [done|]).
  - destruct C as (? & ? & ? & D & ? & ? & ?). rewrite !bool_decide_eq_true_2, D by done. done.
  - bool_hyps. done.
Qed.

Lemma parsed_digest i : parsed_input i ->
  digestStartTurnInput i = Ok (sha256 (canonicalJson (start_turn_input_json i))).
Proof. unfold digestStartTurnInput, parsed_input. by intros ->. Qed.

Lemma turn_schema_inv t u :
  storedCodexTurnSchema t = Some u ->
  exists i, startTurnInputSchema (start_input t.(input)) = Some i /\ u = t <| input := i |> /\
    (sha256Schema t.(input_sha256) = true /\ localReferenceSchema t.(host_turn_id) = true /\
     storedProviderIntentSchema t.(provider_intent) = true /\ zod_datetime t.(turn_created_at) = true) /\
    nullable providerReferenceSchema t.(codex_turn_id) = true /\
    zod_datetime t.(turn_updated_at) = true /\
    every hostEventSchema t.(events) = true /\ 1 <= len t.(events).
Proof.
  unfold storedCodexTurnSchema. destruct (startTurnInputSchema _) as [i|]; cbn; [|done].
  destruct (_ && _) eqn:B; [|done]. intros [= <-]. exists i. bool_hyps. done.
Qed.

Lemma turn_schema_ok t :
  parsed_input t.(input) ->
  (sha256Schema t.(input_sha256) = true /\ localReferenceSchema t.(host_turn_id) = true /\
   storedProviderIntentSchema t.(provider_intent) = true /\ zod_datetime t.(turn_created_at) = true) ->
  nullable providerReferenceSchema t.(codex_turn_id) = true -> zod_datetime t.(turn_updated_at) = true ->
  every hostEventSchema t.(events) = true -> 1 <= len t.(events) ->
  storedCodexTurnSchema t = Some t.
Proof.
  unfold storedCodexTurnSchema, parsed_input. intros -> (-> & -> & -> & ->) -> -> -> L%Z.leb_le. cbn.
  rewrite L. by destruct t.
Qed.

Lemma validate_turn_ok s k t : turn_valid (hostSessionFromState s) k t -> validateTurn s k t = Ok tt.
Proof.
  intros [[P S K D R I] B U E Ph St]. unfold validateTurn. cbv zeta.
  rewrite bool_decide_eq_true_2 by done. rewrite D, R. rewrite !bool_decide_eq_true_2 by done. cbn [negb].
  apply intent_matches_iff in I as (e & -> & ->). apply phase_ok_iff in Ph as ->. exact St.
Qed.

Lemma validate_turn_inv s k t :
  storedCodexTurnSchema t = Some t -> validateTurn s k t = Ok tt ->
  turn_valid (hostSessionFromState s) k t.
Proof.
  intros Sc V. apply turn_schema_inv in Sc as (i & Pi & Ei & Fx & B & U & Ev & L).
  apply (f_equal input) in Ei. cbn in Ei. subst i.
  unfold validateTurn in V. cbv zeta in V.
  destruct (_ !== _) eqn:K in V; [done|]. destruct (digestStartTurnInput _) as [d|] eqn:D; [|done].
  destruct (_ !== _) eqn:Q in V; [done|]. destruct (_ !== _) eqn:R in V; [done|].
  destruct (buildCodexCapsuleTurnIntent _) as [e|] eqn:N; [|done].
  destruct (_ || _) eqn:M in V; [done|].
  destruct (validateTurnPhase t) as [[]|] eqn:P; [|done].
  apply negb_false_iff, bool_decide_eq_true in K, Q, R. constructor; [constructor|..]; try done.
  - by rewrite Q.
  - apply intent_matches_iff. by exists e.
  - by apply phase_ok_iff.
Qed.

(** ** The schema of the state *)
Lemma turns_schema_inv m m' :
  turns_schema m = Some m' ->
  forall k t, m' !! k = Some t <-> exists u, m !! k = Some u /\ storedCodexTurnSchema u = Some t.
Proof.
  unfold turns_schema. case_bool_decide; [|done]. intros [= <-] k t. rewrite lookup_omap_Some. naive_solver.
Qed.

Lemma turns_schema_ok m :
  (forall k t, m !! k = Some t -> storedCodexTurnSchema t = Some t) -> turns_schema m = Some m.
Proof.
  intros F. unfold turns_schema. rewrite bool_decide_eq_true_2.
  - f_equal. apply map_eq. intros k. rewrite lookup_omap.
    destruct (m !! k) as [t|] eqn:E; cbn; [|done]. by apply F in E.
  - intros k t E. apply F in E. by exists t.
Qed.

(** Parsing twice changes nothing. *)
Lemma turn_schema_again t u : storedCodexTurnSchema t = Some u -> storedCodexTurnSchema u = Some u.
Proof.
  intros (i & P & -> & F & B & U & E & L)%turn_schema_inv. apply turn_schema_ok; try done.
  cbn. by eapply start_reparse.
Qed.

(** The loop over the turns counts those that are open. *)
Definition open_entry (e : string * StoredCodexTurn) : bool := e.2.(phase) !== TP_terminal.

Lemma validate_turns_iff s n l m :
  validate_turns s n l = Ok m <->
  m = n + len (array_filter open_entry l) /\ forall k t, (k, t) ∈ l -> validateTurn s k t = Ok tt.
Proof.
  revert n. induction l as [|[k t] l IH]; intros n; cbn.
  - rewrite len_nil, Z.add_0_r. split; [intros [= ->]; split; [done|]|by intros [-> _]].
    intros k t Hk. by apply not_elem_of_nil in Hk.
  - unfold open_entry at 1. cbn. destruct (validateTurn s k t) as [[]|] eqn:V.
    + rewrite IH. destruct (phase t !== TP_terminal); rewrite ?len_cons;
        (split; intros [-> F]; (split; [lia|]); intros k' t' Hk; [apply elem_of_cons in Hk as [[= -> ->]|]; auto|];
         apply F; by right).
    + split; [done|]. intros [_ F]. specialize (F k t ltac:(left)). congruence.
Qed.

Lemma one_active_iff (m : gmap string StoredCodexTurn) :
  len (array_filter open_entry (map_to_list m)) <= 1 <-> one_active m.
Proof.
  assert (Hm : forall k t, (k, t) ∈ array_filter open_entry (map_to_list m) <->
                           m !! k = Some t /\ t.(phase) <> TP_terminal).
  { intros k t. rewrite elem_of_array_filter, elem_of_map_to_list. unfold open_entry. cbn.
    by rewrite negb_true_iff, bool_decide_eq_false. }
  assert (Nd : NoDup (array_filter open_entry (map_to_list m))).
  { apply NoDup_array_filter, NoDup_map_to_list. }
  destruct (array_filter _ _) as [|[k t] [|[k' t'] l]]; unfold len; cbn.
  - split; [|lia]. intros _ k t ? ? Hk _ N _.
    by pose proof (proj2 (Hm k t) (conj Hk N)) as F%not_elem_of_nil.
  - split; [|lia]. intros _ j u j' u' Hj Hj' N N'.
    pose proof (proj2 (Hm j u) (conj Hj N)) as E%list_elem_of_singleton.
    pose proof (proj2 (Hm j' u') (conj Hj' N')) as E'%list_elem_of_singleton. congruence.
  - split; [lia|]. intros O. exfalso. destruct (proj1 (Hm k t)) as [Hk N]; [left|].
    destruct (proj1 (Hm k' t')) as [Hk' N']; [right; left|].
    assert (k = k') as <- by eauto. assert (t = t') as <- by congruence.
    apply NoDup_cons in Nd as [Nd _]. apply Nd. left.
Qed.

Lemma session_ok_iff s :
  validateSession s = Ok tt <->
  s.(session).(ss_input_sha256) = digestCanonicalJson (session_json s.(session).(ss_input)) /\
  (s.(session).(ss_phase) = SP_ready <-> s.(session).(codex_thread_id) <> None).
Proof.
  unfold validateSession. cbv zeta. split.
  - intros R. ok_inv R. bool_hyps. split; [done|].
    match goal with E : Bool.eqb _ _ = true |- _ => apply eqb_prop in E end.
    destruct (codex_thread_id _); cbn in *; bool_hyps; (split; [done|]); intros Q; [done|by destruct Q].
  - intros [-> B]. rewrite bool_decide_eq_true_2 by done. cbn [negb].
    destruct (codex_thread_id _); cbn in *.
    + by rewrite bool_decide_eq_true_2 by (by apply B).
    + by rewrite bool_decide_eq_false_2 by (by intros Q%B).
Qed.

Lemma identity_same i j : parseIdentity i = Ok j -> j = i.
Proof. unfold parseIdentity. intros R. ok_inv R. congruence. Qed.

Lemma state_schema_inv s s' :
  codexCapsuleStateSchema s = Some s' ->
  exists m, turns_schema s.(turns) = Some m /\ s' = s <| turns := m |> /\ Z.of_nat (size m) <= 200 /\
    (uuidSchema s.(capsule_id) = true /\ zod_datetime s.(created_at) = true /\
     zod_datetime s.(updated_at) = true /\ storedSessionSchema s.(session) = true).
Proof.
  unfold codexCapsuleStateSchema. destruct (negb _) eqn:B; [done|].
  destruct (turns_schema _) as [m|]; cbn; [|done]. destruct (_ <=? _) eqn:Z; [|done].
  intros [= <-]. exists m. bool_hyps. done.
Qed.

(** The validated state is valid. *)
Lemma validate_sound identity s s' :
  validateCodexCapsuleState identity s = Ok s' ->
  codexCapsuleStateSchema s = Some s' /\ state_valid identity s'.
Proof.
  unfold validateCodexCapsuleState. intros R.
  destruct (parseIdentity identity) as [i|] eqn:I; [|done]. apply identity_same in I as J. subst i.
  destruct (codexCapsuleStateSchema s) as [u|] eqn:S; [|done]. cbn [parse] in R.
  destruct (_ !== _) eqn:C in R; [done|]. destruct (_ !== _) eqn:D in R; [done|].
  destruct (validateSession u) as [[]|] eqn:V; [|done].
  destruct (validate_turns u 0 _) as [n|] eqn:T; [|done].
  destruct (1 <? n) eqn:A; [done|]. destruct (_ && _) eqn:P in R; [done|]. injection R as <-.
  split; [done|]. apply negb_false_iff, bool_decide_eq_true in C, D. apply Z.ltb_ge in A.
  apply validate_turns_iff in T as [-> T]. apply session_ok_iff in V.
  apply state_schema_inv in S as (m & M & -> & Sz & U & Cr & Up & Se). constructor; try done.
  - cbn. intros k t Hk. apply validate_turn_inv.
    + apply (turns_schema_inv _ _ M) in Hk as (u & _ & Hu). by eapply turn_schema_again.
    + apply T. by apply elem_of_map_to_list.
  - apply one_active_iff. cbn in *. lia.
  - intros N. apply andb_false_iff in P as [P|P]; bool_hyps; [done|].
    apply map_to_list_empty_iff, len_zero. cbn in *. pose proof (len_nonneg (map_to_list m)). lia.
Qed.

(** A valid state is validated, unchanged. *)
Lemma validate_complete identity s :
  state_valid identity s -> validateCodexCapsuleState identity s = Ok s.
Proof.
  intros [(I & C & D) [Cr Up] (Se & V) T Sz A P]. unfold validateCodexCapsuleState. rewrite I.
  assert (U : uuidSchema s.(capsule_id) = true).
  { unfold parseIdentity in I. ok_inv I. bool_hyps. congruence. }
  assert (S : codexCapsuleStateSchema s = Some s).
  { unfold codexCapsuleStateSchema. rewrite U, Cr, Up, Se. cbn [negb andb].
    rewrite turns_schema_ok; cbn.
    - apply Z.leb_le in Sz as ->. by destruct s.
    - intros k t Hk. apply T in Hk as [[? ? ? ? ? ?] ? ? [? ?] ? ?]. by apply turn_schema_ok. }
  rewrite S. cbn [parse]. rewrite !bool_decide_eq_true_2 by done. cbn [negb].
  apply session_ok_iff in V as ->.
  replace (validate_turns s 0 (map_to_list s.(turns)))
    with (@Ok CapsuleError Z (0 + len (array_filter open_entry (map_to_list s.(turns))))).
  - apply one_active_iff in A. destruct (1 <? _) eqn:L; [bool_hyps; lia|].
    case_bool_decide as R; [done|]. cbn. rewrite P by done. by rewrite map_to_list_empty.
  - symmetry. apply validate_turns_iff. split; [done|]. intros k t Hk%elem_of_map_to_list.
    by apply validate_turn_ok, T.
Qed.

(** Stored inputs were parsed, so that validating does not change them. *)
Lemma validate_same identity s s' :
  (forall k t, s.(turns) !! k = Some t -> parsed_input t.(input)) ->
  validateCodexCapsuleState identity s = Ok s' -> s' = s.
Proof.
  intros P [S _]%validate_sound. apply state_schema_inv in S as (m & M & -> & _).
  replace m with s.(turns); [by destruct s|]. unfold turns_schema in M. case_bool_decide as F; [|done].
  injection M as <-. apply map_eq. intros k. rewrite lookup_omap.
  destruct (turns s !! k) as [t|] eqn:E; cbn; [|done]. specialize (P k t E).
  destruct (F k t E) as [u Hu]. rewrite Hu. apply turn_schema_inv in Hu as (i & Hi & -> & _).
  unfold parsed_input in P. assert (i = t.(input)) as -> by congruence. by destruct t.
Qed.
End valid.

(** ** Reachable capsules *)

Definition turn_event (t : StoredCodexTurn) (n : Z) (kind : HostEventKind) : HostEvent :=
  {| he_kind := kind; he_turn := hostTurnFromStored t; he_sequence := n |}.

Inductive event_log (t : StoredCodexTurn) : Prop :=
| log_open :
    t.(phase) <> TP_terminal -> t.(events) = [turn_event t 1 HE_accepted] -> event_log t
| log_closed usage outcome :
    t.(phase) = TP_terminal ->
    t.(events) = [turn_event t 1 HE_accepted; turn_event t 2 (HE_usage usage);
                  turn_event t 3 (terminal_kind outcome)] -> event_log t.

Record state_inv `{Zod} `{NodeJs} (identity : CodexCapsuleIdentity) (s : CodexCapsuleState) : Prop := {
  si_valid : state_valid identity s;
  si_logs : forall k t, s.(turns) !! k = Some t -> event_log t
}.

(** A process has in memory what is on disk, unless its last write failed after
    the file was replaced: then the file is one call ahead. *)
Record capsule_inv `{Zod} `{NodeJs} (identity : CodexCapsuleIdentity) (c : Capsule) : Prop := {
  ci_memory : forall m, c.(memory) = Some m -> state_inv identity m;
  ci_disk : forall d, c.(disk) = Some d -> state_inv identity d;
  ci_ahead : forall m, c.(memory) = Some m -> exists d, c.(disk) = Some d /\ later m d
}.

Section reach.
Context `{Zod} `{NodeJs}.

Lemma put_lookup key t s k u :
  (put_turn key t s).(turns) !! k = Some u <->
  key = k /\ t = u \/ key <> k /\ s.(turns) !! k = Some u.
Proof. apply lookup_insert_Some. Qed.

(** ** Event logs *)
Lemma append_terminal_log t usage outcome :
  t.(phase) <> TP_terminal -> event_log t -> event_log (appendTerminal usage outcome t).
Proof.
  intros N [_ E|? ? P _]; [|done]. apply (log_closed _ usage outcome); [done|].
  unfold appendTerminal, push_event, host_event. cbn. rewrite E. done.
Qed.

Lemma same_events_log t t' :
  event_log t -> t.(phase) <> TP_terminal -> t'.(phase) <> TP_terminal ->
  t'.(events) = t.(events) -> hostTurnFromStored t' = hostTurnFromStored t -> event_log t'.
Proof.
  intros [_ E|? ? P _] N N' Ev Ref; [|done]. apply log_open; [done|].
  unfold turn_event in *. by rewrite Ev, E, Ref.
Qed.

Lemma turn_move_log U t t' : turn_move U t t' -> event_log t -> event_log t'.
Proof.
  intros M L. destruct M as [t P|t id P N V|t id P N V|t P|t P|t id P I N|t usage outcome P N Us A];
    try (apply (same_events_log t); cbn; [done|congruence|congruence|done..]).
  - apply (same_events_log t); cbn; [done|destruct P; congruence|done..].
  - apply append_terminal_log; cbn; [congruence|]. apply (same_events_log t); cbn; [done|congruence..|done|done].
  - by apply append_terminal_log.
Qed.

Lemma stamped_log ts t : event_log t -> event_log (t <| turn_updated_at := ts |>).
Proof. intros [N E|u o P E]; [by apply log_open|by apply (log_closed _ u o)]. Qed.

Lemma move_logs U env s s' :
  capsule_move U env s s' -> (forall k t, s.(turns) !! k = Some t -> event_log t) ->
  forall k t, s'.(turns) !! k = Some t -> event_log t.
Proof.
  intros M L. destruct M as [s|s P|s id P V|s P N E|s input t P N T F|s j t t' Hj M]; try exact L.
  - intros k u [[<- <-]|[_ Hk]]%put_lookup; [|by eapply L].
    destruct F as [_ _ (d & i & _ & _ & ->)]. by apply log_open.
  - intros k u [[<- <-]|[_ Hk]]%put_lookup; [|by eapply L].
    eapply turn_move_log; [done|]. by eapply L.
Qed.

(** ** Parsed inputs *)
Lemma move_parsed U env s s' :
  capsule_move U env s s' -> (forall k t, s.(turns) !! k = Some t -> parsed_input t.(input)) ->
  forall k t, s'.(turns) !! k = Some t -> parsed_input t.(input).
Proof.
  intros M L. destruct M as [s|s P|s id P V|s P N E|s input t P N T F|s j t t' Hj M]; try exact L.
  - intros k u [[<- <-]|[_ Hk]]%put_lookup; [|by eapply L].
    destruct F as [Pi _ (d & i & _ & _ & ->)]. exact Pi.
  - intros k u [[<- <-]|[_ Hk]]%put_lookup; [|by eapply L].
    specialize (L _ _ Hj). by destruct M.
Qed.

Lemma stamp_lookup ts s k t' :
  (stamp ts s).(turns) !! k = Some t' <->
  exists t, s.(turns) !! k = Some t /\ t' = t <| turn_updated_at := ts |>.
Proof. cbn. rewrite lookup_fmap, fmap_Some. naive_solver. Qed.

(** ** Calls *)
Lemma valid_barriers identity s : state_valid identity s -> barriers_ok s.
Proof.
  intros V k t Hk. apply (sv_turns _ _ V) in Hk as [_ _ _ _ P _]. exact (po_barrier _ P).
Qed.

Lemma valid_parsed identity s k t :
  state_valid identity s -> s.(turns) !! k = Some t -> parsed_input t.(input).
Proof. intros V Hk. by apply (sv_turns _ _ V) in Hk as [[? _ _ _ _ _] _ _ _ _ _]. Qed.

Definition schema_usage (u : HostUsage) : Prop := hostUsageSchema u = true.

Lemma call_store_inv identity env call m r s :
  state_inv identity m -> call_store identity env call m = Ok (r, s) ->
  exists f next, mutator_of env call = Ok f /\ f m = Ok (r, next) /\ capsule_move schema_usage env m next /\
    s = stamp (toISOString env.(env_now)) next /\ state_inv identity s /\ later m s.
Proof.
  intros [V L] R. unfold call_store, mutate in R.
  destruct (mutator_of env call) as [f|] eqn:F; [|done].
  destruct (f m) as [[v next]|] eqn:E; [|done].
  destruct (validateCodexCapsuleState identity _) as [u|] eqn:Vn; [|done]. injection R as -> ->.
  assert (M : capsule_move schema_usage env m next)
    by (eapply call_is_move; eauto using valid_barriers; done).
  assert (s = stamp (toISOString env.(env_now)) next) as ->.
  { eapply validate_same; [|exact Vn]. intros k t' (t & Hk & ->)%stamp_lookup.
    eapply (move_parsed _ _ _ _ M) in Hk; [exact Hk|]. intros j u. by apply (valid_parsed identity). }
  exists f, next. split_and!; try done.
  - split; [by apply validate_sound in Vn as [_ Vn]|]. intros k t' (t & Hk & ->)%stamp_lookup.
    apply stamped_log. by eapply (move_logs _ _ _ _ M).
  - etrans; [by eapply capsule_move_later, M; apply (valid_barriers identity)|apply stamp_later].
Qed.

Lemma create_inv identity now uuid s :
  createCodexCapsuleState identity now uuid = Ok s -> state_inv identity s /\
  s.(turns) = ∅ /\ s.(session).(ss_phase) = SP_prepared.
Proof.
  unfold createCodexCapsuleState. intros R. destruct (parseIdentity identity) as [i|] eqn:I; [|done].
  apply identity_same in I as J. subst i. apply parse_inv in R.
  apply state_schema_inv in R as (m & M & -> & _ & U & Cr & Up & Se). cbn in *.
  assert (m = ∅) as ->.
  { unfold turns_schema in M. case_bool_decide; [|done]. injection M as <-. by rewrite omap_empty. }
  split; [|done]. split; [|done]. by constructor.
Qed.

(** ** The invariant *)
Lemma step_inv identity c c' :
  capsule_inv identity c -> capsule_step identity c c' -> capsule_inv identity c'.
Proof.
  intros [Im Id Ia] S. destruct S as
    [c now uuid s Hm Hd C|c now uuid s Hm Hd C|c d s Hm Hd V|c env call m r s Hm C|c env call m e Hm C
    |c env call m r s replaced survives Hm C|c]; cbn in *.
  - apply create_inv in C as [C _]. constructor; cbn; intros ? [= <-]; try done. by exists s.
  - apply create_inv in C as [C _]. constructor; cbn; [done| |done]. by intros ? [= <-].
  - specialize (Id d Hd). assert (s = d) as ->.
    { eapply validate_same; [|done]. intros k t. by apply (valid_parsed identity), Id. }
    constructor; cbn; intros ? [= <-]; try done. by exists d.
  - apply (call_store_inv _ _ _ _ _ _ (Im m Hm)) in C as (_ & _ & _ & _ & _ & _ & I & _).
    constructor; cbn; intros ? [= <-]; try done. by exists s.
  - constructor; cbn; [|done|]; intros ? [= <-]; auto.
  - apply (call_store_inv _ _ _ _ _ _ (Im m Hm)) in C as (_ & _ & _ & _ & _ & _ & I & La).
    constructor; cbn.
    + destruct survives; [|done]. intros ? [= <-]. auto.
    + destruct replaced; [|done]. by intros ? [= <-].
    + destruct survives; [|done]. intros ? [= <-]. destruct replaced; [by exists s|]. by apply Ia.
  - by constructor.
Qed.

Lemma steps_inv identity c c' :
  capsule_inv identity c -> capsule_steps identity c c' -> capsule_inv identity c'.
Proof. intros I R. induction R as [|c c1 c2 S R IH]; [done|]. by eapply IH, step_inv. Qed.

Lemma reach_inv identity c : capsule_steps identity new_capsule c -> capsule_inv identity c.
Proof. intros R. eapply steps_inv; [|exact R]. by constructor. Qed.
End reach.
