(* ===== verification/CapsuleSafety.v ===== *)
(** * What a capsule guarantees across crashes

    [capsule_history]: what a process has read stays true for every later
    process.  [capsule_at_most_once]: the claims that allow a provider request
    (start a turn, interrupt it, start the session) are handed out at most once,
    whatever calls throw, writes fail and processes die. *)

From S2P Require Import Prelude JsLib Json Schemas.
From S2P Require Import HostEvents JsonValue TurnInput CapsulePrompt CapsuleState Capsule.
From S2P Require Import MissionExample CapsuleExample CapsuleMoves CapsuleValid.
Local Open Scope Z_scope.

(** ** The requests a log has allowed *)
Notation log_entry := (CapsuleCall * option CapsuleReply)%type.

Definition allows_turn_start (key : string) (e : log_entry) : bool :=
  match e with
  | (Call_claimTurnStart input, Some (Reply_turn_claim (TurnSend _))) => input_key input === key
  | _ => false
  end.
Definition allows_interrupt (key : string) (e : log_entry) : bool :=
  match e with
  | (Call_claimInterrupt ref, Some (Reply_interrupt_claim (InterruptSend _ _))) => ref_key ref === key
  | _ => false
  end.
Definition allows_session_start (e : log_entry) : bool :=
  match e with
  | (Call_claimSessionStart, Some (Reply_session_claim SessionSend)) => true
  | _ => false
  end.
Definition is_reset (e : log_entry) : bool :=
  match e with (Call_resetUnboundSessionAfterQuiescence, _) => true | _ => false end.

Definition count (p : log_entry -> bool) (l : list log_entry) : Z := len (array_filter p l).

Section safety.
Context `{Zod} `{NodeJs}.

Lemma count_snoc p l e : count p (l ++ [e]) = count p l + (if p e then 1 else 0).
Proof. unfold count. rewrite array_filter_app, len_app. cbn. by destruct (p e). Qed.

(** ** Everything a capsule holds is later than a state *)
Definition above (s : CodexCapsuleState) (c : Capsule) : Prop :=
  (forall m, c.(memory) = Some m -> later s m) /\ exists d, c.(disk) = Some d /\ later s d.

Lemma step_above identity s c c' :
  capsule_inv identity c -> capsule_step identity c c' -> above s c -> above s c'.
Proof.
  intros [Im Id Ia] S [Am (d & Hd & Ld)].
  destruct S as [c now uuid u Hm Hn C|c now uuid u Hm Hn C|c d' u Hm Hd' V|c env call m r u Hm C
    |c env call m e Hm C|c env call m r u replaced survives Hm C|c]; try congruence.
  - assert (d' = d) as -> by congruence. assert (u = d) as ->.
    { eapply validate_same; [|done]. intros k t. by apply (valid_parsed identity), Id. }
    split; cbn; [by intros ? [= <-]|by exists d].
  - apply (call_store_inv _ _ _ _ _ _ (Im m Hm)) in C as (_ & _ & _ & _ & _ & _ & _ & La).
    assert (later s u) by (etrans; [by apply Am|done]).
    split; cbn; [by intros ? [= <-]|by exists u].
  - split; cbn; [intros ? [= <-]; by apply Am|by exists d].
  - apply (call_store_inv _ _ _ _ _ _ (Im m Hm)) in C as (_ & _ & _ & _ & _ & _ & _ & La).
    assert (later s u) by (etrans; [by apply Am|done]).
    split; cbn.
    + destruct survives; [|done]. intros ? [= <-]. by apply Am.
    + destruct replaced; [by exists u|by exists d].
  - split; cbn; [done|by exists d].
Qed.

Lemma steps_above identity s c c' :
  capsule_inv identity c -> capsule_steps identity c c' -> above s c -> above s c'.
Proof.
  intros I R. induction R as [|c c1 c2 S R IH]; [done|]. intros A.
  apply IH; [by eapply step_inv|by eapply step_above].
Qed.

(** C29: what a capsule has recorded stays recorded.  Take any capsule that started
    without a state file, the state [s] a process has in memory at some time, and
    the state [s'] a process has in memory any number of calls, failed writes,
    crashes and reopenings later.  Then every turn of [s] is still there, with the
    same input, id and provider intent; its phase and its cancellation have not
    gone back; its provider binding, once made, is the same; its events extend
    the former ones; and a terminal turn is unchanged.  A ready session keeps its
    thread.  And the events of each turn of [s'] are the acceptance, then, exactly
    when it is terminal, one usage report and one outcome. *)
Theorem capsule_history identity c c' s s' :
  capsule_steps identity new_capsule c -> capsule_steps identity c c' ->
  c.(memory) = Some s -> c'.(memory) = Some s' ->
  later s s' /\ forall k t, s'.(turns) !! k = Some t -> event_log t.
Proof.
  intros R%reach_inv R' M M'. pose proof (ci_ahead _ _ R s M) as D. split.
  - eapply (steps_above _ s) in R'; [|done|split; [|exact D]]; [by apply (proj1 R')|].
    intros m. by rewrite M; intros [= <-].
  - assert (I' : capsule_inv identity c') by (by eapply steps_inv).
    apply (ci_memory _ _ I') in M'. exact (si_logs _ _ M').
Qed.

(** ** Claims *)
Lemma turn_send_inv input s i s' :
  claimTurnStart input s = Ok (TurnSend i, s') ->
  exists t, s.(turns) !! input_key input = Some t /\ t.(phase) = TP_prepared /\
    s' = put_turn (input_key input) (t <| phase := TP_start_maybe_sent |>) s.
Proof.
  unfold claimTurnStart. intros R. destruct (requireTurnByInput s input) as [t|] eqn:T; [|done].
  apply turn_by_input_inv in T as [Hk _]. ok_inv R. bool_hyps. injection R as _ <-. by exists t.
Qed.

Lemma interrupt_send_inv ref s th id s' :
  claimInterrupt ref s = Ok (InterruptSend th id, s') ->
  exists t, s.(turns) !! ref_key ref = Some t /\ t.(cancellation) <> CN_interrupt_maybe_sent /\
    s' = put_turn (ref_key ref) (t <| cancellation := CN_interrupt_maybe_sent |>) s.
Proof.
  unfold claimInterrupt. intros R. destruct (requireTurnByRef s ref) as [t|] eqn:T; [|done].
  apply turn_by_ref_inv in T as [Hk _]. ok_inv R. bool_hyps. injection R as _ _ <-. by exists t.
Qed.

(** A property of the turn under [key] that only the claim makes true. *)
Section claims.
Context (identity : CodexCapsuleIdentity) (key : string) (allows : log_entry -> bool).
Context (sent : StoredCodexTurn -> Prop).
Context (sent_later : forall t t', turn_later t t' -> sent t -> sent t').
Context (allows_none : forall call, allows (call, None) = false).
Context (allowed : forall env call m r s, state_inv identity m ->
  call_store identity env call m = Ok (r, s) -> allows (call, Some r) = true ->
  (exists t, m.(turns) !! key = Some t /\ ~ sent t) /\ exists t, s.(turns) !! key = Some t /\ sent t).

Definition claimed (c : Capsule) : Prop :=
  count allows c.(log) = 0 \/
  count allows c.(log) = 1 /\ exists s t, above s c /\ s.(turns) !! key = Some t /\ sent t.

Lemma claimed_step c c' :
  capsule_inv identity c -> capsule_step identity c c' -> claimed c -> claimed c'.
Proof.
  intros I S Cl. assert (Up : forall s, above s c -> above s c') by (intros s; by eapply step_above).
  assert (Same : count allows c'.(log) = count allows c.(log) -> claimed c').
  { intros E. unfold claimed. rewrite E. destruct Cl as [Cl|[Cl (s & t & A & Hk & St)]]; [by left|].
    right. split; [done|]. exists s, t. auto. }
  destruct S as [c now uuid u Hm Hn C|c now uuid u Hm Hn C|c d' u Hm Hd' V|c env call m r u Hm C
    |c env call m e Hm C|c env call m r u replaced survives Hm C|c]; try by apply Same.
  - destruct (allows (call, Some r)) eqn:Al.
    2: { apply Same. cbn. rewrite count_snoc, Al. lia. }
    destruct (allowed _ _ _ _ _ (ci_memory _ _ I m Hm) C Al) as [(t & Hk & N) (t' & Hk' & St)].
    destruct Cl as [Cl|[_ (s & t0 & [A _] & H0k & S0)]].
    + right. cbn. rewrite count_snoc, Al, Cl. split; [done|]. exists u, t'.
      split; [|done]. split; cbn; [by intros ? [= <-]|by exists u].
    + destruct N. destruct (la_turns _ _ (A m Hm) _ _ H0k) as (t1 & Hk1 & L).
      replace t with t1 by congruence. by eapply sent_later.
  - apply Same. cbn. rewrite count_snoc, allows_none. lia.
  - apply Same. cbn. rewrite count_snoc, allows_none. lia.
Qed.

Lemma claimed_once c : capsule_steps identity new_capsule c -> count allows c.(log) <= 1.
Proof.
  intros R. assert (Cl : claimed c).
  { assert (C0 : claimed new_capsule) by (by left).
    assert (I0 : capsule_inv identity new_capsule) by (by constructor). revert C0 I0.
    induction R as [|c c1 c2 S R IH]; intros C0 I0; [done|].
    apply IH; [by eapply claimed_step|by eapply step_inv]. }
  destruct Cl as [->|[-> _]]; lia.
Qed.
End claims.

(** ** The session *)
Definition prepared (s : CodexCapsuleState) : Z :=
  if s.(session).(ss_phase) === SP_prepared then 1 else 0.
Definition bit (b : bool) : Z := if b then 1 else 0.

(** What a call does to the count of prepared sessions. *)
Lemma call_prepared env call f s r s' :
  mutator_of env call = Ok f -> f s = Ok (r, s') ->
  prepared s' + bit (allows_session_start (call, Some r)) <= prepared s + bit (is_reset (call, Some r)).
Proof.
  intros M R. destruct call; call_inv M R; subst; bool_hyps; unfold prepared; cbn;
    repeat case_bool_decide; first [congruence|lia].
Qed.

(** The starts that resets still allow; a prepared state needs one. *)
Definition budget (l : list log_entry) : Z := 1 + count is_reset l - count allows_session_start l.

Lemma budget_snoc l e :
  budget (l ++ [e]) = budget l + bit (is_reset e) - bit (allows_session_start e).
Proof. unfold budget. rewrite !count_snoc. unfold bit. lia. Qed.

Definition covers (n : Z) (o : option CodexCapsuleState) : Prop :=
  match o with Some s => prepared s <= n | None => True end.
Definition session_budget (c : Capsule) : Prop :=
  covers (budget c.(log)) c.(memory) /\ covers (budget c.(log)) c.(disk) /\ 0 <= budget c.(log) /\
  (c.(disk) = None -> 1 <= budget c.(log)).

Lemma prepared_bounds s : 0 <= prepared s <= 1.
Proof. unfold prepared. case_bool_decide; lia. Qed.

Lemma covers_more n n' o : n <= n' -> covers n o -> covers n' o.
Proof. destruct o; cbn; lia. Qed.

(** A call that throws adds at most a reset to the log. *)
Lemma budget_thrown l call : budget l <= budget (l ++ [(call, None)]).
Proof. rewrite budget_snoc. by destruct call; cbn; lia. Qed.

Lemma budget_step identity c c' :
  capsule_inv identity c -> capsule_step identity c c' -> session_budget c -> session_budget c'.
Proof.
  intros I S (Bm & Bd & B0 & Bn).
  assert (Call : forall env call m r u, c.(memory) = Some m -> call_store identity env call m = Ok (r, u) ->
    prepared u <= budget (c.(log) ++ [(call, Some r)]) /\
    prepared u <= budget (c.(log) ++ [(call, None)])).
  { intros env call m r u Hm C. rewrite Hm in Bm. cbn in Bm.
    apply (call_store_inv _ _ _ _ _ _ (ci_memory _ _ I m Hm)) in C as (f & next & F & R & _ & -> & _).
    pose proof (call_prepared _ _ _ _ _ _ F R) as P. change (prepared (stamp _ next)) with (prepared next).
    assert (Er : is_reset (call, Some r) = is_reset (call, None)) by (by destruct call).
    assert (Ea : allows_session_start (call, None) = false) by (by destruct call).
    rewrite !budget_snoc, Ea, Er in *. unfold bit in *.
    destruct (allows_session_start (call, Some r)), (is_reset (call, None)); lia. }
  destruct S as [c now uuid u Hm Hn C|c now uuid u Hm Hn C|c d' u Hm Hd' V|c env call m r u Hm C
    |c env call m e Hm C|c env call m r u replaced survives Hm C|c]; unfold session_budget; cbn -[budget].
  - specialize (Bn Hn). pose proof (prepared_bounds u). split_and!; [lia..|done].
  - specialize (Bn Hn). pose proof (prepared_bounds u). split_and!; [done|lia..|done].
  - rewrite Hd' in Bd. assert (u = d') as ->.
    { eapply validate_same; [|done]. intros k t. by apply (valid_parsed identity), (ci_disk _ _ I). }
    split_and!; done.
  - destruct (Call _ _ _ _ _ Hm C) as [P _]. pose proof (prepared_bounds u). split_and!; [lia..|done].
  - pose proof (budget_thrown c.(log) call). rewrite Hm in Bm.
    split_and!; [by etrans|by eapply covers_more|lia|intros Q%Bn; lia].
  - destruct (Call _ _ _ _ _ Hm C) as [_ P]. pose proof (budget_thrown c.(log) call). rewrite Hm in Bm.
    split_and!; [destruct survives; [by eapply covers_more|done]| |lia|].
    + destruct replaced; [done|by eapply covers_more].
    + destruct replaced; [done|]. intros Q%Bn. lia.
  - split_and!; done.
Qed.

Lemma budget_reach identity c : capsule_steps identity new_capsule c -> 0 <= budget c.(log).
Proof.
  intros R. assert (B : session_budget c); [|by apply B].
  assert (B0 : session_budget new_capsule) by (by split_and!).
  assert (I0 : capsule_inv identity new_capsule) by (by constructor). revert B0 I0.
  induction R as [|c c1 c2 S R IH]; intros B0 I0; [done|].
  apply IH; [by eapply budget_step|by eapply step_inv].
Qed.

(** C28: provider requests are allowed at most once.  In any life of a capsule that
    started without a state file, whatever calls are made, throw, lose their reply
    or die with their process: [claimTurnStart] answers [send] at most once per
    execution, [claimInterrupt] answers [send] at most once per execution, and
    [claimSessionStart] answers [send] at most once more than
    [resetUnboundSessionAfterQuiescence] has been called. *)
Theorem capsule_at_most_once identity c :
  capsule_steps identity new_capsule c ->
  (forall key, count (allows_turn_start key) c.(log) <= 1) /\
  (forall key, count (allows_interrupt key) c.(log) <= 1) /\
  count allows_session_start c.(log) <= 1 + count is_reset c.(log).
Proof.
  intros R. split_and!.
  - intros key. eapply (claimed_once identity key _ (fun t => 1 <= phase_rank t.(phase))); [| | |exact R].
    + intros t t' [_ P _ _ _ _] S. lia.
    + by intros [].
    + intros env call m r s I C Al. apply (call_store_inv _ _ _ _ _ _ I) in C as (f & next & F & E & _ & -> & _).
      destruct call as [| | | |input| | | | | |]; try done. destruct r as [|[]| | |[i| |]| |]; try done. cbn in Al, F.
      bool_hyps. destruct (startTurnInputSchema input) as [p|] eqn:P; [|done]. injection F as <-.
      unfold replies in E. destruct (claimTurnStart p m) as [[a b]|] eqn:T; [|done]. injection E as -> ->.
      apply turn_send_inv in T as (t & Hk & Ph & ->).
      assert (input_key p = key) as K.
      { subst key. unfold startTurnInputSchema in P. destruct (negb _); [done|].
        destruct (turnInputSchema _); [|done]. by injection P as <-. }
      rewrite K in *. split; [exists t; rewrite Ph; cbn; split; [done|lia]|].
      eexists. split; [apply stamp_lookup; eexists; split; [apply lookup_insert_eq|done]|]. cbn. lia.
  - intros key. eapply (claimed_once identity key _ (fun t => t.(cancellation) = CN_interrupt_maybe_sent));
      [| | |exact R].
    + intros t t' [_ _ C _ _ _] S. rewrite S in C. by destruct (cancellation t').
    + by intros [].
    + intros env call m r s I C Al. apply (call_store_inv _ _ _ _ _ _ I) in C as (f & next & F & E & _ & -> & _).
      destruct call as [| | | | | | |ref| | |]; try done. destruct r as [|[]| | |[]|[th id| | |]|]; try done.
      cbn in Al, F. bool_hyps. unfold parse_bool in F. destruct (hostTurnRefSchema ref); [|done]. injection F as <-.
      unfold replies in E. destruct (claimInterrupt ref m) as [[a b]|] eqn:T; [|done]. injection E as -> ->.
      apply interrupt_send_inv in T as (t & Hk & Ph & ->). subst key.
      split; [by exists t|].
      eexists. split; [apply stamp_lookup; eexists; split; [apply lookup_insert_eq|done]|]. done.
  - pose proof (budget_reach _ _ R) as B. unfold budget in B. lia.
Qed.
End safety.

(** ** Witnesses *)
#[local] Existing Instance example_zod.
#[local] Existing Instance example_node.

Lemma capsule_history_witness :
  later (memory_of (life ex_start)) (memory_of ex_life).
Proof.
  refine (proj1 (capsule_history ex_identity (life ex_start) ex_life
    _ _ (life_steps _) _ _ _)).
  - unfold ex_life, life. rewrite (foldl_app exec). apply exec_steps.
  - by_vm.
  - by_vm.
Defined.

Lemma capsule_at_most_once_witness :
  count (allows_turn_start (executionKey (ex_delivery "1") 1))
    ex_life.(log) <= 1.
Proof. exact (proj1 (capsule_at_most_once ex_identity _ (life_steps _)) _). Defined.
