(* ===== verification/CapsuleCommit.v ===== *)
(** * What the transitions make, the validator accepts

    [capsule_commits]: a call whose transition returns is committed, unless the
    clock or the random id is unusable, the turn limit is reached, or the tokens
    reported exceed the stream's limit.  So the checks of [mutate] guard the file
    against damage and never refuse the capsule's own work. *)

From S2P Require Import Prelude JsLib Json Schemas.
From S2P Require Import HostEvents JsonValue TurnInput CapsulePrompt CapsuleState Capsule.
From S2P Require Import CapsuleExample CapsuleMoves CapsuleValid.
Local Open Scope Z_scope.

(** The usage reports an event stream takes. *)
Definition usage_fits (u : HostUsage) : bool :=
  match u with UsageAvailable i o => i + o <=? MAX_PROVIDER_TOKENS | UsageUnavailable _ => true end.
Definition stream_usage (u : HostUsage) : Prop := hostUsageSchema u = true /\ usage_fits u = true.

Section commit.
Context `{ZodLaws} `{NodeLaws}.

(** ** Streams of a stored turn *)
Definition stream_after (t : StoredCodexTurn) (phase : StreamPhase) (n bytes : Z)
    (usage : option HostUsage) : HostEventStreamState :=
  {| st_phase := phase; lastSequence := n; outputBytes := bytes; artifactCount := 0;
     artifactBytes := 0; artifactKeys := []; st_usage := usage;
     st_turn := Some (hostTurnFromStored t); expectedTurn := expected_turn t |}.

Lemma same_ref_refl r : sameHostTurnRef r r = true.
Proof. unfold sameHostTurnRef. by rewrite !bool_decide_eq_true_2. Qed.

Lemma expected_matches t : matchesExpectedHostTurn (expected_turn t) (hostTurnFromStored t) = true.
Proof. unfold matchesExpectedHostTurn. cbn. by rewrite !bool_decide_eq_true_2. Qed.

Lemma accept_acceptance t :
  hostTurnRefSchema (hostTurnFromStored t) = true ->
  acceptHostEvent (createHostEventStreamState (expected_turn t)) (turn_event t 1 HE_accepted)
    DEFAULT_HOST_EVENT_STREAM_POLICY = Ok (stream_after t PH_active 1 0 None).
Proof.
  intros R. unfold acceptHostEvent, hostEventSchema. cbn [turn_event he_turn he_sequence he_kind].
  rewrite R. cbn -[matchesExpectedHostTurn]. by rewrite expected_matches.
Qed.

Lemma accept_usage t u :
  hostTurnRefSchema (hostTurnFromStored t) = true -> stream_usage u ->
  acceptHostEvent (stream_after t PH_active 1 0 None) (turn_event t 2 (HE_usage u))
    DEFAULT_HOST_EVENT_STREAM_POLICY = Ok (stream_after t PH_active 2 0 (Some u)).
Proof.
  intros R [V F]. unfold acceptHostEvent, hostEventSchema. cbn [turn_event he_turn he_sequence he_kind].
  rewrite R. cbn -[sameHostTurnRef hostUsageSchema]. rewrite V, same_ref_refl. cbn.
  destruct u as [i o|]; cbn in *; [|done]. apply Z.leb_le, Z.ltb_ge in F.
  change 100000000 with MAX_PROVIDER_TOKENS. by rewrite F.
Qed.

(** The outcomes [parseTerminal] lets through say little and name no artifact. *)
Lemma bounded_bytes lo n s : bounded lo n s = true -> utf8_length s <= 2 * n.
Proof. unfold bounded. intros L. bool_hyps. pose proof (utf8_length_bounds s). lia. Qed.

Lemma utf8_length_app a b : utf8_length (a +:+ b) = utf8_length a + utf8_length b.
Proof.
  induction a as [|c a IH]; [done|]. change (String c a +:+ b) with (String c (a +:+ b)).
  cbn [utf8_length]. lia.
Qed.

Definition small_event (e : HostEvent) : Prop :=
  textBytesInHostEvent e <= 256 * 1024 /\ artifactsInHostEvent e = [].

Lemma disposition_small d t n :
  turnDispositionSchema d = true -> is_ok (parseCodexCapsuleDisposition (Some d)) = true ->
  small_event (turn_event t n (HE_completed d)).
Proof.
  intros V P. cbn in P. rewrite V in P. unfold small_event.
  destruct d as [ty m [l|]|a|l|r [q|]|c]; cbn in P; try done; cbn in V; bool_hyps;
    unfold boundedTextSchema, MAX_TEXT_LENGTH in *; bool_hyps;
    repeat match goal with E : bounded _ _ _ = true |- _ => apply bounded_bytes in E end; cbn -[Z.mul].
  - split; [lia|done].
  - rewrite utf8_length_app. split; [lia|done].
  - split; [lia|done].
Qed.

Lemma outcome_small o t n :
  parseTerminal o = Ok o ->
  hostEventKindSchema (terminal_kind o) = true /\ small_event (turn_event t n (terminal_kind o)).
Proof.
  destruct o as [d|f|]; cbn; intros P.
  - destruct (turnDispositionSchema d) eqn:V; [|done]. cbn in P.
    split; [done|]. apply disposition_small; [done|]. cbn. rewrite V.
    by destruct (match d with Reply _ _ _ => _ | _ => _ end).
  - destruct (hostFailureSchema f) eqn:V; [|done]. split; [done|].
    apply bounded_bytes in V. split; cbn -[Z.mul]; [lia|done].
  - by split; [|split; cbn -[Z.mul]; [lia|]].
Qed.

Lemma accept_outcome t u o :
  hostTurnRefSchema (hostTurnFromStored t) = true -> parseTerminal o = Ok o ->
  exists s, acceptHostEvent (stream_after t PH_active 2 0 (Some u)) (turn_event t 3 (terminal_kind o))
    DEFAULT_HOST_EVENT_STREAM_POLICY = Ok s /\ s.(st_phase) = PH_terminal.
Proof.
  intros R P. destruct (outcome_small o t 3 P) as [V [B A]].
  unfold acceptHostEvent, hostEventSchema. cbv zeta. rewrite A.
  assert (K : is_accepted (terminal_kind o) = false /\ is_terminal_kind (terminal_kind o) = true /\
    next_usage DEFAULT_HOST_EVENT_STREAM_POLICY (Some u) (terminal_kind o) = Ok (Some u)) by (by destruct o).
  destruct K as (K1 & K2 & K3).
  change (st_usage (stream_after _ _ _ _ _)) with (Some u).
  cbn [turn_event he_turn he_sequence he_kind]. rewrite R, V, K1, K2, K3.
  cbn -[sameHostTurnRef textBytesInHostEvent Z.mul]. rewrite same_ref_refl.
  rewrite (proj2 (Z.ltb_ge (256 * 1024) _)) by lia.
  by eexists.
Qed.

(** The event logs of [CapsuleValid] are streams of the turn. *)
Lemma open_log_stream t :
  hostTurnRefSchema (hostTurnFromStored t) = true -> t.(phase) <> TP_terminal ->
  t.(events) = [turn_event t 1 HE_accepted] -> validateTurnEvents t = Ok tt.
Proof.
  intros R N E. unfold validateTurnEvents. rewrite E. cbn [accept_stream].
  rewrite accept_acceptance by done. cbn. by rewrite bool_decide_eq_false_2.
Qed.

Lemma closed_log_stream t u o :
  hostTurnRefSchema (hostTurnFromStored t) = true -> t.(phase) = TP_terminal -> stream_usage u ->
  parseTerminal o = Ok o ->
  t.(events) = [turn_event t 1 HE_accepted; turn_event t 2 (HE_usage u); turn_event t 3 (terminal_kind o)] ->
  validateTurnEvents t = Ok tt.
Proof.
  intros R T U P E. unfold validateTurnEvents. rewrite E. cbn [accept_stream].
  rewrite accept_acceptance, accept_usage by done.
  destruct (accept_outcome t u o R P) as (s & -> & S). rewrite T, S. done.
Qed.

(** ** Turns *)
Lemma valid_ref ref k t :
  turn_valid ref k t -> event_log t -> hostTurnRefSchema (hostTurnFromStored t) = true.
Proof.
  intros [_ _ _ [E _] _ _] L.
  assert (Hin : turn_event t 1 HE_accepted ∈ t.(events)).
  { destruct L as [_ ->|u o _ ->]; left. }
  rewrite every_iff in E. apply E in Hin. unfold hostEventSchema in Hin. cbn in Hin. by bool_hyps.
Qed.

Lemma stamped_valid ref k t ts :
  zod_datetime ts = true -> turn_valid ref k t -> turn_valid ref k (t <| turn_updated_at := ts |>).
Proof. intros Z [[? ? ? ? ? ?] ? ? ? [? ? ? ?] ?]. by constructor. Qed.

(** A turn that differs in its phase, binding and barrier only. *)
Lemma open_turn_valid ref k t t' :
  turn_valid ref k t -> event_log t -> t.(phase) <> TP_terminal -> t'.(phase) <> TP_terminal ->
  t'.(events) = t.(events) -> t'.(turn_updated_at) = t.(turn_updated_at) ->
  turn_later t t' -> nullable providerReferenceSchema t'.(codex_turn_id) = true -> phase_ok t' ->
  turn_valid ref k t'.
Proof.
  intros V L N N' Ev Up [(E1 & E2 & E3 & E4 & E5) _ _ _ _ _] B P.
  pose proof (valid_ref _ _ _ V L) as R. destruct L as [_ Lo|? ? Q _]; [|done].
  assert (Rf : hostTurnFromStored t' = hostTurnFromStored t).
  { unfold hostTurnFromStored. by rewrite E1, E3. }
  destruct V as [[? ? ? ? ? ?] _ Ut [Es Le] _ _].
  constructor; rewrite ?Ev, ?Up; try done.
  - constructor; by rewrite ?E1, ?E2, ?E3, ?E4, ?E5.
  - apply open_log_stream; [by rewrite Rf|done|]. unfold turn_event. by rewrite Ev, Lo, Rf.
Qed.

Lemma closed_turn_valid ref k t usage outcome c :
  turn_valid ref k t -> event_log t -> t.(phase) <> TP_terminal -> stream_usage usage ->
  parseTerminal outcome = Ok outcome -> (outcome = N_cancelled -> c <> CN_none) ->
  turn_valid ref k (appendTerminal usage outcome (t <| cancellation := c |>)).
Proof.
  intros V L N U P C. pose proof (valid_ref _ _ _ V L) as R. destruct L as [_ Lo|? ? Q _]; [|done].
  destruct V as [[? ? ? ? ? ?] B Ut _ _ _].
  set (t' := appendTerminal usage outcome (t <| cancellation := c |>)).
  assert (Ev : t'.(events) = [turn_event t' 1 HE_accepted; turn_event t' 2 (HE_usage usage);
                              turn_event t' 3 (terminal_kind outcome)]).
  { unfold t', appendTerminal, push_event, host_event. cbn. by rewrite Lo. }
  constructor; try done.
  - rewrite Ev. destruct (outcome_small outcome t' 3 P) as [V _]. split; [|done].
    destruct U as [U _]. unfold hostEventSchema. cbn -[hostTurnRefSchema hostUsageSchema].
    change (hostTurnFromStored t') with (hostTurnFromStored t). by rewrite R, U, V.
  - constructor; cbn; [by intros []|done|done|]. intros e _ El K. rewrite at_last_snoc in El.
    injection El as <-. cbn in K. apply C. by destruct outcome.
  - by eapply closed_log_stream.
Qed.

Lemma turn_move_valid ref k t t' :
  turn_valid ref k t -> event_log t -> turn_move stream_usage t t' -> turn_valid ref k t'.
Proof.
  intros V L M. pose proof (tv_phase _ _ _ V) as [Pu Pb Br _]. pose proof (tv_binding _ _ _ V) as B.
  pose proof (turn_move_later _ _ _ Br M) as La.
  destruct M as [t P|t id P N I|t id P N I|t P|t P|t id P I N|t usage outcome P N Us A].
  - apply (open_turn_valid _ _ t); try done; cbn; [congruence|]. rewrite P in *.
    constructor; cbn; auto; done.
  - apply (open_turn_valid _ _ t); try done; cbn; [congruence|]. rewrite P in *.
    constructor; cbn; auto; try done. by intros [].
  - apply (open_turn_valid _ _ t); try done; cbn; [congruence|]. rewrite P in *.
    constructor; cbn; auto; try done. by intros [].
  - apply (open_turn_valid _ _ t); try done; cbn; [destruct P; congruence|].
    constructor; cbn; try done. by intros [].
  - apply closed_turn_valid; try done. congruence.
  - apply (open_turn_valid _ _ t); try done; cbn; [congruence..|]. rewrite P in *.
    constructor; cbn; rewrite ?P; auto; done.
  - destruct A as [A C]. replace t with (t <| cancellation := t.(cancellation) |>) by (by destruct t).
    by apply closed_turn_valid.
Qed.

(** ** New turns *)
Lemma parsed_fields i :
  parsed_input i -> uuidSchema i.(sti_deliveryId) = true /\
  hostExecutionAttemptSchema i.(sti_executionAttempt) = true /\
  opaqueReferenceSchema i.(sti_turn).(ti_session).(hs_sessionId) = true /\
  uuidSchema i.(sti_turn).(ti_missionId) = true /\ contractVersionSchema i.(sti_turn).(ti_contractVersion) = true.
Proof.
  unfold parsed_input, startTurnInputSchema. cbn. intros P.
  destruct (_ && _) eqn:E; [|done]. cbn in P. bool_hyps. split_and!; [done|done|..];
    unfold turnInputSchema in P; (destruct (turnInputFields (turn_input (sti_turn i))) eqn:F; [|done]);
    unfold turnInputFields, hostSessionRefSchema in F; cbn in F; by bool_hyps.
Qed.

Lemma key_bounded d a :
  uuidSchema d = true -> hostExecutionAttemptSchema a = true ->
  providerReferenceSchema (executionKey d a) = true.
Proof.
  unfold uuidSchema, hostExecutionAttemptSchema, safe_positive, MAX_SAFE_INTEGER. intros U A. bool_hyps.
  pose proof (zod_uuid_length d ltac:(done)) as Ld.
  pose proof (string_of_int_length a ltac:(cbn; lia)) as La.
  unfold providerReferenceSchema, bounded, executionKey. rewrite !slen_app, Ld. change (slen ":") with 1.
  pose proof (Nat2Z.is_nonneg (String.length (string_of_int a))). unfold slen in *. apply andb_true_iff. split; apply Z.leb_le; lia.
Qed.

Lemma prompt_not_empty i : 1 <= slen (prompt_text i).
Proof.
  unfold prompt_text. cbn [join]. rewrite slen_app.
  match goal with |- _ <= ?a + slen ?s => pose proof (Nat2Z.is_nonneg (String.length s)); change (1 <= a + slen s) end.
  unfold slen at 1. cbn [String.length]. unfold slen. lia.
Qed.

Lemma intent_schema i e :
  parsed_input i -> buildCodexCapsuleTurnIntent i = Ok e ->
  storedProviderIntentSchema (storedIntent e) = true /\ intent_matches i (storedIntent e).
Proof.
  intros P B. destruct output_schema_ok as (Oj & Od & _). pose proof (parsed_fields i P) as (U & A & _).
  split.
  - unfold buildCodexCapsuleTurnIntent, parsed_input in *. rewrite P in B. cbn [parse] in B.
    destruct (_ <? _) eqn:L in B; [done|]. destruct (_ <? _) in B; [done|]. injection B as <-.
    unfold storedProviderIntentSchema. cbn -[prompt_text jsonValueSchema CODEX_CAPSULE_OUTPUT_SCHEMA canonicalJson].
    rewrite !sha256_hex, Oj, key_bounded by done. cbn -[prompt_text]. apply Z.ltb_ge in L.
    pose proof (utf8_length_bounds (prompt_text i)). pose proof (prompt_not_empty i).
    unfold bounded, MAX_CODEX_TURN_INPUT_BYTES in *.
    by rewrite !(proj2 (Z.leb_le _ _)) by lia.
  - exists e. split; [done|]. unfold buildCodexCapsuleTurnIntent, parsed_input in *. rewrite P in B. cbn [parse] in B.
    destruct (_ <? _) eqn:L in B; [done|]. destruct (_ <? _) in B; [done|]. by injection B as <-.
Qed.

Lemma fresh_valid s i ts uuid t :
  fresh_turn s i ts uuid t -> zod_datetime ts = true ->
  opaqueReferenceSchema ("capsule-turn-" +:+ uuid) = true ->
  turn_valid (hostSessionFromState s) (input_key i) (push_event HE_accepted t).
Proof.
  intros [P Se (d & e & D & B & ->)] Z O. pose proof (parsed_fields i P) as (U & A & Os & Um & Cv).
  destruct (intent_schema i e P B) as [Si Mi]. set (t' := push_event _ _).
  assert (R : hostTurnRefSchema (hostTurnFromStored t') = true).
  { change (opaqueReferenceSchema ("capsule-turn-" +:+ uuid) &&
            opaqueReferenceSchema i.(sti_turn).(ti_session).(hs_sessionId) &&
            uuidSchema i.(sti_turn).(ti_missionId) && uuidSchema i.(sti_deliveryId) &&
            hostExecutionAttemptSchema i.(sti_executionAttempt) &&
            contractVersionSchema i.(sti_turn).(ti_contractVersion) = true).
    by rewrite O, Os, Um, U, A, Cv. }
  assert (Sd : sha256Schema d = true).
  { rewrite parsed_digest in D by done. injection D as <-. apply sha256_hex. }
  assert (Ev : t'.(events) = [turn_event t' 1 HE_accepted]) by done.
  constructor; try done.
  - constructor; try done. split_and!; try done. unfold opaqueReferenceSchema, boundedOpaqueReferenceSchema in O.
    cbn -["+:+"]. by bool_hyps.
  - rewrite Ev. split; [|done]. unfold hostEventSchema. cbn [every turn_event he_turn he_kind he_sequence].
    by rewrite R.
  - by apply open_log_stream.
Qed.

(** ** States *)
Definition env_usable (env : CallEnv) : Prop :=
  zod_datetime (toISOString env.(env_timestamp)) = true /\
  zod_datetime (toISOString env.(env_now)) = true /\
  opaqueReferenceSchema ("capsule-turn-" +:+ env.(env_uuid)) = true.

Lemma move_turns_valid identity env m next :
  state_inv identity m -> env_usable env -> capsule_move stream_usage env m next ->
  forall k t, next.(turns) !! k = Some t -> turn_valid (hostSessionFromState next) k t.
Proof.
  intros [V L] (Zt & _ & O) M. pose proof (sv_turns _ _ V) as T.
  destruct M as [s|s P|s id P I|s P N E|s input t P N Tm F|s j t t' Hj M]; try exact T.
  - intros k u [[<- <-]|[_ Hk]]%put_lookup; [|by apply T]. exact (fresh_valid _ _ _ _ _ F Zt O).
  - intros k u [[<- <-]|[_ Hk]]%put_lookup; [|by apply T].
    eapply turn_move_valid; [by apply T|by eapply L|done].
Qed.

Lemma move_active U env m next :
  one_active m.(turns) -> capsule_move U env m next -> one_active next.(turns).
Proof.
  intros A M. destruct M as [s|s P|s id P I|s P N E|s input t P N Tm F|s j t t' Hj M]; try exact A.
  - intros k u k' u' [[<- <-]|[_ Hk]]%put_lookup [[<- <-]|[_ Hk']]%put_lookup Nt Nt'; try done; by exfalso; eauto.
  - assert (Nj : t.(phase) <> TP_terminal).
    { destruct M; try congruence. intros Q. naive_solver congruence. }
    intros k u k' u' [[<- <-]|[_ Hk]]%put_lookup [[<- <-]|[_ Hk']]%put_lookup Nt Nt'; eauto.
Qed.

Lemma move_session identity U env m next :
  state_valid identity m -> capsule_move U env m next ->
  (storedSessionSchema next.(session) = true /\
   next.(session).(ss_input_sha256) = digestCanonicalJson (session_json next.(session).(ss_input)) /\
   (next.(session).(ss_phase) = SP_ready <-> next.(session).(codex_thread_id) <> None)) /\
  (next.(session).(ss_phase) <> SP_ready -> next.(turns) = ∅) /\
  next.(session).(ss_input) = m.(session).(ss_input) /\ next.(capsule_id) = m.(capsule_id) /\
  next.(created_at) = m.(created_at).
Proof.
  intros [_ _ (Se & Sd & Sp) _ _ _ R] M.
  destruct M as [s|s P|s id P I|s P N E|s input t P N Tm F|s j t t' Hj M]; cbn; try done.
  - rewrite P in *. assert (codex_thread_id (session s) = None) as Th.
    { destruct (codex_thread_id _); [|done]. assert (SP_prepared = SP_ready) by (by apply Sp). done. }
    split; [|split; [by intros _; apply R|done]]. split; [done|]. split; [done|]. by rewrite Th.
  - split; [|done]. split; [|done]. unfold storedSessionSchema in *. cbn. bool_hyps. rewrite I.
    repeat match goal with E : _ = true |- _ => rewrite E; clear E end. done.
  - split; [done|]. split; [|done]. intros Q%R. by rewrite Q in Hj.
Qed.

Lemma move_commits identity env m next :
  state_inv identity m -> env_usable env -> Z.of_nat (size next.(turns)) <= 200 ->
  capsule_move stream_usage env m next ->
  state_valid identity (stamp (toISOString env.(env_now)) next).
Proof.
  intros I E Sz M. pose proof (move_turns_valid _ _ _ _ I E M) as T. destruct I as [V L], E as (_ & Zn & _).
  pose proof (move_active _ _ _ _ (sv_active _ _ V) M) as A.
  destruct (move_session _ _ _ _ _ V M) as (Se & R & Ei & Ec & Er).
  destruct V as [(Pi & Ci & Si) [Cr _] _ _ _ _ _]. constructor; try done.
  - cbn. by rewrite Ec, Ei.
  - cbn. by rewrite Er.
  - intros k t' (t & Hk & ->)%stamp_lookup. by apply stamped_valid, T.
  - cbn. by rewrite map_size_fmap.
  - intros k u k' u' (t & Hk & ->)%stamp_lookup (t' & Hk' & ->)%stamp_lookup N N'. by eapply A.
  - cbn. intros Q%R. by rewrite Q, fmap_empty.
Qed.

(** C30: the validator never refuses the capsule's own work.  In any life of a
    capsule that started without a state file: if the transition of a call returns
    [r] and the state [next], then the call replies [r] and commits [next], stamped
    with the time, provided that the clock gives timestamps, the random id gives a
    reference, there are at most 200 turns, and a recorded usage is within the
    token limit of an event stream.  (Past that limit the outcome of a turn cannot
    be recorded at all, although [hostUsageSchema] takes it.) *)
Theorem capsule_commits identity c env call m f r next :
  capsule_steps identity new_capsule c -> c.(memory) = Some m ->
  mutator_of env call = Ok f -> f m = Ok (r, next) ->
  env_usable env -> Z.of_nat (size next.(turns)) <= 200 ->
  (forall ref usage outcome, call = Call_recordTerminal ref usage outcome -> usage_fits usage = true) ->
  call_store identity env call m = Ok (r, stamp (toISOString env.(env_now)) next).
Proof.
  intros R Hm F E Us Sz Fit. apply reach_inv in R. pose proof (ci_memory _ _ R m Hm) as I.
  assert (M : capsule_move stream_usage env m next).
  { eapply call_is_move; [by apply (valid_barriers identity), I|done| |done|done].
    intros ref u o Ec S. split; [done|by eapply Fit]. }
  unfold call_store, mutate. rewrite F, E.
  by rewrite (validate_complete _ _ (move_commits _ _ _ _ I Us Sz M)).
Qed.
End commit.

(** ** Witness *)
#[local] Existing Instance example_zod.
#[local] Existing Instance example_node.
#[local] Existing Instance example_node_laws.

Lemma capsule_commits_witness :
  is_ok (call_store ex_identity ex_call_env ex_record (memory_of ex_open)) = true.
Proof.
  assert (E : exists next, replies Reply_events
      (recordTerminal (ex_ref 1) (UsageAvailable 10 20) N_cancelled) (memory_of ex_open) =
      Ok (Reply_events (last_events ex_life), next) /\ Z.of_nat (size next.(turns)) <= 200).
  { eexists. split; [vm_compute; reflexivity|vm_compute; discriminate]. }
  destruct E as (next & E & Sz).
  rewrite (capsule_commits ex_identity ex_open ex_call_env ex_record (memory_of ex_open)
    (replies Reply_events (recordTerminal (ex_ref 1) (UsageAvailable 10 20) N_cancelled))
    (Reply_events (last_events ex_life)) next); [reflexivity|exact (life_steps _)|by_vm|reflexivity|exact E| |exact Sz|].
  - split; [|split]; by_vm.
  - intros ref usage outcome Q. injection Q as _ <- _. reflexivity.
Defined.
