(* ===== verification/CapsuleReplay.v ===== *)
(** * Recording an outcome twice

    Once [recordTerminal] has returned, the outcome of the turn is settled: the
    same report is answered with the same events by every later process, any
    other report is a conflict, and cancelling has no effect. *)

From S2P Require Import Prelude JsLib Json Schemas.
From S2P Require Import HostEvents JsonValue TurnInput CapsulePrompt CapsuleState Capsule.
From S2P Require Import CapsuleExample CapsuleMoves CapsuleValid CapsuleSafety.
Local Open Scope Z_scope.

Record settled (ref : HostTurnRef) (usage : HostUsage) (outcome : CodexNormalizedTerminal)
    (t : StoredCodexTurn) : Prop := {
  se_phase : t.(phase) = TP_terminal;
  se_ref : hostTurnFromStored t = ref;
  se_usage : exists r n, at_minus_2 t.(events) = Some {| he_kind := HE_usage usage; he_turn := r; he_sequence := n |};
  se_outcome : exists n, at_last t.(events) =
    Some {| he_kind := terminal_kind outcome; he_turn := ref; he_sequence := n |}
}.

Section replay.
Context `{Zod} `{NodeJs}.

Lemma terminal_kind_inj o o' : terminal_kind o = terminal_kind o' -> o = o'.
Proof. destruct o, o'; cbn; congruence. Qed.

Lemma at_minus_2_snoc {A} (l : list A) a b : at_minus_2 ((l ++ [a]) ++ [b]) = Some a.
Proof. unfold at_minus_2. by rewrite !rev_app_distr. Qed.

Lemma settled_later ref usage outcome t t' :
  turn_later t t' -> settled ref usage outcome t -> settled ref usage outcome t'.
Proof.
  intros [(Ei & _ & Eh & _) P _ _ _ F] [Se R U O]. destruct (F Se) as (_ & _ & Ev).
  rewrite Se in P. constructor; rewrite ?Ev; try done.
  - by apply phase_rank_terminal.
  - rewrite <-R. unfold hostTurnFromStored. by rewrite Ei, Eh.
Qed.

Lemma record_settles ref usage outcome s ev s' :
  recordTerminal ref usage outcome s = Ok (ev, s') ->
  parseTerminal outcome = Ok outcome /\
  exists t, s'.(turns) !! ref_key ref = Some t /\ settled ref usage outcome t /\ t.(events) = ev.
Proof.
  unfold recordTerminal. intros R. cbv zeta in R.
  destruct (parseTerminal outcome) as [o|] eqn:O; [|done]. apply parse_terminal_same in O as [-> O].
  split; [done|]. destruct (requireTurnByRef s ref) as [t|] eqn:T; [|done].
  apply turn_by_ref_inv in T as [Hk Rf]. destruct (phase t === TP_terminal) eqn:F.
  - bool_hyps. destruct (replayTerminalEvents t usage outcome) as [l|] eqn:Rp; [|done]. injection R as -> ->.
    exists t. split; [done|]. unfold replayTerminalEvents in Rp.
    destruct (at_last (events t)) as [e|] eqn:L; [|done].
    destruct (at_minus_2 (events t)) as [[[| | | | |u| | |] r n]|] eqn:L2; try done.
    destruct (_ || _) eqn:D; [done|]. injection Rp as <-. bool_hyps. subst u. split; [|done].
    constructor; [done|done|by exists r, n|]. exists e.(he_sequence). congruence.
  - destruct (_ && _) in R; [done|]. destruct (_ && _) in R; [done|]. injection R as <- <-.
    eexists. split; [apply lookup_insert_eq|]. split; [|done].
    unfold appendTerminal, push_event, host_event. constructor; cbn.
    + done.
    + exact Rf.
    + rewrite at_minus_2_snoc. by eexists _, _.
    + rewrite at_last_snoc. eexists. unfold hostTurnFromStored in *. cbn. by rewrite Rf.
Qed.

Lemma settled_found ref usage outcome t s :
  s.(turns) !! ref_key ref = Some t -> settled ref usage outcome t -> requireTurnByRef s ref = Ok t.
Proof. intros Hk [_ R _ _]. unfold requireTurnByRef. by rewrite Hk, bool_decide_eq_true_2. Qed.

Lemma settled_replay ref usage outcome t s usage' outcome' :
  s.(turns) !! ref_key ref = Some t -> settled ref usage outcome t ->
  parseTerminal outcome' = Ok outcome' ->
  recordTerminal ref usage' outcome' s =
    if decide (usage' = usage /\ outcome' = outcome) then Ok (t.(events), s)
    else Err (conflict "Codex terminal replay conflicts with durable output").
Proof.
  intros Hk S P. unfold recordTerminal. rewrite P, (settled_found _ _ _ _ _ Hk S).
  destruct S as [Ph R (r & n & U) (n' & O)]. rewrite bool_decide_eq_true_2 by done.
  unfold replayTerminalEvents. rewrite O, U, R. cbn.
  destruct (decide (usage' = usage /\ outcome' = outcome)) as [[-> ->]|N].
  - by rewrite !bool_decide_eq_true_2.
  - destruct (decide (usage = usage')) as [->|Nu]; [|by rewrite (bool_decide_eq_false_2 (usage = usage'))].
    rewrite bool_decide_eq_true_2 by done. rewrite bool_decide_eq_false_2; [done|].
    intros [= E%terminal_kind_inj]. naive_solver.
Qed.

(** The outcome of a turn is settled once.  If [recordTerminal] returned the
    events [ev] for a usage and an outcome, then in every later process of the
    capsule, whatever happened in between: the same report returns [ev] again and
    changes nothing; a report with another usage or another outcome is refused
    with a correlation conflict; [requestCancellation] of the turn changes nothing,
    and [claimInterrupt] answers [terminal]. *)
Theorem terminal_settled identity c env m ref usage outcome ev s c' s' :
  capsule_steps identity new_capsule c -> c.(memory) = Some m ->
  call_store identity env (Call_recordTerminal ref usage outcome) m = Ok (Reply_events ev, s) ->
  capsule_steps identity {| memory := Some s; disk := Some s;
    log := c.(log) ++ [(Call_recordTerminal ref usage outcome, Some (Reply_events ev))] |} c' ->
  c'.(memory) = Some s' ->
  recordTerminal ref usage outcome s' = Ok (ev, s') /\
  (forall usage' outcome', parseTerminal outcome' = Ok outcome' ->
     usage' <> usage \/ outcome' <> outcome ->
     recordTerminal ref usage' outcome' s' =
       Err (conflict "Codex terminal replay conflicts with durable output")) /\
  requestCancellation ref s' = Ok (tt, s') /\ claimInterrupt ref s' = Ok (InterruptTerminal, s').
Proof.
  intros R Hm C R' Hm'. apply reach_inv in R.
  assert (I1 : capsule_inv identity {| memory := Some s; disk := Some s;
    log := c.(log) ++ [(Call_recordTerminal ref usage outcome, Some (Reply_events ev))] |}).
  { eapply step_inv; [exact R|by eapply step_return]. }
  assert (A : above s c').
  { eapply steps_above; [exact I1|done|]. split; [by intros ? [= <-]|by exists s]. }
  apply (call_store_inv _ _ _ _ _ _ (ci_memory _ _ R m Hm)) in C as (f & next & F & E & _ & -> & _).
  cbn in F. ok_inv F. injection F as <-.
  repeat match goal with Q : parse_bool _ _ = Ok _ |- _ => apply parse_bool_inv in Q as [-> _] end.
  unfold replies in E. destruct (recordTerminal ref usage outcome m) as [[a b]|] eqn:T; [|done].
  injection E as -> ->. apply record_settles in T as (P & t & Hk & S & <-).
  assert (later next s') as L by (etrans; [apply stamp_later|by apply (proj1 A)]).
  destruct (la_turns _ _ L _ _ Hk) as (t' & Hk' & Lt). pose proof (settled_later _ _ _ _ _ Lt S) as S'.
  destruct (tl_final _ _ Lt (se_phase _ _ _ _ S)) as (_ & _ & Ev).
  split_and!.
  - rewrite (settled_replay _ _ _ _ _ _ _ Hk' S' P), decide_True by done. by rewrite Ev.
  - intros u o Po D. rewrite (settled_replay _ _ _ _ _ _ _ Hk' S' Po), decide_False; [done|].
    intros []. by destruct D.
  - unfold requestCancellation. rewrite (settled_found _ _ _ _ _ Hk' S').
    by rewrite (bool_decide_eq_true_2 (_ = TP_terminal)) by apply S'.
  - unfold claimInterrupt. rewrite (settled_found _ _ _ _ _ Hk' S').
    by rewrite (bool_decide_eq_true_2 (_ = TP_terminal)) by apply S'.
Qed.
End replay.

(** ** Witness *)
#[local] Existing Instance example_zod.
#[local] Existing Instance example_node.

Lemma terminal_settled_witness :
  recordTerminal (ex_ref 1) (UsageAvailable 10 20) N_cancelled (memory_of ex_life) =
    Ok (last_events ex_life, memory_of ex_life) /\
  recordTerminal (ex_ref 1) (UsageAvailable 10 20)
    (N_failed {| hf_class := R_transient; hf_message := "late" |}) (memory_of ex_life) =
    Err (conflict "Codex terminal replay conflicts with durable output").
Proof.
  destruct (terminal_settled ex_identity ex_open ex_call_env (memory_of ex_open) (ex_ref 1)
    (UsageAvailable 10 20) N_cancelled (last_events ex_life) (memory_of ex_life) ex_life (memory_of ex_life))
    as (Same & Other & _).
  - exact (life_steps _).
  - by_vm.
  - by_vm.
  - apply same_steps. by_vm.
  - by_vm.
  - split; [exact Same|]. apply Other; [by_vm|right; discriminate].
Defined.
