(* ===== verification/CanonicalJson.v ===== *)
(** * Canonical texts determine their values

    The Relay's Nodes compare and hash [canonicalJson] texts.  Two texts are equal
    only if the values are, up to the order of object keys: [norm] sorts them. *)

From Stdlib Require Import Ascii.
From stdpp Require Import sorting.
From S2P Require Import Prelude JsLib Json Schemas MissionEvents JsonValue TurnInput.
Local Open Scope Z_scope.

(** ** Sorting commutes with a map that keeps the keys *)
Section MergeMap.
Context {A B : Type} (R : A -> A -> Prop) (Q : B -> B -> Prop).
Context `{!forall x y, Decision (R x y), !forall x y, Decision (Q x y)} (f : A -> B).
Hypothesis same_order : forall x y, Q (f x) (f y) <-> R x y.

Lemma list_merge_map l k : list_merge Q (map f l) (map f k) = map f (list_merge R l k).
Proof.
  revert k. induction l as [|x l IH]; intros k; [by destruct k|].
  induction k as [|y k IHk]; [done|]. cbn in *.
  rewrite (decide_ext (Q (f x) (f y)) (R x y)) by apply same_order.
  destruct (decide (R x y)); cbn; f_equal; [|done]. exact (IH (y :: k)).
Qed.

Lemma merge_list_to_stack_map st l :
  merge_list_to_stack Q (map (fmap (map f)) st) (map f l) =
  map (fmap (map f)) (merge_list_to_stack R st l).
Proof.
  revert l. induction st as [|[k|] st IH]; intros l; cbn; [done| |done].
  by rewrite list_merge_map, IH.
Qed.
Lemma merge_stack_map st : merge_stack Q (map (fmap (map f)) st) = map f (merge_stack R st).
Proof. induction st as [|[k|] st IH]; cbn; [done| |done]. by rewrite IH, list_merge_map. Qed.
Lemma merge_sort_map l : merge_sort Q (map f l) = map f (merge_sort R l).
Proof.
  unfold merge_sort.
  assert (M : forall st, merge_sort_aux Q (map (fmap (map f)) st) (map f l) =
                         map f (merge_sort_aux R st l)); [|exact (M [])].
  induction l as [|x l IH]; intros st; cbn; [apply merge_stack_map|].
  by rewrite <-IH, <-merge_list_to_stack_map.
Qed.
End MergeMap.

(** ** Values with sorted keys *)
Definition field_le {A} (a b : string * A) : Prop := string_gtb a.1 b.1 = false.
#[export] Instance field_le_dec {A} (a b : string * A) : Decision (field_le a b).
Proof. unfold field_le. apply _. Defined.

Fixpoint norm (v : JsonValue) : JsonValue :=
  match v with
  | JArray l => JArray (map norm l)
  | JObject l => JObject (merge_sort field_le (map (fun kv => (kv.1, norm kv.2)) l))
  | _ => v
  end.

Fixpoint print (v : JsonValue) : string :=
  match v with
  | JNull | JNotFinite => "null"
  | JBool b => if b then "true" else "false"
  | JNumber n => n
  | JString s => json_string s
  | JArray l => "[" +:+ join "," (map print l) +:+ "]"
  | JObject l => "{" +:+ join "," (map (fun kv => json_string kv.1 +:+ ":" +:+ print kv.2) l) +:+ "}"
  end.

Section Induction.
Context (P : JsonValue -> Prop).
Hypothesis atoms : forall v, (forall l, v <> JArray l) -> (forall l, v <> JObject l) -> P v.
Hypothesis arrays : forall l, Forall P l -> P (JArray l).
Hypothesis objects : forall l, Forall (fun kv => P kv.2) l -> P (JObject l).
Lemma json_ind v : P v.
Proof.
  revert v. fix go 1. intros v.
  destruct v as [|b|n| |s|l|l]; try (apply atoms; done).
  - apply arrays. induction l as [|x l IH]; constructor; [apply go|exact IH].
  - apply objects. induction l as [|[k x] l IH]; constructor; [apply go|exact IH].
Qed.
End Induction.

Lemma canonical_print v : canonicalJson v = print (norm v).
Proof.
  induction v as [v NA NO|l IH|l IH] using json_ind.
  - destruct v; try done; [by destruct (NA items)|by destruct (NO fields)].
  - cbn. do 3 f_equal. rewrite map_map. apply map_ext_in. intros x Hx%list_elem_of_In.
    rewrite Forall_forall in IH. auto.
  - cbn. do 3 f_equal.
    replace (map (fun kv => (kv.1, canonicalJson kv.2)) l) with
      (map (fun kv : string * JsonValue => (kv.1, print kv.2)) (map (fun kv => (kv.1, norm kv.2)) l)).
    + rewrite (merge_sort_map field_le key_le (fun kv => (kv.1, print kv.2))) by done.
      by rewrite map_map.
    + rewrite map_map. apply map_ext_in. intros x Hx%list_elem_of_In. cbn.
      rewrite Forall_forall in IH. by rewrite IH.
Qed.

(** ** Texts *)

(** Finite values whose numbers are integers. *)
Fixpoint printable (v : JsonValue) : bool :=
  match v with
  | JNotFinite => false
  | JNumber n => (0 <? slen n) && all_chars int_char n
  | JArray l => forallb printable l
  | JObject l => forallb (fun kv => printable kv.2) l
  | _ => true
  end.

Definition delimited (s : string) : bool :=
  match s with EmptyString => true | String c _ => negb (int_char (code c)) end.

Lemma printed_number_inj a b r q :
  all_chars int_char a = true -> all_chars int_char b = true ->
  delimited r = true -> delimited q = true -> a +:+ r = b +:+ q -> a = b /\ r = q.
Proof.
  revert b. induction a as [|c a IH]; intros [|d b] Ha Hb Hr Hq E; cbn in Ha, Hb; bool_hyps.
  - done.
  - exfalso. change ("" +:+ r) with r in E. subst r. change (String d b +:+ q) with (String d (b +:+ q)) in Hr.
    cbn in Hr. bool_hyps. congruence.
  - exfalso. change ("" +:+ q) with q in E. subst q. change (String c a +:+ r) with (String c (a +:+ r)) in Hq.
    cbn in Hq. bool_hyps. congruence.
  - injection E as -> E. apply IH in E as [-> ->]; done.
Qed.

Lemma string_tail c a b : String c a = String c b -> a = b.
Proof. congruence. Qed.

Lemma text_app_inj (s a b : string) : s +:+ a = s +:+ b -> a = b.
Proof. induction s as [|c s IH]; [done|]. intros E%string_tail. auto. Qed.

Section Join.
Context {A : Type} (text : A -> string) (close : ascii).
Hypothesis close_end : int_char (code close) = false.
Hypothesis close_comma : close <> ","%char.

Definition opens (x : A) : Prop := exists c s, text x = String c s /\ c <> close.
Definition reads (x : A) (good : A -> Prop) : Prop := forall y r q,
  good y -> delimited r = true -> delimited q = true -> text x +:+ r = text y +:+ q -> x = y /\ r = q.

Lemma join_cons x l s :
  join "," (map text (x :: l)) +:+ s =
  text x +:+ match l with [] => s | _ => String ","%char (join "," (map text l) +:+ s) end.
Proof. destruct l as [|y l]; [done|]. cbn [map join]. by rewrite !string_app_assoc. Qed.

Lemma join_inj good l k r q :
  Forall (fun x => reads x good /\ opens x) l -> Forall (fun y => good y /\ opens y) k ->
  join "," (map text l) +:+ String close r = join "," (map text k) +:+ String close q ->
  l = k /\ r = q.
Proof.
  intros Fl. revert k. induction Fl as [|x l [Rx (c & s & Tx & Nx)] Fl IH]; intros k Fk.
  - destruct Fk as [|y k [_ (c & s & Ty & Ny)] _]; [by intros [= ->]|].
    rewrite join_cons, Ty. intros [= -> _]. done.
  - destruct Fk as [|y k [Gy (d & t & Ty & Ny)] Fk].
    + rewrite join_cons, Tx. intros [= -> _]. done.
    + rewrite !join_cons. intros E. apply Rx in E as [-> E]; [|done|..].
      * destruct l as [|x' l], k as [|y' k].
        -- by injection E as ->.
        -- injection E as E _. by destruct close_comma.
        -- injection E as E _. by destruct close_comma.
        -- apply string_tail in E. apply IH in E as [-> ->]; done.
      * destruct l; cbn; [by rewrite close_end|done].
      * destruct k; cbn; [by rewrite close_end|done].
Qed.
End Join.

Lemma print_opens v close :
  printable v = true -> close = "]"%char -> opens print close v.
Proof.
  intros V ->. unfold opens. destruct v as [|[]|n| |s|l|l]; cbn in V; try done; try (by do 2 eexists).
  destruct n as [|c n]; [done|]. exists c, n. split; [done|]. intros ->. by bool_hyps.
Qed.

Ltac heads E := apply (f_equal (fun s => match s with String c _ => Some c | EmptyString => None end)) in E.
Ltac texts E :=
  repeat match type of E with context [(?a +:+ ?b) +:+ ?c] => rewrite (string_app_assoc a b c) in E end.

Lemma print_inj v : forall w r q,
  printable v = true -> printable w = true -> delimited r = true -> delimited q = true ->
  print v +:+ r = print w +:+ q -> v = w /\ r = q.
Proof.
  assert (Num : forall n w r q, printable (JNumber n) = true -> printable w = true ->
    (forall m, w <> JNumber m) -> n +:+ r <> print w +:+ q).
  { intros n w r q V W N E. destruct n as [|c n]; cbn in V; [done|]. bool_hyps. heads E. cbn in E.
    destruct w as [|[]|m| |s|l|l]; cbn in W; try done; try (injection E as ->; done). by destruct (N m). }
  induction v as [v NA NO|l IH|l IH] using json_ind; intros w r q V W Hr Hq E.
  - destruct v as [|b|n| |s|l|l]; cbn in V; try done; [| | | |by destruct (NA l)|by destruct (NO l)].
    + destruct w as [|[]|m| |s|l|l]; try done; try (heads E; discriminate E).
      * by apply text_app_inj in E as ->.
      * symmetry in E. by apply Num in E.
    + destruct w as [|[]|m| |s|l|l], b; try done; try (heads E; discriminate E);
        try (by apply text_app_inj in E as ->).
      all: symmetry in E; by apply Num in E.
    + destruct w as [|b|m| |s|l|l]; try (by apply Num in E). cbn in V, W. bool_hyps.
      destruct (printed_number_inj n m r q) as [-> ->]; done.
    + destruct w as [|[]|m| |t|l|l]; try done; try (heads E; discriminate E).
      * symmetry in E. by apply Num in E.
      * injection E as E. apply json_chars_inj in E as [-> ->]. done.
  - destruct w as [|[]|m| |t|k|k]; try done; try (heads E; discriminate E).
    { symmetry in E. by apply Num in E. }
    cbn [print] in E. texts E. injection E as E. cbn in V, W. rewrite forallb_forall in V, W.
    apply (join_inj print "]"%char eq_refl ltac:(done) (fun x => printable x = true)) in E as [-> ->]; [done|..].
    + rewrite Forall_forall in *. intros x Hx. apply list_elem_of_In in Hx as Hi. split.
      * intros y r' q' Gy. by apply (IH x Hx y r' q' (V x Hi)).
      * by apply print_opens; auto.
    + apply Forall_forall. intros y Hy%list_elem_of_In. split; [auto|by apply print_opens; auto].
  - destruct w as [|[]|m| |t|k|k]; try done; try (heads E; discriminate E).
    { symmetry in E. by apply Num in E. }
    cbn [print] in E. texts E. injection E as E. cbn in V, W. rewrite forallb_forall in V, W.
    apply (join_inj (fun kv => json_string kv.1 +:+ ":" +:+ print kv.2) "}"%char eq_refl ltac:(done)
      (fun kv => printable kv.2 = true)) in E as [-> ->]; [done|..].
    + rewrite Forall_forall in *. intros [i x] Hx. apply list_elem_of_In in Hx as Hi. split.
      * intros [j y] r' q' Gy Dr Dq. cbn [fst snd]. unfold json_string. intros E'. texts E'.
        injection E' as E'. texts E'. apply json_chars_inj in E' as [-> E']. injection E' as E'.
        destruct (IH (j, x) Hx y r' q' (V _ Hi) Gy Dr Dq E') as [Exy ->]. cbn in Exy. by subst.
      * exists quote_char. eexists. by split.
    + apply Forall_forall. intros y Hy%list_elem_of_In. split; [auto|]. exists quote_char. eexists. by split.
Qed.

Lemma printable_norm v : printable (norm v) = printable v.
Proof.
  induction v as [v NA NO|l IH|l IH] using json_ind.
  - destruct v; try done; [by destruct (NA items)|by destruct (NO fields)].
  - cbn. rewrite Forall_forall in IH. apply eq_true_iff_eq. rewrite !forallb_forall. split.
    + intros F x Hx. rewrite <-IH by by apply list_elem_of_In. apply F, in_map, Hx.
    + intros F x (y & <- & Hy)%in_map_iff. rewrite IH by by apply list_elem_of_In. auto.
  - cbn. rewrite Forall_forall in IH. apply eq_true_iff_eq. rewrite !forallb_forall. split.
    + intros F [k x] Hx. cbn. apply list_elem_of_In in Hx as Hi. specialize (IH _ Hi). cbn in IH.
      rewrite <-IH. apply (F (k, norm x)). apply list_elem_of_In. rewrite merge_sort_Permutation.
      apply list_elem_of_fmap. by exists (k, x).
    + intros F x Hx%list_elem_of_In. rewrite merge_sort_Permutation in Hx.
      apply list_elem_of_fmap in Hx as ([k y] & -> & Hy). cbn.
      specialize (IH _ Hy). cbn in IH. rewrite IH. by apply (F (k, y)), list_elem_of_In.
Qed.

Section Injective.
Context `{NodeJs}.

(** A canonical text, and with it a digest up to collisions of sha256,
    determines its value up to the order of object keys: values of strings,
    integers, booleans, arrays and objects have equal texts exactly if they are
    equal once their keys are sorted; and two such values with one digest are equal
    in that sense or exhibit a collision of sha256. *)
Theorem canonical_text_determines v w :
  printable v = true -> printable w = true ->
  (canonicalJson v = canonicalJson w <-> norm v = norm w) /\
  (sha256 (canonicalJson v) = sha256 (canonicalJson w) ->
   norm v = norm w \/ exists s t, s <> t /\ sha256 s = sha256 t).
Proof.
  intros V W. rewrite !canonical_print.
  assert (P : print (norm v) = print (norm w) -> norm v = norm w).
  { intros E. apply (print_inj (norm v) (norm w) EmptyString EmptyString);
      rewrite ?printable_norm; [done..|by rewrite E]. }
  split; [split; [exact P|congruence]|]. intros E.
  destruct (decide (print (norm v) = print (norm w))) as [|N]; [auto|]. right. by do 2 eexists.
Qed.
End Injective.

Lemma canonical_text_determines_witness :
  let a := JObject [("b", json_int 2); ("a", JArray [JNull; JString "x"])] in
  let b := JObject [("a", JArray [JNull; JString "x"]); ("b", json_int 2)] in
  a <> b /\ canonicalJson a = canonicalJson b.
Proof.
  intros a b. split; [discriminate|].
  apply (canonical_text_determines (H := {| JSON_parse := fun _ => None; sha256 := fun s => s |}) a b);
    vm_compute; reflexivity.
Defined.

(** ** Mission events as JSON

    The JSON of the records a Node digests, with keys in code unit order, and that
    it determines them: such a value is printed as it stands, and no two records
    have the same text. *)
(** ** Values whose keys are in order *)
Fixpoint increasing (keys : list string) : bool :=
  match keys with
  | [] => true
  | a :: keys => forallb (fun b => string_gtb b a) keys && increasing keys
  end.
Fixpoint ordered_json (v : JsonValue) : bool :=
  match v with
  | JArray l => forallb ordered_json l
  | JObject l => increasing (map fst l) && forallb (fun kv => ordered_json kv.2) l
  | _ => true
  end.
Definition plain (v : JsonValue) : bool := printable v && ordered_json v.

Lemma increasing_cons k keys : increasing (k :: keys) = true <->
  Forall (fun j => string_gtb j k = true) keys /\ increasing keys = true.
Proof.
  cbn. rewrite andb_true_iff, forallb_forall, Forall_forall. by setoid_rewrite <-list_elem_of_In.
Qed.

Lemma increasing_sorted {A} (l : list (string * A)) :
  increasing (map fst l) = true -> StronglySorted field_le l.
Proof.
  induction l as [|[k x] l IH]; [constructor|]. cbn [map fst]. intros [F I]%increasing_cons.
  constructor; [auto|]. apply Forall_forall. intros [j y] Hy. unfold field_le. cbn.
  rewrite Forall_forall in F. assert (G : string_gtb j k = true).
  { apply F, list_elem_of_fmap. by exists (j, y). }
  apply not_true_iff_false. intros G'. pose proof (string_gtb_trans _ _ _ G G') as C.
  by rewrite string_gtb_irrefl in C.
Qed.

Lemma increasing_keys {A} (l : list (string * A)) x y :
  increasing (map fst l) = true -> x ∈ l -> y ∈ l -> x.1 = y.1 -> x = y.
Proof.
  induction l as [|[k v] l IH]; [by intros _ ?%not_elem_of_nil|]. cbn [map fst].
  intros [F I]%increasing_cons. rewrite Forall_forall in F.
  assert (N : forall z, z ∈ l -> z.1 <> k).
  { intros z Hz E. specialize (F z.1 ltac:(apply list_elem_of_fmap; eauto)). by rewrite E, string_gtb_irrefl in F. }
  intros [->|Hx]%elem_of_cons [->|Hy]%elem_of_cons E; cbn in *; [done| | |auto].
  - by destruct (N y Hy).
  - by destruct (N x Hx).
Qed.

#[export] Instance field_le_transitive {A} : Transitive (@field_le A).
Proof. intros a b c. unfold field_le. rewrite <-!code_unit_ordered. apply transitivity. Qed.
#[export] Instance field_le_total {A} : Total (@field_le A).
Proof. intros a b. unfold field_le. rewrite <-!code_unit_ordered. apply total, _. Qed.

Lemma norm_plain v : ordered_json v = true -> norm v = v.
Proof.
  induction v as [v NA NO|l IH|l IH] using json_ind; cbn [ordered_json norm].
  - destruct v; try done; [by destruct (NA items)|by destruct (NO fields)].
  - rewrite forallb_forall, Forall_forall in *. intros O. f_equal. rewrite <-(map_id l) at 2.
    apply map_ext_in. intros x Hx. apply IH; [by apply list_elem_of_In|auto].
  - rewrite andb_true_iff, forallb_forall, Forall_forall in *. intros [I O]. f_equal.
    replace (map _ l) with l.
    + apply (StronglySorted_unique_strong field_le).
      * intros x y Hx Hy Xy Yx. rewrite merge_sort_Permutation in Hx.
        apply (increasing_keys l); [done..|]. by apply string_gtb_total.
      * apply (StronglySorted_merge_sort field_le).
      * by apply increasing_sorted.
      * apply merge_sort_Permutation.
    + rewrite <-(map_id l) at 1. apply map_ext_in. intros [k x] Hx. cbn. f_equal. symmetry.
      apply (IH (k, x)); [by apply list_elem_of_In|]. by apply (O (k, x)).
Qed.

Lemma plain_inj v w : plain v = true -> plain w = true -> canonicalJson v = canonicalJson w -> v = w.
Proof.
  unfold plain. rewrite !canonical_print. intros [Pv Ov]%andb_true_iff [Pw Ow]%andb_true_iff E.
  rewrite !norm_plain in E by done.
  apply (print_inj v w EmptyString EmptyString); try done. by rewrite E.
Qed.

Lemma json_int_plain n : plain (json_int n) = true.
Proof.
  unfold plain, json_int. cbn. rewrite string_of_int_chars, !andb_true_r. apply Z.ltb_lt.
  pose proof (string_of_int_nonempty n). unfold slen. destruct (string_of_int n); [done|cbn; lia].
Qed.
Lemma json_int_injective a b : json_int a = json_int b -> a = b.
Proof. intros [= E]. by apply string_of_int_inj. Qed.

Lemma plain_array l : forallb plain l = true -> plain (JArray l) = true.
Proof.
  unfold plain. cbn. rewrite andb_true_iff, !forallb_forall. setoid_rewrite andb_true_iff.
  intros A. split; intros x Hx; by apply A.
Qed.
Lemma plain_object l :
  increasing (map fst l) = true -> Forall (fun kv => plain kv.2 = true) l -> plain (JObject l) = true.
Proof.
  unfold plain. cbn. rewrite !andb_true_iff, !forallb_forall, Forall_forall. setoid_rewrite andb_true_iff.
  intros I A. split; [|split; [done|]]; intros x Hx; by apply A, list_elem_of_In.
Qed.
Lemma map_plain {A} (f : A -> JsonValue) l :
  (forall x, plain (f x) = true) -> plain (JArray (map f l)) = true.
Proof. intros F. apply plain_array, forallb_forall. intros y (x & <- & _)%in_map_iff. apply F. Qed.
Lemma map_injective {A B} (f : A -> B) l k :
  (forall x y, f x = f y -> x = y) -> map f l = map f k -> l = k.
Proof.
  intros I. revert k. induction l as [|x l IH]; intros [|y k] E; try done. injection E as Ex E.
  f_equal; [by apply I|auto].
Qed.

(** ** The records *)
Definition json_nullable {A} (f : A -> JsonValue) (x : option A) : JsonValue :=
  match x with Some x => f x | None => JNull end.
Definition json_strings (l : list string) : JsonValue := JArray (map JString l).

Definition artifact_json (a : ArtifactRef) : JsonValue := JObject [
  ("artifact_id", JString a.(art_artifact_id)); ("byte_size", json_int a.(art_byte_size));
  ("media_type", JString a.(art_media_type)); ("sha256", JString a.(art_sha256));
  ("type", JString a.(art_type)); ("version", json_int a.(art_version))].
Definition artifacts_json (l : list ArtifactRef) : JsonValue := JArray (map artifact_json l).

Definition evidence_json (e : VerificationEvidence) : JsonValue := JObject [
  ("artifacts", artifacts_json e.(vev_artifacts)); ("command_id", JString e.(vev_command_id));
  ("duration_ms", json_int e.(vev_duration_ms)); ("exit_code", json_int e.(vev_exit_code));
  ("outcome", JString (match e.(vev_outcome) with O_passed => "passed" | O_failed => "failed" end));
  ("output_sha256", JString e.(vev_output_sha256)); ("recorded_at", JString e.(vev_recorded_at));
  ("summary", JString e.(vev_summary)); ("verification_id", JString e.(vev_verification_id))].

Definition classification_text (c : DeliveryReleaseClassification) : string :=
  match c with R_transient => "transient" | R_permanent => "permanent" | R_policy_denied => "policy_denied" end.

(** An optional field that is absent is left out. *)
Definition disposition_json (d : TurnDisposition) : JsonValue := JObject
  match d with
  | Reply type message artifacts =>
      match artifacts with Some l => [("artifacts", artifacts_json l)] | None => [] end ++
      [("kind", JString "reply"); ("message", JString message);
       ("message_type", JString (message_type_text type))]
  | ProposeContract artifact =>
      [("artifact", artifact_json artifact); ("kind", JString "propose_contract")]
  | Ready evidence => [("evidence", JArray (map evidence_json evidence)); ("kind", JString "ready")]
  | Blocked reason requested_input =>
      [("kind", JString "blocked"); ("reason", JString reason)] ++
      match requested_input with Some t => [("requested_input", JString t)] | None => [] end
  | Failed failure_class =>
      [("class", JString (classification_text failure_class)); ("kind", JString "failed")]
  end.

Definition message_json (m : Message) : JsonValue := JObject [
  ("artifacts", artifacts_json m.(msg_artifacts)); ("author_agent_id", JString m.(msg_author_agent_id));
  ("body", JString m.(msg_body));
  ("causal_parent_message_id", json_nullable JString m.(msg_causal_parent_message_id));
  ("contract_version", json_int m.(msg_contract_version)); ("created_at", JString m.(msg_created_at));
  ("idempotency_key", JString m.(msg_idempotency_key)); ("message_id", JString m.(msg_message_id));
  ("mission_id", JString m.(msg_mission_id)); ("sequence_no", json_int m.(msg_sequence_no));
  ("type", JString (message_type_text m.(msg_type)))].

Definition revision_json (r : ContractRevision) : JsonValue := JObject [
  ("acknowledged_by_agent_ids", json_strings r.(rev_acknowledged_by_agent_ids));
  ("artifact", artifact_json r.(rev_artifact)); ("created_at", JString r.(rev_created_at));
  ("idempotency_key", JString r.(rev_idempotency_key)); ("mission_id", JString r.(rev_mission_id));
  ("previous_version", json_int r.(rev_previous_version));
  ("proposed_by_agent_id", JString r.(rev_proposed_by_agent_id));
  ("revision_id", JString r.(rev_revision_id)); ("version", json_int r.(rev_version))].

Definition event_json (e : MissionCoordinatorEvent) : JsonValue :=
  let v := e.(envelope) in
  let event_id := ("event_id", JString v.(env_event_id)) in
  let idempotency_key := ("idempotency_key", JString v.(env_idempotency_key)) in
  let mission_id := ("mission_id", JString v.(env_mission_id)) in
  let sequence_no := ("sequence_no", json_int v.(env_sequence_no)) in
  let created_at := ("created_at", JString v.(env_created_at)) in
  JObject
  match e.(body) with
  | ParticipantsAccepted b => [
      ("contract", artifact_json b.(pa_contract)); created_at; event_id; idempotency_key; mission_id;
      ("participant_agent_ids", json_strings b.(pa_participant_agent_ids)); sequence_no;
      ("type", JString "participants_accepted")]
  | TurnCompleted b => [
      ("contract_version", json_int b.(tc_contract_version)); created_at;
      ("delivery_id", JString b.(tc_delivery_id)); ("disposition", disposition_json b.(tc_disposition));
      event_id; idempotency_key; ("message", json_nullable message_json b.(tc_message)); mission_id;
      ("participant_agent_id", JString b.(tc_participant_agent_id));
      ("revision", json_nullable revision_json b.(tc_revision)); sequence_no;
      ("type", JString "turn_completed")]
  | ContractAcknowledged b => [
      ("artifact", artifact_json b.(ca_artifact)); ("contract_version", json_int b.(ca_contract_version));
      created_at; ("delivery_id", JString b.(ca_delivery_id)); event_id; idempotency_key; mission_id;
      ("participant_agent_id", JString b.(ca_participant_agent_id));
      ("revision_id", JString b.(ca_revision_id)); sequence_no; ("type", JString "contract_acknowledged")]
  | VerificationRecorded b => [
      ("contract_version", json_int b.(vr_contract_version)); created_at;
      ("delivery_id", JString b.(vr_delivery_id)); event_id; ("evidence", evidence_json b.(vr_evidence));
      idempotency_key; mission_id; ("participant_agent_id", JString b.(vr_participant_agent_id));
      sequence_no; ("type", JString "verification_recorded");
      ("verification_round", json_int b.(vr_verification_round))]
  | MissionTerminal b => [
      created_at; event_id; idempotency_key; mission_id;
      ("reason", JString (match b.(mt_reason) with TR_deadline_exceeded => "deadline_exceeded"
                                                | TR_delivery_dead_lettered => "delivery_dead_lettered" end));
      sequence_no;
      ("terminal_status", JString (match b.(mt_terminal_status) with TS_expired => "expired"
                                                                  | TS_failed => "failed" end));
      ("triggering_delivery_id", json_nullable JString b.(mt_triggering_delivery_id));
      ("type", JString "mission_terminal")]
  end.

(** ** They are plain, and injective *)
Create HintDb json discriminated.
#[export] Hint Resolve json_int_plain : json.

Lemma nullable_plain {A} (f : A -> JsonValue) x : (forall y, plain (f y) = true) -> plain (json_nullable f x) = true.
Proof. destruct x; cbn; auto. Qed.
Lemma string_plain s : plain (JString s) = true.
Proof. done. Qed.
Lemma strings_plain l : plain (json_strings l) = true.
Proof. by apply map_plain. Qed.
#[export] Hint Resolve string_plain strings_plain nullable_plain map_plain : json.

(** An object of plain values with its keys in order. *)
Ltac plain_fields :=
  intros; apply plain_object; [reflexivity|]; cbn [app];
  repeat (apply Forall_cons_2; [cbn [snd]; auto with json|]); apply Forall_nil_2.

Lemma artifact_plain a : plain (artifact_json a) = true.
Proof. plain_fields. Qed.
#[export] Hint Resolve artifact_plain : json.
Lemma artifacts_plain l : plain (artifacts_json l) = true.
Proof. apply map_plain. auto with json. Qed.
#[export] Hint Resolve artifacts_plain : json.
Lemma evidence_plain e : plain (evidence_json e) = true.
Proof. plain_fields. Qed.
#[export] Hint Resolve evidence_plain : json.
Lemma disposition_plain d : plain (disposition_json d) = true.
Proof. destruct d as [t m [l|]|a|l|r [t|]|c]; plain_fields. Qed.
Lemma message_plain m : plain (message_json m) = true.
Proof. plain_fields. Qed.
Lemma revision_plain r : plain (revision_json r) = true.
Proof. plain_fields. Qed.
#[export] Hint Resolve disposition_plain message_plain revision_plain : json.
Lemma event_plain e : plain (event_json e) = true.
Proof. destruct e as [v [b|b|b|b|b]]; plain_fields. Qed.
#[export] Hint Resolve event_plain : json.

Lemma nullable_injective {A} (f : A -> JsonValue) x y :
  (forall a, f a <> JNull) -> (forall a b, f a = f b -> a = b) ->
  json_nullable f x = json_nullable f y -> x = y.
Proof. intros N I. destruct x, y; cbn; intros E; [f_equal; auto|by destruct (N a)|by destruct (N a)|done]. Qed.
Lemma strings_injective l k : json_strings l = json_strings k -> l = k.
Proof. intros [= E]. revert E. apply map_injective. by intros x y [= ->]. Qed.

Lemma message_type_injective a b : message_type_text a = message_type_text b -> a = b.
Proof. by destruct a, b. Qed.
Lemma classification_injective a b : classification_text a = classification_text b -> a = b.
Proof. by destruct a, b. Qed.
#[export] Hint Resolve json_int_injective strings_injective message_type_injective classification_injective : json.

(** [json_fields E] takes an equation between two objects with the same keys to the
    equations between their fields. *)
Lemma object_inj l k : JObject l = JObject k -> l = k.
Proof. by intros [= ->]. Qed.
Lemma array_inj l k : JArray l = JArray k -> l = k.
Proof. by intros [= ->]. Qed.
Lemma string_inj s t : JString s = JString t -> s = t.
Proof. by intros [= ->]. Qed.
Lemma field_cons_inj {A} (k : string) (x y : A) l m : (k, x) :: l = (k, y) :: m -> x = y /\ l = m.
Proof. by intros [= -> ->]. Qed.
Ltac json_fields E :=
  apply object_inj in E; cbn [app] in E;
  repeat (apply field_cons_inj in E as [? E]); clear E.
#[export] Hint Resolve string_inj : json.
#[export] Hint Extern 2 (_ = _) => apply string_inj : json.

Lemma artifact_injective a b : artifact_json a = artifact_json b -> a = b.
Proof. destruct a, b. unfold artifact_json. intros E. json_fields E. f_equal; auto with json. Qed.
Lemma artifacts_injective l k : artifacts_json l = artifacts_json k -> l = k.
Proof. intros E%array_inj. revert E. apply map_injective, artifact_injective. Qed.
#[export] Hint Resolve artifact_injective artifacts_injective : json.

Lemma evidence_injective a b : evidence_json a = evidence_json b -> a = b.
Proof.
  destruct a, b. unfold evidence_json. intros E. json_fields E. f_equal; auto with json.
  match goal with |- ?x = ?y => by destruct x, y end.
Qed.
#[export] Hint Resolve evidence_injective : json.

Lemma disposition_injective a b : disposition_json a = disposition_json b -> a = b.
Proof.
  unfold disposition_json. intros E.
  destruct a as [t m [l|]|x|l|r [q|]|c], b as [t' m' [l'|]|x'|l'|r' [q'|]|c']; try (by inversion E);
    json_fields E; repeat f_equal; auto with json.
  - match goal with F : JArray _ = JArray _ |- _ => apply array_inj in F; revert F end.
    apply map_injective, evidence_injective.
Qed.
Lemma nullable_string_injective x y : json_nullable JString x = json_nullable JString y -> x = y.
Proof. apply nullable_injective; [done|auto with json]. Qed.
#[export] Hint Resolve nullable_string_injective : json.

Lemma message_injective a b : message_json a = message_json b -> a = b.
Proof.
  destruct a, b. unfold message_json. intros E. json_fields E. f_equal; auto with json.
Qed.
Lemma revision_injective a b : revision_json a = revision_json b -> a = b.
Proof. destruct a, b. unfold revision_json. intros E. json_fields E. f_equal; auto with json. Qed.
#[export] Hint Resolve disposition_injective message_injective revision_injective : json.

Lemma nullable_message_injective x y :
  json_nullable message_json x = json_nullable message_json y -> x = y.
Proof. apply nullable_injective; [done|auto with json]. Qed.
Lemma nullable_revision_injective x y :
  json_nullable revision_json x = json_nullable revision_json y -> x = y.
Proof. apply nullable_injective; [done|auto with json]. Qed.
#[export] Hint Resolve nullable_message_injective nullable_revision_injective : json.

Lemma event_injective a b : event_json a = event_json b -> a = b.
Proof.
  destruct a as [[] [[]|[]|[]|[]|[]]], b as [[] [[]|[]|[]|[]|[]]]; unfold event_json; cbn [envelope body];
    intros E; try (by inversion E); json_fields E;
    repeat f_equal; auto with json.
  all: match goal with |- ?x = ?y => by destruct x, y end.
Qed.
#[export] Hint Resolve event_injective : json.
