(* ===== verification/RuntimeAuthority.v ===== *)
(** * Runtime authority

    node/src/runtime-authority-contract.ts and runtime-authority.ts: the grant that
    lets one execution of a delivery act for the Node, its schema, and the
    [LocalReferenceMonitor] every action of the runtime passes.  A clock reading
    is [None] where [getTime()] is NaN.  The monitor's timer is the time it is due;
    [recordEvidence] awaits, so [perform] is two halves, with whatever the monitor
    is asked in between. *)

From S2P Require Import Prelude JsLib Schemas JsonValue HostEvents.
Local Open Scope Z_scope.

(** ** The contract *)
Inductive RuntimeAction :=
| runtime_start | runtime_recover | runtime_cancel | workspace_read | workspace_write
| verification_execute | usage_report | artifact_publish | outbound_publish | repository_push
| repository_merge | package_publish | deploy | network_access | secret_read | privilege_expand.
#[export] Instance RuntimeAction_eq_dec : EqDecision RuntimeAction.
Proof. solve_decision. Defined.
Definition RuntimeAction_name (a : RuntimeAction) : string :=
  match a with
  | runtime_start => "runtime_start" | runtime_recover => "runtime_recover"
  | runtime_cancel => "runtime_cancel" | workspace_read => "workspace_read"
  | workspace_write => "workspace_write" | verification_execute => "verification_execute"
  | usage_report => "usage_report" | artifact_publish => "artifact_publish"
  | outbound_publish => "outbound_publish" | repository_push => "repository_push"
  | repository_merge => "repository_merge" | package_publish => "package_publish"
  | deploy => "deploy" | network_access => "network_access" | secret_read => "secret_read"
  | privilege_expand => "privilege_expand"
  end.

Inductive RuntimeResource :=
| res_runtime | res_workspace | res_verification_command | res_usage | res_artifact | res_relay
| res_repository | res_package | res_deployment | res_network | res_secret | res_privilege.
#[export] Instance RuntimeResource_eq_dec : EqDecision RuntimeResource.
Proof. solve_decision. Defined.
Definition RuntimeResource_name (r : RuntimeResource) : string :=
  match r with
  | res_runtime => "runtime" | res_workspace => "workspace"
  | res_verification_command => "verification_command" | res_usage => "usage"
  | res_artifact => "artifact" | res_relay => "relay" | res_repository => "repository"
  | res_package => "package" | res_deployment => "deployment" | res_network => "network"
  | res_secret => "secret" | res_privilege => "privilege"
  end.

Record RuntimeCapability := { cap_action : RuntimeAction; cap_resource : RuntimeResource }.
#[export] Instance RuntimeCapability_eq_dec : EqDecision RuntimeCapability.
Proof. solve_decision. Defined.

Record RuntimeAuthorityLimits := {
  lim_turn_ms : Z; lim_reported_tokens : Z; lim_output_bytes : Z; lim_artifact_count : Z;
  lim_artifact_bytes : Z; lim_artifact_types : list string }.
#[export] Instance RuntimeAuthorityLimits_eq_dec : EqDecision RuntimeAuthorityLimits.
Proof. solve_decision. Defined.

Record LimitSources := {
  src_product : RuntimeAuthorityLimits; src_local : RuntimeAuthorityLimits;
  src_mission : RuntimeAuthorityLimits; src_runtime : RuntimeAuthorityLimits }.
#[export] Instance LimitSources_eq_dec : EqDecision LimitSources.
Proof. solve_decision. Defined.

Definition positiveLimitSchema : Z -> bool := safe_positive.
Definition runtimeAuthorityLimitsSchema (l : RuntimeAuthorityLimits) : bool :=
  positiveLimitSchema l.(lim_turn_ms) && positiveLimitSchema l.(lim_reported_tokens) &&
  positiveLimitSchema l.(lim_output_bytes) && positiveLimitSchema l.(lim_artifact_count) &&
  positiveLimitSchema l.(lim_artifact_bytes) &&
  every artifactTypeSchema l.(lim_artifact_types) && (len l.(lim_artifact_types) <=? 32).
Definition limitSourcesSchema (s : LimitSources) : bool :=
  runtimeAuthorityLimitsSchema s.(src_product) && runtimeAuthorityLimitsSchema s.(src_local) &&
  runtimeAuthorityLimitsSchema s.(src_mission) && runtimeAuthorityLimitsSchema s.(src_runtime).

Record RuntimeAuthorityScope := {
  sc_grant_id : string; sc_agent_id : string; sc_node_id : string;
  sc_workspace_binding_id : string; sc_workspace_alias : string;
  sc_workspace_resource_sha256 : string; sc_mission_id : string; sc_delivery_id : string;
  sc_execution_attempt : Z; sc_lease_id : string; sc_fencing_token : string;
  sc_policy_profile : string; sc_policy_grant_sha256 : string }.
#[export] Instance RuntimeAuthorityScope_eq_dec : EqDecision RuntimeAuthorityScope.
Proof. solve_decision. Defined.

(** A grant before and after [effective_limits] is added; the two version fields
    are literals. *)
Record RuntimeAuthorityGrantInput := {
  gi_scope : RuntimeAuthorityScope; gi_lease_expires_at : string; gi_hard_expires_at : string;
  gi_capabilities : list RuntimeCapability; gi_limit_sources : LimitSources }.
#[export] Instance RuntimeAuthorityGrantInput_eq_dec : EqDecision RuntimeAuthorityGrantInput.
Proof. solve_decision. Defined.
Record RuntimeAuthorityGrant := {
  gr_input : RuntimeAuthorityGrantInput; gr_effective_limits : RuntimeAuthorityLimits }.
#[export] Instance RuntimeAuthorityGrant_eq_dec : EqDecision RuntimeAuthorityGrant.
Proof. solve_decision. Defined.
Definition gr_scope (g : RuntimeAuthorityGrant) : RuntimeAuthorityScope := g.(gr_input).(gi_scope).

Record RuntimeAuthorityRenewal := {
  rn_grant_id : string; rn_lease_id : string; rn_fencing_token : string;
  rn_lease_expires_at : string }.
Record RuntimeAuthorityMeasurement := {
  me_reported_tokens : option Z; me_output_bytes : option Z; me_artifact_count : option Z;
  me_artifact_bytes : option Z; me_artifact_type : option string }.
Record RuntimeAuthorityRequest := {
  rq_scope : RuntimeAuthorityScope; rq_capability : RuntimeCapability;
  rq_measurement : option RuntimeAuthorityMeasurement }.

Inductive RuntimeAuthorityDenyCode :=
| invalid_request | wrong_grant | wrong_agent | wrong_node | wrong_workspace | wrong_resource
| wrong_mission | wrong_delivery | wrong_attempt | wrong_lease | stale_fence | policy_changed
| expired | revoked | capability_missing | budget_exceeded | product_denied.
#[export] Instance RuntimeAuthorityDenyCode_eq_dec : EqDecision RuntimeAuthorityDenyCode.
Proof. solve_decision. Defined.

Definition isProductDeniedAction (action : RuntimeAction) : bool :=
  match action with
  | repository_push | repository_merge | package_publish | deploy | network_access | secret_read
  | privilege_expand => true
  | _ => false
  end.
Definition expectedRuntimeResource (action : RuntimeAction) : RuntimeResource :=
  match action with
  | runtime_start | runtime_recover | runtime_cancel => res_runtime
  | workspace_read | workspace_write => res_workspace
  | verification_execute => res_verification_command
  | usage_report => res_usage | artifact_publish => res_artifact | outbound_publish => res_relay
  | repository_push | repository_merge => res_repository | package_publish => res_package
  | deploy => res_deployment | network_access => res_network | secret_read => res_secret
  | privilege_expand => res_privilege
  end.
Definition sameRuntimeCapability (left right : RuntimeCapability) : bool :=
  (left.(cap_action) === right.(cap_action)) && (left.(cap_resource) === right.(cap_resource)).

Section Contract.
Context `{Zod}.

Definition runtimeAuthorityScopeSchema (s : RuntimeAuthorityScope) : bool :=
  zod_uuid s.(sc_grant_id) && zod_uuid s.(sc_agent_id) && zod_uuid s.(sc_node_id) &&
  zod_uuid s.(sc_workspace_binding_id) && workspaceAliasSchema s.(sc_workspace_alias) &&
  sha256Schema s.(sc_workspace_resource_sha256) && zod_uuid s.(sc_mission_id) &&
  zod_uuid s.(sc_delivery_id) && safe_positive s.(sc_execution_attempt) &&
  zod_uuid s.(sc_lease_id) && activeFencingTokenSchema s.(sc_fencing_token) &&
  bounded 1 64 s.(sc_policy_profile) && sha256Schema s.(sc_policy_grant_sha256).

Definition capabilityKey (c : RuntimeCapability) : string :=
  RuntimeAction_name c.(cap_action) +:+ ":" +:+ RuntimeResource_name c.(cap_resource).

Definition validateGrantCapabilities (capabilities : list RuntimeCapability) : issues :=
  issue_if (negb (unique_values (map capabilityKey capabilities)))
    "Runtime capabilities must be unique" ++
  concat (map (fun c =>
    issue_if (c.(cap_resource) !== expectedRuntimeResource c.(cap_action))
      "Runtime capability action and resource do not match") capabilities).

Definition grant_object (g : RuntimeAuthorityGrantInput) : bool :=
  runtimeAuthorityScopeSchema g.(gi_scope) && zod_datetime g.(gi_lease_expires_at) &&
  zod_datetime g.(gi_hard_expires_at) && (len g.(gi_capabilities) <=? 32) &&
  limitSourcesSchema g.(gi_limit_sources).
Definition runtimeAuthorityGrantInputSchema (g : RuntimeAuthorityGrantInput) : bool :=
  grant_object g && no_issues (validateGrantCapabilities g.(gi_capabilities)).

Definition sources (s : LimitSources) : list RuntimeAuthorityLimits :=
  [s.(src_product); s.(src_local); s.(src_mission); s.(src_runtime)].
(** [Math.min(...values.map(f))] *)
Definition least (f : RuntimeAuthorityLimits -> Z) (s : LimitSources) : Z :=
  foldl Z.min (f s.(src_product)) (map f [s.(src_local); s.(src_mission); s.(src_runtime)]).

Definition intersectLimits (s : LimitSources) : RuntimeAuthorityLimits :=
  let artifactTypes := foldl (fun current source => array_filter (includes source) current)
    s.(src_product).(lim_artifact_types)
    (map lim_artifact_types [s.(src_local); s.(src_mission); s.(src_runtime)]) in {|
  lim_turn_ms := least lim_turn_ms s; lim_reported_tokens := least lim_reported_tokens s;
  lim_output_bytes := least lim_output_bytes s; lim_artifact_count := least lim_artifact_count s;
  lim_artifact_bytes := least lim_artifact_bytes s;
  lim_artifact_types := sort_strings (distinct artifactTypes) |}.

Definition limits_json (l : RuntimeAuthorityLimits) : JsonValue := JObject [
  ("turn_ms", json_int l.(lim_turn_ms)); ("reported_tokens", json_int l.(lim_reported_tokens));
  ("output_bytes", json_int l.(lim_output_bytes));
  ("artifact_count", json_int l.(lim_artifact_count));
  ("artifact_bytes", json_int l.(lim_artifact_bytes));
  ("artifact_types", JArray (map JString l.(lim_artifact_types)))].

Definition runtimeAuthorityGrantSchema (g : RuntimeAuthorityGrant) : bool :=
  grant_object g.(gr_input) && runtimeAuthorityLimitsSchema g.(gr_effective_limits) &&
  no_issues (validateGrantCapabilities g.(gr_input).(gi_capabilities) ++
    issue_if (canonicalJson (limits_json (intersectLimits g.(gr_input).(gi_limit_sources))) !==
              canonicalJson (limits_json g.(gr_effective_limits)))
      "Effective authority limits do not match their four policy sources").

Definition runtimeAuthorityRenewalSchema (r : RuntimeAuthorityRenewal) : bool :=
  zod_uuid r.(rn_grant_id) && zod_uuid r.(rn_lease_id) &&
  activeFencingTokenSchema r.(rn_fencing_token) && zod_datetime r.(rn_lease_expires_at).

Definition safe_nonnegative (n : Z) : bool := (0 <=? n) && (n <=? MAX_SAFE_INTEGER).
Definition runtimeAuthorityMeasurementSchema (m : RuntimeAuthorityMeasurement) : bool :=
  nullable safe_nonnegative m.(me_reported_tokens) && nullable safe_nonnegative m.(me_output_bytes) &&
  nullable safe_nonnegative m.(me_artifact_count) && nullable safe_nonnegative m.(me_artifact_bytes) &&
  nullable artifactTypeSchema m.(me_artifact_type).
Definition runtimeAuthorityRequestSchema (r : RuntimeAuthorityRequest) : bool :=
  runtimeAuthorityScopeSchema r.(rq_scope) && nullable runtimeAuthorityMeasurementSchema r.(rq_measurement).

(** [None]: the parse throws. *)
Definition parseRuntimeAuthorityGrant (g : RuntimeAuthorityGrant) : option RuntimeAuthorityGrant :=
  if runtimeAuthorityGrantSchema g then Some g else None.
Definition compileRuntimeAuthorityGrant (input : RuntimeAuthorityGrantInput)
    : option RuntimeAuthorityGrant :=
  if runtimeAuthorityGrantInputSchema input
  then parseRuntimeAuthorityGrant {| gr_input := input;
         gr_effective_limits := intersectLimits input.(gi_limit_sources) |}
  else None.
Definition runtimeAuthorityRequest (grant : RuntimeAuthorityGrant) (capability : RuntimeCapability)
    (measurement : option RuntimeAuthorityMeasurement) : option RuntimeAuthorityRequest :=
  let request := {| rq_scope := gr_scope grant; rq_capability := capability;
                    rq_measurement := measurement |} in
  if runtimeAuthorityRequestSchema request then Some request else None.

(** ** The monitor *)
Record Monitor := {
  mon_grant : RuntimeAuthorityGrant; mon_leaseExpiresAt : string;
  mon_revoked : option RuntimeAuthorityDenyCode; mon_timer : option Z }.
#[export] Instance Monitor_eta : Settable Monitor := fun m =>
  Build_Monitor (mon_grant m) (mon_leaseExpiresAt m) (mon_revoked m) (mon_timer m).

Definition num_equal (a b : option Z) : bool :=
  match a, b with Some a, Some b => a =? b | _, _ => false end.

Definition advanceRuntimeAuthorityLease (grant : RuntimeAuthorityGrant) (currentExpiry : string)
    (renewal : RuntimeAuthorityRenewal) : result RuntimeAuthorityDenyCode string :=
  let scope := gr_scope grant in
  throw invalid_request when negb (runtimeAuthorityRenewalSchema renewal) in
  throw wrong_grant when renewal.(rn_grant_id) !== scope.(sc_grant_id) in
  throw wrong_lease when renewal.(rn_lease_id) !== scope.(sc_lease_id) in
  throw stale_fence when renewal.(rn_fencing_token) !== scope.(sc_fencing_token) in
  throw expired when num_lt (Date_parse renewal.(rn_lease_expires_at)) (Date_parse currentExpiry) in
  Ok renewal.(rn_lease_expires_at).

Definition revoke (reason : RuntimeAuthorityDenyCode) (m : Monitor) : Monitor :=
  match m.(mon_revoked) with
  | Some _ => m
  | None => m <| mon_revoked := Some reason |> <| mon_timer := None |>
  end.

Definition MAX_TIMEOUT : Z := 2147483647.
Definition armExpiry (now : option Z) (m : Monitor) : Monitor :=
  match m.(mon_revoked) with
  | Some _ => m <| mon_timer := None |>
  | None =>
      match Date_parse m.(mon_leaseExpiresAt),
            Date_parse m.(mon_grant).(gr_input).(gi_hard_expires_at), now with
      | Some lease, Some hard, Some now =>
          let remaining := Z.min lease hard - now in
          if remaining <=? 0 then revoke expired m
          else m <| mon_timer := Some (now + Z.min remaining MAX_TIMEOUT) |>
      | _, _, _ => revoke expired m
      end
  end.

Inductive MonitorError := GrantInvalid | Denied (code : RuntimeAuthorityDenyCode).
Definition denied {A} (r : result RuntimeAuthorityDenyCode A) : result MonitorError A :=
  match r with Ok a => Ok a | Err code => Err (Denied code) end.

(** [new LocalReferenceMonitor(grant, sink, { currentLease })] *)
Definition new_monitor (grantValue : RuntimeAuthorityGrant)
    (currentLease : option RuntimeAuthorityRenewal) (now : option Z) : result MonitorError Monitor :=
  match parseRuntimeAuthorityGrant grantValue with
  | None => Err GrantInvalid
  | Some grant =>
      let* lease := match currentLease with
        | None => Ok grant.(gr_input).(gi_lease_expires_at)
        | Some renewal =>
            denied (advanceRuntimeAuthorityLease grant grant.(gr_input).(gi_lease_expires_at) renewal)
        end in
      Ok (armExpiry now {| mon_grant := grant; mon_leaseExpiresAt := lease; mon_revoked := None;
                           mon_timer := None |})
  end.

Definition assertLive (now : option Z) (m : Monitor) : Monitor * result RuntimeAuthorityDenyCode unit :=
  match m.(mon_revoked) with
  | Some reason => (m, Err reason)
  | None =>
      if is_null now || num_ge now (Date_parse m.(mon_leaseExpiresAt)) ||
         num_ge now (Date_parse m.(mon_grant).(gr_input).(gi_hard_expires_at))
      then (revoke expired m, Err expired) else (m, Ok tt)
  end.

Definition renew (value : RuntimeAuthorityRenewal) (now rearmed : option Z) (m : Monitor)
    : Monitor * result RuntimeAuthorityDenyCode unit :=
  match assertLive now m with
  | (m, Err code) => (m, Err code)
  | (m, Ok tt) =>
      match advanceRuntimeAuthorityLease m.(mon_grant) m.(mon_leaseExpiresAt) value with
      | Err code => (m, Err code)
      | Ok next =>
          if num_equal (Date_parse next) (Date_parse m.(mon_leaseExpiresAt)) then (m, Ok tt)
          else (armExpiry rearmed (m <| mon_leaseExpiresAt := next |>), Ok tt)
      end
  end.

Definition assertScope (grant : RuntimeAuthorityScope) (request : RuntimeAuthorityScope)
    : result RuntimeAuthorityDenyCode unit :=
  throw wrong_grant when request.(sc_grant_id) !== grant.(sc_grant_id) in
  throw wrong_agent when request.(sc_agent_id) !== grant.(sc_agent_id) in
  throw wrong_node when request.(sc_node_id) !== grant.(sc_node_id) in
  throw wrong_workspace when
    (request.(sc_workspace_binding_id) !== grant.(sc_workspace_binding_id)) ||
    (request.(sc_workspace_alias) !== grant.(sc_workspace_alias)) in
  throw wrong_resource when
    request.(sc_workspace_resource_sha256) !== grant.(sc_workspace_resource_sha256) in
  throw wrong_mission when request.(sc_mission_id) !== grant.(sc_mission_id) in
  throw wrong_delivery when request.(sc_delivery_id) !== grant.(sc_delivery_id) in
  throw wrong_attempt when request.(sc_execution_attempt) !== grant.(sc_execution_attempt) in
  throw wrong_lease when request.(sc_lease_id) !== grant.(sc_lease_id) in
  throw stale_fence when request.(sc_fencing_token) !== grant.(sc_fencing_token) in
  throw policy_changed when
    (request.(sc_policy_profile) !== grant.(sc_policy_profile)) ||
    (request.(sc_policy_grant_sha256) !== grant.(sc_policy_grant_sha256)) in
  Ok tt.

Definition missing {A} (field : RuntimeAuthorityMeasurement -> option A)
    (m : option RuntimeAuthorityMeasurement) : bool := is_null (m ≫= field).
Definition measured_action (a : RuntimeAction) : bool :=
  (a === usage_report) || (a === artifact_publish) || (a === outbound_publish).

Definition assertMeasurement (limits : RuntimeAuthorityLimits) (request : RuntimeAuthorityRequest)
    : result RuntimeAuthorityDenyCode unit :=
  let measurement := request.(rq_measurement) in
  let action := request.(rq_capability).(cap_action) in
  throw invalid_request when (action === usage_report) && missing me_reported_tokens measurement in
  throw invalid_request when
    (action === artifact_publish) &&
    (missing me_artifact_count measurement || missing me_artifact_bytes measurement ||
     missing me_artifact_type measurement) in
  throw invalid_request when (action === outbound_publish) && missing me_output_bytes measurement in
  match measurement with
  | None => Ok tt
  | Some m =>
      throw invalid_request when negb (measured_action action) in
      throw budget_exceeded when
        (limits.(lim_reported_tokens) <? default 0 m.(me_reported_tokens)) ||
        (limits.(lim_output_bytes) <? default 0 m.(me_output_bytes)) ||
        (limits.(lim_artifact_count) <? default 0 m.(me_artifact_count)) ||
        (limits.(lim_artifact_bytes) <? default 0 m.(me_artifact_bytes)) ||
        match m.(me_artifact_type) with
        | Some type => negb (includes limits.(lim_artifact_types) type)
        | None => false
        end in
      Ok tt
  end.

(** What [assert] checks of a request once the monitor is live; [None] is a value
    that is not a request at all. *)
Definition permitted (grant : RuntimeAuthorityGrant) (value : option RuntimeAuthorityRequest)
    : result RuntimeAuthorityDenyCode unit :=
  match value with
  | None => Err invalid_request
  | Some request =>
      let capability := request.(rq_capability) in
      throw invalid_request when negb (runtimeAuthorityRequestSchema request) in
      let* _ := assertScope (gr_scope grant) request.(rq_scope) in
      throw wrong_resource when
        capability.(cap_resource) !== expectedRuntimeResource capability.(cap_action) in
      throw product_denied when isProductDeniedAction capability.(cap_action) in
      throw capability_missing when
        negb (some (fun item => sameRuntimeCapability item capability)
                grant.(gr_input).(gi_capabilities)) in
      assertMeasurement grant.(gr_effective_limits) request
  end.

Definition assert (value : option RuntimeAuthorityRequest) (now : option Z) (m : Monitor)
    : Monitor * result RuntimeAuthorityDenyCode unit :=
  match assertLive now m with
  | (m, Err code) => (m, Err code)
  | (m, Ok _) => (m, permitted m.(mon_grant) value)
  end.
(** ** Evidence *)
Definition capability_json (c : RuntimeCapability) : JsonValue := JObject [
  ("action", JString (RuntimeAction_name c.(cap_action)));
  ("resource", JString (RuntimeResource_name c.(cap_resource)))].
Definition scope_fields (s : RuntimeAuthorityScope) : list (string * JsonValue) := [
  ("grant_id", JString s.(sc_grant_id)); ("agent_id", JString s.(sc_agent_id));
  ("node_id", JString s.(sc_node_id)); ("workspace_binding_id", JString s.(sc_workspace_binding_id));
  ("workspace_alias", JString s.(sc_workspace_alias));
  ("workspace_resource_sha256", JString s.(sc_workspace_resource_sha256));
  ("mission_id", JString s.(sc_mission_id)); ("delivery_id", JString s.(sc_delivery_id));
  ("execution_attempt", json_int s.(sc_execution_attempt)); ("lease_id", JString s.(sc_lease_id));
  ("fencing_token", JString s.(sc_fencing_token)); ("policy_profile", JString s.(sc_policy_profile));
  ("policy_grant_sha256", JString s.(sc_policy_grant_sha256))].
Definition grant_json (g : RuntimeAuthorityGrant) : JsonValue :=
  let i := g.(gr_input) in
  JObject (scope_fields i.(gi_scope) ++ [
    ("schema_version", json_int 1); ("product_policy_version", json_int 1);
    ("lease_expires_at", JString i.(gi_lease_expires_at));
    ("hard_expires_at", JString i.(gi_hard_expires_at));
    ("capabilities", JArray (map capability_json i.(gi_capabilities)));
    ("limit_sources", JObject [
      ("product", limits_json i.(gi_limit_sources).(src_product));
      ("local", limits_json i.(gi_limit_sources).(src_local));
      ("mission", limits_json i.(gi_limit_sources).(src_mission));
      ("runtime", limits_json i.(gi_limit_sources).(src_runtime))]);
    ("effective_limits", limits_json g.(gr_effective_limits))]).
Definition runtimeAuthorityGrantSha256 `{NodeJs} (grant : RuntimeAuthorityGrant) : string :=
  sha256 (canonicalJson (grant_json grant)).

(** [ev_capability] is [None] for the two literals [unknown], [ev_denied] is [None]
    for an allowed request. *)
Record RuntimeAuthorityEvidence := {
  ev_decision_id : string; ev_recorded_at : string; ev_grant_id : string; ev_grant_sha256 : string;
  ev_agent_id : string; ev_node_id : string; ev_workspace_alias : string; ev_mission_id : string;
  ev_delivery_id : string; ev_execution_attempt : Z; ev_fencing_token : string;
  ev_capability : option RuntimeCapability; ev_denied : option RuntimeAuthorityDenyCode }.
Definition runtimeAuthorityEvidenceSchema (e : RuntimeAuthorityEvidence) : bool :=
  zod_uuid e.(ev_decision_id) && zod_datetime e.(ev_recorded_at) && zod_uuid e.(ev_grant_id) &&
  sha256Schema e.(ev_grant_sha256) && zod_uuid e.(ev_agent_id) && zod_uuid e.(ev_node_id) &&
  workspaceAliasSchema e.(ev_workspace_alias) && zod_uuid e.(ev_mission_id) &&
  zod_uuid e.(ev_delivery_id) && safe_positive e.(ev_execution_attempt) &&
  activeFencingTokenSchema e.(ev_fencing_token).

(** What [recordEvidence] hands to the sink; [None] if it throws before. *)
Definition evidence `{NodeJs} (grant : RuntimeAuthorityGrant) (value : option RuntimeAuthorityRequest)
    (denial : option RuntimeAuthorityDenyCode) (decisionId : string) (now : option Z)
    : option RuntimeAuthorityEvidence :=
  recordedAt ← toISOString <$> now;
  let scope := gr_scope grant in
  let e := {|
    ev_decision_id := decisionId; ev_recorded_at := recordedAt; ev_grant_id := scope.(sc_grant_id);
    ev_grant_sha256 := runtimeAuthorityGrantSha256 grant; ev_agent_id := scope.(sc_agent_id);
    ev_node_id := scope.(sc_node_id); ev_workspace_alias := scope.(sc_workspace_alias);
    ev_mission_id := scope.(sc_mission_id); ev_delivery_id := scope.(sc_delivery_id);
    ev_execution_attempt := scope.(sc_execution_attempt);
    ev_fencing_token := scope.(sc_fencing_token);
    ev_capability := match value with
                     | Some r => if runtimeAuthorityRequestSchema r then Some r.(rq_capability) else None
                     | None => None end;
    ev_denied := denial |} in
  if runtimeAuthorityEvidenceSchema e then Some e else None.

(** [perform] up to the record of its decision: the request was allowed and its
    evidence recorded ([Ok]), or it throws.  [stored] is whether the sink took it;
    a denial is thrown whether or not it could be recorded. *)
Inductive PerformError := PerformDenied (code : RuntimeAuthorityDenyCode) | EvidenceNotRecorded.
Definition perform_decision `{NodeJs} (value : option RuntimeAuthorityRequest) (decisionId : string)
    (now recordedAt : option Z) (stored : bool) (m : Monitor)
    : Monitor * list RuntimeAuthorityEvidence * result PerformError unit :=
  let sent (denial : option RuntimeAuthorityDenyCode) :=
    if stored then option_list (evidence m.(mon_grant) value denial decisionId recordedAt) else [] in
  match assert value now m with
  | (m', Err code) => (m', sent (Some code), Err (PerformDenied code))
  | (m', Ok _) =>
      match sent None with
      | [] => (m', [], Err EvidenceNotRecorded)
      | recorded => (m', recorded, Ok tt)
      end
  end.
(** The rest of [perform]: [Ok] is where the effect starts. *)
Definition perform_effect (value : option RuntimeAuthorityRequest) (now : option Z) (m : Monitor)
    : Monitor * result RuntimeAuthorityDenyCode unit := assert value now m.

(** The timer's callback. *)
Definition timer_fires (fired now : option Z) (m : Monitor) : Monitor :=
  if num_ge fired m.(mon_timer) then armExpiry now m else m.
End Contract.
