(* ===== verification/RuntimeAuthoritySafety.v ===== *)
(** * What a runtime's authority allows

    A grant's limits are the intersection of its four sources; and every effect a
    [LocalReferenceMonitor] lets through, whatever the order of requests, renewals,
    revocations and timers, was within the grant, under a live lease, and recorded. *)

From S2P Require Import Prelude JsLib Json Schemas JsonValue CanonicalJson HostEvents RuntimeAuthority.
Local Open Scope Z_scope.

(** ** Limits *)

(** A measured request is within limits. *)
Definition within (m : RuntimeAuthorityMeasurement) (l : RuntimeAuthorityLimits) : Prop :=
  default 0 m.(me_reported_tokens) <= l.(lim_reported_tokens) /\
  default 0 m.(me_output_bytes) <= l.(lim_output_bytes) /\
  default 0 m.(me_artifact_count) <= l.(lim_artifact_count) /\
  default 0 m.(me_artifact_bytes) <= l.(lim_artifact_bytes) /\
  (forall t, m.(me_artifact_type) = Some t -> t ∈ l.(lim_artifact_types)).

Lemma elem_of_sources l s : l ∈ sources s <->
  l = s.(src_product) \/ l = s.(src_local) \/ l = s.(src_mission) \/ l = s.(src_runtime).
Proof. unfold sources. rewrite !elem_of_cons, elem_of_nil. tauto. Qed.

Lemma least_glb f s x : x <= least f s <-> forall l, l ∈ sources s -> x <= f l.
Proof.
  unfold least. cbn. setoid_rewrite elem_of_sources.
  split; [intros Hx l [->|[->|[->| ->]]]; lia|]. intros A.
  repeat apply Z.min_glb; apply A; tauto.
Qed.

Lemma intersect_types s t :
  t ∈ (intersectLimits s).(lim_artifact_types) <-> forall l, l ∈ sources s -> t ∈ l.(lim_artifact_types).
Proof.
  unfold intersectLimits. cbn [lim_artifact_types foldl map].
  rewrite elem_of_sort_strings, elem_of_distinct, !elem_of_array_filter.
  unfold includes. rewrite !bool_decide_eq_true.
  setoid_rewrite elem_of_sources.
  split; [intros [[[? ?] ?] ?] l [->|[->|[->| ->]]]; done|]. intros A. split_and!; apply A; tauto.
Qed.

Lemma within_intersect m s : within m (intersectLimits s) <-> forall l, l ∈ sources s -> within m l.
Proof.
  unfold within at 1. setoid_rewrite intersect_types. cbn [intersectLimits lim_reported_tokens
    lim_output_bytes lim_artifact_count lim_artifact_bytes]. rewrite !least_glb. unfold within.
  split; [intros (A & B & C & D & T) l Hl; split_and!; auto; intros t E; by apply (T t E)|].
  intros A. split_and!; intros; by apply A.
Qed.

Lemma limits_printable l : printable (limits_json l) = true.
Proof.
  assert (I : forall n, printable (json_int n) = true).
  { intros n. unfold json_int. cbn. rewrite string_of_int_chars, andb_true_r. apply Z.ltb_lt.
    pose proof (string_of_int_nonempty n). unfold slen. destruct (string_of_int n); [done|cbn; lia]. }
  unfold limits_json. cbn -[json_int]. rewrite !I. cbn. rewrite andb_true_r, forallb_forall.
  by intros x (y & <- & _)%in_map_iff.
Qed.

Lemma cons_inv {A} (x y : A) l k : x :: l = y :: k -> x = y /\ l = k.
Proof. by intros [= -> ->]. Qed.
Lemma pair_snd {A B} (a : A) (x y : B) : (a, x) = (a, y) -> x = y.
Proof. by intros [= ->]. Qed.

Lemma norm_limits l : norm (limits_json l) = JObject [
  ("artifact_bytes", json_int l.(lim_artifact_bytes));
  ("artifact_count", json_int l.(lim_artifact_count));
  ("artifact_types", JArray (map norm (map JString l.(lim_artifact_types))));
  ("output_bytes", json_int l.(lim_output_bytes));
  ("reported_tokens", json_int l.(lim_reported_tokens)); ("turn_ms", json_int l.(lim_turn_ms))].
Proof. reflexivity. Qed.

Lemma json_int_inj a b : json_int a = json_int b -> a = b.
Proof. intros [= E]. by apply string_of_int_inj. Qed.
Lemma json_strings_inj l k : map norm (map JString l) = map norm (map JString k) -> l = k.
Proof. revert k. induction l as [|x l IH]; intros [|y k] E; try done. injection E as -> E. f_equal. auto. Qed.

Lemma limits_text_inj a b : canonicalJson (limits_json a) = canonicalJson (limits_json b) -> a = b.
Proof.
  rewrite !canonical_print. intros E.
  assert (N : norm (limits_json a) = norm (limits_json b)).
  { apply (print_inj _ _ EmptyString EmptyString); rewrite ?printable_norm; auto using limits_printable.
    by rewrite E. }
  rewrite !norm_limits in N.
  assert (F : forall l k, JObject l = JObject k -> l = k) by congruence. apply F in N. clear F E.
  destruct a as [a1 a2 a3 a4 a5 a6], b as [b1 b2 b3 b4 b5 b6].
  cbn [lim_turn_ms lim_reported_tokens lim_output_bytes lim_artifact_count lim_artifact_bytes
    lim_artifact_types] in N.
  repeat match goal with H : (?k, ?x) :: ?l = (?k, ?y) :: ?m |- _ =>
    apply cons_inv in H as [?%pair_snd H] end.
  repeat match goal with H : json_int _ = json_int _ |- _ => apply json_int_inj in H; subst end.
  match goal with H : JArray _ = JArray _ |- _ =>
    assert (a6 = b6) as -> by (apply json_strings_inj; congruence) end. done.
Qed.

Lemma intersect_valid s : limitSourcesSchema s = true -> runtimeAuthorityLimitsSchema (intersectLimits s) = true.
Proof.
  intros V. assert (P : forall l, l ∈ sources s -> runtimeAuthorityLimitsSchema l = true).
  { unfold limitSourcesSchema in V. bool_hyps. by intros l [->|[->|[->| ->]]]%elem_of_sources. }
  assert (L : forall f, (forall l, l ∈ sources s -> safe_positive (f l) = true) ->
                   safe_positive (least f s) = true).
  { intros f F. unfold safe_positive in *. apply andb_true_iff. rewrite Z.ltb_lt, Z.leb_le. split.
    - enough (1 <= least f s) by lia. apply least_glb. intros l Hl. specialize (F l Hl). bool_hyps. lia.
    - assert (least f s <= f s.(src_product)) by (unfold least; cbn; lia).
      specialize (F s.(src_product) ltac:(apply elem_of_sources; auto)). bool_hyps. lia. }
  assert (Product : src_product s ∈ sources s) by (apply elem_of_sources; auto).
  unfold runtimeAuthorityLimitsSchema, positiveLimitSchema in *.
  rewrite !andb_true_iff. split_and!;
    try (cbn [intersectLimits lim_turn_ms lim_reported_tokens lim_output_bytes lim_artifact_count
           lim_artifact_bytes]; apply L; intros l Hl; specialize (P l Hl); by bool_hyps).
  - apply every_iff. intros t Ht. rewrite intersect_types in Ht. specialize (Ht _ Product).
    specialize (P _ Product). bool_hyps. by rewrite every_iff in *; auto.
  - specialize (P _ Product). bool_hyps. apply Z.leb_le.
    cbn [intersectLimits lim_artifact_types foldl map].
    unfold len in *. rewrite sort_strings_length.
    pose proof (distinct_length (array_filter (includes (lim_artifact_types (src_runtime s)))
      (array_filter (includes (lim_artifact_types (src_mission s)))
        (array_filter (includes (lim_artifact_types (src_local s))) (lim_artifact_types (src_product s)))))).
    pose proof (array_filter_length (includes (lim_artifact_types (src_runtime s)))
      (array_filter (includes (lim_artifact_types (src_mission s)))
        (array_filter (includes (lim_artifact_types (src_local s))) (lim_artifact_types (src_product s))))).
    pose proof (array_filter_length (includes (lim_artifact_types (src_mission s)))
        (array_filter (includes (lim_artifact_types (src_local s))) (lim_artifact_types (src_product s)))).
    pose proof (array_filter_length (includes (lim_artifact_types (src_local s)))
      (lim_artifact_types (src_product s))). lia.
Qed.

(** C38: a grant passes its schema exactly if compiling its input gives it back, and
    every input that passes compiles.  Its effective limits are the intersection of
    the four sources: a measured request is within them if and only if it is within
    each source, and the turn is no longer than the shortest. *)
Theorem grant_limits_intersect `{Zod} input :
  (runtimeAuthorityGrantInputSchema input = true <-> is_Some (compileRuntimeAuthorityGrant input)) /\
  (forall g, runtimeAuthorityGrantSchema g = true <-> compileRuntimeAuthorityGrant g.(gr_input) = Some g) /\
  (forall g, compileRuntimeAuthorityGrant input = Some g ->
     (forall m, within m g.(gr_effective_limits) <->
        forall l, l ∈ sources input.(gi_limit_sources) -> within m l) /\
     (forall t, t <= g.(gr_effective_limits).(lim_turn_ms) <->
        forall l, l ∈ sources input.(gi_limit_sources) -> t <= l.(lim_turn_ms))).
Proof.
  assert (S : forall i e, runtimeAuthorityGrantSchema {| gr_input := i; gr_effective_limits := e |} = true <->
    runtimeAuthorityGrantInputSchema i = true /\ e = intersectLimits i.(gi_limit_sources)).
  { intros i e. unfold runtimeAuthorityGrantSchema, runtimeAuthorityGrantInputSchema.
    cbn [gr_input gr_effective_limits]. rewrite no_issues_app, no_issues_if, negb_involutive.
    rewrite !andb_true_iff, bool_decide_eq_true. split.
    - intros ((G & _) & I & E). apply limits_text_inj in E as ->. done.
    - intros ((G & I) & ->). split_and!; try done. apply intersect_valid.
      unfold grant_object in G. by bool_hyps. }
  assert (C : forall i g, compileRuntimeAuthorityGrant i = Some g <->
    runtimeAuthorityGrantInputSchema i = true /\
    g = {| gr_input := i; gr_effective_limits := intersectLimits i.(gi_limit_sources) |}).
  { intros i g. unfold compileRuntimeAuthorityGrant, parseRuntimeAuthorityGrant.
    destruct (runtimeAuthorityGrantInputSchema i) eqn:V; [|naive_solver].
    assert (runtimeAuthorityGrantSchema
      {| gr_input := i; gr_effective_limits := intersectLimits i.(gi_limit_sources) |} = true) as ->
      by by apply S. naive_solver. }
  split; [|split].
  - split; [intros V; eexists; by apply C|]. intros [g E]. by apply C in E as [V _].
  - intros [i e]. rewrite C, S. naive_solver.
  - intros g [V ->]%C. cbn [gr_effective_limits]. split; [intros m; apply within_intersect|].
    intros t. apply least_glb.
Qed.

(** ** The monitor's histories *)

(** An effect that was let through: its request, the time of the last check, and the
    lease deadline the monitor held. *)
Record Effect := { ef_request : RuntimeAuthorityRequest; ef_time : Z; ef_lease : string }.

(** A monitor, the lease deadlines it was given, the requests whose decision is
    recorded and whose effect has not started, the evidence and the effects. *)
Record History := {
  hy_monitor : Monitor; hy_leases : list string; hy_waiting : list RuntimeAuthorityRequest;
  hy_evidence : list RuntimeAuthorityEvidence; hy_effects : list Effect }.
#[export] Instance History_eta : Settable History := fun h =>
  Build_History (hy_monitor h) (hy_leases h) (hy_waiting h) (hy_evidence h) (hy_effects h).

Section Histories.
Context `{Zod, NodeJs}.

(** One call of the monitor: in any order, any number at a time in flight. *)
Inductive monitor_step (h : History) : History -> Prop :=
| step_renew value now rearmed m r :
    renew value now rearmed h.(hy_monitor) = (m, r) ->
    monitor_step h (h <| hy_monitor := m |> <| hy_leases :=
      h.(hy_leases) ++ (if is_ok r then [value.(rn_lease_expires_at)] else []) |>)
| step_revoke reason :
    monitor_step h (h <| hy_monitor := revoke reason h.(hy_monitor) |>)
| step_timer fired now :
    monitor_step h (h <| hy_monitor := timer_fires fired now h.(hy_monitor) |>)
| step_assert value now m r :
    assert value now h.(hy_monitor) = (m, r) -> monitor_step h (h <| hy_monitor := m |>)
| step_refused value id now recordedAt stored m recorded e :
    perform_decision value id now recordedAt stored h.(hy_monitor) = (m, recorded, Err e) ->
    monitor_step h (h <| hy_monitor := m |> <| hy_evidence := h.(hy_evidence) ++ recorded |>)
| step_recorded request id now recordedAt stored m recorded :
    perform_decision (Some request) id now recordedAt stored h.(hy_monitor) = (m, recorded, Ok tt) ->
    monitor_step h (h <| hy_monitor := m |> <| hy_evidence := h.(hy_evidence) ++ recorded |>
      <| hy_waiting := request :: h.(hy_waiting) |>)
| step_effect l1 request l2 t m :
    h.(hy_waiting) = l1 ++ request :: l2 ->
    perform_effect (Some request) (Some t) h.(hy_monitor) = (m, Ok tt) ->
    monitor_step h (h <| hy_monitor := m |> <| hy_waiting := l1 ++ l2 |>
      <| hy_effects := h.(hy_effects) ++
         [{| ef_request := request; ef_time := t; ef_lease := m.(mon_leaseExpiresAt) |}] |>)
| step_abandoned l1 request l2 now m e :
    h.(hy_waiting) = l1 ++ request :: l2 ->
    perform_effect (Some request) now h.(hy_monitor) = (m, Err e) ->
    monitor_step h (h <| hy_monitor := m |> <| hy_waiting := l1 ++ l2 |>).

Definition opened (m : Monitor) : History := {|
  hy_monitor := m;
  hy_leases := [m.(mon_grant).(gr_input).(gi_lease_expires_at); m.(mon_leaseExpiresAt)];
  hy_waiting := []; hy_evidence := []; hy_effects := [] |}.

(** [t] is before a deadline. *)
Definition before (t : Z) (deadline : string) : Prop := exists d, Date_parse deadline = Some d /\ t < d.

Record request_allowed (g : RuntimeAuthorityGrant) (r : RuntimeAuthorityRequest) : Prop := {
  al_scope : r.(rq_scope) = gr_scope g;
  al_capability : r.(rq_capability) ∈ g.(gr_input).(gi_capabilities);
  al_resource : r.(rq_capability).(cap_resource) = expectedRuntimeResource r.(rq_capability).(cap_action);
  al_product : isProductDeniedAction r.(rq_capability).(cap_action) = false;
  al_limits : forall m, r.(rq_measurement) = Some m ->
    forall l, l ∈ sources g.(gr_input).(gi_limit_sources) -> within m l;
  al_measured : measured_action r.(rq_capability).(cap_action) = true -> is_Some r.(rq_measurement) }.

Definition allows (g : RuntimeAuthorityGrant) (r : RuntimeAuthorityRequest)
    (e : RuntimeAuthorityEvidence) : Prop :=
  ev_denied e = None /\ ev_capability e = Some r.(rq_capability) /\
  ev_grant_sha256 e = runtimeAuthorityGrantSha256 g /\ ev_grant_id e = (gr_scope g).(sc_grant_id).

Lemma scope_same g r : assertScope g r = Ok tt -> r = g.
Proof.
  unfold assertScope. intros E. ok_inv E. bool_hyps. destruct g, r; cbn in *. by subst.
Qed.

Lemma permitted_allowed g value :
  runtimeAuthorityGrantSchema g = true -> permitted g value = Ok tt ->
  exists r, value = Some r /\ runtimeAuthorityRequestSchema r = true /\ request_allowed g r.
Proof.
  intros V. unfold permitted. destruct value as [r|]; [|done]. intros E. ok_inv E.
  exists r. split; [done|]. destruct a. bool_hyps. split; [done|].
  assert (I : gr_effective_limits g = intersectLimits g.(gr_input).(gi_limit_sources)).
  { unfold runtimeAuthorityGrantSchema in V. rewrite no_issues_app, no_issues_if in V. bool_hyps.
    by apply limits_text_inj. }
  split; try done.
  - by apply scope_same.
  - match goal with S : some _ _ = true |- _ => apply some_iff in S as (c & Hc & Sc) end.
    unfold sameRuntimeCapability in Sc. bool_hyps. destruct c, (rq_capability r); cbn in *. by subst.
  - intros m Em. apply within_intersect. rewrite <-I. unfold assertMeasurement in E.
    rewrite Em in E. ok_inv E. bool_hyps. unfold within. split_and!; try lia.
    intros t Et. rewrite Et in *. bool_hyps. unfold includes in *. by bool_hyps.
  - intros M. destruct (rq_measurement r) as [m|] eqn:Em; [done|]. exfalso.
    unfold assertMeasurement in E. rewrite Em in E. unfold missing in E. cbn in E.
    unfold measured_action in M. apply orb_true_iff in M as [[M|M]%orb_true_iff|M]; rewrite M in E; cbn in E.
    all: repeat case_match; done.
Qed.

(** A monitor that is not revoked has deadlines it can compare with the clock. *)
Definition comparable (m : Monitor) : Prop :=
  mon_revoked m = None ->
  is_Some (Date_parse m.(mon_leaseExpiresAt)) /\ is_Some (Date_parse m.(mon_grant).(gr_input).(gi_hard_expires_at)).

(** What every method keeps: the grant, the deadlines unless it renews, and a
    revocation with its reason. *)
Record kept (m m' : Monitor) : Prop := {
  kp_grant : mon_grant m' = mon_grant m;
  kp_revoked : forall r, mon_revoked m = Some r -> mon_revoked m' = Some r;
  kp_comparable : comparable m -> comparable m' }.

Lemma monitor_kept_refl m : kept m m.
Proof. by split. Qed.
Lemma monitor_kept_trans m1 m2 m3 : kept m1 m2 -> kept m2 m3 -> kept m1 m3.
Proof. intros [G1 R1 C1] [G2 R2 C2]. split; [congruence|auto|auto]. Qed.

Lemma kept_revoke reason m : kept m (revoke reason m) /\ mon_leaseExpiresAt (revoke reason m) = mon_leaseExpiresAt m.
Proof.
  unfold revoke. destruct (mon_revoked m) eqn:E; [by split; [apply monitor_kept_refl|]|].
  split; [|done]. split; [done|congruence|]. intros _ C. discriminate C.
Qed.

Lemma kept_arm now m :
  mon_grant (armExpiry now m) = mon_grant m /\ mon_leaseExpiresAt (armExpiry now m) = mon_leaseExpiresAt m /\
  (forall r, mon_revoked m = Some r -> mon_revoked (armExpiry now m) = Some r) /\ comparable (armExpiry now m).
Proof.
  unfold armExpiry, comparable, revoke. destruct (mon_revoked m) eqn:R.
  { split_and!; try done; cbn; by rewrite R. }
  destruct (Date_parse (mon_leaseExpiresAt m)) eqn:L, (Date_parse (gi_hard_expires_at _)) eqn:D, now;
    cbn; rewrite ?R; try by split_and!.
  destruct (_ <=? 0); cbn; rewrite ?R; [by split_and!|]. by split_and!.
Qed.

Lemma assertLive_ok now m m' r : assertLive now m = (m', r) ->
  kept m m' /\ mon_leaseExpiresAt m' = mon_leaseExpiresAt m /\
  (r = Ok tt -> m' = m /\ mon_revoked m = None /\ exists t, now = Some t /\
     num_ge now (Date_parse (mon_leaseExpiresAt m)) = false /\
     num_ge now (Date_parse m.(mon_grant).(gr_input).(gi_hard_expires_at)) = false).
Proof.
  unfold assertLive. destruct (mon_revoked m) eqn:R.
  { intros [= <- <-]. split_and!; [apply monitor_kept_refl|done|done]. }
  destruct (_ || _) eqn:L; intros [= <- <-].
  - pose proof (kept_revoke expired m) as [K E]. by split_and!.
  - split_and!; [apply monitor_kept_refl|done|]. intros _. split_and!; try done. bool_hyps. destruct now; [|done]. eauto.
Qed.

Lemma assert_ok value now m m' r : assert value now m = (m', r) ->
  kept m m' /\ mon_leaseExpiresAt m' = mon_leaseExpiresAt m /\
  (r = Ok tt -> m' = m /\ permitted (mon_grant m) value = Ok tt /\ exists t, now = Some t /\
     (comparable m -> before t (mon_leaseExpiresAt m) /\
                      before t m.(mon_grant).(gr_input).(gi_hard_expires_at))).
Proof.
  unfold assert. destruct (assertLive now m) as [m1 [[]|e]] eqn:E; apply assertLive_ok in E as (K & L & A);
    intros [= <- <-]; split_and!; try done.
  destruct A as (-> & R & t & -> & Al & Ah); [done|]. intros P. split_and!; [done|done|].
  exists t. split; [done|]. intros C. destruct (C R) as [[d Ed] [h Eh]].
  unfold before. rewrite Ed, Eh in *. cbn in *. split; eexists; (split; [done|lia]).
Qed.

Lemma decision_ok value id now recordedAt stored m m' recorded r :
  perform_decision value id now recordedAt stored m = (m', recorded, r) ->
  kept m m' /\ mon_leaseExpiresAt m' = mon_leaseExpiresAt m /\
  (r = Ok tt -> exists v e, value = Some v /\ e ∈ recorded /\
     (runtimeAuthorityRequestSchema v = true -> allows (mon_grant m) v e)).
Proof.
  unfold perform_decision. destruct (assert value now m) as [m1 [[]|e]] eqn:A; apply assert_ok in A as (K & L & A).
  2: { intros [= <- <- <-]. by split_and!. }
  destruct A as (-> & P & _); [done|].
  destruct stored; [|intros [= <- <- <-]; by split_and!].
  destruct (evidence _ _ _ _ _) as [e|] eqn:E; cbn; intros [= <- <- <-]; split_and!; try done.
  intros _. destruct value as [v|]; [|done]. exists v, e. split_and!; [done|left|].
  intros V. unfold evidence in E. destruct recordedAt; cbn in E; [|done]. rewrite V in E.
  case_match; [|done]. by injection E as <-.
Qed.

Definition allowed_evidence (l : list RuntimeAuthorityEvidence) : list RuntimeAuthorityEvidence :=
  array_filter (fun e => is_null (ev_denied e)) l.

Record authorized (g : RuntimeAuthorityGrant) (h : History) (e : Effect) : Prop := {
  az_allowed : request_allowed g e.(ef_request);
  az_lease : e.(ef_lease) ∈ h.(hy_leases) /\ before e.(ef_time) e.(ef_lease);
  az_hard : before e.(ef_time) g.(gr_input).(gi_hard_expires_at);
  az_evidence : exists v, v ∈ h.(hy_evidence) /\ allows g e.(ef_request) v }.

Record sound (g : RuntimeAuthorityGrant) (h : History) : Prop := {
  so_grant : mon_grant (hy_monitor h) = g;
  so_comparable : comparable (hy_monitor h);
  so_lease : mon_leaseExpiresAt (hy_monitor h) ∈ hy_leases h;
  so_waiting : forall r, r ∈ hy_waiting h -> exists v, v ∈ hy_evidence h /\
    (runtimeAuthorityRequestSchema r = true -> allows g r v);
  so_effects : forall e, e ∈ hy_effects h -> authorized g h e }.

Lemma authorized_later g h h' e :
  (forall x, x ∈ hy_leases h -> x ∈ hy_leases h') -> (forall x, x ∈ hy_evidence h -> x ∈ hy_evidence h') ->
  authorized g h e -> authorized g h' e.
Proof. intros L E [A [Al Ab] Ah (v & Hv & W)]. split; eauto. Qed.

Lemma renew_ok value now rearmed m m' r : renew value now rearmed m = (m', r) ->
  kept m m' /\ (mon_leaseExpiresAt m' = mon_leaseExpiresAt m \/
                (r = Ok tt /\ mon_leaseExpiresAt m' = rn_lease_expires_at value)).
Proof.
  unfold renew. destruct (assertLive now m) as [m1 [[]|e]] eqn:E; apply assertLive_ok in E as (K & L & A);
    [|intros [= <- <-]; auto]. destruct A as (-> & R & _); [done|].
  destruct (advanceRuntimeAuthorityLease _ _ _) as [next|e] eqn:N; [|intros [= <- <-]; auto].
  assert (next = rn_lease_expires_at value) as -> by (unfold advanceRuntimeAuthorityLease in N; ok_inv N; congruence).
  destruct (num_equal _ _); intros [= <- <-]; [auto|].
  pose proof (kept_arm rearmed (m <| mon_leaseExpiresAt := rn_lease_expires_at value |>)) as (G & L' & Rv & C).
  split; [|by right]. split; [done|done|auto].
Qed.

Lemma monitor_kept h h' : monitor_step h h' -> kept (hy_monitor h) (hy_monitor h').
Proof.
  intros S. destruct S; cbn.
  - by apply renew_ok in H1 as [? _].
  - apply kept_revoke.
  - unfold timer_fires. destruct (num_ge _ _); [|apply monitor_kept_refl].
    pose proof (kept_arm now (hy_monitor h)) as (? & _ & ? & ?). by split.
  - by apply assert_ok in H1 as [? _].
  - by apply decision_ok in H1 as [? _].
  - by apply decision_ok in H1 as [? _].
  - by apply assert_ok in H2 as [? _].
  - by apply assert_ok in H2 as [? _].
Qed.

(** A step that adds no effect, with the lease and the evidence it adds. *)
Lemma sound_quiet g h h' :
  sound g h -> kept (hy_monitor h) (hy_monitor h') -> hy_effects h' = hy_effects h ->
  (forall x, x ∈ hy_leases h -> x ∈ hy_leases h') -> (forall x, x ∈ hy_evidence h -> x ∈ hy_evidence h') ->
  mon_leaseExpiresAt (hy_monitor h') ∈ hy_leases h' ->
  (forall r, r ∈ hy_waiting h' -> r ∈ hy_waiting h \/ exists v, v ∈ hy_evidence h' /\
    (runtimeAuthorityRequestSchema r = true -> allows g r v)) ->
  sound g h'.
Proof.
  intros [G C L W E] [KG _ KC] Ee Sl Se L' W'. split; [congruence|auto|done| |].
  - intros r [Hr|?]%W'; [|done]. destruct (W r Hr) as (v & Hv & Av). eauto.
  - intros e. rewrite Ee. intros He. by eapply authorized_later, E.
Qed.

Lemma sound_step g h h' :
  runtimeAuthorityGrantSchema g = true -> sound g h -> monitor_step h h' -> sound g h'.
Proof.
  intros V So S. pose proof (monitor_kept h h' S) as K.
  assert (Here : forall l, hy_leases h = l -> mon_leaseExpiresAt (hy_monitor h) ∈ l)
    by (intros l <-; apply So).
  destruct S as [v now re m r R|reason|fired now|v now m r R|v id now rt st m l e R|v id now rt st m l R
    |l1 v l2 t m Ew R|l1 v l2 now m e Ew R]; cbn in K.
  - apply renew_ok in R as [_ R]. eapply sound_quiet; cbn; eauto; intros; try set_solver.
    destruct R as [->|[-> ->]]; [apply elem_of_app; left; apply So|cbn; set_solver].
  - eapply sound_quiet; cbn; eauto. rewrite (proj2 (kept_revoke _ _)). apply So.
  - eapply sound_quiet; cbn; eauto. unfold timer_fires. destruct (num_ge _ _); [|apply So].
    destruct (kept_arm now (hy_monitor h)) as (_ & -> & _). apply So.
  - apply assert_ok in R as (_ & L & _). eapply sound_quiet; cbn; eauto. rewrite L. apply So.
  - apply decision_ok in R as (_ & L & _). eapply sound_quiet; cbn; eauto; [set_solver|rewrite L; apply So].
  - apply decision_ok in R as (_ & L & R). destruct R as (v' & e & [= <-] & He & A); [done|].
    rewrite (so_grant _ _ So) in A. eapply sound_quiet; cbn; eauto; [set_solver|rewrite L; apply So|].
    intros r [->|Hr]%elem_of_cons; [right|auto]. exists e. split; [set_solver|done].
  - apply assert_ok in R as (_ & L & R). destruct R as (-> & P & t' & [= <-] & D); [done|].
    rewrite (so_grant _ _ So) in P, D. destruct (D (so_comparable _ _ So)) as [Dl Dh].
    apply permitted_allowed in P as (v' & [= <-] & Vv & Al); [|done].
    assert (Hv : v ∈ hy_waiting h) by (rewrite Ew; set_solver).
    destruct (so_waiting _ _ So v Hv) as (w & Hw & Aw).
    split; cbn; try apply So.
    + intros r Hr. apply So. rewrite Ew. set_solver.
    + intros e [He| ->%list_elem_of_singleton]%elem_of_app.
      { by eapply authorized_later, So. }
      split; cbn; try done; [split; [apply So|done]|eauto].
  - apply assert_ok in R as (_ & L & _). eapply sound_quiet; cbn; eauto.
    { rewrite L. apply So. } intros r Hr. left. rewrite Ew. set_solver.
Qed.
End Histories.

(** C36: complete mediation.  Whatever is asked of a monitor, in any order and with
    any number of requests in flight, every effect it lets through was requested for
    exactly the scope of the grant, with a capability the grant lists, its expected
    resource and none the product denies, within the limits of each of the four
    sources, before the hard deadline and before a lease deadline that came with the
    grant or an accepted renewal; and a decision that allows it had been recorded. *)
Theorem effects_authorized `{Zod, NodeJs} grant currentLease now m h e :
  new_monitor grant currentLease now = Ok m -> rtc monitor_step (opened m) h -> e ∈ hy_effects h ->
  authorized grant h e.
Proof.
  intros N R. unfold new_monitor, parseRuntimeAuthorityGrant in N.
  destruct (runtimeAuthorityGrantSchema grant) eqn:V; [|done].
  assert (I : sound grant (opened m)).
  { destruct (match currentLease with Some _ => _ | None => _ end) as [lease|]; [|done]. injection N as <-.
    pose proof (kept_arm now {| mon_grant := grant; mon_leaseExpiresAt := lease; mon_revoked := None;
      mon_timer := None |}) as (G & L & _ & C).
    revert G L C. generalize (armExpiry now {| mon_grant := grant; mon_leaseExpiresAt := lease;
      mon_revoked := None; mon_timer := None |}) as mon. intros mon G L C. split; cbn; try done.
    - rewrite L. set_solver.
    - intros r Hr. by apply not_elem_of_nil in Hr.
    - intros x Hx. by apply not_elem_of_nil in Hx. }
  assert (So : sound grant h).
  { clear N. induction R as [|h1 h2 h3 S R IH]; [done|]. apply IH. by eapply sound_step. }
  apply So.
Qed.

(** A revocation is final.  After a monitor has been revoked, explicitly or
    because a deadline passed at any check or timer, no later effect is let through,
    the first reason stays, and no renewal brings the grant back. *)
Theorem revocation_final `{Zod, NodeJs} h h' reason :
  mon_revoked (hy_monitor h) = Some reason -> rtc monitor_step h h' ->
  mon_revoked (hy_monitor h') = Some reason /\ hy_effects h' = hy_effects h /\
  forall value now, (assert value now (hy_monitor h')).2 = Err reason.
Proof.
  intros Rv R. revert Rv. induction R as [h|h1 h2 h3 S R IH]; intros Rv.
  - split_and!; try done. intros value now. unfold assert, assertLive. by rewrite Rv.
  - destruct IH as (R3 & E3 & A); [by apply (kp_revoked _ _ (monitor_kept _ _ S))|].
    split_and!; try done. rewrite E3. destruct S; try done.
    match goal with P : perform_effect _ _ _ = _ |- _ => unfold perform_effect, assert, assertLive in P;
      rewrite Rv in P; discriminate P end.
Qed.

#[local] Existing Instance example_zod.

(** A grant for one turn, a publication of 512 bytes under it, and the monitor's
    answers at noon. *)
#[local] Instance ex_node_js : NodeJs := {|
  JSON_parse := fun _ => None;
  sha256 := fun _ => "0123456789abcdef0123456789abcdef0123456789abcdef0123456789abcdef" |}.
Definition ex_limits (tokens bytes : Z) : RuntimeAuthorityLimits := {|
  lim_turn_ms := 60000; lim_reported_tokens := tokens; lim_output_bytes := bytes;
  lim_artifact_count := 16; lim_artifact_bytes := 1048576; lim_artifact_types := ["patch"; "log"] |}.
Definition ex_uuid (d : string) : string := "10000000-0000-4000-8000-00000000000" +:+ d.
Definition ex_grant_input : RuntimeAuthorityGrantInput := {|
  gi_scope := {|
    sc_grant_id := ex_uuid "1"; sc_agent_id := ex_uuid "2"; sc_node_id := ex_uuid "3";
    sc_workspace_binding_id := ex_uuid "4"; sc_workspace_alias := "client";
    sc_workspace_resource_sha256 := sha256 ""; sc_mission_id := ex_uuid "5";
    sc_delivery_id := ex_uuid "6"; sc_execution_attempt := 1; sc_lease_id := ex_uuid "7";
    sc_fencing_token := "3"; sc_policy_profile := "default"; sc_policy_grant_sha256 := sha256 "" |};
  gi_lease_expires_at := "2026-08-03T12:00:30Z"; gi_hard_expires_at := "2026-08-03T12:01:00Z";
  gi_capabilities := [{| cap_action := usage_report; cap_resource := res_usage |};
                      {| cap_action := outbound_publish; cap_resource := res_relay |}];
  gi_limit_sources := {|
    src_product := ex_limits 1000000 65536; src_local := ex_limits 20000 1024;
    src_mission := ex_limits 50000 4096; src_runtime := ex_limits 1000000 65536 |} |}.
Definition ex_grant : RuntimeAuthorityGrant := {|
  gr_input := ex_grant_input; gr_effective_limits := intersectLimits ex_grant_input.(gi_limit_sources) |}.
Definition ex_noon : Z := 1785758400000.
Definition ex_publication : RuntimeAuthorityRequest := {|
  rq_scope := gr_scope ex_grant;
  rq_capability := {| cap_action := outbound_publish; cap_resource := res_relay |};
  rq_measurement := Some {| me_reported_tokens := None; me_output_bytes := Some 512;
    me_artifact_count := None; me_artifact_bytes := None; me_artifact_type := None |} |}.
Definition ex_monitor : Monitor := armExpiry (Some ex_noon) {|
  mon_grant := ex_grant; mon_leaseExpiresAt := "2026-08-03T12:00:30Z"; mon_revoked := None;
  mon_timer := None |}.
Definition ex_evidence : list RuntimeAuthorityEvidence :=
  option_list (evidence ex_grant (Some ex_publication) None (ex_uuid "9") (Some ex_noon)).
Definition ex_effect : Effect := {|
  ef_request := ex_publication; ef_time := ex_noon + 10; ef_lease := "2026-08-03T12:00:30Z" |}.
Definition ex_recorded : History :=
  (opened ex_monitor) <| hy_monitor := ex_monitor |> <| hy_evidence := [] ++ ex_evidence |>
    <| hy_waiting := [ex_publication] |>.
Definition ex_published : History :=
  ex_recorded <| hy_monitor := ex_monitor |> <| hy_waiting := [] ++ [] |>
    <| hy_effects := [] ++ [ex_effect] |>.

Lemma ex_publishes : rtc monitor_step (opened ex_monitor) ex_published.
Proof.
  assert (D : perform_decision (Some ex_publication) (ex_uuid "9") (Some ex_noon) (Some ex_noon) true
    ex_monitor = (ex_monitor, ex_evidence, Ok tt)) by by_vm.
  assert (P : perform_effect (Some ex_publication) (Some (ex_noon + 10)) ex_monitor = (ex_monitor, Ok tt))
    by by_vm.
  eapply rtc_l; [exact (step_recorded (opened ex_monitor) _ _ _ _ _ _ _ D)|].
  apply rtc_once. exact (step_effect ex_recorded [] ex_publication [] _ _ eq_refl P).
Qed.

Lemma grant_limits_intersect_witness :
  compileRuntimeAuthorityGrant ex_grant_input = Some ex_grant /\
  ex_grant.(gr_effective_limits).(lim_output_bytes) = 1024 /\
  60000 <= ex_grant.(gr_effective_limits).(lim_turn_ms).
Proof.
  assert (C : compileRuntimeAuthorityGrant ex_grant_input = Some ex_grant) by by_vm.
  split_and!; [done|by_vm|].
  apply (grant_limits_intersect ex_grant_input); [done|].
  by intros l [->|[->|[->| ->]]]%elem_of_sources.
Defined.

Lemma effects_authorized_witness :
  authorized ex_grant ex_published ex_effect /\ before (ex_noon + 10) "2026-08-03T12:00:30Z".
Proof.
  assert (N : new_monitor ex_grant None (Some ex_noon) = Ok ex_monitor) by by_vm.
  pose proof (effects_authorized ex_grant None (Some ex_noon) ex_monitor ex_published ex_effect N
    ex_publishes ltac:(left)) as A.
  split; [exact A|]. exact (proj2 (az_lease _ _ _ A)).
Defined.

(** After the deadline a timer revokes the monitor, and a request that was waiting is
    abandoned. *)
Definition ex_late : Monitor := revoke expired ex_monitor.
Lemma revocation_final_witness :
  exists h', rtc monitor_step (opened ex_late) h' /\ hy_effects h' = [] /\
    mon_revoked (hy_monitor h') = Some expired.
Proof.
  set (h' := (opened ex_late) <| hy_monitor := revoke policy_changed ex_late |>).
  assert (R : rtc monitor_step (opened ex_late) h') by (apply rtc_once; constructor).
  exists h'. split; [exact R|].
  destruct (revocation_final (opened ex_late) h' expired eq_refl R) as (Rv & E & _). by rewrite E.
Defined.
