(* ===== verification/NodePolicy.v ===== *)
(** * The Node's local policy

    The policy part of node/src/config.ts and node/src/policy.ts: the owner's
    profiles, the digest that identifies a profile in a Mission's acceptance, and
    the resolution of a verification command the Relay names.  Objects used as
    maps are finite maps; [JSON.stringify] is [print]. *)

From S2P Require Import Prelude JsLib Json Schemas MissionEvents JsonValue CanonicalJson HostEvents.
Local Open Scope Z_scope.

(** ** Configuration *)
Definition MAX_COMMAND_ARGUMENT_LENGTH : Z := 4096.
Definition MAX_COMMAND_ARGUMENTS : Z := 128.
Definition MAX_VERIFICATION_COMMANDS : Z := 32.

Definition nul_free (s : string) : bool := all_chars (fun c => negb (c =? 0)) s.

Definition environmentVariableNameSchema (s : string) : bool :=
  bounded 1 128 s &&
  head_tail (fun c => is_lower c || is_upper c || (c =? 95)) (fun c => is_alnum c || (c =? 95)) s.
Definition commandArgumentSchema (s : string) : bool :=
  (slen s <=? MAX_COMMAND_ARGUMENT_LENGTH) && nul_free s.

Record VerificationCommandConfig := {
  vc_argv : list string; vc_timeout_seconds : Z; vc_environment : list string }.
#[export] Instance VerificationCommandConfig_eq_dec : EqDecision VerificationCommandConfig.
Proof. solve_decision. Defined.
Definition verificationCommandConfigSchema (c : VerificationCommandConfig) : bool :=
  every commandArgumentSchema c.(vc_argv) && (1 <=? len c.(vc_argv)) &&
  (len c.(vc_argv) <=? MAX_COMMAND_ARGUMENTS) &&
  match c.(vc_argv) with executable :: _ => negb (slen (trim executable) =? 0) | [] => true end &&
  (0 <? c.(vc_timeout_seconds)) && (c.(vc_timeout_seconds) <=? 3600) &&
  every environmentVariableNameSchema c.(vc_environment) && (len c.(vc_environment) <=? 64) &&
  unique_values c.(vc_environment).

(** [network_access] is the literal [denied]. *)
Record PolicyProfileConfig := {
  pp_max_turn_seconds : Z; pp_max_reported_tokens : Z;
  pp_verification_commands : gmap string VerificationCommandConfig }.
#[export] Instance PolicyProfileConfig_eq_dec : EqDecision PolicyProfileConfig.
Proof. solve_decision. Defined.
Definition policyProfileConfigSchema (p : PolicyProfileConfig) : bool :=
  (0 <? p.(pp_max_turn_seconds)) && (p.(pp_max_turn_seconds) <=? 86400) &&
  (0 <? p.(pp_max_reported_tokens)) && (p.(pp_max_reported_tokens) <=? 100000000) &&
  every (fun '(id, c) => policyProfileNameSchema id && verificationCommandConfigSchema c)
    (map_to_list p.(pp_verification_commands)) &&
  (len (object_keys p.(pp_verification_commands)) <=? MAX_VERIFICATION_COMMANDS).

(** ** [node:path] on POSIX *)
Definition isAbsolute (path : string) : bool := starts_with "/" path.

Definition slash : Ascii.ascii := Ascii.ascii_of_N 47.
(** [path.split("/")] *)
Fixpoint segments (s : string) : list string :=
  match s with
  | EmptyString => [EmptyString]
  | String c s' =>
      if Ascii.eqb c slash then EmptyString :: segments s'
      else match segments s' with
           | [] => [String c EmptyString]
           | x :: rest => String c x :: rest
           end
  end.
(** One segment of [normalizeString]; the segments kept are in reverse order. *)
Definition add_segment (allowAboveRoot : bool) (kept : list string) (segment : string) : list string :=
  if (segment === "") || (segment === ".") then kept
  else if segment === ".." then
    match kept with
    | last :: rest => if last !== ".." then rest else if allowAboveRoot then ".." :: kept else kept
    | [] => if allowAboveRoot then [".."] else []
    end
  else segment :: kept.
Definition normalize (path : string) : string :=
  if slen path =? 0 then "." else
  let absolute := isAbsolute path in
  let trailing := ends_with "/" path in
  let text := join "/" (rev (foldl (add_segment (negb absolute)) [] (segments path))) in
  if slen text =? 0 then if absolute then "/" else if trailing then "./" else "."
  else (if absolute then "/" else "") +:+ text +:+ (if trailing then "/" else "").

Definition absoluteWorkspacePathSchema (path : string) : bool :=
  bounded 1 4096 path && nul_free path && isAbsolute path && (normalize path === path).

Record WorkspaceConfig := {
  wc_path : string; wc_repository_url : string; wc_allowed_base_refs : list string;
  wc_policy_profile : string }.
Definition workspaceConfigSchema `{Zod} (w : WorkspaceConfig) : bool :=
  absoluteWorkspacePathSchema w.(wc_path) && repositoryUrlSchema w.(wc_repository_url) &&
  every repositoryRefSchema w.(wc_allowed_base_refs) && (1 <=? len w.(wc_allowed_base_refs)) &&
  (len w.(wc_allowed_base_refs) <=? 32) && unique_values w.(wc_allowed_base_refs) &&
  policyProfileNameSchema w.(wc_policy_profile).

(** ** policy.ts *)
Inductive PolicyErrorCode :=
| policy_profile_not_found | verification_command_not_allowed | verification_command_not_required
| verification_command_workspace_invalid | verification_command_authority_invalid
| verification_command_authority_expired | verification_command_environment_not_allowed.
#[export] Instance PolicyErrorCode_eq_dec : EqDecision PolicyErrorCode.
Proof. solve_decision. Defined.

Record LocalPolicyGrant := { lpg_profile_name : string; lpg_grant_sha256 : string }.
#[export] Instance LocalPolicyGrant_eq_dec : EqDecision LocalPolicyGrant.
Proof. solve_decision. Defined.
Record ResolvedPolicyProfile := {
  rp_name : string; rp_profile : PolicyProfileConfig; rp_grant : LocalPolicyGrant }.

Definition SAFE_VERIFICATION_ENVIRONMENT : list string :=
  ["CI"; "LANG"; "LC_ALL"; "LC_CTYPE"; "PATH"; "PATHEXT"; "Path"; "SystemRoot"; "SYSTEMROOT"; "TEMP";
   "TMP"; "TMPDIR"; "TZ"; "WINDIR"].

Definition command_json (commandId : string) (c : VerificationCommandConfig) : JsonValue := JObject [
  ("command_id", JString commandId); ("argv", JArray (map JString c.(vc_argv)));
  ("timeout_seconds", json_int c.(vc_timeout_seconds));
  ("environment", JArray (map JString (sort_strings c.(vc_environment))))].
Definition commands_json (commands : gmap string VerificationCommandConfig) : list JsonValue :=
  omap (fun id => command_json id <$> commands !! id) (sort_strings (object_keys commands)).
Definition policy_grant_json (profileName : string) (p : PolicyProfileConfig) : JsonValue := JObject [
  ("schema_version", json_int 1); ("profile_name", JString profileName);
  ("max_turn_seconds", json_int p.(pp_max_turn_seconds));
  ("max_reported_tokens", json_int p.(pp_max_reported_tokens));
  ("network_access", JString "denied");
  ("verification_commands", JArray (commands_json p.(pp_verification_commands)))].
Definition canonicalPolicyGrant (profileName : string) (p : PolicyProfileConfig) : string :=
  print (policy_grant_json profileName p).

Section Policy.
Context `{NodeJs}.

Definition policyGrantSha256 (profileName : string) (p : PolicyProfileConfig) : string :=
  sha256 (canonicalPolicyGrant profileName p).

Definition resolvePolicyProfile (profiles : gmap string PolicyProfileConfig) (profileName : string)
    : result PolicyErrorCode ResolvedPolicyProfile :=
  match profiles !! profileName with
  | None => Err policy_profile_not_found
  | Some profile => Ok {| rp_name := profileName; rp_profile := profile;
      rp_grant := {| lpg_profile_name := profileName;
                     lpg_grant_sha256 := policyGrantSha256 profileName profile |} |}
  end.

Definition resolveVerificationCommand (resolved : ResolvedPolicyProfile) (commandId : string)
    : result PolicyErrorCode VerificationCommandConfig :=
  match resolved.(rp_profile).(pp_verification_commands) !! commandId with
  | None => Err verification_command_not_allowed
  | Some command => Ok command
  end.

(** [None]: not a number, or a number with a fraction. *)
Record ExecutionAuthority := {
  ea_requiredCommandIds : list string; ea_canonicalWorkspaceRoot : string;
  ea_remainingAuthorityMs : option Z; ea_sourceEnvironment : gmap string string }.
Record CommandExecution := {
  ce_executable : string; ce_args : list string; ce_cwd : string; ce_timeoutMs : Z;
  ce_env : gmap string string }.

Definition assertCanonicalWorkspaceRoot (root : string) : result PolicyErrorCode unit :=
  throw verification_command_workspace_invalid when
    negb (nul_free root) || negb (isAbsolute root) || (normalize root !== root) in Ok tt.
Definition assertRemainingAuthority (remaining : option Z) : result PolicyErrorCode Z :=
  match remaining with
  | None => Err verification_command_authority_invalid
  | Some ms =>
      throw verification_command_authority_invalid when MAX_SAFE_INTEGER <? Z.abs ms in
      throw verification_command_authority_expired when ms <=? 0 in Ok ms
  end.

(** The loop over [command.environment]. *)
Fixpoint command_environment (names : list string) (source env : gmap string string)
    : result PolicyErrorCode (gmap string string) :=
  match names with
  | [] => Ok env
  | name :: names =>
      throw verification_command_environment_not_allowed when
        negb (includes SAFE_VERIFICATION_ENVIRONMENT name) in
      command_environment names source
        (match source !! name with Some value => <[name := value]> env | None => env end)
  end.

Definition resolveVerificationCommandExecution (resolved : ResolvedPolicyProfile) (commandId : string)
    (authority : ExecutionAuthority) : result PolicyErrorCode CommandExecution :=
  let* _ := assertCanonicalWorkspaceRoot authority.(ea_canonicalWorkspaceRoot) in
  let* remaining := assertRemainingAuthority authority.(ea_remainingAuthorityMs) in
  throw verification_command_not_required when
    negb (includes authority.(ea_requiredCommandIds) commandId) in
  let* command := resolveVerificationCommand resolved commandId in
  match command.(vc_argv) with
  | [] => Err verification_command_not_allowed
  | executable :: configuredArgs =>
      let* env := command_environment command.(vc_environment) authority.(ea_sourceEnvironment) ∅ in
      Ok {| ce_executable := executable; ce_args := configuredArgs;
            ce_cwd := authority.(ea_canonicalWorkspaceRoot);
            ce_timeoutMs := Z.min (command.(vc_timeout_seconds) * 1000) remaining; ce_env := env |}
  end.
End Policy.

(** ** Lemmas *)
Lemma json_int_printable n : printable (json_int n) = true.
Proof.
  unfold json_int. cbn. rewrite string_of_int_chars, andb_true_r. apply Z.ltb_lt.
  pose proof (string_of_int_nonempty n). unfold slen. destruct (string_of_int n); [done|cbn; lia].
Qed.
Lemma json_strings_printable l : forallb printable (map JString l) = true.
Proof. apply forallb_forall. by intros x (y & <- & _)%in_map_iff. Qed.

Lemma commands_printable m : forallb printable (commands_json m) = true.
Proof.
  apply forallb_forall. intros x Hx%list_elem_of_In. unfold commands_json in Hx.
  apply list_elem_of_omap in Hx as (id & _ & E). destruct (m !! id) as [c|]; [|done]. injection E as <-.
  cbn -[json_int]. by rewrite json_int_printable, !json_strings_printable.
Qed.

Lemma grant_printable n p : printable (policy_grant_json n p) = true.
Proof. cbn -[json_int commands_json]. by rewrite !json_int_printable, commands_printable. Qed.

Lemma jstrings_inj l k : map JString l = map JString k -> l = k.
Proof. revert k. induction l as [|x l IH]; intros [|y k] E; try done. injection E as -> E. f_equal. auto. Qed.

(** Two commands with the same text. *)
Definition same_command (c d : VerificationCommandConfig) : Prop :=
  c.(vc_argv) = d.(vc_argv) /\ c.(vc_timeout_seconds) = d.(vc_timeout_seconds) /\
  c.(vc_environment) ≡ₚ d.(vc_environment).
Definition same_commands (m k : gmap string VerificationCommandConfig) : Prop :=
  forall id, option_Forall2 same_command (m !! id) (k !! id).

Lemma command_json_same i c j d : command_json i c = command_json j d <-> i = j /\ same_command c d.
Proof.
  unfold command_json, same_command. split.
  - intros E. injection E as -> A T V. apply jstrings_inj in A, V. apply string_of_int_inj in T.
    split_and!; try done. rewrite <-(sort_strings_Permutation (vc_environment c)), V.
    by rewrite sort_strings_Permutation.
  - intros (-> & -> & -> & P). by rewrite (sort_strings_perm _ _ P).
Qed.

Lemma elem_of_commands_json m v :
  v ∈ commands_json m <-> exists id c, m !! id = Some c /\ v = command_json id c.
Proof.
  unfold commands_json. rewrite list_elem_of_omap. split.
  - intros (id & _ & E). destruct (m !! id) as [c|] eqn:L; [|done]. injection E as <-. eauto.
  - intros (id & c & L & ->). exists id. rewrite L. split; [|done]. apply elem_of_sort_strings.
    unfold object_keys. apply list_elem_of_fmap. exists (id, c). split; [done|]. by apply elem_of_map_to_list.
Qed.

Lemma commands_json_same m k : commands_json m = commands_json k <-> same_commands m k.
Proof.
  split.
  - intros E. assert (H : forall m k, commands_json m = commands_json k -> forall id c,
      m !! id = Some c -> exists d, k !! id = Some d /\ same_command c d).
    { clear. intros m k E id c L. assert (Hv : command_json id c ∈ commands_json k).
      { rewrite <-E. apply elem_of_commands_json. eauto. }
      apply elem_of_commands_json in Hv as (j & d & Lj & Ej). apply command_json_same in Ej as [<- S]. eauto. }
    intros id. destruct (m !! id) as [c|] eqn:L.
    + destruct (H m k E id c L) as (d & -> & S). by constructor.
    + destruct (k !! id) as [d|] eqn:Lk; [|constructor].
      destruct (H k m (eq_sym E) id d Lk) as (c & Lc & _). congruence.
  - intros S. assert (P : object_keys m ≡ₚ object_keys k).
    { unfold object_keys. apply NoDup_Permutation; [apply NoDup_fst_map_to_list..|]. intros id.
      rewrite !list_elem_of_fmap. specialize (S id).
      split; intros ([i x] & -> & Hx%elem_of_map_to_list); cbn in *; rewrite Hx in S; inversion S as [? y Sy E|];
        subst; exists (i, y) || exists (i, x0); (split; [done|]); by apply elem_of_map_to_list. }
    unfold commands_json. rewrite (sort_strings_perm _ _ P).
    induction (sort_strings (object_keys k)) as [|id l IH]; [done|]. cbn. specialize (S id).
    inversion S as [c d Sc Em Ek|Em Ek]; cbn; [|done]. rewrite IH. f_equal. by apply command_json_same.
Qed.

(** A policy digest binds the whole policy.  Two profiles have the same canonical
    text exactly if they have the same name, the same limits and the same commands
    under the same ids, each with the same arguments and time limit and the same
    environment allowlist up to order; so a Mission accepted under one digest cannot
    be run under a profile that grants anything else, short of a sha256 collision. *)
Theorem policy_digest_binds `{NodeJs} n p n' p' :
  let same := n = n' /\ p.(pp_max_turn_seconds) = p'.(pp_max_turn_seconds) /\
    p.(pp_max_reported_tokens) = p'.(pp_max_reported_tokens) /\
    same_commands p.(pp_verification_commands) p'.(pp_verification_commands) in
  (canonicalPolicyGrant n p = canonicalPolicyGrant n' p' <-> same) /\
  (policyGrantSha256 n p = policyGrantSha256 n' p' ->
   same \/ exists s t, s <> t /\ sha256 s = sha256 t).
Proof.
  intros same. assert (I : canonicalPolicyGrant n p = canonicalPolicyGrant n' p' <-> same).
  { unfold canonicalPolicyGrant, same. split.
    - intros E. apply (f_equal (fun s => s +:+ EmptyString)) in E.
      apply print_inj in E as [E _]; [|by rewrite ?grant_printable..|done|done].
      unfold policy_grant_json in E. injection E as -> T R C.
      apply string_of_int_inj in T, R. split_and!; try done. by apply commands_json_same.
    - intros (-> & T & R & C). apply commands_json_same in C. unfold policy_grant_json. by rewrite T, R, C. }
  split; [exact I|]. intros E.
  destruct (decide (canonicalPolicyGrant n p = canonicalPolicyGrant n' p')) as [S|S]; [left; by apply I|].
  right. by do 2 eexists.
Qed.

Lemma command_environment_ok names source env e :
  command_environment names source env = Ok e <->
  every (includes SAFE_VERIFICATION_ENVIRONMENT) names = true /\
  e = foldl (fun env name => match source !! name with Some v => <[name := v]> env | None => env end) env names.
Proof.
  revert env. induction names as [|x names IH]; intros env; cbn [command_environment every foldl].
  { split; [by intros [= ->]|by intros [_ ->]]. }
  destruct (includes SAFE_VERIFICATION_ENVIRONMENT x); cbn [negb andb]; [apply IH|]. split; [done|by intros [? _]].
Qed.

Lemma environment_lookup names (source env : gmap string string) name v :
  foldl (fun env x => match source !! x with Some v => <[x := v]> env | None => env end) env names !! name = Some v <->
  (name ∈ names /\ source !! name = Some v) \/
  ((name ∈ names -> source !! name = None) /\ env !! name = Some v).
Proof.
  revert env. induction names as [|x names IH]; intros env; cbn.
  { split; [intros E; right; split; [by intros ?%not_elem_of_nil|done]|].
    intros [[?%not_elem_of_nil _]|[_ ?]]; done. }
  rewrite IH. setoid_rewrite elem_of_cons. destruct (decide (name = x)) as [->|D].
  - destruct (decide (x ∈ names)) as [I|I], (source !! x) as [w|] eqn:E;
      rewrite ?lookup_insert_eq; naive_solver.
  - destruct (source !! x) as [w|] eqn:E; [rewrite lookup_insert_ne by done|]; tauto.
Qed.

(** C39: a verification command runs only as the owner configured it.  A selection is
    resolved exactly if the workspace root is absolute, normalized and free of NUL,
    authority remains, the Mission requires the command and the owner's profile has
    it, with an allowlist of safe variables; then the executable and its arguments
    are the configured ones, the working directory is the root, the time limit is at
    most the command's and the remaining authority, and the environment holds the
    allowlisted variables of the source environment and nothing else. *)
Theorem command_as_configured resolved commandId authority e :
  resolveVerificationCommandExecution resolved commandId authority = Ok e <->
  exists command remaining,
    resolved.(rp_profile).(pp_verification_commands) !! commandId = Some command /\
    commandId ∈ authority.(ea_requiredCommandIds) /\
    command.(vc_argv) = e.(ce_executable) :: e.(ce_args) /\
    authority.(ea_canonicalWorkspaceRoot) = e.(ce_cwd) /\
    nul_free e.(ce_cwd) = true /\ isAbsolute e.(ce_cwd) = true /\ normalize e.(ce_cwd) = e.(ce_cwd) /\
    authority.(ea_remainingAuthorityMs) = Some remaining /\ 0 < remaining <= MAX_SAFE_INTEGER /\
    e.(ce_timeoutMs) = Z.min (command.(vc_timeout_seconds) * 1000) remaining /\
    (forall name, name ∈ command.(vc_environment) -> name ∈ SAFE_VERIFICATION_ENVIRONMENT) /\
    (forall name v, e.(ce_env) !! name = Some v <->
       name ∈ command.(vc_environment) /\ authority.(ea_sourceEnvironment) !! name = Some v).
Proof.
  assert (Env : forall names (env : gmap string string), every (includes SAFE_VERIFICATION_ENVIRONMENT) names = true /\
      env = foldl (fun env name => match authority.(ea_sourceEnvironment) !! name with
                    Some v => <[name := v]> env | None => env end) ∅ names <->
    (forall name, name ∈ names -> name ∈ SAFE_VERIFICATION_ENVIRONMENT) /\
    (forall name v, env !! name = Some v <-> name ∈ names /\ authority.(ea_sourceEnvironment) !! name = Some v)).
  { intros names env. rewrite every_iff. unfold includes. setoid_rewrite bool_decide_eq_true.
    split; (intros [S V]; split; [done|]).
    - subst env. intros name v. rewrite environment_lookup, lookup_empty. naive_solver.
    - apply map_eq. intros name. apply option_eq. intros v. rewrite V, environment_lookup, lookup_empty.
      naive_solver. }
  unfold resolveVerificationCommandExecution, assertCanonicalWorkspaceRoot, assertRemainingAuthority,
    resolveVerificationCommand. split.
  - intros E. ok_inv E. injection E as <-.
    match goal with P : match ?x with Some _ => _ | None => Err verification_command_authority_invalid end = _ |- _ =>
      destruct x as [ms|] eqn:Em; [|discriminate P]; ok_inv P; injection P as -> end.
    match goal with P : match ?x with Some _ => _ | None => Err verification_command_not_allowed end = _ |- _ =>
      destruct x as [c|] eqn:Ec; [|discriminate P]; injection P as -> end.
    match goal with P : (if _ then Err verification_command_workspace_invalid else _) = _ |- _ => ok_inv P end.
    bool_hyps.
    match goal with P : command_environment _ _ _ = Ok _ |- _ => apply command_environment_ok, Env in P as [Sf V] end.
    cbn. repeat match goal with U : unit |- _ => destruct U end.
    match goal with I : includes _ _ = true |- _ => unfold includes in I; apply bool_decide_eq_true in I end.
    eexists _, _. repeat (split; [first [eassumption|reflexivity|lia]|]). exact V.
  - intros (command & remaining & L & Rq & A & C & Nf & Ab & Nm & Rm & Rg & Tm & Sf & V).
    rewrite C, Nf, Ab, Nm, Rm, bool_decide_true by done. cbn [negb orb].
    rewrite (proj2 (Z.ltb_ge _ _)), (proj2 (Z.leb_gt _ _)) by lia.
    unfold includes at 1. rewrite bool_decide_true, L, A by done. cbn [negb].
    destruct (command_environment _ _ _) as [env|] eqn:En.
    + apply command_environment_ok in En as [_ ->]. destruct e as [x a c t env]; cbn in *. subst. do 2 f_equal.
      symmetry. by apply Env.
    + exfalso. assert (W : command_environment (vc_environment command) (ea_sourceEnvironment authority) ∅ =
        Ok e.(ce_env)); [|congruence]. by apply command_environment_ok, Env.
Qed.

(** ** An example *)
Definition ex_test_command : VerificationCommandConfig := {|
  vc_argv := ["pnpm"; "test"]; vc_timeout_seconds := 600; vc_environment := ["PATH"; "CI"] |}.
Definition ex_profile (environment : list string) : PolicyProfileConfig := {|
  pp_max_turn_seconds := 600; pp_max_reported_tokens := 50000;
  pp_verification_commands := {[ "unit" := {| vc_argv := ["pnpm"; "test"]; vc_timeout_seconds := 600;
    vc_environment := environment |} ]} |}.
Definition ex_resolved : ResolvedPolicyProfile := {|
  rp_name := "default"; rp_profile := ex_profile ["PATH"; "CI"];
  rp_grant := {| lpg_profile_name := "default"; lpg_grant_sha256 := "" |} |}.
Definition ex_command_authority : ExecutionAuthority := {|
  ea_requiredCommandIds := ["unit"]; ea_canonicalWorkspaceRoot := "/work/client";
  ea_remainingAuthorityMs := Some 90000; ea_sourceEnvironment := {[ "PATH" := "/bin"; "TOKEN" := "x" ]} |}.
Definition ex_execution : CommandExecution := {|
  ce_executable := "pnpm"; ce_args := ["test"]; ce_cwd := "/work/client"; ce_timeoutMs := 90000;
  ce_env := {[ "PATH" := "/bin" ]} |}.

Example normalize_dots : normalize "/work/../etc//x/." = "/etc/x".
Proof. vm_compute. reflexivity. Qed.
Example normalize_trailing : normalize "a/./b/../" = "a/".
Proof. vm_compute. reflexivity. Qed.
Example normalize_above : normalize "../../x" = "../../x" /\ normalize "/../x" = "/x".
Proof. vm_compute. by split. Qed.

Lemma policy_digest_binds_witness :
  canonicalPolicyGrant "default" (ex_profile ["CI"; "PATH"]) =
    canonicalPolicyGrant "default" (ex_profile ["PATH"; "CI"]) /\
  canonicalPolicyGrant "default" (ex_profile ["CI"; "PATH"]) <>
    canonicalPolicyGrant "default" (ex_profile ["CI"]).
Proof.
  assert (B := fun e e' => proj1 (policy_digest_binds
    (H := {| JSON_parse := fun _ => None; sha256 := fun s => s |}) "default" (ex_profile e) "default" (ex_profile e'))).
  split.
  - apply B. split_and!; try done. intros id. unfold ex_profile. cbn [pp_verification_commands].
    destruct (decide (id = "unit")) as [->|D]; [rewrite !lookup_singleton_eq|rewrite !lookup_singleton_ne by done];
      constructor. split_and!; try done. apply perm_swap.
  - intros E. apply B in E as (_ & _ & _ & S). specialize (S "unit"). cbn [ex_profile pp_verification_commands] in S.
    rewrite !lookup_singleton_eq in S. inversion S as [? ? (_ & _ & P)|]; subst.
    apply Permutation_length in P. discriminate P.
Defined.

Lemma command_as_configured_witness :
  resolveVerificationCommandExecution ex_resolved "unit" ex_command_authority = Ok ex_execution /\
  ex_execution.(ce_env) !! "TOKEN" = None.
Proof.
  assert (R : resolveVerificationCommandExecution ex_resolved "unit" ex_command_authority = Ok ex_execution) by by_vm.
  split; [exact R|].
  destruct (proj1 (command_as_configured _ _ _ _) R) as (c & _ & L & _ & _ & _ & _ & _ & _ & _ & _ & _ & _ & V).
  apply eq_None_not_Some. intros [v E]. apply V in E as [Hc _]. revert L Hc. unfold ex_resolved, ex_profile.
  cbn [rp_profile pp_verification_commands]. rewrite lookup_singleton_eq. intros [= <-]. cbn. set_solver.
Defined.
