(* ===== verification/RuntimeAuthorityFactory.v ===== *)
(** * Granting runtime authority

    node/src/runtime-authority-factory.ts: the grant for one execution of a
    delivery, compiled from the Mission, the local policy, the lease and the
    workspace that was checked, and the bounds it is under. *)

From Stdlib Require Import Ascii.
From S2P Require Import Prelude JsLib Json Schemas MissionEvents MissionExample JsonValue HostEvents NodePolicy.
From S2P Require Import RuntimeAuthority RuntimeAuthoritySafety.
Local Open Scope Z_scope.

Record WorkspacePreflightResult := {
  wp_root : string; wp_repository_url : string; wp_head_commit : string;
  wp_reachable_from_ref : string }.

(** [gf_now] is [None] where [now.getTime()] is NaN. *)
Record GrantFactoryInput := {
  gf_assignment : NodeMissionAssignment; gf_delivery : Delivery; gf_executionAttempt : Z;
  gf_nodeId : string; gf_workspaceAlias : string; gf_workspace : WorkspacePreflightResult;
  gf_policy : ResolvedPolicyProfile; gf_adapter : AdapterInfo; gf_now : option Z;
  gf_currentLeaseExpiresAt : option string; gf_retainedHardExpiresAt : option string }.

Inductive GrantError :=
| NoExecutingLease | InvalidTime | LeaseExpired | IdentityMismatch | AuthorityExpired | GrantRejected.

(** ** [deterministicUuid] *)

(** [Buffer.from(text, "hex")] *)
Fixpoint hex_bytes (s : string) : list Z :=
  match s with
  | String a (String b s) =>
      if is_hex (code a) && is_hex (code b) then (16 * unhex a + unhex b) :: hex_bytes s else []
  | _ => []
  end.
Definition hex_text (bytes : list Z) : string :=
  foldr (fun b s => String (hex_digit (b / 16)) (String (hex_digit (b mod 16)) s)) EmptyString bytes.
(** [bytes[i] = f(bytes[i])]; out of range it does nothing. *)
Definition set_byte (i : nat) (f : Z -> Z) (bytes : list Z) : list Z := alter f i bytes.
Definition slice (from til : nat) (s : string) : string := String.substring from (til - from) s.

Definition deterministicUuid `{NodeJs} (value : string) : string :=
  let bytes := hex_bytes (slice 0 32 (sha256 value)) in
  let bytes := set_byte 6 (fun b => Z.lor (Z.land b 15) 80) bytes in
  let bytes := set_byte 8 (fun b => Z.lor (Z.land b 63) 128) bytes in
  let hex := hex_text bytes in
  slice 0 8 hex +:+ "-" +:+ slice 8 12 hex +:+ "-" +:+ slice 12 16 hex +:+ "-" +:+
  slice 16 20 hex +:+ "-" +:+ slice 20 (String.length hex) hex.

Section Factory.
Context `{Zod, NodeJs}.

Definition DAY_MS : Z := 86400000.
Definition authorityLimits (turnMs reportedTokens : option Z) (artifactTypes : list string)
    : RuntimeAuthorityLimits := {|
  lim_turn_ms := default DAY_MS turnMs;
  lim_reported_tokens := default DEFAULT_HOST_EVENT_STREAM_POLICY.(maxTokens) reportedTokens;
  lim_output_bytes := DEFAULT_HOST_EVENT_STREAM_POLICY.(maxOutputBytes);
  lim_artifact_count := DEFAULT_HOST_EVENT_STREAM_POLICY.(maxArtifacts);
  lim_artifact_bytes := DEFAULT_HOST_EVENT_STREAM_POLICY.(maxArtifactBytes);
  lim_artifact_types := artifactTypes |}.

Definition limit_sources (manifest : MissionManifest) (profile : PolicyProfileConfig) : LimitSources :=
  let types := manifest.(man_allowed_artifact_types) in {|
  src_product := authorityLimits (Some DAY_MS) (Some DEFAULT_HOST_EVENT_STREAM_POLICY.(maxTokens)) types;
  src_local := authorityLimits (Some (profile.(pp_max_turn_seconds) * 1000))
                 (Some profile.(pp_max_reported_tokens)) types;
  src_mission := authorityLimits (Some (manifest.(man_max_wall_time_seconds) * 1000))
                   (Some manifest.(man_token_budget)) types;
  src_runtime := authorityLimits None None types |}.

Definition min_opt (a b : option Z) : option Z := a ← a; b ← b; Some (Z.min a b).

Definition mission_expires_at (manifest : MissionManifest) : option Z :=
  min_opt (Date_parse manifest.(man_expires_at))
    ((fun t => t + manifest.(man_max_wall_time_seconds) * 1000) <$> Date_parse manifest.(man_created_at)).

Definition workspace_json (input : GrantFactoryInput) : JsonValue :=
  let w := input.(gf_workspace) in JObject [
  ("workspace_binding_id", JString input.(gf_assignment).(nma_workspace_binding_id));
  ("workspace_alias", JString input.(gf_workspaceAlias)); ("root", JString w.(wp_root));
  ("repository_url", JString w.(wp_repository_url)); ("head_commit", JString w.(wp_head_commit));
  ("reachable_from_ref", JString w.(wp_reachable_from_ref))].
Definition identity_json (input : GrantFactoryInput) (lease : DeliveryLease) (workspaceSha256 : string)
    : JsonValue := JObject [
  ("mission_id", JString input.(gf_assignment).(nma_mission_id));
  ("delivery_id", JString input.(gf_delivery).(d_delivery_id));
  ("execution_attempt", json_int input.(gf_executionAttempt));
  ("lease_id", JString lease.(lease_lease_id)); ("fencing_token", JString lease.(lease_fencing_token));
  ("policy_grant_sha256", JString input.(gf_policy).(rp_grant).(lpg_grant_sha256));
  ("workspace_resource_sha256", JString workspaceSha256)].

Definition granted_capabilities (adapter : AdapterInfo) : list RuntimeCapability :=
  {| cap_action := runtime_start; cap_resource := res_runtime |} ::
  (if adapter.(info_recovery) then [{| cap_action := runtime_recover; cap_resource := res_runtime |}] else []) ++
  (if adapter.(info_cancellation) then [{| cap_action := runtime_cancel; cap_resource := res_runtime |}] else []) ++
  [{| cap_action := workspace_read; cap_resource := res_workspace |};
   {| cap_action := usage_report; cap_resource := res_usage |};
   {| cap_action := artifact_publish; cap_resource := res_artifact |};
   {| cap_action := outbound_publish; cap_resource := res_relay |}].

Definition grant_input (input : GrantFactoryInput) (lease : DeliveryLease) (hardExpiresAt : Z)
    : RuntimeAuthorityGrantInput :=
  let workspaceSha256 := sha256 (canonicalJson (workspace_json input)) in {|
  gi_scope := {|
    sc_grant_id := deterministicUuid (canonicalJson (identity_json input lease workspaceSha256));
    sc_agent_id := input.(gf_assignment).(nma_participant_agent_id); sc_node_id := input.(gf_nodeId);
    sc_workspace_binding_id := input.(gf_assignment).(nma_workspace_binding_id);
    sc_workspace_alias := input.(gf_workspaceAlias);
    sc_workspace_resource_sha256 := workspaceSha256;
    sc_mission_id := input.(gf_assignment).(nma_mission_id);
    sc_delivery_id := input.(gf_delivery).(d_delivery_id);
    sc_execution_attempt := input.(gf_executionAttempt);
    sc_lease_id := lease.(lease_lease_id); sc_fencing_token := lease.(lease_fencing_token);
    sc_policy_profile := input.(gf_policy).(rp_name);
    sc_policy_grant_sha256 := input.(gf_policy).(rp_grant).(lpg_grant_sha256) |};
  gi_lease_expires_at := lease.(lease_expires_at);
  gi_hard_expires_at := toISOString hardExpiresAt;
  gi_capabilities := granted_capabilities input.(gf_adapter);
  gi_limit_sources := limit_sources
    input.(gf_assignment).(nma_coordinator_config).(cfg_mission_context).(ctx_manifest)
    input.(gf_policy).(rp_profile) |}.

(** [turnExpiresAt] *)
Definition turn_expires_at (input : GrantFactoryInput) (now : Z) : option Z :=
  match input.(gf_retainedHardExpiresAt) with
  | Some retained => Date_parse retained
  | None => Some (now + least lim_turn_ms (limit_sources
      input.(gf_assignment).(nma_coordinator_config).(cfg_mission_context).(ctx_manifest)
      input.(gf_policy).(rp_profile)))
  end.

Definition createRuntimeAuthorityGrant (input : GrantFactoryInput)
    : result GrantError RuntimeAuthorityGrant :=
  match input.(gf_delivery).(d_lease), input.(gf_delivery).(d_status) with
  | Some lease, D_executing =>
      match input.(gf_now) with
      | None => Err InvalidTime
      | Some now =>
          throw LeaseExpired when
            num_le (Date_parse (default lease.(lease_expires_at) input.(gf_currentLeaseExpiresAt)))
              (Some now) in
          throw IdentityMismatch when
            (input.(gf_delivery).(d_node_id) !== input.(gf_nodeId)) ||
            (input.(gf_delivery).(d_mission_id) !== input.(gf_assignment).(nma_mission_id)) in
          let manifest :=
            input.(gf_assignment).(nma_coordinator_config).(cfg_mission_context).(ctx_manifest) in
          match min_opt (mission_expires_at manifest) (turn_expires_at input now) with
          | None => Err AuthorityExpired
          | Some hardExpiresAt =>
              throw AuthorityExpired when hardExpiresAt <=? now in
              match compileRuntimeAuthorityGrant (grant_input input lease hardExpiresAt) with
              | Some grant => Ok grant
              | None => Err GrantRejected
              end
          end
      end
  | _, _ => Err NoExecutingLease
  end.
End Factory.

Lemma granted_safe adapter c :
  c ∈ granted_capabilities adapter ->
  isProductDeniedAction c.(cap_action) = false /\ c.(cap_action) <> workspace_write /\
  c.(cap_action) <> verification_execute.
Proof.
  unfold granted_capabilities. destruct (info_recovery adapter), (info_cancellation adapter); cbn;
    intros Hc; rewrite !elem_of_cons, ?elem_of_nil in Hc; naive_solver.
Qed.

Lemma min_opt_ok a b c : min_opt a b = Some c ->
  exists x y, a = Some x /\ b = Some y /\ c = Z.min x y.
Proof. destruct a, b; cbn; intros [= <-]. eauto. Qed.

Lemma compiled `{Zod} g i : compileRuntimeAuthorityGrant i = Some g -> gr_input g = i.
Proof.
  unfold compileRuntimeAuthorityGrant, parseRuntimeAuthorityGrant. repeat case_match; intros [= <-]. done.
Qed.

(** C37: what is granted.  A grant is compiled only for an executing delivery of this
    Node whose lease has not ended; it names exactly that delivery, attempt, lease
    and fencing token; it ends after now, and no later than the Mission's deadline,
    the Mission's wall time and, unless an earlier deadline is retained, the longest
    turn of the local policy; whatever it lets a turn report is within the token
    budgets of the policy and the Mission and the artifact types the Mission allows;
    and it lists no write, verification or product-denied capability. *)
Theorem grant_bounds `{Zod, NodeJs} input g :
  createRuntimeAuthorityGrant input = Ok g ->
  let manifest := input.(gf_assignment).(nma_coordinator_config).(cfg_mission_context).(ctx_manifest) in
  let profile := input.(gf_policy).(rp_profile) in
  let delivery := input.(gf_delivery) in
  exists lease now hard expires created,
    delivery.(d_status) = D_executing /\ delivery.(d_lease) = Some lease /\
    delivery.(d_node_id) = input.(gf_nodeId) /\ input.(gf_now) = Some now /\
    (forall t, Date_parse (default lease.(lease_expires_at) input.(gf_currentLeaseExpiresAt)) = Some t -> now < t) /\
    (gr_scope g).(sc_node_id) = delivery.(d_node_id) /\ (gr_scope g).(sc_mission_id) = delivery.(d_mission_id) /\
    (gr_scope g).(sc_delivery_id) = delivery.(d_delivery_id) /\
    (gr_scope g).(sc_execution_attempt) = input.(gf_executionAttempt) /\
    (gr_scope g).(sc_lease_id) = lease.(lease_lease_id) /\
    (gr_scope g).(sc_fencing_token) = lease.(lease_fencing_token) /\
    g.(gr_input).(gi_hard_expires_at) = toISOString hard /\ now < hard /\
    Date_parse manifest.(man_expires_at) = Some expires /\ hard <= expires /\
    Date_parse manifest.(man_created_at) = Some created /\
    hard <= created + manifest.(man_max_wall_time_seconds) * 1000 /\
    (input.(gf_retainedHardExpiresAt) = None -> hard <= now + profile.(pp_max_turn_seconds) * 1000) /\
    (forall m, within m g.(gr_effective_limits) ->
       default 0 m.(me_reported_tokens) <= profile.(pp_max_reported_tokens) /\
       default 0 m.(me_reported_tokens) <= manifest.(man_token_budget) /\
       forall t, m.(me_artifact_type) = Some t -> t ∈ manifest.(man_allowed_artifact_types)) /\
    (forall c, c ∈ g.(gr_input).(gi_capabilities) -> isProductDeniedAction c.(cap_action) = false /\
       c.(cap_action) <> workspace_write /\ c.(cap_action) <> verification_execute).
Proof.
  intros E manifest profile delivery. unfold createRuntimeAuthorityGrant in E. ok_inv E. injection E as ->. bool_hyps.
  match goal with G : compileRuntimeAuthorityGrant _ = Some _ |- _ => rename G into Cg end.
  match goal with G : min_opt _ _ = Some _ |- _ => apply min_opt_ok in G as (mission & turn & Em & Et & ->) end.
  unfold mission_expires_at in Em. apply min_opt_ok in Em as (ex & cr & Ex & Ec & ->).
  apply fmap_Some in Ec as (cr' & Ec & ->).
  pose proof (compiled _ _ Cg) as Gi. unfold gr_scope. rewrite Gi.
  match goal with L : d_lease _ = Some ?l, N : gf_now _ = Some ?n |- _ =>
    exists l, n, (Z.min (Z.min ex (cr' + manifest.(man_max_wall_time_seconds) * 1000)) turn), ex, cr' end.
  repeat (split; [first [eassumption|done|congruence]|]).
  split.
  { intros t Et'. match goal with N : num_le _ _ = false |- _ => rewrite Et' in N; cbn in N end. lia. }
  repeat (split; [first [eassumption|done|congruence|subst manifest; lia]|]). split; [|split].
  - intros R. unfold turn_expires_at in Et. rewrite R in Et. injection Et as <-.
    assert (least lim_turn_ms (limit_sources manifest profile) <= pp_max_turn_seconds profile * 1000).
    { apply (proj1 (least_glb lim_turn_ms (limit_sources manifest profile) _) (Z.le_refl _)
        (limit_sources manifest profile).(src_local)). apply elem_of_sources. auto. }
    subst manifest profile. lia.
  - intros m W. unfold compileRuntimeAuthorityGrant, parseRuntimeAuthorityGrant in Cg.
    repeat case_match; try done. injection Cg as <-. cbn [gr_effective_limits] in W.
    assert (Sw := fun l => proj1 (within_intersect m (limit_sources manifest profile)) W l).
    assert (Sl := Sw (src_local (limit_sources manifest profile)) ltac:(apply elem_of_sources; auto)).
    assert (Sm := Sw (src_mission (limit_sources manifest profile)) ltac:(apply elem_of_sources; auto)).
    destruct Sl as (T & _), Sm as (T' & _ & _ & _ & A).
    split_and!; [exact T|exact T'|exact A].
  - apply granted_safe.
Qed.

(** ** An example *)
#[local] Existing Instance example_zod.
#[local] Existing Instance RuntimeAuthoritySafety.ex_node_js.

Definition ex_factory_input : GrantFactoryInput := {|
  gf_assignment := {|
    nma_mission_id := ex_mission; nma_coordinator_config := ex_cfg;
    nma_coordinator_state := ex_run []; nma_participant_agent_id := ex_agent_a;
    nma_workspace_binding_id := ex_uuid "4"; nma_acceptance_status := AS_pending;
    nma_acceptance_receipt := None |};
  gf_delivery := {|
    d_delivery_id := ex_uuid "6"; d_node_id := ex_uuid "3"; d_mission_id := ex_mission;
    d_mission_event_id := ex_uuid "8"; d_kind := K_turn; d_cursor := "1";
    d_status := D_executing; d_attempt_count := 1; d_max_attempts := 3; d_last_fencing_token := "3";
    d_contract_version := 1; d_verification_round := None;
    d_lease := Some {| lease_lease_id := ex_uuid "7"; lease_fencing_token := "3";
                       lease_expires_at := "2026-08-03T12:00:30.000Z" |};
    d_logical_settlement := None; d_idempotency_key := "delivery-1";
    d_causal_parent_delivery_id := None; d_available_at := ex_time; d_created_at := ex_time;
    d_updated_at := ex_time; d_acknowledged_at := None; d_cancelled_at := None;
    d_cancellation_reason := None; d_dead_lettered_at := None |};
  gf_executionAttempt := 1; gf_nodeId := ex_uuid "3"; gf_workspaceAlias := "client";
  gf_workspace := {| wp_root := "/work/client"; wp_repository_url := "https://github.com/acme/service";
    wp_head_commit := "0123456789abcdef0123456789abcdef01234567"; wp_reachable_from_ref := "main" |};
  gf_policy := {| rp_name := "default"; rp_profile := ex_profile ["PATH"];
    rp_grant := {| lpg_profile_name := "default"; lpg_grant_sha256 := ex_hash |} |};
  gf_adapter := {| info_name := "codex"; info_version := "1.0.0"; info_cancellation := true;
    info_recovery := false; info_usage := turn_cumulative |};
  gf_now := Some ex_noon; gf_currentLeaseExpiresAt := None; gf_retainedHardExpiresAt := None |}.
Definition ex_granted : RuntimeAuthorityGrant := {|
  gr_input := grant_input ex_factory_input
    {| lease_lease_id := ex_uuid "7"; lease_fencing_token := "3";
       lease_expires_at := "2026-08-03T12:00:30.000Z" |} (ex_noon + 600000);
  gr_effective_limits := intersectLimits (limit_sources ex_manifest (ex_profile ["PATH"])) |}.

(** The longest turn of the policy is ten minutes. *)
Lemma grant_bounds_witness :
  createRuntimeAuthorityGrant ex_factory_input = Ok ex_granted /\
  ex_granted.(gr_input).(gi_hard_expires_at) = "2026-08-03T12:10:00.000Z" /\
  Forall (fun c => c.(cap_action) <> workspace_write) ex_granted.(gr_input).(gi_capabilities).
Proof.
  assert (E : createRuntimeAuthorityGrant ex_factory_input = Ok ex_granted) by by_vm.
  split_and!; [exact E|by_vm|].
  pose proof (grant_bounds _ _ E) as (l & n & h & x & c & B). repeat destruct B as [_ B].
  apply Forall_forall. intros k Hk.
  exact (proj1 (proj2 (B k Hk))).
Defined.
