(* ===== verification/Journal.v ===== *)
(** * The Node's journal

    node/src/journal.ts: the durable record of every delivery a Node works on, its
    schema, and the operations that change it.  An operation works on a clone of
    the state; the clone is validated and saved before it becomes the state, and
    operations run one after another.  [now] is the clock in milliseconds. *)

From S2P Require Import Prelude JsLib Json Schemas MissionEvents DeliveryOperations.
From S2P Require Import JsonValue HostEvents TurnInput CapsulePrompt CanonicalJson RuntimeAuthority.
Local Open Scope Z_scope.

(** ** The journaled data *)
Inductive JournalPhase :=
| JP_ingested | JP_claim_intent | JP_claimed | JP_start_intent | JP_relay_executing
| JP_host_accepted | JP_host_terminal | JP_complete_intent | JP_release_intent | JP_lease_lost
| JP_acknowledged | JP_dead_lettered | JP_authority_lost.
#[export] Instance JournalPhase_eq_dec : EqDecision JournalPhase.
Proof. solve_decision. Defined.

Inductive OperationIntent :=
| I_claim (input : DeliveryClaimInput)
| I_start (input : LeaseOperationInput)
| I_renew (input : LeaseOperationInput)
| I_complete (input : DeliveryCompleteInput)
| I_release (input : DeliveryReleaseInput).

Record ArchivedHostExecution := {
  ar_execution_attempt : Z; ar_start_input_sha256 : string; ar_host_events : list HostEvent;
  ar_result : option NodeDeliveryResultPayload; ar_archived_at : string }.

Record JournalDelivery := {
  jd_item : MissionDeliveryItem;
  jd_identity_sha256 : string;
  jd_phase : JournalPhase;
  jd_claim_attempt : Z;
  jd_renew_count : Z;
  jd_operation : option OperationIntent;
  jd_host_session : option HostSessionRef;
  jd_execution_attempt : Z;
  jd_start_turn_input : option StartTurnInput;
  jd_host_attempt_history : list ArchivedHostExecution;
  jd_host_events : list HostEvent;
  jd_result : option NodeDeliveryResultPayload;
  jd_runtime_authority : option RuntimeAuthorityGrant;
  jd_runtime_authority_predecessor : option RuntimeAuthorityGrant;
  jd_last_error : option string;
  jd_updated_at : string
}.
#[export] Instance JournalDelivery_eta : Settable JournalDelivery := fun e =>
  Build_JournalDelivery e.(jd_item) e.(jd_identity_sha256) e.(jd_phase) e.(jd_claim_attempt)
    e.(jd_renew_count) e.(jd_operation) e.(jd_host_session) e.(jd_execution_attempt)
    e.(jd_start_turn_input) e.(jd_host_attempt_history) e.(jd_host_events) e.(jd_result)
    e.(jd_runtime_authority) e.(jd_runtime_authority_predecessor) e.(jd_last_error) e.(jd_updated_at).
#[export] Instance MissionDeliveryItem_eta : Settable MissionDeliveryItem := fun i =>
  Build_MissionDeliveryItem i.(item_delivery) i.(item_event) i.(item_actor_agent_id)
    i.(item_source_delivery_id) i.(item_causal_parent_event_id).

Inductive AcceptanceStatus := MA_pending | MA_accepted | MA_quarantined.
#[export] Instance AcceptanceStatus_eq_dec : EqDecision AcceptanceStatus.
Proof. solve_decision. Defined.
Record MissionAcceptanceJournal := {
  ma_input : MissionParticipantAcceptanceInput; ma_status : AcceptanceStatus;
  ma_last_error : option string }.

Record NodeJournalState := {
  nj_cursor : option string;
  nj_mission_assignment_cursor : option string;
  nj_deliveries : Dict JournalDelivery;
  nj_mission_sessions : Dict HostSessionRef;
  nj_mission_acceptances : Dict MissionAcceptanceJournal
}.
#[export] Instance NodeJournalState_eta : Settable NodeJournalState := fun s =>
  Build_NodeJournalState s.(nj_cursor) s.(nj_mission_assignment_cursor) s.(nj_deliveries)
    s.(nj_mission_sessions) s.(nj_mission_acceptances).

(** ** Digests *)
Definition delivery_kind_text (k : DeliveryKind) : string :=
  match k with
  | K_turn => "turn" | K_verification => "verification"
  | K_contract_acknowledgement => "contract_acknowledgement"
  end.
Definition delivery_identity_json (delivery : Delivery) : JsonValue := JObject [
  ("causal_parent_delivery_id", json_nullable JString delivery.(d_causal_parent_delivery_id));
  ("contract_version", json_int delivery.(d_contract_version));
  ("cursor", JString delivery.(d_cursor)); ("delivery_id", JString delivery.(d_delivery_id));
  ("idempotency_key", JString delivery.(d_idempotency_key));
  ("kind", JString (delivery_kind_text delivery.(d_kind)));
  ("mission_event_id", JString delivery.(d_mission_event_id));
  ("mission_id", JString delivery.(d_mission_id)); ("node_id", JString delivery.(d_node_id));
  ("verification_round", json_nullable json_int delivery.(d_verification_round))].
Definition identity_json (item : MissionDeliveryItem) : JsonValue := JObject [
  ("actor_agent_id", JString item.(item_actor_agent_id));
  ("causal_parent_event_id", json_nullable JString item.(item_causal_parent_event_id));
  ("delivery", delivery_identity_json item.(item_delivery)); ("event", event_json item.(item_event));
  ("source_delivery_id", json_nullable JString item.(item_source_delivery_id))].
Definition deliveryIdentityDigest `{NodeJs} (item : MissionDeliveryItem) : string :=
  sha256 (canonicalJson (identity_json item)).

(** [BigInt(text)] of a run of digits.  JavaScript reads blanks, signs and radix
    prefixes too; no schema lets them through. *)
Fixpoint digits_value (acc : Z) (s : string) : Z :=
  match s with EmptyString => acc | String c s => digits_value (10 * acc + (code c - 48)) s end.
Definition BigInt (s : string) : option Z :=
  if all_chars is_digit s then Some (digits_value 0 s) else None.

(** ** Schemas *)
Definition plainDatetimeSchema `{Zod} (s : string) : bool := zod_datetime s && ends_with "Z" s.
Definition lastErrorSchema (s : string) : bool := slen s <=? 2000.

Section Schemas.
Context `{Zod, NodeJs}.

Definition operationIntentSchema (i : OperationIntent) : bool :=
  match i with
  | I_claim input => deliveryClaimInputSchema input
  | I_start input | I_renew input => leaseOperationInputSchema input
  | I_complete input => deliveryCompleteInputSchema input
  | I_release input => deliveryReleaseInputSchema input
  end.

Definition archivedHostExecutionSchema (a : ArchivedHostExecution) : bool :=
  (0 <? a.(ar_execution_attempt)) && (a.(ar_execution_attempt) <=? 100) &&
  sha256Schema a.(ar_start_input_sha256) && every hostEventSchema a.(ar_host_events) &&
  (len a.(ar_host_events) <=? 4096) && nullable nodeDeliveryResultPayloadSchema a.(ar_result) &&
  plainDatetimeSchema a.(ar_archived_at).

Definition validateStartTurnInput (entry : JournalDelivery) (input : StartTurnInput) : issues :=
  let delivery := entry.(jd_item).(item_delivery) in
  issue_if (input.(sti_deliveryId) !== delivery.(d_delivery_id))
    "Host start input deliveryId does not match its journal execution" ++
  issue_if (input.(sti_turn).(ti_missionId) !== delivery.(d_mission_id))
    "Host start input missionId does not match its journal execution" ++
  issue_if (input.(sti_turn).(ti_contractVersion) !== delivery.(d_contract_version))
    "Host start input contractVersion does not match its journal execution" ++
  issue_if (input.(sti_executionAttempt) !== entry.(jd_execution_attempt))
    "Host start input executionAttempt does not match its journal execution" ++
  issue_if (Some input.(sti_turn).(ti_session) !== entry.(jd_host_session))
    "Host start input session does not match the journaled Mission session".

Definition validateRuntimeAuthority (entry : JournalDelivery) (grant : RuntimeAuthorityGrant)
    (requireCurrentFence : bool) : issues :=
  let delivery := entry.(jd_item).(item_delivery) in
  let scope := gr_scope grant in
  issue_if (scope.(sc_delivery_id) !== delivery.(d_delivery_id))
    "Runtime authority delivery_id does not match its journaled delivery" ++
  issue_if (scope.(sc_mission_id) !== delivery.(d_mission_id))
    "Runtime authority mission_id does not match its journaled delivery" ++
  issue_if (scope.(sc_node_id) !== delivery.(d_node_id))
    "Runtime authority node_id does not match its journaled delivery" ++
  issue_if (scope.(sc_execution_attempt) !== entry.(jd_execution_attempt))
    "Runtime authority execution_attempt does not match its journaled delivery" ++
  issue_if (requireCurrentFence &&
            match delivery.(d_lease) with
            | None => false
            | Some lease => (scope.(sc_lease_id) !== lease.(lease_lease_id)) ||
                            (scope.(sc_fencing_token) !== lease.(lease_fencing_token))
            end)
    "Runtime authority does not match the journaled lease fence".

(** [a >= b] on [BigInt]s; an argument that is no number makes it throw. *)
Definition bigint_ge (a b : string) : bool :=
  match BigInt a, BigInt b with Some x, Some y => y <=? x | _, _ => true end.

Definition validateRuntimeAuthorityPredecessor (entry : JournalDelivery)
    (predecessor : RuntimeAuthorityGrant) : issues :=
  issue_if (non_null entry.(jd_runtime_authority))
    "Runtime authority predecessor cannot coexist with an active grant" ++
  issue_if (match entry.(jd_item).(item_delivery).(d_lease) with
            | None => true
            | Some lease =>
                bigint_ge (gr_scope predecessor).(sc_fencing_token) lease.(lease_fencing_token) ||
                ((gr_scope predecessor).(sc_lease_id) === lease.(lease_lease_id))
            end)
    "Runtime authority predecessor must belong to an older Relay fence".

(** The loop over the archived attempts, with the attempts seen so far. *)
Fixpoint archivedIssues (current : Z) (seen : list Z) (history : list ArchivedHostExecution) : issues :=
  match history with
  | [] => []
  | attempt :: history =>
      issue_if ((current <=? attempt.(ar_execution_attempt)) ||
                includes seen attempt.(ar_execution_attempt))
        "Archived host execution attempts must be unique and precede the active attempt" ++
      entries_issues (fun _ event =>
          event.(he_turn).(executionAttempt) !== attempt.(ar_execution_attempt))
        "Archived host event belongs to a different execution attempt" 0 attempt.(ar_host_events) ++
      archivedIssues current (attempt.(ar_execution_attempt) :: seen) history
  end.

Definition journalDeliveryIssues (entry : JournalDelivery) : issues :=
  issue_if (entry.(jd_identity_sha256) !== deliveryIdentityDigest entry.(jd_item))
    "Delivery identity digest does not match the journaled item" ++
  match entry.(jd_start_turn_input) with
  | None =>
      issue_if ((0 <? len entry.(jd_host_events)) || non_null entry.(jd_result))
        "Host evidence requires the exact journaled start input"
  | Some input => validateStartTurnInput entry input
  end ++
  match array_find (fun event => is_accepted event.(he_kind)) entry.(jd_host_events) with
  | None => []
  | Some accepted =>
      issue_if ((hs_sessionId <$> entry.(jd_host_session)) !== Some accepted.(he_turn).(sessionId))
        "Host acceptance must belong to the journaled session"
  end ++
  entries_issues (fun _ event => event.(he_turn).(executionAttempt) !== entry.(jd_execution_attempt))
    "Active host event belongs to a different execution attempt" 0 entry.(jd_host_events) ++
  match entry.(jd_runtime_authority) with
  | None => []
  | Some grant => validateRuntimeAuthority entry grant true
  end ++
  match entry.(jd_runtime_authority_predecessor) with
  | None => []
  | Some predecessor =>
      validateRuntimeAuthority entry predecessor false ++
      validateRuntimeAuthorityPredecessor entry predecessor
  end ++
  archivedIssues entry.(jd_execution_attempt) [] entry.(jd_host_attempt_history).

Definition journalDeliveryFields (e : JournalDelivery) : bool :=
  missionDeliveryItemSchema e.(jd_item) && sha256Schema e.(jd_identity_sha256) &&
  (0 <=? e.(jd_claim_attempt)) && (e.(jd_claim_attempt) <=? 100) && (0 <=? e.(jd_renew_count)) &&
  nullable operationIntentSchema e.(jd_operation) && nullable hostSessionRefSchema e.(jd_host_session) &&
  (0 <? e.(jd_execution_attempt)) && (e.(jd_execution_attempt) <=? 100) &&
  every archivedHostExecutionSchema e.(jd_host_attempt_history) &&
  (len e.(jd_host_attempt_history) <=? 99) && every hostEventSchema e.(jd_host_events) &&
  (len e.(jd_host_events) <=? 4096) && nullable nodeDeliveryResultPayloadSchema e.(jd_result) &&
  nullable runtimeAuthorityGrantSchema e.(jd_runtime_authority) &&
  nullable runtimeAuthorityGrantSchema e.(jd_runtime_authority_predecessor) &&
  nullable lastErrorSchema e.(jd_last_error) && plainDatetimeSchema e.(jd_updated_at).

(** The start input is the one field parsing rebuilds. *)
Definition parse_start_input (i : option StartTurnInput) : option (option StartTurnInput) :=
  match i with
  | None => Some None
  | Some i => Some <$> startTurnInputSchema (start_input i)
  end.
Definition journalDeliverySchema (e : JournalDelivery) : option JournalDelivery :=
  if negb (journalDeliveryFields e) then None else
  input ← parse_start_input e.(jd_start_turn_input);
  let parsed := e <| jd_start_turn_input := input |> in
  if no_issues (journalDeliveryIssues parsed) then Some parsed else None.

Definition missionAcceptanceJournalSchema (a : MissionAcceptanceJournal) : bool :=
  missionParticipantAcceptanceInputSchema a.(ma_input) && nullable lastErrorSchema a.(ma_last_error).

Definition journalCursorSchema (s : string) : bool := head_tail (in_range 49 57) is_digit s.

Definition nodeJournalStateIssues (s : NodeJournalState) : issues :=
  entries_issues (fun _ ke => ke.2.(jd_item).(item_delivery).(d_delivery_id) !== ke.1)
    "Journal delivery key must match the payload" 0 s.(nj_deliveries) ++
  entries_issues (fun _ ks => ks.2.(hs_input).(ses_missionId) !== ks.1)
    "Journal Mission key must match the host session" 0 s.(nj_mission_sessions).

(** [z.record(uuidSchema, schema)] *)
Definition record_of {A} (schema : A -> option A) (o : Dict A) : option (Dict A) :=
  mapM (fun ka => if uuidSchema ka.1 then (fun v => (ka.1, v)) <$> schema ka.2 else None) o.
Definition checked {A} (schema : A -> bool) (x : A) : option A := if schema x then Some x else None.

Definition nodeJournalStateSchema (s : NodeJournalState) : option NodeJournalState :=
  if negb (nullable journalCursorSchema s.(nj_cursor) &&
           nullable uuidSchema s.(nj_mission_assignment_cursor)) then None else
  deliveries ← record_of journalDeliverySchema s.(nj_deliveries);
  sessions ← record_of (checked hostSessionRefSchema) s.(nj_mission_sessions);
  acceptances ← record_of (checked missionAcceptanceJournalSchema) s.(nj_mission_acceptances);
  let parsed := s <| nj_deliveries := deliveries |> <| nj_mission_sessions := sessions |>
                  <| nj_mission_acceptances := acceptances |> in
  if no_issues (nodeJournalStateIssues parsed) then Some parsed else None.
End Schemas.

(** ** Operations *)
Inductive JournalError :=
| JournalInvalid                 (* a schema refused *)
| NotAnInteger                   (* [BigInt] threw *)
| NotJournaled
| CursorBackwards
| SessionDiffers
| StartAfterEvidence
| StartInputChanged
| CheckpointRaced                (* [JournalCompareAndSwapError] *)
| AuthorityChanged
| SuccessorScopeChanged
| AcceptanceChanged
| AcceptedNotPending
| AcceptanceQuarantined
| AcceptanceNotJournaled
| AcceptedNotQuarantined
| ContentChanged
| IdentityChanged
| FenceBackwards
| LeaseWithoutFence
| ExpiryBackwards
| PredecessorPending
| SuccessorNotNewer
| MutationRefused                (* an error of the caller's own [mutate] *)
| SaveFailed.

Definition bigint (s : string) : result JournalError Z :=
  match BigInt s with Some n => Ok n | None => Err NotAnInteger end.

Definition same_delivery_identity (a b : Delivery) : bool :=
  (a.(d_delivery_id) === b.(d_delivery_id)) && (a.(d_node_id) === b.(d_node_id)) &&
  (a.(d_mission_id) === b.(d_mission_id)) && (a.(d_mission_event_id) === b.(d_mission_event_id)) &&
  (a.(d_kind) === b.(d_kind)) && (a.(d_cursor) === b.(d_cursor)) &&
  (a.(d_contract_version) === b.(d_contract_version)) &&
  (a.(d_verification_round) === b.(d_verification_round)) &&
  (a.(d_idempotency_key) === b.(d_idempotency_key)) &&
  (a.(d_causal_parent_delivery_id) === b.(d_causal_parent_delivery_id)).
Definition assertSameDeliveryIdentity (previous next : Delivery) : result JournalError unit :=
  throw IdentityChanged when negb (same_delivery_identity previous next) in Ok tt.

(** The check of the new lease against the journaled one. *)
Definition assertLeaseAdvances (journaled next : DeliveryLease) : result JournalError unit :=
  let* a := bigint next.(lease_fencing_token) in
  let* b := bigint journaled.(lease_fencing_token) in
  throw FenceBackwards when a <? b in
  if a =? b then
    throw LeaseWithoutFence when journaled.(lease_lease_id) !== next.(lease_lease_id) in
    throw ExpiryBackwards when
      num_lt (Date_parse next.(lease_expires_at)) (Date_parse journaled.(lease_expires_at)) in Ok tt
  else Ok tt.

Definition stageRuntimeAuthoritySuccessor (nextDelivery : Delivery) (entry : JournalDelivery)
    : result JournalError JournalDelivery :=
  let delivery := entry.(jd_item).(item_delivery) in
  let* a := bigint nextDelivery.(d_last_fencing_token) in
  let* b := bigint delivery.(d_last_fencing_token) in
  throw FenceBackwards when a <? b in
  match nextDelivery.(d_lease) with
  | None =>
      match entry.(jd_runtime_authority), entry.(jd_runtime_authority_predecessor) with
      | None, Some predecessor =>
          Ok (entry <| jd_runtime_authority := Some predecessor |>
                    <| jd_runtime_authority_predecessor := None |>)
      | _, _ => Ok entry
      end
  | Some nextLease =>
      let* _ := match delivery.(d_lease) with
                | None => Ok tt
                | Some journaledLease => assertLeaseAdvances journaledLease nextLease
                end in
      let* next := bigint nextLease.(lease_fencing_token) in
      match entry.(jd_runtime_authority) with
      | Some currentGrant =>
          let* current := bigint (gr_scope currentGrant).(sc_fencing_token) in
          throw FenceBackwards when next <? current in
          if next =? current then
            throw LeaseWithoutFence when
              (gr_scope currentGrant).(sc_lease_id) !== nextLease.(lease_lease_id) in Ok entry
          else
            throw PredecessorPending when non_null entry.(jd_runtime_authority_predecessor) in
            Ok (entry <| jd_runtime_authority_predecessor := Some currentGrant |>
                      <| jd_runtime_authority := None |>)
      | None =>
          match entry.(jd_runtime_authority_predecessor) with
          | None => Ok entry
          | Some predecessor =>
              let* previous := bigint (gr_scope predecessor).(sc_fencing_token) in
              throw SuccessorNotNewer when next <=? previous in Ok entry
          end
      end
  end.

(** [compareCursor(left, right) < 0] *)
Definition cursor_lt (left right : string) : bool :=
  if slen left =? slen right then string_gtb right left else slen left <? slen right.

(** A mutation of the clone, and its value. *)
Definition Mutation (A : Type) : Type := NodeJournalState -> result JournalError (A * NodeJournalState).

(** What an [update] does to one entry. *)
Definition put_delivery (deliveryId : string) (entry : JournalDelivery) (s : NodeJournalState)
    : NodeJournalState := s <| nj_deliveries := dict_set deliveryId entry s.(nj_deliveries) |>.
Definition replace_delivery (delivery : Delivery) (now : Z) (entry : JournalDelivery) : JournalDelivery :=
  entry <| jd_item := entry.(jd_item) <| item_delivery := delivery |> |> <| jd_updated_at := toISOString now |>.

(** The fields of a grant a successor keeps. *)
Definition successor_scope (g : RuntimeAuthorityGrant) : RuntimeAuthorityGrant :=
  let i := g.(gr_input) in let s := i.(gi_scope) in {|
  gr_input := {|
    gi_scope := {|
      sc_grant_id := ""; sc_agent_id := s.(sc_agent_id); sc_node_id := s.(sc_node_id);
      sc_workspace_binding_id := s.(sc_workspace_binding_id);
      sc_workspace_alias := s.(sc_workspace_alias);
      sc_workspace_resource_sha256 := s.(sc_workspace_resource_sha256);
      sc_mission_id := s.(sc_mission_id); sc_delivery_id := s.(sc_delivery_id);
      sc_execution_attempt := s.(sc_execution_attempt); sc_lease_id := ""; sc_fencing_token := "";
      sc_policy_profile := s.(sc_policy_profile); sc_policy_grant_sha256 := s.(sc_policy_grant_sha256) |};
    gi_lease_expires_at := ""; gi_hard_expires_at := i.(gi_hard_expires_at);
    gi_capabilities := i.(gi_capabilities); gi_limit_sources := i.(gi_limit_sources) |};
  gr_effective_limits := g.(gr_effective_limits) |}.
Definition isRuntimeAuthoritySuccessor (predecessor successor : RuntimeAuthorityGrant)
    : result JournalError bool :=
  let* next := bigint (gr_scope successor).(sc_fencing_token) in
  let* previous := bigint (gr_scope predecessor).(sc_fencing_token) in
  Ok ((previous <? next) && (successor_scope predecessor === successor_scope successor)).

Record RuntimeAuthorityCheckpointExpectation := {
  ce_lease_id : string; ce_fencing_token : string; ce_lease_expires_at : string;
  ce_active_grant_id : option string; ce_predecessor_grant_id : option string }.
Definition grant_id_of (g : option RuntimeAuthorityGrant) : option string :=
  (fun g => (gr_scope g).(sc_grant_id)) <$> g.
Definition runtimeAuthorityCheckpointMatches (entry : JournalDelivery)
    (expected : RuntimeAuthorityCheckpointExpectation) : bool :=
  match entry.(jd_item).(item_delivery).(d_lease) with
  | None => false
  | Some lease =>
      (lease.(lease_lease_id) === expected.(ce_lease_id)) &&
      (lease.(lease_fencing_token) === expected.(ce_fencing_token)) &&
      (lease.(lease_expires_at) === expected.(ce_lease_expires_at)) &&
      (grant_id_of entry.(jd_runtime_authority) === expected.(ce_active_grant_id)) &&
      (grant_id_of entry.(jd_runtime_authority_predecessor) === expected.(ce_predecessor_grant_id))
  end.

Section Operations.
Context `{Zod, NodeJs}.

Definition new_entry (item : MissionDeliveryItem) (now : Z) : JournalDelivery := {|
  jd_item := item; jd_identity_sha256 := deliveryIdentityDigest item; jd_phase := JP_ingested;
  jd_claim_attempt := 0; jd_renew_count := 0; jd_operation := None; jd_host_session := None;
  jd_execution_attempt := 1; jd_start_turn_input := None; jd_host_attempt_history := [];
  jd_host_events := []; jd_result := None; jd_runtime_authority := None;
  jd_runtime_authority_predecessor := None; jd_last_error := None; jd_updated_at := toISOString now |}.

Definition upsertDelivery (now : Z) (state : NodeJournalState) (item : MissionDeliveryItem)
    : result JournalError NodeJournalState :=
  throw JournalInvalid when negb (missionDeliveryItemSchema item) in
  let deliveryId := item.(item_delivery).(d_delivery_id) in
  match dict_get deliveryId state.(nj_deliveries) with
  | None => Ok (put_delivery deliveryId (new_entry item now) state)
  | Some existing =>
      throw ContentChanged when existing.(jd_identity_sha256) !== deliveryIdentityDigest item in
      let* _ := assertSameDeliveryIdentity existing.(jd_item).(item_delivery) item.(item_delivery) in
      let* staged := stageRuntimeAuthoritySuccessor item.(item_delivery) existing in
      Ok (put_delivery deliveryId (replace_delivery item.(item_delivery) now staged) state)
  end.
Fixpoint upsertAll (now : Z) (items : list MissionDeliveryItem) (state : NodeJournalState)
    : result JournalError NodeJournalState :=
  match items with
  | [] => Ok state
  | item :: items => let* state := upsertDelivery now state item in upsertAll now items state
  end.

Definition ingestCursorPage (items : list MissionDeliveryItem) (nextCursor : option string) (now : Z)
    : Mutation unit := fun state =>
  let* state := upsertAll now items state in
  match nextCursor with
  | None => Ok (tt, state)
  | Some next =>
      throw CursorBackwards when
        match state.(nj_cursor) with Some c => cursor_lt next c | None => false end in
      Ok (tt, state <| nj_cursor := Some next |>)
  end.
Definition ingestRecoverable (items : list MissionDeliveryItem) (now : Z) : Mutation unit := fun state =>
  let* state := upsertAll now items state in Ok (tt, state).

Definition setMissionAssignmentCursor (cursor : option string) : Mutation unit := fun state =>
  throw JournalInvalid when negb (nullable uuidSchema cursor) in
  Ok (tt, state <| nj_mission_assignment_cursor := cursor |>).

Definition updateDelivery (deliveryId : string)
    (mutate : JournalDelivery -> result JournalError JournalDelivery) : Mutation JournalDelivery :=
  fun state =>
  throw JournalInvalid when negb (uuidSchema deliveryId) in
  match dict_get deliveryId state.(nj_deliveries) with
  | None => Err NotJournaled
  | Some entry => let* entry := mutate entry in Ok (entry, put_delivery deliveryId entry state)
  end.

Definition setMissionSession (session : HostSessionRef) : Mutation unit := fun state =>
  throw JournalInvalid when negb (hostSessionRefSchema session) in
  let missionId := session.(hs_input).(ses_missionId) in
  throw SessionDiffers when
    match dict_get missionId state.(nj_mission_sessions) with
    | Some existing => existing !== session
    | None => false
    end in
  Ok (tt, state <| nj_mission_sessions := dict_set missionId session state.(nj_mission_sessions) |>).

Definition checkpointStartTurnInput (deliveryId : string)
    (inputValue : StartTurnInputOf HostArtifactPayloadInput) (now : Z)
    : Mutation JournalDelivery := fun state =>
  match startTurnInputSchema inputValue with
  | None => Err JournalInvalid
  | Some input =>
      updateDelivery deliveryId (fun current =>
        throw StartAfterEvidence when
          (0 <? len current.(jd_host_events)) || non_null current.(jd_result) in
        throw StartInputChanged when
          non_null current.(jd_start_turn_input) && (current.(jd_start_turn_input) !== Some input) in
        Ok (current <| jd_start_turn_input := Some input |> <| jd_updated_at := toISOString now |>)) state
  end.

Definition checkpointRuntimeAuthority (deliveryId : string) (grant : RuntimeAuthorityGrant) (now : Z)
    (expected : option RuntimeAuthorityCheckpointExpectation) : Mutation JournalDelivery := fun state =>
  throw JournalInvalid when negb (runtimeAuthorityGrantSchema grant) in
  updateDelivery deliveryId (fun current =>
    throw CheckpointRaced when
      match expected with
      | Some expected => negb (runtimeAuthorityCheckpointMatches current expected)
      | None => false
      end in
    let* _ :=
      match current.(jd_runtime_authority), current.(jd_runtime_authority_predecessor) with
      | Some active, _ => throw AuthorityChanged when active !== grant in Ok tt
      | None, Some predecessor =>
          let* successor := isRuntimeAuthoritySuccessor predecessor grant in
          throw SuccessorScopeChanged when negb successor in Ok tt
      | None, None => Ok tt
      end in
    Ok (current <| jd_runtime_authority := Some grant |> <| jd_runtime_authority_predecessor := None |>
                <| jd_updated_at := toISOString now |>)) state.

(** [accepted] is the status to record: accepted or pending. *)
Definition recordMissionAcceptance (missionId : string) (input : MissionParticipantAcceptanceInput)
    (accepted : bool) : Mutation unit := fun state =>
  throw JournalInvalid when
    negb (uuidSchema missionId) || negb (missionParticipantAcceptanceInputSchema input) in
  let existing := dict_get missionId state.(nj_mission_acceptances) in
  throw AcceptanceChanged when non_null existing && ((ma_input <$> existing) !== Some input) in
  throw AcceptedNotPending when ((ma_status <$> existing) === Some MA_accepted) && negb accepted in
  throw AcceptanceQuarantined when (ma_status <$> existing) === Some MA_quarantined in
  Ok (tt, state <| nj_mission_acceptances := dict_set missionId
    {| ma_input := input; ma_status := if accepted then MA_accepted else MA_pending; ma_last_error := None |}
    state.(nj_mission_acceptances) |>).

Definition quarantineMissionAcceptance (missionId error : string) : Mutation unit := fun state =>
  throw JournalInvalid when negb (uuidSchema missionId) in
  match dict_get missionId state.(nj_mission_acceptances) with
  | None => Err AcceptanceNotJournaled
  | Some existing =>
      throw AcceptedNotQuarantined when existing.(ma_status) === MA_accepted in
      Ok (tt, state <| nj_mission_acceptances := dict_set missionId
        {| ma_input := existing.(ma_input); ma_status := MA_quarantined;
           ma_last_error := Some (String.substring 0 2000 error) |}
        state.(nj_mission_acceptances) |>)
  end.

Definition replaceDeliveryState (delivery : Delivery) (now : Z) : Mutation JournalDelivery :=
  updateDelivery delivery.(d_delivery_id) (fun entry =>
    let* _ := assertSameDeliveryIdentity entry.(jd_item).(item_delivery) delivery in
    let* staged := stageRuntimeAuthoritySuccessor delivery entry in
    Ok (replace_delivery delivery now staged)).

(** ** [update]: validation and the write *)

(** Whether the write reached the disk, and whether it was confirmed. *)
Inductive SaveOutcome := Saved | NotSaved | SavedUnconfirmed.

(** [nj_memory] is [#state], [nj_disk] what [storage.load()] would return. *)
Record NodeJournal := { nj_memory : NodeJournalState; nj_disk : NodeJournalState }.

Definition update {A} (mutate : Mutation A) (save : SaveOutcome) (j : NodeJournal)
    : NodeJournal * result JournalError A :=
  match mutate j.(nj_memory) with
  | Err e => (j, Err e)
  | Ok (value, next) =>
      match nodeJournalStateSchema next with
      | None => (j, Err JournalInvalid)
      | Some validated =>
          match save with
          | Saved => ({| nj_memory := validated; nj_disk := validated |}, Ok value)
          | NotSaved => (j, Err SaveFailed)
          | SavedUnconfirmed => ({| nj_memory := j.(nj_memory); nj_disk := validated |}, Err SaveFailed)
          end
      end
  end.

Definition empty_state : NodeJournalState := {|
  nj_cursor := None; nj_mission_assignment_cursor := None; nj_deliveries := [];
  nj_mission_sessions := []; nj_mission_acceptances := [] |}.

(** [NodeJournal.open] on a journal of the current schema version. *)
Definition open (stored : NodeJournalState) : option NodeJournal :=
  (fun state => {| nj_memory := state; nj_disk := stored |}) <$> nodeJournalStateSchema stored.
End Operations.

(** ** [migrateJournalState]: the file of an older version *)
Record JournalMigration := { jm_state : JsonValue; jm_changed : bool }.
Inductive MigrationError := DeliveriesWithoutStartInput.

(** [Object.hasOwn(entry, name)] *)
Definition has_own (name : string) (fields : Dict JsonValue) : bool := non_null (dict_get name fields).

(** The loop over [Object.values(record.deliveries)]; entries that are no objects stay. *)
Definition map_deliveries (f : Dict JsonValue -> Dict JsonValue) (record : Dict JsonValue)
    : Dict JsonValue :=
  match dict_get "deliveries" record with
  | Some (JObject deliveries) =>
      dict_set "deliveries" (JObject (map (fun ke =>
        (ke.1, match ke.2 with JObject entry => JObject (f entry) | other => other end)) deliveries)) record
  | _ => record
  end.
Definition addRuntimeAuthorityPredecessors : Dict JsonValue -> Dict JsonValue :=
  map_deliveries (fun entry =>
    if has_own "runtime_authority_predecessor" entry then entry
    else dict_set "runtime_authority_predecessor" JNull entry).
Definition addRuntimeAuthority : Dict JsonValue -> Dict JsonValue :=
  map_deliveries (fun entry =>
    dict_set "runtime_authority_predecessor" JNull (dict_set "runtime_authority" JNull entry)).

(** [stored] is [None] where the storage holds nothing. *)
Definition migrateJournalState (stored : option JsonValue) : result MigrationError JournalMigration :=
  match stored with
  | None | Some JNull => Ok {| jm_changed := true; jm_state := JObject [
      ("schema_version", json_int 4); ("cursor", JNull); ("mission_assignment_cursor", JNull);
      ("deliveries", JObject []); ("mission_sessions", JObject []); ("mission_acceptances", JObject [])] |}
  | Some (JObject record) =>
      let version := dict_get "schema_version" record in
      let migrated := dict_set "schema_version" (json_int 4) record in
      if version === Some (json_int 3) then
        Ok {| jm_state := JObject (addRuntimeAuthorityPredecessors migrated); jm_changed := true |}
      else if version === Some (json_int 2) then
        Ok {| jm_state := JObject (addRuntimeAuthority migrated); jm_changed := true |}
      else if version !== Some (json_int 1) then
        Ok {| jm_state := JObject record; jm_changed := false |}
      else
        throw DeliveriesWithoutStartInput when
          match dict_get "deliveries" record with
          | Some (JObject deliveries) => 0 <? len deliveries
          | _ => false
          end in
        Ok {| jm_changed := true;
              jm_state := JObject (if has_own "mission_assignment_cursor" migrated then migrated
                                   else dict_set "mission_assignment_cursor" JNull migrated) |}
  | Some stored => Ok {| jm_state := stored; jm_changed := false |}
  end.

(** ** [terminalResultFromEvents] *)
Inductive TerminalResultError := NoCompletedDisposition | NotPublishable | ResultInvalid.
Definition terminalResultFromEvents `{Zod} (events : list HostEvent)
    : result TerminalResultError NodeDeliveryResultPayload :=
  match he_kind <$> at_last events with
  | Some (HE_completed disposition) =>
      throw NotPublishable when
        match disposition with Blocked _ _ | Failed _ => true | _ => false end in
      throw ResultInvalid when negb (nodeDeliveryResultPayloadSchema (NR_turn_completed disposition)) in
      Ok (NR_turn_completed disposition)
  | _ => Err NoCompletedDisposition
  end.

Definition startTurnInputDigest `{Zod, NodeJs} (inputValue : StartTurnInput) : option string :=
  input ← startTurnInputSchema (start_input inputValue);
  Some (sha256 (canonicalJson (start_turn_input_json input))).
