(* ===== verification/JournalSafety.v ===== *)
(** * What the journal keeps

    Every state that is saved passes the schema, so a journal can always be opened
    again, and a journaled delivery stays the delivery it was.  [journal_le] says what it
    is for a journal to move forward; every operation does, [updateDelivery] where its
    callback does, and so does an update that fails and a restart.  That the callbacks
    of the Node do is in NodeForward. *)

From S2P Require Import Prelude JsLib Json Schemas MissionEvents MissionExample DeliveryOperations JsonValue HostEvents.
From S2P Require Import TurnInput CapsulePrompt CanonicalJson RuntimeAuthority Journal.
Local Open Scope Z_scope.

(** ** What the schema says *)
Lemma entries_issues_iff {A} (bad : A -> bool) m n l :
  no_issues (entries_issues (fun _ => bad) m n l) = true <-> forall x, x ∈ l -> bad x = false.
Proof.
  revert n. induction l as [|x l IH]; intros n; cbn.
  - split; [|done]. by intros _ x Hx%not_elem_of_nil.
  - rewrite no_issues_app, no_issues_if, andb_true_iff, IH, negb_true_iff.
    setoid_rewrite elem_of_cons. naive_solver.
Qed.

(** A grant names the delivery and the attempt it was journaled with. *)
Definition names (e : JournalDelivery) (g : RuntimeAuthorityGrant) : Prop :=
  let d := e.(jd_item).(item_delivery) in
  (gr_scope g).(sc_delivery_id) = d.(d_delivery_id) /\ (gr_scope g).(sc_mission_id) = d.(d_mission_id) /\
  (gr_scope g).(sc_node_id) = d.(d_node_id) /\
  (gr_scope g).(sc_execution_attempt) = e.(jd_execution_attempt).

Definition older (a b : string) : Prop :=
  exists x y, BigInt a = Some x /\ BigInt b = Some y /\ x < y.

Record entry_ok `{NodeJs} (e : JournalDelivery) : Prop := {
  eo_digest : e.(jd_identity_sha256) = deliveryIdentityDigest e.(jd_item);
  eo_input : forall i, e.(jd_start_turn_input) = Some i ->
    i.(sti_deliveryId) = e.(jd_item).(item_delivery).(d_delivery_id) /\
    i.(sti_executionAttempt) = e.(jd_execution_attempt) /\
    e.(jd_host_session) = Some i.(sti_turn).(ti_session);
  eo_evidence : e.(jd_start_turn_input) = None -> e.(jd_host_events) = [] /\ e.(jd_result) = None;
  eo_events : forall event, event ∈ e.(jd_host_events) ->
    event.(he_turn).(executionAttempt) = e.(jd_execution_attempt);
  eo_active : forall g, e.(jd_runtime_authority) = Some g ->
    names e g /\ e.(jd_runtime_authority_predecessor) = None /\
    forall l, e.(jd_item).(item_delivery).(d_lease) = Some l ->
      (gr_scope g).(sc_lease_id) = l.(lease_lease_id) /\
      (gr_scope g).(sc_fencing_token) = l.(lease_fencing_token);
  eo_predecessor : forall g, e.(jd_runtime_authority_predecessor) = Some g ->
    names e g /\ exists l, e.(jd_item).(item_delivery).(d_lease) = Some l /\
      older (gr_scope g).(sc_fencing_token) l.(lease_fencing_token) /\
      (gr_scope g).(sc_lease_id) <> l.(lease_lease_id);
  eo_attempts : NoDup (map ar_execution_attempt e.(jd_host_attempt_history)) /\
    forall a, a ∈ e.(jd_host_attempt_history) -> a.(ar_execution_attempt) < e.(jd_execution_attempt) /\
      forall event, event ∈ a.(ar_host_events) ->
        event.(he_turn).(executionAttempt) = a.(ar_execution_attempt) }.

Lemma archived_issues_inv current seen l :
  no_issues (archivedIssues current seen l) = true ->
  NoDup (map ar_execution_attempt l) /\
  (forall a, a ∈ l -> a.(ar_execution_attempt) ∉ seen) /\
  forall a, a ∈ l -> a.(ar_execution_attempt) < current /\
    forall event, event ∈ a.(ar_host_events) -> event.(he_turn).(executionAttempt) = a.(ar_execution_attempt).
Proof.
  revert seen. induction l as [|x l IH]; intros seen; cbn [archivedIssues map].
  { intros _. split_and!; [constructor|..]; by intros a Ha%not_elem_of_nil. }
  rewrite !no_issues_app, no_issues_if, !andb_true_iff, entries_issues_iff. intros (F & Ev & R).
  bool_hyps. apply IH in R as (N & S & R). rewrite includes_false_iff in *.
  split_and!.
  - constructor; [|done]. intros (a & E & Ha)%list_elem_of_In%in_map_iff.
    apply (S a); [by apply list_elem_of_In|]. rewrite E. left.
  - intros a [->|Ha]%elem_of_cons; [done|]. intros In. apply (S a Ha). by right.
  - intros a [->|Ha]%elem_of_cons; [|auto]. split; [done|]. intros event He. specialize (Ev event He).
    by bool_hyps.
Qed.

Section Facts.
Context `{Zod, NodeJs}.

Lemma authority_issues_inv e g fence : no_issues (validateRuntimeAuthority e g fence) = true ->
  names e g /\ (fence = true -> forall l, e.(jd_item).(item_delivery).(d_lease) = Some l ->
    (gr_scope g).(sc_lease_id) = l.(lease_lease_id) /\ (gr_scope g).(sc_fencing_token) = l.(lease_fencing_token)).
Proof.
  unfold validateRuntimeAuthority, names. rewrite !no_issues_app, !no_issues_if, !andb_true_iff.
  intros (A & B & C & D & F). bool_hyps. split; [done|]. intros -> l E. rewrite E in F. cbn in F.
  by bool_hyps.
Qed.

Lemma entry_issues_ok e : no_issues (journalDeliveryIssues e) = true -> entry_ok e.
Proof.
  unfold journalDeliveryIssues. rewrite !no_issues_app, no_issues_if, !andb_true_iff, entries_issues_iff.
  intros (D & I & _ & Ev & Ac & Pr & Ar). bool_hyps. split.
  - done.
  - intros i Ei. rewrite Ei in I. unfold validateStartTurnInput in I.
    rewrite !no_issues_app, !no_issues_if, !andb_true_iff in I. destruct I as (? & ? & ? & ? & ?). by bool_hyps.
  - intros Ei. rewrite Ei, no_issues_if in I. bool_hyps. split; [|done].
    destruct (jd_host_events e); [done|]. rewrite len_cons in *. pose proof (len_nonneg l). lia.
  - intros event He. specialize (Ev event He). by bool_hyps.
  - intros g Eg. rewrite Eg in Ac. apply authority_issues_inv in Ac as [N L]. split; [done|].
    split; [|auto]. destruct (jd_runtime_authority_predecessor e) as [p|]; [|done].
    rewrite no_issues_app in Pr. unfold validateRuntimeAuthorityPredecessor in Pr.
    rewrite no_issues_app, !no_issues_if, Eg in Pr. cbn in Pr. bool_hyps.
  - intros g Eg. rewrite Eg, no_issues_app in Pr. apply andb_true_iff in Pr as [N P].
    apply authority_issues_inv in N as [N _]. split; [done|].
    unfold validateRuntimeAuthorityPredecessor in P. rewrite no_issues_app, !no_issues_if in P. bool_hyps.
    destruct (d_lease _) as [l|]; [|done]. exists l. split; [done|]. bool_hyps. split; [|done].
    unfold bigint_ge in *. unfold older. destruct (BigInt _) as [x|], (BigInt _) as [y|]; try done. bool_hyps. eauto.
  - apply archived_issues_inv in Ar as (N & _ & R). done.
Qed.

Lemma delivery_schema_inv e e' : journalDeliverySchema e = Some e' ->
  exists i, parse_start_input e.(jd_start_turn_input) = Some i /\ e' = e <| jd_start_turn_input := i |> /\
    journalDeliveryFields e = true /\ entry_ok e'.
Proof.
  unfold journalDeliverySchema. destruct (journalDeliveryFields e) eqn:F; cbn [negb]; [|done].
  destruct (parse_start_input _) as [i|] eqn:P; cbn; [|done].
  destruct (no_issues _) eqn:I; [|done]. intros [= <-]. exists i. split_and!; try done. by apply entry_issues_ok.
Qed.

Lemma parse_start_again i j : parse_start_input i = Some j -> parse_start_input j = Some j.
Proof.
  destruct i as [i|]; cbn; [|by intros [= <-]].
  destruct (startTurnInputSchema _) as [k|] eqn:S; cbn; [|done]. intros [= <-]. cbn.
  by rewrite (start_reparse _ _ S).
Qed.

Lemma delivery_schema_again e e' : journalDeliverySchema e = Some e' -> journalDeliverySchema e' = Some e'.
Proof.
  unfold journalDeliverySchema. destruct (journalDeliveryFields e) eqn:F; cbn [negb]; [|done].
  destruct (parse_start_input _) as [i|] eqn:P; cbn [mbind option_bind]; [|done].
  destruct (no_issues _) eqn:I; [|done]. intros [= <-].
  set (e' := e <| jd_start_turn_input := i |>) in *.
  assert (journalDeliveryFields e' = true) as -> by exact F. cbn [negb].
  assert (jd_start_turn_input e' = i) as -> by done. rewrite (parse_start_again _ _ P). cbn [mbind option_bind].
  assert (e' <| jd_start_turn_input := i |> = e') as -> by done. by rewrite I.
Qed.

Lemma record_of_inv {A} (schema : A -> option A) o o' : record_of schema o = Some o' ->
  o'.*1 = o.*1 /\ (forall k v, (k, v) ∈ o' -> exists u, (k, u) ∈ o /\ schema u = Some v /\ uuidSchema k = true) /\
  ((forall u v, schema u = Some v -> schema v = Some v) -> record_of schema o' = Some o').
Proof.
  unfold record_of. revert o'. induction o as [|[k u] o IH]; intros o'; cbn.
  { intros [= <-]. split_and!; [done| |done]. by intros k v Hk%not_elem_of_nil. }
  destruct (uuidSchema k) eqn:U; [|done]. destruct (schema u) as [v|] eqn:S; cbn; [|done].
  destruct (mapM _ o) as [r|] eqn:M; cbn; [|done]. intros [= <-]. destruct (IH r eq_refl) as (K & E & G).
  split_and!.
  - cbn. by rewrite K.
  - intros j w [[= -> ->]|Hj]%elem_of_cons; [exists u; split; [left|done]|].
    apply E in Hj as (x & Hx & R). exists x. split; [by right|done].
  - intros A0. cbn. rewrite U, (A0 _ _ S). cbn. by rewrite (G A0).
Qed.
Lemma checked_again {A} (schema : A -> bool) u v : checked schema u = Some v -> checked schema v = Some v.
Proof. unfold checked. destruct (schema u) eqn:E; [|done]. intros [= <-]. by rewrite E. Qed.
Lemma checked_same {A} (schema : A -> bool) o o' : record_of (checked schema) o = Some o' -> o' = o.
Proof.
  unfold record_of. revert o'. induction o as [|[k u] o IH]; intros o'; cbn; [by intros [= <-]|].
  destruct (uuidSchema k); [|done]. destruct (checked schema u) as [v|] eqn:C; cbn; [|done].
  assert (v = u) as -> by (revert C; unfold checked; destruct (schema u); congruence).
  destruct (mapM _ o) as [r|] eqn:M; cbn; [|done]. intros [= <-]. by rewrite (IH r eq_refl).
Qed.

(** A state that a save wrote. *)
Record state_ok (s : NodeJournalState) : Prop := {
  so_valid : nodeJournalStateSchema s = Some s;
  so_delivery : forall k e, (k, e) ∈ s.(nj_deliveries) ->
    e.(jd_item).(item_delivery).(d_delivery_id) = k /\ entry_ok e;
  so_session : forall k x, (k, x) ∈ s.(nj_mission_sessions) -> x.(hs_input).(ses_missionId) = k }.
Record keys_ok (s : NodeJournalState) : Prop := {
  ko_deliveries : NoDup s.(nj_deliveries).*1; ko_sessions : NoDup s.(nj_mission_sessions).*1;
  ko_acceptances : NoDup s.(nj_mission_acceptances).*1 }.

Lemma journal_schema_inv s t : nodeJournalStateSchema s = Some t ->
  state_ok t /\ record_of journalDeliverySchema s.(nj_deliveries) = Some t.(nj_deliveries) /\
  t = s <| nj_deliveries := t.(nj_deliveries) |>.
Proof.
  unfold nodeJournalStateSchema. destruct (_ && _) eqn:F; cbn [negb]; [|done].
  destruct (record_of journalDeliverySchema _) as [d|] eqn:D; cbn [mbind option_bind]; [|done].
  destruct (record_of (checked hostSessionRefSchema) _) as [m|] eqn:M; cbn [mbind option_bind]; [|done].
  destruct (record_of (checked missionAcceptanceJournalSchema) _) as [a|] eqn:A; cbn [mbind option_bind]; [|done].
  destruct (no_issues _) eqn:I; [|done]. intros [= <-].
  apply checked_same in M as Em. apply checked_same in A as Ea. subst m a.
  destruct s as [c ac ds ms as_]. cbn [nj_cursor nj_mission_assignment_cursor nj_deliveries
    nj_mission_sessions nj_mission_acceptances] in *.
  change (_ <| nj_mission_acceptances := as_ |>) with (Build_NodeJournalState c ac d ms as_) in *.
  change (_ <| nj_deliveries := _ |>) with (Build_NodeJournalState c ac d ms as_) in *.
  split_and!; [|done|done].
  destruct (record_of_inv _ _ _ D) as (_ & Dd & Da).
  split; cbn.
  - unfold nodeJournalStateSchema. cbn [nj_cursor nj_mission_assignment_cursor nj_deliveries
      nj_mission_sessions nj_mission_acceptances].
    rewrite F. cbn [negb]. rewrite (Da delivery_schema_again), M, A. cbn [mbind option_bind].
    change (_ <| nj_mission_acceptances := as_ |>) with (Build_NodeJournalState c ac d ms as_).
    by rewrite I.
  - intros k e Hk. unfold nodeJournalStateIssues in I. rewrite no_issues_app in I.
    apply andb_true_iff in I as [I _]. cbn in I. rewrite entries_issues_iff in I. specialize (I _ Hk). cbn in I.
    bool_hyps. split; [done|]. apply Dd in Hk as (u & _ & S & _). by apply delivery_schema_inv in S as (? & _ & _ & _ & ?).
  - intros k x Hk. unfold nodeJournalStateIssues in I. rewrite no_issues_app in I.
    apply andb_true_iff in I as [_ I]. cbn in I. rewrite entries_issues_iff in I. specialize (I _ Hk). cbn in I.
    by bool_hyps.
Qed.

Lemma record_of_get {A} (schema : A -> option A) o o' k u :
  record_of schema o = Some o' -> dict_get k o = Some u ->
  exists v, dict_get k o' = Some v /\ schema u = Some v.
Proof.
  unfold record_of. revert o'. induction o as [|[j w] o IH]; intros o'; cbn; [done|].
  destruct (uuidSchema j); [|done]. destruct (schema w) as [x|] eqn:S; cbn; [|done].
  destruct (mapM _ o) as [r|] eqn:M; cbn; [|done]. intros [= <-]. cbn.
  destruct (bool_decide_reflect (j = k)) as [->|D]; [intros [= ->]; eauto|]. by apply IH.
Qed.

Lemma entry_valid s k e : state_ok s -> (k, e) ∈ s.(nj_deliveries) -> journalDeliverySchema e = Some e.
Proof.
  intros [V _ _] Hk. apply journal_schema_inv in V as (_ & D & _).
  apply record_of_inv in D as (_ & E & _). apply E in Hk as (u & _ & S & _).
  by eapply delivery_schema_again.
Qed.

Lemma schema_keys s t : nodeJournalStateSchema s = Some t -> keys_ok s -> keys_ok t.
Proof.
  intros (_ & D & E)%journal_schema_inv [K1 K2 K3]. apply record_of_inv in D as (D & _).
  split; [by rewrite D|rewrite E; done..].
Qed.
End Facts.

(** ** What moves forward *)

(** The grant an execution is under, or was until its successor is installed. *)
Definition grant_of (e : JournalDelivery) : option RuntimeAuthorityGrant :=
  match e.(jd_runtime_authority) with Some g => Some g | None => e.(jd_runtime_authority_predecessor) end.

(** A newer fence with the same trusted scope. *)
Definition succeeds (g h : RuntimeAuthorityGrant) : Prop :=
  older (gr_scope g).(sc_fencing_token) (gr_scope h).(sc_fencing_token) /\
  successor_scope g = successor_scope h.

(** [e] became [f]; [retired] are the grants whose revocation the runtime confirmed.  An
    attempt that is over is in the history with the digest of its input and its events. *)
Record entry_le `{Zod, NodeJs} (retired : RuntimeAuthorityGrant -> Prop) (e f : JournalDelivery) : Prop := {
  el_digest : e.(jd_identity_sha256) = f.(jd_identity_sha256);
  el_attempt : e.(jd_execution_attempt) <= f.(jd_execution_attempt);
  el_input : e.(jd_execution_attempt) = f.(jd_execution_attempt) ->
    forall i, e.(jd_start_turn_input) = Some i -> f.(jd_start_turn_input) = Some i;
  el_events : e.(jd_execution_attempt) = f.(jd_execution_attempt) ->
    e.(jd_host_events) `prefix_of` f.(jd_host_events);
  el_history : e.(jd_host_attempt_history) `prefix_of` f.(jd_host_attempt_history);
  el_archived : e.(jd_execution_attempt) < f.(jd_execution_attempt) ->
    forall i, e.(jd_start_turn_input) = Some i ->
    exists a, a ∈ f.(jd_host_attempt_history) /\ a.(ar_execution_attempt) = e.(jd_execution_attempt) /\
      startTurnInputDigest i = Some a.(ar_start_input_sha256) /\ e.(jd_host_events) `prefix_of` a.(ar_host_events);
  el_grant : forall g, grant_of e = Some g ->
    exists h, (h = g \/ succeeds g h) /\ (grant_of f = Some h \/ retired h) }.

Definition cursor_le (a b : option string) : Prop :=
  forall x, a = Some x -> exists y, b = Some y /\ cursor_lt y x = false.

(** An acceptance keeps what was accepted, and leaves pending once. *)
Definition acceptance_le (a b : MissionAcceptanceJournal) : Prop :=
  a.(ma_input) = b.(ma_input) /\ (a.(ma_status) <> MA_pending -> b.(ma_status) = a.(ma_status)).

Definition dict_le {A} (R : A -> A -> Prop) (o p : Dict A) : Prop :=
  forall k x, dict_get k o = Some x -> exists y, dict_get k p = Some y /\ R x y.

Record journal_le `{Zod, NodeJs} (retired : RuntimeAuthorityGrant -> Prop) (s t : NodeJournalState) : Prop := {
  jl_cursor : cursor_le s.(nj_cursor) t.(nj_cursor);
  jl_deliveries : dict_le (entry_le retired) s.(nj_deliveries) t.(nj_deliveries);
  jl_sessions : dict_le eq s.(nj_mission_sessions) t.(nj_mission_sessions);
  jl_acceptances : dict_le acceptance_le s.(nj_mission_acceptances) t.(nj_mission_acceptances) }.

Lemma older_trans a b c : older a b -> older b c -> older a c.
Proof. intros (x & y & ? & ? & ?) (y' & z & ? & ? & ?). assert (y = y') as -> by congruence. exists x, z. split_and!; [done..|lia]. Qed.

Lemma succeeds_trans g h k : h = g \/ succeeds g h -> k = h \/ succeeds h k -> k = g \/ succeeds g k.
Proof.
  intros [->|[O Sc]] [->|[O' Sc']]; [by left|by right|by right|].
  right. split; [by eapply older_trans|congruence].
Qed.
#[export] Instance entry_le_preorder `{Zod, NodeJs} retired : PreOrder (entry_le retired).
Proof.
  split.
  - intros e. split; try done; [lia|]. intros g E. exists g. auto.
  - intros e f h [D1 A1 S1 V1 H1 R1 G1] [D2 A2 S2 V2 H2 R2 G2]. split.
    + congruence.
    + lia.
    + intros E i Ei. apply S2; [lia|]. apply S1; [lia|done].
    + intros E. transitivity (jd_host_events f); [apply V1|apply V2]; lia.
    + by transitivity (jd_host_attempt_history f).
    + intros L i Ei. destruct (decide (jd_execution_attempt e = jd_execution_attempt f)) as [Ea|Ea].
      * destruct (R2 ltac:(lia) i (S1 Ea i Ei)) as (a & Ha & Na & Da & Pa). exists a. split_and!; [done|congruence|done|].
        etransitivity; [by apply V1|exact Pa].
      * destruct (R1 ltac:(lia) i Ei) as (a & Ha & Rest). exists a. split; [|exact Rest].
        destruct H2 as [l ->]. apply elem_of_app. by left.
    + intros g (g' & R & [E'|K])%G1; [|by exists g'; auto]. apply G2 in E' as (g'' & R' & E'').
      exists g''. split; [by eapply succeeds_trans|done].
Qed.
Lemma entry_le_mono `{Zod, NodeJs} (P Q : RuntimeAuthorityGrant -> Prop) e f :
  (forall g, P g -> Q g) -> entry_le P e f -> entry_le Q e f.
Proof. intros I []. split; try done. intros g Eg. destruct (el_grant0 g Eg) as (h & R & [E|E]); eauto. Qed.

Lemma cursor_le_nat a b : cursor_lt a b = false <->
  slen b < slen a \/ (slen a = slen b /\ string_gtb b a = false).
Proof. unfold cursor_lt. destruct (slen a =? slen b) eqn:E; bool_hyps; rewrite ?Z.ltb_ge; intuition lia. Qed.
#[export] Instance cursor_le_preorder : PreOrder cursor_le.
Proof.
  split.
  - intros a x ->. exists x. split; [done|]. apply cursor_le_nat. right. split; [done|apply string_gtb_irrefl].
  - intros a b c L M x (y & -> & Ly)%L. destruct (M y eq_refl) as (z & -> & Lz). exists z. split; [done|].
    apply cursor_le_nat in Ly, Lz. apply cursor_le_nat. destruct Ly as [?|[? Gy]], Lz as [?|[? Gz]]; [left; lia..|].
    right. split; [lia|]. apply code_unit_ordered in Gy, Gz. apply code_unit_ordered.
    by transitivity y.
Qed.
#[export] Instance acceptance_le_preorder : PreOrder acceptance_le.
Proof.
  split; [by intros a|]. intros a b c [E1 S1] [E2 S2]. split; [congruence|].
  intros N. specialize (S1 N). rewrite S2; congruence.
Qed.
#[export] Instance dict_le_preorder {A} (R : A -> A -> Prop) `{!PreOrder R} : PreOrder (dict_le R).
Proof.
  split; [intros o k x E; exists x; by split|].
  intros o p q L M k x (y & E & Rx)%L. apply M in E as (z & E & Ry). exists z. split; [done|by transitivity y].
Qed.
Lemma journal_le_mono `{Zod, NodeJs} (P Q : RuntimeAuthorityGrant -> Prop) s t :
  (forall g, P g -> Q g) -> journal_le P s t -> journal_le Q s t.
Proof.
  intros I [C D S A]. split; try done. intros k e (f & Ef & L)%D. exists f. split; [done|by eapply entry_le_mono].
Qed.
#[export] Instance journal_le_preorder `{Zod, NodeJs} retired : PreOrder (journal_le retired).
Proof.
  split; [intros s; by split|]. intros s t u [] []. split; etransitivity; eassumption.
Qed.

Lemma dict_le_set {A} (R : A -> A -> Prop) `{!PreOrder R} k v o :
  (forall x, dict_get k o = Some x -> R x v) -> dict_le R o (dict_set k v o).
Proof.
  intros F j x E. destruct (decide (j = k)) as [->|D].
  - exists v. rewrite dict_get_set_eq. auto.
  - exists x. rewrite dict_get_set_ne by done. by split.
Qed.

(** ** The operations *)
Lemma stage_ok next e e' : stageRuntimeAuthoritySuccessor next e = Ok e' ->
  grant_of e' = grant_of e /\
  (exists a p, e' = e <| jd_runtime_authority := a |> <| jd_runtime_authority_predecessor := p |>) /\
  exists x y, BigInt next.(d_last_fencing_token) = Some y /\
    BigInt e.(jd_item).(item_delivery).(d_last_fencing_token) = Some x /\ x <= y.
Proof.
  unfold stageRuntimeAuthoritySuccessor, bigint. intros E.
  destruct (BigInt (d_last_fencing_token next)) as [y|]; [|done].
  destruct (BigInt (d_last_fencing_token _)) as [x|]; [|done].
  destruct (y <? x) eqn:L; [done|]. bool_hyps.
  assert (F : grant_of e' = grant_of e /\
    exists a p, e' = e <| jd_runtime_authority := a |> <| jd_runtime_authority_predecessor := p |>).
  { assert (Same : exists a p, e = e <| jd_runtime_authority := a |> <| jd_runtime_authority_predecessor := p |>).
    { exists e.(jd_runtime_authority), e.(jd_runtime_authority_predecessor). by destruct e. }
    unfold grant_of. destruct (jd_runtime_authority e) as [g|] eqn:A, (jd_runtime_authority_predecessor e) as [p|] eqn:P;
      ok_inv E; injection E as <-; rewrite ?A, ?P; (split; [done|]); first [exact Same|by do 2 eexists]. }
  split_and!; [apply F..|]. eauto.
Qed.

(** Changes that leave what moves forward as it is. *)
Record entry_same (e f : JournalDelivery) : Prop := {
  es_digest : f.(jd_identity_sha256) = e.(jd_identity_sha256);
  es_attempt : f.(jd_execution_attempt) = e.(jd_execution_attempt);
  es_input : f.(jd_start_turn_input) = e.(jd_start_turn_input);
  es_events : e.(jd_host_events) `prefix_of` f.(jd_host_events);
  es_history : f.(jd_host_attempt_history) = e.(jd_host_attempt_history);
  es_grant : grant_of f = grant_of e }.
Lemma same_le `{Zod, NodeJs} retired e f : entry_same e f -> entry_le retired e f.
Proof.
  intros [D A I V Hi G]. split; rewrite ?D, ?A, ?I, ?Hi, ?G; try done; [lia|].
  intros g Eg. exists g. auto.
Qed.
Lemma staged_same next e e' : stageRuntimeAuthoritySuccessor next e = Ok e' -> entry_same e e'.
Proof. intros (G & (a & p & ->) & _)%stage_ok. by split. Qed.
Lemma staged_le `{Zod, NodeJs} retired next now e e' :
  stageRuntimeAuthoritySuccessor next e = Ok e' -> entry_le retired e (replace_delivery next now e').
Proof. intros S%staged_same. apply same_le. destruct S. by split. Qed.

Create HintDb journal.
Section Operations.
Context `{Zod, NodeJs}.

Variable retired : RuntimeAuthorityGrant -> Prop.

Definition mutation_le {A} (m : Mutation A) : Prop :=
  forall s v t, state_ok s -> m s = Ok (v, t) -> journal_le retired s t.
Definition keeps_keys {A} (m : Mutation A) : Prop :=
  forall s v t, m s = Ok (v, t) -> keys_ok s -> keys_ok t.
(** A mutation of an entry the schema accepts. *)
Definition forwards (f : JournalDelivery -> result JournalError JournalDelivery) : Prop :=
  forall e e', entry_ok e -> f e = Ok e' -> entry_le retired e e'.

Lemma put_delivery_le k e s :
  (forall x, dict_get k s.(nj_deliveries) = Some x -> entry_le retired x e) -> journal_le retired s (put_delivery k e s).
Proof. intros F. split; try done. cbn. by apply dict_le_set; [apply _|]. Qed.
Lemma put_delivery_keys k e s : keys_ok s -> keys_ok (put_delivery k e s).
Proof. intros []. split; [by apply dict_set_nodup|done..]. Qed.

Lemma upsert_ok now s item t : upsertDelivery now s item = Ok t -> journal_le retired s t /\ (keys_ok s -> keys_ok t).
Proof.
  unfold upsertDelivery. intros E. ok_inv E; injection E as <-; (split; [|apply put_delivery_keys]).
  - apply put_delivery_le. intros x Ex. rewrite Ex in *. simplify_eq.
    by eapply staged_le.
  - apply put_delivery_le. intros x Ex. congruence.
Qed.
Lemma upsert_all_ok now items s t :
  upsertAll now items s = Ok t -> journal_le retired s t /\ (keys_ok s -> keys_ok t).
Proof.
  revert s. induction items as [|item items IH]; intros s; cbn; [by intros [= ->]|]. intros E. ok_inv E.
  match goal with U : upsertDelivery _ _ _ = _ |- _ => apply upsert_ok in U as [L K] end.
  apply IH in E as [L' K']. split; [by etransitivity|auto].
Qed.

Lemma update_delivery_le k f : forwards f -> mutation_le (updateDelivery k f).
Proof.
  intros F s v t V. unfold updateDelivery. intros E. ok_inv E. injection E as <- <-.
  apply put_delivery_le. intros x Ex. rewrite Ex in *. simplify_eq. apply F; [|done].
  by eapply so_delivery, dict_get_elem.
Qed.
Lemma update_delivery_keys k f : keeps_keys (updateDelivery k f).
Proof. intros s v t E. unfold updateDelivery in E. ok_inv E. injection E as <- <-. apply put_delivery_keys. Qed.

Lemma start_le k i now : mutation_le (checkpointStartTurnInput k i now).
Proof.
  intros s v t V. unfold checkpointStartTurnInput. destruct (startTurnInputSchema i) as [j|]; [|done].
  apply update_delivery_le; [|done]. intros e e' _ E. ok_inv E. injection E as <-. split; try done.
  - intros _ i' Ei. change (Some j = Some i').
    match goal with S : _ && _ = false |- _ => rewrite Ei in S; cbn in S end. by bool_hyps.
  - cbn. lia.
  - intros g Eg. exists g. split; [by left|by left].
Qed.

Lemma authority_le k g now expected : mutation_le (checkpointRuntimeAuthority k g now expected).
Proof.
  intros s v t V. unfold checkpointRuntimeAuthority. destruct (negb _); [done|].
  apply update_delivery_le; [|done]. intros e e' _ E. ok_inv E. injection E as <-. split; try done; [cbn; lia|].
  intros h Eh. exists g. split; [|by left]. unfold grant_of in Eh.
  destruct (jd_runtime_authority e) as [active|]; [|destruct (jd_runtime_authority_predecessor e) as [p|]; [|done]].
  - injection Eh as ->. match goal with C : (if _ then Err AuthorityChanged else _) = _ |- _ => ok_inv C end.
    bool_hyps. by left.
  - injection Eh as ->. unfold isRuntimeAuthoritySuccessor, bigint in *.
    repeat match goal with C : _ = Ok _ |- _ => ok_step C end; simplify_eq. bool_hyps. right. split; [|done].
    unfold older. eauto.
Qed.

Lemma acceptance_set_le m a s :
  (forall x, dict_get m s.(nj_mission_acceptances) = Some x -> acceptance_le x a) ->
  journal_le retired s (s <| nj_mission_acceptances := dict_set m a s.(nj_mission_acceptances) |>).
Proof. intros F. split; try done. cbn. by apply dict_le_set; [apply _|]. Qed.

Lemma record_le m i accepted : mutation_le (recordMissionAcceptance m i accepted).
Proof.
  intros s v t _. unfold recordMissionAcceptance. intros E. ok_inv E. injection E as <- <-.
  apply acceptance_set_le. intros x Ex. rewrite Ex in *. cbn in *. bool_hyps. split; [cbn; congruence|]. cbn.
  intros N. destruct (ma_status x); try done. destruct accepted; done.
Qed.
Lemma quarantine_le m error : mutation_le (quarantineMissionAcceptance m error).
Proof.
  intros s v t _. unfold quarantineMissionAcceptance. intros E. ok_inv E. injection E as <- <-.
  apply acceptance_set_le. intros x Ex. rewrite Ex in *. simplify_eq. bool_hyps. split; [done|]. cbn.
  intros N. by destruct (ma_status _).
Qed.
Lemma page_le items nextCursor now : mutation_le (ingestCursorPage items nextCursor now).
Proof.
  intros s v t _. unfold ingestCursorPage. intros E. ok_inv E.
  - match goal with U : upsertAll _ _ _ = _ |- _ => apply upsert_all_ok in U as [L _] end.
    injection E as <- <-. etransitivity; [exact L|]. split; try done. cbn. intros x Ex. eexists. split; [done|].
    by rewrite Ex in *.
  - injection E as <- <-. match goal with U : upsertAll _ _ _ = _ |- _ => by apply upsert_all_ok in U as [L _] end.
Qed.
Lemma recoverable_le items now : mutation_le (ingestRecoverable items now).
Proof.
  intros s v t _. unfold ingestRecoverable. intros E. ok_inv E. injection E as <- <-.
  match goal with U : upsertAll _ _ _ = _ |- _ => by apply upsert_all_ok in U as [L _] end.
Qed.
Lemma assignment_cursor_le cursor : mutation_le (setMissionAssignmentCursor cursor).
Proof. intros s v t _. unfold setMissionAssignmentCursor. intros E. ok_inv E. injection E as <- <-. by split. Qed.
Lemma session_le session : mutation_le (setMissionSession session).
Proof.
  intros s v t _. unfold setMissionSession. intros E. ok_inv E. injection E as <- <-. split; try done. cbn.
  apply dict_le_set; [apply _|]. intros x Ex. rewrite Ex in *. by bool_hyps.
Qed.
Lemma replace_le delivery now : mutation_le (replaceDeliveryState delivery now).
Proof.
  intros s v t V. unfold replaceDeliveryState. apply update_delivery_le; [|done].
  intros e e' _ R. ok_inv R. injection R as <-. by eapply staged_le.
Qed.

End Operations.

(** Keys are not repeated. *)
Section Keys.
Context `{Zod, NodeJs}.
Lemma page_keys items nextCursor now : keeps_keys (ingestCursorPage items nextCursor now).
Proof.
  unfold ingestCursorPage. intros s v t E K. ok_inv E;
    match goal with U : upsertAll _ _ _ = _ |- _ => apply (upsert_all_ok (fun _ => True)) in U as [_ L] end;
    injection E as <- <-; [|auto]. destruct (L K). by split.
Qed.
Lemma recoverable_keys items now : keeps_keys (ingestRecoverable items now).
Proof.
  unfold ingestRecoverable. intros s v t E K. ok_inv E. injection E as <- <-.
  match goal with U : upsertAll _ _ _ = _ |- _ => by apply (upsert_all_ok (fun _ => True)) in U as [_ L]; auto end.
Qed.
Lemma assignment_cursor_keys cursor : keeps_keys (setMissionAssignmentCursor cursor).
Proof. unfold setMissionAssignmentCursor. intros s v t E []. ok_inv E. injection E as <- <-. by split. Qed.
Lemma session_keys session : keeps_keys (setMissionSession session).
Proof.
  unfold setMissionSession. intros s v t E []. ok_inv E. injection E as <- <-. split; try done. by apply dict_set_nodup.
Qed.
Lemma start_keys k i now : keeps_keys (checkpointStartTurnInput k i now).
Proof. unfold checkpointStartTurnInput. intros s v t E. ok_inv E. by eapply update_delivery_keys. Qed.
Lemma authority_keys k g now expected : keeps_keys (checkpointRuntimeAuthority k g now expected).
Proof.
  unfold checkpointRuntimeAuthority. intros s v t E. destruct (negb _); [done|]. by eapply update_delivery_keys.
Qed.
Lemma record_keys m i accepted : keeps_keys (recordMissionAcceptance m i accepted).
Proof.
  unfold recordMissionAcceptance. intros s v t E []. ok_inv E. injection E as <- <-. split; try done.
  by apply dict_set_nodup.
Qed.
Lemma quarantine_keys m error : keeps_keys (quarantineMissionAcceptance m error).
Proof.
  unfold quarantineMissionAcceptance. intros s v t E []. ok_inv E. injection E as <- <-. split; try done.
  by apply dict_set_nodup.
Qed.
Lemma replace_keys delivery now : keeps_keys (replaceDeliveryState delivery now).
Proof. apply update_delivery_keys. Qed.
End Keys.
#[export] Hint Resolve page_le recoverable_le assignment_cursor_le session_le start_le authority_le record_le
  quarantine_le page_keys recoverable_keys assignment_cursor_keys session_keys start_keys authority_keys record_keys
  quarantine_keys replace_keys update_delivery_keys : journal.
Lemma mutation_le_mono `{Zod, NodeJs} (P Q : RuntimeAuthorityGrant -> Prop) {A : Type} (m : Mutation A) :
  (forall g, P g -> Q g) -> mutation_le P m -> mutation_le Q m.
Proof. intros I M s v t V E. by apply (journal_le_mono P), (M s v t V E). Qed.

(** ** Histories *)
Inductive JournalCall :=
| CallIngestCursorPage (items : list MissionDeliveryItem) (nextCursor : option string) (now : Z)
| CallIngestRecoverable (items : list MissionDeliveryItem) (now : Z)
| CallSetMissionAssignmentCursor (cursor : option string)
| CallUpdateDelivery (deliveryId : string) (mutate : JournalDelivery -> result JournalError JournalDelivery)
| CallSetMissionSession (session : HostSessionRef)
| CallCheckpointStartTurnInput (deliveryId : string) (input : StartTurnInputOf HostArtifactPayloadInput) (now : Z)
| CallCheckpointRuntimeAuthority (deliveryId : string) (grant : RuntimeAuthorityGrant) (now : Z)
    (expected : option RuntimeAuthorityCheckpointExpectation)
| CallRecordMissionAcceptance (missionId : string) (input : MissionParticipantAcceptanceInput) (accepted : bool)
| CallQuarantineMissionAcceptance (missionId error : string)
| CallReplaceDeliveryState (delivery : Delivery) (now : Z).

(** A mutation without its value. *)
Definition quietly {A} (m : Mutation A) : Mutation unit := fun s => let* r := m s in Ok (tt, r.2).

Section Histories.
Context `{Zod, NodeJs}.

Definition run_call (c : JournalCall) : Mutation unit :=
  match c with
  | CallIngestCursorPage items nextCursor now => ingestCursorPage items nextCursor now
  | CallIngestRecoverable items now => ingestRecoverable items now
  | CallSetMissionAssignmentCursor cursor => setMissionAssignmentCursor cursor
  | CallUpdateDelivery deliveryId mutate => quietly (updateDelivery deliveryId mutate)
  | CallSetMissionSession session => setMissionSession session
  | CallCheckpointStartTurnInput deliveryId input now =>
      quietly (checkpointStartTurnInput deliveryId input now)
  | CallCheckpointRuntimeAuthority deliveryId grant now expected =>
      quietly (checkpointRuntimeAuthority deliveryId grant now expected)
  | CallRecordMissionAcceptance missionId input accepted => recordMissionAcceptance missionId input accepted
  | CallQuarantineMissionAcceptance missionId error => quarantineMissionAcceptance missionId error
  | CallReplaceDeliveryState delivery now => quietly (replaceDeliveryState delivery now)
  end.

(** A call, whatever becomes of its write, or a restart, at any time. *)
Inductive journal_step (j : NodeJournal) : NodeJournal -> Prop :=
| step_call c save j' r : update (run_call c) save j = (j', r) -> journal_step j j'
| step_restart j' : open j.(nj_disk) = Some j' -> journal_step j j'.

Lemma quietly_keys {A} (m : Mutation A) : keeps_keys m -> keeps_keys (quietly m).
Proof.
  intros K s v t. unfold quietly. destruct (m s) as [[w u]|] eqn:E; [|done]. intros [= <- <-]. by eapply K.
Qed.
Lemma run_call_keys c : keeps_keys (run_call c).
Proof. destruct c; cbn [run_call]; auto using quietly_keys with journal. Qed.

Lemma validated_le retired s t u :
  state_ok s -> journal_le retired s t -> nodeJournalStateSchema t = Some u -> journal_le retired s u.
Proof.
  intros V [Lc Ld Ls La] (_ & D & E)%journal_schema_inv. rewrite E in *. split; try done. cbn.
  intros k e Ek. destruct (Ld k e Ek) as (f & Ef & L). destruct (record_of_get _ _ _ _ _ D Ef) as (h & Eh & S).
  exists h. split; [done|]. apply delivery_schema_inv in S as (i & Ei & -> & _).
  destruct L as [L1 L2 L3 L4 L5 L6 L7]. split; try done. intros A j Ej.
  change (i = Some j). specialize (L3 A j Ej). rewrite L3 in Ei.
  apply dict_get_elem, (entry_valid _ _ _ V) in Ek. apply delivery_schema_inv in Ek as (i' & Ei' & Ee & _).
  rewrite Ej in Ei'. assert (i' = Some j).
  { assert (S : jd_start_turn_input e = jd_start_turn_input (e <| jd_start_turn_input := i' |>)) by by rewrite <-Ee.
    rewrite Ej in S. by symmetry. }
  congruence.
Qed.

(** The disk can be read, and no key is there twice. *)
Record journal_ok (j : NodeJournal) : Prop := {
  jo_memory : state_ok j.(nj_memory); jo_memory_keys : keys_ok j.(nj_memory);
  jo_disk_keys : keys_ok j.(nj_disk);
  jo_disk : exists d, nodeJournalStateSchema j.(nj_disk) = Some d /\ state_ok d }.

Lemma opened_ok stored j : keys_ok stored -> open stored = Some j -> journal_ok j.
Proof.
  unfold open. intros K. destruct (nodeJournalStateSchema stored) as [d|] eqn:E; [|done]. intros [= <-].
  apply journal_schema_inv in E as V. split; cbn; [apply V|by eapply schema_keys|done|]. exists d. split; [done|apply V].
Qed.

(** What an [update] leaves. *)
Lemma update_inv {A} (m : Mutation A) save j j' r : update m save j = (j', r) ->
  j' = j \/ exists v next validated, m j.(nj_memory) = Ok (v, next) /\
    nodeJournalStateSchema next = Some validated /\ j'.(nj_disk) = validated /\
    (j'.(nj_memory) = validated /\ r = Ok v \/ j'.(nj_memory) = j.(nj_memory) /\ r = Err SaveFailed).
Proof.
  unfold update. destruct (m _) as [[v next]|]; [|intros [= <- <-]; by left].
  destruct (nodeJournalStateSchema next) as [d|] eqn:D; [|intros [= <- <-]; by left].
  destruct save; intros [= <- <-]; [right|by left|right]; exists v, next, d; split_and!; auto.
Qed.

Lemma update_ok {A} (m : Mutation A) save j j' r :
  keeps_keys m -> update m save j = (j', r) -> journal_ok j -> journal_ok j'.
Proof.
  intros Km U [M Mk Dk D]. apply update_inv in U as [->|(v & next & d & E & S & Ed & Em)]; [by split|].
  pose proof (Km _ _ _ E Mk) as K. apply journal_schema_inv in S as V. apply (schema_keys _ _ S) in K.
  destruct V as [V _]. destruct Em as [[Em _]|[Em _]]; split; rewrite ?Em, ?Ed; try done;
    (exists d; split; [apply V|done]).
Qed.
Lemma step_ok j j' : journal_step j j' -> journal_ok j -> journal_ok j'.
Proof.
  intros [c save j1 r U|j1 O] V; [by eapply update_ok; [apply (run_call_keys c)|exact U|]|]. by apply (opened_ok _ _ (jo_disk_keys _ V)).
Qed.

(** The disk is where the memory is, or ahead of it. *)
Definition ahead retired (j : NodeJournal) : Prop :=
  exists d, nodeJournalStateSchema j.(nj_disk) = Some d /\ journal_le retired j.(nj_memory) d.
Lemma ahead_mono (P Q : RuntimeAuthorityGrant -> Prop) j : (forall g, P g -> Q g) -> ahead P j -> ahead Q j.
Proof. intros I (d & S & L). exists d. split; [done|by eapply journal_le_mono]. Qed.
Lemma update_forward retired {A} (m : Mutation A) save j j' r :
  mutation_le retired m -> update m save j = (j', r) -> journal_ok j -> ahead retired j ->
  journal_le retired j.(nj_memory) j'.(nj_memory) /\ ahead retired j'.
Proof.
  intros L U [M _ _ _] D. apply update_inv in U as [->|(v & next & w & E & S & Ed & Em)]; [by split|].
  pose proof (validated_le _ _ _ _ M (L _ _ _ M E) S) as Lw. apply journal_schema_inv in S as [V _].
  unfold ahead. destruct Em as [[Em _]|[Em _]]; rewrite Em, Ed; (split; [done|exists w; split; [apply V|done]]).
Qed.
Lemma open_forward retired j j' : open j.(nj_disk) = Some j' -> ahead retired j ->
  journal_le retired j.(nj_memory) j'.(nj_memory) /\ ahead retired j'.
Proof.
  unfold open. intros O (d & Sd & Ld). rewrite Sd in O. injection O as <-. split; [done|]. exists d. by split.
Qed.

(** C40: a journal can always be opened again.  Whatever mutations are brought, whatever
    writes fail before or after they reach the disk and wherever the process dies, the
    state in memory and the state on disk pass the schema: every journaled delivery is
    under its own id with the digest of its content; its start input and its host events
    belong to the active attempt and earlier attempts to the history; its grant is that
    of the current lease and attempt; and a predecessor waits only under a newer fence. *)
Theorem journal_always_opens stored j j' :
  keys_ok stored -> open stored = Some j -> rtc journal_step j j' ->
  state_ok j'.(nj_memory) /\ keys_ok j'.(nj_memory) /\
  exists j'', open j'.(nj_disk) = Some j'' /\ state_ok j''.(nj_memory).
Proof.
  intros K O R. assert (V : journal_ok j').
  { apply (opened_ok _ _ K) in O. induction R as [|j1 j2 j3 S _ IH]; [done|]. eapply IH, step_ok; done. }
  destruct V as [M Mk _ (d & S & Vd)]. split_and!; [done..|]. unfold open. rewrite S. eexists. split; [done|exact Vd].
Qed.

End Histories.

(** ** What a journaled delivery is *)

(** What the identity digest covers. *)
Definition content_of (item : MissionDeliveryItem) :=
  let d := item.(item_delivery) in
  (item.(item_event), item.(item_actor_agent_id), item.(item_source_delivery_id),
   item.(item_causal_parent_event_id),
   (d.(d_delivery_id), d.(d_node_id), d.(d_mission_id), d.(d_mission_event_id), d.(d_kind)),
   (d.(d_cursor), d.(d_contract_version), d.(d_verification_round), d.(d_idempotency_key),
    d.(d_causal_parent_delivery_id))).

Lemma kind_text_injective a b : delivery_kind_text a = delivery_kind_text b -> a = b.
Proof. by destruct a, b. Qed.
Lemma delivery_identity_plain d : plain (delivery_identity_json d) = true.
Proof. plain_fields. Qed.
#[export] Hint Resolve delivery_identity_plain : json.
Lemma identity_plain item : plain (identity_json item) = true.
Proof. plain_fields. Qed.
Lemma nullable_int_injective x y : json_nullable json_int x = json_nullable json_int y -> x = y.
Proof. apply nullable_injective; [done|auto with json]. Qed.

Lemma identity_json_injective a b : identity_json a = identity_json b -> content_of a = content_of b.
Proof.
  unfold identity_json. intros E. json_fields E.
  match goal with F : delivery_identity_json _ = _ |- _ => unfold delivery_identity_json in F; json_fields F end.
  repeat match goal with F : JString _ = JString _ |- _ => apply string_inj in F end.
  unfold content_of.
  rewrite (event_injective (item_event a) (item_event b)),
    (json_int_injective (d_contract_version (item_delivery a)) (d_contract_version (item_delivery b))),
    (nullable_int_injective (d_verification_round (item_delivery a)) (d_verification_round (item_delivery b))),
    (kind_text_injective (d_kind (item_delivery a)) (d_kind (item_delivery b)))
    by assumption.
  repeat match goal with F : json_nullable JString _ = _ |- _ => apply nullable_string_injective in F end.
  congruence.
Qed.

Definition sha256_collision `{NodeJs} : Prop := exists s t, s <> t /\ sha256 s = sha256 t.

Lemma digest_binds `{NodeJs} a b :
  deliveryIdentityDigest a = deliveryIdentityDigest b -> content_of a = content_of b \/ sha256_collision.
Proof.
  unfold deliveryIdentityDigest. intros E.
  destruct (decide (canonicalJson (identity_json a) = canonicalJson (identity_json b))) as [C|C].
  - left. apply identity_json_injective, plain_inj; [apply identity_plain..|done].
  - right. by do 2 eexists.
Qed.

(** A journaled delivery is never replaced by another.  In a saved state, an item
    that the Relay sends again for a journaled delivery is taken only if its event, its
    provenance and the identity of its delivery are the journaled ones, short of a
    sha256 collision; an item with another digest is refused and changes nothing. *)
Theorem replayed_content_bound `{Zod, NodeJs} s item now e :
  state_ok s -> dict_get item.(item_delivery).(d_delivery_id) s.(nj_deliveries) = Some e ->
  (forall t, upsertDelivery now s item = Ok t ->
     content_of e.(jd_item) = content_of item \/ sha256_collision) /\
  (missionDeliveryItemSchema item = true -> content_of e.(jd_item) <> content_of item ->
   upsertDelivery now s item = Err ContentChanged \/ sha256_collision).
Proof.
  intros V Ee. assert (D : e.(jd_identity_sha256) = deliveryIdentityDigest e.(jd_item)).
  { apply dict_get_elem, (so_delivery _ V) in Ee as [_ O]. apply O. }
  unfold upsertDelivery. rewrite Ee, D. split.
  - intros t E. ok_inv E. bool_hyps. by apply digest_binds.
  - intros -> N. cbn [negb].
    destruct (decide (deliveryIdentityDigest (jd_item e) = deliveryIdentityDigest item)) as [Q|Q].
    + right. by apply digest_binds in Q as [Q|Q].
    + left. by rewrite bool_decide_false.
Qed.

(** ** Migration *)
Lemma map_deliveries_get f record k : k <> "deliveries" ->
  dict_get k (map_deliveries f record) = dict_get k record.
Proof.
  intros N. unfold map_deliveries. destruct (dict_get "deliveries" record) as [[]|]; try done.
  by rewrite dict_get_set_ne.
Qed.

(** A journal is migrated once, to version 4; a current one is left as it is. *)
Lemma migrate_again stored m : migrateJournalState stored = Ok m ->
  migrateJournalState (Some m.(jm_state)) = Ok {| jm_state := m.(jm_state); jm_changed := false |}.
Proof.
  assert (Four : forall r, dict_get "schema_version" r = Some (json_int 4) ->
    migrateJournalState (Some (JObject r)) = Ok {| jm_state := JObject r; jm_changed := false |}).
  { intros r E. unfold migrateJournalState. rewrite E. done. }
  destruct stored as [[| | | | | |record]|]; intros E; try (injection E as <-; done).
  unfold migrateJournalState in E.
  assert (V : forall f, dict_get "schema_version" (map_deliveries f (dict_set "schema_version" (json_int 4) record)) =
    Some (json_int 4)) by (intros f; rewrite map_deliveries_get by done; apply dict_get_set_eq).
  destruct (dict_get "schema_version" record === Some (json_int 3)) eqn:E3; [injection E as <-; apply Four, V|].
  destruct (dict_get "schema_version" record === Some (json_int 2)) eqn:E2; [injection E as <-; apply Four, V|].
  destruct (dict_get "schema_version" record !== Some (json_int 1)) eqn:E1.
  - injection E as <-. cbn. by rewrite E3, E2, E1.
  - destruct (match dict_get "deliveries" record with Some (JObject d) => _ | _ => _ end); [done|].
    injection E as <-. apply Four. destruct (has_own _ _); [apply dict_get_set_eq|].
    rewrite dict_get_set_ne by done. apply dict_get_set_eq.
Qed.

(** ** An example *)
#[local] Existing Instance example_zod.
#[local] Instance ex_digests : NodeJs := {| JSON_parse := fun _ => None; sha256 := fun _ => ex_hash |}.

Definition ex_journaled (status : DeliveryStatus) (attempts : Z) (lease : option DeliveryLease) : Delivery := {|
  d_delivery_id := ex_delivery "1"; d_node_id := ex_id "9"; d_mission_id := ex_mission;
  d_mission_event_id := "10000000-0000-4000-8000-000000000001"; d_kind := K_turn; d_cursor := "7";
  d_status := status; d_attempt_count := attempts; d_max_attempts := 3;
  d_last_fencing_token := string_of_int attempts;
  d_contract_version := 1; d_verification_round := None; d_lease := lease;
  d_logical_settlement := None; d_idempotency_key := "delivery-1";
  d_causal_parent_delivery_id := None; d_available_at := ex_time; d_created_at := ex_time;
  d_updated_at := ex_time; d_acknowledged_at := None; d_cancelled_at := None;
  d_cancellation_reason := None; d_dead_lettered_at := None |}.
Definition ex_item (delivery : Delivery) : MissionDeliveryItem := {|
  item_delivery := delivery;
  item_event := ex_event 1 "1" (ParticipantsAccepted {|
    pa_participant_agent_ids := [ex_agent_a; ex_agent_b]; pa_contract := ex_artifact 1 |});
  item_actor_agent_id := ex_agent_a; item_source_delivery_id := None; item_causal_parent_event_id := None |}.
Definition ex_leased : Delivery := ex_journaled D_leased 1
  (Some {| lease_lease_id := ex_id "8"; lease_fencing_token := "1"; lease_expires_at := "2026-08-03T12:10:00Z" |}).
Definition ex_clock : Z := 1785758400000.

Definition ex_entry (delivery : Delivery) : JournalDelivery :=
  new_entry (ex_item delivery) ex_clock.
Definition ex_state (delivery : Delivery) : NodeJournalState :=
  empty_state <| nj_cursor := Some "7" |> <| nj_deliveries := [(ex_delivery "1", ex_entry delivery)] |>.
Definition ex_opened : NodeJournal := {| nj_memory := empty_state; nj_disk := empty_state |}.
(** The page is saved; the claimed delivery reaches the disk but is not confirmed. *)
Definition ex_ingested : NodeJournal :=
  {| nj_memory := ex_state (ex_journaled D_stored 0 None); nj_disk := ex_state (ex_journaled D_stored 0 None) |}.
Definition ex_unconfirmed : NodeJournal :=
  {| nj_memory := ex_state (ex_journaled D_stored 0 None); nj_disk := ex_state ex_leased |}.
Definition ex_restarted : NodeJournal := {| nj_memory := ex_state ex_leased; nj_disk := ex_state ex_leased |}.

Lemma ex_history : rtc journal_step ex_opened ex_restarted.
Proof.
  assert (U1 : update (run_call (CallIngestCursorPage [ex_item (ex_journaled D_stored 0 None)] (Some "7") ex_clock))
    Saved ex_opened = (ex_ingested, Ok tt)) by by_vm.
  assert (U2 : update (run_call (CallReplaceDeliveryState ex_leased ex_clock)) SavedUnconfirmed ex_ingested =
    (ex_unconfirmed, Err SaveFailed)) by by_vm.
  assert (O : open ex_unconfirmed.(nj_disk) = Some ex_restarted) by by_vm.
  exact (rtc_l _ _ _ _ (step_call _ _ _ _ _ U1)
    (rtc_l _ _ _ _ (step_call _ _ _ _ _ U2) (rtc_once _ _ (step_restart _ _ O)))).
Qed.
Lemma ex_empty_keys : keys_ok empty_state.
Proof. split; constructor. Qed.

Lemma journal_always_opens_witness :
  exists j, open ex_restarted.(nj_disk) = Some j /\ state_ok j.(nj_memory).
Proof.
  assert (O : open empty_state = Some ex_opened) by by_vm.
  destruct (journal_always_opens _ _ _ ex_empty_keys O ex_history) as (_ & _ & D). exact D.
Defined.

(** The same delivery with another actor is refused, unless two texts collide. *)
Lemma replayed_content_bound_witness :
  let item := (ex_item ex_leased) <| item_actor_agent_id := ex_agent_b |> in
  content_of (ex_item ex_leased) <> content_of item /\
  (forall t, upsertDelivery ex_clock (ex_state ex_leased) item = Ok t ->
     content_of (ex_item ex_leased) = content_of item \/ sha256_collision).
Proof.
  intros item. split; [intros E; by vm_compute in E|]. intros t.
  assert (V : state_ok (ex_state ex_leased)).
  { apply (journal_schema_inv (ex_state ex_leased)). by_vm. }
  apply (replayed_content_bound (ex_state ex_leased) item ex_clock (ex_entry ex_leased) V). by_vm.
Defined.
