(* ===== verification/NodeProgram.v ===== *)
(** * What a Node does to the world

    A Node is a program of effects: it asks the Relay (node/src/relay-client.ts),
    calls its agent host and the runtime's authority port, reads clocks, and works on
    its journal.  [Prog] is such a program, [sem] the meaning of one effect for one
    answer of the environment, and [execute] the execution of a Node along a schedule
    that chooses which of its concurrent tasks moves, what every answer is, when it
    is told to stop, and where the process dies.  A thrown error is a value. *)

From S2P Require Import Prelude JsLib Json Schemas MissionEvents DeliveryOperations HostEvents JsonValue.
From S2P Require Import TurnInput NodePolicy RuntimeAuthority RuntimeAuthorityFactory Journal.
Local Open Scope Z_scope.

(** ** Errors *)
Inductive ErrorClass :=
| E_relay (status : Z) (code : string) (available_at : option string)   (* [RelayHttpError] *)
| E_authority_lost          (* [AuthorityLostError] *)
| E_completion_rejected     (* [CompletionRejectedError], which extends it *)
| E_completion_unknown      (* [CompletionOutcomeUnknownError] *)
| E_shutdown                (* [NodeShutdownError] *)
| E_transition_pending      (* [RuntimeAuthorityTransitionPendingError] *)
| E_denied (code : RuntimeAuthorityDenyCode)   (* [RuntimeAuthorityDeniedError] *)
| E_policy (code : PolicyErrorCode)
| E_preflight (code : string)
| E_acceptance (code : string)   (* [MissionAcceptanceValidationError] *)
| E_journal (e : JournalError)
| E_code (code : string)           (* another error with a [code] *)
| E_other.
Record NodeError := { er_class : ErrorClass; er_message : string }.
Definition error_of (c : ErrorClass) (message : string) : NodeError :=
  {| er_class := c; er_message := message |}.
Definition plain_error : string -> NodeError := error_of E_other.
Definition safeError (e : NodeError) : string := String.substring 0 2000 e.(er_message).

(** ** Requests to the Relay *)
Inductive RelayRequest : Type -> Type :=
| RqMe : RelayRequest NodeDescriptor
| RqRegisterWorkspace (input : WorkspaceRegistrationInput) : RelayRequest WorkspaceBindingDescriptor
| RqListAssignments (status : MissionStatus) (afterCursor : option string) (limit : Z)
    : RelayRequest NodeMissionAssignmentList
| RqGetAssignment (missionId : string) : RelayRequest NodeMissionAssignment
| RqAcceptAssignment (missionId : string) (input : MissionParticipantAcceptanceInput)
    : RelayRequest MissionParticipantAcceptanceResult
| RqPollDeliveries (afterCursor : option string) : RelayRequest StoredMissionDeliveryCursorPage
| RqRecoverDeliveries : RelayRequest RecoverableMissionDeliveryPage
| RqClaim (deliveryId : string) (input : DeliveryClaimInput) : RelayRequest DeliveryClaimResult
| RqStart (deliveryId : string) (input : LeaseOperationInput) : RelayRequest DeliveryOperationResult
| RqRenew (deliveryId : string) (input : LeaseOperationInput) : RelayRequest DeliveryOperationResult
| RqComplete (deliveryId : string) (input : DeliveryCompleteInput) : RelayRequest DeliveryCompleteResult
| RqRelease (deliveryId : string) (input : DeliveryReleaseInput) : RelayRequest DeliveryOperationResult.

(** A JSON body, as the value it would be read as. *)
Inductive RelayBody :=
| B_node (node : NodeDescriptor)
| B_workspace (workspace : WorkspaceBindingDescriptor)
| B_assignments (page : NodeMissionAssignmentList)
| B_assignment (mission : NodeMissionAssignment)
| B_acceptance (result : MissionParticipantAcceptanceResult)
| B_page (page : StoredMissionDeliveryCursorPage)
| B_recoverable (page : RecoverableMissionDeliveryPage)
| B_claim (result : DeliveryClaimResult)
| B_operation (result : DeliveryOperationResult)
| B_complete (result : DeliveryCompleteResult)
| B_other.

(** What the network answers: a 2xx body, another status with what [relayError] makes of
    its body, or nothing that can be read. *)
Inductive RelayReply :=
| R_body (body : RelayBody)
| R_status (status : Z) (code message : string) (available_at : option string)
| R_lost (message : string).

Section Parsing.
Context `{Zod}.

(** [uuidSchema.parse] in the path. *)
Definition request_path {A} (r : RelayRequest A) : bool :=
  match r with
  | RqGetAssignment id | RqAcceptAssignment id _ | RqClaim id _ | RqStart id _ | RqRenew id _
  | RqComplete id _ | RqRelease id _ => uuidSchema id
  | _ => true
  end.

(** [schema.parse(await response.json())] *)
Definition parse_body {A} (r : RelayRequest A) (body : RelayBody) : option A :=
  match r in RelayRequest A return option A with
  | RqMe => match body with B_node x => checked nodeDescriptorSchema x | _ => None end
  | RqRegisterWorkspace _ =>
      match body with B_workspace x => checked workspaceBindingDescriptorSchema x | _ => None end
  | RqListAssignments _ _ _ =>
      match body with B_assignments x => checked nodeMissionAssignmentListSchema x | _ => None end
  | RqGetAssignment _ =>
      match body with B_assignment x => checked nodeMissionAssignmentSchema x | _ => None end
  | RqAcceptAssignment _ _ =>
      match body with B_acceptance x => checked missionParticipantAcceptanceResultSchema x | _ => None end
  | RqPollDeliveries _ =>
      match body with B_page x => checked storedMissionDeliveryCursorPageSchema x | _ => None end
  | RqRecoverDeliveries =>
      match body with B_recoverable x => checked recoverableMissionDeliveryPageSchema x | _ => None end
  | RqClaim _ _ => match body with B_claim x => checked deliveryClaimResultSchema x | _ => None end
  | RqStart _ _ => match body with B_operation x => checked (resultOf Op_start) x | _ => None end
  | RqRenew _ _ => match body with B_operation x => checked (resultOf Op_renew) x | _ => None end
  | RqComplete _ _ => match body with B_complete x => checked deliveryCompleteResultSchema x | _ => None end
  | RqRelease _ _ => match body with B_operation x => checked (resultOf Op_release) x | _ => None end
  end.
End Parsing.

(** ** Calls of the agent host and of the authority port *)
Inductive HostCall : Type -> Type :=
| Probe : HostCall AdapterInfo
| EnsureSession (input : SessionInput) : HostCall HostSessionRef
| LookupTurn (deliveryId : string) (executionAttempt : Z) : HostCall (option HostTurnRef)
| StartTurn (input : StartTurnInput) : HostCall unit
| RecoverTurn (turn : HostTurnRef) (input : StartTurnInput) : HostCall unit
| NextEvent : HostCall (option HostEvent)     (* [iterator.next()]; [None] is [done] *)
| CancelTurn (turn : HostTurnRef) : HostCall unit.
Inductive HostValue :=
| H_info (info : AdapterInfo) | H_session (session : HostSessionRef)
| H_turn (turn : option HostTurnRef) | H_event (event : option HostEvent) | H_done.
Definition host_value {A} (c : HostCall A) (v : HostValue) : option A :=
  match c in HostCall A return option A with
  | Probe => match v with H_info x => Some x | _ => None end
  | EnsureSession _ => match v with H_session x => Some x | _ => None end
  | LookupTurn _ _ => match v with H_turn x => Some x | _ => None end
  | NextEvent => match v with H_event x => Some x | _ => None end
  | StartTurn _ | RecoverTurn _ _ | CancelTurn _ => match v with H_done => Some tt | _ => None end
  end.

Inductive PortCall :=
| InstallAuthority (grant : RuntimeAuthorityGrant) (currentLease : RuntimeAuthorityRenewal)
| AssertAuthority (request : RuntimeAuthorityRequest)
| RenewAuthority (missionId : string) (renewal : RuntimeAuthorityRenewal)
| RevokeAuthority (grant : RuntimeAuthorityGrant) (reason : RuntimeAuthorityDenyCode).

(** ** The variables of one process *)

(** The lease synchronizer; [sy_tail] is the end of its queue: free, taken, or rejected. *)
Inductive Tail := T_free | T_taken | T_rejected (error : NodeError).
Record Synchronizer := {
  sy_session : option nat; sy_pending : option DeliveryLease; sy_bound : bool; sy_tail : Tail }.

(** The captured variables of [process], the fields of its lease keeper, and the
    monitors of the sessions that were opened; a session is the index of its monitor. *)
Record Locals := {
  lc_authority : option nat;
  lc_hostTurn : option HostTurnRef;
  lc_cancellation : bool;
  lc_sync : Synchronizer;
  lc_stop : bool;
  lc_failure : option NodeError;
  lc_monitors : list Monitor }.
#[export] Instance Synchronizer_eta : Settable Synchronizer := fun s =>
  Build_Synchronizer s.(sy_session) s.(sy_pending) s.(sy_bound) s.(sy_tail).
#[export] Instance Locals_eta : Settable Locals := fun l =>
  Build_Locals l.(lc_authority) l.(lc_hostTurn) l.(lc_cancellation) l.(lc_sync) l.(lc_stop)
    l.(lc_failure) l.(lc_monitors).
Definition new_synchronizer : Synchronizer :=
  {| sy_session := None; sy_pending := None; sy_bound := false; sy_tail := T_free |}.
Definition new_locals : Locals := {|
  lc_authority := None; lc_hostTurn := None; lc_cancellation := false; lc_sync := new_synchronizer;
  lc_stop := false; lc_failure := None; lc_monitors := [] |}.

(** [signal.aborted] of a session. *)
Definition session_reason (l : Locals) (session : nat) : option RuntimeAuthorityDenyCode :=
  l.(lc_monitors) !! session ≫= mon_revoked.

(** ** Effects *)
Inductive DeliveryCheckpoint :=
| CP_claim_intent | CP_claimed | CP_start_intent | CP_relay_executing | CP_host_accepted
| CP_host_terminal | CP_complete_intent | CP_acknowledged | CP_release_intent | CP_release_recorded.

(** The signals a call listens to. *)
Inductive Signals := S_none | S_shutdown | S_session (session : nat) | S_any (session : nat).

(** Two readings of the clock and a random id, for a block that uses them. *)
Record Clock := { cl_now : option Z; cl_later : option Z; cl_uuid : string }.

(** What ends a race: the call, the keeper's failure, or a signal. *)
Inductive Race (A : Type) :=
| Finished (r : result NodeError A) | KeeperFailed | ShutDown | AuthorityGone.
Arguments Finished {A} r.
Arguments KeeperFailed {A}.
Arguments ShutDown {A}.
Arguments AuthorityGone {A}.

Inductive Op : Type -> Type :=
| Snapshot : Op NodeJournalState
| OnJournal {A} (m : Z -> Z -> Mutation A) : Op (result NodeError A)
| Now : Op Z
| Monotonic : Op Z                       (* in microseconds *)
| Aborted (s : Signals) : Op bool
| Reached (c : DeliveryCheckpoint) (deliveryId : string) : Op unit
| Send {A} (r : RelayRequest A) : Op unit
| Receive {A} (r : RelayRequest A) : Op RelayReply
| Backoff (milliseconds : Z) (s : Signals) : Op (result NodeError unit)
| Host {A} (c : HostCall A) : Op (result NodeError A)
| RaceHost {A} (c : HostCall A) (session : option nat) : Op (Race A)
| Preflight (workspace : WorkspaceConfig) (participant : Participant)
    : Op (result NodeError WorkspacePreflightResult)
| Port (c : PortCall) : Op (result NodeError unit)
| Local {A} (f : Clock -> Locals -> option (A * Locals)) : Op A   (* [None]: it waits *)
| KeeperDelay (til : Z) : Op bool        (* [true]: the keeper was told to stop *)
| KeeperJoin : Op unit.

(** Two kinds of task run beside the main one: the lease keeper, and a cancellation
    that the caller no longer waits for. *)
Inductive Task := T_keeper | T_background.

Inductive Prog (A : Type) : Type :=
| Ret (a : A)
| Act {X : Type} (o : Op X) (k : X -> Prog A)
| Fork (t : Task) (child : Prog unit) (k : Prog A).
Arguments Ret {A} a.
Arguments Act {A X} o k.
Arguments Fork {A} t child k.

Fixpoint bind {A B : Type} (p : Prog A) (f : A -> Prog B) : Prog B :=
  match p with
  | Ret a => f a
  | Act o k => Act o (fun x => bind (k x) f)
  | Fork t child k => Fork t child (bind k f)
  end.
Definition act {X : Type} (o : Op X) : Prog X := Act o Ret.
Definition fork (t : Task) (child : Prog unit) : Prog unit := Fork t child (Ret tt).

(** Programs that may throw. *)
Definition M (A : Type) : Type := Prog (result NodeError A).
Definition ok {A} (a : A) : M A := Ret (Ok a).
Definition raise {A} (e : NodeError) : M A := Ret (Err e).
Definition lift {A} (r : result NodeError A) : M A := Ret r.
Definition try_catch {A} (p : M A) (handler : NodeError -> M A) : M A :=
  bind p (fun r => match r with Ok a => ok a | Err e => handler e end).

Declare Scope prog_scope.
Delimit Scope prog_scope with prog.
#[global] Open Scope prog_scope.
Notation "'act!' x := p 'in' k" := (bind p (fun x => k))
  (at level 10, x pattern, p at level 100, k at level 200) : prog_scope.
Notation "'let!' x := p 'in' k" :=
  (bind p (fun r => match r with Ok x => k | Err e => raise e end))
  (at level 10, x pattern, p at level 100, k at level 200) : prog_scope.
Notation "'raise!' e 'when' c 'in' k" := (if c then raise e else k)
  (at level 10, e at level 9, c at level 100, k at level 200) : prog_scope.
(** A stage that says whether to go on. *)
Notation "'go!' p 'in' k" :=
  (bind p (fun r => match r with Ok true => k | Ok false => ok tt | Err e => raise e end))
  (at level 10, p at level 100, k at level 200) : prog_scope.

(** ** Common blocks *)
Definition update_locals (f : Locals -> Locals) : Prog unit :=
  act (Local (fun _ l => Some (tt, f l))).
Definition read_locals {A} (f : Locals -> A) : Prog A := act (Local (fun _ l => Some (f l, l))).
(** A loop that has used up its fuel waits for ever. *)
Definition stuck {A} : Prog A := act (Local (fun _ _ => None)).

Definition abort_error : NodeError := plain_error "This operation was aborted".
(** [signal?.throwIfAborted()] *)
Definition throwIfAborted (s : Signals) : M unit :=
  act! aborted := act (Aborted s) in if aborted then raise abort_error else ok tt.

(** ** [request] *)
Definition relay_error (status : Z) (code message : string) (available_at : option string) : NodeError :=
  error_of (E_relay status code available_at)
    ("Relay " +:+ string_of_int status +:+ " " +:+ code +:+ ": " +:+ message).
Definition refused_below_500 (e : NodeError) : bool :=
  match e.(er_class) with E_relay status _ _ => status <? 500 | _ => false end.

Section Request.
Context `{Zod}.

(** What one fetch throws or returns, and whether it was thrown inside the [try]. *)
Definition read_reply {A} (r : RelayRequest A) (reply : RelayReply) : result NodeError A :=
  match reply with
  | R_body body =>
      match parse_body r body with Some a => Ok a | None => Err (plain_error "Invalid Relay response") end
  | R_status status code message available_at => Err (relay_error status code message available_at)
  | R_lost message => Err (plain_error message)
  end.

(** The loop, with [remaining] attempts after this one; [attempt] counts from one. *)
Fixpoint request_attempts {A} (r : RelayRequest A) (s : Signals) (backoffBaseMs attempt : Z) (remaining : nat)
    : M A :=
  let! _ := throwIfAborted s in
  act! _ := act (Send r) in
  act! reply := act (Receive r) in
  match read_reply r reply with
  | Ok a => ok a
  | Err e =>
      (* a status from 500 is not thrown before the last attempt *)
      let thrown := match e.(er_class) with
                    | E_relay status _ _ => (status <? 500) || (remaining =? 0)%nat
                    | _ => true
                    end in
      act! aborted := (if thrown then act (Aborted s) else Ret false) in
      raise! abort_error when aborted in
      match remaining with
      | O => raise e
      | S remaining =>
          raise! e when refused_below_500 e in
          let! _ := act (Backoff (backoffBaseMs * 4 ^ (attempt - 1)) s) in
          request_attempts r s backoffBaseMs (attempt + 1) remaining
      end
  end.

(** The defaults: three attempts, 100 ms. *)
Definition request {A} (r : RelayRequest A) (s : Signals) : M A :=
  if request_path r then request_attempts r s 100 1 2
  else raise (plain_error "Invalid id in a Relay path").
End Request.

(** ** The world *)

(** What can be seen of a Node: what it sends and is answered, what it asks of its
    host, its checks of a workspace, its checkpoints, the grants whose revocation the
    runtime confirmed, and every state its disk held. *)
Inductive Logged :=
| L_sent {A} (r : RelayRequest A)
| L_answered {A} (r : RelayRequest A) (a : A)
| L_host {A} (c : HostCall A)
| L_preflight (workspace : WorkspaceConfig) (participant : Participant)
| L_reached (c : DeliveryCheckpoint) (deliveryId : string)
| L_retired (grant : RuntimeAuthorityGrant)
| L_saved (s : NodeJournalState).

(** [wd_log] is newest first, each entry with the journal's state at that moment. *)
Record World := {
  wd_journal : NodeJournal;
  wd_aborted : bool;
  wd_locals : Locals;
  wd_keeper_done : bool;
  wd_log : list (Logged * NodeJournalState) }.
#[export] Instance World_eta : Settable World := fun w =>
  Build_World w.(wd_journal) w.(wd_aborted) w.(wd_locals) w.(wd_keeper_done) w.(wd_log).

Definition memory (w : World) : NodeJournalState := w.(wd_journal).(nj_memory).
Definition log (e : Logged) (w : World) : World :=
  w <| wd_log := (e, memory w) :: w.(wd_log) |>.

(** What the environment answers to one effect. *)
Inductive Input :=
| In_none
| In_save (now later : Z) (save : SaveOutcome) (message : string)
| In_time (t : Z)
| In_clock (c : Clock)
| In_reply (r : RelayReply)
| In_error (e : NodeError)
| In_host (v : HostValue)
| In_preflight (r : WorkspacePreflightResult)
| In_keeper_failed | In_shut_down | In_authority_gone.

Section Semantics.
Context `{Zod, NodeJs}.

Definition aborted_in (s : Signals) (w : World) : bool :=
  match s with
  | S_none => false
  | S_shutdown => w.(wd_aborted)
  | S_session session => non_null (session_reason w.(wd_locals) session)
  | S_any session => w.(wd_aborted) || non_null (session_reason w.(wd_locals) session)
  end.

Definition answered {A} (r : RelayRequest A) (reply : RelayReply) (w : World) : World :=
  match read_reply r reply with Ok a => log (L_answered r a) w | Err _ => w end.

(** One effect with one answer; [None] where the answer does not fit or the task waits. *)
Definition sem {X} (o : Op X) (i : Input) (w : World) : option (X * World) :=
  match o in Op X return option (X * World) with
  | Snapshot => match i with In_none => Some (memory w, w) | _ => None end
  | OnJournal m =>
      match i with
      | In_save now later save message =>
          let '(j, r) := update (m now later) save w.(wd_journal) in
          Some (match r with Ok a => Ok a | Err e => Err (error_of (E_journal e) message) end,
                log (L_saved j.(nj_disk)) (w <| wd_journal := j |>))
      | _ => None
      end
  | Now | Monotonic => match i with In_time t => Some (t, w) | _ => None end
  | Aborted s => match i with In_none => Some (aborted_in s w, w) | _ => None end
  | Reached c deliveryId => match i with In_none => Some (tt, log (L_reached c deliveryId) w) | _ => None end
  | Send r => match i with In_none => Some (tt, log (L_sent r) w) | _ => None end
  | Receive r => match i with In_reply reply => Some (reply, answered r reply w) | _ => None end
  | Backoff _ s =>
      match i with
      | In_none => Some (Ok tt, w)
      | In_error e => if aborted_in s w then Some (Err abort_error, w) else None
      | _ => None
      end
  | Host c =>
      match i with
      | In_host v => a ← host_value c v; Some (Ok a, log (L_host c) w)
      | In_error e => Some (Err (plain_error e.(er_message)), log (L_host c) w)
      | _ => None
      end
  | RaceHost c session =>
      match i with
      | In_host v => a ← host_value c v; Some (Finished (Ok a), log (L_host c) w)
      | In_error e => Some (Finished (Err (plain_error e.(er_message))), log (L_host c) w)
      | In_keeper_failed =>
          if non_null w.(wd_locals).(lc_failure) then Some (KeeperFailed, log (L_host c) w) else None
      | In_shut_down => if w.(wd_aborted) then Some (ShutDown, log (L_host c) w) else None
      | In_authority_gone =>
          if non_null (session ≫= session_reason w.(wd_locals))
          then Some (AuthorityGone, log (L_host c) w) else None
      | _ => None
      end
  | Preflight workspace participant =>
      match i with
      | In_preflight r => Some (Ok r, log (L_preflight workspace participant) w)
      | In_error e => Some (Err (error_of (E_preflight e.(er_message)) e.(er_message)), w)
      | _ => None
      end
  | Port c =>
      match i with
      | In_none => Some (Ok tt, match c with RevokeAuthority grant _ => log (L_retired grant) w | _ => w end)
      | In_error e =>
          Some (Err (match e.(er_class) with
                     | E_denied _ | E_code _ => e
                     | _ => plain_error e.(er_message)
                     end), w)
      | _ => None
      end
  | Local f =>
      match i with
      | In_clock c => '(a, l) ← f c w.(wd_locals); Some (a, w <| wd_locals := l |>)
      | _ => None
      end
  | KeeperDelay _ =>
      match i with
      | In_none => Some (false, w)
      | In_shut_down => if w.(wd_locals).(lc_stop) then Some (true, w) else None
      | _ => None
      end
  | KeeperJoin => match i with In_none => if w.(wd_keeper_done) then Some (tt, w) else None | _ => None end
  end.

(** ** A Node at work *)
Record Config := {
  cf_world : World;
  cf_main : Prog unit;
  cf_keeper : Prog unit;
  cf_background : list (Prog unit) }.

Definition is_done (p : Prog unit) : bool := match p with Ret _ => true | _ => false end.

(** Where a task stands after one of its effects; a task it starts is the second part.
    [start()] of a keeper is not reached while another one runs. *)
Definition advance (p : Prog unit) (i : Input) (w : World)
    : option (Prog unit * option (Task * Prog unit) * World) :=
  match p with
  | Ret _ => None
  | Act o k => '(x, w') ← sem o i w; Some (k x, None, w')
  | Fork t child k => Some (k, Some (t, child), w)
  end.
Definition start_task (t : option (Task * Prog unit)) (c : Config) : option Config :=
  match t with
  | None => Some c
  | Some (T_background, child) =>
      Some {| cf_world := c.(cf_world); cf_main := c.(cf_main); cf_keeper := c.(cf_keeper);
              cf_background := c.(cf_background) ++ [child] |}
  | Some (T_keeper, child) =>
      if is_done c.(cf_keeper) then
        Some {| cf_world := c.(cf_world) <| wd_keeper_done := is_done child |>; cf_main := c.(cf_main);
                cf_keeper := child; cf_background := c.(cf_background) |}
      else None
  end.

(** A schedule says who moves and what is answered; [Restart] is the death of the
    process, whenever it comes, and its start on what the disk holds. *)
Inductive Turn :=
| Main (i : Input)
| Keeper (i : Input)
| Background (n : nat) (i : Input)
| Shutdown
| Timer (session : nat) (fired now : option Z)
| Restart.

Section Running.
Variable program : Prog unit.

Definition boot (j : NodeJournal) (trace : list (Logged * NodeJournalState)) : Config := {|
  cf_world := {| wd_journal := j; wd_aborted := false; wd_locals := new_locals; wd_keeper_done := true;
                 wd_log := trace |};
  cf_main := program; cf_keeper := Ret tt; cf_background := [] |}.

Definition step (t : Turn) (c : Config) : option Config :=
  let w := c.(cf_world) in
  match t with
  | Main i =>
      '(p, child, w') ← advance c.(cf_main) i w;
      start_task child {| cf_world := w'; cf_main := p; cf_keeper := c.(cf_keeper);
                          cf_background := c.(cf_background) |}
  | Keeper i =>
      '(p, child, w') ← advance c.(cf_keeper) i w;
      start_task child {| cf_world := w' <| wd_keeper_done := is_done p |>; cf_main := c.(cf_main);
                          cf_keeper := p; cf_background := c.(cf_background) |}
  | Background n i =>
      p ← c.(cf_background) !! n;
      '(p', child, w') ← advance p i w;
      start_task child {| cf_world := w'; cf_main := c.(cf_main); cf_keeper := c.(cf_keeper);
                          cf_background := <[n := p']> c.(cf_background) |}
  | Shutdown =>
      Some {| cf_world := w <| wd_aborted := true |>; cf_main := c.(cf_main); cf_keeper := c.(cf_keeper);
              cf_background := c.(cf_background) |}
  | Timer session fired now =>
      m ← w.(wd_locals).(lc_monitors) !! session;
      let l := w.(wd_locals) in
      Some {| cf_world := w <| wd_locals := l <| lc_monitors := <[session := timer_fires fired now m]>
                                 l.(lc_monitors) |> |>;
              cf_main := c.(cf_main); cf_keeper := c.(cf_keeper); cf_background := c.(cf_background) |}
  | Restart => j ← open w.(wd_journal).(nj_disk); Some (boot j w.(wd_log))
  end.

Fixpoint execute (schedule : list Turn) (c : Config) : option Config :=
  match schedule with [] => Some c | t :: schedule => c ← step t c; execute schedule c end.

(** A Node that starts with no journal: the empty state is saved first. *)
Definition first_boot : Config :=
  boot {| nj_memory := empty_state; nj_disk := empty_state |} [(L_saved empty_state, empty_state)].
End Running.
End Semantics.
