(* ===== verification/NodeAuthority.v ===== *)
(** * The authority of an execution, across processes

    node/src/runtime-authority-session.ts, runtime-authority-lease-synchronizer.ts and
    delivery-runtime-authority.ts: how the Node installs the grant of one execution in
    the runtime, keeps its lease in step with the Relay's, and retires it before the
    journal forgets it. *)

From S2P Require Import Prelude JsLib Json Schemas MissionEvents DeliveryOperations HostEvents JsonValue.
From S2P Require Import TurnInput NodePolicy RuntimeAuthority RuntimeAuthorityFactory Journal NodeProgram.
Local Open Scope Z_scope.

Definition deny_code_name (c : RuntimeAuthorityDenyCode) : string :=
  match c with
  | invalid_request => "invalid_request" | wrong_grant => "wrong_grant" | wrong_agent => "wrong_agent"
  | wrong_node => "wrong_node" | wrong_workspace => "wrong_workspace"
  | wrong_resource => "wrong_resource" | wrong_mission => "wrong_mission"
  | wrong_delivery => "wrong_delivery" | wrong_attempt => "wrong_attempt" | wrong_lease => "wrong_lease"
  | stale_fence => "stale_fence" | policy_changed => "policy_changed" | expired => "expired"
  | revoked => "revoked" | capability_missing => "capability_missing"
  | budget_exceeded => "budget_exceeded" | product_denied => "product_denied"
  end.
Definition denied_error (code : RuntimeAuthorityDenyCode) : NodeError :=
  error_of (E_denied code) ("Runtime authority denied: " +:+ deny_code_name code).
Definition denying {A} (r : result RuntimeAuthorityDenyCode A) : result NodeError A :=
  match r with Ok a => Ok a | Err code => Err (denied_error code) end.
Definition denialReason (e : NodeError) : RuntimeAuthorityDenyCode :=
  match e.(er_class) with E_denied code => code | _ => revoked end.
Definition isExpiredDenial (e : NodeError) : bool :=
  match e.(er_class) with
  | E_denied expired => true
  | E_code code => (code === "authority_denied") && (e.(er_message) === "Runtime authority denied: expired")
  | _ => false
  end.

(** A session is its monitor and the grant it was opened with. *)
Record Session := { ss_id : nat; ss_grant : RuntimeAuthorityGrant }.

Section Sessions.
Context `{Zod, NodeJs}.

(** A synchronous block on the session's monitor. *)
Definition on_monitor {A} (session : nat) (f : Clock -> Monitor -> Monitor * A) : Prog A :=
  act (Local (fun c l =>
    m ← l.(lc_monitors) !! session;
    let '(m', a) := f c m in
    Some (a, l <| lc_monitors := <[session := m']> l.(lc_monitors) |>))).
Definition revokeLocal (session : nat) (reason : RuntimeAuthorityDenyCode) : Prog unit :=
  on_monitor session (fun _ m => (revoke reason m, tt)).
Definition session_signal (session : nat) : Prog (option RuntimeAuthorityDenyCode) :=
  read_locals (fun l => session_reason l session).

(** A port call whose failure is swallowed. *)
Definition revokeRemote (grant : RuntimeAuthorityGrant) (reason : RuntimeAuthorityDenyCode) : Prog unit :=
  act! _ := act (Port (RevokeAuthority grant reason)) in Ret tt.

(** [session.revoke(reason)] *)
Definition revoke_session (s : Session) (reason : RuntimeAuthorityDenyCode) : M unit :=
  act! _ := revokeLocal s.(ss_id) reason in act (Port (RevokeAuthority s.(ss_grant) reason)).

(** The constructor of a session: [LocalReferenceMonitor] over the grant. *)
Definition open_session (grant : RuntimeAuthorityGrant) (currentLease : RuntimeAuthorityRenewal) : M Session :=
  act (Local (fun c l =>
    match new_monitor grant (Some currentLease) c.(cl_now) with
    | Ok m => Some (Ok {| ss_id := length l.(lc_monitors); ss_grant := m.(mon_grant) |},
                    l <| lc_monitors := l.(lc_monitors) ++ [m] |>)
    | Err GrantInvalid => Some (Err (plain_error "Invalid runtime authority grant"), l)
    | Err (Denied code) => Some (Err (denied_error code), l)
    end)).

Definition normalizedRenewal (grant : RuntimeAuthorityGrant) (currentExpiry : string)
    (value : RuntimeAuthorityRenewal) : result NodeError RuntimeAuthorityRenewal :=
  let* lease := denying (advanceRuntimeAuthorityLease grant currentExpiry value) in
  Ok {| rn_grant_id := value.(rn_grant_id); rn_lease_id := value.(rn_lease_id);
        rn_fencing_token := value.(rn_fencing_token); rn_lease_expires_at := lease |}.
Definition readLatestRenewal (grant : RuntimeAuthorityGrant) (readCurrentLease : M RuntimeAuthorityRenewal)
    (currentLease : RuntimeAuthorityRenewal) : M RuntimeAuthorityRenewal :=
  let! latest := readCurrentLease in
  lift (normalizedRenewal grant currentLease.(rn_lease_expires_at) latest).
Definition assertLeaseLive (grant : RuntimeAuthorityGrant) (lease : RuntimeAuthorityRenewal) : M unit :=
  act! now := act Now in
  raise! (denied_error expired) when
    num_ge (Some now) (Date_parse lease.(rn_lease_expires_at)) ||
    num_ge (Some now) (Date_parse grant.(gr_input).(gi_hard_expires_at)) in
  ok tt.
Definition leaseAdvanced (left right : RuntimeAuthorityRenewal) : bool :=
  num_gt (Date_parse right.(rn_lease_expires_at)) (Date_parse left.(rn_lease_expires_at)).

(** The loop of [install]; with what is thrown comes the session that was opened. *)
Fixpoint install_attempts (grant : RuntimeAuthorityGrant) (readCurrentLease : M RuntimeAuthorityRenewal)
    (beforeReady : Session -> M unit) (attempts : nat) (currentLease : RuntimeAuthorityRenewal)
    : Prog (result (NodeError * option Session) Session) :=
  let thrown (e : NodeError) := Ret (Err (e, None)) in
  match attempts with
  | O => thrown (plain_error "Runtime authority lease did not stabilize during installation")
  | S attempts =>
      act! installed := act (Port (InstallAuthority grant currentLease)) in
      act! read := readLatestRenewal grant readCurrentLease currentLease in
      match read with
      | Err e => thrown e
      | Ok latest =>
          let advanced := leaseAdvanced currentLease latest in
          let refused := match installed with Ok _ => None | Err e => Some e end in
          let relinquish := match refused with
                         | Some e => negb advanced && negb (isExpiredDenial e)
                         | None => false
                         end in
          if relinquish then thrown (default (plain_error "") refused) else
          act! live := assertLeaseLive grant latest in
          match live with
          | Err e => thrown e
          | Ok _ =>
              if non_null refused || advanced
              then install_attempts grant readCurrentLease beforeReady attempts latest
              else
                act! opened := open_session grant latest in
                match opened with
                | Err e => thrown e
                | Ok session =>
                    act! ready := beforeReady session in
                    match ready with
                    | Err e => Ret (Err (e, Some session))
                    | Ok _ =>
                        act! aborted := session_signal session.(ss_id) in
                        if non_null aborted then Ret (Err (denied_error expired, Some session))
                        else Ret (Ok session)
                    end
                end
          end
      end
  end.

(** [NodeRuntimeAuthoritySession.install] *)
Definition install_session (grant : RuntimeAuthorityGrant) (currentLeaseInput : RuntimeAuthorityRenewal)
    (readCurrentLease : M RuntimeAuthorityRenewal) (beforeReady : Session -> M unit) : M Session :=
  let! currentLease :=
    lift (normalizedRenewal grant grant.(gr_input).(gi_lease_expires_at) currentLeaseInput) in
  let! _ := assertLeaseLive grant currentLease in
  act! r := install_attempts grant readCurrentLease beforeReady 8 currentLease in
  match r with
  | Ok session => ok session
  | Err (e, session) =>
      let reason := denialReason e in
      act! _ := match session with Some s => revokeLocal s.(ss_id) reason | None => Ret tt end in
      act! _ := revokeRemote grant reason in
      raise e
  end.

(** [session.renew(renewal)] *)
Definition renew_failed (s : Session) (e : NodeError) : M unit :=
  let reason := denialReason e in
  act! _ := revokeLocal s.(ss_id) reason in
  act! _ := revokeRemote s.(ss_grant) reason in
  raise e.
Definition renew_session (s : Session) (renewal : RuntimeAuthorityRenewal) : M unit :=
  act! renewed := on_monitor s.(ss_id) (fun c m =>
    let '(m', r) := RuntimeAuthority.renew renewal c.(cl_now) c.(cl_later) m in (m', denying r)) in
  match renewed with
  | Err e => renew_failed s e
  | Ok _ =>
      act! r := act (Port (RenewAuthority (gr_scope s.(ss_grant)).(sc_mission_id) renewal)) in
      match r with Ok _ => ok tt | Err e => renew_failed s e end
  end.

(** [session.perform(request, effect)] up to its effect. *)
Definition perform_admitted (s : Session) (request : RuntimeAuthorityRequest) : M unit :=
  let! _ := on_monitor s.(ss_id) (fun c m =>
    let '(m', _, r) := perform_decision (Some request) c.(cl_uuid) c.(cl_now) c.(cl_later) true m in
    (m', match r with
         | Ok _ => Ok tt
         | Err (PerformDenied code) => Err (denied_error code)
         | Err EvidenceNotRecorded => Err (plain_error "Invalid runtime authority evidence")
         end)) in
  let check := on_monitor s.(ss_id) (fun c m =>
    let '(m', r) := perform_effect (Some request) c.(cl_now) m in (m', denying r)) in
  let! _ := check in
  act! asserted := act (Port (AssertAuthority request)) in
  match asserted with
  | Err e => act! _ := revokeLocal s.(ss_id) (denialReason e) in raise e
  | Ok _ => check
  end.

(** ** [RuntimeAuthorityLeaseSynchronizer] *)
Definition update_sync (f : Synchronizer -> Synchronizer) : Prog unit :=
  update_locals (fun l => l <| lc_sync := f l.(lc_sync) |>).
Definition sync_error (e : NodeError) : NodeError :=
  plain_error ("Runtime lease renewal was not confirmed: " +:+ safeError e).

(** What [forward] finds when it is called. *)
Inductive Forwarding := Buffered | NoSession | Forward (session : nat).
(** The part of [forward] that waits for the queue. *)
Definition forward_queued (session : nat) (lease : DeliveryLease) : M unit :=
  let! grant := act (Local (fun _ l =>
    match l.(lc_sync).(sy_tail) with
    | T_taken => None
    | T_rejected e => Some (Err e, l)
    | T_free =>
        m ← l.(lc_monitors) !! session;
        Some (Ok m.(mon_grant), l <| lc_sync := l.(lc_sync) <| sy_tail := T_taken |> |>)
    end)) in
  act! r := renew_session {| ss_id := session; ss_grant := grant |} {|
    rn_grant_id := (gr_scope grant).(sc_grant_id); rn_lease_id := lease.(lease_lease_id);
    rn_fencing_token := lease.(lease_fencing_token); rn_lease_expires_at := lease.(lease_expires_at) |} in
  match r with
  | Ok _ => act! _ := update_sync (fun s => s <| sy_tail := T_free |>) in ok tt
  | Err e =>
      act! _ := update_sync (fun s => s <| sy_tail := T_rejected (sync_error e) |>) in raise (sync_error e)
  end.
Definition forward (lease : DeliveryLease) : M unit :=
  act! f := act (Local (fun _ l =>
    let s := l.(lc_sync) in
    if negb s.(sy_bound) then Some (Buffered, l <| lc_sync := s <| sy_pending := Some lease |> |>)
    else Some (match s.(sy_session) with None => NoSession | Some session => Forward session end, l))) in
  match f with Buffered | NoSession => ok tt | Forward session => forward_queued session lease end.

(** [bind(session)]; the processor binds a session, never [null]. *)
Definition bind_session (session : nat) : M unit :=
  let! pending := act (Local (fun _ l =>
    let s := l.(lc_sync) in
    if s.(sy_bound) then Some (Err (plain_error "Runtime authority lease synchronizer is already bound"), l)
    else Some (Ok s.(sy_pending), l <| lc_sync := s <| sy_bound := true |> <| sy_session := Some session |>
                                                <| sy_pending := None |> |>))) in
  match pending with None => ok tt | Some lease => forward lease end.

(** ** [DeliveryRuntimeAuthority] *)
Record AuthorityInput := {
  ai_assignment : NodeMissionAssignment; ai_workspaceAlias : string;
  ai_workspace : WorkspacePreflightResult; ai_policy : ResolvedPolicyProfile;
  ai_adapter : AdapterInfo; ai_entry : JournalDelivery }.

(** [requireEntry], and the same under another name. *)
Definition requireEntry (deliveryId : string) : M JournalDelivery :=
  act! state := act Snapshot in
  lift match dict_get deliveryId state.(nj_deliveries) with
       | Some entry => Ok entry
       | None => Err (plain_error ("delivery is not journaled: " +:+ deliveryId))
       end.
Definition active_lease (delivery : Delivery) : option DeliveryLease :=
  if (delivery.(d_status) !== D_leased) && (delivery.(d_status) !== D_executing) then None
  else delivery.(d_lease).
Definition requireActiveLease (delivery : Delivery) : result NodeError DeliveryLease :=
  match active_lease delivery with
  | Some lease => Ok lease
  | None => Err (plain_error ("Delivery has no active authority lease: " +:+ delivery.(d_delivery_id)))
  end.

(** [updateDelivery] with a mutation that ends by setting [updated_at]. *)
Definition edit (deliveryId : string) (f : Z -> JournalDelivery -> result JournalError JournalDelivery)
    : M JournalDelivery :=
  act (OnJournal (fun now later => updateDelivery deliveryId (fun entry =>
    let* entry := f now entry in Ok (entry <| jd_updated_at := toISOString later |>)))).

Definition transition_pending (message : string) : NodeError := error_of E_transition_pending message.
Definition raced (e : NodeError) : bool :=
  match e.(er_class) with E_journal CheckpointRaced => true | _ => false end.

Definition retire_grants (active predecessor : option RuntimeAuthorityGrant) (entry : JournalDelivery)
    : result JournalError JournalDelivery :=
  throw CheckpointRaced when
    (entry.(jd_runtime_authority) !== active) || (entry.(jd_runtime_authority_predecessor) !== predecessor) in
  Ok (entry <| jd_runtime_authority := None |> <| jd_runtime_authority_predecessor := None |>).

(** [port] says whether the Node was given an authority port. *)
Fixpoint retire_attempts (port : bool) (deliveryId : string) (attempts : nat) : M unit :=
  match attempts with
  | O => raise (transition_pending "Runtime authority changed repeatedly during retirement")
  | S attempts =>
      let! current := requireEntry deliveryId in
      let active := current.(jd_runtime_authority) in
      let predecessor := current.(jd_runtime_authority_predecessor) in
      match match predecessor with Some g => Some g | None => active end with
      | None => ok tt
      | Some grant =>
          raise! (transition_pending "Journaled runtime authority has no local retirement port")
            when negb port in
          act! retired := act (Port (RevokeAuthority grant revoked)) in
          match retired with
          | Err e => raise (transition_pending ("Capsule retirement is not yet proven: " +:+ safeError e))
          | Ok _ =>
              act! edited := edit deliveryId (fun _ => retire_grants active predecessor) in
              match edited with
              | Ok _ => ok tt
              | Err e => if raced e then retire_attempts port deliveryId attempts else raise e
              end
          end
      end
  end.
Definition retireJournaled (port : bool) (deliveryId : string) : M unit := retire_attempts port deliveryId 4.

Definition authoritySeedDelivery (entry : JournalDelivery) (persisted : option RuntimeAuthorityGrant)
    : result NodeError Delivery :=
  let delivery := entry.(jd_item).(item_delivery) in
  match persisted with
  | None => Ok delivery
  | Some grant =>
      let* lease := requireActiveLease delivery in
      Ok (delivery <| d_lease := Some {|
        lease_lease_id := lease.(lease_lease_id); lease_fencing_token := lease.(lease_fencing_token);
        lease_expires_at := grant.(gr_input).(gi_lease_expires_at) |} |>)
  end.

Definition currentRenewal (grant : RuntimeAuthorityGrant) (entry : JournalDelivery)
    : result NodeError RuntimeAuthorityRenewal :=
  let* lease := requireActiveLease entry.(jd_item).(item_delivery) in
  throw (plain_error "Current Relay lease does not match persisted runtime authority") when
    (lease.(lease_lease_id) !== (gr_scope grant).(sc_lease_id)) ||
    (lease.(lease_fencing_token) !== (gr_scope grant).(sc_fencing_token)) in
  throw (plain_error "Current Relay lease is older than persisted runtime authority") when
    num_lt (Date_parse lease.(lease_expires_at)) (Date_parse grant.(gr_input).(gi_lease_expires_at)) in
  Ok {| rn_grant_id := (gr_scope grant).(sc_grant_id); rn_lease_id := lease.(lease_lease_id);
        rn_fencing_token := lease.(lease_fencing_token); rn_lease_expires_at := lease.(lease_expires_at) |}.

Definition grant_error (e : GrantError) : NodeError :=
  plain_error match e with
  | NoExecutingLease => "Runtime authority requires a fresh executing delivery lease"
  | InvalidTime => "Runtime authority time is invalid"
  | LeaseExpired => "Runtime authority lease has expired before activation"
  | IdentityMismatch => "Runtime authority identity does not match the executable delivery"
  | AuthorityExpired => "Runtime authority has expired before activation"
  | GrantRejected => "Invalid runtime authority grant"
  end.

Fixpoint resolve_attempts (nodeId : string) (input : AuthorityInput) (attempts : nat)
    : M RuntimeAuthorityGrant :=
  let deliveryId := input.(ai_entry).(jd_item).(item_delivery).(d_delivery_id) in
  match attempts with
  | O => raise (transition_pending "Runtime authority inputs did not stabilize before checkpoint")
  | S attempts =>
      let! first := requireEntry deliveryId in
      let! lease := lift (requireActiveLease first.(jd_item).(item_delivery)) in
      raise! (plain_error "Persisted runtime authority does not match the current Relay fence") when
        match first.(jd_runtime_authority) with
        | Some persisted => ((gr_scope persisted).(sc_lease_id) !== lease.(lease_lease_id)) ||
                            ((gr_scope persisted).(sc_fencing_token) !== lease.(lease_fencing_token))
        | None => false
        end in
      (* [None]: the authority changed while its predecessor was retired *)
      let! settled := match first.(jd_runtime_authority_predecessor) with
        | None => ok (Some first)
        | Some predecessor =>
            act! retired := act (Port (RevokeAuthority predecessor revoked)) in
            match retired with
            | Err e => raise (transition_pending
                ("Predecessor Capsule retirement is not yet proven: " +:+ safeError e))
            | Ok _ =>
                let! current := requireEntry deliveryId in
                ok (if non_null current.(jd_runtime_authority) ||
                       (grant_id_of current.(jd_runtime_authority_predecessor) !==
                        Some (gr_scope predecessor).(sc_grant_id))
                    then None else Some current)
            end
        end in
      match settled with
      | None => resolve_attempts nodeId input attempts
      | Some current =>
          let persisted := current.(jd_runtime_authority) in
          let predecessor := current.(jd_runtime_authority_predecessor) in
          let! lease := lift (requireActiveLease current.(jd_item).(item_delivery)) in
          let retained := match persisted with Some g => Some g | None => predecessor end in
          let! delivery := lift (authoritySeedDelivery current persisted) in
          act! now := act Now in
          match createRuntimeAuthorityGrant {|
            gf_assignment := input.(ai_assignment); gf_delivery := delivery;
            gf_executionAttempt := current.(jd_execution_attempt); gf_nodeId := nodeId;
            gf_workspaceAlias := input.(ai_workspaceAlias); gf_workspace := input.(ai_workspace);
            gf_policy := input.(ai_policy); gf_adapter := input.(ai_adapter); gf_now := Some now;
            gf_currentLeaseExpiresAt := Some lease.(lease_expires_at);
            gf_retainedHardExpiresAt := (fun g => g.(gr_input).(gi_hard_expires_at)) <$> retained |} with
          | Err e => raise (grant_error e)
          | Ok compiled =>
              match persisted with
              | Some grant =>
                  raise! (plain_error "Persisted runtime authority no longer matches trusted local inputs")
                    when grant !== compiled in
                  ok grant
              | None =>
                  act! stored := act (OnJournal (fun now _ =>
                    checkpointRuntimeAuthority deliveryId compiled now (Some {|
                      ce_lease_id := lease.(lease_lease_id); ce_fencing_token := lease.(lease_fencing_token);
                      ce_lease_expires_at := lease.(lease_expires_at); ce_active_grant_id := None;
                      ce_predecessor_grant_id := grant_id_of predecessor |}))) in
                  match stored with
                  | Ok _ => ok compiled
                  | Err e => if raced e then resolve_attempts nodeId input attempts else raise e
                  end
              end
          end
      end
  end.

(** [install(input, beforeReady)] of a Node with a port. *)
Definition install_authority (nodeId : string) (input : AuthorityInput) (beforeReady : Session -> M unit)
    : M Session :=
  let! grant := resolve_attempts nodeId input 4 in
  let deliveryId := (gr_scope grant).(sc_delivery_id) in
  let current := let! entry := requireEntry deliveryId in lift (currentRenewal grant entry) in
  let! currentLease := current in
  install_session grant currentLease current beforeReady.
End Sessions.
