(* ===== verification/Processor.v ===== *)
(** * The delivery processor

    node/src/delivery-processor.ts: how a Node works on one delivery, from the claim to
    the published result, with the lease keeper that renews its lease meanwhile.  Then
    mission-acceptance.ts, how it accepts the Missions it is asked to take part in, and
    daemon.ts, the loop that does both. *)

From S2P Require Import Prelude JsLib Json Schemas MissionEvents DeliveryOperations HostEvents JsonValue.
From S2P Require Import TurnInput CanonicalJson NodePolicy RuntimeAuthority RuntimeAuthorityFactory Journal NodeProgram NodeAuthority.
Local Open Scope Z_scope.

(** ** Configuration *)

(** The parts of the configuration the Node's work depends on; [nc_port] says whether it
    was given an authority port. *)
Record NodeConfig := {
  nc_node_id : string; nc_agent_id : string; nc_workspaces : Dict WorkspaceConfig;
  nc_policy_profiles : gmap string PolicyProfileConfig; nc_port : bool }.

Definition MIN_SAFE_LEASE_WINDOW_MS : Z := 100.

Definition authority_lost (message : string) : NodeError := error_of E_authority_lost message.
Definition shutdown_error : NodeError :=
  error_of E_shutdown "Node shutdown requested while a host turn was active".
(** [error instanceof AuthorityLostError] *)
Definition isAuthorityLost (e : NodeError) : bool :=
  match e.(er_class) with E_authority_lost | E_completion_rejected => true | _ => false end.
Definition isDefinitiveAuthorityLoss (e : NodeError) : bool :=
  match e.(er_class) with
  | E_relay status _ _ => (status =? 401) || (status =? 403) || (status =? 409)
  | _ => false
  end.
Definition retryAvailableAt (e : NodeError) : option string :=
  match e.(er_class) with
  | E_relay status code (Some available_at) =>
      if (status =? 409) && (code === "state_changed") && non_null (Date_parse available_at)
      then Some available_at else None
  | _ => None
  end.

(** ** What is read off a journaled delivery *)
Definition entry_delivery (e : JournalDelivery) : Delivery := e.(jd_item).(item_delivery).
Definition TERMINAL_PHASES : list JournalPhase := [JP_acknowledged; JP_dead_lettered; JP_authority_lost].
Definition isTerminal (e : JournalDelivery) : bool :=
  includes TERMINAL_PHASES e.(jd_phase) || ((entry_delivery e).(d_status) === D_acknowledged) ||
  ((entry_delivery e).(d_status) === D_cancelled) || ((entry_delivery e).(d_status) === D_dead_lettered).
Definition hasJournaledRuntimeAuthority (e : JournalDelivery) : bool :=
  non_null e.(jd_runtime_authority) || non_null e.(jd_runtime_authority_predecessor).
Definition isAvailable (e : JournalDelivery) (now : Z) : bool :=
  ((entry_delivery e).(d_status) !== D_stored) ||
  num_le (Date_parse (entry_delivery e).(d_available_at)) (Some now).
Definition journaledHostTurn (e : JournalDelivery) : option HostTurnRef :=
  he_turn <$> array_find (fun event => is_accepted event.(he_kind)) e.(jd_host_events).
Definition requireLease (delivery : Delivery) : result NodeError DeliveryLease :=
  match active_lease delivery with
  | Some lease => Ok lease
  | None => Err (authority_lost ("delivery has no active lease: " +:+ delivery.(d_delivery_id)))
  end.
Definition compareCursor (left right : string) : Z :=
  if slen left =? slen right
  then if left === right then 0 else if string_gtb right left then -1 else 1
  else if slen left <? slen right then -1 else 1.
Definition missionParticipant (assignment : NodeMissionAssignment) (agentId : string)
    : result NodeError Participant :=
  match array_find (fun candidate => candidate.(part_agent_id) === agentId)
          assignment.(nma_coordinator_config).(cfg_mission_context).(ctx_manifest).(man_participants) with
  | Some participant => Ok participant
  | None => Err (plain_error ("Agent is not a Mission participant: " +:+ agentId))
  end.

(** [array.slice(-n)] *)
Definition last_items {A} (n : Z) (l : list A) : list A := drop (length l - Z.to_nat n) l.

Section Reading.
Context `{Zod, NodeJs}.

(** [null] where [deriveHostMissionInputs] throws. *)
Definition startTurnInput (item : MissionDeliveryItem) (assignment : NodeMissionAssignment)
    (session : HostSessionRef) (executionAttempt : Z)
    : result NodeError (StartTurnInputOf HostArtifactPayloadInput) :=
  match deriveHostMissionInputs assignment.(nma_coordinator_config).(cfg_mission_context)
          assignment.(nma_participant_agent_id) with
  | Err _ => Err (plain_error "Mission inputs cannot be derived")
  | Ok inputs =>
      let state := assignment.(nma_coordinator_state) in
      Ok {|
        sti_turn := {|
          ti_session := session; ti_missionId := assignment.(nma_mission_id);
          ti_contractVersion := item.(item_delivery).(d_contract_version);
          ti_missionSequence := state.(sequence_no) + 1;
          ti_objective := inputs.(hi_objective); ti_assignment := inputs.(hi_assignment);
          ti_acceptanceCriteria := inputs.(hi_acceptanceCriteria);
          ti_peerMessages :=
            map (fun m => {| hp_messageId := m.(msg_message_id); hp_authorAgentId := m.(msg_author_agent_id);
                             hp_kind := m.(msg_type); hp_body := m.(msg_body) |})
              (last_items MAX_HOST_PEER_MESSAGES
                (array_filter (fun m => m.(msg_author_agent_id) !== assignment.(nma_participant_agent_id))
                  state.(messages)));
          ti_artifacts := [] |};
        sti_deliveryId := item.(item_delivery).(d_delivery_id);
        sti_executionAttempt := executionAttempt |}
  end.

Definition archiveHostExecution (now : Z) (e : JournalDelivery) : result JournalError JournalDelivery :=
  throw MutationRefused when hasJournaledRuntimeAuthority e in
  let evidence := non_null e.(jd_start_turn_input) || (0 <? len e.(jd_host_events)) || non_null e.(jd_result) in
  let* history :=
    if negb evidence then Ok e.(jd_host_attempt_history)
    else match e.(jd_start_turn_input) with
         | None => Err MutationRefused
         | Some input =>
             match startTurnInputDigest input with
             | None => Err MutationRefused
             | Some digest => Ok (e.(jd_host_attempt_history) ++ [{|
                 ar_execution_attempt := e.(jd_execution_attempt); ar_start_input_sha256 := digest;
                 ar_host_events := e.(jd_host_events); ar_result := e.(jd_result);
                 ar_archived_at := toISOString now |}])
             end
         end in
  Ok (e <| jd_host_attempt_history := history |> <| jd_execution_attempt := e.(jd_execution_attempt) + 1 |>
        <| jd_start_turn_input := None |> <| jd_host_events := [] |> <| jd_result := None |>).

(** Monotonic times are microseconds; the code's are milliseconds with a fraction. *)
Record LeaseWindow := { lw_lease : DeliveryLease; lw_renewAt : Z; lw_expiresAt : Z }.
Definition leaseWindowFromRenewal (r : DeliveryOperationResult) (requestStartedAt responseReceivedAt : Z)
    : result NodeError LeaseWindow :=
  let* lease := requireLease r.(op_delivery) in
  throw (plain_error "Relay renewal receipt does not match its delivery lease deadline") when
    r.(op_receipt).(or_lease_expires_at) !== Some lease.(lease_expires_at) in
  let none := authority_lost "Relay returned no safe lease window for host execution" in
  match Date_parse lease.(lease_expires_at), Date_parse r.(op_receipt).(or_recorded_at) with
  | Some expiresAt, Some recordedAt =>
      let grantedMs := expiresAt - recordedAt in
      let elapsed := Z.max 0 (responseReceivedAt - requestStartedAt) in
      let safeRemainingMs := grantedMs - (elapsed + 999) / 1000 in
      throw none when safeRemainingMs <=? MIN_SAFE_LEASE_WINDOW_MS in
      Ok {| lw_lease := lease; lw_renewAt := responseReceivedAt + 1000 * (safeRemainingMs / 2);
            lw_expiresAt := requestStartedAt + 1000 * grantedMs |}
  | _, _ => Err none
  end.
End Reading.

(** ** Bounded cancellation *)
Section Programs.
Context `{Zod, NodeJs} (config : NodeConfig).

(** [cancelHostExecution] *)
Definition cancelHostExecution (deliveryId : string) (executionAttempt : Z) (knownTurn : option HostTurnRef)
    : M unit :=
  let! activeTurn := match knownTurn with
                     | Some turn => ok (Some turn)
                     | None => act (Host (LookupTurn deliveryId executionAttempt))
                     end in
  match activeTurn with Some turn => act (Host (CancelTurn turn)) | None => ok tt end.
(** [runBoundedAbort]: the caller goes on when it is done or after a grace period,
    whatever comes of it. *)
Definition runBoundedAbort (onAbort : M unit) : Prog unit :=
  fork T_background (act! _ := onAbort in Ret tt).
Definition cancelHostExecutionBounded (deliveryId : string) (executionAttempt : Z)
    (knownTurn : option HostTurnRef) : Prog unit :=
  runBoundedAbort (cancelHostExecution deliveryId executionAttempt knownTurn).

Definition session_of (session : nat) : Prog (option Session) :=
  read_locals (fun l => match l.(lc_monitors) !! session with
                        | Some m => Some {| ss_id := session; ss_grant := m.(mon_grant) |}
                        | None => None
                        end).
Definition revokeRuntimeAuthority (authority : option nat) : M unit :=
  match authority with
  | None => ok tt
  | Some id =>
      act! s := session_of id in
      match s with Some s => revoke_session s revoked | None => ok tt end
  end.
Definition tryRevokeRuntimeAuthority (authority : option nat) : Prog unit :=
  act! _ := revokeRuntimeAuthority authority in Ret tt.
Definition revokeLocal_opt (authority : option nat) : Prog unit :=
  match authority with Some id => revokeLocal id revoked | None => Ret tt end.

(** [cancelAndRevokeRuntime], after the synchronous revocation. *)
Definition cancelAndRevokeRuntime (authority : option nat) (deliveryId : string) (executionAttempt : Z)
    (knownTurn : option HostTurnRef) : M unit :=
  act! cancelled := cancelHostExecution deliveryId executionAttempt knownTurn in
  act! retired := revokeRuntimeAuthority authority in
  lift (match retired with Ok _ => cancelled | Err e => Err e end).
(** [runBoundedAbort(cancelActiveTurn)]: only the first call cancels, with the variables
    as they are then. *)
Definition abortActiveTurn (deliveryId : string) (executionAttempt : Z) : Prog unit :=
  act! first := act (Local (fun _ l =>
    if l.(lc_cancellation) then Some (None, l)
    else Some (Some (l.(lc_authority), l.(lc_hostTurn)), l <| lc_cancellation := true |>))) in
  match first with
  | None => Ret tt
  | Some (authority, hostTurn) =>
      act! _ := revokeLocal_opt authority in
      runBoundedAbort (cancelAndRevokeRuntime authority deliveryId executionAttempt hostTurn)
  end.

(** ** Journal updates that end a piece of work *)
Definition set_delivery (delivery : Delivery) (e : JournalDelivery) : JournalDelivery :=
  e <| jd_item := e.(jd_item) <| item_delivery := delivery |> |>.
Definition markAuthorityLost (deliveryId : string) (error : NodeError) : M unit :=
  let! _ := edit deliveryId (fun _ current => Ok (current
    <| jd_phase := JP_authority_lost |> <| jd_operation := None |>
    <| jd_last_error := Some (safeError error) |>)) in ok tt.
Definition cancelAndMarkAuthorityLost (deliveryId : string) (error : NodeError) : M unit :=
  let! entry := requireEntry deliveryId in
  if entry.(jd_phase) === JP_authority_lost then ok tt else
  act! _ := cancelHostExecutionBounded deliveryId entry.(jd_execution_attempt) (journaledHostTurn entry) in
  markAuthorityLost deliveryId error.
Definition markLeaseLost (deliveryId : string) (error : NodeError) : M unit :=
  let! _ := edit deliveryId (fun _ current => Ok (current
    <| jd_phase := JP_lease_lost |> <| jd_operation := None |>
    <| jd_last_error := Some (safeError error) |>)) in ok tt.
Definition retainCompletionIntent (deliveryId : string) (error : NodeError) : M unit :=
  let! _ := edit deliveryId (fun _ current =>
    match current.(jd_operation) with
    | Some (I_complete _) => Ok (current
        <| jd_phase := JP_complete_intent |> <| jd_last_error := Some (safeError error) |>)
    | _ => Err MutationRefused
    end) in ok tt.
Definition deferRetry (deliveryId availableAt : string) (error : NodeError) : M unit :=
  let! _ := edit deliveryId (fun _ current => Ok (set_delivery ((entry_delivery current) <| d_available_at := availableAt |>) current
    <| jd_phase := JP_ingested |> <| jd_operation := None |>
    <| jd_last_error := Some (safeError error) |>)) in ok tt.
Definition recordAuthorityTransitionPending (deliveryId : string) (error : NodeError) : M unit :=
  let! _ := edit deliveryId (fun _ current => Ok (current <| jd_last_error := Some (safeError error) |>)) in ok tt.

(** ** The operations on the Relay *)
(** What the answer to a claim makes of the entry. *)
Definition claimed (answer : DeliveryClaimResult) (current : JournalDelivery)
    : result JournalError JournalDelivery :=
  match answer with
  | Claimed item _ _ =>
      let* staged := stageRuntimeAuthoritySuccessor item.(item_delivery) (current <| jd_operation := None |>) in
      Ok (staged <| jd_item := item |> <| jd_phase := JP_claimed |>)
  | DeadLettered delivery _ _ =>
      Ok (set_delivery delivery (current <| jd_operation := None |>) <| jd_phase := JP_dead_lettered |>)
  end.

Definition claim (deliveryId : string) : M unit :=
  let! _ := throwIfAborted S_shutdown in
  let! entry := requireEntry deliveryId in
  let! input := match entry.(jd_operation) with
    | Some (I_claim input) => ok input
    | _ =>
        let attempt := entry.(jd_claim_attempt) + 1 in
        let input := {| ci_idempotency_key := "claim:" +:+ deliveryId +:+ ":" +:+ string_of_int attempt |} in
        let! _ := edit deliveryId (fun _ current => Ok (current
          <| jd_claim_attempt := attempt |> <| jd_operation := Some (I_claim input) |>
          <| jd_phase := JP_claim_intent |>)) in
        act! _ := act (Reached CP_claim_intent deliveryId) in ok input
    end in
  let! _ := throwIfAborted S_shutdown in
  let! result := request (RqClaim deliveryId input) S_none in
  let! _ := match result with
            | DeadLettered _ _ _ => retireJournaled config.(nc_port) deliveryId
            | Claimed _ _ _ => ok tt
            end in
  let! _ := edit deliveryId (fun _ => claimed result) in
  act! _ := act (Reached match result with Claimed _ _ _ => CP_claimed | _ => CP_release_recorded end deliveryId) in
  ok tt.

(** [lease_id] and [fencing_token] of an input. *)
Definition authority_of (lease : DeliveryLease) : DeliveryLeaseAuthority := {|
  auth_lease_id := lease.(lease_lease_id); auth_fencing_token := lease.(lease_fencing_token) |}.
Definition lease_input (operation deliveryId suffix : string) (lease : DeliveryLease) : LeaseOperationInput := {|
  li_idempotency_key := operation +:+ ":" +:+ deliveryId +:+ ":" +:+ lease.(lease_fencing_token) +:+ suffix;
  li_authority := authority_of lease |}.

(** [if (isDefinitiveAuthorityLoss(error)) throw new AuthorityLostError(safeError(error)); throw error] *)
Definition lost_or_rethrown {A} (e : NodeError) : M A :=
  raise (if isDefinitiveAuthorityLoss e then authority_lost (safeError e) else e).

Definition start (deliveryId : string) : M unit :=
  let! _ := throwIfAborted S_shutdown in
  let! entry := requireEntry deliveryId in
  let! lease := lift (requireLease (entry_delivery entry)) in
  let! input := match entry.(jd_operation) with
    | Some (I_start input) => ok input
    | _ =>
        let input := lease_input "start" deliveryId "" lease in
        let! _ := edit deliveryId (fun _ current => Ok (current
          <| jd_operation := Some (I_start input) |> <| jd_phase := JP_start_intent |>)) in
        act! _ := act (Reached CP_start_intent deliveryId) in ok input
    end in
  let! result := try_catch
    (let! _ := throwIfAborted S_shutdown in request (RqStart deliveryId input) S_none) lost_or_rethrown in
  let! _ := edit deliveryId (fun _ current => Ok (set_delivery result.(op_delivery) current
    <| jd_operation := None |> <| jd_phase := JP_relay_executing |>)) in
  act! _ := act (Reached CP_relay_executing deliveryId) in
  ok tt.

(** The loop of [confirmLease]. *)
Fixpoint confirm_attempts (deliveryId : string) (renewals : nat) : M LeaseWindow :=
  match renewals with
  | O => raise (plain_error "Relay returned two historical lease renewals without a fresh window")
  | S renewals =>
      let! _ := throwIfAborted S_shutdown in
      let! entry := requireEntry deliveryId in
      let! lease := lift (requireLease (entry_delivery entry)) in
      let! input := match entry.(jd_operation) with
        | Some (I_renew input) => ok input
        | _ =>
            let count := entry.(jd_renew_count) + 1 in
            let input := lease_input "renew" deliveryId (":" +:+ string_of_int count) lease in
            let! _ := edit deliveryId (fun _ current => Ok (current
              <| jd_renew_count := count |> <| jd_operation := Some (I_renew input) |>)) in ok input
        end in
      act! requestStartedAt := act Monotonic in
      let! renewed := try_catch
        (let! _ := throwIfAborted S_shutdown in
         let! result := request (RqRenew deliveryId input) S_none in
         act! responseReceivedAt := act Monotonic in
         let! _ := edit deliveryId (fun _ current => Ok (set_delivery result.(op_delivery) current
           <| jd_operation := None |>)) in
         if result.(op_replayed) then ok None
         else let! window := lift (leaseWindowFromRenewal result requestStartedAt responseReceivedAt) in
              ok (Some window))
        lost_or_rethrown in
      match renewed with Some window => ok window | None => confirm_attempts deliveryId renewals end
  end.
Definition confirmLease (deliveryId : string) : M LeaseWindow := confirm_attempts deliveryId 2.

(** *** Publication *)
Definition result_json (r : NodeDeliveryResultPayload) : JsonValue :=
  match r with
  | NR_turn_completed disposition =>
      JObject [("disposition", disposition_json disposition); ("type", JString "turn_completed")]
  | NR_contract_acknowledged => JObject [("type", JString "contract_acknowledged")]
  | NR_verification_recorded evidence =>
      JObject [("evidence", JArray (map evidence_json evidence)); ("type", JString "verification_recorded")]
  end.
(** [Buffer.byteLength(JSON.stringify(result), "utf8")], whatever the order of the keys. *)
Definition result_bytes (r : NodeDeliveryResultPayload) : Z := utf8_length (canonicalJson (result_json r)).

Definition publish_request (grant : RuntimeAuthorityGrant) (input : DeliveryCompleteInput)
    : result NodeError RuntimeAuthorityRequest :=
  match runtimeAuthorityRequest grant {| cap_action := outbound_publish; cap_resource := res_relay |}
          (Some {| me_reported_tokens := None; me_output_bytes := Some (result_bytes input.(cmi_result));
                   me_artifact_count := None; me_artifact_bytes := None; me_artifact_type := None |}) with
  | Some request => Ok request
  | None => Err (plain_error "Invalid runtime authority request")
  end.

(** The call of the Relay, under the session's monitor if there is one; the boolean is
    [completionAttempted]. *)
Definition complete_call (deliveryId : string) (input : DeliveryCompleteInput) (authority : option Session)
    : Prog (bool * result NodeError DeliveryCompleteResult) :=
  match authority with
  | None => act! r := request (RqComplete deliveryId input) S_shutdown in Ret (false, r)
  | Some session =>
      act! admitted := (let! rq := lift (publish_request session.(ss_grant) input) in
                        perform_admitted session rq) in
      match admitted with
      | Err e => Ret (false, Err e)
      | Ok _ => act! r := request (RqComplete deliveryId input) (S_any session.(ss_id)) in Ret (true, r)
      end
  end.

Definition publish_failed (attempted : bool) (authority : option Session) (e : NodeError) : M unit :=
  if isDefinitiveAuthorityLoss e then raise (error_of E_completion_rejected (safeError e)) else
  act! gone := match authority with
               | Some s => act! reason := session_signal s.(ss_id) in Ret (non_null reason)
               | None => Ret false
               end in
  let denied := match e.(er_class) with E_denied _ => true | _ => false end in
  if gone || denied then
    let summary := "Runtime publish authority denied: " +:+ safeError e in
    raise (if attempted then error_of E_completion_unknown summary else authority_lost summary)
  else raise e.

Definition acknowledged (result : DeliveryCompleteResult) (current : JournalDelivery) : JournalDelivery :=
  set_delivery result.(cr_delivery) current
    <| jd_operation := None |> <| jd_phase := JP_acknowledged |> <| jd_last_error := None |>.

Definition publishCompletion (deliveryId : string) (input : DeliveryCompleteInput) (authority : option Session)
    : M unit :=
  act! aborted := throwIfAborted S_shutdown in
  match aborted with
  | Err e => publish_failed false authority e
  | Ok _ =>
      act! called := complete_call deliveryId input authority in
      let '(attempted, answer) := called in
      match answer with
      | Err e => publish_failed attempted authority e
      | Ok result =>
          act! edited := edit deliveryId (fun _ current => Ok (acknowledged result current)) in
          match edited with
          | Err e => publish_failed attempted authority e
          | Ok _ => act! _ := act (Reached CP_acknowledged deliveryId) in ok tt
          end
      end
  end.

Definition complete (deliveryId : string) (result : NodeDeliveryResultPayload) (authority : option Session)
    : M unit :=
  let! _ := throwIfAborted S_shutdown in
  let! entry := requireEntry deliveryId in
  let! lease := lift (requireLease (entry_delivery entry)) in
  let input := {| cmi_lease := lease_input "complete" deliveryId "" lease; cmi_result := result |} in
  let! _ := edit deliveryId (fun _ current => Ok (current
    <| jd_result := Some result |> <| jd_operation := Some (I_complete input) |>
    <| jd_phase := JP_complete_intent |>)) in
  act! _ := act (Reached CP_complete_intent deliveryId) in
  publishCompletion deliveryId input authority.

(** *** Release *)
Definition released (now : Z) (answer : DeliveryOperationResult) (current : JournalDelivery)
    : result JournalError JournalDelivery :=
  let status := answer.(op_delivery).(d_status) in
  let* current := if status === D_stored then archiveHostExecution now current else Ok current in
  Ok (set_delivery answer.(op_delivery) current <| jd_operation := None |>
        <| jd_phase := if status === D_dead_lettered then JP_dead_lettered else JP_ingested |>).

Definition publishRelease (deliveryId : string) (input : DeliveryReleaseInput) : M unit :=
  let! result := try_catch
    (let! _ := throwIfAborted S_shutdown in
     let! _ := retireJournaled config.(nc_port) deliveryId in
     let! _ := throwIfAborted S_shutdown in
     request (RqRelease deliveryId input) S_none) lost_or_rethrown in
  let! _ := edit deliveryId (fun now => released now result) in
  act! _ := act (Reached CP_release_recorded deliveryId) in
  ok tt.

Definition release (deliveryId : string) (classification : DeliveryReleaseClassification) (summary : string)
    : M unit :=
  let! _ := throwIfAborted S_shutdown in
  let! entry := requireEntry deliveryId in
  let! lease := lift (requireLease (entry_delivery entry)) in
  let summary := String.substring 0 2000 summary in
  let input := {| ri_lease := lease_input "release" deliveryId "" lease;
                  ri_release := {| rel_classification := classification; rel_summary := summary |} |} in
  let! _ := edit deliveryId (fun _ current => Ok (current
    <| jd_operation := Some (I_release input) |> <| jd_phase := JP_release_intent |>
    <| jd_last_error := Some summary |>)) in
  act! _ := act (Reached CP_release_intent deliveryId) in
  publishRelease deliveryId input.
Definition releaseOrLoseLease (deliveryId : string) (classification : DeliveryReleaseClassification)
    (summary : string) : M unit :=
  try_catch (release deliveryId classification summary)
    (fun e => if isAuthorityLost e then markLeaseLost deliveryId e else raise e).

(** ** An executing lease *)
Definition reclaimLease (deliveryId : string) : M bool :=
  let! _ := throwIfAborted S_shutdown in
  let! _ := edit deliveryId (fun _ current => Ok (current
    <| jd_phase := JP_lease_lost |> <| jd_operation := None |>)) in
  act! r := claim deliveryId in
  match r with
  | Ok _ => let! entry := requireEntry deliveryId in ok (negb (isTerminal entry))
  | Err e =>
      raise! e when negb (isDefinitiveAuthorityLoss e) in
      let! _ := cancelAndMarkAuthorityLost deliveryId e in ok false
  end.
(** [markLeaseLost], then [reclaimLease] or the loss of the authority. *)
Definition reclaim_or_lose (deliveryId : string) (e : NodeError) : M unit :=
  raise! e when negb (isAuthorityLost e) in
  let! _ := markLeaseLost deliveryId e in
  let! reclaimed := reclaimLease deliveryId in
  raise! (authority_lost ("Delivery cannot be reclaimed: " +:+ deliveryId)) when negb reclaimed in
  ok tt.
Definition confirmLeaseWithReclaim (deliveryId : string) : M LeaseWindow :=
  try_catch (confirmLease deliveryId) (fun e =>
    let! _ := reclaim_or_lose deliveryId e in confirmLease deliveryId).

Fixpoint prepare_attempts (deliveryId : string) (attempts : nat) : M LeaseWindow :=
  match attempts with
  | O => raise (authority_lost ("Could not establish an executing lease: " +:+ deliveryId))
  | S attempts =>
      let! _ := throwIfAborted S_shutdown in
      let! window := confirmLeaseWithReclaim deliveryId in
      let! entry := requireEntry deliveryId in
      let status := (entry_delivery entry).(d_status) in
      if status === D_executing then
        act! now := act Monotonic in
        if window.(lw_expiresAt) - now <=? 1000 * MIN_SAFE_LEASE_WINDOW_MS
        then prepare_attempts deliveryId attempts else ok window
      else
        raise! (authority_lost ("Delivery is not executable: " +:+ deliveryId +:+ " (" +:+
                                DeliveryStatus_name status +:+ ")")) when status !== D_leased in
        let! _ := try_catch (start deliveryId) (reclaim_or_lose deliveryId) in
        prepare_attempts deliveryId attempts
  end.
Definition prepareExecutableLease (deliveryId : string) : M LeaseWindow := prepare_attempts deliveryId 4.

(** ** Authorization *)
Record AuthorizedDelivery := {
  az_assignment : NodeMissionAssignment; az_participant : Participant;
  az_policy : ResolvedPolicyProfile; az_preflight : WorkspacePreflightResult }.

Definition MissionStatus_name (s : MissionStatus) : string :=
  match s with
  | M_awaiting_acceptance => "awaiting_acceptance" | M_active => "active" | M_verifying => "verifying"
  | M_blocked => "blocked" | M_completed => "completed" | M_cancelled => "cancelled"
  | M_expired => "expired" | M_failed => "failed"
  end.
Definition policy_error (message : string) : NodeError := error_of (E_policy policy_profile_not_found) message.

(** The grant the participant's acceptance recorded is the one the policy gives now. *)
Definition grant_accepted (assignment : NodeMissionAssignment) (policy : ResolvedPolicyProfile) : bool :=
  (assignment.(nma_acceptance_status) === AS_accepted) &&
  match assignment.(nma_acceptance_receipt) with
  | Some receipt =>
      (receipt.(rcp_local_policy_grant).(grant_profile_name) === policy.(rp_grant).(lpg_profile_name)) &&
      (receipt.(rcp_local_policy_grant).(grant_sha256) === policy.(rp_grant).(lpg_grant_sha256))
  | None => false
  end.

(** The checks of [authorize] before the preflight. *)
Definition check_assignment (assignment : NodeMissionAssignment)
    : result NodeError (Participant * WorkspaceConfig * ResolvedPolicyProfile) :=
  let status := assignment.(nma_coordinator_state).(status) in
  throw (plain_error "Delivery Mission belongs to a different local agent") when
    assignment.(nma_participant_agent_id) !== config.(nc_agent_id) in
  throw (authority_lost ("Mission is not executable: " +:+ MissionStatus_name status)) when
    (status !== M_active) && (status !== M_verifying) in
  let* participant := missionParticipant assignment config.(nc_agent_id) in
  match dict_get participant.(part_workspace_alias) config.(nc_workspaces) with
  | None => Err (error_of (E_preflight "invalid_workspace_config")
                  ("Unconfigured workspace: " +:+ participant.(part_workspace_alias)))
  | Some workspace =>
      let profileName := participant.(part_requested_local_policy_profile) in
      throw (policy_error ("Workspace does not grant policy: " +:+ profileName)) when
        workspace.(wc_policy_profile) !== profileName in
      let* policy := match resolvePolicyProfile config.(nc_policy_profiles) profileName with
                     | Ok policy => Ok policy
                     | Err code => Err (error_of (E_policy code) ("Local policy profile is not configured: " +:+ profileName))
                     end in
      throw (policy_error "Current local policy no longer matches the accepted Mission grant") when
        negb (grant_accepted assignment policy) in
      Ok (participant, workspace, policy)
  end.

Definition authorize (item : MissionDeliveryItem) : M AuthorizedDelivery :=
  let! _ := throwIfAborted S_shutdown in
  let! assignment := request (RqGetAssignment item.(item_delivery).(d_mission_id)) S_none in
  let! _ := throwIfAborted S_shutdown in
  let! checked := lift (check_assignment assignment) in
  let '(participant, workspace, policy) := checked in
  let! preflight := act (Preflight workspace participant) in
  ok {| az_assignment := assignment; az_participant := participant; az_policy := policy;
        az_preflight := preflight |}.

Definition installRuntimeAuthority (authorization : AuthorizedDelivery) (entry : JournalDelivery)
    (adapterInfo : AdapterInfo) (beforeReady : Session -> M unit) : M (option Session) :=
  if negb config.(nc_port) then ok None else
  try_catch
    (let! session := install_authority config.(nc_node_id) {|
       ai_assignment := authorization.(az_assignment);
       ai_workspaceAlias := authorization.(az_participant).(part_workspace_alias);
       ai_workspace := authorization.(az_preflight); ai_policy := authorization.(az_policy);
       ai_adapter := adapterInfo; ai_entry := entry |} beforeReady in
     ok (Some session))
    (fun e => raise (match e.(er_class) with
                     | E_transition_pending => e
                     | _ => authority_lost ("Runtime authority installation failed: " +:+ safeError e)
                     end)).

Definition installAuthorityForPendingCompletion (entry : JournalDelivery) : M (option Session) :=
  if negb config.(nc_port) then ok None else
  let! authorization := authorize entry.(jd_item) in
  let! lease := lift (requireLease (entry_delivery entry)) in
  let! _ := (act! now := act Now in
    raise! (authority_lost "Pending completion has no current executing authority") when
      ((entry_delivery entry).(d_status) !== D_executing) ||
      num_le (Date_parse lease.(lease_expires_at)) (Some now) in ok tt) in
  let! adapterInfo := act (Host Probe) in
  let! _ := throwIfAborted S_shutdown in
  installRuntimeAuthority authorization entry adapterInfo (fun _ => ok tt).

Definition retireCompletedRuntimeAuthority (deliveryId : string) (authority : option Session) : M unit :=
  act! _ := revokeLocal_opt (ss_id <$> authority) in
  retireJournaled config.(nc_port) deliveryId.

(** ** The lease keeper *)
Definition assertHealthy : M unit :=
  act! failure := read_locals lc_failure in
  match failure with
  | None => ok tt
  | Some e =>
      raise (if isAuthorityLost e || isDefinitiveAuthorityLoss e then authority_lost e.(er_message) else e)
  end.

(** One turn of the keeper's loop, after its delay. *)
Definition keeper_renewal (deliveryId : string) (window : LeaseWindow) : M LeaseWindow :=
  let! _ := throwIfAborted S_shutdown in
  let! entry := requireEntry deliveryId in
  let! current := lift (requireLease (entry_delivery entry)) in
  raise! (authority_lost "Lease authority changed while host turn was active") when
    (current.(lease_lease_id) !== window.(lw_lease).(lease_lease_id)) ||
    (current.(lease_fencing_token) !== window.(lw_lease).(lease_fencing_token)) in
  let count := entry.(jd_renew_count) + 1 in
  let input := lease_input "renew" deliveryId (":" +:+ string_of_int count) window.(lw_lease) in
  let! _ := edit deliveryId (fun _ candidate => Ok (candidate
    <| jd_renew_count := count |> <| jd_operation := Some (I_renew input) |>)) in
  let! _ := throwIfAborted S_shutdown in
  act! requestStartedAt := act Monotonic in
  let! renewed := request (RqRenew deliveryId input) S_none in
  act! responseReceivedAt := act Monotonic in
  let! next := lift (leaseWindowFromRenewal renewed requestStartedAt responseReceivedAt) in
  let! _ := edit deliveryId (fun _ candidate => Ok (set_delivery renewed.(op_delivery) candidate
    <| jd_operation := None |>)) in
  let! _ := forward next.(lw_lease) in
  ok next.

(** [LeaseKeeper.run], [fuel] turns of it. *)
Fixpoint keeper_run (deliveryId : string) (executionAttempt : Z) (fuel : nat) (window : LeaseWindow)
    : Prog unit :=
  match fuel with
  | O => stuck
  | S fuel =>
      act! stopping := read_locals lc_stop in
      if stopping then Ret tt else
      act! stopped := act (KeeperDelay window.(lw_renewAt)) in
      if stopped then Ret tt else
      act! r := keeper_renewal deliveryId window in
      match r with
      | Ok window => keeper_run deliveryId executionAttempt fuel window
      | Err e =>
          act! _ := update_locals (fun l => l <| lc_failure := Some e |>) in
          abortActiveTurn deliveryId executionAttempt
      end
  end.
Definition keeper_stop : Prog unit :=
  act! _ := update_locals (fun l => l <| lc_stop := true |>) in act KeeperJoin.

(** ** Waiting for the host *)
Definition runtimeAuthorityLost (reason : RuntimeAuthorityDenyCode) : NodeError :=
  authority_lost ("Runtime authority lost while host turn was active: " +:+ deny_code_name reason).
Definition signal_of (authority : option Session) : Prog (option RuntimeAuthorityDenyCode) :=
  match authority with None => Ret None | Some s => session_signal s.(ss_id) end.
Definition assertSession (authority : option Session) : M unit :=
  act! reason := signal_of authority in
  match reason with Some reason => raise (runtimeAuthorityLost reason) | None => ok tt end.
Definition assertActiveAuthority (authority : option Session) : M unit :=
  let! _ := assertHealthy in assertSession authority.

Definition assertHostOperationAllowed (deliveryId : string) (executionAttempt : Z) : M unit :=
  act! aborted := act (Aborted S_shutdown) in
  if negb aborted then ok tt else
  act! _ := abortActiveTurn deliveryId executionAttempt in raise shutdown_error.

Definition waitForHostOperation {A} (deliveryId : string) (executionAttempt : Z) (c : HostCall A)
    (authority : option Session) : M A :=
  let! _ := assertHostOperationAllowed deliveryId executionAttempt in
  act! gone := signal_of authority in
  match gone with
  | Some reason =>
      act! _ := abortActiveTurn deliveryId executionAttempt in raise (runtimeAuthorityLost reason)
  | None =>
      act! race := act (RaceHost c (ss_id <$> authority)) in
      match race with
      | Finished r => lift r
      | KeeperFailed =>
          let! _ := assertHealthy in
          raise (plain_error "Lease keeper reported a failure without an error")
      | ShutDown => act! _ := abortActiveTurn deliveryId executionAttempt in raise shutdown_error
      | AuthorityGone =>
          act! _ := abortActiveTurn deliveryId executionAttempt in
          act! reason := signal_of authority in
          raise (runtimeAuthorityLost (default revoked reason))
      end
  end.

(** ** The host's events *)
Definition stream_policy (policy : ResolvedPolicyProfile) (assignment : NodeMissionAssignment)
    (adapterInfo : AdapterInfo) : HostEventStreamPolicy :=
  let d := DEFAULT_HOST_EVENT_STREAM_POLICY in {|
  maxEvents := d.(maxEvents); maxOutputBytes := d.(maxOutputBytes); maxArtifacts := d.(maxArtifacts);
  maxArtifactBytes := d.(maxArtifactBytes);
  maxTokens := Z.min policy.(rp_profile).(pp_max_reported_tokens)
    assignment.(nma_coordinator_config).(cfg_mission_context).(ctx_manifest).(man_token_budget);
  policy_usage := adapterInfo.(info_usage) |}.

(** The turn the host is asked for; [turnId] is the host's to choose. *)
Definition expected_turn (input : StartTurnInput) : HostTurnCorrelation := {|
  cor_turnId := None;
  cor_rest := {| turnId := ""; sessionId := input.(sti_turn).(ti_session).(hs_sessionId);
                 missionId := input.(sti_turn).(ti_missionId); deliveryId := input.(sti_deliveryId);
                 executionAttempt := input.(sti_executionAttempt);
                 contractVersion := input.(sti_turn).(ti_contractVersion) |} |}.
Definition expectation (input : StartTurnInput) (events : list HostEvent) : HostTurnCorrelation :=
  match events with
  | event :: _ => {| cor_turnId := Some event.(he_turn).(turnId); cor_rest := event.(he_turn) |}
  | [] => expected_turn input
  end.

(** [events[sequence - 1]] *)
Definition event_at (events : list HostEvent) (sequence : Z) : option HostEvent :=
  if sequence <=? 0 then None else events !! Z.to_nat (sequence - 1).

Definition of_host {A} (r : result HostError A) : result NodeError A :=
  match r with Ok a => Ok a | Err _ => Err (plain_error "Invalid host event stream") end.

Definition push_event (event : HostEvent) (terminal : bool) (entry : JournalDelivery) : JournalDelivery :=
  entry <| jd_host_events := entry.(jd_host_events) ++ [event] |>
        <| jd_phase := if is_accepted event.(he_kind) then JP_host_accepted
                       else if terminal then JP_host_terminal else entry.(jd_phase) |>.

(** The loop of [consumeHostEvents], over at most [fuel] results of the iterator. *)
Fixpoint consume_events (deliveryId : string) (executionAttempt : Z) (policy : HostEventStreamPolicy)
    (authority : option Session) (fuel : nat) (state : HostEventStreamState) (events : list HostEvent)
    : M (list HostEvent) :=
  match fuel with
  | O => stuck
  | S fuel =>
      let! _ := assertActiveAuthority authority in
      let! next := waitForHostOperation deliveryId executionAttempt NextEvent authority in
      match next with
      | None =>
          raise! (plain_error "host event stream ended before a terminal event") when
            state.(st_phase) !== PH_terminal in
          let! entry := requireEntry deliveryId in ok entry.(jd_host_events)
      | Some event =>
          let! _ := assertActiveAuthority authority in
          match event_at events event.(he_sequence) with
          | Some replayed =>
              raise! (plain_error ("host replay changed event sequence " +:+ string_of_int event.(he_sequence)))
                when replayed !== event in
              consume_events deliveryId executionAttempt policy authority fuel state events
          | None =>
              let! state := lift (of_host (acceptHostEvent state event policy)) in
              let terminal := state.(st_phase) === PH_terminal in
              let! _ := edit deliveryId (fun _ entry => Ok (push_event event terminal entry)) in
              act! _ := (if is_accepted event.(he_kind) then
                           act! _ := update_locals (fun l => l <| lc_hostTurn := Some event.(he_turn) |>) in
                           act (Reached CP_host_accepted deliveryId)
                         else Ret tt) in
              act! _ := (if terminal then act (Reached CP_host_terminal deliveryId) else Ret tt) in
              consume_events deliveryId executionAttempt policy authority fuel state (events ++ [event])
          end
      end
  end.
Definition consumeHostEvents (deliveryId : string) (executionAttempt : Z) (input : StartTurnInput)
    (policy : HostEventStreamPolicy) (authority : option Session) (fuel : nat) : M (list HostEvent) :=
  let! entry := requireEntry deliveryId in
  let events := entry.(jd_host_events) in
  let! state := lift (of_host (accept_stream policy
    (createHostEventStreamState (expectation input events)) events)) in
  consume_events deliveryId executionAttempt policy authority fuel state events.

(** ** [process] *)

(** An execution of the host that starts: the captured variables are fresh. *)
Definition begin_turn (hostTurn : option HostTurnRef) : Prog unit :=
  update_locals (fun l => {|
    lc_authority := None; lc_hostTurn := hostTurn; lc_cancellation := false; lc_sync := new_synchronizer;
    lc_stop := false; lc_failure := None; lc_monitors := l.(lc_monitors) |}).
Definition set_authority (authority : option Session) : Prog unit :=
  update_locals (fun l => l <| lc_authority := ss_id <$> authority |>).

(** Opens or recovers the session and the turn of the Mission, and journals its start. *)
Definition open_turn (deliveryId : string) (executionAttempt : Z) (authorization : AuthorizedDelivery)
    (authority : option Session) : M StartTurnInput :=
  let assignment := authorization.(az_assignment) in
  act! state := act Snapshot in
  let existingSession := dict_get assignment.(nma_mission_id) state.(nj_mission_sessions) in
  let! session := waitForHostOperation deliveryId executionAttempt (EnsureSession {|
    ses_missionId := assignment.(nma_mission_id); ses_participantId := assignment.(nma_participant_agent_id);
    ses_workspaceAlias := authorization.(az_participant).(part_workspace_alias) |}) authority in
  raise! (plain_error "Host session identity changed during durable Mission recovery") when
    match existingSession with Some existing => existing !== session | None => false end in
  let! _ := assertActiveAuthority authority in
  let! _ := act (OnJournal (fun _ _ => setMissionSession session)) in
  let! _ := assertActiveAuthority authority in
  let! _ := edit deliveryId (fun _ current => Ok (current <| jd_host_session := Some session |>)) in
  let! _ := assertActiveAuthority authority in
  let! currentEntry := requireEntry deliveryId in
  match currentEntry.(jd_start_turn_input) with
  | Some input => ok input
  | None =>
      let! input := lift (startTurnInput currentEntry.(jd_item) assignment session executionAttempt) in
      let! entry := act (OnJournal (fun now _ => checkpointStartTurnInput deliveryId input now)) in
      lift match entry.(jd_start_turn_input) with
           | Some input => Ok input
           | None => Err (plain_error "Missing start input")
           end
  end.

(** Starts the turn, or recovers it where the host knows it. *)
Definition start_host (deliveryId : string) (executionAttempt : Z) (input : StartTurnInput)
    (authority : option Session) : M unit :=
  let! hostTurn := waitForHostOperation deliveryId executionAttempt (LookupTurn deliveryId executionAttempt)
                     authority in
  act! _ := update_locals (fun l => l <| lc_hostTurn := hostTurn |>) in
  let! _ := assertActiveAuthority authority in
  let! _ := assertHostOperationAllowed deliveryId executionAttempt in
  let! _ := assertActiveAuthority authority in
  match hostTurn with
  | None => act (Host (StartTurn input))
  | Some turn => act (Host (RecoverTurn turn input))
  end.

(** The body of the [try] around the host's work; the keeper is stopped before the
    result is published. *)
Definition run_turn (fuel : nat) (deliveryId : string) (executionAttempt : Z)
    (authorization : AuthorizedDelivery) : M unit :=
  let! _ := assertHostOperationAllowed deliveryId executionAttempt in
  let! adapterInfo := waitForHostOperation deliveryId executionAttempt Probe None in
  let! _ := assertHealthy in
  let! _ := assertHostOperationAllowed deliveryId executionAttempt in
  let! entry := requireEntry deliveryId in
  let! authority := installRuntimeAuthority authorization entry adapterInfo (fun installing =>
    act! _ := set_authority (Some installing) in bind_session installing.(ss_id)) in
  act! _ := set_authority authority in
  let! _ := assertSession authority in
  let! input := open_turn deliveryId executionAttempt authorization authority in
  let! _ := start_host deliveryId executionAttempt input authority in
  let! events := consumeHostEvents deliveryId executionAttempt input
    (stream_policy authorization.(az_policy) authorization.(az_assignment) adapterInfo) authority fuel in
  act! _ := keeper_stop in
  let! _ := assertActiveAuthority authority in
  let! result := lift match terminalResultFromEvents events with
                      | Ok result => Ok result
                      | Err _ => Err (plain_error "Host result cannot be published")
                      end in
  let! _ := edit deliveryId (fun _ current => Ok (current
    <| jd_result := Some result |> <| jd_phase := JP_host_terminal |>)) in
  let! _ := complete deliveryId result authority in
  retireCompletedRuntimeAuthority deliveryId authority.

(** The release a terminal event asks for. *)
Definition release_for (event : option HostEvent) : option (DeliveryReleaseClassification * string) :=
  match he_kind <$> event with
  | Some (HE_failed failure) => Some (failure.(hf_class), failure.(hf_message))
  | Some (HE_completed (Blocked reason _)) => Some (R_policy_denied, reason)
  | Some (HE_completed (Failed failure_class)) =>
      Some (failure_class, "Host returned " +:+ classification_text failure_class +:+ " failure")
  | Some HE_cancelled => Some (R_transient, "Host turn was cancelled before producing a publishable result")
  | _ => None
  end.

(** The [catch] around it. *)
Definition turn_failed (deliveryId : string) (e : NodeError) : M unit :=
  act! _ := keeper_stop in
  act! authority := read_locals lc_authority in
  act! _ := tryRevokeRuntimeAuthority authority in
  match e.(er_class) with
  | E_completion_unknown => retainCompletionIntent deliveryId e
  | E_shutdown =>
      let! _ := edit deliveryId (fun _ current => Ok (current <| jd_last_error := Some e.(er_message) |>)) in ok tt
  | _ =>
      if isAuthorityLost e then markLeaseLost deliveryId e else
      let! entry := requireEntry deliveryId in
      match release_for (at_last entry.(jd_host_events)) with
      | Some (classification, summary) => releaseOrLoseLease deliveryId classification summary
      | None => raise e
      end
  end.

Definition host_turn (fuel : nat) (deliveryId : string) (executionAttempt : Z) (hostTurn : option HostTurnRef)
    (authorization : AuthorizedDelivery) (window : LeaseWindow) : M unit :=
  act! _ := begin_turn hostTurn in
  act! _ := fork T_keeper (keeper_run deliveryId executionAttempt fuel window) in
  try_catch (run_turn fuel deliveryId executionAttempt authorization) (turn_failed deliveryId).

(** *** The stages before it: [None] where [process] returns *)
Notation "'entry!' x := p 'in' k" :=
  (bind p (fun r => match r with Ok (Some x) => k | Ok None => ok tt | Err e => raise e end))
  (at level 10, x pattern, p at level 100, k at level 200) : prog_scope.
Definition reread (deliveryId : string) : M (option JournalDelivery) :=
  let! entry := requireEntry deliveryId in ok (Some entry).
(** Whatever was thrown, unless it is the loss of the lease, which is recorded. *)
Definition lose_lease {A} (deliveryId : string) (e : NodeError) : M (option A) :=
  raise! e when negb (isAuthorityLost e) in
  let! _ := markLeaseLost deliveryId e in ok None.

Definition claim_entry (deliveryId : string) : M (option JournalDelivery) :=
  act! r := claim deliveryId in
  match r with
  | Ok _ =>
      let! entry := requireEntry deliveryId in
      ok (if isTerminal entry then None else Some entry)
  | Err e =>
      match retryAvailableAt e with
      | Some availableAt => let! _ := deferRetry deliveryId availableAt e in ok None
      | None =>
          raise! e when negb (isDefinitiveAuthorityLoss e) in
          let! _ := cancelAndMarkAuthorityLost deliveryId e in ok None
      end
  end.
Definition resume_start (deliveryId : string) : M (option JournalDelivery) :=
  act! r := start deliveryId in
  match r with Ok _ => reread deliveryId | Err e => lose_lease deliveryId e end.
Definition resume_renewal (deliveryId : string) : M (option JournalDelivery) :=
  act! r := confirmLease deliveryId in
  match r with Ok _ => reread deliveryId | Err e => lose_lease deliveryId e end.

Definition completion_undecided (e : NodeError) : bool :=
  match e.(er_class) with E_completion_unknown | E_authority_lost => true | _ => false end.
Definition resume_completion (deliveryId : string) (entry : JournalDelivery) (input : DeliveryCompleteInput)
    : M (option JournalDelivery) :=
  act! installed := installAuthorityForPendingCompletion entry in
  let authority := match installed with Ok authority => authority | Err _ => None end in
  act! r := (let! authority := lift installed in
             let! _ := publishCompletion deliveryId input authority in
             retireCompletedRuntimeAuthority deliveryId authority) in
  let after := (let! entry := requireEntry deliveryId in
                ok (if entry.(jd_phase) === JP_lease_lost then Some entry else None)) in
  match r with
  | Ok _ => after
  | Err e =>
      raise! e when negb (completion_undecided e || isAuthorityLost e) in
      act! _ := tryRevokeRuntimeAuthority (ss_id <$> authority) in
      if completion_undecided e then let! _ := retainCompletionIntent deliveryId e in ok None
      else let! _ := markLeaseLost deliveryId e in after
  end.
Definition resume_release (deliveryId : string) (input : DeliveryReleaseInput) : M (option JournalDelivery) :=
  act! r := publishRelease deliveryId input in
  match r with Ok _ => ok None | Err e => lose_lease deliveryId e end.

(** The pending operation of the journal, in the order of [process]. *)
Definition resume_claimed (deliveryId : string) (entry : JournalDelivery) : M (option JournalDelivery) :=
  match entry.(jd_operation) with Some (I_claim _) => claim_entry deliveryId | _ => ok (Some entry) end.
Definition resume_started (deliveryId : string) (entry : JournalDelivery) : M (option JournalDelivery) :=
  match entry.(jd_operation) with Some (I_start _) => resume_start deliveryId | _ => ok (Some entry) end.
Definition resume_renewed (deliveryId : string) (entry : JournalDelivery) : M (option JournalDelivery) :=
  match entry.(jd_operation) with Some (I_renew _) => resume_renewal deliveryId | _ => ok (Some entry) end.
Definition resume_completed (deliveryId : string) (entry : JournalDelivery) : M (option JournalDelivery) :=
  match entry.(jd_operation) with
  | Some (I_complete input) => resume_completion deliveryId entry input
  | _ => ok (Some entry)
  end.
Definition resume_released (deliveryId : string) (entry : JournalDelivery) : M (option JournalDelivery) :=
  match entry.(jd_operation) with
  | Some (I_release input) => resume_release deliveryId input
  | _ => ok (Some entry)
  end.
Definition resume_lost (deliveryId : string) (entry : JournalDelivery) : M (option JournalDelivery) :=
  if entry.(jd_phase) !== JP_lease_lost then ok (Some entry) else
  let! reclaimed := reclaimLease deliveryId in
  if reclaimed then reread deliveryId else ok None.
Definition claim_stored (deliveryId : string) (relayAsOf : Z) (entry : JournalDelivery)
    : M (option JournalDelivery) :=
  if (entry_delivery entry).(d_status) !== D_stored
  then ok (if isTerminal entry then None else Some entry) else
  if negb (isAvailable entry relayAsOf) then ok None else claim_entry deliveryId.

Definition delivery_kind_name (k : DeliveryKind) : string :=
  match k with
  | K_turn => "turn" | K_verification => "verification"
  | K_contract_acknowledgement => "contract_acknowledgement"
  end.

(** [authorize] with what its refusals do. *)
Definition authorize_or_refuse (deliveryId : string) (entry : JournalDelivery) (hostTurn : option HostTurnRef)
    : M (option AuthorizedDelivery) :=
  act! r := authorize entry.(jd_item) in
  match r with
  | Ok authorization => ok (Some authorization)
  | Err e =>
      if isAuthorityLost e || isDefinitiveAuthorityLoss e
      then let! _ := cancelAndMarkAuthorityLost deliveryId e in ok None else
      match e.(er_class) with
      | E_policy _ | E_preflight _ =>
          act! _ := cancelHostExecutionBounded deliveryId entry.(jd_execution_attempt) hostTurn in
          let! _ := releaseOrLoseLease deliveryId R_policy_denied (safeError e) in ok None
      | _ => raise e
      end
  end.

(** A result that is journaled but was not published. *)
Definition publish_stored (deliveryId : string) (authorization : AuthorizedDelivery)
    (result : NodeDeliveryResultPayload) : M unit :=
  act! installed := (
    let! _ := prepareExecutableLease deliveryId in
    let! _ := throwIfAborted S_shutdown in
    let! adapterInfo := act (Host Probe) in
    let! _ := throwIfAborted S_shutdown in
    let! entry := requireEntry deliveryId in
    installRuntimeAuthority authorization entry adapterInfo (fun _ => ok tt)) in
  match installed with
  | Err e =>
      raise! e when negb (isAuthorityLost e) in
      cancelAndMarkAuthorityLost deliveryId e
  | Ok authority =>
      try_catch
        (let! _ := complete deliveryId result authority in
         retireCompletedRuntimeAuthority deliveryId authority)
        (fun e =>
           raise! e when negb (completion_undecided e || isAuthorityLost e) in
           act! _ := tryRevokeRuntimeAuthority (ss_id <$> authority) in
           match e.(er_class) with
           | E_completion_unknown => retainCompletionIntent deliveryId e
           | _ => markLeaseLost deliveryId e
           end)
  end.

(** What follows the authorization of a turn. *)
Definition execute_turn (fuel : nat) (deliveryId : string) (executionAttempt : Z)
    (hostTurn : option HostTurnRef) (authorization : AuthorizedDelivery) : M unit :=
  act! aborted := act (Aborted S_shutdown) in
  if aborted then
    act! _ := cancelHostExecutionBounded deliveryId executionAttempt hostTurn in ok tt
  else
  let! _ := requireEntry deliveryId in
  act! r := prepareExecutableLease deliveryId in
  match r with
  | Err e =>
      raise! e when negb (isAuthorityLost e) in
      cancelAndMarkAuthorityLost deliveryId e
  | Ok window => host_turn fuel deliveryId executionAttempt hostTurn authorization window
  end.

Definition process (fuel : nat) (deliveryId : string) (relayAsOf : Z) : M unit :=
  act! aborted := act (Aborted S_shutdown) in
  if aborted then ok tt else
  let! entry := requireEntry deliveryId in
  if isTerminal entry then retireJournaled config.(nc_port) deliveryId else
  entry! entry := resume_claimed deliveryId entry in
  entry! entry := resume_started deliveryId entry in
  entry! entry := resume_renewed deliveryId entry in
  entry! entry := resume_completed deliveryId entry in
  entry! entry := resume_released deliveryId entry in
  entry! entry := resume_lost deliveryId entry in
  entry! entry := claim_stored deliveryId relayAsOf entry in
  let hostTurn := journaledHostTurn entry in
  entry! authorization := authorize_or_refuse deliveryId entry hostTurn in
  let kind := (entry_delivery entry).(d_kind) in
  if kind !== K_turn then
    releaseOrLoseLease deliveryId R_policy_denied
      (delivery_kind_name kind +:+ " execution awaits the artifact and verification handlers")
  else
  match entry.(jd_result) with
  | Some result => publish_stored deliveryId authorization result
  | None => execute_turn fuel deliveryId entry.(jd_execution_attempt) hostTurn authorization
  end.

(** *** [processNext] *)
Fixpoint process_entries (fuel : nat) (relayAsOf : Z) (blockedMissions : list string)
    (entries : list JournalDelivery) : M (option string) :=
  match entries with
  | [] => ok None
  | entry :: entries =>
      let missionId := (entry_delivery entry).(d_mission_id) in
      let deliveryId := (entry_delivery entry).(d_delivery_id) in
      if includes blockedMissions missionId then process_entries fuel relayAsOf blockedMissions entries else
      act! r := process fuel deliveryId relayAsOf in
      match r with
      | Ok _ => ok (Some deliveryId)
      | Err e =>
          raise! e when match e.(er_class) with E_transition_pending => false | _ => true end in
          let! _ := recordAuthorityTransitionPending deliveryId e in
          process_entries fuel relayAsOf (missionId :: blockedMissions) entries
      end
  end.
Definition ready_entries (relayAsOf : Z) (state : NodeJournalState) : list JournalDelivery :=
  sort_by (fun left right => compareCursor (entry_delivery left).(d_cursor) (entry_delivery right).(d_cursor))
    (array_filter (fun candidate =>
       (negb (isTerminal candidate) || hasJournaledRuntimeAuthority candidate) && isAvailable candidate relayAsOf)
     (map snd state.(nj_deliveries))).
(** [relayAsOf] is [None] where [getTime()] is NaN. *)
Definition processNext (fuel : nat) (relayAsOf : option Z) : M (option string) :=
  act! aborted := act (Aborted S_shutdown) in
  if aborted then ok None else
  match relayAsOf with
  | None => raise (plain_error "Relay as-of time is invalid")
  | Some relayAsOf =>
      act! state := act Snapshot in
      process_entries fuel relayAsOf [] (ready_entries relayAsOf state)
  end.
End Programs.

(** ** The cycle: mission-acceptance.ts and daemon.ts *)

(** ** mission-acceptance.ts *)
Definition ASSIGNMENT_PAGE_LIMIT : Z := 10.

Definition acceptance_error (code message : string) : NodeError := error_of (E_acceptance code) message.
(** [localAcceptanceFailure] *)
Definition is_local_failure (e : NodeError) : bool :=
  match e.(er_class) with E_acceptance _ | E_policy _ | E_preflight _ => true | _ => false end.
Definition TERMINAL_MISSION_ACCEPTANCE_CODES : list string :=
  ["invalid_params"; "not_a_participant"; "invalid_transition"; "not_authorized_transition";
   "state_changed"; "duplicate_idempotency_key"; "invalid_intent_payload"; "teammate_blocked";
   "mission_not_found"; "workspace_not_found"].
(** [terminalRelayAcceptanceFailure] *)
Definition is_terminal_refusal (e : NodeError) : bool :=
  match e.(er_class) with
  | E_relay status code _ =>
      (400 <=? status) && (status <? 500) && includes TERMINAL_MISSION_ACCEPTANCE_CODES code
  | _ => false
  end.
Definition acceptanceKey (missionId participantAgentId grantSha256 : string) : string :=
  "accept:" +:+ missionId +:+ ":" +:+ participantAgentId +:+ ":" +:+ String.substring 0 16 grantSha256.

Section Acceptance.
Context `{Zod, NodeJs} (config : NodeConfig).

(** [verifyNodeIdentityAndWorkspaces] *)
Fixpoint verify_workspaces (workspaces : Dict WorkspaceConfig) : M unit :=
  match workspaces with
  | [] => ok tt
  | (alias, workspace) :: workspaces =>
      let! _ := throwIfAborted S_shutdown in
      let! registered := request (RqRegisterWorkspace {|
        wsr_alias := alias; wsr_repository_url := workspace.(wc_repository_url);
        wsr_allowed_base_refs := workspace.(wc_allowed_base_refs) |}) S_none in
      raise! (plain_error ("Relay workspace binding does not match local configuration: " +:+ alias)) when
        (registered.(wsb_node_id) !== config.(nc_node_id)) ||
        (registered.(wsb_agent_id) !== config.(nc_agent_id)) ||
        (registered.(wsb_alias) !== alias) || (registered.(wsb_status) !== S_active) in
      verify_workspaces workspaces
  end.
Definition verifyNodeIdentityAndWorkspaces : M unit :=
  let! _ := throwIfAborted S_shutdown in
  let! node := request RqMe S_none in
  raise! (plain_error "Relay Node identity does not match the local device configuration") when
    (node.(node_node_id) !== config.(nc_node_id)) || (node.(node_agent_id) !== config.(nc_agent_id)) ||
    (node.(node_status) !== S_active) in
  verify_workspaces config.(nc_workspaces).

(** The checks of [prepareMissionAcceptance] before the preflight. *)
Definition check_mission (assignment : NodeMissionAssignment) (now : Z)
    : result NodeError (Participant * WorkspaceConfig * ResolvedPolicyProfile) :=
  let missionId := assignment.(nma_mission_id) in
  let manifest := assignment.(nma_coordinator_config).(cfg_mission_context).(ctx_manifest) in
  throw (acceptance_error "wrong_participant"
           ("Mission assignment targets a different agent: " +:+ missionId)) when
    assignment.(nma_participant_agent_id) !== config.(nc_agent_id) in
  throw (acceptance_error "mission_expired" ("Mission is already expired: " +:+ missionId)) when
    num_le (Date_parse manifest.(man_expires_at)) (Some now) in
  match array_find (fun candidate => candidate.(part_agent_id) === config.(nc_agent_id))
          manifest.(man_participants) with
  | None => Err (acceptance_error "participant_missing" ("Local agent is absent from Mission: " +:+ missionId))
  | Some participant =>
      match dict_get participant.(part_workspace_alias) config.(nc_workspaces) with
      | None => Err (acceptance_error "workspace_not_configured"
          ("Mission requests an unconfigured workspace: " +:+ participant.(part_workspace_alias)))
      | Some workspace =>
          let profileName := participant.(part_requested_local_policy_profile) in
          throw (acceptance_error "policy_not_approved"
                   ("Mission policy profile is not approved for workspace " +:+
                    participant.(part_workspace_alias))) when
            workspace.(wc_policy_profile) !== profileName in
          match resolvePolicyProfile config.(nc_policy_profiles) profileName with
          | Ok policy => Ok (participant, workspace, policy)
          | Err code => Err (error_of (E_policy code) ("Local policy profile is not configured: " +:+ profileName))
          end
      end
  end.
Definition acceptance_input (assignment : NodeMissionAssignment) (policy : ResolvedPolicyProfile)
    : MissionParticipantAcceptanceInput := {|
  acc_idempotency_key := acceptanceKey assignment.(nma_mission_id) assignment.(nma_participant_agent_id)
                           policy.(rp_grant).(lpg_grant_sha256);
  acc_contract := assignment.(nma_coordinator_config).(cfg_mission_context).(ctx_manifest).(man_shared_contract);
  acc_local_policy_grant := {| grant_profile_name := policy.(rp_grant).(lpg_profile_name);
                               grant_sha256 := policy.(rp_grant).(lpg_grant_sha256) |} |}.
Definition prepareMissionAcceptance (assignment : NodeMissionAssignment) (now : Z)
    : M MissionParticipantAcceptanceInput :=
  let! checked := lift (check_mission assignment now) in
  let '(participant, workspace, policy) := checked in
  let! _ := act (Preflight workspace participant) in
  let input := acceptance_input assignment policy in
  raise! (plain_error "Invalid Mission acceptance") when
    negb (missionParticipantAcceptanceInputSchema input) in
  ok input.

Definition record_acceptance (missionId : string) (input : MissionParticipantAcceptanceInput) (accepted : bool)
    : M unit := act (OnJournal (fun _ _ => recordMissionAcceptance missionId input accepted)).
Definition submitMissionAcceptance (missionId : string) (input : MissionParticipantAcceptanceInput) : M unit :=
  let! _ := throwIfAborted S_shutdown in
  let! _ := record_acceptance missionId input false in
  let! _ := throwIfAborted S_shutdown in
  let! _ := request (RqAcceptAssignment missionId input) S_none in
  record_acceptance missionId input true.
Definition submitOrQuarantineMissionAcceptance (missionId : string)
    (input : MissionParticipantAcceptanceInput) : M bool :=
  act! r := submitMissionAcceptance missionId input in
  match r with
  | Ok _ => ok true
  | Err e =>
      raise! e when negb (is_terminal_refusal e) in
      let! _ := act (OnJournal (fun _ _ => quarantineMissionAcceptance missionId (safeError e))) in
      ok false
  end.

(** The first loop of [acceptPendingMissions]: what was journaled and not confirmed. *)
Fixpoint resubmit (intents : Dict MissionAcceptanceJournal) (accepted : Z) : M Z :=
  match intents with
  | [] => ok accepted
  | (missionId, intent) :: intents =>
      if intent.(ma_status) !== MA_pending then resubmit intents accepted else
      let! _ := throwIfAborted S_shutdown in
      let! done := submitOrQuarantineMissionAcceptance missionId intent.(ma_input) in
      resubmit intents (if done then accepted + 1 else accepted)
  end.
(** The second: the page of Missions that await an acceptance. *)
Fixpoint accept_page (now : Z) (missions : list NodeMissionAssignment) (accepted : Z) : M Z :=
  match missions with
  | [] => ok accepted
  | assignment :: missions =>
      let missionId := assignment.(nma_mission_id) in
      let! _ := throwIfAborted S_shutdown in
      if assignment.(nma_acceptance_status) === AS_accepted then accept_page now missions accepted else
      act! state := act Snapshot in
      if non_null (dict_get missionId state.(nj_mission_acceptances)) then accept_page now missions accepted else
      act! prepared := prepareMissionAcceptance assignment now in
      match prepared with
      | Err e => raise! e when negb (is_local_failure e) in accept_page now missions accepted
      | Ok input =>
          let! done := submitOrQuarantineMissionAcceptance missionId input in
          accept_page now missions (if done then accepted + 1 else accepted)
      end
  end.
Definition acceptPendingMissions : M Z :=
  act! now := act Now in
  act! state := act Snapshot in
  let! accepted := resubmit state.(nj_mission_acceptances) 0 in
  act! state := act Snapshot in
  let afterCursor := state.(nj_mission_assignment_cursor) in
  let! _ := throwIfAborted S_shutdown in
  let! page := request (RqListAssignments M_awaiting_acceptance afterCursor ASSIGNMENT_PAGE_LIMIT) S_none in
  let! _ := throwIfAborted S_shutdown in
  raise! (plain_error "Relay repeated Mission assignment cursor") when
    non_null page.(nml_next_cursor) && (page.(nml_next_cursor) === afterCursor) in
  let! accepted := accept_page now page.(nml_missions) accepted in
  let! _ := throwIfAborted S_shutdown in
  let! _ := if page.(nml_next_cursor) !== afterCursor
            then act (OnJournal (fun _ _ => setMissionAssignmentCursor page.(nml_next_cursor)))
            else ok tt in
  let! _ := throwIfAborted S_shutdown in
  ok accepted.

(** ** daemon.ts *)

(** [#initialized] is the argument of [runCycle] and [cycles]. *)
Definition initialize (initialized : bool) : M unit :=
  if initialized then ok tt else
  let! _ := throwIfAborted S_shutdown in
  let! _ := verifyNodeIdentityAndWorkspaces in
  throwIfAborted S_shutdown.

Definition runCycle (fuel : nat) (initialized : bool) : M Z :=
  let! _ := throwIfAborted S_shutdown in
  let! _ := initialize initialized in
  let! _ := throwIfAborted S_shutdown in
  let! recoverable := request RqRecoverDeliveries S_none in
  let! _ := act (OnJournal (fun now _ => ingestRecoverable recoverable.(rmp_items) now)) in
  let! _ := throwIfAborted S_shutdown in
  act! state := act Snapshot in
  let! discovered := request (RqPollDeliveries state.(nj_cursor)) S_none in
  let! _ := act (OnJournal (fun now _ =>
    ingestCursorPage discovered.(smp_items) discovered.(smp_next_cursor) now)) in
  let! _ := throwIfAborted S_shutdown in
  let! _ := processNext config fuel (Date_parse recoverable.(rmp_as_of)) in
  let! _ := throwIfAborted S_shutdown in
  acceptPendingMissions.

(** The loop of [run], [fuel] turns of it; an error ends a cycle, a shutdown the loop.
    The pause between two cycles is the time until the next effect. *)
Fixpoint cycles (fuel : nat) : Prog unit :=
  match fuel with
  | O => stuck
  | S fuel =>
      act! aborted := act (Aborted S_shutdown) in
      if aborted then Ret tt else
      act! _ := runCycle fuel true in
      act! aborted := act (Aborted S_shutdown) in
      if aborted then Ret tt else
      act! _ := act (Backoff 1000 S_shutdown) in
      cycles fuel
  end.
Definition ForegroundNode_run (fuel : nat) : Prog unit :=
  act! aborted := act (Aborted S_shutdown) in
  if aborted then Ret tt else
  act! r := initialize false in
  match r with Ok _ => cycles fuel | Err _ => Ret tt end.
End Acceptance.
