(* ===== verification/NodeLogic.v ===== *)
(** * A logic for Nodes at work

    What every world of a Node keeps, what its tasks may rely on of each other, and a
    weakest precondition for their programs: a program that is correct under the
    interference of the other tasks keeps the invariant along every schedule.  Then the
    rules by which the programs are proved: triples, requests, journal updates. *)

From S2P Require Import Prelude JsLib Json Schemas MissionEvents DeliveryOperations HostEvents JsonValue.
From S2P Require Import TurnInput NodePolicy RuntimeAuthority RuntimeAuthorityFactory Journal JournalSafety NodeProgram NodeAuthority Processor.
Local Open Scope Z_scope.

(** ** What is journaled *)
Definition entry_of (deliveryId : string) (s : NodeJournalState) : option JournalDelivery :=
  dict_get deliveryId s.(nj_deliveries).
Definition acceptance_of (missionId : string) (s : NodeJournalState) : option MissionAcceptanceJournal :=
  dict_get missionId s.(nj_mission_acceptances).
(** Work on the delivery is over. *)
Definition settled (e : JournalDelivery) : bool := includes TERMINAL_PHASES e.(jd_phase).
Definition has_lease (e : JournalDelivery) : Prop := active_lease (entry_delivery e) <> None.

Section Invariant.
Context `{Zod, NodeJs}.

(** The result is the one the events end with, the events are those of one accepted
    stream, a completion publishes the result, and nothing is pending once settled. *)
Record sound (e : JournalDelivery) : Prop := {
  sd_input : parse_start_input e.(jd_start_turn_input) = Some e.(jd_start_turn_input);
  sd_completion : forall i, e.(jd_operation) = Some (I_complete i) -> e.(jd_result) = Some i.(cmi_result);
  sd_result : forall r, e.(jd_result) = Some r -> terminalResultFromEvents e.(jd_host_events) = Ok r;
  sd_stream : e.(jd_host_events) <> [] -> exists i policy st,
    e.(jd_start_turn_input) = Some i /\
    accept_stream policy (createHostEventStreamState (expected_turn i)) e.(jd_host_events) = Ok st;
  sd_settled : settled e = true -> e.(jd_operation) = None }.
Definition state_sound (s : NodeJournalState) : Prop := forall k e, (k, e) ∈ s.(nj_deliveries) -> sound e.

(** The request is what the journal says is being asked. *)
Definition journaled_intent {A} (r : RelayRequest A) (s : NodeJournalState) : Prop :=
  match r with
  | RqClaim d i => exists e, entry_of d s = Some e /\ e.(jd_operation) = Some (I_claim i)
  | RqStart d i => exists e, entry_of d s = Some e /\ e.(jd_operation) = Some (I_start i)
  | RqRenew d i => exists e, entry_of d s = Some e /\ e.(jd_operation) = Some (I_renew i)
  | RqComplete d i => exists e, entry_of d s = Some e /\ e.(jd_operation) = Some (I_complete i)
  | RqRelease d i => exists e, entry_of d s = Some e /\ e.(jd_operation) = Some (I_release i)
  | RqAcceptAssignment m i => exists a, acceptance_of m s = Some a /\ a.(ma_input) = i /\ a.(ma_status) = MA_pending
  | _ => True
  end.

Variable config : NodeConfig.

Definition trace := list (Logged * NodeJournalState).
Definition seen (e : Logged) (t : trace) : Prop := e ∈ t.*1.

(** What must have happened before the host is set to work: the Relay answered for the
    Mission of the delivery with an assignment the configuration allows, and the
    workspace it names was checked. *)
Definition authorized (digest : string) (a : NodeMissionAssignment) (t : trace) : Prop :=
  exists item participant workspace policy,
    deliveryIdentityDigest item = digest /\
    seen (L_answered (RqGetAssignment item.(item_delivery).(d_mission_id)) a) t /\
    check_assignment config a = Ok (participant, workspace, policy) /\
    seen (L_preflight workspace participant) t.
Definition host_ready (input : StartTurnInput) (s : NodeJournalState) (earlier : trace) : Prop :=
  exists e a, entry_of input.(sti_deliveryId) s = Some e /\ e.(jd_start_turn_input) = Some input /\
    e.(jd_result) = None /\ settled e = false /\ has_lease e /\
    authorized e.(jd_identity_sha256) a earlier.

Definition event_ok (event : Logged) (s : NodeJournalState) (earlier : trace) : Prop :=
  match event with
  | L_sent r => state_ok s /\ state_sound s /\ journaled_intent r s /\ seen (L_saved s) earlier
  | L_host c =>
      match c with
      | StartTurn input | RecoverTurn _ input => state_ok s /\ state_sound s /\ host_ready input s earlier
      | _ => True
      end
  | _ => True
  end.
Fixpoint trace_ok (t : trace) : Prop :=
  match t with [] => True | (event, s) :: t => event_ok event s t /\ trace_ok t end.

(** A settled delivery stays settled. *)
Definition settled_le (s t : NodeJournalState) : Prop :=
  forall k e, entry_of k s = Some e -> settled e = true -> exists f, entry_of k t = Some f /\ settled f = true.
#[export] Instance settled_le_preorder : PreOrder settled_le.
Proof.
  split; [intros s k e; eauto|]. intros s t u L M k e E S. destruct (L k e E S) as (f & F & S').
  exact (M k f F S').
Qed.

Record invariant (w : World) : Prop := {
  iv_memory : state_sound (memory w);
  iv_memory_ok : state_ok (memory w);
  iv_disk : state_sound w.(wd_journal).(nj_disk);
  iv_disk_ok : state_ok w.(wd_journal).(nj_disk);
  iv_settled : settled_le (memory w) w.(wd_journal).(nj_disk);
  iv_saved : seen (L_saved (memory w)) w.(wd_log);
  iv_disk_saved : seen (L_saved w.(wd_journal).(nj_disk)) w.(wd_log);
  iv_trace : trace_ok w.(wd_log) }.

(** ** Interference *)

(** What the keeper may do to an entry: renew its lease. *)
Definition lease_moved (e f : JournalDelivery) : Prop :=
  (has_lease e -> has_lease f) /\
  exists n o i t, f = e <| jd_renew_count := n |> <| jd_operation := o |> <| jd_item := i |> <| jd_updated_at := t |>.
(** What the main task may do to an entry while the keeper runs: anything else. *)
Definition lease_kept (e f : JournalDelivery) : Prop :=
  f.(jd_operation) = e.(jd_operation) /\ f.(jd_item) = e.(jd_item) /\
  f.(jd_renew_count) = e.(jd_renew_count) /\ settled f = settled e.
Definition entrywise (R : JournalDelivery -> JournalDelivery -> Prop) (s t : NodeJournalState) : Prop :=
  forall k, option_Forall2 R (entry_of k s) (entry_of k t).

#[export] Instance lease_moved_preorder : PreOrder lease_moved.
Proof.
  split.
  - intros e. split; [done|]. exists (jd_renew_count e), (jd_operation e), (jd_item e), (jd_updated_at e). by destruct e.
  - intros e f g [L1 (n1 & o1 & i1 & t1 & ->)] [L2 (n2 & o2 & i2 & t2 & ->)]. split; [auto|].
    exists n2, o2, i2, t2. done.
Qed.
#[export] Instance lease_kept_preorder : PreOrder lease_kept.
Proof. split; [done|]. unfold lease_kept. intros e f g (?&?&?&?) (?&?&?&?). split_and!; congruence. Qed.
#[export] Instance entrywise_preorder R `{!PreOrder R} : PreOrder (entrywise R).
Proof.
  split; [intros s k; reflexivity|]. intros s t u A B k. etransitivity; [apply A|apply B].
Qed.

Inductive Role := R_main | R_keeper | R_background.

(** What a task may rely on: while no keeper runs, nobody touches the journal behind the
    main task. *)
Definition rely (r : Role) (w v : World) : Prop :=
  w.(wd_log) `suffix_of` v.(wd_log) /\
  match r with
  | R_main =>
      if w.(wd_keeper_done) then v.(wd_keeper_done) = true /\ memory v = memory w
      else entrywise lease_moved (memory w) (memory v)
  | R_keeper => entrywise lease_kept (memory w) (memory v)
  | R_background => True
  end.
(** What a task guarantees with one effect. *)
Definition guarantee (r : Role) (w v : World) : Prop :=
  w.(wd_log) `suffix_of` v.(wd_log) /\ v.(wd_keeper_done) = w.(wd_keeper_done) /\
  settled_le (memory w) (memory v) /\
  match r with
  | R_main => w.(wd_keeper_done) = true \/ entrywise lease_kept (memory w) (memory v)
  | R_keeper => entrywise lease_moved (memory w) (memory v)
  | R_background => memory v = memory w
  end.

#[export] Instance rely_preorder r : PreOrder (rely r).
Proof.
  split.
  - intros w. split; [done|]. destruct r; [|reflexivity|done]. destruct (wd_keeper_done w); [done|reflexivity].
  - intros w v u [L A] [M B]. split; [by etransitivity|]. destruct r; [|by etransitivity|done].
    destruct (wd_keeper_done w) eqn:D.
    + destruct A as [D' E]. rewrite D' in B. destruct B as [? ?]. split; congruence.
    + destruct (wd_keeper_done v) eqn:D'; [|by etransitivity]. destruct B as [_ E]. by rewrite E.
Qed.

(** ** Weakest preconditions *)
Fixpoint wp (r : Role) {A : Type} (p : Prog A) (Q : A -> World -> Prop) (w : World) {struct p} : Prop :=
  match p with
  | Ret a => Q a w
  | Act o k => forall v, rely r w v -> invariant v ->
      forall i x u, sem o i v = Some (x, u) ->
        guarantee r v u /\ invariant u /\ wp r (k x) Q u
  | Fork t child k => forall v, rely r w v -> invariant v ->
      match t with
      | T_background => wp R_background child (fun _ _ => True) v /\ wp r k Q v
      | T_keeper =>
          let u := v <| wd_keeper_done := is_done child |> in
          r = R_main /\ v.(wd_keeper_done) = true /\
          wp R_keeper child (fun _ _ => True) u /\ wp r k Q u
      end
  end.

Lemma wp_rely r {A : Type} (p : Prog A) Q w v :
  (forall a w v, rely r w v -> Q a w -> Q a v) -> rely r w v -> wp r p Q w -> wp r p Q v.
Proof.
  intros S. destruct p as [a|X o k|t child k]; cbn; [by apply S|..]; intros R W u R' I; apply W; try done;
    by etransitivity.
Qed.

Lemma wp_mono r {A : Type} (p : Prog A) (P Q : A -> World -> Prop) w :
  (forall a w, P a w -> Q a w) -> wp r p P w -> wp r p Q w.
Proof.
  intros M. revert w. induction p as [A a|A X o k IH|A t child IHc k IH]; intros w; cbn; [apply M|..].
  - intros W v R I i x u S. destruct (W v R I i x u S) as (G & J & K). split_and!; try done. by apply (IH x P Q).
  - intros W v R I. specialize (W v R I). destruct t.
    + destruct W as (? & ? & ? & K). split_and!; try done. by apply (IH P Q).
    + destruct W as (? & K). split; [done|]. by apply (IH P Q).
Qed.

Lemma wp_bind r {A B : Type} (p : Prog A) (f : A -> Prog B) Q w :
  wp r p (fun a => wp r (f a) Q) w -> wp r (bind p f) Q w.
Proof.
  revert B f Q w. induction p as [A a|A X o k IH|A t child IHc k IH]; intros B f Q w; cbn; [done|..].
  - intros W v R I i x u S. destruct (W v R I i x u S) as (G & J & K). split_and!; try done. by apply IH.
  - intros W v R I. specialize (W v R I). destruct t.
    + destruct W as (? & ? & ? & K). split_and!; try done. by apply IH.
    + destruct W as (? & K). split; [done|]. by apply IH.
Qed.

(** ** Schedules *)
Definition anything {A} (_ : A) (_ : World) : Prop := True.

Record config_ok (c : Config) : Prop := {
  co_world : invariant c.(cf_world);
  co_keeper_done : c.(cf_world).(wd_keeper_done) = is_done c.(cf_keeper);
  co_main : wp R_main c.(cf_main) anything c.(cf_world);
  co_keeper : is_done c.(cf_keeper) = false -> wp R_keeper c.(cf_keeper) anything c.(cf_world);
  co_background : forall p, p ∈ c.(cf_background) -> wp R_background p anything c.(cf_world) }.

Lemma any_rely r {A : Type} (p : Prog A) w v : rely r w v -> wp r p anything w -> wp r p anything v.
Proof. by apply wp_rely. Qed.

(** A world with the same journal and log. *)
Lemma invariant_same w v : v.(wd_journal) = w.(wd_journal) -> v.(wd_log) = w.(wd_log) -> invariant w -> invariant v.
Proof. intros J L []. split; unfold memory in *; rewrite ?J, ?L in *; done. Qed.

(** What the other tasks see of a step. *)
Lemma guaranteed_main w v r : guarantee r w v -> r <> R_main ->
  (r = R_keeper -> w.(wd_keeper_done) = false) -> forall d,
  (r = R_background -> d = w.(wd_keeper_done)) -> rely R_main w (v <| wd_keeper_done := d |>).
Proof.
  intros (L & D & _ & G) N K d Hd. split; [exact L|]. destruct r; [done|..].
  - rewrite K by done. exact G.
  - rewrite (Hd eq_refl). destruct (wd_keeper_done w) eqn:E; [done|]. change (memory (v <| wd_keeper_done := false |>)) with (memory v).
    rewrite G. reflexivity.
Qed.
Lemma guaranteed_keeper w v r : guarantee r w v -> r <> R_keeper -> w.(wd_keeper_done) = false ->
  rely R_keeper w v.
Proof.
  intros (L & D & _ & G) N K. split; [done|]. destruct r; [|done|].
  - destruct G as [G|G]; [congruence|done].
  - rewrite G. reflexivity.
Qed.
Lemma guaranteed_background w v r : guarantee r w v -> rely R_background w v.
Proof. intros (L & _). by split. Qed.

Lemma elem_of_insert_inv {A : Type} (x y : A) (n : nat) (l : list A) : x ∈ <[n := y]> l -> x = y \/ x ∈ l.
Proof.
  intros (m & E)%list_elem_of_lookup. apply list_lookup_insert_Some in E as [(_ & <- & _)|[_ E]]; [by left|].
  right. by eapply list_elem_of_lookup_2.
Qed.

(** One effect of a task that is correct. *)
Lemma advance_ok r p i w p' child v : wp r p anything w -> invariant w -> advance p i w = Some (p', child, v) ->
  (guarantee r w v /\ invariant v /\ child = None /\ wp r p' anything v) \/
  (v = w /\ exists t q, child = Some (t, q) /\ match t with
     | T_background => wp R_background q anything w /\ wp r p' anything w
     | T_keeper => let u := w <| wd_keeper_done := is_done q |> in
         r = R_main /\ w.(wd_keeper_done) = true /\ wp R_keeper q anything u /\ wp r p' anything u
     end).
Proof.
  intros W I. assert (Rw : rely r w w) by reflexivity. destruct p as [[]|X o k|t q k]; cbn; [done|..].
  - cbn in W. destruct (sem o i w) as [[x u]|] eqn:S; cbn; [|done]. intros [= <- <- <-].
    destruct (W w Rw I i x u S) as (G & J & K). left. by split_and!.
  - intros [= <- <- <-]. cbn in W. specialize (W w Rw I). right. split; [done|]. by exists t, q.
Qed.

Section Adequacy.
Variable program : Prog unit.
Hypothesis program_ok : forall w, invariant w -> w.(wd_keeper_done) = true -> wp R_main program anything w.

Lemma boot_ok j t : let c := boot program j t in invariant c.(cf_world) -> config_ok c.
Proof. intros c I. split; try done; cbn; [by apply program_ok|]. by intros p Hp%not_elem_of_nil. Qed.

Lemma first_boot_ok : config_ok (first_boot program).
Proof.
  assert (S : state_sound empty_state) by (intros k e Hk; by apply not_elem_of_nil in Hk).
  assert (K : state_ok empty_state).
  { assert (V : nodeJournalStateSchema empty_state = Some empty_state) by done.
    apply (journal_schema_inv _ _ V). }
  assert (Sv : seen (L_saved empty_state) [(L_saved empty_state, empty_state)]) by left.
  apply boot_ok. split; try done.
Qed.

Lemma step_settled t c c' : config_ok c -> step program t c = Some c' ->
  config_ok c' /\ settled_le (memory c.(cf_world)) (memory c'.(cf_world)).
Proof.
  intros [I D Wm Wk Wb]. destruct c as [w m k b]. cbn [cf_world cf_main cf_keeper cf_background] in *.
  assert (Refl : settled_le (memory w) (memory w)) by reflexivity.
  destruct t as [i|i|n i| |s fired now|]; cbn [step cf_world cf_main cf_keeper cf_background].
  - (* the main task *)
    destruct (advance m i w) as [[[p child] v]|] eqn:A; cbn [mbind option_bind]; [|done].
    apply (advance_ok R_main) in A as [(G & J & -> & W)|(-> & t & q & -> & C)]; [| |done..].
    + intros [= <-]. split; [|apply G]. pose proof G as (L & Dv & _). split; cbn; try done.
      * congruence.
      * intros N. eapply any_rely, Wk, N. eapply guaranteed_keeper; [done|done|congruence].
      * intros x Hx. eapply any_rely, Wb, Hx. by eapply guaranteed_background.
    + destruct t; cbn [start_task cf_world cf_main cf_keeper cf_background] in *.
      * destruct C as (_ & Dw & Wq & Wp). destruct (is_done k) eqn:Ek; [|done]. intros [= <-]. split; [|done].
        split; cbn; try done.
        -- by apply (invariant_same w).
        -- intros x Hx. eapply any_rely, Wb, Hx. by split.
      * destruct C as (Wq & Wp). intros [= <-]. split; [|done]. split; cbn; try done.
        intros x [Hx| ->%list_elem_of_singleton]%elem_of_app; auto.
  - (* the keeper *)
    destruct (is_done k) eqn:Ek. { by destruct k. } specialize (Wk eq_refl).
    destruct (advance k i w) as [[[p child] v]|] eqn:A; cbn [mbind option_bind]; [|done].
    apply (advance_ok R_keeper) in A as [(G & J & -> & W)|(-> & t & q & -> & C)]; [| |done..].
    + intros [= <-]. split; [|apply G]. pose proof G as (L & Dv & _). split; cbn; try done.
      * by apply (invariant_same v).
      * eapply any_rely, Wm. eapply guaranteed_main; [done|done|by rewrite D|done].
      * intros N. assert (v <| wd_keeper_done := is_done p |> = v) as ->; [|done].
        rewrite N. rewrite <-D, <-Dv. by destruct v.
      * intros x Hx. eapply any_rely, Wb, Hx. split; [exact L|done].
    + destruct t; cbn [start_task cf_world cf_main cf_keeper cf_background] in *; [by destruct C|].
      destruct C as (Wq & Wp). intros [= <-]. split; [|done]. split; cbn; try done.
      * by apply (invariant_same w).
      * eapply any_rely, Wm. split; [done|]. rewrite D. reflexivity.
      * intros N. assert (w <| wd_keeper_done := is_done p |> = w) as ->; [|done].
        rewrite N, <-D. by destruct w.
      * intros x Hx. apply (any_rely _ _ w); [by split|].
        apply elem_of_app in Hx as [Hx| ->%list_elem_of_singleton]; auto.
  - (* a cancellation *)
    destruct (b !! n) as [q|] eqn:B; cbn [mbind option_bind]; [|done].
    assert (Hq : q ∈ b) by by eapply list_elem_of_lookup_2.
    destruct (advance q i w) as [[[p child] v]|] eqn:A; cbn [mbind option_bind]; [|done].
    apply (advance_ok R_background) in A as [(G & J & -> & W)|(-> & t & r & -> & C)];
      [| |by apply Wb|done..].
    + intros [= <-]. split; [|apply G]. pose proof G as (L & Dv & _). split; cbn; try done.
      * congruence.
      * eapply any_rely, Wm.
        assert (v = v <| wd_keeper_done := wd_keeper_done w |>) as -> by (rewrite <-Dv; by destruct v).
        by eapply guaranteed_main.
      * intros N. eapply any_rely, Wk, N. eapply guaranteed_keeper; [done|done|congruence].
      * intros x Hx. apply elem_of_insert_inv in Hx as [->|Hx]; [done|]. eapply any_rely, Wb, Hx. by split.
    + destruct t; cbn [start_task cf_world cf_main cf_keeper cf_background] in *; [by destruct C|].
      destruct C as (Wq & Wp). intros [= <-]. split; [|done]. split; cbn; try done.
      intros x [Hx| ->%list_elem_of_singleton]%elem_of_app; [|done].
      apply elem_of_insert_inv in Hx as [->|Hx]; [done|auto].
  - (* the shutdown signal *)
    intros [= <-]. split; [|done]. split; cbn; try done.
    + by apply (invariant_same w).
    + eapply any_rely, Wm. split; [done|]. cbn. destruct (wd_keeper_done w) eqn:E; [done|reflexivity].
    + intros N. eapply any_rely, Wk, N. split; [done|]. reflexivity.
    + intros x Hx. eapply any_rely, Wb, Hx. by split.
  - (* a timer *)
    destruct (_ !! s) as [mon|]; cbn [mbind option_bind]; [|done]. intros [= <-]. split; [|done]. split; cbn; try done.
    + by apply (invariant_same w).
    + eapply any_rely, Wm. split; [done|]. cbn. destruct (wd_keeper_done w) eqn:E; [done|reflexivity].
    + intros N. eapply any_rely, Wk, N. split; [done|]. reflexivity.
    + intros x Hx. eapply any_rely, Wb, Hx. by split.
  - (* the process dies and starts again *)
    unfold open. rewrite (so_valid _ (iv_disk_ok _ I)). cbn. intros [= <-]. split; [|apply I].
    apply boot_ok. destruct I. by split.
Qed.

Lemma execute_settled schedule c c' : config_ok c -> execute program schedule c = Some c' ->
  config_ok c' /\ settled_le (memory c.(cf_world)) (memory c'.(cf_world)).
Proof.
  revert c. induction schedule as [|t schedule IH]; intros c C; cbn; [intros [= <-]; split; [done|reflexivity]|].
  destruct (step program t c) as [d|] eqn:S; cbn; [|done]. intros E.
  destruct (step_settled _ _ _ C S) as [Cd L]. destruct (IH d Cd E) as [C' M]. split; [done|by transitivity (memory d.(cf_world))].
Qed.

(** An effect adds at most one entry to the log, with the journal after it. *)
Lemma sem_log {X : Type} (o : Op X) i w x u : sem o i w = Some (x, u) ->
  u.(wd_log) = w.(wd_log) \/ exists e, u.(wd_log) = (e, memory u) :: w.(wd_log).
Proof.
  intros S. assert (Lg : forall e v, wd_log v = wd_log w -> wd_log (log e v) = (e, memory (log e v)) :: wd_log w)
    by (intros e v E; cbn; by rewrite E).
  destruct o; cbn in S; destruct i; try done.
  all: repeat (case_match || (destruct (host_value _ _) as [?|]; cbn in S) || (destruct (f _ _) as [[??]|]; cbn in S)); simplify_eq; try by left.
  all: try (right; eexists; by apply Lg).
  unfold answered. case_match; [right; eexists; by apply Lg|by left].
Qed.
Lemma step_log t c c' : step program t c = Some c' -> c'.(cf_world).(wd_log) = c.(cf_world).(wd_log) \/
  exists e, c'.(cf_world).(wd_log) = (e, memory c'.(cf_world)) :: c.(cf_world).(wd_log).
Proof.
  assert (Adv : forall p i w p' child v, advance p i w = Some (p', child, v) ->
    v.(wd_log) = w.(wd_log) \/ exists e, v.(wd_log) = (e, memory v) :: w.(wd_log)).
  { intros p i w p' child v. destruct p as [a|X o k|q r k]; cbn; [done| |intros [= _ _ <-]; by left].
    destruct (sem o i w) as [[x u]|] eqn:S; cbn; [|done]. intros [= _ _ <-]. by eapply sem_log. }
  assert (St : forall child d d', start_task child d = Some d' -> wd_log (cf_world d') = wd_log (cf_world d) /\
    memory (cf_world d') = memory (cf_world d)).
  { intros [[[] q]|] d d'; cbn; [destruct (is_done _); [|done]|..]; by intros [= <-]. }
  destruct c as [w m k b]. destruct t as [i|i|n i| |session fired now|]; cbn [step cf_world cf_main cf_keeper cf_background].
  all: try (destruct (b !! n) as [q|]; cbn [mbind option_bind]; [|done]).
  1,2,3: destruct (advance _ i w) as [[[p child] v]|] eqn:A; cbn [mbind option_bind]; [|done];
    intros [-> ->]%St; exact (Adv _ _ _ _ _ _ A).
  - intros [= <-]. by left.
  - destruct (_ !! session); cbn [mbind option_bind]; [|done]. intros [= <-]. by left.
  - destruct (open _); cbn [mbind option_bind]; [|done]. intros [= <-]. by left.
Qed.
Lemma execute_after schedule c c' : config_ok c -> execute program schedule c = Some c' ->
  exists l, c'.(cf_world).(wd_log) = l ++ c.(cf_world).(wd_log) /\
    forall e s, (e, s) ∈ l -> settled_le (memory c.(cf_world)) s.
Proof.
  revert c. induction schedule as [|t schedule IH]; intros c C; cbn.
  { intros [= <-]. exists []. split; [done|]. by intros e s Hs%not_elem_of_nil. }
  destruct (step program t c) as [d|] eqn:S; cbn; [|done]. intros E.
  destruct (step_settled _ _ _ C S) as [Cd L]. destruct (IH d Cd E) as (l & Ed & After).
  assert (Af : forall e s, (e, s) ∈ l -> settled_le (memory (cf_world c)) s) by (intros e s Hs; etransitivity; [exact L|by eapply After]).
  destruct (step_log _ _ _ S) as [Es|[e Es]]; rewrite Es in Ed.
  - by exists l.
  - exists (l ++ [(e, memory (cf_world d))]). split; [by rewrite <-app_assoc|].
    intros x s [Hs|[= -> ->]%list_elem_of_singleton]%elem_of_app; [by eapply Af|done].
Qed.
End Adequacy.
End Invariant.

(** ** Rules *)

Section Rules.
Context `{Zod, NodeJs} (config : NodeConfig).
Local Abbreviation invariant := (invariant config).
Local Abbreviation wp := (wp config).

(** ** Triples *)
Definition Assertion := World -> Prop.
Definition spec (r : Role) (P : Assertion) {A : Type} (p : Prog A) (Q : A -> Assertion) : Prop :=
  forall w, P w -> wp r p Q w.
(** A program that may throw. *)
Definition post {A : Type} (Q : A -> Assertion) (E : NodeError -> Assertion) (x : result NodeError A) : Assertion :=
  match x with Ok a => Q a | Err e => E e end.
Definition stable (r : Role) (P : Assertion) : Prop := forall w v, rely r w v -> P w -> P v.

Lemma spec_ret r P {A : Type} (a : A) (Q : A -> Assertion) : (forall w, P w -> Q a w) -> spec r P (Ret a) Q.
Proof. done. Qed.
Lemma spec_bind r P {A B : Type} (p : Prog A) (f : A -> Prog B) R Q :
  spec r P p R -> (forall a, spec r (R a) (f a) Q) -> spec r P (bind p f) Q.
Proof. intros S F w Pw. apply wp_bind. eapply wp_mono; [|by apply S]. intros a v. apply F. Qed.
Lemma spec_weaken r P P' {A : Type} (p : Prog A) (Q Q' : A -> Assertion) :
  spec r P p Q -> (forall w, P' w -> P w) -> (forall a w, Q a w -> Q' a w) -> spec r P' p Q'.
Proof. intros S I J w Pw. eapply wp_mono; [apply J|]. by apply S, I. Qed.
Lemma spec_pre r P P' {A : Type} (p : Prog A) (Q : A -> Assertion) :
  (forall w, P' w -> P w) -> spec r P p Q -> spec r P' p Q.
Proof. intros I S. by eapply spec_weaken. Qed.
Lemma spec_post r P {A : Type} (p : Prog A) (Q Q' : A -> Assertion) :
  spec r P p Q -> (forall a w, Q a w -> Q' a w) -> spec r P p Q'.
Proof. intros S J. by eapply spec_weaken. Qed.
Lemma spec_or r P P' {A : Type} (p : Prog A) (Q : A -> Assertion) :
  spec r P p Q -> spec r P' p Q -> spec r (fun w => P w \/ P' w) p Q.
Proof. intros S S' w [?|?]; auto. Qed.
Lemma spec_pure r (F : Prop) P {A : Type} (p : Prog A) (Q : A -> Assertion) :
  (F -> spec r P p Q) -> spec r (fun w => P w /\ F) p Q.
Proof. intros S w [? ?]. by apply S. Qed.

Definition throw_ {A B : Type} (k : A -> M B) (x : result NodeError A) : M B :=
  match x with Ok a => k a | Err e => raise e end.
Lemma spec_let r P {A B : Type} (p : M A) (k : A -> M B) R E Q E' :
  spec r P p (post R E) -> (forall e w, E e w -> E' e w) -> (forall a, spec r (R a) (k a) (post Q E')) ->
  spec r P (bind p (throw_ k)) (post Q E').
Proof. intros S I F. eapply spec_bind; [exact S|]. intros [a|e]; [apply F|]. apply spec_ret, I. Qed.
Lemma spec_try r P {A : Type} (p : M A) h R E Q E' :
  spec r P p (post R E) -> (forall a w, R a w -> Q a w) -> (forall e, spec r (E e) (h e) (post Q E')) ->
  spec r P (try_catch p h) (post Q E').
Proof. intros S I F. eapply spec_bind; [exact S|]. intros [a|e]; [apply spec_ret, I|apply F]. Qed.
Lemma spec_act r P {X : Type} (o : Op X) Q : stable r P ->
  (forall v, P v -> invariant v -> forall i x u, sem o i v = Some (x, u) ->
     guarantee r v u /\ invariant u /\ Q x u) -> spec r P (act o) Q.
Proof.
  intros St O w Pw v R I i x u S. destruct (O v (St _ _ R Pw) I i x u S) as (G & J & K). by split_and!.
Qed.

(** What is only added to: facts of the log. *)
Definition lasting (F : trace -> Prop) : Prop := forall t u, t `suffix_of` u -> F t -> F u.
Lemma spec_frame r (F : trace -> Prop) P {A : Type} (p : Prog A) Q : lasting F -> spec r P p Q ->
  spec r (fun w => P w /\ F w.(wd_log)) p (fun a w => Q a w /\ F w.(wd_log)).
Proof.
  intros L S w [Pw Fw]. specialize (S w Pw). clear Pw P.
  revert w Fw S. induction p as [A a|A X o k IH|A t child IHc k IH]; intros w Fw; cbn; [done|..].
  - intros W v R I i x u S. destruct (W v R I i x u S) as (G & J & K). split_and!; try done.
    apply IH; [|done]. eapply L; [|exact Fw]. etransitivity; [apply R|apply G].
  - intros W v R I. specialize (W v R I). assert (Fv : F (wd_log v)) by (eapply L; [apply R|done]).
    destruct t; [destruct W as (? & ? & ? & K)|destruct W as (? & K)]; split_and!; try done; by apply IH.
Qed.

(** ** Changes of the journal *)
(** The grants of an entry, its session and its last error; no triple speaks of them. *)
Definition minor (e f : JournalDelivery) : Prop := exists s g p l t,
  f = e <| jd_host_session := s |> <| jd_runtime_authority := g |> <| jd_runtime_authority_predecessor := p |>
        <| jd_last_error := l |> <| jd_updated_at := t |>.
#[export] Instance minor_preorder : PreOrder minor.
Proof.
  split.
  - intros e. exists (jd_host_session e), (jd_runtime_authority e), (jd_runtime_authority_predecessor e),
      (jd_last_error e), (jd_updated_at e). by destruct e.
  - intros e f g (s1 & g1 & p1 & l1 & t1 & ->) (s2 & g2 & p2 & l2 & t2 & ->). by exists s2, g2, p2, l2, t2.
Qed.

Lemma sound_fields e f :
  f.(jd_start_turn_input) = e.(jd_start_turn_input) -> f.(jd_operation) = e.(jd_operation) ->
  f.(jd_result) = e.(jd_result) -> f.(jd_host_events) = e.(jd_host_events) -> settled f = settled e ->
  sound e -> sound f.
Proof. intros E1 E2 E3 E4 E5 []. split; rewrite ?E1, ?E2, ?E3, ?E4, ?E5; done. Qed.
Lemma minor_kept e f : minor e f -> lease_kept e f.
Proof. by intros (s & g & p & l & t & ->). Qed.
Lemma minor_sound e f : minor e f -> sound e -> sound f.
Proof. intros (s & g & p & l & t & ->). by apply sound_fields. Qed.

Definition closed (R : JournalDelivery -> JournalDelivery -> Prop) (φ : JournalDelivery -> Prop) : Prop :=
  forall e f, R e f -> φ e -> φ f.

(** A change of a state that is minor in every delivery. *)
Record minor_state (s t : NodeJournalState) : Prop := {
  mi_entries : entrywise minor s t;
  mi_from : forall k e, (k, e) ∈ t.(nj_deliveries) -> exists f, (k, f) ∈ s.(nj_deliveries) /\ minor f e;
  mi_acceptances : t.(nj_mission_acceptances) = s.(nj_mission_acceptances) }.
Lemma same_minor s t : t.(nj_deliveries) = s.(nj_deliveries) -> t.(nj_mission_acceptances) = s.(nj_mission_acceptances) ->
  minor_state s t.
Proof.
  intros E A. split; [|rewrite E; by intros k e He; exists e|done]. intros k. unfold entry_of. rewrite E. reflexivity.
Qed.

(** An assertion that no minor change breaks. *)
Definition firm (r : Role) (P : Assertion) : Prop :=
  stable r P /\ forall w u, w.(wd_log) `suffix_of` u.(wd_log) -> u.(wd_keeper_done) = w.(wd_keeper_done) ->
    minor_state (memory w) (memory u) -> P w -> P u.

(** What the tasks may make of the journal at once. *)
Definition allowed (r : Role) (w : World) (s : NodeJournalState) : Prop :=
  match r with
  | R_main => w.(wd_keeper_done) = true \/ entrywise lease_kept (memory w) s
  | R_keeper => entrywise lease_moved (memory w) s
  | R_background => s = memory w
  end.
Definition journal_failed (e : NodeError) : Prop := exists j, e.(er_class) = E_journal j.

Lemma sound_valid s t : state_sound s -> nodeJournalStateSchema s = Some t -> t = s.
Proof.
  intros S V. apply journal_schema_inv in V as (_ & D & ->).
  assert (nj_deliveries t = nj_deliveries s) as ->; [|by destruct s].
  unfold state_sound in S. revert D S. generalize (nj_deliveries s) (nj_deliveries t). clear.
  induction d as [|[k e] l IH]; intros o; unfold record_of; cbn; [by intros [= <-]|]. intros D S.
  destruct (uuidSchema k); [|done]. destruct (journalDeliverySchema e) as [e'|] eqn:Ee; cbn in D; [|done].
  destruct (mapM _ l) as [r|] eqn:M; cbn in D; [|done]. injection D as <-.
  rewrite (IH r M) by (intros j x Hx; apply (S j); by right). f_equal. f_equal.
  apply delivery_schema_inv in Ee as (i & P & -> & _). assert (He : sound e) by (apply (S k); left).
  rewrite (sd_input _ He) in P.
  injection P as <-. by destruct e.
Qed.

Lemma same_rely r w u : w.(wd_log) `suffix_of` u.(wd_log) -> u.(wd_keeper_done) = w.(wd_keeper_done) ->
  memory u = memory w -> rely r w u.
Proof.
  intros L D E. split; [done|]. destruct r; [|by rewrite E|done]. destruct (wd_keeper_done w) eqn:X; [by rewrite D|].
  by rewrite E.
Qed.
Lemma same_guarantee r w u : w.(wd_log) `suffix_of` u.(wd_log) -> u.(wd_keeper_done) = w.(wd_keeper_done) ->
  memory u = memory w -> guarantee r w u.
Proof.
  intros L D E. split_and!; try done; [by rewrite E|]. destruct r; rewrite ?E; try done. by right.
Qed.

(** One journal update. *)
Lemma journal_spec r P {A : Type} (m : Z -> Z -> Mutation A) Q : stable r P ->
  (forall w now later a s, invariant w -> P w -> m now later (memory w) = Ok (a, s) ->
     state_sound s /\ settled_le (memory w) s /\ allowed r w s /\
     forall u, memory u = s -> u.(wd_keeper_done) = w.(wd_keeper_done) ->
       w.(wd_log) `suffix_of` u.(wd_log) -> Q a u) ->
  spec r P (act (OnJournal m)) (post Q (fun e w => journal_failed e /\ P w)).
Proof.
  intros St O. apply spec_act; [done|]. intros v Pv I i x u S. cbn in S. destruct i; try done.
  destruct (update (m now later) save (wd_journal v)) as [j a] eqn:U. injection S as <- <-.
  assert (Suf : wd_log v `suffix_of` (L_saved (nj_disk j), nj_memory j) :: wd_log v) by by eexists [_].
  unfold update in U. fold (memory v) in U. destruct I as [I1 I2 I3 I4 I5 I6 I7 I8].
  (* the journal is as it was *)
  assert (Same : j = wd_journal v -> forall e, a = Err e ->
    let u := log (L_saved (nj_disk j)) (v <| wd_journal := j |>) in
    guarantee r v u /\ invariant u /\
    post Q (fun e w => journal_failed e /\ P w) (match a with Ok x => Ok x | Err e => Err (error_of (E_journal e) message) end) u).
  { intros -> e -> u. assert (Ru : rely r v u) by by apply same_rely.
    split_and!; [by apply same_guarantee| |split; [by eexists|by eapply St]].
    split; try done; cbn; unfold seen; rewrite ?fmap_cons; try (right; exact I6); try (right; exact I7); done. }
  destruct (m now later (memory v)) as [[y next]|e] eqn:Em; [|injection U as <- <-; by eapply Same].
  destruct (nodeJournalStateSchema next) as [d|] eqn:V; [|injection U as <- <-; by eapply Same].
  destruct (O v now later y next) as (So & Le & Al & Po); [by split|done..|].
  pose proof (journal_schema_inv _ _ V) as (Ok_ & _). apply sound_valid in V as ->; [|done].
  destruct save; injection U as <- <-; [|by eapply Same|].
  - (* saved *)
    split_and!; [|split|]; try done; cbn; unfold seen; rewrite ?fmap_cons; try by left.
    by apply Po.
  - (* on the disk, and not confirmed *)
    set (u := log _ _). assert (Ru : rely r v u) by by apply same_rely.
    split_and!; [by apply same_guarantee| |split; [by eexists|by eapply St]].
    split; try done; cbn; unfold seen; rewrite ?fmap_cons; try by left. right; exact I6.
Qed.

(** ** Programs that leave the deliveries alone *)
Definition quiet_request {A : Type} (q : RelayRequest A) : Prop :=
  match q with
  | RqMe | RqRegisterWorkspace _ | RqListAssignments _ _ _ | RqGetAssignment _ | RqPollDeliveries _
  | RqRecoverDeliveries => True
  | _ => False
  end.
Definition quiet_call {A : Type} (c : HostCall A) : Prop :=
  match c with StartTurn _ | RecoverTurn _ _ => False | _ => True end.
Definition minor_mutation {A : Type} (m : Mutation A) : Prop := forall s a t, m s = Ok (a, t) -> minor_state s t.
Definition quiet_op (r : Role) {X : Type} (o : Op X) : Prop :=
  match o with
  | OnJournal m => r = R_main /\ forall now later, minor_mutation (m now later)
  | Send q => quiet_request q
  | Host c | RaceHost c _ => quiet_call c
  | _ => True
  end.
Fixpoint quiet (r : Role) {A : Type} (p : Prog A) : Prop :=
  match p with
  | Ret _ => True
  | Act o k => quiet_op r o /\ forall x, quiet r (k x)
  | Fork T_background child k => quiet R_background child /\ quiet r k
  | Fork T_keeper _ _ => False
  end.
Lemma quiet_then r {A B : Type} (p : Prog A) (f : A -> Prog B) :
  quiet r p -> (forall a, quiet r (f a)) -> quiet r (bind p f).
Proof.
  revert B f. induction p as [A a|A X o k IH|A t child IHc k IH]; intros B f; cbn; [auto|..].
  - intros [? K] F. split; [done|]. intros x. by apply IH.
  - destruct t; [done|]. intros [? K] F. split; [done|]. by apply IH.
Qed.

(** An effect that is quiet and no update. *)
Lemma quiet_sem r {X : Type} (o : Op X) i v x u : quiet_op r o -> invariant v -> sem o i v = Some (x, u) ->
  match o with OnJournal _ => True | _ =>
    v.(wd_log) `suffix_of` u.(wd_log) /\ u.(wd_keeper_done) = v.(wd_keeper_done) /\ memory u = memory v /\ invariant u
  end.
Proof.
  intros Qo I S.
  assert (Lg : forall e, match e with L_sent q => journaled_intent q (memory v) | L_host c => quiet_call c | _ => True end ->
    let u := log e v in wd_log v `suffix_of` wd_log u /\ wd_keeper_done u = wd_keeper_done v /\ memory u = memory v /\ invariant u).
  { intros e He. split_and!; try done; [by eexists [_]|]. destruct I as [I1 I2 I3 I4 I5 I6 I7 I8].
    split; try done; cbn; unfold seen; rewrite ?fmap_cons; try (right; assumption).
    split; [|done]. destruct e; cbn; try done. by destruct c. }
  assert (Nl : let u := v in wd_log v `suffix_of` wd_log u /\ wd_keeper_done u = wd_keeper_done v /\ memory u = memory v /\ invariant u)
    by by split_and!.
  assert (Loc : forall l, let u := v <| wd_locals := l |> in
    wd_log v `suffix_of` wd_log u /\ wd_keeper_done u = wd_keeper_done v /\ memory u = memory v /\ invariant u).
  { intros l. split_and!; try done. by apply (invariant_same config v). }
  destruct o; cbn in S, Qo; try done.
  all: destruct i; try done; cbn in S.
  all: repeat (case_match || (destruct (host_value _ _) as [?|]; cbn in S) || (destruct (f _ _) as [[??]|]; cbn in S)); simplify_eq; try done.
  all: try (by apply Lg).
  - apply Lg. by destruct r0.
  - unfold answered. case_match; [by apply Lg|done].
Qed.

Lemma quiet_act r {X : Type} (o : Op X) : quiet_op r o -> quiet r (act o).
Proof. by split. Qed.
Lemma put_minor d e f s : entry_of d s = Some e -> minor e f -> minor_state s (put_delivery d f s).
Proof.
  intros E M. split; [..|done].
  - intros k. unfold entry_of, put_delivery. cbn. destruct (decide (k = d)) as [->|N].
    + rewrite dict_get_set_eq. unfold entry_of in E. rewrite E. by constructor.
    + rewrite dict_get_set_ne by done. reflexivity.
  - intros k x [[= -> ->]|Hx]%elem_of_dict_set; [|by exists x].
    exists e. split; [by apply dict_get_elem|done].
Qed.
Lemma edit_minor d f : (forall now e e', f now e = Ok e' -> minor e e') -> quiet R_main (edit d f).
Proof.
  intros F. apply quiet_act. split; [done|]. intros now later s a t E. unfold updateDelivery in E. ok_inv E.
  injection E as <- <-. apply put_minor with j; [done|]. destruct (f now j) as [b|] eqn:U; [|done].
  injection E2 as <-. apply F in U. etransitivity; [exact U|].
  by exists (jd_host_session b), (jd_runtime_authority b), (jd_runtime_authority_predecessor b), (jd_last_error b),
    (toISOString later).
Qed.
Lemma quiet_spec r {A : Type} (p : Prog A) : quiet r p ->
  forall P, firm r P -> spec r P p (fun _ => P).
Proof.
  revert r. induction p as [A a|A X o k IH|A t child IHc k IH]; intros r; cbn; [by intros _ P _ w|..].
  - intros [Qo K] P F w Pw v R I i x u S. destruct F as [St Fm]. assert (Pv : P v) by by eapply St.
    pose proof (quiet_sem r o i v x u Qo I S) as Qs.
    assert (Easy : v.(wd_log) `suffix_of` u.(wd_log) /\ u.(wd_keeper_done) = v.(wd_keeper_done) /\
        memory u = memory v /\ invariant u ->
      guarantee r v u /\ invariant u /\ wp r (k x) (fun _ => P) u).
    { intros (L & D & E & J). split_and!; [by apply same_guarantee|done|]. apply IH; [done|by split|].
      eapply St; [|done]. by apply same_rely. }
    destruct o; try by apply Easy. clear Qs Easy. destruct Qo as [-> M].
    assert (Sp : spec R_main P (act (OnJournal m)) (fun _ => P)); [|].
    { eapply spec_post; [apply (journal_spec R_main P m (fun _ => P)); [done|]|intros [a'|e] u' Hu; [exact Hu|apply Hu]].
      intros v' now later a s I' Pv' E. apply M in E as Mn. pose proof (mi_entries _ _ Mn) as En. split_and!.
      - intros j e He. apply (mi_from _ _ Mn) in He as (f & Hf & Mf). eapply minor_sound; [exact Mf|]. by eapply I'.
      - intros j e He Se. specialize (En j). rewrite He in En. inversion En as [? f Mf Ej E'|]. subst.
        exists f. split; [done|]. apply minor_kept in Mf as (_ & _ & _ & ->). done.
      - right. intros j. specialize (En j). inversion En; constructor. by apply minor_kept.
      - intros u' <- D L. by eapply Fm. }
    destruct (Sp v Pv v ltac:(reflexivity) I i x u S) as (G & J & Pu). split_and!; try done.
    apply IH; [done|by split|done].
  - destruct t; [done|]. intros [Qc Qk] P F w Pw v R I. destruct F as [St Fm]. assert (Pv : P v) by by eapply St.
    split; [|by apply IH]. eapply wp_mono; [|apply (IHc _ Qc (fun _ => True)); by split]. done.
Qed.
Lemma quiet_post r P {A : Type} (p : M A) : firm r P -> quiet r p -> spec r P p (post (fun _ => P) (fun _ => P)).
Proof. intros F Q. eapply spec_post; [by apply quiet_spec|]. by intros []. Qed.

(** ** What a task knows of its delivery *)
Definition at_ (c : bool) (d : string) (φ : JournalDelivery -> Prop) : Assertion := fun w =>
  (c = true -> w.(wd_keeper_done) = true) /\ exists e, entry_of d (memory w) = Some e /\ φ e.
(** [c] says that the keeper is known to have stopped. *)
Definition own (r : Role) (c : bool) (φ : JournalDelivery -> Prop) : Prop :=
  match r with
  | R_main => c = true \/ closed lease_moved φ
  | R_keeper => c = false /\ closed lease_kept φ
  | R_background => False
  end.
Definition idle : Assertion := fun w => w.(wd_keeper_done) = true.

Lemma entrywise_at R s t d φ e : entrywise R s t -> closed R φ -> entry_of d s = Some e -> φ e ->
  exists f, entry_of d t = Some f /\ φ f.
Proof.
  intros En C E Pe. specialize (En d). rewrite E in En. inversion En as [? f M|]. subst. exists f.
  split; [done|by eapply C].
Qed.
Lemma at_stable r c d φ : own r c φ -> stable r (at_ c d φ).
Proof.
  intros O w v [L R] [C (e & E & Pe)]. destruct r; [|destruct O as [-> O]|done].
  - destruct (wd_keeper_done w) eqn:D.
    + destruct R as [R M]. split; [done|]. exists e. by rewrite M.
    + destruct c; [by specialize (C eq_refl)|]. destruct O as [O|O]; [done|]. split; [done|].
      by eapply entrywise_at.
  - split; [done|]. by eapply entrywise_at.
Qed.
Lemma at_firm r c d φ : own r c φ -> closed minor φ -> firm r (at_ c d φ).
Proof.
  intros O M. split; [by apply at_stable|]. intros w u _ D [En _ _] [C (e & E & Pe)]. split; [by rewrite D|].
  by eapply entrywise_at.
Qed.
Lemma idle_firm : firm R_main idle.
Proof.
  split; [|by intros w u _ D _; unfold idle; rewrite D]. unfold idle. intros w v [_ R] D. rewrite D in R. by destruct R.
Qed.
Lemma at_mono c d (φ ψ : JournalDelivery -> Prop) : (forall e, φ e -> ψ e) -> forall w, at_ c d φ w -> at_ c d ψ w.
Proof. intros I w [C (e & E & Pe)]. split; [done|]. exists e. auto. Qed.
Lemma at_idle d φ w : at_ true d φ w -> idle w.
Proof. intros [C _]. by apply C. Qed.
Lemma at_running c d φ w : at_ c d φ w -> at_ false d φ w.
Proof. intros [C E]. by split. Qed.

(** Reading the entry. *)
Definition now_at (c : bool) (a e : JournalDelivery) : Prop := if c then e = a else lease_moved a e.
Record journaled (d : string) (a : JournalDelivery) : Prop := {
  jn_sound : sound a; jn_ok : entry_ok a; jn_id : (entry_delivery a).(d_delivery_id) = d }.
Lemma invariant_journaled w d a : invariant w -> entry_of d (memory w) = Some a -> journaled d a.
Proof.
  intros I E%dict_get_elem. split; [by apply (iv_memory _ _ I d)|by apply (so_delivery _ (iv_memory_ok _ _ I) d)..].
Qed.
Lemma require_spec d P Q : stable R_main P ->
  (forall w a, P w -> entry_of d (memory w) = Some a -> journaled d a -> Q a w) ->
  spec R_main P (requireEntry d) (post (fun a w => Q a w /\ journaled d a) (fun e w => P w /\ e.(er_class) = E_other)).
Proof.
  intros St R. eapply spec_bind.
  - apply (spec_act R_main P Snapshot (fun s w => P w /\ forall a, entry_of d s = Some a -> Q a w /\ journaled d a)); [done|].
    intros v Pv I i x u S. destruct i; try done. injection S as <- <-.
    split_and!; [by apply same_guarantee|done|done|]. intros a E. pose proof (invariant_journaled _ _ _ I E). auto.
  - intros s. cbn. destruct (dict_get d (nj_deliveries s)) as [a|] eqn:E; cbn; intros w [Pw R']; [by apply R'|done].
Qed.
Lemma reads_spec c d φ : own R_main c φ ->
  spec R_main (at_ c d φ) (requireEntry d)
    (post (fun a w => at_ c d (fun e => φ e /\ now_at c a e) w /\ φ a /\ journaled d a) (fun _ => at_ c d φ)).
Proof.
  intros O. eapply spec_post.
  - apply (require_spec d (at_ c d φ) (fun a w => at_ c d (fun e => φ e /\ now_at c a e) w /\ φ a)); [by apply at_stable|].
    intros w a [C (e & E' & Pe)] E _. rewrite E in E'. injection E' as <-. split; [|done]. split; [done|].
    exists a. split_and!; try done. by destruct c.
  - intros [a|e] w; cbn; tauto.
Qed.
Lemma finds_spec d : spec R_main idle (requireEntry d)
  (post (fun a w => at_ true d (fun e => e = a) w /\ journaled d a) (fun _ => idle)).
Proof.
  eapply spec_post.
  - apply (require_spec d idle (fun a w => at_ true d (fun e => e = a) w)); [apply idle_firm|].
    intros w a Pw E _. split; [done|by exists a].
  - intros [a|e] w; cbn; tauto.
Qed.

(** ** Requests *)
Lemma logs r e v : invariant v -> event_ok config e (memory v) v.(wd_log) ->
  guarantee r v (log e v) /\ invariant (log e v) /\ rely r v (log e v).
Proof.
  intros [I1 I2 I3 I4 I5 I6 I7 I8] Ev. assert (L : wd_log v `suffix_of` wd_log (log e v)) by by eexists [_].
  split_and!; [by apply same_guarantee| |by apply same_rely].
  split; try done; cbn; unfold seen; rewrite ?fmap_cons; by right.
Qed.
Lemma send_spec r P {A : Type} (q : RelayRequest A) : stable r P ->
  (forall w, P w -> journaled_intent q (memory w)) -> spec r P (act (Send q)) (fun _ => P).
Proof.
  intros St In. apply spec_act; [done|]. intros v Pv I i x u S. destruct i; try done. injection S as <- <-.
  destruct (logs r (L_sent q) v I) as (G & J & R); [|by split_and!; [..|by eapply St]].
  destruct I. split_and!; auto.
Qed.
Definition answered_by {A : Type} (q : RelayRequest A) (a : A) (w : World) : Prop := seen (L_answered q a) w.(wd_log).
Lemma receive_spec r P {A : Type} (q : RelayRequest A) : stable r P ->
  spec r P (act (Receive q)) (fun reply w => P w /\ forall a, read_reply q reply = Ok a -> answered_by q a w).
Proof.
  intros St. apply spec_act; [done|]. intros v Pv I i x u S. destruct i as [| | | |reply| | | | | |]; try done.
  injection S as <- <-. unfold answered. destruct (read_reply q reply) as [a|e] eqn:E.
  - destruct (logs r (L_answered q a) v I) as (G & J & R); [done|]. split_and!; try done; [by eapply St|].
    intros b [= <-]. left.
  - split_and!; try done; by apply same_guarantee.
Qed.
Lemma lasting_firm r P F : firm r P -> lasting F -> firm r (fun w => P w /\ F w.(wd_log)).
Proof.
  intros [St M] L. split; [intros w v R [? ?]|intros w v S D E [? ?]]; split; eauto. eapply L; [apply R|done].
Qed.
Lemma throws_spec r P s : firm r P -> spec r P (throwIfAborted s) (post (fun _ => P) (fun _ => P)).
Proof. intros F. apply quiet_post; [done|]. split; [done|]. by intros []. Qed.
Lemma seen_lasting e : lasting (seen e).
Proof. intros t u [l ->] S. unfold seen. rewrite fmap_app. apply elem_of_app. by right. Qed.

Lemma request_spec r P {A : Type} (q : RelayRequest A) s : firm r P ->
  (forall w, P w -> journaled_intent q (memory w)) ->
  spec r P (request q s) (post (fun a w => P w /\ answered_by q a w) (fun _ => P)).
Proof.
  intros F In. pose proof (proj1 F) as St. unfold request. destruct (request_path q); [|by apply spec_ret].
  generalize 1 at 1. generalize 2%nat. intros n. induction n as [|n IH]; intros k; cbn [request_attempts].
  all: eapply spec_let; [by apply throws_spec|done|intros []].
  all: eapply spec_bind; [by apply send_spec|intros []].
  all: eapply spec_bind; [by apply receive_spec|intros reply].
  all: destruct (read_reply q reply) as [a|e] eqn:Er; [apply spec_ret; intros w [Pw Aw]; by split; [|apply Aw]|].
  all: eapply spec_pre; [intros w [Pw _]; exact Pw|].
  all: eapply spec_bind; [apply quiet_spec; [|exact F]; by case_match|]; intros ab; destruct ab; [by apply spec_ret|].
  - by apply spec_ret.
  - destruct (refused_below_500 e); [by apply spec_ret|].
    eapply spec_let; [by apply quiet_post|done|]. intros []. apply IH.
Qed.

(** ** Updates of the delivery *)
Definition may (r : Role) (c : bool) (e f : JournalDelivery) : Prop :=
  match r with
  | R_main => c = true \/ lease_kept e f
  | R_keeper => lease_moved e f
  | R_background => False
  end.
Definition delivery_mutation (d : string) (R : JournalDelivery -> JournalDelivery -> Prop)
    (m : Mutation JournalDelivery) : Prop :=
  forall s a t, m s = Ok (a, t) -> exists e, entry_of d s = Some e /\ R e a /\ t = put_delivery d a s.

Lemma entrywise_put (R : JournalDelivery -> JournalDelivery -> Prop) `{!PreOrder R} d e a s :
  entry_of d s = Some e -> R e a -> entrywise R s (put_delivery d a s).
Proof.
  intros E M k. unfold entry_of, put_delivery. cbn. destruct (decide (k = d)) as [->|N].
  - rewrite dict_get_set_eq. unfold entry_of in E. rewrite E. by constructor.
  - rewrite dict_get_set_ne by done. reflexivity.
Qed.

Lemma put_sound d a s : state_sound s -> sound a ->
  (forall e, entry_of d s = Some e -> settled e = true -> settled a = true) ->
  state_sound (put_delivery d a s) /\ settled_le s (put_delivery d a s).
Proof.
  intros S Sa Le. split.
  - intros k x [[= -> ->]|Hx]%elem_of_dict_set; [done|]. by apply (S k).
  - intros k x Ex Sx. unfold entry_of, put_delivery. cbn. destruct (decide (k = d)) as [->|N].
    + rewrite dict_get_set_eq. exists a. eauto.
    + rewrite dict_get_set_ne by done. by exists x.
Qed.

Lemma update_spec r c d φ m R (ψ : JournalDelivery -> JournalDelivery -> Prop) : own r c φ ->
  (forall now later, delivery_mutation d R (m now later)) ->
  (forall e a, R e a -> φ e -> sound e ->
     sound a /\ (settled e = true -> settled a = true) /\ may r c e a /\ ψ a a) ->
  spec r (at_ c d φ) (act (OnJournal m))
    (post (fun a => at_ c d (ψ a)) (fun e w => journal_failed e /\ at_ c d φ w)).
Proof.
  intros O M V. apply journal_spec; [by apply at_stable|].
  intros w now later a s I [C (e & E & Pe)] Em. apply M in Em as (e' & E' & Re & ->).
  rewrite E in E'. injection E' as <-.
  destruct (V e a Re Pe) as (So & Se & Ma & Ps); [by apply (iv_memory _ _ I d), dict_get_elem|].
  destruct (put_sound d a (memory w)) as [So' Le]; [apply I|done|intros x Ex; rewrite E in Ex; by injection Ex as <-|].
  split_and!; [done..| |].
  - destruct r; [|by eapply entrywise_put; [apply _|..]|done].
    destruct Ma as [->|Ma]; [left; auto|right]. by eapply entrywise_put; [apply _|..].
  - intros u Eu Du _. split; [by rewrite Du|]. exists a. rewrite Eu. split; [|done].
    unfold entry_of, put_delivery. cbn. apply dict_get_set_eq.
Qed.

Lemma updated_minor e t : minor e (e <| jd_updated_at := t |>).
Proof. by exists (jd_host_session e), (jd_runtime_authority e), (jd_runtime_authority_predecessor e), (jd_last_error e), t. Qed.
Lemma updated_moved e t : lease_moved e (e <| jd_updated_at := t |>).
Proof. split; [done|]. by exists (jd_renew_count e), (jd_operation e), (jd_item e), t. Qed.
Lemma may_updated r c e f t : may r c e f -> may r c e (f <| jd_updated_at := t |>).
Proof.
  destruct r; cbn; [|intros M; etransitivity; [exact M|apply updated_moved]|done].
  intros [?|M]; [by left|right]. etransitivity; [exact M|]. apply minor_kept, updated_minor.
Qed.
Lemma edit_spec r c d φ f (ψ : JournalDelivery -> Prop) : own r c φ -> closed minor ψ ->
  (forall now e b, f now e = Ok b -> φ e -> sound e ->
     sound b /\ (settled e = true -> settled b = true) /\ may r c e b /\ ψ b) ->
  spec r (at_ c d φ) (edit d f) (post (fun _ => at_ c d ψ) (fun e w => journal_failed e /\ at_ c d φ w)).
Proof.
  intros O C V. apply (update_spec r c d φ _ (fun e a => exists now t b, f now e = Ok b /\ a = b <| jd_updated_at := t |>)
    (fun _ => ψ)); [done|..].
  - intros now later s a t E. unfold updateDelivery in E. ok_inv E. injection E as <- <-. exists j.
    destruct (f now j) as [b|] eqn:U; [|done]. split_and!; [done| |done]. exists now, (toISOString later), b.
    split; [done|]. congruence.
  - intros e a (now & t & b & E & ->) Pe Se. destruct (V now e b E Pe Se) as (Sb & Sl & M & Pb).
    pose proof (updated_minor b t) as U. split_and!; [by eapply minor_sound|done|by apply may_updated|by eapply C].
Qed.

(** ** The host and the keeper *)
Lemma host_spec r P (c : HostCall unit) : stable r P ->
  (forall w, invariant w -> P w -> event_ok config (L_host c) (memory w) w.(wd_log)) ->
  spec r P (act (Host c)) (fun _ => P).
Proof.
  intros St Ev. apply spec_act; [done|]. intros v Pv I i x u S.
  destruct (logs r (L_host c) v I (Ev v I Pv)) as (G & J & R). assert (Pu : P (log (L_host c) v)) by by eapply St.
  destruct i; try done; cbn in S; [by injection S as <- <-|].
  destruct (host_value c v0) as [y|]; cbn in S; [|done]. by injection S as <- <-.
Qed.
Lemma preflight_spec r P workspace participant : stable r P ->
  spec r P (act (Preflight workspace participant))
    (post (fun _ w => P w /\ seen (L_preflight workspace participant) w.(wd_log)) (fun _ => P)).
Proof.
  intros St. apply spec_act; [done|]. intros v Pv I i x u S. destruct i; try done; injection S as <- <-.
  - split_and!; [by apply same_guarantee|done|done].
  - destruct (logs r (L_preflight workspace participant) v I) as (G & J & R); [done|].
    split_and!; try done. split; [by eapply St|by left].
Qed.
Lemma join_spec c d φ : own R_main c φ -> spec R_main (at_ c d φ) (act KeeperJoin) (fun _ => at_ true d φ).
Proof.
  intros O. apply spec_act; [by apply at_stable|]. intros v [C E] I i x u S. destruct i; try done. cbn in S.
  destruct (wd_keeper_done v) eqn:D; [|done]. injection S as <- <-. split_and!; [by apply same_guarantee|done|by split].
Qed.
Lemma keeper_fork_spec d φ child : spec R_keeper (at_ false d φ) child (fun _ _ => True) ->
  spec R_main (at_ true d φ) (fork T_keeper child) (fun _ => at_ false d φ).
Proof.
  intros Sc w Pw v R I. assert (Pv : at_ true d φ v) by by eapply (at_stable R_main); [left| |].
  destruct Pv as [C E]. split_and!; [done|by apply C| |by split]. apply Sc. by split.
Qed.
End Rules.
