(* ===== verification/NodeWork.v ===== *)
(** * How the Node works on a delivery

    What every operation of the delivery processor needs of its delivery and leaves of
    it, also where it throws: triples for the programs of Processor. *)

From S2P Require Import Prelude JsLib Json Schemas MissionEvents DeliveryOperations HostEvents JsonValue.
From S2P Require Import TurnInput NodePolicy RuntimeAuthority RuntimeAuthorityFactory Journal JournalSafety NodeProgram NodeAuthority Processor NodeLogic.
Local Open Scope Z_scope.

Create HintDb quiet.
Ltac quiet_step :=
  lazymatch goal with
  | |- quiet _ (bind _ _) => apply quiet_then; [|intros ?]
  | |- quiet _ (try_catch _ _) => apply quiet_then; [|intros ?]
  | |- quiet _ (lift _) => exact I
  | |- quiet _ (ok _) => exact I
  | |- quiet _ (raise _) => exact I
  | |- quiet _ (Ret _) => exact I
  | |- quiet _ (match ?x with _ => _ end) => destruct x
  | |- quiet _ (act (OnJournal _)) => solve [auto with quiet]
  | |- quiet _ (act _) => apply quiet_act; exact I
  | |- quiet _ (fork T_background _) => split; [|exact I]
  | |- quiet _ _ => solve [auto with quiet]
  end.
Ltac quiet := repeat quiet_step.

(** ** Programs without journal updates *)
Section Quiet.
Context `{Zod, NodeJs} (config : NodeConfig).

Lemma quiet_throws r s : quiet r (throwIfAborted s).
Proof. unfold throwIfAborted. quiet. Qed.
Lemma quiet_locals r f : quiet r (update_locals f).
Proof. unfold update_locals. quiet. Qed.
Lemma quiet_reads r {A : Type} (f : Locals -> A) : quiet r (read_locals f).
Proof. unfold read_locals. quiet. Qed.
Lemma quiet_stuck r {A : Type} : quiet r (@stuck A).
Proof. unfold stuck. quiet. Qed.
Lemma quiet_monitor r {A : Type} session (f : Clock -> Monitor -> Monitor * A) : quiet r (on_monitor session f).
Proof. unfold on_monitor. quiet. Qed.
Hint Resolve quiet_throws quiet_locals quiet_reads quiet_stuck quiet_monitor : quiet.
Lemma quiet_revokeLocal r session reason : quiet r (revokeLocal session reason).
Proof. unfold revokeLocal. quiet. Qed.
Lemma quiet_signal r session : quiet r (session_signal session).
Proof. unfold session_signal. quiet. Qed.
Lemma quiet_revokeRemote r grant reason : quiet r (revokeRemote grant reason).
Proof. unfold revokeRemote. quiet. Qed.
Lemma quiet_open_session r grant lease : quiet r (open_session grant lease).
Proof. unfold open_session. quiet. Qed.
Lemma quiet_requireEntry r d : quiet r (requireEntry d).
Proof. unfold requireEntry. quiet. Qed.
Hint Resolve quiet_revokeLocal quiet_signal quiet_revokeRemote quiet_open_session quiet_requireEntry : quiet.
Lemma quiet_revoke_session r s reason : quiet r (revoke_session s reason).
Proof. unfold revoke_session. quiet. Qed.
Lemma quiet_live r grant lease : quiet r (assertLeaseLive grant lease).
Proof. unfold assertLeaseLive. quiet. Qed.
Lemma quiet_install_attempts r grant read ready n lease : quiet r read -> (forall s, quiet r (ready s)) ->
  quiet r (install_attempts grant read ready n lease).
Proof.
  intros R B. revert lease. induction n as [|n IH]; intros lease; cbn [install_attempts]; [exact I|].
  pose proof (quiet_live r). unfold readLatestRenewal. quiet; auto.
Qed.
Lemma quiet_install_session r grant lease read ready : quiet r read -> (forall s, quiet r (ready s)) ->
  quiet r (install_session grant lease read ready).
Proof.
  intros R B. unfold install_session. pose proof (quiet_live r).
  pose proof (fun n l => quiet_install_attempts r grant read ready n l R B). quiet; auto.
Qed.
Lemma quiet_renew_session r s renewal : quiet r (renew_session s renewal).
Proof. unfold renew_session, renew_failed. quiet. Qed.
Lemma quiet_perform r s request : quiet r (perform_admitted s request).
Proof. unfold perform_admitted. quiet. Qed.
Hint Resolve quiet_revoke_session quiet_renew_session quiet_perform : quiet.
Lemma quiet_forward r lease : quiet r (forward lease).
Proof. unfold forward, forward_queued, update_sync. quiet. Qed.
Hint Resolve quiet_forward : quiet.
Lemma quiet_bind_session r session : quiet r (bind_session session).
Proof. unfold bind_session. quiet. Qed.
Lemma quiet_request r {A : Type} (q : RelayRequest A) s : quiet_request q -> quiet r (request q s).
Proof.
  intros Q. unfold request. destruct (request_path q); [|exact I]. generalize 1. generalize 2%nat. intros n.
  induction n as [|n IH]; intros k; cbn [request_attempts]; quiet; auto; by split.
Qed.
Hint Resolve quiet_bind_session : quiet.

Lemma quiet_cancel r d attempt turn : quiet r (cancelHostExecution d attempt turn).
Proof. unfold cancelHostExecution. quiet. Qed.
Hint Resolve quiet_cancel : quiet.
Lemma quiet_cancel_bounded r d attempt turn : quiet r (cancelHostExecutionBounded d attempt turn).
Proof. unfold cancelHostExecutionBounded, runBoundedAbort. quiet. Qed.
Lemma quiet_revoke_runtime r authority : quiet r (revokeRuntimeAuthority authority).
Proof. unfold revokeRuntimeAuthority, session_of. quiet. Qed.
Hint Resolve quiet_cancel_bounded quiet_revoke_runtime : quiet.
Lemma quiet_try_revoke r authority : quiet r (tryRevokeRuntimeAuthority authority).
Proof. unfold tryRevokeRuntimeAuthority. quiet. Qed.
Lemma quiet_abort r d attempt : quiet r (abortActiveTurn d attempt).
Proof. unfold abortActiveTurn, revokeLocal_opt, runBoundedAbort, cancelAndRevokeRuntime. quiet. Qed.
Hint Resolve quiet_try_revoke quiet_abort : quiet.
Lemma quiet_healthy r : quiet r assertHealthy.
Proof. unfold assertHealthy. quiet. Qed.
Lemma quiet_session r authority : quiet r (assertSession authority).
Proof. unfold assertSession, signal_of. quiet. Qed.
Hint Resolve quiet_healthy quiet_session : quiet.
Lemma quiet_active r authority : quiet r (assertActiveAuthority authority).
Proof. unfold assertActiveAuthority. quiet. Qed.
Lemma quiet_allowed r d attempt : quiet r (assertHostOperationAllowed d attempt).
Proof. unfold assertHostOperationAllowed. quiet. Qed.
Hint Resolve quiet_active quiet_allowed : quiet.
Lemma quiet_wait r {A : Type} d attempt (c : HostCall A) authority : quiet_call c ->
  quiet r (waitForHostOperation d attempt c authority).
Proof. intros Q. unfold waitForHostOperation, signal_of. quiet. by apply quiet_act. Qed.
Lemma quiet_authorize r item : quiet r (authorize config item).
Proof.
  unfold authorize. quiet; by apply quiet_request.
Qed.

(** ** Updates of the grants *)
Lemma quiet_retire port d : quiet R_main (retireJournaled port d).
Proof.
  unfold retireJournaled. generalize 4%nat. intros n.
  induction n as [|n IH]; cbn [retire_attempts]; quiet; try done.
  apply edit_minor. intros now e e'. unfold retire_grants. destruct (_ || _); [done|]. intros [= <-].
  by exists (jd_host_session e), None, None, (jd_last_error e), (jd_updated_at e).
Qed.
Lemma quiet_checkpoint d grant f :
  quiet R_main (act (OnJournal (fun now _ => checkpointRuntimeAuthority d grant now (f now)))).
Proof.
  apply quiet_act. split; [done|]. intros now later s a t E. unfold checkpointRuntimeAuthority in E.
  destruct (negb _); [done|]. unfold updateDelivery in E. ok_inv E. injection E as <- <-. apply put_minor with j; [done|].
  match goal with U : _ = Ok a0 |- _ => ok_inv U; injection U as <- end.
  by exists (jd_host_session j), (Some grant), None, (jd_last_error j), (toISOString now).
Qed.
Lemma quiet_resolve_attempts nodeId input n : quiet R_main (resolve_attempts nodeId input n).
Proof.
  induction n as [|n IH]; cbn [resolve_attempts]; [exact I|]. quiet; try done.
  by apply (quiet_checkpoint _ _ (fun _ => Some _)).
Qed.
Lemma quiet_install_authority nodeId input ready : (forall s, quiet R_main (ready s)) ->
  quiet R_main (install_authority nodeId input ready).
Proof.
  intros R. unfold install_authority. pose proof (quiet_resolve_attempts nodeId input 4). quiet; auto.
  apply quiet_install_session; [|done]. quiet.
Qed.
Lemma quiet_install authorization entry info ready : (forall s, quiet R_main (ready s)) ->
  quiet R_main (installRuntimeAuthority config authorization entry info ready).
Proof.
  intros R. unfold installRuntimeAuthority. quiet. by apply quiet_install_authority.
Qed.
Lemma quiet_install_pending entry : quiet R_main (installAuthorityForPendingCompletion config entry).
Proof.
  unfold installAuthorityForPendingCompletion. pose proof (quiet_authorize R_main). quiet; auto.
  by apply quiet_install.
Qed.
Lemma quiet_retire_completed d authority : quiet R_main (retireCompletedRuntimeAuthority config d authority).
Proof. unfold retireCompletedRuntimeAuthority, revokeLocal_opt. pose proof quiet_retire. quiet. Qed.
Lemma quiet_last_error d e : quiet R_main (recordAuthorityTransitionPending d e).
Proof.
  unfold recordAuthorityTransitionPending. quiet. apply edit_minor. intros now x x' [= <-].
  by exists (jd_host_session x), (jd_runtime_authority x), (jd_runtime_authority_predecessor x), (Some (safeError e)),
    (jd_updated_at x).
Qed.
End Quiet.
#[export] Hint Resolve quiet_throws quiet_locals quiet_reads quiet_stuck quiet_monitor quiet_revokeLocal quiet_signal
  quiet_revokeRemote quiet_open_session quiet_requireEntry quiet_revoke_session quiet_renew_session quiet_perform
  quiet_forward quiet_bind_session quiet_cancel quiet_cancel_bounded quiet_revoke_runtime quiet_try_revoke quiet_abort
  quiet_healthy quiet_session quiet_active quiet_allowed quiet_authorize quiet_retire quiet_install_pending
  quiet_retire_completed quiet_last_error : quiet.

(** ** The work on one delivery *)

(** What the claim, the start, the renewals and the end of a delivery leave as it is. *)
Definition reworked (a e : JournalDelivery) : Prop :=
  e.(jd_identity_sha256) = a.(jd_identity_sha256) /\ e.(jd_execution_attempt) = a.(jd_execution_attempt) /\
  e.(jd_start_turn_input) = a.(jd_start_turn_input) /\
  e.(jd_host_attempt_history) = a.(jd_host_attempt_history) /\
  e.(jd_host_events) = a.(jd_host_events) /\ e.(jd_result) = a.(jd_result).
#[export] Instance reworked_preorder : PreOrder reworked.
Proof. split; [done|]. unfold reworked. intros e f g (?&?&?&?&?&?) (?&?&?&?&?&?). split_and!; congruence. Qed.
Definition live (e : JournalDelivery) : Prop := settled e = false.
Definition Live (a e : JournalDelivery) : Prop := reworked a e /\ live e.
(** Nothing is pending, or it is and the delivery is not settled. *)
Definition unfinished (e : JournalDelivery) : Prop :=
  e.(jd_operation) = None \/
  live e /\ forall i, e.(jd_operation) = Some (I_complete i) -> e.(jd_result) = Some i.(cmi_result).

(** The fields a minor change or a renewal touches are not those of the assertion. *)
Ltac keeps := intros ? ? (?&?&?&?&?&->) ?; assumption.
#[export] Hint Extern 1 (closed minor _) => keeps : core.
#[export] Hint Extern 1 (own R_main true _) => left; reflexivity : core.
Ltac at_weaker := intros; cbv beta in *; match goal with A : at_ _ _ _ _ |- _ => revert A; apply at_mono end; unfold Live, live in *; intuition (subst; eauto).

Section Work.
Context `{Zod, NodeJs} (config : NodeConfig).
Local Abbreviation spec := (spec config).

Lemma sound_work e b : reworked e b -> unfinished b -> sound e -> sound b.
Proof.
  intros (_ & _ & Ei & _ & Ee & Er) U []. split; rewrite ?Ei, ?Ee, ?Er; try done.
  - intros i E. rewrite <-Er. destruct U as [U|[_ U]]; [congruence|auto].
  - intros S. destruct U as [U|[U _]]; [done|]. unfold live in U. congruence.
Qed.

Lemma firm_at d φ : closed minor φ -> firm R_main (at_ true d φ).
Proof. intros C. apply at_firm; auto. Qed.
Hint Resolve firm_at : core.

Lemma work_spec a d φ f ψ : closed minor ψ -> (forall e, φ e -> Live a e) ->
  (forall now e b, φ e -> f now e = Ok b -> reworked e b /\ unfinished b /\ ψ b) ->
  spec R_main (at_ true d φ) (edit d f)
    (post (fun _ => at_ true d (fun e => reworked a e /\ ψ e)) (fun e w => journal_failed e /\ at_ true d φ w)).
Proof.
  intros C L V. apply edit_spec; [auto|intros e b M [Re Pe]; split|].
  - destruct M as (?&?&?&?&?&->). exact Re.
  - by apply (C e).
  - intros now e b E Pe Se. destruct (V now e b Pe E) as (R & U & Pb). destruct (L e Pe) as [Ra Li]. unfold live in Li.
    split_and!; [by eapply sound_work|by rewrite Li|by left|by etransitivity|done].
Qed.

(** Quiet stages and early exits. *)
Lemma step_quiet r P {A B : Type} (p : M A) (k : A -> M B) Q E : firm r P -> quiet r p ->
  (forall e w, P w -> E e w) -> (forall x, spec r P (k x) (post Q E)) ->
  spec r P (bind p (fun x => match x with Ok a => k a | Err e => raise e end)) (post Q E).
Proof. intros F Qp I K. eapply spec_let; [by apply quiet_post|exact I|done]. Qed.
Lemma step_act r P {A B : Type} (p : Prog A) (k : A -> Prog B) Q : firm r P -> quiet r p ->
  (forall x, spec r P (k x) Q) -> spec r P (bind p k) Q.
Proof. intros F Qp K. eapply spec_bind; [by apply quiet_spec|done]. Qed.
Lemma reached_spec r P E (p : Prog unit) : firm r P -> quiet r p ->
  spec r P (act! _ := p in ok tt) (post (fun _ => P) E).
Proof. intros F Q. apply step_act; [done..|]. intros _. by apply spec_ret. Qed.

Lemma step_lift r P {A B : Type} (x : result NodeError A) (k : A -> M B) Q E :
  (forall e w, P w -> E e w) -> (forall a, x = Ok a -> spec r P (k a) (post Q E)) ->
  spec r P (bind (lift x) (fun x => match x with Ok a => k a | Err e => raise e end)) (post Q E).
Proof. intros I K. destruct x as [a|e]; [by apply K|]. intros w Pw. by apply I. Qed.

(** *** Claim *)
Lemma claimed_work answer e b : claimed answer e = Ok b -> reworked e b /\ unfinished b.
Proof.
  unfold claimed. destruct answer as [item r1 r2|delivery r1 r2]; intros E.
  - ok_inv E. injection E as <-.
    match goal with S : stageRuntimeAuthoritySuccessor _ _ = Ok _ |- _ => apply stage_ok in S as (_ & (g & p & ->) & _) end.
    split; [done|by left].
  - injection E as <-. split; [done|by left].
Qed.

Lemma claim_spec a d : spec R_main (at_ true d (Live a)) (claim config d)
  (post (fun _ => at_ true d (reworked a)) (fun _ => at_ true d (Live a))).
Proof.
  unfold claim. apply step_quiet; [auto with quiet..|intros []].
  eapply spec_let; [apply reads_spec; auto|done|intros e]. cbn [now_at].
  apply (spec_let _ _ _ _ _ (fun i => at_ true d (fun e => Live a e /\ e.(jd_operation) = Some (I_claim i)))
    (fun _ => at_ true d (Live a))); [|done|intros i].
  - eapply spec_pre; [intros w [W _]; exact W|].
    assert (New : forall attempt i, spec R_main (at_ true d (fun x => Live a x /\ x = e))
      (let! _ := edit d (fun _ current => Ok (current <| jd_claim_attempt := attempt |>
         <| jd_operation := Some (I_claim i) |> <| jd_phase := JP_claim_intent |>)) in
       act! _ := act (Reached CP_claim_intent d) in ok i)
      (post (fun i => at_ true d (fun e => Live a e /\ jd_operation e = Some (I_claim i))) (fun _ => at_ true d (Live a)))).
    { intros attempt i. eapply spec_let.
      - apply (work_spec a d _ _ (fun x => live x /\ jd_operation x = Some (I_claim i))); [keeps|by intros x [? _]|].
        intros now x b _ [= <-]. split_and!; try done. by right.
      - cbn. intros err w [_ W]. at_weaker.
      - intros []. apply step_act; [apply firm_at; keeps|by apply quiet_act|]. intros _. apply spec_ret. at_weaker. }
    destruct (jd_operation e) as [[]|] eqn:O; try apply New. apply spec_ret. at_weaker.
  - apply step_quiet; [apply firm_at; keeps|auto with quiet|intros; at_weaker|intros []].
    eapply spec_let; [apply request_spec; [apply firm_at; keeps|]| |].
    { intros w [_ (x & E & _ & O)]. by exists x. }
    { cbn. intros _ w W. at_weaker. }
    intros answer. eapply spec_pre; [intros w [W _]; exact W|].
    apply step_quiet; [apply firm_at; keeps|destruct answer; auto with quiet; done|intros; at_weaker|intros []].
    eapply spec_let; [apply (work_spec a d _ _ (fun _ => True)); [done|by intros x [? _]|]| |].
    { intros now x b _ E. apply claimed_work in E as [? ?]. by split_and!. }
    { intros _ w [_ W]. at_weaker. }
    intros []. eapply spec_pre; [|apply reached_spec; [apply firm_at|by apply quiet_act]]; [intros; at_weaker|keeps].
Qed.

Lemma rethrown_spec r P {A : Type} (p : M A) Q E : spec r P p (post Q (fun _ => E)) ->
  spec r P (try_catch p lost_or_rethrown) (post Q (fun _ => E)).
Proof. intros S. eapply spec_try; [exact S|done|]. intros e. by apply spec_ret. Qed.

(** An intent is journaled before it is sent; [K] says which one. *)
Lemma intend_spec a d φ f ψ {A : Type} (p : Prog unit) (i : A) E : closed minor ψ -> (forall e, φ e -> Live a e) ->
  (forall now e b, φ e -> f now e = Ok b -> reworked e b /\ unfinished b /\ ψ b) -> quiet R_main p ->
  (forall e w, at_ true d φ w -> E e w) ->
  spec R_main (at_ true d φ) (let! _ := edit d f in act! _ := p in ok i)
    (post (fun j => at_ true d (fun e => reworked a e /\ ψ e /\ j = i)) E).
Proof.
  intros C L V Qp I. eapply spec_let; [by apply (work_spec a d φ f ψ)|intros e w [_ W]; by apply (I e)|].
  intros []. apply step_act; [apply firm_at|done|].
  - intros e b M [Re Pe]. split; [|by apply (C e)]. destruct M as (?&?&?&?&?&->). exact Re.
  - intros _. apply spec_ret. at_weaker.
Qed.

(** *** Start *)
Lemma start_spec a d : spec R_main (at_ true d (Live a)) (start d)
  (post (fun _ => at_ true d (Live a)) (fun _ => at_ true d (Live a))).
Proof.
  unfold start. apply step_quiet; [auto with quiet..|intros []].
  eapply spec_let; [apply reads_spec; auto|done|intros e]. cbn [now_at].
  eapply spec_pre; [intros w [W _]; exact W|].
  apply step_lift; [intros; at_weaker|intros lease Le].
  apply (spec_let _ _ _ _ _ (fun i => at_ true d (fun e => Live a e /\ e.(jd_operation) = Some (I_start i)))
    (fun _ => at_ true d (Live a))); [|done|intros i].
  - assert (New : forall i, spec R_main (at_ true d (fun x => Live a x /\ x = e))
      (let! _ := edit d (fun _ current => Ok (current <| jd_operation := Some (I_start i) |>
         <| jd_phase := JP_start_intent |>)) in
       act! _ := act (Reached CP_start_intent d) in ok i)
      (post (fun i => at_ true d (fun e => Live a e /\ jd_operation e = Some (I_start i))) (fun _ => at_ true d (Live a)))).
    { intros i. eapply spec_post.
      - apply (intend_spec a d _ _ (fun x => live x /\ jd_operation x = Some (I_start i)) _ _ (fun _ => at_ true d (Live a))); [keeps|by intros x [? _]| |by apply quiet_act|intros; at_weaker].
        intros now x b _ [= <-]. split_and!; try done. by right.
      - intros [j|]; cbn; intros; [at_weaker|done]. }
    destruct (jd_operation e) as [[]|] eqn:O; try apply New. apply spec_ret. at_weaker.
  - apply (spec_let _ _ _ _ _ (fun _ => at_ true d (fun e => Live a e /\ e.(jd_operation) = Some (I_start i)))
      (fun _ => at_ true d (fun e => Live a e /\ e.(jd_operation) = Some (I_start i)))); [|intros; at_weaker|intros result].
    { apply rethrown_spec. apply step_quiet; [apply firm_at; keeps|auto with quiet|intros; at_weaker|intros []].
      eapply spec_post; [apply request_spec; [apply firm_at; keeps|]|].
      - intros w [_ (x & E & _ & O)]. by exists x.
      - intros [r|e']; cbn; [by intros w [W _]|done]. }
    eapply spec_let; [apply (work_spec a d _ _ live); [keeps|by intros x [? _]|]| |].
    { intros now x b _ [= <-]. split_and!; try done. by left. }
    { intros _ w [_ W]. at_weaker. }
    intros []. apply reached_spec; [apply firm_at; keeps|by apply quiet_act].
Qed.

(** *** Renewal *)
Lemma requires_lease delivery lease : requireLease delivery = Ok lease -> active_lease delivery = Some lease.
Proof. unfold requireLease. destruct (active_lease delivery); [by intros [= ->]|done]. Qed.
Lemma window_lease r t u window : leaseWindowFromRenewal r t u = Ok window -> active_lease r.(op_delivery) <> None.
Proof.
  unfold leaseWindowFromRenewal. destruct (requireLease _) as [lease|] eqn:E; [|done]. apply requires_lease in E.
  intros _. congruence.
Qed.

Lemma confirm_spec a d : spec R_main (at_ true d (Live a)) (confirmLease d)
  (post (fun _ => at_ true d (fun e => Live a e /\ has_lease e)) (fun _ => at_ true d (Live a))).
Proof.
  unfold confirmLease. generalize 2%nat. intros n. induction n as [|n IH]; cbn [confirm_attempts]; [by apply spec_ret|].
  apply step_quiet; [auto with quiet..|intros []].
  eapply spec_let; [apply reads_spec; auto|done|intros e]. cbn [now_at].
  eapply spec_pre; [intros w [W _]; exact W|].
  apply step_lift; [intros; at_weaker|intros lease Le].
  set (J := fun i e => Live a e /\ e.(jd_operation) = Some (I_renew i)).
  apply (spec_let _ _ _ _ _ (fun i => at_ true d (J i)) (fun _ => at_ true d (Live a))); [|done|intros i].
  - assert (New : forall n i, spec R_main (at_ true d (fun x => Live a x /\ x = e))
      (let! _ := edit d (fun _ current => Ok (current <| jd_renew_count := n |> <| jd_operation := Some (I_renew i) |>)) in ok i)
      (post (fun i => at_ true d (J i)) (fun _ => at_ true d (Live a)))).
    { intros m i. eapply spec_let.
      - apply (work_spec a d _ _ (fun x => live x /\ jd_operation x = Some (I_renew i))); [keeps|by intros x [? _]|].
        intros now x b [[_ Li] _] [= <-]. split_and!; try done. by right.
      - cbn. intros err w [_ W]. at_weaker.
      - intros []. apply spec_ret. unfold J. at_weaker. }
    destruct (jd_operation e) as [[]|] eqn:O; try apply New. apply spec_ret. unfold J. at_weaker.
  - apply step_act; [apply firm_at; keeps|by apply quiet_act|intros t].
    apply (spec_let _ _ _ _ _ (fun r => at_ true d (fun e => Live a e /\ (r <> None -> has_lease e)))
      (fun _ => at_ true d (Live a))); [|done|].
    + apply rethrown_spec. apply step_quiet; [apply firm_at; keeps|auto with quiet|unfold J; intros; at_weaker|intros []].
      eapply spec_let; [apply request_spec; [apply firm_at; keeps|]|unfold J; intros; at_weaker|intros r].
      { intros w [_ (x & E & _ & O)]. by exists x. }
      eapply spec_pre; [intros w [W _]; exact W|].
      apply step_act; [apply firm_at; keeps|by apply quiet_act|intros u].
      eapply spec_let.
      * apply (work_spec a d _ _ (fun x => live x /\ entry_delivery x = r.(op_delivery))); [keeps|by intros x [? _]|].
        intros now x b [[_ Li] _] [= <-]. split_and!; try done. by left.
      * intros _ w [_ W]. unfold J in W. at_weaker.
      * intros []. destruct (op_replayed r); [apply spec_ret; at_weaker|].
        apply step_lift; [intros; at_weaker|intros window Ew]. apply window_lease in Ew. apply spec_ret.
        intros w. apply at_mono. intros x (? & ? & Ex). split; [done|]. intros _. unfold has_lease. by rewrite Ex.
    + intros [window|]; [apply spec_ret; intros w; apply at_mono; intros x [? L]; split; [done|by apply L]|].
      eapply spec_pre; [|exact IH]. at_weaker.
Qed.

(** *** Losing the lease and claiming again *)
Lemma lost_spec a d e : spec R_main (at_ true d (Live a)) (markLeaseLost d e)
  (post (fun _ => at_ true d (Live a)) (fun _ => at_ true d (Live a))).
Proof.
  unfold markLeaseLost. eapply spec_let; [apply (work_spec a d _ _ live); [keeps|done|]|by intros _ w [_ W]|].
  - intros now x b _ [= <-]. split_and!; try done. by left.
  - intros []. by apply spec_ret.
Qed.
Lemma authority_lost_spec a d e : spec R_main (at_ true d (reworked a)) (cancelAndMarkAuthorityLost d e)
  (post (fun _ => at_ true d (reworked a)) (fun _ => at_ true d (reworked a))).
Proof.
  unfold cancelAndMarkAuthorityLost, markAuthorityLost.
  apply step_quiet; [auto with quiet..|intros x]. case_match; [by apply spec_ret|].
  apply step_act; [auto with quiet..|intros _]. eapply spec_let; [apply (edit_spec config R_main true d (reworked a) _ (reworked a)); [auto..|]|
    by intros _ w [_ W]; exact W|].
  - intros now y b [= <-] R S. split_and!; try done; [|by left]. destruct S. by split.
  - intros []. by apply spec_ret.
Qed.
Lemma reclaim_spec a d : spec R_main (at_ true d (Live a)) (reclaimLease config d)
  (post (fun b => at_ true d (fun e => reworked a e /\ (b = true -> live e))) (fun _ => at_ true d (reworked a))).
Proof.
  unfold reclaimLease. apply step_quiet; [auto with quiet..|intros; at_weaker|intros []].
  eapply spec_let; [apply (work_spec a d _ _ live); [keeps|done|]|intros _ w [_ W]; at_weaker|intros []].
  { intros now x b _ [= <-]. split_and!; try done. by left. }
  eapply spec_bind; [apply claim_spec|]. intros [[]|e]; cbn [post].
  - eapply spec_let; [apply reads_spec; auto|done|intros x]. cbn [now_at]. apply spec_ret.
    intros w [W _]. revert W. apply at_mono. intros y [R ->]. split; [done|]. intros T%negb_true_iff.
    unfold isTerminal in T. by apply orb_false_iff in T as [[[T _]%orb_false_iff _]%orb_false_iff _].
  - destruct (isDefinitiveAuthorityLoss e); cbn [negb]; [|apply spec_ret; intros; at_weaker].
    apply (spec_pre config _ (at_ true d (reworked a))); [intros; at_weaker|].
    eapply spec_let; [apply authority_lost_spec|done|intros []].
    apply spec_ret. intros. at_weaker. done.
Qed.
Lemma reclaim_or_lose_spec a d e : spec R_main (at_ true d (Live a)) (reclaim_or_lose config d e)
  (post (fun _ => at_ true d (Live a)) (fun _ => at_ true d (reworked a))).
Proof.
  unfold reclaim_or_lose. destruct (isAuthorityLost e); cbn [negb]; [|apply spec_ret; intros; at_weaker].
  eapply spec_let; [apply lost_spec|intros; at_weaker|intros []].
  eapply spec_let; [apply reclaim_spec|done|intros []]; apply spec_ret; intros; at_weaker.
Qed.
Lemma confirm_reclaim_spec a d : spec R_main (at_ true d (Live a)) (confirmLeaseWithReclaim config d)
  (post (fun _ => at_ true d (fun e => Live a e /\ has_lease e)) (fun _ => at_ true d (reworked a))).
Proof.
  unfold confirmLeaseWithReclaim. eapply spec_try; [apply confirm_spec|done|intros e].
  eapply spec_let; [apply reclaim_or_lose_spec|done|intros []].
  eapply spec_post; [apply confirm_spec|]. intros [|]; cbn; intros; [done|at_weaker].
Qed.
Lemma prepare_spec a d : spec R_main (at_ true d (Live a)) (prepareExecutableLease config d)
  (post (fun _ => at_ true d (fun e => Live a e /\ has_lease e)) (fun _ => at_ true d (reworked a))).
Proof.
  unfold prepareExecutableLease. generalize 4%nat. intros n.
  induction n as [|n IH]; cbn [prepare_attempts]; [apply spec_ret; intros; at_weaker|].
  apply step_quiet; [auto with quiet..|intros; at_weaker|intros []].
  eapply spec_let; [apply confirm_reclaim_spec|done|intros window].
  apply step_quiet; [apply firm_at; keeps|auto with quiet|intros; at_weaker|intros e].
  assert (Again : spec R_main (at_ true d (fun e => Live a e /\ has_lease e)) (prepare_attempts config d n)
    (post (fun _ => at_ true d (fun e => Live a e /\ has_lease e)) (fun _ => at_ true d (reworked a)))).
  { eapply spec_pre; [|exact IH]. intros; at_weaker. }
  case_match.
  - apply step_act; [apply firm_at; keeps|by apply quiet_act|intros t]. case_match; [done|by apply spec_ret].
  - case_match; [apply spec_ret; intros; at_weaker|].
    apply (spec_pre config _ (at_ true d (Live a))); [intros; at_weaker|].
    apply (spec_let _ _ _ _ _ (fun _ => at_ true d (Live a)) (fun _ => at_ true d (reworked a))); [|done|intros []; exact IH].
    eapply spec_try; [apply start_spec|done|intros e']. apply reclaim_or_lose_spec.
Qed.

(** *** Completion *)
Lemma publish_failed_spec P attempted authority e (Q : unit -> Assertion) : firm R_main P ->
  spec R_main P (publish_failed attempted authority e) (post Q (fun _ => P)).
Proof.
  intros F. unfold publish_failed. case_match; [by apply spec_ret|].
  apply step_act; [done|destruct authority; [quiet|exact I]|intros gone]. case_match; by apply spec_ret.
Qed.
Definition completing (a : JournalDelivery) (input : DeliveryCompleteInput) (e : JournalDelivery) : Prop :=
  Live a e /\ e.(jd_operation) = Some (I_complete input).
Lemma complete_call_spec a d input authority :
  spec R_main (at_ true d (completing a input)) (complete_call d input authority) (fun _ => at_ true d (completing a input)).
Proof.
  assert (F : firm R_main (at_ true d (completing a input))) by (apply firm_at; keeps).
  assert (S : forall (b : bool) s, spec R_main (at_ true d (completing a input))
    (bind (request (RqComplete d input) s) (fun r => Ret (b, r))) (fun _ => at_ true d (completing a input))).
  { intros b s. eapply spec_bind; [apply request_spec; [done|]|].
    - intros w [_ (x & E & _ & O)]. by exists x.
    - intros [x|x]; cbn; apply spec_ret; [by intros w [W _]|done]. }
  unfold complete_call. destruct authority as [session|]; [|apply S].
  apply step_act; [done|quiet|intros [u|e]]; [apply S|by apply spec_ret].
Qed.
Lemma publish_completion_spec a d input authority :
  spec R_main (at_ true d (completing a input)) (publishCompletion d input authority)
    (post (fun _ => at_ true d (reworked a)) (fun _ => at_ true d (Live a))).
Proof.
  assert (F : firm R_main (at_ true d (completing a input))) by (apply firm_at; keeps).
  assert (Failed : forall b e, spec R_main (at_ true d (completing a input)) (publish_failed b authority e)
    (post (fun _ => at_ true d (reworked a)) (fun _ => at_ true d (Live a)))).
  { intros b e. eapply spec_post; [by apply publish_failed_spec|].
    intros [x|x]; cbn; [|intros w; apply at_mono; by intros y [? _]]. intros w W. exact W. }
  unfold publishCompletion. apply step_act; [done|auto with quiet|intros [u|e]]; [|apply Failed].
  eapply spec_bind; [apply complete_call_spec|]. intros [attempted [result|e]]; [|apply Failed].
  eapply spec_bind.
  - apply (work_spec a d _ _ (fun _ => True)); [done|by intros x [? _]|].
    intros now x b _ [= <-]. split_and!; try done. by left.
  - intros [u'|e]; cbn [post].
    + eapply spec_pre; [|apply reached_spec; [apply firm_at; keeps|by apply quiet_act]]. intros; at_weaker.
    + eapply spec_pre; [|apply Failed]. by intros w [_ W].
Qed.
Lemma complete_spec a d result authority :
  spec R_main (at_ true d (fun e => Live a e /\ e.(jd_result) = Some result)) (complete d result authority)
    (post (fun _ => at_ true d (reworked a)) (fun _ => at_ true d (Live a))).
Proof.
  unfold complete. apply step_quiet; [apply firm_at; keeps|auto with quiet|intros; at_weaker|intros []].
  eapply spec_let; [apply reads_spec; auto|intros; at_weaker|intros e]. cbn [now_at].
  eapply spec_pre; [intros w [W _]; exact W|]. apply step_lift; [intros; at_weaker|intros lease Le].
  eapply spec_let; [apply (work_spec a d _ _ (fun x => live x /\ x.(jd_operation) =
    Some (I_complete {| cmi_lease := lease_input "complete" d "" lease; cmi_result := result |})));
    [keeps|by intros x [[? _] _]|]|intros _ w [_ W]; at_weaker|intros []].
  - intros now x b [[[R Li] Er] _] [= <-]. split_and!; try done. right. split; [done|by intros i [= <-]].
  - apply step_act; [apply firm_at; keeps|by apply quiet_act|intros _].
    eapply spec_pre; [|apply publish_completion_spec]. unfold completing. intros; at_weaker.
Qed.

(** *** Retirement, and how it fails *)
Definition mild (e : NodeError) : Prop :=
  match e.(er_class) with E_transition_pending | E_journal _ | E_other => True | _ => False end.
Lemma journal_mild e : journal_failed e -> mild e.
Proof. intros [j E]. unfold mild. by rewrite E. Qed.
Lemma edit_fails d f P : firm R_main P -> quiet R_main (edit d f) ->
  spec R_main P (edit d f) (post (fun _ => P) (fun e w => mild e /\ P w)).
Proof.
  intros F Q w Pw v R I i x u S. destruct (quiet_spec config _ _ Q P F w Pw v R I i x u S) as (G & J & Pu).
  split_and!; try done. cbn in Pu. destruct x as [y|e]; [done|]. split; [|done]. apply journal_mild.
  cbn in S. destruct i; try done. destruct (update _ _ _) as [j [y|k]]; [done|]. injection S as <- _. by eexists.
Qed.
Lemma retire_spec port d P : firm R_main P ->
  spec R_main P (retireJournaled port d) (post (fun _ => P) (fun e w => mild e /\ P w)).
Proof.
  intros F. unfold retireJournaled. generalize 4%nat. intros n.
  induction n as [|n IH]; cbn [retire_attempts]; [by apply spec_ret|].
  eapply spec_let; [apply (require_spec config d P (fun _ => P)); [apply F|done]| |intros e].
  { intros e w [W E]. split; [|done]. unfold mild. by rewrite E. }
  eapply spec_pre; [intros w [W _]; exact W|]. cbv zeta.
  destruct (match jd_runtime_authority_predecessor e with Some g => Some g | None => _ end); [|by apply spec_ret].
  destruct port; cbn [negb]; [|by apply spec_ret]. apply step_act; [done|by apply quiet_act|intros [u|e']; [|by apply spec_ret]].
  eapply spec_bind; [apply edit_fails; [done|]|].
  - apply edit_minor. intros now x x'. unfold retire_grants. destruct (_ || _); [done|]. intros [= <-].
    by exists (jd_host_session x), None, None, (jd_last_error x), (jd_updated_at x).
  - intros [x|e']; cbn [post]; [by apply spec_ret|]. destruct (raced e'); [|by apply spec_ret].
    eapply spec_pre; [|exact IH]. by intros w [_ W].
Qed.
Lemma retire_completed_spec d authority P : firm R_main P ->
  spec R_main P (retireCompletedRuntimeAuthority config d authority) (post (fun _ => P) (fun e w => mild e /\ P w)).
Proof.
  intros F. unfold retireCompletedRuntimeAuthority. apply step_act; [done| |intros _; by apply retire_spec].
  unfold revokeLocal_opt. quiet.
Qed.
(** The result is published and the authority retired. *)
Definition ended (a : JournalDelivery) (d : string) (e : NodeError) : Assertion := fun w =>
  at_ true d (Live a) w \/ mild e /\ at_ true d (reworked a) w.
Lemma complete_retire_spec a d result authority authority' :
  spec R_main (at_ true d (fun e => Live a e /\ e.(jd_result) = Some result))
    (let! _ := complete d result authority in retireCompletedRuntimeAuthority config d authority')
    (post (fun _ => at_ true d (reworked a)) (ended a d)).
Proof.
  eapply spec_let; [apply complete_spec|by left|intros []].
  eapply spec_post; [apply retire_completed_spec; apply firm_at; keeps|]. intros [u|e] w; cbn; [done|by right].
Qed.

(** *** Release *)
Lemma released_sound now answer e b : released now answer e = Ok b -> sound e -> live e -> sound b.
Proof.
  unfold released. destruct (_ === D_stored) eqn:St; intros E S L.
  - unfold archiveHostExecution in E. destruct (hasJournaledRuntimeAuthority e); [done|].
    match type of E with (let* current := (let* history := ?h in _) in _) = _ => destruct h; [|done] end.
    injection E as <-. by split.
  - injection E as <-. eapply sound_work; [|by left|exact S]. done.
Qed.
Lemma publish_release_spec a d input :
  spec R_main (at_ true d (fun e => Live a e /\ e.(jd_operation) = Some (I_release input)))
    (publishRelease config d input) (post (fun _ => idle) (fun _ => at_ true d (Live a))).
Proof.
  set (J := fun e => Live a e /\ e.(jd_operation) = Some (I_release input)).
  assert (F : firm R_main (at_ true d J)) by (apply firm_at; keeps).
  assert (W : forall w, at_ true d J w -> at_ true d (Live a) w) by (intros; unfold J in *; at_weaker).
  unfold publishRelease.
  apply (spec_let _ _ _ _ _ (fun _ => at_ true d J) (fun _ => at_ true d (Live a))); [apply rethrown_spec|done|].
  - apply step_quiet; [done|auto with quiet|by intros _|intros []].
    apply step_quiet; [done|auto with quiet|by intros _|intros []].
    apply step_quiet; [done|auto with quiet|by intros _|intros []].
    eapply spec_post; [apply request_spec; [done|]|].
    + intros w [_ (x & E & _ & O)]. by exists x.
    + intros [r|e] w; cbn; [|apply W]. intros [Pw _]. exact Pw.
  - intros r. eapply spec_let; [apply (edit_spec config R_main true d J _ (fun _ => True)); [auto..|]|by intros _ w [_ X]; apply W|].
    + intros now e b E [[_ L] _] S. split_and!; try done; [by eapply released_sound|unfold live in L; congruence|by left].
    + intros []. eapply spec_pre; [intros w; apply at_idle|]. apply reached_spec; [apply idle_firm|by apply quiet_act].
Qed.
Lemma release_or_lose_spec a d classification summary : spec R_main (at_ true d (Live a))
  (releaseOrLoseLease config d classification summary) (post (fun _ => idle) (fun _ => idle)).
Proof.
  unfold releaseOrLoseLease. eapply (spec_try config _ _ _ _ (fun _ => idle) (fun _ => at_ true d (Live a))); [|done|].
  - unfold release. apply step_quiet; [auto with quiet..|intros []].
    eapply spec_let; [apply reads_spec; auto|done|intros e]. cbn [now_at].
    eapply spec_pre; [intros w [W _]; exact W|]. apply step_lift; [intros; at_weaker|intros lease Le].
    set (input := {| ri_lease := _; ri_release := _ |}).
    eapply spec_let; [apply (work_spec a d _ _ (fun x => live x /\ x.(jd_operation) = Some (I_release input)));
      [keeps|by intros x [? _]|]|intros _ w [_ W]; at_weaker|intros []].
    + intros now x b _ [= <-]. split_and!; try done. by right.
    + apply step_act; [apply firm_at; keeps|by apply quiet_act|intros _].
      eapply spec_pre; [|apply publish_release_spec]. intros; at_weaker.
  - intros e. destruct (isAuthorityLost e).
    + eapply spec_post; [apply lost_spec|]. intros [u|x] w; cbn; apply at_idle.
    + apply spec_ret. intros w. apply at_idle.
Qed.

(** ** The stages before the turn *)

(** [None]: [process] returns; [Some e]: it goes on with the journaled [e]. *)
Definition Ready (d : string) (r : option JournalDelivery) : Assertion := fun w =>
  match r with
  | Some e => at_ true d (fun x => x = e) w /\ journaled d e /\ live e
  | None => idle w
  end.
Lemma ready_live d e w : Ready d (Some e) w -> at_ true d (Live e) w.
Proof. intros (A & _ & L). revert A. apply at_mono. by intros x ->. Qed.
Lemma ready_idle d r w : Ready d r w -> idle w.
Proof. destruct r as [e|]; [|done]. intros [A _]. by eapply at_idle. Qed.

(** Reading the entry again, and going on if it says so. *)
Lemma again_spec d φ (choose : JournalDelivery -> bool) : (forall e, φ e -> choose e = true -> live e) ->
  spec R_main (at_ true d φ) (let! e := requireEntry d in ok (if choose e then Some e else None))
    (post (Ready d) (fun _ => idle)).
Proof.
  intros C. eapply spec_let; [apply reads_spec; auto|intros ? w; apply at_idle|intros e]. cbn [now_at].
  apply spec_ret. intros w (A & Pe & J). destruct (choose e) eqn:Ce; cbn; [|by eapply at_idle].
  split_and!; [|done|by apply C]. revert A. apply at_mono. by intros x [_ ->].
Qed.
Lemma reread_spec d φ : (forall e, φ e -> live e) ->
  spec R_main (at_ true d φ) (reread d) (post (Ready d) (fun _ => idle)).
Proof. intros C. apply (again_spec d φ (fun _ => true)). auto. Qed.
Lemma not_terminal e : isTerminal e = false -> live e.
Proof. unfold isTerminal. intros T. by apply orb_false_iff in T as [[[T _]%orb_false_iff _]%orb_false_iff _]. Qed.

Lemma idle_spec P {A : Type} (p : M A) Q Q' : spec R_main P p (post Q Q') -> (forall a w, Q a w -> idle w) ->
  (forall e w, Q' e w -> idle w) -> spec R_main P p (post (fun _ => idle) (fun _ => idle)).
Proof. intros S I J. eapply spec_post; [exact S|]. intros [a|e] w; cbn; eauto. Qed.
Lemma lost_idle a d e : spec R_main (at_ true d (Live a)) (markLeaseLost d e) (post (fun _ => idle) (fun _ => idle)).
Proof. eapply idle_spec; [apply lost_spec|..]; intros ? ?; apply at_idle. Qed.
Lemma authority_lost_idle a d e : spec R_main (at_ true d (reworked a)) (cancelAndMarkAuthorityLost d e)
  (post (fun _ => idle) (fun _ => idle)).
Proof. eapply idle_spec; [apply authority_lost_spec|..]; intros ? ?; apply at_idle. Qed.
Lemma then_not_ready d P (p : M unit) : spec R_main P p (post (fun _ => idle) (fun _ => idle)) ->
  spec R_main P (let! _ := p in ok None) (post (Ready d) (fun _ => idle)).
Proof. intros S. eapply spec_let; [exact S|done|intros []]. by apply spec_ret. Qed.

Lemma lose_lease_spec a d e : spec R_main (at_ true d (Live a)) (lose_lease d e) (post (Ready d) (fun _ => idle)).
Proof.
  unfold lose_lease. destruct (isAuthorityLost e); cbn [negb]; [|apply spec_ret; intros w; apply at_idle].
  eapply then_not_ready, lost_idle.
Qed.
Lemma claim_entry_spec d e : spec R_main (Ready d (Some e)) (claim_entry config d) (post (Ready d) (fun _ => idle)).
Proof.
  eapply spec_pre; [apply ready_live|]. unfold claim_entry. eapply spec_bind; [apply claim_spec|].
  intros [u|x]; cbn [post].
  - eapply spec_post; [eapply spec_bind; [apply reads_spec; auto|]|intros r w W; exact W].
    intros [y|y]; cbn; [|apply spec_ret; intros w; apply at_idle]. apply spec_ret. intros w (A & _ & J).
    destruct (isTerminal y) eqn:T; cbn; [by eapply at_idle|]. apply not_terminal in T. split_and!; [|done..].
    revert A. apply at_mono. by intros z [_ ->].
  - destruct (retryAvailableAt x) as [availableAt|].
    + apply then_not_ready. unfold deferRetry.
      eapply spec_let; [apply (work_spec e d _ _ live); [keeps|done|]|intros _ w [_ W]; by eapply at_idle|intros []].
      * intros now y b _ [= <-]. split_and!; try done. by left.
      * apply spec_ret. intros w. apply at_idle.
    + destruct (isDefinitiveAuthorityLoss x); cbn [negb]; [|apply spec_ret; intros w; apply at_idle].
      apply then_not_ready. eapply spec_pre; [|apply (authority_lost_idle e)]. intros; at_weaker.
Qed.
Lemma resume_start_spec d e : spec R_main (Ready d (Some e)) (resume_start d) (post (Ready d) (fun _ => idle)).
Proof.
  eapply spec_pre; [apply ready_live|]. unfold resume_start. eapply spec_bind; [apply start_spec|].
  intros [u|x]; cbn [post]; [apply reread_spec; by intros y []|apply lose_lease_spec].
Qed.
Lemma resume_renewal_spec d e : spec R_main (Ready d (Some e)) (resume_renewal d) (post (Ready d) (fun _ => idle)).
Proof.
  eapply spec_pre; [apply ready_live|]. unfold resume_renewal. eapply spec_bind; [apply confirm_spec|].
  intros [u|x]; cbn [post]; [apply reread_spec; by intros y [[] _]|apply lose_lease_spec].
Qed.
Lemma retain_spec a d e : spec R_main (at_ true d (Live a)) (retainCompletionIntent d e) (post (fun _ => idle) (fun _ => idle)).
Proof.
  unfold retainCompletionIntent. eapply spec_let; [apply (edit_spec config R_main true d (Live a) _ (fun _ => True)); [auto..|]|
    by intros _ w [_ W]; eapply at_idle|intros []; apply spec_ret; intros w; apply at_idle].
  intros now x b E [_ L] S. unfold live in L. destruct (jd_operation x) as [[]|] eqn:O; try done. injection E as <-.
  split_and!; try done; [|congruence|by left]. destruct S. split; try done.
Qed.
Lemma resume_completion_spec d e input : e.(jd_operation) = Some (I_complete input) ->
  spec R_main (Ready d (Some e)) (resume_completion config d e input) (post (Ready d) (fun _ => idle)).
Proof.
  intros O. apply (spec_pre config _ (at_ true d (completing e input))).
  { intros w (A & _ & L). revert A. apply at_mono. by intros x ->. }
  assert (F : firm R_main (at_ true d (completing e input))) by (apply firm_at; keeps).
  assert (F' : firm R_main (at_ true d (reworked e))) by (apply firm_at; keeps).
  assert (F'' : firm R_main (at_ true d (Live e))) by (apply firm_at; keeps).
  unfold resume_completion. apply step_act; [done|auto with quiet|intros installed]. cbv zeta.
  set (after := bind (requireEntry d) _). set (authority := match installed with Ok _ => _ | Err _ => _ end).
  assert (After : forall φ, spec R_main (at_ true d φ) after (post (Ready d) (fun _ => idle))).
  { intros φ. apply (again_spec d φ (fun x => jd_phase x === JP_lease_lost)). intros x _ P. bool_hyps.
    unfold live, settled. by rewrite P. }
  apply (spec_bind _ _ _ _ _ (post (fun _ => at_ true d (reworked e)) (ended e d))).
  - apply step_lift; [intros x w W; left; revert W; apply at_mono; by intros y []|intros au _].
    eapply spec_let; [apply publish_completion_spec|by left|intros []].
    eapply spec_post; [by apply retire_completed_spec|]. intros [u|x] w; cbn; [done|by right].
  - intros [u|x]; cbn [post]; [apply After|].
    destruct (completion_undecided x || isAuthorityLost x) eqn:U; cbn [negb].
    + apply spec_or; [|intros w [Mi _]; exfalso; unfold mild, completion_undecided, isAuthorityLost in *; by destruct (er_class x)].
      apply step_act; [done|auto with quiet|intros _]. destruct (completion_undecided x).
      * eapply then_not_ready, retain_spec.
      * eapply spec_let; [apply lost_spec|intros ? w; apply at_idle|intros []; apply After].
    + apply spec_ret. intros w [W|[_ W]]; by eapply at_idle.
Qed.
Lemma resume_release_spec d e input : e.(jd_operation) = Some (I_release input) ->
  spec R_main (Ready d (Some e)) (resume_release config d input) (post (Ready d) (fun _ => idle)).
Proof.
  intros O. apply (spec_pre config _ (at_ true d (fun x => Live e x /\ x.(jd_operation) = Some (I_release input)))).
  { intros w (A & _ & L). revert A. apply at_mono. by intros x ->. }
  unfold resume_release. eapply spec_bind; [apply publish_release_spec|].
  intros [u|x]; cbn [post]; [by apply spec_ret|apply lose_lease_spec].
Qed.
Lemma resume_lost_spec d e : spec R_main (Ready d (Some e)) (resume_lost config d e) (post (Ready d) (fun _ => idle)).
Proof.
  unfold resume_lost. case_match; [by apply spec_ret|]. eapply spec_pre; [apply ready_live|].
  eapply spec_let; [apply reclaim_spec|intros ? w; apply at_idle|intros []].
  - apply reread_spec. intros x [_ L]. by apply L.
  - apply spec_ret. intros w. apply at_idle.
Qed.
Lemma claim_stored_spec d asOf e : spec R_main (Ready d (Some e)) (claim_stored config d asOf e)
  (post (Ready d) (fun _ => idle)).
Proof.
  unfold claim_stored. case_match.
  - apply spec_ret. intros w R. destruct (isTerminal e); [by apply ready_idle in R|done].
  - case_match; [apply spec_ret; intros w; apply ready_idle|apply claim_entry_spec].
Qed.
(** The pending operation, whichever it is. *)
Lemma resume_claimed_spec d e : spec R_main (Ready d (Some e)) (resume_claimed config d e) (post (Ready d) (fun _ => idle)).
Proof. unfold resume_claimed. destruct (jd_operation e) as [[]|]; try by apply spec_ret. apply claim_entry_spec. Qed.
Lemma resume_started_spec d e : spec R_main (Ready d (Some e)) (resume_started d e) (post (Ready d) (fun _ => idle)).
Proof. unfold resume_started. destruct (jd_operation e) as [[]|]; try by apply spec_ret. apply resume_start_spec. Qed.
Lemma resume_renewed_spec d e : spec R_main (Ready d (Some e)) (resume_renewed d e) (post (Ready d) (fun _ => idle)).
Proof. unfold resume_renewed. destruct (jd_operation e) as [[]|]; try by apply spec_ret. apply resume_renewal_spec. Qed.
Lemma resume_completed_spec d e : spec R_main (Ready d (Some e)) (resume_completed config d e) (post (Ready d) (fun _ => idle)).
Proof.
  unfold resume_completed. destruct (jd_operation e) as [[]|] eqn:O; try by apply spec_ret. by apply resume_completion_spec.
Qed.
Lemma resume_released_spec d e : spec R_main (Ready d (Some e)) (resume_released config d e) (post (Ready d) (fun _ => idle)).
Proof.
  unfold resume_released. destruct (jd_operation e) as [[]|] eqn:O; try by apply spec_ret. by apply resume_release_spec.
Qed.

(** *** Authorization *)
Lemma authorized_lasting digest a : lasting (authorized config digest a).
Proof.
  intros t u S (item & participant & workspace & policy & D & A & C & P).
  exists item, participant, workspace, policy. split_and!; try done; by eapply seen_lasting.
Qed.
Lemma authorize_spec item P : firm R_main P -> spec R_main P (authorize config item)
  (post (fun az w => P w /\ authorized config (deliveryIdentityDigest item) az.(az_assignment) w.(wd_log)) (fun _ => P)).
Proof.
  intros F. unfold authorize. apply step_quiet; [done|auto with quiet|done|intros []].
  eapply spec_let; [apply request_spec; [done|done]|done|intros assignment].
  set (q := RqGetAssignment _). assert (Fq : firm R_main (fun w => P w /\ seen (L_answered q assignment) w.(wd_log))).
  { apply lasting_firm; [done|apply seen_lasting]. }
  apply step_quiet; [done|auto with quiet|by intros _ w []|intros []].
  apply step_lift; [by intros _ w []|intros [[participant workspace] policy] Ck].
  eapply spec_let; [apply preflight_spec, Fq|by intros _ w []|intros preflight]. apply spec_ret.
  intros w [[Pw Aw] Lw]. split; [done|]. by exists item, participant, workspace, policy.
Qed.

(** What the turn goes on with. *)
Definition Authorized (d : string) (e : JournalDelivery) (r : option AuthorizedDelivery) : Assertion := fun w =>
  match r with
  | Some az => at_ true d (Live e) w /\ authorized config e.(jd_identity_sha256) az.(az_assignment) w.(wd_log)
  | None => idle w
  end.
Lemma authorize_or_refuse_spec d e turn : spec R_main (Ready d (Some e)) (authorize_or_refuse config d e turn)
  (post (Authorized d e) (fun _ => idle)).
Proof.
  intros w R. assert (D : deliveryIdentityDigest e.(jd_item) = e.(jd_identity_sha256)).
  { destruct R as (_ & J & _). symmetry. apply J. }
  apply ready_live in R. revert w R. fold (spec R_main (at_ true d (Live e)) (authorize_or_refuse config d e turn)
    (post (Authorized d e) (fun _ => idle))).
  unfold authorize_or_refuse. eapply spec_bind; [apply authorize_spec, firm_at; keeps|]. rewrite D.
  assert (None_ : forall p : M unit, spec R_main (at_ true d (Live e)) p (post (fun _ => idle) (fun _ => idle)) ->
    spec R_main (at_ true d (Live e)) (let! _ := p in ok None) (post (Authorized d e) (fun _ => idle))).
  { intros p S. eapply spec_let; [exact S|done|intros []]. by apply spec_ret. }
  intros [az|x]; cbn [post]; [by apply spec_ret|].
  assert (Else : spec R_main (at_ true d (Live e)) (raise x) (post (Authorized d e) (fun _ => idle)))
    by (apply spec_ret; intros w; apply at_idle).
  assert (Refuse : spec R_main (at_ true d (Live e))
    (act! _ := cancelHostExecutionBounded d (jd_execution_attempt e) turn in
     let! _ := releaseOrLoseLease config d R_policy_denied (safeError x) in ok None) (post (Authorized d e) (fun _ => idle))).
  { apply step_act; [apply firm_at; keeps|auto with quiet|intros _]. apply None_, release_or_lose_spec. }
  destruct (_ || _).
  - apply None_. eapply spec_pre; [|apply (authority_lost_idle e)]. intros; at_weaker.
  - by destruct (er_class x).
Qed.

(** *** A stored result *)
Lemma undecided_not_mild e : completion_undecided e || isAuthorityLost e = true -> mild e -> False.
Proof. unfold mild, completion_undecided, isAuthorityLost. by destruct (er_class e). Qed.
Lemma publish_stored_spec d e az result : e.(jd_result) = Some result ->
  spec R_main (at_ true d (Live e)) (publish_stored config d az result) (post (fun _ => idle) (fun _ => idle)).
Proof.
  intros Er. unfold publish_stored. eapply spec_bind.
  - apply (spec_post config _ _ _ (post (fun _ => at_ true d (Live e)) (fun _ => at_ true d (reworked e)))); [|intros r w W; exact W].
    eapply spec_let; [apply prepare_spec|done|intros window].
    eapply (spec_pre config _ (at_ true d (Live e))); [intros; at_weaker|].
    eapply spec_post; [apply quiet_post; [apply firm_at; keeps|]|intros [|] w; cbn; [done|intros; at_weaker]].
    pose proof (quiet_install config). quiet; by apply quiet_install.
  - intros [authority|x]; cbn [post].
    + eapply spec_try; [eapply spec_pre; [|apply complete_retire_spec]| |].
      * intros w. apply at_mono. intros x [R L]. split; [done|]. destruct R as (_ & _ & _ & _ & _ & R). congruence.
      * intros u w. apply at_idle.
      * intros x. destruct (completion_undecided x || isAuthorityLost x) eqn:U; cbn [negb];
          [|apply spec_ret; intros w [W|[_ W]]; by eapply at_idle].
        apply spec_or; [|intros w [Mi _]; by eapply undecided_not_mild in U].
        apply step_act; [apply firm_at; keeps|auto with quiet|intros _].
        destruct (er_class x); try apply lost_idle; apply retain_spec.
    + destruct (isAuthorityLost x); cbn [negb]; [apply authority_lost_idle|apply spec_ret; intros w; apply at_idle].
Qed.

(** *** The keeper *)
Definition leased (e : JournalDelivery) : Prop := live e /\ has_lease e.
Definition renewing (i : LeaseOperationInput) (e : JournalDelivery) : Prop := leased e /\ e.(jd_operation) = Some (I_renew i).
Lemma leased_kept : closed lease_kept leased.
Proof.
  intros e f (_ & I & _ & S) [L K]. split; [by unfold live; rewrite S|]. unfold has_lease, entry_delivery. by rewrite I.
Qed.
Lemma renewing_kept i : closed lease_kept (renewing i).
Proof. intros e f K [L O]. split; [by eapply leased_kept|]. destruct K as [-> _]. done. Qed.

Lemma keeper_renewal_spec d window : spec R_keeper (at_ false d leased) (keeper_renewal d window)
  (post (fun _ => at_ false d leased) (fun _ => at_ false d leased)).
Proof.
  assert (F : firm R_keeper (at_ false d leased)) by (apply at_firm; [by split; [|apply leased_kept]|keeps]).
  unfold keeper_renewal. apply step_quiet; [done|auto with quiet|done|intros []].
  apply step_quiet; [done|auto with quiet|done|intros entry].
  apply step_lift; [done|intros current _]. case_match; [by apply spec_ret|]. cbv zeta.
  set (input := lease_input _ _ _ _).
  assert (Fr : firm R_keeper (at_ false d (renewing input))) by (apply at_firm; [by split; [|apply renewing_kept]|keeps]).
  assert (Re : forall e w, (fun (_ : NodeError) => at_ false d (renewing input)) e w -> at_ false d leased w)
    by (intros _ w; apply at_mono; by intros x []).
  eapply spec_let; [apply (edit_spec config R_keeper false d leased _ (renewing input)); [by split; [|apply leased_kept]|keeps|]|by intros _ w [_ W]|intros ?].
  { intros now e b [= <-] [L K] S. split_and!; try done; [by apply (sound_work e); [|right|]|].
    split; [done|]. by exists (jd_renew_count entry + 1), (Some (I_renew input)), (jd_item e), (jd_updated_at e). }
  apply step_quiet; [done|auto with quiet|exact Re|intros []].
  apply step_act; [done|by apply quiet_act|intros t].
  eapply spec_let; [apply request_spec; [done|]|exact Re|intros renewed].
  { intros w [_ (x & E & _ & O)]. by exists x. }
  eapply spec_pre; [intros w [W _]; exact W|]. apply step_act; [done|by apply quiet_act|intros u].
  apply step_lift; [exact Re|intros next Wn]. apply window_lease in Wn.
  eapply spec_let; [apply (edit_spec config R_keeper false d (renewing input) _ leased); [by split; [|apply renewing_kept]|keeps|]|
    intros e w [_ W]; by apply (Re e)|intros ?].
  { intros now e b [= <-] [[L K] O] S. split_and!; try done; [by apply (sound_work e); [|left|]|].
    split; [done|]. by exists (jd_renew_count e), None, (e.(jd_item) <| item_delivery := op_delivery renewed |>), (jd_updated_at e). }
  apply step_quiet; [done|auto with quiet|done|intros []]. by apply spec_ret.
Qed.
Lemma keeper_spec d attempt fuel window :
  spec R_keeper (at_ false d leased) (keeper_run d attempt fuel window) (fun _ _ => True).
Proof.
  assert (F : firm R_keeper (at_ false d leased)) by (apply at_firm; [by split; [|apply leased_kept]|keeps]).
  assert (Q : forall p : Prog unit, quiet R_keeper p -> spec R_keeper (at_ false d leased) p (fun _ _ => True)).
  { intros p Q. eapply spec_post; [by apply quiet_spec|done]. }
  revert window. induction fuel as [|fuel IH]; intros window; cbn [keeper_run]; [apply Q; auto with quiet|].
  apply step_act; [done|auto with quiet|intros stopping]. case_match; [by apply spec_ret|].
  apply step_act; [done|by apply quiet_act|intros stopped]. case_match; [by apply spec_ret|].
  eapply spec_bind; [apply keeper_renewal_spec|]. intros [next|e]; cbn [post]; [apply IH|].
  apply Q. quiet.
Qed.

(** ** The turn *)

(** The keeper runs; it changes the lease only. *)
Definition running (digest : string) (e : JournalDelivery) : Prop :=
  e.(jd_identity_sha256) = digest /\ e.(jd_result) = None /\ live e.
Definition prepared (digest : string) (e : JournalDelivery) : Prop := running digest e /\ has_lease e.
Definition given (digest : string) (input : StartTurnInput) (e : JournalDelivery) : Prop :=
  running digest e /\ e.(jd_start_turn_input) = Some input.

Lemma moved_with (φ : JournalDelivery -> Prop) : closed lease_moved φ -> closed lease_moved (fun e => φ e /\ has_lease e).
Proof. intros C e f M [Pe L]. split; [by eapply C|]. by apply M. Qed.
Ltac moves := intros ? ? [_ (?&?&?&?&->)] ?; assumption.
Hint Extern 1 (closed lease_moved _) => moves : core.
Lemma own_moved (φ : JournalDelivery -> Prop) : closed lease_moved φ -> own R_main false φ.
Proof. by right. Qed.
Hint Resolve own_moved moved_with : core.
Lemma firm_moved d φ : closed minor φ -> closed lease_moved φ -> firm R_main (at_ false d φ).
Proof. intros C M. apply at_firm; [by right|done]. Qed.
Hint Resolve firm_moved : core.

Lemma frame_post r F P {A : Type} (p : M A) R E : lasting F -> spec r P p (post R E) ->
  spec r (fun w => P w /\ F w.(wd_log)) p
    (post (fun a w => R a w /\ F w.(wd_log)) (fun e w => E e w /\ F w.(wd_log))).
Proof. intros L S. eapply spec_post; [by apply spec_frame|]. intros [|] w; cbn; tauto. Qed.
(** The entry as it is at this moment. *)
Lemma pick_spec d φ {A : Type} (p : Prog A) Q :
  (forall a, φ a -> spec R_main (at_ true d (Live a)) p Q) -> (forall a, φ a -> live a) -> spec R_main (at_ true d φ) p Q.
Proof. intros S L w [C (a & E & Pa)]. apply (S a Pa). split; [done|]. exists a. repeat split; auto. Qed.

(** *** The start of the turn *)
Lemma quiet_set_session session : quiet R_main (act (OnJournal (fun _ _ => setMissionSession session))).
Proof.
  apply quiet_act. split; [done|]. intros now later s a t E. unfold setMissionSession in E. ok_inv E.
  injection E as _ <-. by apply same_minor.
Qed.
Lemma quiet_set_host d session : quiet R_main (edit d (fun _ current => Ok (current <| jd_host_session := session |>))).
Proof.
  apply edit_minor. intros now e e' [= <-].
  by exists session, (jd_runtime_authority e), (jd_runtime_authority_predecessor e), (jd_last_error e), (jd_updated_at e).
Qed.
Hint Resolve quiet_set_session quiet_set_host : quiet.

Lemma checkpoint_start_spec d digest i :
  spec R_main (at_ false d (prepared digest)) (act (OnJournal (fun now _ => checkpointStartTurnInput d i now)))
    (post (fun a => at_ false d (fun e => (running digest e /\ e.(jd_start_turn_input) = a.(jd_start_turn_input)) /\ has_lease e))
      (fun e w => journal_failed e /\ at_ false d (prepared digest) w)).
Proof.
  apply (update_spec config R_main false d (prepared digest) _ (fun e a => e.(jd_host_events) = [] /\ e.(jd_result) = None /\
    exists input t, parse_start_input (Some input) = Some (Some input) /\
      a = e <| jd_start_turn_input := Some input |> <| jd_updated_at := t |>)
    (fun a e => (running digest e /\ e.(jd_start_turn_input) = a.(jd_start_turn_input)) /\ has_lease e)); [apply own_moved, moved_with; moves|..].
  - intros now later s a t E. unfold checkpointStartTurnInput in E.
    destruct (startTurnInputSchema i) as [input|] eqn:S; [|done]. unfold updateDelivery in E. ok_inv E.
    injection E as <- <-. exists j. split; [done|]. split; [|done].
    match goal with U : _ = Ok a0 |- _ => ok_inv U; injection U as <- end. bool_hyps.
    assert (Em : jd_host_events j = []).
    { destruct (jd_host_events j) as [|x l]; [done|]. rewrite len_cons in *. pose proof (len_nonneg l). lia. }
    split_and!; [done|done|]. exists input, (toISOString now). split; [|done]. cbn. by rewrite (start_reparse _ _ S).
  - intros e a (Ev & Er & input & t & P & ->) [R L] S. split_and!; try done; [|by right].
    destruct S as [S1 S2 S3 S4 S5]. by split.
Qed.
Lemma open_turn_spec d digest attempt az authority F : lasting F ->
  spec R_main (fun w => at_ false d (prepared digest) w /\ F w.(wd_log)) (open_turn d attempt az authority)
    (post (fun input w => at_ false d (fun e => given digest input e /\ has_lease e) w /\ F w.(wd_log))
      (fun _ w => at_ false d (prepared digest) w /\ F w.(wd_log))).
Proof.
  intros L. assert (Fi : firm R_main (fun w => at_ false d (prepared digest) w /\ F w.(wd_log))).
  { apply lasting_firm; [apply firm_moved; [keeps|apply moved_with; moves]|done]. }
  unfold open_turn. apply step_act; [done|by apply quiet_act|intros s]. cbv zeta.
  apply step_quiet; [done|by apply quiet_wait|done|intros session]. case_match; [by apply spec_ret|].
  do 5 (apply step_quiet; [done|auto with quiet|done|intros ?]).
  eapply spec_let; [apply frame_post; [done|apply reads_spec, own_moved, moved_with; moves]|done|intros a]. cbn [now_at].
  destruct (jd_start_turn_input a) as [input|] eqn:Ei.
  - apply spec_ret. intros w [[A _] Fw]. split; [|done]. revert A. apply at_mono. intros e [[R K] M].
    split; [split; [done|]|done]. destruct M as [_ (?&?&?&?&->)]. exact Ei.
  - apply (spec_pre config _ (fun w => at_ false d (prepared digest) w /\ F w.(wd_log))).
    { intros w [[A _] Fw]. split; [|exact Fw]. revert A. apply at_mono. by intros e []. }
    apply step_lift; [done|intros i _].
    eapply spec_let; [apply frame_post; [done|apply checkpoint_start_spec]|by intros _ w [[_ W] ?]|intros e].
    destruct (jd_start_turn_input e) as [input|] eqn:Ee; apply spec_ret; intros w [A Fw]; (split; [|done]);
      revert A; apply at_mono; intros y [[R Ex] K]; [|done].
    split; [split; [done|congruence]|done].
Qed.
Lemma start_host_spec d digest attempt input authority az :
  spec R_main (fun w => at_ false d (fun e => given digest input e /\ has_lease e) w /\ authorized config digest az w.(wd_log))
    (start_host d attempt input authority)
    (post (fun _ => at_ false d (given digest input)) (fun _ => at_ false d (given digest input))).
Proof.
  set (P := fun w : World => _ /\ _). assert (Fi : firm R_main P).
  { apply lasting_firm; [apply firm_moved; [keeps|apply moved_with; moves]|apply authorized_lasting]. }
  assert (W : forall w, P w -> at_ false d (given digest input) w) by (intros w [A _]; revert A; apply at_mono; by intros e []).
  assert (Ready_ : forall w, invariant config w -> P w -> host_ready config input (memory w) w.(wd_log)).
  { intros w I [[_ (e & E & ((D & R & Lv) & Ei) & K)] Au]. exists e, az. destruct (invariant_journaled _ _ _ _ I E) as [_ O <-].
    destruct (eo_input _ O _ Ei) as (-> & _). split_and!; try done. by rewrite D. }
  unfold start_host. apply step_quiet; [done|by apply quiet_wait|by intros _|intros turn].
  apply step_act; [done|auto with quiet|intros _].
  do 3 (apply step_quiet; [done|auto with quiet|by intros _|intros ?]).
  apply (spec_post config _ P _ (fun _ => P)); [|intros [|] w; apply W]. destruct turn; (apply host_spec; [apply Fi|]); intros w I Pw;
    (split; [apply I|split; [apply I|by apply Ready_]]).
Qed.

(** *** The stream of the host's events *)
Definition expecting (c : HostTurnCorrelation) (s : HostEventStreamState) : HostEventStreamState := {|
  st_phase := s.(st_phase); lastSequence := s.(lastSequence); outputBytes := s.(outputBytes);
  artifactCount := s.(artifactCount); artifactBytes := s.(artifactBytes); artifactKeys := s.(artifactKeys);
  st_usage := s.(st_usage); st_turn := s.(st_turn); expectedTurn := c |}.
Lemma accept_expecting c s e policy s' : acceptHostEvent s e policy = Ok s' ->
  (s.(st_phase) = PH_awaiting_acceptance -> matchesExpectedHostTurn c e.(he_turn) = true) ->
  acceptHostEvent (expecting c s) e policy = Ok (expecting c s') /\ s'.(st_phase) <> PH_awaiting_acceptance.
Proof.
  intros R M. pose proof (accept_inv _ _ _ _ R) as [_ _ _ Me _ (k & z & u & _ & _ & _ & _ & _ & _ & Es)].
  split; [|rewrite Es; cbn; by case_match].
  clear Es k z u. unfold acceptHostEvent in *. cbv zeta in *.
  cbn [st_phase lastSequence outputBytes artifactBytes artifactKeys st_usage st_turn expectedTurn expecting].
  assert (G : forall c', (s.(st_phase) = PH_awaiting_acceptance -> matchesExpectedHostTurn c' e.(he_turn) = true) ->
    (s.(st_phase) === PH_awaiting_acceptance) && is_accepted e.(he_kind) && negb (matchesExpectedHostTurn c' e.(he_turn)) = false).
  { intros c' Mc. destruct (bool_decide_reflect (st_phase s = PH_awaiting_acceptance)) as [P|P]; [|done].
    rewrite Mc by done. by rewrite andb_false_r. }
  rewrite (G c M). rewrite (G _ Me) in R. clear G M Me.
  repeat match type of R with
  | (let* _ := ?x in _) = _ => destruct x; [|discriminate R]
  | (if ?b then Err _ else _) = _ => destruct b; [discriminate R|]
  | (let '(_, _) := ?p in _) = _ => destruct p
  end.
  by injection R as <-.
Qed.

(** The events so far are those of a stream of the turn, whatever turn id it took. *)
Definition tracks (policy : HostEventStreamPolicy) (input : StartTurnInput) (events : list HostEvent)
    (s : HostEventStreamState) : Prop :=
  accept_stream policy (createHostEventStreamState (expected_turn input)) events = Ok (expecting (expected_turn input) s) /\
  (s.(st_phase) = PH_awaiting_acceptance -> s.(expectedTurn) = expected_turn input).
Lemma tracks_push policy input events s e s' : tracks policy input events s ->
  acceptHostEvent s e policy = Ok s' -> tracks policy input (events ++ [e]) s'.
Proof.
  intros [T A] R. pose proof (accept_inv _ _ _ _ R) as [_ _ _ Me _ _].
  destruct (accept_expecting (expected_turn input) s e policy s' R) as [R' P]; [intros W; by rewrite <-A; [apply Me|]|].
  split; [|done]. rewrite accept_stream_snoc, T. exact R'.
Qed.
Lemma tracks_append policy input events more s s' : tracks policy input events s ->
  accept_stream policy s more = Ok s' -> tracks policy input (events ++ more) s'.
Proof.
  revert events s. induction more as [|e more IH]; intros events s T R; cbn in R; [injection R as <-; by rewrite app_nil_r|].
  destruct (acceptHostEvent s e policy) as [s1|] eqn:E; [|done].
  assert (events ++ e :: more = (events ++ [e]) ++ more) as -> by by rewrite <-app_assoc.
  eapply IH; [|exact R]. by eapply tracks_push.
Qed.
Lemma tracks_start policy e input s : sound e -> e.(jd_start_turn_input) = Some input ->
  accept_stream policy (createHostEventStreamState (expectation input e.(jd_host_events))) e.(jd_host_events) = Ok s ->
  tracks policy input e.(jd_host_events) s.
Proof.
  intros S Ei R. pose proof (sd_stream _ S) as St. destruct (jd_host_events e) as [|x l].
  { injection R as <-. by split. }
  destruct St as (i & old & so & Ei' & Ro); [done|]. assert (i = input) as -> by congruence. cbn in R, Ro.
  destruct (acceptHostEvent _ x policy) as [s1|] eqn:E in R; [|done].
  destruct (acceptHostEvent _ x old) as [s2|] eqn:Eo in Ro; [|done].
  apply accept_inv in Eo as [_ _ _ Me _ _].
  destruct (accept_expecting (expected_turn input) _ x policy s1 E) as [E' P]; [intros _; by apply Me|].
  apply (tracks_append policy input [x] l s1); [|done]. split; [|done].
  change (expecting _ (createHostEventStreamState _)) with (createHostEventStreamState (expected_turn input)) in E'.
  cbn [accept_stream]. by rewrite E'.
Qed.

Definition streamed (digest : string) (input : StartTurnInput) (events : list HostEvent) (e : JournalDelivery) : Prop :=
  given digest input e /\ e.(jd_host_events) = events.
Lemma push_spec d digest input policy events s event s' terminal : tracks policy input events s ->
  acceptHostEvent s event policy = Ok s' ->
  spec R_main (at_ false d (streamed digest input events)) (edit d (fun _ entry => Ok (push_event event terminal entry)))
    (post (fun _ => at_ false d (streamed digest input (events ++ [event])))
      (fun _ => at_ false d (streamed digest input events))).
Proof.
  intros T A. pose proof (tracks_push _ _ _ _ _ _ T A) as [T' _].
  eapply spec_post; [apply (edit_spec config R_main false d (streamed digest input events) _
    (streamed digest input (events ++ [event]))); [apply own_moved; moves|keeps|]|intros [|] w; cbn; [done|by intros [_ W]]].
  intros now e b [= <-] [[(D & Er & L) Ei] Ev] [S1 S2 S3 S4 S5]. cbv beta in *.
  assert (Lb : settled (push_event event terminal e) = false).
  { unfold settled, push_event. cbn. destruct (is_accepted _); [done|]. destruct terminal; [done|exact L]. }
  split_and!.
  - split; try done.
    + cbn. intros r Er'. congruence.
    + intros _. exists input, policy, (expecting (expected_turn input) s'). split; [exact Ei|]. cbn. rewrite Ev. exact T'.
    + intros Sb. congruence.
  - unfold live in L. congruence.
  - right. split_and!; try done. by rewrite Lb.
  - split; [split; [split_and!; done|done]|]. cbn. by rewrite Ev.
Qed.

Lemma consume_spec d digest attempt input policy authority fuel s events : tracks policy input events s ->
  spec R_main (at_ false d (streamed digest input events)) (consume_events d attempt policy authority fuel s events)
    (post (fun evs => at_ false d (streamed digest input evs)) (fun _ => at_ false d live)).
Proof.
  revert s events. induction fuel as [|fuel IH]; intros s events T; cbn [consume_events].
  { intros w W v R I i x u S. cbn in S. by destruct i. }
  assert (F : firm R_main (at_ false d (streamed digest input events))) by (apply firm_moved; [keeps|moves]).
  assert (Lv : forall events (e : NodeError) w, at_ false d (streamed digest input events) w -> at_ false d live w).
  { intros evs _ w. apply at_mono. by intros e [[(_ & _ & L) _] _]. }
  apply step_quiet; [done|auto with quiet|exact (Lv events)|intros []].
  apply step_quiet; [done|by apply quiet_wait|exact (Lv events)|intros [event|]].
  - apply step_quiet; [done|auto with quiet|exact (Lv events)|intros []].
    destruct (event_at events (he_sequence event)) as [replayed|].
    { case_match; [apply spec_ret; intros w; by apply (Lv events (plain_error ""))|]. by apply IH. }
    apply step_lift; [exact (Lv events)|intros s' A]. unfold of_host in A.
    destruct (acceptHostEvent s event policy) as [s1|] eqn:E; [|done]. injection A as ->. cbv zeta.
    eapply spec_let; [by eapply push_spec|exact (Lv events)|intros ?].
    assert (F' : firm R_main (at_ false d (streamed digest input (events ++ [event])))) by (apply firm_moved; [keeps|moves]).
    apply step_act; [done|quiet|intros _]. apply step_act; [done|quiet|intros _].
    apply IH. by eapply tracks_push.
  - case_match; [apply spec_ret; intros w; by apply (Lv events (plain_error ""))|].
    eapply spec_let; [apply reads_spec, own_moved; moves|exact (Lv events)|intros a]. cbn [now_at].
    apply spec_ret. intros w [A _]. revert A. apply at_mono. intros e [[G _] M]. split; [done|].
    by destruct M as [_ (?&?&?&?&->)].
Qed.
Lemma consume_host_spec d digest attempt input policy authority fuel :
  spec R_main (at_ false d (given digest input)) (consumeHostEvents d attempt input policy authority fuel)
    (post (fun evs => at_ false d (streamed digest input evs)) (fun _ => at_ false d live)).
Proof.
  assert (Lv : forall (e : NodeError) w, at_ false d (given digest input) w -> at_ false d live w).
  { intros _ w. apply at_mono. by intros e [(_ & _ & L) _]. }
  unfold consumeHostEvents. eapply spec_let; [apply reads_spec, own_moved; moves|exact Lv|intros a]. cbn [now_at]. cbv zeta.
  apply (spec_pre config _ (fun w => at_ false d (streamed digest input a.(jd_host_events)) w /\ (a.(jd_start_turn_input) = Some input /\ sound a))).
  { intros w (A & [_ Ei] & J). split_and!; [|done|apply J]. revert A. apply at_mono. intros e [G M]. split; [done|].
    by destruct M as [_ (?&?&?&?&->)]. }
  apply spec_pure. intros [Ei S].
  apply step_lift; [intros e w; apply at_mono; by intros x [[(_ & _ & L) _] _]|intros s A].
  apply consume_spec. unfold of_host in A. destruct (accept_stream _ _ _) as [s1|] eqn:E; [|done]. injection A as ->.
  by eapply tracks_start.
Qed.

(** *** The turn, and what its failures do *)
Lemma result_not_released events result : terminalResultFromEvents events = Ok result -> release_for (at_last events) = None.
Proof.
  unfold terminalResultFromEvents, release_for. destruct (he_kind <$> at_last events) as [[]|]; try done.
  by destruct disposition.
Qed.
(** Either work goes on, or the result is published and only the retirement failed. *)
Definition broken_off (d : string) (e : NodeError) : Assertion := fun w =>
  at_ false d live w \/
  mild e /\ at_ true d (fun x => release_for (at_last x.(jd_host_events)) = None) w.

Lemma stop_spec d φ : own R_main false φ -> closed minor φ ->
  spec R_main (at_ false d φ) keeper_stop (fun _ => at_ true d φ).
Proof.
  intros O C. unfold keeper_stop. apply step_act; [by apply at_firm|auto with quiet|intros ?]. by apply join_spec.
Qed.
Lemma stopped_spec d φ : closed minor φ -> spec R_main (at_ true d φ) keeper_stop (fun _ => at_ true d φ).
Proof.
  intros C. unfold keeper_stop. apply step_act; [auto|auto with quiet|intros ?]. apply join_spec. auto.
Qed.

Lemma publish_turn_spec d digest input events result authority authority' :
  terminalResultFromEvents events = Ok result ->
  spec R_main (at_ true d (streamed digest input events))
    (let! _ := edit d (fun _ current => Ok (current <| jd_result := Some result |> <| jd_phase := JP_host_terminal |>)) in
     let! _ := complete d result authority in
     retireCompletedRuntimeAuthority config d authority')
    (post (fun _ => idle) (broken_off d)).
Proof.
  intros T. eapply spec_let; [apply (edit_spec config R_main true d (streamed digest input events) _
    (fun x => live x /\ x.(jd_result) = Some result /\ x.(jd_host_events) = events)); [auto|keeps|]|..].
  - intros now e b [= <-] [[(D & Er & L) Ei] Ev] [S1 S2 S3 S4 S5]. split_and!; try done; [|unfold live in L; congruence|by left].
    split; try done.
    + cbn. intros i O. specialize (S2 i O). congruence.
    + cbn. intros r [= <-]. by rewrite Ev.
  - intros e w [_ W]. left. apply at_running in W. revert W. apply at_mono. by intros x [[(_ & _ & L) _] _].
  - intros u. apply pick_spec; [|by intros b []]. clear u. intros a (L & Er & Ev).
    eapply spec_weaken; [apply (complete_retire_spec a)|..].
    + intros w. apply at_mono. intros x [R Lx]. split; [done|]. destruct R as (_ & _ & _ & _ & _ & ->). done.
    + intros [u|e] w; cbn; [apply at_idle|]. intros [W|[Mi W]].
      * left. apply at_running in W. revert W. apply at_mono. by intros x [].
      * right. split; [done|]. revert W. apply at_mono. intros x (_ & _ & _ & _ & -> & _). rewrite Ev.
        by eapply result_not_released.
Qed.

Lemma run_turn_spec fuel d digest attempt az :
  spec R_main (fun w => at_ false d (prepared digest) w /\ authorized config digest az.(az_assignment) w.(wd_log))
    (run_turn config fuel d attempt az) (post (fun _ => idle) (broken_off d)).
Proof.
  set (P := fun w : World => _ /\ _). assert (Fi : firm R_main P).
  { apply lasting_firm; [apply firm_moved; [keeps|apply moved_with; moves]|apply authorized_lasting]. }
  assert (Lv : forall (e : NodeError) w, P w -> broken_off d e w).
  { intros ? w [W _]. left. revert W. apply at_mono. by intros x [(_ & _ & L) _]. }
  unfold run_turn.
  apply step_quiet; [done|auto with quiet|done|intros []]. apply step_quiet; [done|by apply quiet_wait|done|intros info].
  do 3 (apply step_quiet; [done|auto with quiet|done|intros ?]).
  apply step_quiet; [done|apply quiet_install; intros s; unfold set_authority; quiet|done|intros authority].
  apply step_act; [done|unfold set_authority; quiet|intros ?]. apply step_quiet; [done|auto with quiet|done|intros ?].
  eapply spec_let; [apply open_turn_spec, authorized_lasting|exact Lv|intros input].
  assert (Lg : forall φ : JournalDelivery -> Prop, (forall x, φ x -> live x) -> forall e w, at_ false d φ w -> broken_off d e w).
  { intros φ I e w W. left. revert W. apply at_mono. exact I. }
  eapply spec_let; [apply start_host_spec|apply Lg; by intros y [(_ & _ & L) _]|intros ?].
  eapply spec_let; [apply consume_host_spec|by apply Lg|intros events].
  eapply spec_bind; [apply stop_spec; [apply own_moved; moves|keeps]|intros ?].
  assert (Ls : forall e w, at_ true d (streamed digest input events) w -> broken_off d e w).
  { intros e w W. left. apply at_running in W. revert W. apply at_mono. by intros y [[(_ & _ & L) _] _]. }
  apply step_quiet; [apply firm_at; keeps|auto with quiet|exact Ls|intros ?].
  apply step_lift; [exact Ls|intros result Er].
  apply publish_turn_spec with (input := input). destruct (terminalResultFromEvents events); [congruence|done].
Qed.

Lemma turn_failed_spec d e : spec R_main (broken_off d e) (turn_failed config d e) (post (fun _ => idle) (fun _ => idle)).
Proof.
  unfold turn_failed. apply spec_or.
  - eapply spec_bind; [apply stop_spec; [apply own_moved; moves|keeps]|intros ?].
    apply pick_spec; [|done]. intros b L.
    apply step_act; [auto|auto with quiet|intros authority]. apply step_act; [auto|auto with quiet|intros ?].
    assert (Else : spec R_main (at_ true d (Live b))
      (if isAuthorityLost e then markLeaseLost d e else
       let! entry := requireEntry d in
       match release_for (at_last entry.(jd_host_events)) with
       | Some (classification, summary) => releaseOrLoseLease config d classification summary
       | None => raise e
       end) (post (fun _ => idle) (fun _ => idle))).
    { destruct (isAuthorityLost e); [apply lost_idle|].
      apply step_quiet; [auto|auto with quiet|intros ? w; apply at_idle|intros entry].
      destruct (release_for _) as [[classification summary]|]; [apply release_or_lose_spec|apply spec_ret; intros w; apply at_idle]. }
    destruct (er_class e); try exact Else; [apply retain_spec|].
    eapply spec_let; [apply quiet_post; [apply firm_at; keeps|apply edit_minor]|intros ? w; apply at_idle|
      intros ?; apply spec_ret; intros w; apply at_idle].
    intros now y y' [= <-]. by exists (jd_host_session y), (jd_runtime_authority y),
      (jd_runtime_authority_predecessor y), (Some (er_message e)), (jd_updated_at y).
  - eapply (spec_pre config _ (fun w => at_ true d (fun x => release_for (at_last x.(jd_host_events)) = None) w /\ mild e));
      [by intros w []|].
    apply spec_pure. intros Mi. eapply spec_bind; [apply stopped_spec; keeps|intros ?].
    apply step_act; [apply firm_at; keeps|auto with quiet|intros authority].
    apply step_act; [apply firm_at; keeps|auto with quiet|intros ?].
    assert (Else : spec R_main (at_ true d (fun x => release_for (at_last x.(jd_host_events)) = None))
      (let! entry := requireEntry d in
       match release_for (at_last entry.(jd_host_events)) with
       | Some (classification, summary) => releaseOrLoseLease config d classification summary
       | None => raise e
       end) (post (fun _ => idle) (fun _ => idle))).
    { eapply spec_let; [apply reads_spec; auto|intros ? w; apply at_idle|intros entry]. intros w (A & N & _). revert w A.
      rewrite N. intros w A. by eapply at_idle. }
    unfold mild in Mi. unfold isAuthorityLost. destruct (er_class e); try done; exact Else.
Qed.

Lemma host_turn_spec fuel d digest attempt turn az window :
  spec R_main (fun w => at_ true d (prepared digest) w /\ authorized config digest az.(az_assignment) w.(wd_log))
    (host_turn config fuel d attempt turn az window) (post (fun _ => idle) (fun _ => idle)).
Proof.
  unfold host_turn. apply step_act.
  - apply lasting_firm; [apply firm_at; keeps|apply authorized_lasting].
  - unfold begin_turn. quiet.
  - intros _. eapply spec_bind; [apply spec_frame; [apply authorized_lasting|apply keeper_fork_spec]|intros ?].
    + eapply spec_pre; [|apply keeper_spec]. intros w. apply at_mono. by intros e [(_ & _ & L) K].
    + eapply spec_try; [apply run_turn_spec|done|intros e; apply turn_failed_spec].
Qed.
Lemma execute_turn_spec fuel d e turn az : e.(jd_result) = None ->
  spec R_main (Authorized d e (Some az)) (execute_turn config fuel d e.(jd_execution_attempt) turn az)
    (post (fun _ => idle) (fun _ => idle)).
Proof.
  intros Er. assert (F : firm R_main (Authorized d e (Some az))).
  { apply lasting_firm; [apply firm_at; keeps|apply authorized_lasting]. }
  assert (I : forall w, Authorized d e (Some az) w -> idle w) by (intros w [W _]; by eapply at_idle).
  unfold execute_turn. apply step_act; [done|by apply quiet_act|intros []].
  { apply step_act; [done|auto with quiet|intros ?]. by apply spec_ret. }
  apply step_quiet; [done|auto with quiet|by intros _|intros ?].
  eapply spec_bind; [apply frame_post; [apply authorized_lasting|apply prepare_spec]|].
  intros [window|err]; cbn [post].
  - eapply spec_pre; [|apply host_turn_spec]. intros w [W A]. split; [|exact A]. revert W. apply at_mono.
    intros y [[(Id & _ & _ & _ & _ & R) L] K]. split; [split_and!; [done|congruence|done]|done].
  - eapply spec_pre; [intros w [W _]; exact W|].
    destruct (isAuthorityLost err); cbn [negb]; [apply authority_lost_idle|apply spec_ret; intros w; apply at_idle].
Qed.

(** ** [process] and [processNext] *)
Lemma enter_spec {A : Type} P (p : M (option A)) (k : A -> M unit) (R : option A -> Assertion) :
  spec R_main P p (post R (fun _ => idle)) -> (forall w, R None w -> idle w) ->
  (forall a, spec R_main (R (Some a)) (k a) (post (fun _ => idle) (fun _ => idle))) ->
  spec R_main P (bind p (fun r => match r with Ok (Some a) => k a | Ok None => ok tt | Err e => raise e end))
    (post (fun _ => idle) (fun _ => idle)).
Proof.
  intros S N K. eapply spec_bind; [exact S|]. intros [[a|]|e]; cbn [post]; [apply K|by apply spec_ret..].
Qed.
Lemma process_spec fuel d asOf : spec R_main idle (process config fuel d asOf) (post (fun _ => idle) (fun _ => idle)).
Proof.
  unfold process. apply step_act; [apply idle_firm|by apply quiet_act|intros []; [by apply spec_ret|]].
  eapply spec_let; [apply finds_spec|done|intros e].
  destruct (isTerminal e) eqn:Te.
  { eapply spec_pre; [|apply quiet_post; [apply idle_firm|auto with quiet]]. intros w [A _]. by eapply at_idle. }
  apply not_terminal in Te. apply (spec_pre config _ (Ready d (Some e))); [intros w [A J]; by split_and!|].
  pose proof (ready_idle d None) as N.
  apply (enter_spec _ _ _ (Ready d)); [apply resume_claimed_spec|done|clear e Te; intros e].
  apply (enter_spec _ _ _ (Ready d)); [apply resume_started_spec|done|clear e; intros e].
  apply (enter_spec _ _ _ (Ready d)); [apply resume_renewed_spec|done|clear e; intros e].
  apply (enter_spec _ _ _ (Ready d)); [apply resume_completed_spec|done|clear e; intros e].
  apply (enter_spec _ _ _ (Ready d)); [apply resume_released_spec|done|clear e; intros e].
  apply (enter_spec _ _ _ (Ready d)); [apply resume_lost_spec|done|clear e; intros e].
  apply (enter_spec _ _ _ (Ready d)); [apply claim_stored_spec|done|clear e; intros e].
  apply (enter_spec _ _ _ (Authorized d e)); [apply authorize_or_refuse_spec|done|intros az].
  case_match; [eapply spec_pre; [|apply release_or_lose_spec]; intros w [W _]; exact W|].
  destruct (jd_result e) as [result|] eqn:Er; [|by apply execute_turn_spec].
  eapply spec_pre; [|by apply publish_stored_spec]. intros w [W _]. exact W.
Qed.
Lemma process_entries_spec fuel asOf blocked entries : spec R_main idle (process_entries config fuel asOf blocked entries)
  (post (fun _ => idle) (fun _ => idle)).
Proof.
  revert blocked. induction entries as [|e entries IH]; intros blocked; cbn [process_entries]; [by apply spec_ret|].
  cbv zeta. case_match; [apply IH|]. eapply spec_bind; [apply process_spec|]. intros [u|x]; cbn [post]; [by apply spec_ret|].
  case_match; [by apply spec_ret|]. apply step_quiet; [apply idle_firm|auto with quiet|done|intros ?]. apply IH.
Qed.
Lemma processNext_spec fuel asOf : spec R_main idle (processNext config fuel asOf) (post (fun _ => idle) (fun _ => idle)).
Proof.
  unfold processNext. apply step_act; [apply idle_firm|by apply quiet_act|intros []; [by apply spec_ret|]].
  destruct asOf as [asOf|]; [|by apply spec_ret].
  apply step_act; [apply idle_firm|by apply quiet_act|intros s]. apply process_entries_spec.
Qed.
End Work.
