(* ===== verification/NodeSafety.v ===== *)
(** * What a Node promises

    Theorems about the executions of [ForegroundNode_run]: every schedule of its tasks,
    every answer of the Relay, the host and the disk, every shutdown and every crash. *)

From S2P Require Import Prelude JsLib Json Schemas MissionEvents MissionCoordinator MissionExample DeliveryOperations HostEvents JsonValue.
From S2P Require Import TurnInput NodePolicy RuntimeAuthority RuntimeAuthorityFactory Journal JournalSafety NodeProgram NodeAuthority Processor NodeLogic NodeWork.
Local Open Scope Z_scope.

Section Node.
Context `{Zod, NodeJs} (config : NodeConfig).
Local Abbreviation spec := (spec config).
Hint Resolve idle_firm : core.

(** ** The cycle *)
Lemma idle_journal {A : Type} (m : Z -> Z -> Mutation A) Q :
  (forall now later s a t, state_sound s -> m now later s = Ok (a, t) -> state_sound t /\ settled_le s t) ->
  (forall now later s a t u, m now later s = Ok (a, t) -> memory u = t -> idle u -> Q u) ->
  spec R_main idle (act (OnJournal m)) (post (fun _ => Q) (fun _ => idle)).
Proof.
  intros S R. eapply spec_post; [apply (journal_spec config R_main idle m (fun _ => Q)); [apply idle_firm|]|].
  - intros w now later a s I Iw E. destruct (S now later _ _ _ (iv_memory _ _ I) E) as [St Le]. split_and!; try done.
    + by left.
    + intros u Eu Du _. eapply R; [exact E|done|]. unfold idle. congruence.
  - intros [|] w; cbn; [done|by intros []].
Qed.

Lemma staged_sound next e e' : stageRuntimeAuthoritySuccessor next e = Ok e' -> sound e -> sound e' /\ settled e' = settled e.
Proof. intros (_ & (g & p & ->) & _)%stage_ok S. split; [|done]. by apply (sound_fields e). Qed.
Lemma upsert_sound now item s t : state_sound s -> upsertDelivery now s item = Ok t -> state_sound t /\ settled_le s t.
Proof.
  intros S E. unfold upsertDelivery in E. destruct (negb _); [done|].
  destruct (dict_get _ s.(nj_deliveries)) as [e|] eqn:Ee.
  - destruct (_ !== _); [done|]. destruct (assertSameDeliveryIdentity _ _); [|done].
    destruct (stageRuntimeAuthoritySuccessor _ e) as [f|] eqn:U; [|done]. injection E as <-.
    destruct (staged_sound _ _ _ U) as [Sf Se]; [by eapply S, dict_get_elem|].
    apply put_sound; [done|by apply (sound_fields f)|]. intros x Ex Sx. unfold entry_of in Ex.
    assert (x = e) as -> by congruence. change (settled f = true). congruence.
  - injection E as <-. apply put_sound; [done|by split|]. intros x Ex. unfold entry_of in Ex. congruence.
Qed.
Lemma upsert_all_sound now items s t : state_sound s -> upsertAll now items s = Ok t -> state_sound t /\ settled_le s t.
Proof.
  revert s. induction items as [|item items IH]; intros s S E; cbn in E; [by injection E as <-|].
  destruct (upsertDelivery now s item) as [u|] eqn:U; [|done]. destruct (upsert_sound _ _ _ _ S U) as [Su Lu].
  destruct (IH u Su E) as [St Lt]. split; [done|by etransitivity].
Qed.
Lemma ingest_recoverable_spec items :
  spec R_main idle (act (OnJournal (fun now _ => ingestRecoverable items now))) (post (fun _ => idle) (fun _ => idle)).
Proof.
  apply idle_journal; [|done]. intros now _ s a t S E. unfold ingestRecoverable in E. ok_inv E. injection E as _ <-.
  by eapply upsert_all_sound.
Qed.
Lemma ingest_page_spec items cursor :
  spec R_main idle (act (OnJournal (fun now _ => ingestCursorPage items cursor now))) (post (fun _ => idle) (fun _ => idle)).
Proof.
  apply idle_journal; [|done]. intros now _ s a t S E. unfold ingestCursorPage in E.
  destruct (upsertAll now items s) as [u|] eqn:U; [|done]. apply upsert_all_sound in U; [|done].
  ok_inv E; injection E as _ <-; exact U.
Qed.

(** ** The acceptances *)
Definition pending (missionId : string) (input : MissionParticipantAcceptanceInput) : Assertion := fun w =>
  idle w /\ exists a, acceptance_of missionId (memory w) = Some a /\ a.(ma_input) = input /\ a.(ma_status) = MA_pending.
Lemma pending_firm m i : firm R_main (pending m i).
Proof.
  destruct idle_firm as [St Mn]. split.
  - intros w v R [I (a & E & P)]. split; [by eapply St|]. exists a. destruct R as [_ R]. rewrite I in R. destruct R as [_ ->].
    done.
  - intros w u S D [En Fr Ac] [I (a & E & P)]. split; [by eapply Mn|]. exists a. unfold acceptance_of in *. by rewrite Ac.
Qed.
Lemma same_deliveries s t : t.(nj_deliveries) = s.(nj_deliveries) -> state_sound s -> state_sound t /\ settled_le s t.
Proof.
  unfold state_sound. intros E S. rewrite E. split; [done|]. intros k e Ee Se. exists e. unfold entry_of in *. by rewrite E.
Qed.
Lemma record_spec m i accepted : spec R_main idle (record_acceptance m i accepted)
  (post (fun _ w => idle w /\ (accepted = false -> pending m i w)) (fun _ => idle)).
Proof.
  unfold record_acceptance. apply (idle_journal _ (fun w => idle w /\ (accepted = false -> pending m i w))).
  - intros _ _ s a t S E. unfold recordMissionAcceptance in E. ok_inv E. injection E as _ <-. by apply same_deliveries.
  - intros _ _ s a t u E Eu I. split; [done|]. intros ->. split; [done|]. unfold recordMissionAcceptance in E. ok_inv E.
    injection E as _ <-. eexists. unfold acceptance_of. rewrite Eu. cbn. rewrite dict_get_set_eq. done.
Qed.
Lemma submit_spec m i : spec R_main idle (submitMissionAcceptance m i) (post (fun _ => idle) (fun _ => idle)).
Proof.
  unfold submitMissionAcceptance. apply step_quiet; [auto|auto with quiet|done|intros ?].
  eapply spec_let; [apply record_spec|done|intros ?].
  apply (spec_pre config _ (pending m i)); [intros w [_ P]; by apply P|].
  apply step_quiet; [apply pending_firm|auto with quiet|by intros _ w []|intros ?].
  eapply spec_let; [apply request_spec; [apply pending_firm|]|by intros _ w []|intros ?].
  { intros w (_ & a' & E & P). by exists a'. }
  eapply spec_weaken; [apply record_spec|by intros w [[I _] _]|].
  intros [|] w; cbn; [by intros []|done].
Qed.
Lemma quarantine_spec m error : spec R_main idle (act (OnJournal (fun _ _ => quarantineMissionAcceptance m error)))
  (post (fun _ => idle) (fun _ => idle)).
Proof.
  apply idle_journal; [|done]. intros _ _ s a t S E. unfold quarantineMissionAcceptance in E. ok_inv E. injection E as _ <-.
  by apply same_deliveries.
Qed.
Lemma submit_or_quarantine_spec m i : spec R_main idle (submitOrQuarantineMissionAcceptance m i)
  (post (fun _ => idle) (fun _ => idle)).
Proof.
  unfold submitOrQuarantineMissionAcceptance. eapply spec_bind; [apply submit_spec|].
  intros [u|e]; cbn [post]; [by apply spec_ret|]. case_match; [by apply spec_ret|].
  eapply spec_let; [apply quarantine_spec|done|intros ?]. by apply spec_ret.
Qed.
Lemma resubmit_spec intents n : spec R_main idle (resubmit intents n) (post (fun _ => idle) (fun _ => idle)).
Proof.
  revert n. induction intents as [|[m a] intents IH]; intros n; cbn [resubmit]; [by apply spec_ret|].
  case_match; [apply IH|]. apply step_quiet; [auto|auto with quiet|done|intros ?].
  eapply spec_let; [apply submit_or_quarantine_spec|done|intros ?]. apply IH.
Qed.
Lemma quiet_prepare r assignment now : quiet r (prepareMissionAcceptance config assignment now).
Proof. unfold prepareMissionAcceptance. quiet. Qed.
Lemma accept_page_spec now missions n : spec R_main idle (accept_page config now missions n) (post (fun _ => idle) (fun _ => idle)).
Proof.
  revert n. induction missions as [|m missions IH]; intros n; cbn [accept_page]; [by apply spec_ret|]. cbv zeta.
  apply step_quiet; [auto|auto with quiet|done|intros ?]. case_match; [apply IH|].
  apply step_act; [auto|by apply quiet_act|intros s]. case_match; [apply IH|].
  apply step_act; [auto|apply quiet_prepare|intros [input|e]].
  - eapply spec_let; [apply submit_or_quarantine_spec|done|intros ?]. apply IH.
  - case_match; [by apply spec_ret|apply IH].
Qed.
Lemma quiet_cursor cursor : quiet R_main (act (OnJournal (fun _ _ => setMissionAssignmentCursor cursor))).
Proof.
  apply quiet_act. split; [done|]. intros _ _ s a t E. unfold setMissionAssignmentCursor in E. ok_inv E.
  injection E as _ <-. by apply same_minor.
Qed.
Lemma accept_pending_spec : spec R_main idle (acceptPendingMissions config) (post (fun _ => idle) (fun _ => idle)).
Proof.
  unfold acceptPendingMissions. apply step_act; [auto|by apply quiet_act|intros now].
  apply step_act; [auto|by apply quiet_act|intros s]. eapply spec_let; [apply resubmit_spec|done|intros n].
  apply step_act; [auto|by apply quiet_act|intros s']. cbv zeta.
  apply step_quiet; [auto|auto with quiet|done|intros ?]. apply step_quiet; [auto|by apply quiet_request|done|intros page].
  apply step_quiet; [auto|auto with quiet|done|intros ?]. case_match; [by apply spec_ret|].
  eapply spec_let; [apply accept_page_spec|done|intros k]. apply step_quiet; [auto|auto with quiet|done|intros ?].
  apply step_quiet; [auto|case_match; [apply quiet_cursor|exact I]|done|intros ?].
  apply step_quiet; [auto|auto with quiet|done|intros ?]. by apply spec_ret.
Qed.

(** ** The daemon *)
Lemma quiet_verify r workspaces : quiet r (verify_workspaces config workspaces).
Proof.
  induction workspaces as [|[alias workspace] l IH]; cbn [verify_workspaces]; quiet; try done. by apply quiet_request.
Qed.
Lemma quiet_initialize r b : quiet r (initialize config b).
Proof.
  unfold initialize, verifyNodeIdentityAndWorkspaces. pose proof (quiet_verify r). quiet; auto. by apply quiet_request.
Qed.
Lemma run_cycle_spec fuel b : spec R_main idle (runCycle config fuel b) (post (fun _ => idle) (fun _ => idle)).
Proof.
  unfold runCycle. apply step_quiet; [auto|auto with quiet|done|intros ?].
  apply step_quiet; [auto|apply quiet_initialize|done|intros ?]. apply step_quiet; [auto|auto with quiet|done|intros ?].
  apply step_quiet; [auto|by apply quiet_request|done|intros recoverable].
  eapply spec_let; [apply ingest_recoverable_spec|done|intros ?]. apply step_quiet; [auto|auto with quiet|done|intros ?].
  apply step_act; [auto|by apply quiet_act|intros s]. apply step_quiet; [auto|by apply quiet_request|done|intros page].
  eapply spec_let; [apply ingest_page_spec|done|intros ?]. apply step_quiet; [auto|auto with quiet|done|intros ?].
  eapply spec_let; [apply processNext_spec|done|intros ?]. apply step_quiet; [auto|auto with quiet|done|intros ?].
  apply accept_pending_spec.
Qed.
Lemma cycles_spec fuel : spec R_main idle (cycles config fuel) (fun _ => idle).
Proof.
  induction fuel as [|fuel IH]; cbn [cycles]; [apply quiet_spec; auto with quiet|].
  apply step_act; [auto|by apply quiet_act|intros []; [by apply spec_ret|]].
  eapply spec_bind; [apply run_cycle_spec|]. intros r. apply (spec_pre config _ idle); [by destruct r|].
  apply step_act; [auto|by apply quiet_act|intros []; [by apply spec_ret|]].
  by apply step_act; [auto|by apply quiet_act|intros _].
Qed.
Lemma node_spec fuel : spec R_main idle (ForegroundNode_run config fuel) (fun _ => idle).
Proof.
  unfold ForegroundNode_run. apply step_act; [auto|by apply quiet_act|intros []; [by apply spec_ret|]].
  apply step_act; [auto|apply quiet_initialize|intros [u|e]; [apply cycles_spec|by apply spec_ret]].
Qed.
Lemma node_ok fuel w : invariant config w -> w.(wd_keeper_done) = true ->
  wp config R_main (ForegroundNode_run config fuel) anything w.
Proof. intros _ D. eapply wp_mono; [|by apply node_spec]. done. Qed.

(** ** What the log of an execution shows *)
Lemma trace_ok_at later e s earlier : trace_ok config (later ++ (e, s) :: earlier) -> event_ok config e s earlier.
Proof. induction later as [|[x t] later IH]; cbn; [by intros [? _]|]. intros [_ T]. by apply IH. Qed.

Section Execution.
Variables (fuel : nat) (schedule : list Turn) (c : Config).
Hypothesis executed :
  execute (ForegroundNode_run config fuel) schedule (first_boot (ForegroundNode_run config fuel)) = Some c.

Lemma executed_ok : config_ok config c.
Proof. eapply execute_settled; [by apply node_ok| |exact executed]. apply first_boot_ok. by apply node_ok. Qed.
Lemma executed_event later e s earlier : c.(cf_world).(wd_log) = later ++ (e, s) :: earlier -> event_ok config e s earlier.
Proof. intros L. eapply trace_ok_at. rewrite <-L. apply executed_ok. Qed.

(** C5: a Node writes ahead.  Whatever the schedule of its tasks, the answers and the
    crashes, everything it sends the Relay about a delivery or an acceptance is what its
    journal says at that moment is being asked, with the same key, lease and content, and
    that state had been saved on the disk before: a process that dies at any point finds
    the same request in its journal and repeats it. *)
Theorem node_writes_ahead {A} later (q : RelayRequest A) s earlier :
  c.(cf_world).(wd_log) = later ++ (L_sent q, s) :: earlier ->
  journaled_intent q s /\ seen (L_saved s) earlier /\ nodeJournalStateSchema s = Some s.
Proof. intros (Ok_ & _ & J & S)%executed_event. split_and!; [done..|apply Ok_]. Qed.

(** C6: what a Node publishes is what its host said.  A completion that is sent carries
    the disposition of the final event of the journaled stream, whose events were
    accepted one after the other as the stream of exactly the turn that was journaled
    before it was started: its delivery, attempt, Mission, contract version and session. *)
Theorem node_publishes_host_result later d input s earlier :
  c.(cf_world).(wd_log) = later ++ (L_sent (RqComplete d input), s) :: earlier ->
  exists e turn policy st,
    entry_of d s = Some e /\ e.(jd_start_turn_input) = Some turn /\ turn.(sti_deliveryId) = d /\
    accept_stream policy (createHostEventStreamState (expected_turn turn)) e.(jd_host_events) = Ok st /\
    terminalResultFromEvents e.(jd_host_events) = Ok input.(cmi_result).
Proof.
  intros (Ok_ & So & (e & E & O) & _)%executed_event. pose proof (dict_get_elem _ _ _ E) as El.
  pose proof (So d e El) as [_ S2 S3 S4 _]. apply S2, S3 in O.
  destruct (jd_host_events e) as [|x l] eqn:Ev; [done|]. destruct S4 as (turn & policy & st & Et & A); [done|].
  destruct (so_delivery _ Ok_ d e El) as [Id Eo]. destruct (eo_input _ Eo _ Et) as (Ed & _).
  exists e, turn, policy, st. rewrite Ev. split_and!; try done. congruence.
Qed.

(** C7: no turn without authority.  Where the host is asked to start or recover a turn,
    the turn is the journaled one of a delivery that has no result, is not settled and
    has an active lease; and before, the Relay had answered for the Mission of that very
    delivery (short of a sha256 collision) with an assignment that the Node's own agent,
    workspace and policy allow, and the workspace had been checked. *)
Theorem node_starts_only_authorized {A} later (call : HostCall A) s earlier :
  c.(cf_world).(wd_log) = later ++ (L_host call, s) :: earlier ->
  match call with
  | StartTurn input | RecoverTurn _ input => host_ready config input s earlier
  | _ => True
  end.
Proof. intros E%executed_event. destruct call; try done; apply E. Qed.

(** The delivery a request is about. *)
Definition about {A} (q : RelayRequest A) : option string :=
  match q with
  | RqClaim d _ | RqStart d _ | RqRenew d _ | RqComplete d _ | RqRelease d _ => Some d
  | _ => None
  end.
End Execution.

(** C8: settled is settled.  Once the journal says that a delivery is acknowledged,
    dead-lettered or lost to its authority, it says one of these ever after, across
    crashes and restarts; and from then on no request about it is sent and its turn is
    neither started nor recovered. *)
Theorem node_settles_for_good fuel schedule schedule' c c' d e :
  let program := ForegroundNode_run config fuel in
  execute program schedule (first_boot program) = Some c -> execute program schedule' c = Some c' ->
  entry_of d (memory c.(cf_world)) = Some e -> settled e = true ->
  (exists f, entry_of d (memory c'.(cf_world)) = Some f /\ settled f = true) /\
  forall event s later earlier,
    c'.(cf_world).(wd_log) = later ++ (event, s) :: earlier -> c.(cf_world).(wd_log) `suffix_of` earlier ->
    match event with
    | L_sent q => about q <> Some d
    | L_host (StartTurn input) | L_host (RecoverTurn _ input) => input.(sti_deliveryId) <> d
    | _ => True
    end.
Proof.
  intros program E E' Ed Se. pose proof (executed_ok _ _ _ E) as Ck.
  destruct (execute_settled config program (node_ok fuel) _ _ _ Ck E') as [Ck' L]. split; [by eapply L|].
  destruct (execute_after config program (node_ok fuel) _ _ _ Ck E') as (l & El & After).
  intros event s later earlier Lg [m Em]. assert (Ev : event_ok config event s earlier) by (eapply trace_ok_at; rewrite <-Lg; apply Ck').
  destruct (After event s) with (k := d) (e := e) as (f & Ef & Sf); [|done..|].
  { rewrite El, Em, app_comm_cons, app_assoc in Lg. apply app_inv_tail in Lg as ->. apply elem_of_app. right. left. }
  destruct event as [A q|A q a|A call|workspace participant|checkpoint id|g|t]; try done.
  - destruct Ev as (_ & So & J & _). intros Ab. assert (No : jd_operation f = None).
    { by apply (sd_settled _ (So d f (dict_get_elem _ _ _ Ef))). }
    destruct q; try done; injection Ab as ->; destruct J as (g & Eg & Og); congruence.
  - assert (Host : forall input, host_ready config input s earlier -> input.(sti_deliveryId) <> d).
    { intros input (g & a & Eg & _ & _ & Sg & _) <-. congruence. }
    destruct call; try done; apply Host, Ev.
Qed.
End Node.

(** ** An example *)
#[local] Existing Instance example_zod.
#[local] Existing Instance JournalSafety.ex_digests.

Definition ex_config : NodeConfig := {|
  nc_node_id := ex_id "7"; nc_agent_id := ex_agent_b;
  nc_workspaces := [("server", {| wc_path := "/work/server"; wc_repository_url := "https://github.com/acme/service";
                                  wc_allowed_base_refs := ["main"]; wc_policy_profile := "default" |})];
  nc_policy_profiles := {[ "default" := ex_profile ["PATH"] ]}; nc_port := false |}.

(** The Relay's side: delivery 4 of the example Mission, which is [ex_agent_b]'s turn. *)
Definition ex_work (s : DeliveryStatus) (attempts : Z) (lease : option DeliveryLease) : Delivery :=
  ex_executing <| d_status := s |> <| d_attempt_count := attempts |> <| d_lease := lease |>
    <| d_last_fencing_token := string_of_int attempts |>.
Definition ex_work_item (delivery : Delivery) : MissionDeliveryItem := {|
  item_delivery := delivery; item_event := ex_event 4 "4" (ex_ack ex_agent_a (ex_delivery "3"));
  item_actor_agent_id := ex_agent_a; item_source_delivery_id := Some (ex_delivery "3");
  item_causal_parent_event_id := None |}.
Definition ex_receipt (op : DeliveryOperation) (before after : DeliveryStatus) (outcome : option DeliveryClaimOutcome)
    : DeliveryOperationReceipt := {|
  or_receipt_id := ex_id "8"; or_operation := op; or_idempotency_key := "key-4"; or_node_id := ex_id "7";
  or_delivery_id := ex_delivery "4"; or_attempt_count := 1; or_lease := Some ex_authority;
  or_lease_expires_at := Some "2026-08-03T12:05:00Z"; or_status_before := before; or_status_after := after;
  or_logical_settlement := None; or_claim_outcome := outcome; or_release := None; or_cancellation_reason := None;
  or_recorded_at := "2026-08-03T12:00:30Z" |}.
Definition ex_assignment : NodeMissionAssignment := {|
  nma_mission_id := ex_mission; nma_coordinator_config := ex_cfg; nma_coordinator_state := ex_run (take 4 ex_prefix);
  nma_participant_agent_id := ex_agent_b; nma_workspace_binding_id := ex_id "6"; nma_acceptance_status := AS_accepted;
  nma_acceptance_receipt := Some {|
    rcp_mission_id := ex_mission; rcp_participant_agent_id := ex_agent_b; rcp_idempotency_key := "accept-1";
    rcp_contract := ex_artifact 1;
    rcp_local_policy_grant := {| grant_profile_name := "default"; grant_sha256 := ex_hash |};
    rcp_accepted_at := ex_time |} |}.

Definition ex_current (w : World) : option Delivery := entry_delivery <$> entry_of (ex_delivery "4") (memory w).
Definition ex_relay {A} (q : RelayRequest A) (w : World) : RelayBody :=
  match q with
  | RqMe => B_node {|
      node_node_id := ex_id "7"; node_agent_id := ex_agent_b; node_name := "server-node"; node_status := S_active;
      node_capabilities := []; node_last_seen_at := None; node_created_at := ex_time; node_updated_at := ex_time;
      node_revoked_at := None |}
  | RqRegisterWorkspace input => B_workspace {|
      wsb_workspace_binding_id := ex_id "6"; wsb_node_id := ex_id "7"; wsb_agent_id := ex_agent_b;
      wsb_alias := input.(wsr_alias); wsb_repository_url := input.(wsr_repository_url);
      wsb_allowed_base_refs := input.(wsr_allowed_base_refs); wsb_status := S_active; wsb_created_at := ex_time;
      wsb_updated_at := ex_time; wsb_revoked_at := None |}
  | RqListAssignments _ _ _ => B_assignments {| nml_missions := []; nml_next_cursor := None |}
  | RqGetAssignment _ => B_assignment ex_assignment
  | RqPollDeliveries _ => B_page
      match ex_current w with
      | None => {| smp_items := [ex_work_item (ex_work D_stored 0 None)]; smp_next_cursor := Some "17" |}
      | Some _ => {| smp_items := []; smp_next_cursor := None |}
      end
  | RqRecoverDeliveries => B_recoverable {| rmp_items := []; rmp_as_of := "2026-08-03T12:00:30Z" |}
  | RqClaim _ _ => B_claim (Claimed (ex_work_item (ex_work D_leased 1 (Some ex_lease)))
                              (ex_receipt Op_claim D_stored D_leased (Some CO_claimed)) false)
  | RqStart _ _ => B_operation ex_start_result
  | RqRenew _ _ =>
      match ex_current w with
      | Some d => B_operation {| op_delivery := d; op_receipt := ex_receipt Op_renew d.(d_status) d.(d_status) None;
                                 op_replayed := false |}
      | None => B_other
      end
  | RqComplete _ _ => B_complete ex_completion
  | _ => B_other
  end.
Definition ex_said (n : Z) (k : HostEventKind) : HostEvent := {|
  he_kind := k; he_sequence := n;
  he_turn := {| turnId := "turn-1"; sessionId := "session-1"; missionId := ex_mission; deliveryId := ex_delivery "4";
                executionAttempt := 1; contractVersion := 2 |} |}.
Definition ex_agent {A} (c : HostCall A) (w : World) : HostValue :=
  match c with
  | Probe => H_info {| info_name := "codex"; info_version := "1.0.0"; info_cancellation := true;
                       info_recovery := false; info_usage := turn_cumulative |}
  | EnsureSession input => H_session {| hs_sessionId := "session-1"; hs_input := input |}
  | LookupTurn _ _ => H_turn None
  | NextEvent => H_event
      match (fun e => len e.(jd_host_events)) <$> entry_of (ex_delivery "4") (memory w) with
      | Some 0 => Some (ex_said 1 HE_accepted)
      | Some 1 => Some (ex_said 2 (HE_usage (UsageAvailable 100 20)))
      | Some 2 => Some (ex_said 3 (HE_completed (Reply T_decision "Version 2 it is" None)))
      | _ => None
      end
  | _ => H_done
  end.

Definition ex_answer {X} (o : Op X) (w : World) : Input :=
  match o with
  | OnJournal _ => In_save ex_clock ex_clock Saved ""
  | Now | Monotonic => In_time ex_clock
  | Receive q => In_reply (R_body (ex_relay q w))
  | Host call | RaceHost call _ => In_host (ex_agent call w)
  | Preflight _ _ => In_preflight {| wp_root := "/work/server"; wp_repository_url := "https://github.com/acme/service";
      wp_head_commit := "0123456789abcdef0123456789abcdef01234567"; wp_reachable_from_ref := "main" |}
  | Local _ => In_clock {| cl_now := Some ex_clock; cl_later := Some ex_clock; cl_uuid := ex_id "5" |}
  | _ => In_none
  end.
Definition waits {X} (o : Op X) (w : World) : bool := match o with KeeperJoin => negb w.(wd_keeper_done) | _ => false end.
(** The main task moves; the keeper does where it is waited for. *)
Definition ex_next (c : Config) : Turn :=
  let w := c.(cf_world) in
  match c.(cf_main) with
  | Act o _ =>
      if waits o w then match c.(cf_keeper) with Act o _ => Keeper (ex_answer o w) | _ => Keeper In_none end
      else Main (ex_answer o w)
  | _ => Main In_none
  end.
Definition ex_program : Prog unit := ForegroundNode_run ex_config 8.
Fixpoint ex_play (n : nat) (c : Config) : list Turn * Config :=
  match n with
  | O => ([], c)
  | S n =>
      let t := ex_next c in
      match step ex_program t c with
      | Some c => let '(l, c) := ex_play n c in (t :: l, c)
      | None => ([], c)
      end
  end.
Lemma play_executes n c : execute ex_program (ex_play n c).1 c = Some (ex_play n c).2.
Proof.
  revert c. induction n as [|n IH]; intros c; cbn [ex_play]; [done|].
  destruct (step ex_program (ex_next c) c) as [d|] eqn:S; [|done]. specialize (IH d).
  destruct (ex_play n d) as [l d']. cbn [fst snd execute] in *. by rewrite S.
Qed.
Lemma execute_app program l m c d e : execute program l c = Some d -> execute program m d = Some e ->
  execute program (l ++ m) c = Some e.
Proof.
  revert c. induction l as [|t l IH]; intros c; cbn; [by intros [= ->]|].
  destruct (step program t c) as [x|]; cbn; [apply IH|done].
Qed.

(** What was done last. *)
Definition completes (t : trace) : bool :=
  match t with (L_sent q, _) :: _ => match q with RqComplete _ _ => true | _ => false end | _ => false end.
Definition starts (t : trace) : bool :=
  match t with (L_host call, _) :: _ => match call with StartTurn _ => true | _ => false end | _ => false end.
Lemma completes_inv t : completes t = true -> exists d input s earlier,
  t = (L_sent (RqComplete d input), s) :: earlier.
Proof. destruct t as [|[[A q|A q a|A call|p q|p q|p|p] s] t]; try done. destruct q; try done. intros _. by eexists _, _, _, _. Qed.
Lemma starts_inv t : starts t = true -> exists input s earlier, t = (L_host (StartTurn input), s) :: earlier.
Proof. destruct t as [|[[A q|A q a|A call|p q|p q|p|p] s] t]; try done. destruct call; try done. intros _. by eexists _, _, _. Qed.

(** The turn is started; the completion is sent; the process dies before the answer; it
    starts again and sends the completion again; and the delivery is acknowledged. *)
Definition ex_started : list Turn * Config := ex_play 109 (first_boot ex_program).
Definition ex_sent : list Turn * Config := ex_play 144 (first_boot ex_program).
Definition ex_crashed : Config := default ex_sent.2 (step ex_program Restart ex_sent.2).
Definition ex_resent : list Turn * Config := ex_play 32 ex_crashed.
Definition ex_acknowledged : list Turn * Config := ex_play 20 ex_resent.2.
Definition ex_onward : list Turn * Config := ex_play 60 ex_acknowledged.2.
Definition ex_until_resent : list Turn := ex_sent.1 ++ Restart :: ex_resent.1.
Definition ex_until_acknowledged : list Turn := ex_until_resent ++ ex_acknowledged.1.

Lemma some_default {A : Type} (x : option A) y : non_null x = true -> x = Some (default y x).
Proof. by destruct x. Qed.
Lemma restarts : step ex_program Restart ex_sent.2 = Some ex_crashed.
Proof. apply some_default. by_vm. Qed.
Lemma execute_cons program t l c d e : step program t c = Some d -> execute program l d = Some e ->
  execute program (t :: l) c = Some e.
Proof. intros S E. cbn [execute]. by rewrite S. Qed.
Lemma until_sent : execute ex_program ex_sent.1 (first_boot ex_program) = Some ex_sent.2.
Proof. unfold ex_sent. apply play_executes. Qed.
Lemma until_resent : execute ex_program ex_until_resent (first_boot ex_program) = Some ex_resent.2.
Proof.
  assert (R : execute ex_program ex_resent.1 ex_crashed = Some ex_resent.2) by (unfold ex_resent; apply play_executes).
  exact (execute_app _ _ _ _ _ _ until_sent (execute_cons _ _ _ _ _ _ restarts R)).
Qed.
Lemma until_acknowledged : execute ex_program ex_until_acknowledged (first_boot ex_program) = Some ex_acknowledged.2.
Proof.
  assert (R : execute ex_program ex_acknowledged.1 ex_resent.2 = Some ex_acknowledged.2)
    by (unfold ex_acknowledged; apply play_executes).
  exact (execute_app _ _ _ _ _ _ until_resent R).
Qed.

Lemma until_started : execute ex_program ex_started.1 (first_boot ex_program) = Some ex_started.2.
Proof. unfold ex_started. apply play_executes. Qed.
Lemma from_acknowledged : execute ex_program ex_onward.1 ex_acknowledged.2 = Some ex_onward.2.
Proof. unfold ex_onward. apply play_executes. Qed.

(** The completion sent again after the crash is the journaled one. *)
Lemma node_writes_ahead_witness : exists d input s earlier,
  ex_resent.2.(cf_world).(wd_log) = (L_sent (RqComplete d input), s) :: earlier /\
  (exists e, entry_of d s = Some e /\ e.(jd_operation) = Some (I_complete input)) /\ seen (L_saved s) earlier.
Proof.
  destruct (completes_inv ex_resent.2.(cf_world).(wd_log)) as (d & input & s & earlier & L); [by_vm|].
  exists d, input, s, earlier. split; [exact L|].
  pose proof (node_writes_ahead ex_config 8 _ _ until_resent [] (RqComplete d input) s earlier L) as (J & S & _).
  split; [exact J|exact S].
Defined.

(** It carries the reply of the host. *)
Lemma node_publishes_host_result_witness : exists d input s earlier e,
  ex_resent.2.(cf_world).(wd_log) = (L_sent (RqComplete d input), s) :: earlier /\
  entry_of d s = Some e /\ terminalResultFromEvents e.(jd_host_events) = Ok input.(cmi_result).
Proof.
  destruct (completes_inv ex_resent.2.(cf_world).(wd_log)) as (d & input & s & earlier & L); [by_vm|].
  destruct (node_publishes_host_result ex_config 8 _ _ until_resent [] d input s earlier L)
    as (e & turn & policy & st & E & _ & _ & _ & T).
  exists d, input, s, earlier, e. split; [exact L|]. split; [exact E|exact T].
Defined.

Lemma node_starts_only_authorized_witness : exists input s earlier,
  ex_started.2.(cf_world).(wd_log) = (L_host (StartTurn input), s) :: earlier /\ host_ready ex_config input s earlier.
Proof.
  destruct (starts_inv ex_started.2.(cf_world).(wd_log)) as (input & s & earlier & L); [by_vm|].
  exists input, s, earlier. split; [exact L|].
  exact (node_starts_only_authorized ex_config 8 _ _ until_started [] (StartTurn input) s earlier L).
Defined.

(** The delivery is acknowledged, and stays so through further cycles. *)
Lemma node_settles_for_good_witness :
  exists f, entry_of (ex_delivery "4") (memory ex_onward.2.(cf_world)) = Some f /\ settled f = true.
Proof.
  destruct (entry_of (ex_delivery "4") (memory ex_acknowledged.2.(cf_world))) as [e|] eqn:E.
  - assert (S : settled <$> entry_of (ex_delivery "4") (memory ex_acknowledged.2.(cf_world)) = Some true) by by_vm.
    rewrite E in S. injection S as S.
    exact (proj1 (node_settles_for_good ex_config 8 _ _ _ _ _ _ until_acknowledged from_acknowledged E S)).
  - exfalso. assert (S : non_null (entry_of (ex_delivery "4") (memory ex_acknowledged.2.(cf_world))) = true) by by_vm.
    rewrite E in S. discriminate S.
Defined.
