(* ===== verification/NodeForward.v ===== *)
(** * A Node's journal moves forward

    Every journal update the programs of Processor make moves the journal forward,
    whatever it is answered: [moves] says so of a program, effect by effect, together
    with the grants whose revocation it has seen confirmed.  Along every execution, then,
    nothing of the journal is lost. *)

From S2P Require Import Prelude JsLib Json Schemas MissionEvents MissionExample DeliveryOperations HostEvents JsonValue.
From S2P Require Import TurnInput RuntimeAuthority Journal JournalSafety NodeProgram NodeAuthority Processor NodeLogic NodeWork NodeSafety.
Local Open Scope Z_scope.

Section Moves.
Context `{Zod, NodeJs}.

(** ** Programs *)
(** What an effect that answered [x] shows: the runtime has confirmed a revocation. *)
Definition learned {X : Type} (o : Op X) : X -> list RuntimeAuthorityGrant :=
  match o in Op X return X -> list RuntimeAuthorityGrant with
  | Port (RevokeAuthority grant _) => fun x => match x with Ok _ => [grant] | Err _ => [] end
  | _ => fun _ => []
  end.
Definition moves_op (known : list RuntimeAuthorityGrant) {X : Type} (o : Op X) : Prop :=
  match o with
  | OnJournal m => forall now later, mutation_le (.∈ known) (m now later) /\ keeps_keys (m now later)
  | _ => True
  end.
Fixpoint moves (known : list RuntimeAuthorityGrant) {A : Type} (p : Prog A) : Prop :=
  match p with
  | Ret _ => True
  | Act o k => moves_op known o /\ forall x, moves (learned o x ++ known) (k x)
  | Fork _ child k => moves known child /\ moves known k
  end.

Lemma moves_mono known more {A : Type} (p : Prog A) : known ⊆ more -> moves known p -> moves more p.
Proof.
  revert known more. induction p as [A a|A X o k IH|A t child IHc k IH]; intros known more I; cbn; [done|..].
  - intros [O K]. split.
    + destruct o; try done. intros now later. destruct (O now later) as [L Ks]. split; [|done].
      eapply mutation_le_mono; [|exact L]. exact I.
    + intros x. eapply IH; [|apply K]. set_solver.
  - intros [C K]. split; [by eapply IHc|by eapply IH].
Qed.
Lemma moves_bind known {A B : Type} (p : Prog A) (f : A -> Prog B) :
  moves known p -> (forall a, moves known (f a)) -> moves known (bind p f).
Proof.
  revert B f known. induction p as [A a|A X o k IH|A t child IHc k IH]; intros B f known; cbn; [auto|..].
  - intros [O K] F. split; [done|]. intros x. apply IH; [done|]. intros a. eapply moves_mono; [|apply F]. set_solver.
  - intros [C K] F. split; [done|]. by apply IH.
Qed.
Lemma moves_act known {X : Type} (o : Op X) : moves_op known o -> moves known (act o).
Proof. by split. Qed.
(** A background task has no updates, nor has what could be one. *)
Lemma quiet_moves known {A : Type} (p : Prog A) : quiet R_background p -> moves known p.
Proof.
  revert known. induction p as [A a|A X o k IH|A t child IHc k IH]; intros known; cbn; [done|..].
  - intros [O K]. split; [|by auto]. destruct o; try done. by destruct O.
  - destruct t; [done|]. intros [C K]. auto.
Qed.

(** ** The execution *)
Definition retired (t : trace) (grant : RuntimeAuthorityGrant) : Prop := seen (L_retired grant) t.
Definition proceeds (w : World) (p : Prog unit) : Prop :=
  exists known, (forall grant, grant ∈ known -> retired w.(wd_log) grant) /\ moves known p.
Record world_forward (w : World) : Prop := {
  wf_ok : journal_ok w.(wd_journal);
  wf_ahead : ahead (retired w.(wd_log)) w.(wd_journal) }.
Record config_forward (c : Config) : Prop := {
  cfw_world : world_forward c.(cf_world);
  cfw_main : proceeds c.(cf_world) c.(cf_main);
  cfw_keeper : proceeds c.(cf_world) c.(cf_keeper);
  cfw_background : forall p, p ∈ c.(cf_background) -> proceeds c.(cf_world) p }.
(** What one step, and any number of them, does to the world. *)
Record world_le (w v : World) : Prop := {
  wl_log : w.(wd_log) `suffix_of` v.(wd_log);
  wl_memory : journal_le (retired v.(wd_log)) (memory w) (memory v) }.

Lemma retired_later (t u : trace) grant : t `suffix_of` u -> retired t grant -> retired u grant.
Proof. intros [l ->] R. unfold retired, seen. rewrite fmap_app. apply elem_of_app. by right. Qed.
#[export] Instance world_le_preorder : PreOrder world_le.
Proof.
  split; [by split|]. intros w v u [L M] [L' M']. split; [by etransitivity|].
  etransitivity; [|exact M']. eapply journal_le_mono; [|exact M]. intros g. by apply retired_later.
Qed.
Lemma proceeds_later w v p : w.(wd_log) `suffix_of` v.(wd_log) -> proceeds w p -> proceeds v p.
Proof. intros L (known & K & P). exists known. split; [|done]. intros g Hg. apply (retired_later _ _ _ L), K, Hg. Qed.

(** The same journal, a longer log. *)
Lemma same_forward w v : v.(wd_journal) = w.(wd_journal) -> w.(wd_log) `suffix_of` v.(wd_log) ->
  world_forward w -> world_le w v /\ world_forward v.
Proof.
  intros E L [Ok_ Ah]. split; split; [done|unfold memory; by rewrite E|by rewrite E|rewrite E].
  eapply ahead_mono; [|exact Ah]. intros g. by apply retired_later.
Qed.
Lemma suffix_log e w : w.(wd_log) `suffix_of` (log e w).(wd_log).
Proof. by eexists [_]. Qed.

Lemma update_world {A : Type} w (m : Mutation A) save j r :
  mutation_le (retired w.(wd_log)) m -> keeps_keys m -> update m save w.(wd_journal) = (j, r) ->
  world_forward w -> let v := log (L_saved j.(nj_disk)) (w <| wd_journal := j |>) in
  w.(wd_log) `suffix_of` v.(wd_log) /\ world_le w v /\ world_forward v.
Proof.
  intros Ml Ks U [Ok_ Ah] v. destruct (update_forward _ _ _ _ _ _ Ml U Ok_ Ah) as [Lj Aj].
  assert (L : wd_log w `suffix_of` wd_log v) by by eexists [_].
  assert (R : forall g, retired (wd_log w) g -> retired (wd_log v) g) by (intros g; by apply retired_later).
  split; [done|]. split; (split; [first [done|by eapply update_ok]|]); [by apply (journal_le_mono _ _ _ _ R)|by apply (ahead_mono _ _ _ R)].
Qed.

Lemma sem_forward {X : Type} (o : Op X) i w x v known :
  sem o i w = Some (x, v) -> moves_op known o -> (forall g, g ∈ known -> retired w.(wd_log) g) ->
  world_forward w ->
  world_le w v /\ world_forward v /\ forall g, g ∈ learned o x ++ known -> retired v.(wd_log) g.
Proof.
  intros S O K F.
  assert (Same : forall u, v = u -> u.(wd_journal) = w.(wd_journal) -> w.(wd_log) `suffix_of` u.(wd_log) ->
    (forall g, g ∈ learned o x -> retired u.(wd_log) g) ->
    world_le w v /\ world_forward v /\ forall g, g ∈ learned o x ++ known -> retired v.(wd_log) g).
  { intros u -> E L R. destruct (same_forward w u E L F) as [Le Fu]. split_and!; [done..|].
    intros g [Hg|Hg]%elem_of_app; [auto|]. apply (retired_later _ _ _ L), K, Hg. }
  assert (Logs : forall e, v = log e w -> learned o x = [] ->
    world_le w v /\ world_forward v /\ forall g, g ∈ learned o x ++ known -> retired v.(wd_log) g).
  { intros e E N. apply (Same (log e w)); [done..|apply suffix_log|]. rewrite N. by intros g ?%not_elem_of_nil. }
  destruct o as [|A m| | |s|cp d|A r|A r|ms s|A c|A c session|ws pt|c|A f|til|]; cbn in S.
  2: { destruct i; try done. destruct (update (m now later) save (wd_journal w)) as [j r] eqn:U.
       injection S as _ <-. destruct (O now later) as [Le Ks].
       assert (Ml : mutation_le (retired (wd_log w)) (m now later)) by by apply (mutation_le_mono (.∈ known)).
       destruct (update_world w _ save j r Ml Ks U F) as (L & Le' & F'). split_and!; [done..|].
       intros g Hg. apply (retired_later _ _ _ L), K, Hg. }
  all: destruct i; try done; cbn in S.
  all: repeat (case_match || (destruct (host_value _ _) as [?|]; cbn in S) || (destruct (f _ _) as [[??]|]; cbn in S));
    simplify_eq; try done.
  all: try (by eapply Same; [done..|intros g ?%not_elem_of_nil]).
  all: try (by eapply Logs).
  all: try (destruct c; by eapply Same; [done..|intros g ?%not_elem_of_nil]).
  - unfold answered in *. destruct (read_reply _ _); [by eapply Logs|]. by eapply Same; [done..|intros g ?%not_elem_of_nil].
  - eapply Same; [done..|apply suffix_log|]. intros g ->%list_elem_of_singleton. unfold retired, seen. left.
Qed.

Lemma advance_forward p i w p' child w' :
  advance p i w = Some (p', child, w') -> proceeds w p -> world_forward w ->
  world_le w w' /\ world_forward w' /\ proceeds w' p' /\ forall t q, child = Some (t, q) -> proceeds w' q.
Proof.
  intros E (known & K & P) F. destruct p as [u|X o k|t q k]; cbn in E, P; [done|..].
  - destruct (sem o i w) as [[x v]|] eqn:S; [|done]. injection E as <- <- <-. destruct P as [O Pk].
    destruct (sem_forward o i w x v known S O K F) as (L & Fv & Kv). split_and!; [done..| |done].
    exists (learned o x ++ known). split; [exact Kv|apply Pk].
  - injection E as <- <- <-. destruct P as [C Pk]. split_and!; [done|done|by exists known|].
    intros t' q' [= <- <-]. by exists known.
Qed.
Lemma start_task_forward child c c' :
  start_task child c = Some c' -> config_forward c -> (forall t q, child = Some (t, q) -> proceeds c.(cf_world) q) ->
  world_le c.(cf_world) c'.(cf_world) /\ config_forward c'.
Proof.
  intros E Cf Ch. destruct child as [[[] q]|]; cbn in E.
  - destruct (is_done _); [|done]. injection E as <-. destruct Cf as [Fw Fm Fk Fb].
    destruct (same_forward c.(cf_world) (c.(cf_world) <| wd_keeper_done := is_done q |>)) as [L F]; [done..|].
    split; [exact L|]. split; cbn; [exact F|exact Fm|by eapply Ch|exact Fb].
  - injection E as <-. destruct Cf as [Fw Fm Fk Fb]. split; [done|]. split; cbn; try done.
    intros p [Hp| ->%list_elem_of_singleton]%elem_of_app; [by apply Fb|by eapply Ch].
  - by injection E as <-.
Qed.

Section Run.
Variable program : Prog unit.
Hypothesis program_moves : moves [] program.

Lemma others_later w v (l : list (Prog unit)) : world_le w v -> (forall p, p ∈ l -> proceeds w p) -> forall p, p ∈ l -> proceeds v p.
Proof. intros [L _] P p Hp. by apply (proceeds_later w), P. Qed.
(** A world with other variables. *)
Lemma same_config c v : v.(wd_journal) = c.(cf_world).(wd_journal) -> v.(wd_log) = c.(cf_world).(wd_log) ->
  config_forward c -> world_le c.(cf_world) v /\
  config_forward {| cf_world := v; cf_main := c.(cf_main); cf_keeper := c.(cf_keeper); cf_background := c.(cf_background) |}.
Proof.
  intros Ej El [Fw Fm Fk Fb]. assert (L : wd_log (cf_world c) `suffix_of` wd_log v) by (rewrite El; done).
  destruct (same_forward _ v Ej L Fw) as [Le F]. split; [done|].
  split; cbn; [done|by eapply proceeds_later..|]. by apply (others_later _ _ _ Le).
Qed.
Lemma step_forward t c c' : step program t c = Some c' -> config_forward c ->
  world_le c.(cf_world) c'.(cf_world) /\ config_forward c'.
Proof.
  intros E Cf. pose proof Cf as [Fw Fm Fk Fb]. destruct t as [i|i|n i| |session fired now|]; cbn in E.
  - destruct (advance (cf_main c) i _) as [[[p child] w']|] eqn:Ad; [|done]. cbn in E.
    destruct (advance_forward _ _ _ _ _ _ Ad Fm Fw) as (L & F & Pp & Ch).
    eapply start_task_forward in E as [L' C']; [split; [by etransitivity|done]| |exact Ch].
    split; cbn; [done..|eapply proceeds_later; [apply L|done]|by apply (others_later _ _ _ L)].
  - destruct (advance (cf_keeper c) i _) as [[[p child] w']|] eqn:Ad; [|done]. cbn in E.
    destruct (advance_forward _ _ _ _ _ _ Ad Fk Fw) as (L & F & Pp & Ch).
    destruct (same_forward w' (w' <| wd_keeper_done := is_done p |>)) as [L1 F1]; [done..|].
    eapply start_task_forward in E as [L' C']; [split; [etransitivity; [exact L|]; by etransitivity|done]| |exact Ch].
    split; cbn; [done|eapply proceeds_later; [apply L|done]|done|by apply (others_later _ _ _ L)].
  - destruct (cf_background c !! n) as [q|] eqn:Q; [|done]. cbn in E.
    destruct (advance q i _) as [[[p child] w']|] eqn:Ad; [|done]. cbn in E.
    assert (Pq : proceeds (cf_world c) q) by by eapply Fb, list_elem_of_lookup_2.
    destruct (advance_forward _ _ _ _ _ _ Ad Pq Fw) as (L & F & Pp & Ch).
    eapply start_task_forward in E as [L' C']; [split; [by etransitivity|done]| |exact Ch].
    split; cbn; [done|eapply proceeds_later; [apply L|done]..|].
    intros r [->|Hr]%elem_of_insert_inv; [done|]. by apply (others_later _ _ _ L Fb).
  - injection E as <-. by apply same_config.
  - destruct (lc_monitors _ !! session); [|done]. injection E as <-. by apply same_config.
  - destruct (open _) as [j|] eqn:O; [|done]. injection E as <-. destruct Fw as [Ok_ Ah].
    destruct (open_forward _ _ _ O Ah) as [Lj Aj]. cbn. split; [by split|].
    assert (B : forall p, moves [] p -> forall w, proceeds w p) by (intros p M w; exists []; split; [by intros g ?%not_elem_of_nil|done]).
    split; cbn; [split; cbn; [by eapply opened_ok; [apply jo_disk_keys|]|done]|by apply B|by apply B|by intros p ?%not_elem_of_nil].
Qed.
Lemma execute_forward schedule c c' : execute program schedule c = Some c' -> config_forward c ->
  world_le c.(cf_world) c'.(cf_world) /\ config_forward c'.
Proof.
  revert c. induction schedule as [|t schedule IH]; intros c E Cf; cbn in E; [by injection E as <-|].
  destruct (step program t c) as [d|] eqn:S; [|done]. destruct (step_forward _ _ _ S Cf) as [L Cd].
  destruct (IH d E Cd) as [L' C']. split; [by etransitivity|done].
Qed.
Lemma first_boot_forward : config_forward (first_boot program).
Proof.
  assert (E : nodeJournalStateSchema empty_state = Some empty_state) by done.
  assert (B : forall p, moves [] p -> forall w, proceeds w p) by (intros p M w; exists []; split; [by intros g ?%not_elem_of_nil|done]).
  split; cbn; [|by apply B|by apply B|by intros p ?%not_elem_of_nil].
  split; cbn; [|by exists empty_state]. apply (opened_ok empty_state); [split; constructor|]. unfold open. by rewrite E.
Qed.
End Run.
End Moves.

(** ** The programs *)
Create HintDb moves.
Ltac moves_step :=
  lazymatch goal with
  | |- moves _ (bind _ _) => apply moves_bind; [|intros ?]
  | |- moves _ (try_catch _ _) => apply moves_bind; [|intros ?]
  | |- moves _ (lift _) => exact I
  | |- moves _ (ok _) => exact I
  | |- moves _ (raise _) => exact I
  | |- moves _ (Ret _) => exact I
  | |- moves _ (match ?x with _ => _ end) => destruct x
  | |- moves _ (act (OnJournal _)) => solve [auto with moves]
  | |- moves _ (act _) => apply moves_act; exact I
  | |- moves _ (fork _ _) => split; [|exact I]
  | |- moves _ _ => first [solve [auto with moves]|apply quiet_moves; solve [auto with quiet]]
  end.
Ltac moves := repeat moves_step.
(** An update that leaves what moves forward. *)
Ltac same := intros ? ? ? _ [= <-]; apply same_le; by split.

Section Programs.
Context `{Zod, NodeJs} (config : NodeConfig).

Lemma moves_request known {A : Type} (q : RelayRequest A) s : moves known (request q s).
Proof.
  unfold request. destruct (request_path q); [|exact I]. generalize 1. generalize 2%nat. intros n.
  revert known. induction n as [|n IH]; intros known k; cbn [request_attempts]; moves; apply IH.
Qed.
Lemma moves_journal known {A : Type} (m : Z -> Z -> Mutation A) :
  (forall now later, mutation_le (.∈ known) (m now later)) -> (forall now later, keeps_keys (m now later)) ->
  moves known (act (OnJournal m)).
Proof. intros L K. apply moves_act. intros now later. by split. Qed.
Lemma moves_edit known d f : (forall now, forwards (.∈ known) (f now)) -> moves known (edit d f).
Proof.
  intros F. apply moves_journal; [|intros; apply update_delivery_keys].
  intros now later. apply update_delivery_le. intros e e' V E. destruct (f now e) as [g|] eqn:Eg; [|done].
  injection E as <-. transitivity g; [by eapply F|]. apply same_le. by split.
Qed.
Hint Resolve moves_request moves_edit : moves.
Lemma moves_acceptance known m i accepted : moves known (record_acceptance m i accepted).
Proof. apply moves_journal; auto with journal. Qed.
Lemma moves_quarantine known m error : moves known (act (OnJournal (fun _ _ => quarantineMissionAcceptance m error))).
Proof. apply moves_journal; auto with journal. Qed.
Lemma moves_session known session : moves known (act (OnJournal (fun _ _ => setMissionSession session))).
Proof. apply moves_journal; auto with journal. Qed.
Lemma moves_start_input known d input : moves known (act (OnJournal (fun now _ => checkpointStartTurnInput d input now))).
Proof. apply moves_journal; auto with journal. Qed.
Lemma moves_authority known d g expected :
  moves known (act (OnJournal (fun now _ => checkpointRuntimeAuthority d g now expected))).
Proof. apply moves_journal; auto with journal. Qed.
Lemma moves_page known items cursor : moves known (act (OnJournal (fun now _ => ingestCursorPage items cursor now))).
Proof. apply moves_journal; auto with journal. Qed.
Lemma moves_recoverable known items : moves known (act (OnJournal (fun now _ => ingestRecoverable items now))).
Proof. apply moves_journal; auto with journal. Qed.
Lemma moves_cursor known cursor : moves known (act (OnJournal (fun _ _ => setMissionAssignmentCursor cursor))).
Proof. apply moves_journal; auto with journal. Qed.
Hint Resolve moves_acceptance moves_quarantine moves_session moves_start_input moves_authority moves_page
  moves_recoverable moves_cursor : moves.

(** *** Grants *)
(** Both slots are cleared once the grant in one of them is known to be revoked. *)
Lemma retire_forwards (known : list RuntimeAuthorityGrant) active predecessor grant :
  (match predecessor with Some g => Some g | None => active end) = Some grant -> grant ∈ known ->
  forwards (.∈ known) (retire_grants active predecessor).
Proof.
  intros G K e e' V E. unfold retire_grants in E. destruct (_ || _) eqn:Same; [done|]. injection E as <-.
  bool_hyps. split; try done; [cbn; lia|]. intros g Eg. exists g. split; [by left|right].
  unfold grant_of in Eg. destruct (jd_runtime_authority e) as [a|] eqn:Ea.
  - destruct (eo_active _ V a Ea) as (_ & P & _). simplify_eq. by rewrite P in G; simplify_eq.
  - simplify_eq. rewrite Eg in G. by simplify_eq.
Qed.
Lemma moves_retire known d : moves known (retireJournaled config.(nc_port) d).
Proof.
  unfold retireJournaled. generalize 4%nat. intros n. revert known.
  induction n as [|n IH]; intros known; cbn [retire_attempts]; [exact I|].
  apply moves_bind; [apply quiet_moves; auto with quiet|intros [current|e]; [|exact I]]. cbv zeta.
  destruct (match jd_runtime_authority_predecessor current with Some g => Some g | None => _ end) as [grant|] eqn:G;
    [|exact I].
  destruct (negb (nc_port config)); [exact I|]. split; [done|]. intros [[]|e]; [|exact I]. cbn [learned app bind].
  apply moves_bind; [|intros r; moves; apply IH]. apply moves_edit. intros now. eapply retire_forwards; [exact G|left].
Qed.
Lemma moves_install_session known grant lease read ready : moves known read -> (forall s, moves known (ready s)) ->
  moves known (install_session grant lease read ready).
Proof.
  intros R B. assert (L : forall l, moves known (assertLeaseLive grant l)) by (intros l; unfold assertLeaseLive; moves).
  assert (At : forall n l, moves known (install_attempts grant read ready n l)).
  { induction n as [|n IH]; intros l; cbn [install_attempts]; [exact I|]. unfold readLatestRenewal.
    split; [done|]. intros x. assert (Lk : learned (Port (InstallAuthority grant l)) x = []) by done.
    rewrite Lk. cbn [app bind]. moves; auto. }
  unfold install_session. moves; auto.
Qed.
Lemma moves_resolve known nodeId input n : moves known (resolve_attempts nodeId input n).
Proof. induction n as [|n IH]; cbn [resolve_attempts]; moves; auto. Qed.
Lemma moves_install_authority known nodeId input ready : (forall s, moves known (ready s)) ->
  moves known (install_authority nodeId input ready).
Proof.
  intros R. unfold install_authority. pose proof (moves_resolve known nodeId input 4). moves; auto.
  apply moves_install_session; [moves|done].
Qed.
Lemma moves_install known authorization entry info ready : (forall s, moves known (ready s)) ->
  moves known (installRuntimeAuthority config authorization entry info ready).
Proof. intros R. unfold installRuntimeAuthority. moves. by apply moves_install_authority. Qed.
Lemma moves_install_pending known entry : moves known (installAuthorityForPendingCompletion config entry).
Proof. unfold installAuthorityForPendingCompletion. moves; auto. apply moves_install. intros s. exact I. Qed.
Hint Resolve moves_retire moves_install_pending : moves.
Lemma moves_retire_completed known d authority : moves known (retireCompletedRuntimeAuthority config d authority).
Proof. unfold retireCompletedRuntimeAuthority, revokeLocal_opt. moves. Qed.
Hint Resolve moves_retire_completed : moves.

(** *** Updates that leave what moves forward *)
Lemma moves_mark_authority known d e : moves known (markAuthorityLost d e).
Proof. unfold markAuthorityLost. moves. apply moves_edit. same. Qed.
Lemma moves_mark_lease known d e : moves known (markLeaseLost d e).
Proof. unfold markLeaseLost. moves. apply moves_edit. same. Qed.
Lemma moves_retain known d e : moves known (retainCompletionIntent d e).
Proof.
  unfold retainCompletionIntent. moves. apply moves_edit. intros now x y _ E. destruct (jd_operation x) as [[]|]; try done.
  injection E as <-. apply same_le. by split.
Qed.
Lemma moves_defer known d at_ e : moves known (deferRetry d at_ e).
Proof. unfold deferRetry. moves. apply moves_edit. same. Qed.
Lemma moves_pending known d e : moves known (recordAuthorityTransitionPending d e).
Proof. unfold recordAuthorityTransitionPending. moves. apply moves_edit. same. Qed.
Hint Resolve moves_mark_authority moves_mark_lease moves_retain moves_defer moves_pending : moves.
Lemma moves_cancel_lost known d e : moves known (cancelAndMarkAuthorityLost d e).
Proof. unfold cancelAndMarkAuthorityLost. moves. Qed.
Hint Resolve moves_cancel_lost : moves.

(** *** The operations on the Relay *)
Lemma claimed_forwards (known : list RuntimeAuthorityGrant) answer : forwards (.∈ known) (claimed answer).
Proof.
  intros e f _ E. destruct answer as [item r b|delivery r b]; cbn in E; [|injection E as <-; apply same_le; by split].
  destruct (stageRuntimeAuthoritySuccessor _ _) as [g|] eqn:S; [|done]. injection E as <-.
  apply staged_same in S. apply same_le. destruct S. by split.
Qed.
Lemma moves_claim known d : moves known (claim config d).
Proof. unfold claim. moves; apply moves_edit; first [same|intros now; apply claimed_forwards]. Qed.
Lemma moves_start known d : moves known (start d).
Proof. unfold start, lost_or_rethrown. moves; apply moves_edit; same. Qed.
Lemma moves_confirm known d : moves known (confirmLease d).
Proof.
  unfold confirmLease. generalize 2%nat. intros n. induction n as [|n IH]; cbn [confirm_attempts]; [exact I|].
  unfold lost_or_rethrown. moves; try done; apply moves_edit; same.
Qed.
Lemma moves_publish known d input authority : moves known (publishCompletion d input authority).
Proof. unfold publishCompletion, complete_call, publish_failed. moves. apply moves_edit. same. Qed.
Hint Resolve moves_claim moves_start moves_confirm moves_publish : moves.
Lemma moves_complete known d result authority : moves known (complete d result authority).
Proof. unfold complete. moves. apply moves_edit. same. Qed.
(** The attempt that ends is archived whole. *)
Lemma archive_forwards (known : list RuntimeAuthorityGrant) now : forwards (.∈ known) (archiveHostExecution now).
Proof.
  intros e f V E. unfold archiveHostExecution in E. destruct (hasJournaledRuntimeAuthority e) eqn:G; [done|].
  assert (N : grant_of e = None).
  { unfold hasJournaledRuntimeAuthority in G. unfold grant_of. by destruct (jd_runtime_authority e), (jd_runtime_authority_predecessor e). }
  cbv zeta in E. destruct (negb _) eqn:Ev.
  - injection E as <-. bool_hyps. split; try done; [cbn; lia|cbn; lia|cbn; lia| |by intros g; rewrite N].
    cbn. intros _ i Ei. destruct (jd_start_turn_input e); done.
  - destruct (jd_start_turn_input e) as [i|] eqn:Ei; [|done]. destruct (startTurnInputDigest i) as [digest|] eqn:D; [|done].
    injection E as <-. split; try done; [cbn; lia|cbn; lia|cbn; lia|by apply prefix_app_r| |by intros g; rewrite N].
    intros _ j Ej. assert (j = i) as -> by congruence. eexists. split; [apply elem_of_app; right; by apply list_elem_of_singleton|done].
Qed.
Lemma released_forwards (known : list RuntimeAuthorityGrant) now answer : forwards (.∈ known) (released now answer).
Proof.
  intros e f V E. unfold released in E. cbv zeta in E. case_bool_decide.
  - destruct (archiveHostExecution now e) as [g|] eqn:A; [|done]. injection E as <-.
    transitivity g; [by eapply archive_forwards|]. apply same_le. by split.
  - injection E as <-. apply same_le. by split.
Qed.
Lemma moves_publish_release known d input : moves known (publishRelease config d input).
Proof. unfold publishRelease, lost_or_rethrown. moves. apply moves_edit. intros now. apply released_forwards. Qed.
Hint Resolve moves_complete moves_publish_release : moves.
Lemma moves_release known d c summary : moves known (releaseOrLoseLease config d c summary).
Proof. unfold releaseOrLoseLease, release. moves. apply moves_edit. same. Qed.
Lemma moves_reclaim known d : moves known (reclaimLease config d).
Proof. unfold reclaimLease. moves. apply moves_edit. same. Qed.
Hint Resolve moves_release moves_reclaim : moves.
Lemma moves_reclaim_or_lose known d e : moves known (reclaim_or_lose config d e).
Proof. unfold reclaim_or_lose. moves. Qed.
Hint Resolve moves_reclaim_or_lose : moves.
Lemma moves_prepare known d : moves known (prepareExecutableLease config d).
Proof.
  unfold prepareExecutableLease. generalize 4%nat. intros n. induction n as [|n IH]; cbn [prepare_attempts]; [exact I|].
  unfold confirmLeaseWithReclaim. moves; auto.
Qed.
Hint Resolve moves_prepare : moves.

(** *** The host's turn *)
Lemma moves_keeper known d attempt fuel window : moves known (keeper_run d attempt fuel window).
Proof.
  revert window. induction fuel as [|fuel IH]; intros window; cbn [keeper_run]; unfold keeper_renewal; moves; auto;
    apply moves_edit; same.
Qed.
Lemma moves_wait known {A : Type} d attempt (c : HostCall A) authority : moves known (waitForHostOperation d attempt c authority).
Proof. unfold waitForHostOperation, signal_of. moves. Qed.
Hint Resolve moves_keeper moves_wait : moves.
Lemma moves_consume known d attempt policy authority fuel state events :
  moves known (consume_events d attempt policy authority fuel state events).
Proof.
  revert state events. induction fuel as [|fuel IH]; intros state events; cbn [consume_events]; [moves|]. cbv zeta.
  moves; auto. apply moves_edit. intros now e f _ [= <-]. apply same_le. split; try done. cbn. by apply prefix_app_r.
Qed.
Lemma moves_open_turn known d attempt authorization authority : moves known (open_turn d attempt authorization authority).
Proof. unfold open_turn. cbv zeta. moves. apply moves_edit. same. Qed.
Lemma moves_start_host known d attempt input authority : moves known (start_host d attempt input authority).
Proof. unfold start_host. moves. Qed.
Hint Resolve moves_consume moves_open_turn moves_start_host : moves.
Lemma moves_run_turn known fuel d attempt authorization : moves known (run_turn config fuel d attempt authorization).
Proof.
  unfold run_turn, consumeHostEvents, set_authority, keeper_stop. moves; [|apply moves_edit; same].
  apply moves_install. intros s. moves.
Qed.
Lemma moves_turn_failed known d e : moves known (turn_failed config d e).
Proof. unfold turn_failed, keeper_stop. moves; apply moves_edit; same. Qed.
Hint Resolve moves_run_turn moves_turn_failed : moves.
Lemma moves_host_turn known fuel d attempt turn authorization window :
  moves known (host_turn config fuel d attempt turn authorization window).
Proof. unfold host_turn, begin_turn. moves. Qed.
Hint Resolve moves_host_turn : moves.

(** *** The stages *)
Lemma moves_lose known {A : Type} d e : moves known (lose_lease (A := A) d e).
Proof. unfold lose_lease. moves. Qed.
Lemma moves_claim_entry known d : moves known (claim_entry config d).
Proof. unfold claim_entry. moves. Qed.
Hint Resolve moves_lose moves_claim_entry : moves.
Lemma moves_resume_claimed known d e : moves known (resume_claimed config d e).
Proof. unfold resume_claimed. moves. Qed.
Lemma moves_resume_started known d e : moves known (resume_started d e).
Proof. unfold resume_started, resume_start, reread. moves. Qed.
Lemma moves_resume_renewed known d e : moves known (resume_renewed d e).
Proof. unfold resume_renewed, resume_renewal, reread. moves. Qed.
Lemma moves_resume_completed known d e : moves known (resume_completed config d e).
Proof. unfold resume_completed, resume_completion. cbv zeta. moves. Qed.
Lemma moves_resume_released known d e : moves known (resume_released config d e).
Proof. unfold resume_released, resume_release. moves. Qed.
Lemma moves_resume_lost known d e : moves known (resume_lost config d e).
Proof. unfold resume_lost, reread. moves. Qed.
Lemma moves_claim_stored known d now e : moves known (claim_stored config d now e).
Proof. unfold claim_stored. moves. Qed.
Lemma moves_authorize known d e turn : moves known (authorize_or_refuse config d e turn).
Proof. unfold authorize_or_refuse. moves. Qed.
Lemma moves_publish_stored known d authorization result : moves known (publish_stored config d authorization result).
Proof. unfold publish_stored. moves. apply moves_install. intros s. exact I. Qed.
Lemma moves_execute known fuel d attempt turn authorization : moves known (execute_turn config fuel d attempt turn authorization).
Proof. unfold execute_turn. moves. Qed.
Hint Resolve moves_resume_claimed moves_resume_started moves_resume_renewed moves_resume_completed moves_resume_released
  moves_resume_lost moves_claim_stored moves_authorize moves_publish_stored moves_execute : moves.
Lemma moves_process known fuel d now : moves known (process config fuel d now).
Proof. unfold process. cbv zeta. moves. Qed.
Hint Resolve moves_process : moves.
Lemma moves_entries known fuel now blocked entries : moves known (process_entries config fuel now blocked entries).
Proof. revert blocked. induction entries as [|e l IH]; intros blocked; cbn [process_entries]; cbv zeta; moves; auto. Qed.
Hint Resolve moves_entries : moves.
Lemma moves_next known fuel now : moves known (processNext config fuel now).
Proof. unfold processNext. moves. Qed.
Hint Resolve moves_next : moves.

(** *** The daemon *)
Lemma moves_submit known m input : moves known (submitOrQuarantineMissionAcceptance m input).
Proof. unfold submitOrQuarantineMissionAcceptance, submitMissionAcceptance. moves. Qed.
Hint Resolve moves_submit : moves.
Lemma moves_resubmit known intents n : moves known (resubmit intents n).
Proof. revert n. induction intents as [|[m a] l IH]; intros n; cbn [resubmit]; moves; auto. Qed.
Lemma moves_page_missions known now missions n : moves known (accept_page config now missions n).
Proof.
  revert n. induction missions as [|m l IH]; intros n; cbn [accept_page]; cbv zeta; moves; auto.
  apply quiet_moves, quiet_prepare.
Qed.
Hint Resolve moves_resubmit moves_page_missions : moves.
Lemma moves_accept known : moves known (acceptPendingMissions config).
Proof. unfold acceptPendingMissions. cbv zeta. moves. Qed.
Lemma moves_initialize known b : moves known (initialize config b).
Proof. apply quiet_moves, quiet_initialize. Qed.
Hint Resolve moves_accept moves_initialize : moves.
Lemma moves_cycle known fuel b : moves known (runCycle config fuel b).
Proof. unfold runCycle. moves. Qed.
Hint Resolve moves_cycle : moves.
Lemma moves_cycles known fuel : moves known (cycles config fuel).
Proof. induction fuel as [|fuel IH]; cbn [cycles]; moves; auto. Qed.
Hint Resolve moves_cycles : moves.
Lemma moves_node known fuel : moves known (ForegroundNode_run config fuel).
Proof. unfold ForegroundNode_run. moves. Qed.
End Programs.

Lemma journal_le_entry `{Zod, NodeJs} gone s t d e : journal_le gone s t -> entry_of d s = Some e ->
  exists f, entry_of d t = Some f /\ entry_le gone e f.
Proof. intros L. apply (jl_deliveries _ _ _ L). Qed.

(** C9: a Node's journal only moves forward.  Whatever the schedule of its tasks, the
    answers, the failed writes, the crashes and the restarts: the cursor never moves
    back; no delivery is dropped, or becomes one with other content (short of a sha256
    collision); within an attempt its start input is fixed and its host events are only
    added to, and when another attempt begins, the history holds for good the input's
    digest and the events of the one that ended; a Mission keeps its session; an
    acceptance keeps its input, and once it is accepted or quarantined it stays so; and
    a grant is given up only for a successor with the same trusted scope under a newer
    fence, or once the runtime has confirmed the revocation of it or of a successor. *)
Theorem node_journal_moves_forward `{Zod, NodeJs} config fuel schedule schedule' c c' :
  let program := ForegroundNode_run config fuel in
  execute program schedule (first_boot program) = Some c -> execute program schedule' c = Some c' ->
  journal_le (retired c'.(cf_world).(wd_log)) (memory c.(cf_world)) (memory c'.(cf_world)) /\
  forall d e f, entry_of d (memory c.(cf_world)) = Some e -> entry_of d (memory c'.(cf_world)) = Some f ->
    content_of e.(jd_item) = content_of f.(jd_item) \/ sha256_collision.
Proof.
  intros program E E'. pose proof (moves_node config [] fuel) as M.
  destruct (execute_forward program M _ _ _ E) as [_ Cf]; [by apply first_boot_forward|].
  destruct (execute_forward program M _ _ _ E' Cf) as [[_ L] Cf']. split; [exact L|]. intros d e f Ee Ef.
  assert (Digest : forall x k y, config_forward x -> entry_of k (memory x.(cf_world)) = Some y ->
    y.(jd_identity_sha256) = deliveryIdentityDigest y.(jd_item)).
  { intros x k y X Y%dict_get_elem. by destruct (so_delivery _ (jo_memory _ (wf_ok _ (cfw_world _ X))) _ _ Y) as [_ []]. }
  destruct (journal_le_entry _ _ _ _ _ L Ee) as (f' & Ef' & Le). assert (f' = f) as -> by congruence.
  apply digest_binds. rewrite <-(Digest c d e Cf Ee), <-(Digest c' d f Cf' Ef'). apply (el_digest _ _ _ Le).
Qed.

(** ** The example *)
#[local] Existing Instance example_zod.
#[local] Existing Instance JournalSafety.ex_digests.

(** From the start of the turn, through the crash, to the completion that is sent again. *)
Definition ex_finishing : list Turn * Config := ex_play 35 ex_started.2.
Definition ex_lost : Config := default ex_finishing.2 (step ex_program Restart ex_finishing.2).
Definition ex_recovered : list Turn * Config := ex_play 32 ex_lost.
Lemma from_started :
  execute ex_program (ex_finishing.1 ++ Restart :: ex_recovered.1) ex_started.2 = Some ex_recovered.2.
Proof.
  assert (F : execute ex_program ex_finishing.1 ex_started.2 = Some ex_finishing.2)
    by (unfold ex_finishing; apply play_executes).
  assert (S : step ex_program Restart ex_finishing.2 = Some ex_lost) by (apply some_default; by_vm).
  assert (R : execute ex_program ex_recovered.1 ex_lost = Some ex_recovered.2)
    by (unfold ex_recovered; apply play_executes).
  exact (execute_app _ _ _ _ _ _ F (execute_cons _ _ _ _ _ _ S R)).
Qed.

(** The turn that was started is the one the three events belong to. *)
Lemma node_journal_moves_forward_witness : exists e f,
  entry_of (ex_delivery "4") (memory ex_started.2.(cf_world)) = Some e /\
  entry_of (ex_delivery "4") (memory ex_recovered.2.(cf_world)) = Some f /\
  length f.(jd_host_events) = 3%nat /\ e.(jd_start_turn_input) <> None /\
  f.(jd_start_turn_input) = e.(jd_start_turn_input) /\ e.(jd_host_events) `prefix_of` f.(jd_host_events).
Proof.
  pose proof (node_journal_moves_forward ex_config 8 _ _ _ _ until_started from_started) as [L _].
  destruct (entry_of (ex_delivery "4") (memory ex_started.2.(cf_world))) as [e|] eqn:E.
  - destruct (journal_le_entry _ _ _ _ _ L E) as (f & F & Le). exists e, f.
    assert (Se : ((fun e => (jd_execution_attempt e, non_null (jd_start_turn_input e))) <$>
      entry_of (ex_delivery "4") (memory ex_started.2.(cf_world))) = Some (1, true)) by by_vm.
    assert (Sf : ((fun e => (jd_execution_attempt e, length (jd_host_events e))) <$>
      entry_of (ex_delivery "4") (memory ex_recovered.2.(cf_world))) = Some (1, 3%nat)) by by_vm.
    rewrite E in Se. rewrite F in Sf. cbn in Se, Sf. injection Se as Ae Ie. injection Sf as Af Lf.
    assert (Same : jd_execution_attempt e = jd_execution_attempt f) by (rewrite Ae, Af; reflexivity).
    destruct (jd_start_turn_input e) as [i|] eqn:Ei; [|discriminate Ie].
    split; [reflexivity|]. split; [exact F|]. split; [exact Lf|]. split; [discriminate|].
    split; [exact (el_input _ _ _ Le Same i Ei)|exact (el_events _ _ _ Le Same)].
  - exfalso. assert (S : non_null (entry_of (ex_delivery "4") (memory ex_started.2.(cf_world))) = true) by by_vm.
    rewrite E in S. discriminate S.
Defined.
